(* ===== verification/_CoqProject ===== *)
-Q . S2P
Prelude.v
Bytes.v
Sha256.v
Config.v
Merkle.v
Json.v
Transaction.v
Ledger.v
FeeChecker.v
Float.v
Difficulty.v
Mempool.v
Chain.v
ForkChoice.v
Reorg.v
AddBlock.v
ChainSample.v
Siblings.v
CandidatePool.v
Matrix.v
PowHash.v
PowCache.v
Seal.v
Mining.v
Validator.v
Checkpoint.v
CheckpointIndex.v
Channel.v
MConnection.v
CompactBlock.v
Dht.v
BlockKeeper.v
Miner.v
Sync.v
Vm.v
Governance.v
