(* ===== verification/Prelude.v ===== *)
(** * NogoChain: a shallow embedding of the node's core

    NogoChain is a proof-of-work blockchain node written in Go.  Its consensus core lives in
    [blockchain/core], [blockchain/config], [blockchain/consensus], [blockchain/nogopow] and
    [blockchain/mempool]: a transaction is signed, hashed and encoded, waits in a mempool,
    is mined into a block, and the block is validated, applied to a map of accounts and
    linked into a chain; competing branches are kept in a fork store, the heaviest one wins,
    and the chain is reorganized to it.  This library models that core and proves what
    makes it correct.

    ** Files, in dependency order

    - [Prelude]: machine integers as [Z] with their wrap-around ([u64], [u32], [i64] ...), the
      error type [result] with its bind notations, stateful fallible code as [St],
      tactics and the lemmas all files share.
    - [Bytes]: byte strings, big and little endian numbers, hexadecimal, ULEB128.
    - [Sha256]: the hash function, executable.
    - [Config]: [config/monetary_policy.go], [config/types.go], [config/rules_hash.go]: block
      rewards, shares, fees, consensus parameters, the rules hash.
    - [Merkle]: [core/merkle.go]: roots, proofs and the cached tree.
    - [Json]: the part of Go's JSON encoder that is hashed.
    - [Transaction]: [core/types.go], [core/encoding.go]: addresses, transactions, blocks,
      signing preimages, ids, the binary encoding and its decoder.
    - [Ledger]: [applyBlockToState] of [core/chain_struct.go], its two tolerant variants in
      [core/chain.go] and the copy in [consensus/validator.go], state validation and merging.
    - [FeeChecker]: [core/fee_checker.go], against a class of what it asks of a mempool.
    - [Float], [Difficulty]: binary64 and big-float arithmetic, and the PI controller of
      [nogopow/difficulty_adjustment.go] with the checks of the two validators.
    - [Mempool]: [mempool/mempool.go], with the instance for the fee checker's class.
    - [Chain]: the [Chain] structure of [core/chain_struct.go] with the indexes, fork store,
      orphan pool, block validation and connection of [core/chain.go].
    - [ForkChoice]: cumulative work and its cache, fork completeness, tie breaker, best tip,
      common ancestor.
    - [Reorg]: reorganization, [AppendBlock], [RollbackToHeight] and the audit.
    - [AddBlock]: [AddBlock] with its canonical, fork and orphan paths, the reconnection of
      waiting orphans, [SetTip].
    - [ChainSample]: a concrete chain with a fork on which the theorems about the chain are
      applied.
    - [Siblings]: what [AddBlock] does with blocks beside the tip, the losers of a selection: an
      invariant under which the canonical chain stays.
    - [CandidatePool]: [core/candidate_pool.go]: the windows in which blocks near the tip
      compete, the selection of the winner and its commitment through [AddBlock], and the
      two locks.
    - [Matrix]: the fixed-point matrices of [nogopow/matrix.go] and their products.
    - [PowHash]: the proof-of-work hash of [nogopow/ai_hash.go] and [nogopow/matrix.go].
    - [PowCache]: the seed cache of [nogopow/cache.go] with its doubly linked list.
    - [Seal]: [nogopow/nogopow.go] and [nogopow/types.go]: headers, seal checks, mining.
    - [Mining]: [core/mining.go]: [MineTransfers] with its template, the engine's difficulty and
      ancestor cache, and the seal of [Seal] in the place of the chain's argument.
    - [Validator]: [consensus/validator.go], [consensus/forks.go] and the batch verification of
      [internal/crypto/crypto.go]: the validator of the synchronisation loop.
    - [Checkpoint]: [core/checkpoint_voting.go] with the handlers of
      [network/reactor/reactor_handlers.go] and [network/sync.go] around it: votes on
      checkpoints and the records made of them.
    - [CheckpointIndex]: [storage/checkpoint.go]: checkpoints by height and their binary form.
    - [Channel], [MConnection]: [network/mconnection]: packets, the channels of a peer
      connection with their reused receive buffers, the scheduler, the send and receive
      routines over a stream of bytes that may fail.
    - [CompactBlock]: [network/reactor/compact_block*.go] and its handlers: SipHash short
      identifiers, building and reconstructing blocks against the transaction pool behind
      an interface, reconstructions that wait for transactions.
    - [Dht]: [internal/networking/dht]: identifiers and distances, the buckets of the routing
      table and their operations, the nearest nodes, signed packets.
    - [BlockKeeper]: [network/block_keeper.go]: the choice of the peer to follow, the download
      of ranges, the worker and its pauses, headers and locators.
    - [Miner]: [miner/miner.go] and the selection of [cmd/wrappers.go]: which transactions a
      block takes, when the node mines, its goroutines as tasks, templates.
    - [Sync]: [network/sync.go]: the monitor that compares the chain with the peers, its events,
      and the loop as the world of the miner and the holder of the block keeper.
    - [Vm]: [vm/vm.go] and the Merkle trees of [vm/light_client.go].
    - [Governance]: the community fund of [contracts/community_fund_governance.go].

    ** State and effects

    A Go function that can fail returns [result]; one that changes the account map and can
    fail is an [St]; a step of the chain is an [M (Chain S) A], which reads and writes the
    whole chain and may end in [Halt]: a run-time panic or an endless loop, which no error
    handling catches.  The order in which Go ranges over a map is an argument wherever the
    result depends on it.  The ed25519 check and the clocks are
    arguments too, the proof-of-work seal is one of the chain's files and is supplied in
    [Mining]; the storage is the class [ChainStore].  Every operation of the chain runs
    under one mutex, so it is one step; goroutines and callbacks it starts are recorded in
    the chain's trace.

    ** Fuel

    The loops that follow parents ([work_walk], [segment_walk], [climb], [ancestor_walk]) get
    [walk_bound] steps, more than there are blocks to visit: a deterministic walk that takes
    more visits a block twice and never ends, and the model says [Diverge].  [rooted_bound]
    and [branch_bound] show that the walks over well-formed blocks stay below it.  The
    cascade of reconnected orphans removes one orphan per step, so the size of the orphan pool
    is enough ([cascade_enough]).  The other fuels are the lengths of the lists or sizes of
    the maps consumed, and [maxSteps] is the code's own limit.

    ** What the theorems show

    - Ledger: the exact effect of a block on balances, nonces and supply, the bound on the
      growth of the supply, no replay of a transfer, machine ranges on every path, and what
      a rejected block leaves behind.
    - Chain: [consistent] (the audit passes, work and tip are those of the blocks) is kept by
      connecting a block, by every successful reorganization and by a rollback; a valid
      branch is adopted; trying a fork never lowers the work; the best tip is the heaviest
      complete one, for every order of ranging over the fork store; the work cache is
      transparent; a reorganization that fails on the state leaves the chain broken.
    - AddBlock: a valid block on the tip extends the chain, a rejected one lowers no work, the
      fork store stays within its limits, reconnecting orphans terminates, and a parent hash
      that is too short to abbreviate stops the process.
    - CandidatePool: the windows are bounded and without duplicates, nodes with the same
      candidates rank them alike; the winner extends the chain and stays its tip through the
      adding of the losers as long as fork choice prefers none of them, and not otherwise.
    - Merkle: proofs verify; a verifying proof is for a leaf, or an input it hashes collides with
      one hashed for the tree; the cached tree refines the direct functions.
    - Config: the reward schedule and the soundness of its shares.
    - Transaction: exactly which transfers verify, what the preimage binds, address round
      trips, and the failure of the decoder.
    - Mempool: the invariant of all reachable pools, admission, replacement, eviction for
      every order, the size limit, the sorted views.
    - Proof of work: the blocked matrix product is the plain one, the fixed-point arithmetic is
      exact on 8-bit matrices, the cache is transparent although it leaks, a seal is accepted
      exactly when hash times difficulty fits in 256 bits, mining finds the first nonce that
      verifies, and the encoding that is hashed loses nothing.
    - Mining: a mined block is valid for the chain it was mined on and extends it; the
      validator used for synchronisation refuses slow ones.
    - Validator: the chain accepts a block it accepts exactly when link, height and merkle root
      are right, which it never looks at; batches of signatures are verified one by one; and blocks of
      more than ten transactions are refused.
    - Checkpoint: two agreeing votes make a checkpoint, whatever the number of voters; every
      record is signed; peers accept what two honest validators agree on.  The plain theorems
      after them show what the voting does not give: finality, a set of validators, and
      safety from stray votes.
    - CheckpointIndex: the binary form is read back, the root of a list binds it.
    - MConnection: messages arrive whole and in order over every interleaving, and promptly
      while ten packets are enough; longer ones stall.
    - CompactBlock: both reconstructions agree; what they return is never the announced
      block, and a block with missing transactions is never completed.
    - Dht: the table stays well formed and answers with the nearest nodes; no packet is ever
      accepted.
    - BlockKeeper: a peer that serves a chain is caught up with; headers are chained by their
      block hashes; a download that stops advancing after its first batch never ends.
    - Miner: what is selected is consecutive in nonces and applies when it can be paid for; a
      known heavier and higher peer defers mining; templates agree with ledger and validation.
    - Sync: a round says exactly whether a credible peer is heavier; such a peer stops the miner;
      the keeper catches up with the heaviest one when it is higher, and downloads nothing when it is
      not, which stalls both; a chain of high difficulty is never credible; the common
      ancestor is found.
    - Vm: every contract ends within its gas or panics; the light client's proofs never verify.
    - Governance: only approved proposals are paid, once, and the fund is accounted for.
    - FeeChecker, Difficulty: the accepted band of fees, ordered recommendations, bounds and
      direction of the next difficulty, and bounds of an accepted one.

    ** Not modelled

    - Code that nothing runs: the fork resolver and the seed consensus of
      [network/forkresolution] (the chain never calls its executor, no peer becomes a seed),
      the work accounting of [core/work.go] and [miner/work.go], [SyncWithPeer] and the old
      rounds of [network/sync.go], the block fetcher.
    - Integrity scores and the deployment of contracts, on which no block depends.
    - Input and output around the core: sockets and the switch, the bookkeeping of peers,
      storage, which is a class here, the API, wallets, the command line, the loaders of the
      configuration, metrics and logs.
    - Keccak-256, from a third-party package, and ed25519, which are arguments. *)

From stdpp Require Import base list gmap strings numbers.
From Stdlib Require Import ZArith Lia.

Open Scope Z_scope.

(** ** Machine integers

    Go's [uint64], [uint32], [uint8] and [int64] are kept as [Z]; every place
    where the source can wrap around goes through one of these functions. *)
Definition max_u64 : Z := 18446744073709551615.
Definition max_i64 : Z := 9223372036854775807.
Definition u64 (z : Z) : Z := z mod 18446744073709551616.
Definition u32 (z : Z) : Z := z mod 4294967296.
Definition u16 (z : Z) : Z := z mod 65536.
Definition u8 (z : Z) : Z := z mod 256.
Definition i64 (z : Z) : Z :=
  let r := u64 z in if r <=? max_i64 then r else r - 18446744073709551616.

Definition is_u64 (z : Z) : Prop := 0 <= z <= max_u64.
Definition is_u32 (z : Z) : Prop := 0 <= z < 4294967296.
Definition is_byte (z : Z) : Prop := 0 <= z < 256.

Definition add64 (a b : Z) : Z := u64 (a + b).
Definition sub64 (a b : Z) : Z := u64 (a - b).
Definition mul64 (a b : Z) : Z := u64 (a * b).
(** Go's unsigned division; the source never divides by a variable that can be 0
    at the places where this is used. *)
Definition div64 (a b : Z) : Z := a / b.

Declare Scope u64_scope.
Delimit Scope u64_scope with u64.
Arguments add64 (a b)%_u64_scope.
Arguments sub64 (a b)%_u64_scope.
Arguments mul64 (a b)%_u64_scope.
Arguments div64 (a b)%_u64_scope.
Infix "+" := add64 : u64_scope.
Infix "-" := sub64 : u64_scope.
Infix "*" := mul64 : u64_scope.
Infix "/" := div64 : u64_scope.

(** ** Errors

    A Go [error] is its message, without the operands [fmt.Errorf] prints. *)
Definition error : Type := string.

Inductive result (A : Type) : Type :=
| Ok (a : A)
| Err (e : error).
Arguments Ok {A} _.
Arguments Err {A} _.

Definition result_bind {A B : Type} (m : result A) (k : A -> result B) : result B :=
  match m with
  | Ok a => k a
  | Err e => Err e
  end.

(** [if cond { return err }] *)
Definition fail_if (cond : bool) (e : error) : result unit :=
  if cond then Err e else Ok tt.

(** [fmt.Errorf("ctx: %w", err)]: the cause is kept after the context. *)
Definition wrap {A : Type} (ctx : string) (m : result A) : result A :=
  match m with
  | Ok a => Ok a
  | Err e => Err (ctx +:+ ": " +:+ e)
  end.

Definition is_ok {A : Type} (m : result A) : bool :=
  match m with Ok _ => true | Err _ => false end.

(** ** Results that end the run

    A run-time panic or an endless loop, which no error handling of the code catches. *)
Inductive halt : Type := Panic (what : string) | Diverge.

Inductive res (A : Type) : Type := Val (a : A) | Halt (h : halt).
Arguments Val {A} a.
Arguments Halt {A} h.

Definition res_bind {A B : Type} (m : res A) (k : A -> res B) : res B :=
  match m with Val a => k a | Halt h => Halt h end.

Declare Scope go_scope.
Delimit Scope go_scope with go.
Notation "'let?' x ':=' m 'in' k" := (result_bind m (fun x => k))
  (at level 10, x pattern, m at level 100, k at level 200) : go_scope.
Notation "m ;;? k" := (result_bind m (fun _ => k))
  (at level 100, right associativity) : go_scope.

(** ** Stateful code that can fail

    Go mutates through pointers and then returns an error: the mutations made
    before the error stay.  A stateful function therefore returns the state in
    both cases. *)
Definition St (S A : Type) : Type := S -> S * result A.

Definition st_ret {S A : Type} (a : A) : St S A := fun s => (s, Ok a).
Definition st_fail {S A : Type} (e : error) : St S A := fun s => (s, Err e).
Definition st_bind {S A B : Type} (m : St S A) (k : A -> St S B) : St S B :=
  fun s =>
    match m s with
    | (s', Ok a) => k a s'
    | (s', Err e) => (s', Err e)
    end.
Definition st_get {S : Type} : St S S := fun s => (s, Ok s).
Definition st_put {S : Type} (s' : S) : St S unit := fun _ => (s', Ok tt).
Definition st_modify {S : Type} (f : S -> S) : St S unit := fun s => (f s, Ok tt).
Definition st_lift {S A : Type} (m : result A) : St S A := fun s => (s, m).

Notation "'let!' x ':=' m 'in' k" := (st_bind m (fun x => k))
  (at level 10, x pattern, m at level 100, k at level 200) : go_scope.
Notation "m ;;! k" := (st_bind m (fun _ => k))
  (at level 100, right associativity) : go_scope.

Open Scope go_scope.

(** ** Steps that may panic

    Where a panic is recovered from (a connection's goroutine does) and the locks are
    released by [defer], the state reached before it stays: it is returned in both cases. *)
Definition P (V A : Type) : Type := V -> V * res A.
Definition p_ret {V A : Type} (a : A) : P V A := fun v => (v, Val a).
Definition p_lift {V A : Type} (r : res A) : P V A := fun v => (v, r).
Definition p_bind {V A B : Type} (m : P V A) (k : A -> P V B) : P V B :=
  fun v => match m v with
           | (v', Val a) => k a v'
           | (v', Halt h) => (v', Halt h)
           end.
Definition p_get {V : Type} : P V V := fun v => (v, Val v).
Definition p_modify {V : Type} (f : V -> V) : P V unit := fun v => (f v, Val tt).

Declare Scope panic_scope.
Delimit Scope panic_scope with panic.
Notation "'let#' x ':=' m 'in' k" := (p_bind m (fun x => k))
  (at level 10, x pattern, m at level 100, k at level 200) : panic_scope.
Notation "m ';;#' k" := (p_bind m (fun _ => k)) (at level 100, right associativity) : panic_scope.
Open Scope panic_scope.

(** Go's zero [time.Time], the year 1, in nanoseconds since 1970. *)
Definition zero_time : Z := -62135596800 * 1000000000.

(** [time.Since(t)] at time [now]: a saturated [int64] of nanoseconds. *)
Definition since (now t : Z) : Z := Z.max (-9223372036854775808) (Z.min 9223372036854775807 (now - t)).

(** A bounded loop over a list in the state-and-error monad (Go's [for range]
    with early return on error). *)
Fixpoint st_iter {S A : Type} (f : A -> St S unit) (l : list A) : St S unit :=
  match l with
  | [] => st_ret tt
  | x :: xs => f x ;;! st_iter f xs
  end.

(** Sum of a list of integers. *)
Definition sumZ (l : list Z) : Z := foldr Z.add 0 l.

(** [n]-fold application. *)
Fixpoint iterate {A : Type} (n : nat) (f : A -> A) (x : A) : A :=
  match n with
  | O => x
  | S n' => f (iterate n' f x)
  end.

(** ** Tactics and hints of the development *)
Create HintDb go.
Create Rewrite HintDb go_rw.

Ltac unfold_u64 :=
  unfold add64, sub64, mul64, div64, u64, u32, u16, u8, is_u64, is_u32, is_byte,
    max_u64, max_i64 in *.

(** Inversion of a successful [let?] / [;;?] chain. *)
Ltac inv_result_step :=
  match goal with
  | H : Ok _ = Ok _ |- _ => injection H as H; subst
  | H : Err _ = Err _ |- _ => injection H as H; subst
  | H : Ok _ = Err _ |- _ => discriminate H
  | H : Err _ = Ok _ |- _ => discriminate H
  | H : result_bind ?m _ = _ |- _ =>
      let E := fresh "E" in destruct m eqn:E; cbn [result_bind] in H
  | H : fail_if ?b _ = _ |- _ =>
      let E := fresh "E" in unfold fail_if in H; destruct b eqn:E
  | H : wrap _ ?m = _ |- _ =>
      let E := fresh "E" in destruct m eqn:E; cbn [wrap] in H
  end.
Ltac inv_result := repeat (inv_result_step; try discriminate).

(** Inversion of a successful stateful chain. *)
Lemma st_bind_ok {S A B : Type} (m : St S A) (k : A -> St S B) (s s' : S) (b : B) :
  st_bind m k s = (s', Ok b) -> exists s1 a, m s = (s1, Ok a) /\ k a s1 = (s', Ok b).
Proof. unfold st_bind. destruct (m s) as [s1 [a|e]]; [eauto|discriminate]. Qed.

Lemma st_lift_ok {S A : Type} (m : result A) (s s' : S) (a : A) :
  st_lift m s = (s', Ok a) -> s' = s /\ m = Ok a.
Proof. unfold st_lift. intros H. injection H as <- ->. auto. Qed.

Lemma st_ret_ok {S A : Type} (x : A) (s s' : S) (a : A) :
  st_ret x s = (s', Ok a) -> s' = s /\ x = a.
Proof. unfold st_ret. intros H. by injection H as <- <-. Qed.

Ltac inv_st_step :=
  match goal with
  | H : st_bind _ _ _ = (_, Ok _) |- _ =>
      let E := fresh "S" in apply st_bind_ok in H; destruct H as (? & ? & E & H)
  | H : st_lift _ _ = (_, Ok _) |- _ => apply st_lift_ok in H; destruct H as [-> H]
  | H : st_ret _ _ = (_, Ok _) |- _ => apply st_ret_ok in H; destruct H as [-> H]
  | H : st_get _ = (_, Ok _) |- _ => injection H as <- <-
  | H : st_modify _ _ = (_, Ok _) |- _ => injection H as <- <-
  | H : st_fail _ _ = (_, Ok _) |- _ => discriminate H
  end.
Ltac inv_st := repeat inv_st_step; inv_result.

(** Turns the boolean tests of the source into propositions for [lia]. *)
Ltac bool_to_prop :=
  repeat match goal with
  | H : (_ && _)%bool = true |- _ => apply andb_prop in H; destruct H
  | H : (_ || _)%bool = false |- _ => apply orb_false_elim in H; destruct H
  | H : negb _ = true |- _ => apply negb_true_iff in H
  | H : negb _ = false |- _ => apply negb_false_iff in H
  | H : (_ =? _) = true |- _ => apply Z.eqb_eq in H
  | H : (_ =? _) = false |- _ => apply Z.eqb_neq in H
  | H : (_ <? _) = true |- _ => apply Z.ltb_lt in H
  | H : (_ <? _) = false |- _ => apply Z.ltb_ge in H
  | H : (_ <=? _) = true |- _ => apply Z.leb_le in H
  | H : (_ <=? _) = false |- _ => apply Z.leb_gt in H
  | H : (_ >? _) = true |- _ => rewrite Z.gtb_ltb in H
  | H : (_ >? _) = false |- _ => rewrite Z.gtb_ltb in H
  | H : bool_decide _ = true |- _ => apply bool_decide_eq_true in H
  | H : bool_decide _ = false |- _ => apply bool_decide_eq_false in H
  end.

(** ** Lemmas on machine integers *)
Lemma u64_small (z : Z) : 0 <= z <= max_u64 -> u64 z = z.
Proof. unfold_u64. intros. apply Z.mod_small. lia. Qed.

Lemma u64_range (z : Z) : is_u64 (u64 z).
Proof. unfold_u64. pose proof (Z.mod_pos_bound z 18446744073709551616). lia. Qed.

Lemma add64_small (a b : Z) : 0 <= a + b <= max_u64 -> (a + b)%u64 = a + b.
Proof. apply u64_small. Qed.

Lemma sub64_small (a b : Z) : 0 <= a - b <= max_u64 -> (a - b)%u64 = a - b.
Proof. apply u64_small. Qed.

Lemma mul64_small (a b : Z) : 0 <= a * b <= max_u64 -> (a * b)%u64 = a * b.
Proof. apply u64_small. Qed.

Lemma u64_mod_eq (z : Z) : exists k, z = u64 z + k * 18446744073709551616.
Proof.
  exists (z / 18446744073709551616). unfold u64.
  pose proof (Z.div_mod z 18446744073709551616). lia.
Qed.

Lemma i64_mod (z : Z) : exists k, i64 z = z + k * 18446744073709551616.
Proof.
  unfold i64, u64. pose proof (Z.div_mod z 18446744073709551616).
  case_match; [exists (- (z / 18446744073709551616))|exists (- (z / 18446744073709551616) - 1)]; lia.
Qed.

Lemma i64_range (z : Z) : - 9223372036854775808 <= i64 z <= 9223372036854775807.
Proof.
  unfold i64, u64, max_i64. pose proof (Z.mod_pos_bound z 18446744073709551616).
  case_match; bool_to_prop; lia.
Qed.

Lemma i64_congr (x y k : Z) : x = y + k * 18446744073709551616 -> i64 x = i64 y.
Proof. intros ->. unfold i64, u64. by rewrite Z.mod_add. Qed.

Lemma i64_small (z : Z) : - 9223372036854775808 <= z <= 9223372036854775807 -> i64 z = z.
Proof.
  intros Hz. destruct (i64_mod z) as [k Hk]. pose proof (i64_range z). nia.
Qed.

Lemma i64_add_l (x y : Z) : i64 (i64 x + y) = i64 (x + y).
Proof. destruct (i64_mod x) as [k Hk]. apply (i64_congr _ _ k). lia. Qed.

Lemma i64_idem (x : Z) : i64 (i64 x) = i64 x.
Proof. apply i64_small, i64_range. Qed.

#[export] Hint Resolve u64_range : go.
#[export] Hint Rewrite add64_small sub64_small mul64_small u64_small
  using (unfold_u64; lia) : go_rw.

(** ** Lemmas on sums *)
Lemma sumZ_app (l1 l2 : list Z) : sumZ (l1 ++ l2) = sumZ l1 + sumZ l2.
Proof. unfold sumZ. induction l1 as [|x l1 IH]; simpl; lia. Qed.

Lemma sumZ_nonneg (l : list Z) : Forall (fun z => 0 <= z) l -> 0 <= sumZ l.
Proof. unfold sumZ. induction 1; simpl; lia. Qed.

Lemma sumZ_perm (l1 l2 : list Z) : l1 ≡ₚ l2 -> sumZ l1 = sumZ l2.
Proof. unfold sumZ. induction 1; simpl in *; lia. Qed.

(** ** Iteration *)
Lemma iterate_succ_r {A : Type} (n : nat) (f : A -> A) (x : A) :
  iterate (S n) f x = iterate n f (f x).
Proof. induction n as [|n IH]; cbn in *; [done|]. by rewrite IH. Qed.

(** ** Invariants of stateful code

    [preserves I m]: [m] keeps [I], whether it succeeds or fails. *)
Definition preserves {S A : Type} (I : S -> Prop) (m : St S A) : Prop :=
  forall s, I s -> I (fst (m s)).

Lemma preserves_ret {S A : Type} (I : S -> Prop) (a : A) : preserves I (st_ret a).
Proof. by intros s. Qed.

Lemma preserves_fail {S A : Type} (I : S -> Prop) (e : error) : preserves I (@st_fail S A e).
Proof. by intros s. Qed.

Lemma preserves_lift {S A : Type} (I : S -> Prop) (m : result A) : preserves I (st_lift m).
Proof. by intros s. Qed.

Lemma preserves_bind {S A B : Type} (I : S -> Prop) (m : St S A) (k : A -> St S B) :
  preserves I m -> (forall a, preserves I (k a)) -> preserves I (st_bind m k).
Proof.
  intros Hm Hk s Hs. unfold st_bind. specialize (Hm s Hs).
  destruct (m s) as [s1 [a|e]]; cbn in *; [by apply Hk|done].
Qed.

Lemma preserves_get_bind {S B : Type} (I : S -> Prop) (k : S -> St S B) :
  (forall s, I s -> I (fst (k s s))) -> preserves I (st_bind st_get k).
Proof. intros Hk s Hs. unfold st_bind, st_get. cbn. by apply Hk. Qed.

Lemma lift_bind_state {S A B : Type} (I : S -> Prop) (m : result A) (k : A -> St S B) (s : S) :
  I s -> (forall a, m = Ok a -> I (fst (k a s))) -> I (fst (st_bind (st_lift m) k s)).
Proof. intros Hs Hk. unfold st_bind, st_lift. destruct m; cbn; auto. Qed.

Lemma preserves_if {S A : Type} (I : S -> Prop) (b : bool) (m1 m2 : St S A) :
  preserves I m1 -> preserves I m2 -> preserves I (if b then m1 else m2).
Proof. by destruct b. Qed.

#[export] Hint Resolve preserves_ret preserves_fail preserves_lift : go.
#[export] Hint Resolve preserves_bind preserves_if : go.
