(* ===== verification/Bytes.v ===== *)
(** * Bytes, strings and the wire primitives

    Go's [[]byte] is a [list Z] of values in 0..255, a Go [string] (an
    immutable byte string) is a [string].  This file holds what the source uses
    of [encoding/binary] and [encoding/hex], and the two primitives of
    [blockchain/core/encoding.go] and [blockchain/core/merkle.go] that the
    repository writes itself: the ULEB128 codec and [hexDecodeString]. *)

From S2P Require Import Prelude.
From stdpp Require Import base list strings numbers.
From Stdlib Require Import ZArith Lia.

Open Scope Z_scope.
Open Scope go_scope.

(** ** Bytes of a string *)
Definition Z_of_ascii (c : Ascii.ascii) : Z := Z.of_N (Ascii.N_of_ascii c).
Definition ascii_of_Z (z : Z) : Ascii.ascii := Ascii.ascii_of_N (Z.to_N z).

Fixpoint bytes_of_string (s : string) : list Z :=
  match s with
  | EmptyString => []
  | String c s' => Z_of_ascii c :: bytes_of_string s'
  end.

Fixpoint string_of_bytes (l : list Z) : string :=
  match l with
  | [] => EmptyString
  | b :: l' => String (ascii_of_Z b) (string_of_bytes l')
  end.

(** [len(s)] *)
Definition strlen (s : string) : Z := Z.of_nat (String.length s).
(** [s[:16]]: a panic when [s] is shorter. *)
Definition slice16 (s : string) : res unit :=
  if strlen s <? 16 then Halt (Panic "slice bounds out of range") else Val tt.
(** [len(b)] *)
Definition len {A : Type} (l : list A) : Z := Z.of_nat (length l).

(** Byte-slice equality, [bytes.Equal]. *)
Definition bytes_eqb (a b : list Z) : bool := bool_decide (a = b).

(** [copy(dst[:n], src)] into a zeroed array of [n] bytes. *)
Definition copy_into (n : nat) (src : list Z) : list Z :=
  take n src ++ replicate (n - length src) 0.

(** ** Little-endian integers ([binary.LittleEndian]) *)
Fixpoint le_bytes (n : nat) (z : Z) : list Z :=
  match n with
  | O => []
  | S n' => z mod 256 :: le_bytes n' (z / 256)
  end.

Fixpoint le_val (l : list Z) : Z :=
  match l with
  | [] => 0
  | b :: l' => b + 256 * le_val l'
  end.

(** ** Hexadecimal ([encoding/hex]) *)
Definition hex_digit (d : Z) : Ascii.ascii :=
  if d <? 10 then ascii_of_Z (48 + d) else ascii_of_Z (87 + d).

Fixpoint hex_encode (l : list Z) : string :=
  match l with
  | [] => EmptyString
  | b :: l' => String (hex_digit (b / 16)) (String (hex_digit (b mod 16)) (hex_encode l'))
  end.

(** The value of one hexadecimal digit, either case; [None] for another byte. *)
Definition hex_val (c : Ascii.ascii) : option Z :=
  let z := Z_of_ascii c in
  if (48 <=? z) && (z <=? 57) then Some (z - 48)
  else if (97 <=? z) && (z <=? 102) then Some (z - 97 + 10)
  else if (65 <=? z) && (z <=? 70) then Some (z - 65 + 10)
  else None.

(** [hex.DecodeString]: an error for a byte that is no digit and for an odd
    length. *)
Fixpoint hex_decode (s : string) : result (list Z) :=
  match s with
  | EmptyString => Ok []
  | String a EmptyString =>
      match hex_val a with
      | Some _ => Err "encoding/hex: odd length hex string"
      | None => Err "encoding/hex: invalid byte"
      end
  | String a (String b s') =>
      match hex_val a, hex_val b with
      | Some x, Some y => let? r := hex_decode s' in Ok (x * 16 + y :: r)
      | _, _ => Err "encoding/hex: invalid byte"
      end
  end.

(** [core.hexDecodeString]: the repository's own decoder.  The length is tested
    first, then the digits are combined with shifts and ors. *)
Fixpoint hexDecodeString_loop (s : string) : result (list Z) :=
  match s with
  | String a (String b s') =>
      match hex_val a, hex_val b with
      | Some x, Some y =>
          let v := Z.lor (Z.lor 0 (u8 (Z.shiftl x 4))) (u8 (Z.shiftl y 0)) in
          let? r := hexDecodeString_loop s' in Ok (v :: r)
      | _, _ => Err "invalid hex character"
      end
  | _ => Ok []
  end.

Definition hexDecodeString (s : string) : result (list Z) :=
  fail_if (negb (strlen s mod 2 =? 0)) "hex string must have even length" ;;?
  hexDecodeString_loop s.

(** ** ULEB128 *)

(** [writeULEB128]: at most ten iterations for a [uint64], so [fuel = 10] is the
    loop run to its end (see [writeULEB128_fuel]). *)
Fixpoint writeULEB128_fuel (fuel : nat) (n : Z) : list Z :=
  match fuel with
  | O => []
  | S fuel' =>
      let b := Z.land n 127 in
      let n' := Z.shiftr n 7 in
      if n' =? 0 then [b] else Z.lor b 128 :: writeULEB128_fuel fuel' n'
  end.
Definition writeULEB128 (n : Z) : list Z := writeULEB128_fuel 10 n.

(** [readULEB128]: the value and the bytes left in the buffer.  [fuel] counts the
    source's ten iterations. *)
Fixpoint readULEB128_loop (fuel : nat) (result shift : Z) (buf : list Z)
  : Prelude.result (Z * list Z) :=
  match fuel with
  | O => Err "ULEB128 too long"
  | S fuel' =>
      match buf with
      | [] => Err "read ULEB128 byte"
      | b :: buf' =>
          let result' := Z.lor result (u64 (Z.shiftl (Z.land b 127) shift)) in
          if Z.land b 128 =? 0 then Ok (result', buf')
          else
            let shift' := shift + 7 in
            if 64 <=? shift' then Err "ULEB128 overflow"
            else readULEB128_loop fuel' result' shift' buf'
      end
  end.
Definition readULEB128 (buf : list Z) : Prelude.result (Z * list Z) :=
  readULEB128_loop 10 0 0 buf.

(** ** Little-endian lemmas *)
Lemma le_bytes_length (n : nat) (z : Z) : length (le_bytes n z) = n.
Proof. revert z; induction n; intros; cbn; auto. Qed.

Lemma le_bytes_range (n : nat) (z : Z) : Forall is_byte (le_bytes n z).
Proof.
  revert z; induction n; intros; cbn [le_bytes]; constructor; auto.
  unfold is_byte. pose proof (Z.mod_pos_bound z 256). lia.
Qed.

Lemma le_val_bytes (n : nat) (z : Z) :
  0 <= z < 256 ^ Z.of_nat n -> le_val (le_bytes n z) = z.
Proof.
  revert z; induction n as [|n IH]; intros z Hz.
  - cbn in Hz |- *. lia.
  - cbn [le_bytes le_val]. rewrite Nat2Z.inj_succ, Z.pow_succ_r in Hz by lia.
    rewrite IH.
    + pose proof (Z.div_mod z 256). lia.
    + split; [apply Z.div_pos; lia|]. apply Z.div_lt_upper_bound; lia.
Qed.

Lemma le_bytes_inj (n : nat) (a b : Z) :
  0 <= a < 256 ^ Z.of_nat n -> 0 <= b < 256 ^ Z.of_nat n ->
  le_bytes n a = le_bytes n b -> a = b.
Proof. intros Ha Hb H. rewrite <- (le_val_bytes n a), <- (le_val_bytes n b), H; auto. Qed.

Lemma le_bytes_u64_inj (a b : Z) :
  is_u64 a -> is_u64 b -> le_bytes 8 a = le_bytes 8 b -> a = b.
Proof. intros Ha Hb. apply le_bytes_inj; unfold_u64; cbn; lia. Qed.

(** ** Strings and byte lists *)
Lemma ascii_of_Z_of_ascii (c : Ascii.ascii) : ascii_of_Z (Z_of_ascii c) = c.
Proof. unfold ascii_of_Z, Z_of_ascii. rewrite N2Z.id. apply Ascii.ascii_N_embedding. Qed.

Lemma Z_of_ascii_of_Z (z : Z) : is_byte z -> Z_of_ascii (ascii_of_Z z) = z.
Proof.
  unfold is_byte, ascii_of_Z, Z_of_ascii. intros H.
  rewrite Ascii.N_ascii_embedding; lia.
Qed.

Lemma string_of_bytes_of_string (s : string) : string_of_bytes (bytes_of_string s) = s.
Proof. induction s as [|c s IH]; cbn; [auto|]. by rewrite IH, ascii_of_Z_of_ascii. Qed.

Lemma bytes_of_string_inj (s t : string) : bytes_of_string s = bytes_of_string t -> s = t.
Proof.
  intros H. rewrite <- (string_of_bytes_of_string s), <- (string_of_bytes_of_string t).
  by rewrite H.
Qed.

Lemma bytes_of_string_range (s : string) : Forall is_byte (bytes_of_string s).
Proof.
  induction s as [|c s IH]; cbn; constructor; auto.
  unfold is_byte, Z_of_ascii. pose proof (Ascii.N_ascii_bounded c). lia.
Qed.

Lemma bytes_of_string_length (s : string) : length (bytes_of_string s) = String.length s.
Proof. induction s; cbn; auto. Qed.

(** ** Hexadecimal round trip *)
Lemma hex_val_digit (d : Z) : 0 <= d < 16 -> hex_val (hex_digit d) = Some d.
Proof.
  intros H. assert (Hd : d ∈ seqZ 0 16) by (apply elem_of_seqZ; lia).
  clear H. revert d Hd.
  apply (proj1 (list.Forall_forall (fun d => hex_val (hex_digit d) = Some d) _)).
  repeat constructor; reflexivity.
Qed.

Lemma hex_decode_encode (l : list Z) : Forall is_byte l -> hex_decode (hex_encode l) = Ok l.
Proof.
  induction 1 as [|b l Hb Hl IH]; [done|]. cbn [hex_encode hex_decode].
  unfold is_byte in Hb.
  rewrite !hex_val_digit, IH; cbn [result_bind].
  - f_equal. f_equal. pose proof (Z.div_mod b 16). lia.
  - apply Z.mod_pos_bound; lia.
  - split; [apply Z.div_pos; lia|apply Z.div_lt_upper_bound; lia].
Qed.

Lemma hex_encode_length (l : list Z) : String.length (hex_encode l) = (2 * length l)%nat.
Proof. induction l as [|b l IH]; [done|]. cbn [hex_encode String.length length]. lia. Qed.

Lemma hex_encode_inj (a b : list Z) :
  Forall is_byte a -> Forall is_byte b -> hex_encode a = hex_encode b -> a = b.
Proof.
  intros Ha Hb H. apply hex_decode_encode in Ha, Hb. rewrite H in Ha. congruence.
Qed.

Lemma copy_into_length (n : nat) (l : list Z) : length (copy_into n l) = n.
Proof.
  unfold copy_into. rewrite length_app, length_take, length_replicate. lia.
Qed.

Lemma copy_into_full (n : nat) (l : list Z) : length l = n -> copy_into n l = l.
Proof.
  intros <-. unfold copy_into. by rewrite Nat.sub_diag, app_nil_r, take_ge.
Qed.

Lemma bytes_eqb_spec (a b : list Z) : bytes_eqb a b = true <-> a = b.
Proof. unfold bytes_eqb. by rewrite bool_decide_eq_true. Qed.

(** ** ULEB128 round trip *)
Lemma land_127 (n : Z) : Z.land n 127 = n mod 128.
Proof. change 127 with (Z.ones 7). by rewrite Z.land_ones. Qed.

Lemma shiftr_7 (n : Z) : Z.shiftr n 7 = n / 128.
Proof. by rewrite Z.shiftr_div_pow2. Qed.

Lemma land_small_128 (b : Z) : 0 <= b < 128 -> Z.land b 128 = 0.
Proof.
  intros H. apply Z.bits_inj'. intros i Hi.
  rewrite Z.land_spec, Z.bits_0. change 128 with (2 ^ 7).
  rewrite Z.pow2_bits_eqb by lia. destruct (Z.eqb_spec 7 i) as [<-|]; [|apply andb_false_r].
  rewrite <- (Z.mod_small b (2 ^ 7)) by lia.
  by rewrite Z.mod_pow2_bits_high by lia.
Qed.

Lemma cont_byte (b : Z) : 0 <= b < 128 -> Z.lor b 128 = b + 128.
Proof. intros H. pose proof (Z.add_lor_land b 128) as E. rewrite land_small_128 in E; lia. Qed.

Lemma lor_shifted (acc x shift : Z) :
  0 <= shift -> 0 <= acc < 2 ^ shift -> Z.lor acc (Z.shiftl x shift) = acc + x * 2 ^ shift.
Proof.
  intros Hs Ha. rewrite <- Z.shiftl_mul_pow2 by lia.
  pose proof (Z.add_lor_land acc (Z.shiftl x shift)) as E.
  enough (Z.land acc (Z.shiftl x shift) = 0) by lia.
  apply Z.bits_inj'. intros i Hi. rewrite Z.land_spec, Z.bits_0.
  destruct (Z.lt_ge_cases i shift).
  - rewrite Z.shiftl_spec_low by lia. apply andb_false_r.
  - rewrite <- (Z.mod_small acc (2 ^ shift)) by lia.
    by rewrite Z.mod_pow2_bits_high by lia.
Qed.

Lemma readULEB128_loop_write (fuel : nat) (acc shift n : Z) (rest : list Z) :
  0 <= shift -> 0 <= n < 128 ^ Z.of_nat fuel -> n * 2 ^ shift < 2 ^ 64 ->
  0 <= acc < 2 ^ shift -> (0 < fuel)%nat ->
  readULEB128_loop fuel acc shift (writeULEB128_fuel fuel n ++ rest)
  = Ok (acc + n * 2 ^ shift, rest).
Proof.
  revert acc shift n; induction fuel as [|fuel IH]; intros acc shift n Hs Hn Hlt Ha Hf; [lia|].
  cbn [writeULEB128_fuel]. rewrite land_127, shiftr_7.
  pose proof (Z.mod_pos_bound n 128) as Hm. pose proof (Z.div_mod n 128) as Hd.
  assert (Hp : 0 < 2 ^ shift) by (apply Z.pow_pos_nonneg; lia).
  destruct (Z.eqb_spec (n / 128) 0) as [E|E]; cbn [app readULEB128_loop].
  - rewrite land_127, Z.mod_mod, land_small_128 by lia. cbn [Z.eqb].
    replace (n mod 128) with n by lia.
    unfold u64. rewrite Z.mod_small by (rewrite Z.shiftl_mul_pow2; lia).
    by rewrite lor_shifted by lia.
  - assert (Hdpos : 1 <= n / 128) by (assert (0 <= n / 128) by (apply Z.div_pos; lia); lia).
    rewrite cont_byte by lia.
    assert (El : Z.land (n mod 128 + 128) 127 = n mod 128).
    { rewrite land_127. replace (n mod 128 + 128) with (n mod 128 + 1 * 128) by lia.
      rewrite Z.mod_add, Z.mod_mod; lia. }
    assert (E8 : (Z.land (n mod 128 + 128) 128 =? 0) = false).
    { apply Z.eqb_neq. rewrite <- cont_byte, Z.land_lor_distr_l, land_small_128 by lia. done. }
    rewrite El, E8.
    assert (Hsh : shift + 7 < 64).
    { apply (Z.pow_lt_mono_r_iff 2); [lia|lia|]. rewrite Z.pow_add_r by lia. cbn [Z.pow] in *. nia. }
    replace (64 <=? shift + 7) with false by (symmetry; apply Z.leb_gt; lia).
    assert (Hnm : n mod 128 * 2 ^ shift < 2 ^ 64) by nia.
    unfold u64. rewrite (Z.mod_small (Z.shiftl _ _))
      by (rewrite Z.shiftl_mul_pow2 by lia; split; [nia|exact Hnm]).
    rewrite lor_shifted by lia.
    assert (H7 : 2 ^ (shift + 7) = 2 ^ shift * 128) by (rewrite Z.pow_add_r by lia; done).
    rewrite IH.
    + f_equal. f_equal. rewrite H7. nia.
    + lia.
    + split; [lia|]. rewrite Nat2Z.inj_succ, Z.pow_succ_r in Hn by lia.
      apply Z.div_lt_upper_bound; lia.
    + rewrite H7. nia.
    + rewrite H7. nia.
    + destruct fuel; [|lia]. exfalso. cbn in Hn.
      rewrite (Z.div_small n 128) in Hdpos; lia.
Qed.

Lemma readULEB128_write (n : Z) (rest : list Z) :
  is_u64 n -> readULEB128 (writeULEB128 n ++ rest) = Ok (n, rest).
Proof.
  intros H. unfold readULEB128, writeULEB128.
  rewrite readULEB128_loop_write; unfold_u64; [f_equal; f_equal; lia|..]; cbn; lia.
Qed.

Arguments copy_into : simpl never.
Arguments le_bytes : simpl never.
Arguments writeULEB128 : simpl never.
Arguments readULEB128 : simpl never.
