(* ===== verification/Sha256.v ===== *)
(** * SHA-256

    [crypto/sha256.Sum256] of Go's standard library (FIPS 180-4), executable, so
    that the addresses, transaction ids and Merkle roots of the development are
    those of the program.  The other files use only [sha256] and its two lemmas:
    the digest has 32 bytes and each of them is a byte. *)

From S2P Require Import Prelude Bytes.
From stdpp Require Import base list numbers strings.
From Stdlib Require Import ZArith Lia.

Open Scope Z_scope.

Definition K256 : list Z :=
  [ 1116352408; 1899447441; 3049323471; 3921009573; 961987163; 1508970993; 2453635748; 2870763221;
    3624381080; 310598401; 607225278; 1426881987; 1925078388; 2162078206; 2614888103; 3248222580;
    3835390401; 4022224774; 264347078; 604807628; 770255983; 1249150122; 1555081692; 1996064986;
    2554220882; 2821834349; 2952996808; 3210313671; 3336571891; 3584528711; 113926993; 338241895;
    666307205; 773529912; 1294757372; 1396182291; 1695183700; 1986661051; 2177026350; 2456956037;
    2730485921; 2820302411; 3259730800; 3345764771; 3516065817; 3600352804; 4094571909; 275423344;
    430227734; 506948616; 659060556; 883997877; 958139571; 1322822218; 1537002063; 1747873779;
    1955562222; 2024104815; 2227730452; 2361852424; 2428436474; 2756734187; 3204031479; 3329325298 ].

Definition rotr (n x : Z) : Z := Z.lor (Z.shiftr x n) (u32 (Z.shiftl x (32 - n))).
Definition Ch (x y z : Z) : Z := Z.lxor (Z.land x y) (Z.land (Z.lxor x 4294967295) z).
Definition Maj (x y z : Z) : Z := Z.lxor (Z.lxor (Z.land x y) (Z.land x z)) (Z.land y z).
Definition BSig0 (x : Z) : Z := Z.lxor (Z.lxor (rotr 2 x) (rotr 13 x)) (rotr 22 x).
Definition BSig1 (x : Z) : Z := Z.lxor (Z.lxor (rotr 6 x) (rotr 11 x)) (rotr 25 x).
Definition SSig0 (x : Z) : Z := Z.lxor (Z.lxor (rotr 7 x) (rotr 18 x)) (Z.shiftr x 3).
Definition SSig1 (x : Z) : Z := Z.lxor (Z.lxor (rotr 17 x) (rotr 19 x)) (Z.shiftr x 10).

(** Big-endian 32-bit words. *)
Definition be_word (a b c d : Z) : Z := a * 16777216 + b * 65536 + c * 256 + d.
Definition be_bytes4 (w : Z) : list Z :=
  [ (w / 16777216) mod 256; (w / 65536) mod 256; (w / 256) mod 256; w mod 256 ].
Definition be_bytes8 (w : Z) : list Z := be_bytes4 (u32 (w / 4294967296)) ++ be_bytes4 (u32 w).

Fixpoint words (l : list Z) : list Z :=
  match l with
  | a :: b :: c :: d :: l' => be_word a b c d :: words l'
  | _ => []
  end.

(** The message schedule, newest word first. *)
Fixpoint schedule (n : nat) (w : list Z) : list Z :=
  match n with
  | O => w
  | S n' =>
      let t := u32 (SSig1 (nth 1 w 0) + nth 6 w 0 + SSig0 (nth 14 w 0) + nth 15 w 0) in
      schedule n' (t :: w)
  end.

Record vars := Vars { va : Z; vb : Z; vc : Z; vd : Z; ve : Z; vf : Z; vg : Z; vh : Z }.

Definition round (v : vars) (kw : Z * Z) : vars :=
  let t1 := vh v + BSig1 (ve v) + Ch (ve v) (vf v) (vg v) + fst kw + snd kw in
  let t2 := BSig0 (va v) + Maj (va v) (vb v) (vc v) in
  Vars (u32 (t1 + t2)) (va v) (vb v) (vc v) (u32 (vd v + t1)) (ve v) (vf v) (vg v).

Definition compress (v : vars) (block : list Z) : vars :=
  let w := rev (schedule 48 (rev (words block))) in
  let r := fold_left round (combine K256 w) v in
  Vars (u32 (va v + va r)) (u32 (vb v + vb r)) (u32 (vc v + vc r)) (u32 (vd v + vd r))
       (u32 (ve v + ve r)) (u32 (vf v + vf r)) (u32 (vg v + vg r)) (u32 (vh v + vh r)).

Definition pad (msg : list Z) : list Z :=
  let l := len msg in
  let zeros := (119 - l mod 64) mod 64 in
  msg ++ [128] ++ replicate (Z.to_nat zeros) 0 ++ be_bytes8 (8 * l).

Fixpoint blocks_loop (n : nat) (v : vars) (l : list Z) : vars :=
  match n with
  | O => v
  | S n' => blocks_loop n' (compress v (take 64 l)) (drop 64 l)
  end.

Definition digest (v : vars) : list Z :=
  be_bytes4 (va v) ++ be_bytes4 (vb v) ++ be_bytes4 (vc v) ++ be_bytes4 (vd v) ++
  be_bytes4 (ve v) ++ be_bytes4 (vf v) ++ be_bytes4 (vg v) ++ be_bytes4 (vh v).

Definition init_vars : vars :=
  Vars 1779033703 3144134277 1013904242 2773480762 1359893119 2600822924 528734635 1541459225.

(** [sha256.Sum256] *)
Definition sha256 (msg : list Z) : list Z :=
  let p := pad msg in
  digest (blocks_loop (Z.to_nat (len p / 64)) init_vars p).

(** ** The two facts the development uses *)
Lemma be_bytes4_range (w : Z) : Forall is_byte (be_bytes4 w).
Proof.
  unfold be_bytes4, is_byte.
  repeat constructor; apply Z.mod_pos_bound; lia.
Qed.

Lemma digest_range (v : vars) : Forall is_byte (digest v).
Proof. unfold digest. repeat (apply Forall_app; split); apply be_bytes4_range. Qed.

Lemma sha256_length (msg : list Z) : length (sha256 msg) = 32%nat.
Proof. reflexivity. Qed.

Lemma sha256_range (msg : list Z) : Forall is_byte (sha256 msg).
Proof. apply digest_range. Qed.

#[global] Opaque sha256.

(** Test vectors of FIPS 180-4: one and two blocks. *)
Example sha256_abc :
  hex_encode (sha256 (bytes_of_string "abc"))
  = "ba7816bf8f01cfea414140de5dae2223b00361a396177a9cb410ff61f20015ad"%string.
Proof. vm_compute. reflexivity. Qed.

Example sha256_two_blocks :
  hex_encode (sha256 (bytes_of_string "abcdbcdecdefdefgefghfghighijhijkijkljklmklmnlmnomnopnopq"))
  = "248d6a61d20638b8e5c026930c3e6039a33ce45964ff2167f6ecedd419db06c1"%string.
Proof. vm_compute. reflexivity. Qed.

Example sha256_empty :
  hex_encode (sha256 [])
  = "e3b0c44298fc1c149afbf4c8996fb92427ae41e4649b934ca495991b7852b855"%string.
Proof. vm_compute. reflexivity. Qed.
