(* ===== verification/Config.v ===== *)
(** * Monetary policy and consensus parameters

    [blockchain/config/monetary_policy.go], [blockchain/config/types.go]
    (the consensus parameters), [blockchain/config/rules_hash.go] and the block
    time constants of [blockchain/config/config.go]. *)

From S2P Require Import Prelude Bytes Sha256.
From stdpp Require Import base list strings numbers.
From Stdlib Require Import ZArith Lia.

Open Scope Z_scope.
Open Scope go_scope.

Definition AnnualReductionRateNumerator : Z := 9.
Definition AnnualReductionRateDenominator : Z := 10.
Definition DefaultTargetBlockTime : Z := 30.

Record MonetaryPolicy := mkMonetaryPolicy {
  InitialBlockReward : Z;
  AnnualReductionPercent : Z;
  MinimumBlockReward : Z;
  UncleRewardEnabled : bool;
  MaxUncleDepth : Z;
  HalvingInterval : Z;
  MaxSupply : Z;
  MinerFeeShare : Z;
  MinerRewardShare : Z;
  CommunityFundShare : Z;
  GenesisShare : Z;
  IntegrityPoolShare : Z;
  TailEmission : Z
}.

(** The ranges of the fields' Go types. *)
Definition policy_typed (p : MonetaryPolicy) : Prop :=
  is_u64 (InitialBlockReward p) /\ is_byte (AnnualReductionPercent p) /\
  is_u64 (MinimumBlockReward p) /\ is_byte (MaxUncleDepth p) /\
  is_u64 (HalvingInterval p) /\ is_u64 (MaxSupply p) /\ is_byte (MinerFeeShare p) /\
  is_byte (MinerRewardShare p) /\ is_byte (CommunityFundShare p) /\
  is_byte (GenesisShare p) /\ is_byte (IntegrityPoolShare p) /\ is_u64 (TailEmission p).

Definition MonetaryPolicy_Validate (p : MonetaryPolicy) : result unit :=
  fail_if (InitialBlockReward p =? 0) "initialBlockReward must be > 0" ;;?
  fail_if (AnnualReductionPercent p >? 100) "annualReductionPercent must be <= 100" ;;?
  fail_if (MinerFeeShare p >? 100) "minerFeeShare must be <= 100" ;;?
  fail_if (MinerRewardShare p >? 100) "minerRewardShare must be <= 100" ;;?
  fail_if (CommunityFundShare p >? 100) "communityFundShare must be <= 100" ;;?
  fail_if (GenesisShare p >? 100) "genesisShare must be <= 100" ;;?
  fail_if (IntegrityPoolShare p >? 100) "integrityPoolShare must be <= 100" ;;?
  let totalShare := u16 (u16 (u16 (MinerRewardShare p + CommunityFundShare p)
                              + GenesisShare p) + IntegrityPoolShare p) in
  fail_if (negb (totalShare =? 100)) "reward shares must sum to 100".

(** ** Block reward *)
Definition GetBlocksPerYear : Z :=
  let secondsPerYear := 365 * 24 * 60 * 60 in
  secondsPerYear / DefaultTargetBlockTime.

(** One year of reduction on [big.Int]s. *)
Definition reduce_reward (r : Z) : Z :=
  (r * AnnualReductionRateNumerator) / AnnualReductionRateDenominator.
Arguments reduce_reward : simpl never.

(** The loop of [BlockReward] over [i < years] and the tests after it.  [fuel]
    bounds the iterations: a reward of 64 bits is at or below any minimum after
    500 of them ([reduce_reward_500]), so [fuel = 500] is never used up. *)
Fixpoint BlockReward_loop (fuel : nat) (years reward minReward : Z) : Z :=
  if 0 <? years then
    if reward <=? minReward then minReward
    else
      let reward := reduce_reward reward in
      if reward <=? minReward then minReward
      else
        match fuel with
        | O => minReward
        | S fuel' => BlockReward_loop fuel' (years - 1) reward minReward
        end
  else
    if reward <? minReward then minReward
    else if negb ((0 <=? reward) && (reward <=? max_u64)) then minReward
    else reward.

Definition BlockReward (p : MonetaryPolicy) (height : Z) : Z :=
  if InitialBlockReward p =? 0 then 800000000
  else
    let minReward := if MinimumBlockReward p =? 0 then 10000000 else MinimumBlockReward p in
    let years := height / GetBlocksPerYear in
    BlockReward_loop 500 years (InitialBlockReward p) minReward.

(** ** Uncles *)
Definition GetUncleReward (p : MonetaryPolicy) (nephewHeight uncleHeight blockReward : Z) : Z :=
  if nephewHeight <=? uncleHeight then 0
  else
    let distance := (nephewHeight - uncleHeight)%u64 in
    if distance =? 0 then 0
    else
      let maxDepth := if MaxUncleDepth p =? 0 then 6 else MaxUncleDepth p in
      if (distance >? maxDepth) || (distance >=? 8) then 0
      else
        let multiplier := (8 - distance)%u64 in
        let rewardBig := (multiplier * i64 blockReward) / 8 in
        if negb ((0 <=? rewardBig) && (rewardBig <=? max_u64)) then 0
        else rewardBig.

Definition GetNephewBonus (p : MonetaryPolicy) (blockReward uncleCount : Z) : Z :=
  if uncleCount <=? 0 then 0
  else
    let uncleCount := if uncleCount >? 2 then 2 else uncleCount in
    let bonusPerUncle := blockReward / 32 in
    (uncleCount * bonusPerUncle)%u64.

Definition GetTotalMinerReward (p : MonetaryPolicy) (height uncleCount : Z) : Z :=
  let blockReward := BlockReward p height in
  let nephewBonus := GetNephewBonus p blockReward uncleCount in
  if blockReward >? (max_u64 - nephewBonus)%u64 then blockReward
  else (blockReward + nephewBonus)%u64.

(** ** Fees *)
Definition MinerFeeAmount (p : MonetaryPolicy) (totalFees : Z) : Z :=
  if (MinerFeeShare p =? 0) || (totalFees =? 0) then 0
  else ((totalFees * MinerFeeShare p) / 100)%u64.

(** The amount the consensus rules require of a coinbase output:
    [policy.BlockReward(h)*uint64(policy.MinerRewardShare)/100 +
     policy.MinerFeeAmount(fees)], written out at five places of the source. *)
Definition coinbase_expected (p : MonetaryPolicy) (height fees : Z) : Z :=
  (BlockReward p height * MinerRewardShare p / 100 + MinerFeeAmount p fees)%u64.

(** ** Serialisation of the policy *)
Definition bool_byte (b : bool) : Z := if b then 1 else 0.

Definition MonetaryPolicy_MarshalBinary (p : MonetaryPolicy) : list Z :=
  [1] ++ le_bytes 8 (InitialBlockReward p) ++ le_bytes 8 (HalvingInterval p) ++
  [MinerFeeShare p] ++ le_bytes 8 (TailEmission p) ++ [AnnualReductionPercent p] ++
  le_bytes 8 (MinimumBlockReward p) ++ [bool_byte (UncleRewardEnabled p)] ++
  [MaxUncleDepth p].

(** ** Consensus parameters *)
Record ConsensusParams := mkConsensusParams {
  cp_ChainID : Z;
  DifficultyEnable : bool;
  BlockTimeTargetSeconds : Z;
  DifficultyAdjustmentInterval : Z;
  MaxBlockTimeDriftSeconds : Z;
  MinDifficulty : Z;
  MaxDifficulty : Z;
  MinDifficultyBits : Z;
  MaxDifficultyBits : Z;
  MaxDifficultyChangePercent : Z;
  MedianTimePastWindow : Z;
  MerkleEnable : bool;
  MerkleActivationHeight : Z;
  BinaryEncodingEnable : bool;
  BinaryEncodingActivationHeight : Z;
  GenesisDifficultyBits : Z;
  MaxBlockSize : Z;
  MaxTransactionsPerBlock : Z;
  cp_MonetaryPolicy : MonetaryPolicy
}.

Definition ConsensusParams_Validate (p : ConsensusParams) : result unit :=
  fail_if (cp_ChainID p =? 0) "chainId must be > 0" ;;?
  fail_if (BlockTimeTargetSeconds p <=? 0) "blockTimeTargetSeconds must be > 0" ;;?
  fail_if (DifficultyAdjustmentInterval p =? 0) "difficultyAdjustmentInterval must be > 0" ;;?
  fail_if (MaxBlockTimeDriftSeconds p <=? 0) "maxBlockTimeDriftSeconds must be > 0" ;;?
  fail_if (MinDifficulty p =? 0) "minDifficulty must be > 0" ;;?
  fail_if (MaxDifficulty p =? 0) "maxDifficulty must be > 0" ;;?
  fail_if (MinDifficulty p >? MaxDifficulty p) "minDifficulty cannot exceed maxDifficulty" ;;?
  fail_if ((MaxDifficultyChangePercent p =? 0) || (MaxDifficultyChangePercent p >? 100))
    "maxDifficultyChangePercent must be between 1 and 100" ;;?
  fail_if ((MedianTimePastWindow p <=? 0) || (Z.rem (MedianTimePastWindow p) 2 =? 0))
    "medianTimePastWindow must be positive and odd" ;;?
  fail_if ((GenesisDifficultyBits p <? MinDifficultyBits p)
           || (GenesisDifficultyBits p >? MaxDifficultyBits p))
    "genesisDifficultyBits must be between min and max difficulty bits" ;;?
  wrap "monetary policy validation failed" (MonetaryPolicy_Validate (cp_MonetaryPolicy p)).

Definition BinaryEncodingActive (p : ConsensusParams) (height : Z) : bool :=
  BinaryEncodingEnable p && (BinaryEncodingActivationHeight p <=? height).

Definition MerkleRootActive (p : ConsensusParams) (height : Z) : bool :=
  MerkleEnable p && (MerkleActivationHeight p <=? height).

(** ** Rules hash *)
Definition rulesHashVersion : Z := 3.

Definition ConsensusParams_MarshalBinary (p : ConsensusParams) : list Z :=
  [rulesHashVersion] ++ [bool_byte (DifficultyEnable p)] ++
  le_bytes 8 (u64 (BlockTimeTargetSeconds p)) ++
  le_bytes 4 (u32 (DifficultyAdjustmentInterval p)) ++
  [MaxDifficultyChangePercent p] ++ le_bytes 4 (MinDifficulty p) ++
  le_bytes 4 (MaxDifficulty p) ++ le_bytes 4 (MaxDifficulty p) ++
  le_bytes 4 (u32 (MedianTimePastWindow p)) ++
  le_bytes 8 (u64 (MaxBlockTimeDriftSeconds p)) ++
  [bool_byte (MerkleEnable p)] ++ le_bytes 8 (MerkleActivationHeight p) ++
  [bool_byte (BinaryEncodingEnable p)] ++ le_bytes 8 (BinaryEncodingActivationHeight p) ++
  le_bytes 8 (InitialBlockReward (cp_MonetaryPolicy p)) ++
  le_bytes 8 (HalvingInterval (cp_MonetaryPolicy p)) ++
  [MinerFeeShare (cp_MonetaryPolicy p)] ++
  le_bytes 8 (TailEmission (cp_MonetaryPolicy p)).

Definition RulesHash (p : ConsensusParams) : list Z := sha256 (ConsensusParams_MarshalBinary p).

(** * Properties *)

(** ** The reward schedule *)
Lemma reduce_reward_mono (a b : Z) : a <= b -> reduce_reward a <= reduce_reward b.
Proof.
  unfold reduce_reward, AnnualReductionRateNumerator, AnnualReductionRateDenominator.
  intros. apply Z.div_le_mono; lia.
Qed.

Lemma reduce_reward_le (r : Z) : 0 <= r -> 0 <= reduce_reward r <= r.
Proof.
  unfold reduce_reward, AnnualReductionRateNumerator, AnnualReductionRateDenominator.
  intros. split; [apply Z.div_pos; lia|]. apply Z.div_le_upper_bound; lia.
Qed.

Lemma iterate_reduce_mono (n : nat) (a b : Z) :
  a <= b -> iterate n reduce_reward a <= iterate n reduce_reward b.
Proof. intros. induction n; cbn; auto using reduce_reward_mono. Qed.

Lemma iterate_reduce_le (n : nat) (r : Z) : 0 <= r -> 0 <= iterate n reduce_reward r <= r.
Proof.
  intros. induction n as [|n IH]; cbn; [lia|].
  pose proof (reduce_reward_le (iterate n reduce_reward r)). lia.
Qed.

Lemma iterate_reduce_antitone (n m : nat) (r : Z) :
  0 <= r -> (n <= m)%nat -> iterate m reduce_reward r <= iterate n reduce_reward r.
Proof.
  intros Hr. induction 1 as [|m _ IH]; [lia|]. cbn.
  pose proof (reduce_reward_le (iterate m reduce_reward r)).
  pose proof (iterate_reduce_le m r Hr). lia.
Qed.

Lemma reduce_reward_500 (r : Z) : is_u64 r -> iterate 500 reduce_reward r <= 0.
Proof.
  intros [_ H]. etransitivity; [apply iterate_reduce_mono, H|].
  vm_compute. discriminate.
Qed.

(** The loop computes the reduced reward, floored. *)
Lemma BlockReward_loop_spec (fuel : nat) (years r m : Z) :
  0 <= years -> 0 <= r <= max_u64 -> 0 <= m -> iterate fuel reduce_reward r <= m ->
  BlockReward_loop fuel years r m = Z.max m (iterate (Z.to_nat years) reduce_reward r).
Proof.
  revert years r; induction fuel as [|fuel IH]; intros years r Hy Hr Hm Hf.
  - cbn in Hf. pose proof (iterate_reduce_le (Z.to_nat years) r).
    cbn [BlockReward_loop]. destruct (Z.ltb_spec 0 years).
    + rewrite (proj2 (Z.leb_le r m)) by lia. lia.
    + replace (Z.to_nat years) with O by lia. cbn [iterate].
      destruct (Z.ltb_spec r m); [lia|].
      rewrite (proj2 (Z.leb_le 0 r)), (proj2 (Z.leb_le r max_u64)) by lia. cbn. lia.
  - cbn [BlockReward_loop]. destruct (Z.ltb_spec 0 years).
    + pose proof (iterate_reduce_le (Z.to_nat years) r).
      pose proof (iterate_reduce_antitone 1 (Z.to_nat years) r ltac:(lia) ltac:(lia)) as Ha.
      change (iterate 1 reduce_reward r) with (reduce_reward r) in Ha.
      pose proof (reduce_reward_le r).
      destruct (Z.leb_spec r m); [lia|].
      destruct (Z.leb_spec (reduce_reward r) m); [lia|].
      rewrite IH; [|lia..|by rewrite <- iterate_succ_r].
      rewrite <- iterate_succ_r. do 2 f_equal. lia.
    + replace (Z.to_nat years) with O by lia. cbn [iterate].
      destruct (Z.ltb_spec r m); [lia|].
      rewrite (proj2 (Z.leb_le 0 r)), (proj2 (Z.leb_le r max_u64)) by lia. cbn. lia.
Qed.

(** The floor [BlockReward] applies: the configured minimum, 0.1 NOGO when none. *)
Definition reward_floor (p : MonetaryPolicy) : Z :=
  if MinimumBlockReward p =? 0 then 10000000 else MinimumBlockReward p.

Lemma BlockReward_closed (p : MonetaryPolicy) (h : Z) :
  policy_typed p -> InitialBlockReward p <> 0 -> 0 <= h ->
  BlockReward p h
  = Z.max (reward_floor p)
      (iterate (Z.to_nat (h / GetBlocksPerYear)) reduce_reward (InitialBlockReward p)).
Proof.
  intros Hp H0 Hh. unfold BlockReward.
  destruct (Z.eqb_spec (InitialBlockReward p) 0) as [|_]; [done|].
  destruct Hp as (Hi & _ & Hm & _). fold (reward_floor p).
  assert (0 <= reward_floor p)
    by (unfold reward_floor; unfold_u64; destruct (Z.eqb_spec (MinimumBlockReward p) 0); lia).
  apply BlockReward_loop_spec; auto.
  - apply Z.div_pos; [lia|]. done.
  - pose proof (reduce_reward_500 _ Hi). lia.
Qed.

Lemma reward_floor_pos (p : MonetaryPolicy) : policy_typed p -> 0 < reward_floor p <= max_u64.
Proof.
  intros (_ & _ & Hm & _). unfold reward_floor. unfold_u64.
  destruct (Z.eqb_spec (MinimumBlockReward p) 0); lia.
Qed.

Lemma BlockReward_range (p : MonetaryPolicy) (h : Z) :
  policy_typed p -> 0 <= h -> 0 < BlockReward p h <= max_u64.
Proof.
  intros Hp Hh. destruct (Z.eqb_spec (InitialBlockReward p) 0) as [E|E].
  - unfold BlockReward. rewrite E. unfold max_u64. cbn. lia.
  - rewrite BlockReward_closed by auto. pose proof (reward_floor_pos p Hp).
    destruct Hp as (Hi & _). unfold_u64.
    pose proof (iterate_reduce_le (Z.to_nat (h / GetBlocksPerYear)) (InitialBlockReward p)).
    lia.
Qed.

Lemma BlockReward_le_initial (p : MonetaryPolicy) (h : Z) :
  policy_typed p -> InitialBlockReward p <> 0 -> 0 <= h ->
  reward_floor p <= BlockReward p h <= Z.max (reward_floor p) (InitialBlockReward p).
Proof.
  intros Hp H0 Hh. rewrite BlockReward_closed by auto. destruct Hp as (Hi & _). unfold_u64.
  pose proof (iterate_reduce_le (Z.to_nat (h / GetBlocksPerYear)) (InitialBlockReward p)). lia.
Qed.

Lemma coinbase_expected_range (p : MonetaryPolicy) (h fees : Z) :
  is_u64 (coinbase_expected p h fees).
Proof. unfold coinbase_expected. apply u64_range. Qed.

(** Without wrap-around, the part of the reward a share pays. *)
Lemma share_exact (reward share : Z) :
  0 <= reward <= max_u64 / 100 -> 0 <= share <= 100 ->
  (reward * share / 100)%u64 = reward * share / 100.
Proof.
  intros Hr Hs. unfold div64. rewrite mul64_small; [done|].
  change (max_u64 / 100) with 184467440737095516 in Hr. unfold max_u64. nia.
Qed.

Lemma Validate_shares (p : MonetaryPolicy) :
  policy_typed p -> MonetaryPolicy_Validate p = Ok tt ->
  InitialBlockReward p <> 0 /\
  0 <= MinerRewardShare p <= 100 /\ 0 <= GenesisShare p <= 100 /\
  MinerRewardShare p + CommunityFundShare p + GenesisShare p + IntegrityPoolShare p = 100.
Proof.
  intros (Hi & _ & _ & _ & _ & _ & _ & Hm & Hc & Hg & Hp & _) H.
  unfold MonetaryPolicy_Validate in H. inv_result. bool_to_prop.
  unfold is_byte in *. unfold u16 in *.
  Z.to_euclidean_division_equations. lia.
Qed.

(** ** Serialisation *)
Lemma app_inj_length {A : Type} (a b c d : list A) :
  length a = length c -> a ++ b = c ++ d -> a = c /\ b = d.
Proof. intros. by apply app_inj_1. Qed.

Ltac split_bytes H :=
  repeat match type of H with
  | (_ ++ _)%list = (_ ++ _)%list =>
      let H1 := fresh "B" in
      apply app_inj_length in H as [H1 H]; [|by rewrite ?le_bytes_length]
  end.

Lemma bool_byte_inj (a b : bool) : bool_byte a = bool_byte b -> a = b.
Proof. by destruct a, b. Qed.

(** [BlockReward] computes the advertised schedule: the initial reward times
    9/10, rounded down, once per elapsed year of blocks, and never below the
    floor; in particular the loop's early returns and its fuel change nothing. *)
Theorem block_reward_schedule (p : MonetaryPolicy) (h : Z)
  (Hp : policy_typed p) (H0 : InitialBlockReward p <> 0) (Hh : 0 <= h) :
  BlockReward p h
  = Z.max (reward_floor p)
      (iterate (Z.to_nat (h / GetBlocksPerYear)) reduce_reward (InitialBlockReward p)).
Proof. by apply BlockReward_closed. Qed.

(** The subsidy never increases with the height and stays between the floor
    and the larger of the floor and the initial reward. *)
Theorem block_reward_antitone (p : MonetaryPolicy) (h1 h2 : Z)
  (Hp : policy_typed p) (H0 : InitialBlockReward p <> 0) (Hh : 0 <= h1 <= h2) :
  reward_floor p <= BlockReward p h2 <= BlockReward p h1 /\
  BlockReward p h1 <= Z.max (reward_floor p) (InitialBlockReward p).
Proof.
  pose proof (BlockReward_le_initial p h1 Hp H0 ltac:(lia)).
  pose proof (BlockReward_le_initial p h2 Hp H0 ltac:(lia)).
  split; [|lia]. split; [lia|]. rewrite !BlockReward_closed by (auto; lia).
  assert (Z.to_nat (h1 / GetBlocksPerYear) <= Z.to_nat (h2 / GetBlocksPerYear))%nat
    by (apply Z2Nat.inj_le; [apply Z.div_pos; [lia|done]..|apply Z.div_le_mono; [done|lia]]).
  destruct Hp as ([Hi _] & _).
  pose proof (iterate_reduce_antitone _ _ (InitialBlockReward p) Hi H2). lia.
Qed.

(** For a validated policy whose rewards cannot overflow when multiplied by a
    share, the miner's and the genesis address's parts of a block reward never
    exceed the reward together, and at most two units of it are lost to rounding
    when the two disabled shares are zero. *)
Theorem reward_split_sound (p : MonetaryPolicy) (h : Z)
  (Hp : policy_typed p) (Hv : MonetaryPolicy_Validate p = Ok tt) (Hh : 0 <= h)
  (Hmax : Z.max (reward_floor p) (InitialBlockReward p) <= max_u64 / 100) :
  let r := BlockReward p h in
  let miner := (r * MinerRewardShare p / 100)%u64 in
  let genesis := (r * GenesisShare p / 100)%u64 in
  miner + genesis <= r /\
  (CommunityFundShare p = 0 -> IntegrityPoolShare p = 0 -> r - 2 < miner + genesis).
Proof.
  destruct (Validate_shares p Hp Hv) as (H0 & Hm & Hg & Hsum).
  pose proof (BlockReward_le_initial p h Hp H0 Hh) as Hr.
  pose proof (BlockReward_range p h Hp Hh) as Hr'.
  destruct Hp as (_ & _ & _ & _ & _ & _ & _ & _ & Hc & _ & Hi & _). unfold is_byte in *.
  cbv zeta. rewrite !share_exact by lia.
  set (r := BlockReward p h) in *.
  pose proof (Z.div_mod (r * MinerRewardShare p) 100).
  pose proof (Z.div_mod (r * GenesisShare p) 100).
  pose proof (Z.mod_pos_bound (r * MinerRewardShare p) 100).
  pose proof (Z.mod_pos_bound (r * GenesisShare p) 100). split; nia.
Qed.

(** The binary form of the policy determines every field it carries: two
    policies with the same bytes agree on the reward schedule, the fee share and
    the uncle parameters. *)
Theorem policy_marshal_injective (p q : MonetaryPolicy)
  (Hp : policy_typed p) (Hq : policy_typed q)
  (H : MonetaryPolicy_MarshalBinary p = MonetaryPolicy_MarshalBinary q) :
  InitialBlockReward p = InitialBlockReward q /\ HalvingInterval p = HalvingInterval q /\
  MinerFeeShare p = MinerFeeShare q /\ TailEmission p = TailEmission q /\
  AnnualReductionPercent p = AnnualReductionPercent q /\
  MinimumBlockReward p = MinimumBlockReward q /\
  UncleRewardEnabled p = UncleRewardEnabled q /\ MaxUncleDepth p = MaxUncleDepth q.
Proof.
  unfold MonetaryPolicy_MarshalBinary in H. split_bytes H.
  unfold policy_typed in *. destruct_and!.
  repeat match goal with B : [_] = [_] |- _ => injection B as B end.
  repeat split; auto using le_bytes_u64_inj, bool_byte_inj.
Qed.

(** The rules hash that peers compare does not cover the reward shares: any
    two parameter sets that differ only in who receives the block reward (and in
    the difficulty-bits range) have the same hash, although they accept
    different coinbase amounts. *)
Theorem rules_hash_ignores_shares (p : ConsensusParams) (m g minBits maxBits : Z) :
  let mp := cp_MonetaryPolicy p in
  let mp' := mkMonetaryPolicy (InitialBlockReward mp) (AnnualReductionPercent mp)
    (MinimumBlockReward mp) (UncleRewardEnabled mp) (MaxUncleDepth mp) (HalvingInterval mp)
    (MaxSupply mp) (MinerFeeShare mp) m (CommunityFundShare mp) g (IntegrityPoolShare mp)
    (TailEmission mp) in
  RulesHash (mkConsensusParams (cp_ChainID p) (DifficultyEnable p) (BlockTimeTargetSeconds p)
    (DifficultyAdjustmentInterval p) (MaxBlockTimeDriftSeconds p) (MinDifficulty p)
    (MaxDifficulty p) minBits maxBits (MaxDifficultyChangePercent p) (MedianTimePastWindow p)
    (MerkleEnable p) (MerkleActivationHeight p) (BinaryEncodingEnable p)
    (BinaryEncodingActivationHeight p) (GenesisDifficultyBits p) (MaxBlockSize p)
    (MaxTransactionsPerBlock p) mp')
  = RulesHash p.
Proof. reflexivity. Qed.

(** ** Witnesses: the main network's policy *)
Definition main_policy : MonetaryPolicy :=
  mkMonetaryPolicy 800000000 10 10000000 false 6 0 0 0 99 0 1 0 0.

Lemma main_policy_typed : policy_typed main_policy.
Proof. unfold policy_typed, main_policy. unfold_u64. cbn. lia. Qed.

Lemma block_reward_schedule_witness :
  BlockReward main_policy 3000000
  = Z.max (reward_floor main_policy)
      (iterate (Z.to_nat (3000000 / GetBlocksPerYear)) reduce_reward 800000000)
  /\ BlockReward main_policy 3000000 = 648000000.
Proof.
  split; [|vm_compute; reflexivity].
  apply (block_reward_schedule main_policy 3000000);
    [apply main_policy_typed|discriminate|lia].
Defined.

Lemma block_reward_antitone_witness :
  BlockReward main_policy 5000000 <= BlockReward main_policy 100.
Proof.
  apply (block_reward_antitone main_policy 100 5000000);
    [apply main_policy_typed|discriminate|lia].
Defined.

Lemma reward_split_sound_witness :
  (BlockReward main_policy 7 * 99 / 100)%u64 + (BlockReward main_policy 7 * 1 / 100)%u64
  <= BlockReward main_policy 7.
Proof.
  apply (reward_split_sound main_policy 7);
    [apply main_policy_typed|reflexivity|lia|vm_compute; discriminate].
Defined.

Lemma policy_marshal_injective_witness : MaxUncleDepth main_policy = 6.
Proof.
  apply (policy_marshal_injective main_policy main_policy);
    [apply main_policy_typed..|reflexivity].
Defined.
