(* ===== verification/Merkle.v ===== *)
(** * Merkle trees

    [blockchain/core/merkle.go]: domain-separated SHA-256 Merkle roots, proofs
    and their verification, and the [MerkleTree] structure that keeps all levels.
    The loops [for len(level) > 1] run on fuel; [length level] is enough because
    every level is shorter than the one below it ([next_level_lt]). *)

From S2P Require Import Prelude Bytes Sha256.
From stdpp Require Import base list strings numbers sets.
From Stdlib Require Import ZArith Lia.

Open Scope Z_scope.
Open Scope go_scope.

Definition ErrEmptyLeaves : error := "empty leaves".
Definition ErrInvalidLeafLength : error := "leaf must be 32 bytes".
Definition ErrInvalidIndex : error := "index out of range".
Definition ErrInvalidRootLength : error := "expected root must be 32 bytes".
Definition ErrBranchMismatch : error := "branch/side length mismatch".
Definition ErrInvalidBranchItem : error := "branch item must be 32 bytes".
Definition ErrNegativeIndex : error := "index must be >= 0".

Definition leafPrefix : Z := 0.
Definition nodePrefix : Z := 1.
Definition hashLength : nat := 32.

Record MerkleProof := mkMerkleProof {
  Leaf : list Z;
  Index : Z;
  Branch : list (list Z);
  SiblingLeft : list bool;
  Root : list Z
}.

(** ** Hashing *)
Definition hashLeaf (leaf : list Z) : list Z :=
  sha256 (leafPrefix :: copy_into hashLength leaf).

Definition hashNode (left right : list Z) : list Z :=
  sha256 (nodePrefix :: copy_into hashLength left ++ copy_into hashLength right).

(** The loop that checks every leaf and hashes it. *)
Fixpoint hash_leaves (leaves : list (list Z)) : result (list (list Z)) :=
  match leaves with
  | [] => Ok []
  | l :: ls =>
      fail_if (negb (len l =? Z.of_nat hashLength)) ErrInvalidLeafLength ;;?
      let? rest := hash_leaves ls in Ok (hashLeaf l :: rest)
  end.

(** One level up; the last node of an odd level is paired with itself. *)
Fixpoint next_level (level : list (list Z)) : list (list Z) :=
  match level with
  | [] => []
  | [l] => [hashNode l l]
  | l :: r :: rest => hashNode l r :: next_level rest
  end.

Fixpoint root_loop (fuel : nat) (level : list (list Z)) : list (list Z) :=
  if (1 <? len level)
  then match fuel with
       | O => level
       | S fuel' => root_loop fuel' (next_level level)
       end
  else level.

(** ** Roots *)
Definition ComputeMerkleRoot (leaves : list (list Z)) : result (list Z) :=
  fail_if (len leaves =? 0) ErrEmptyLeaves ;;?
  let? level := hash_leaves leaves in
  Ok (copy_into hashLength (nth 0 (root_loop (length level) level) [])).

Definition MerkleRoot (leaves : list (list Z)) : result (list Z) := ComputeMerkleRoot leaves.

Fixpoint decode_hashes (hashes : list string) : result (list (list Z)) :=
  match hashes with
  | [] => Ok []
  | h :: hs =>
      let? decoded := wrap "decode hash" (hexDecodeString h) in
      fail_if (negb (len decoded =? Z.of_nat hashLength)) ErrInvalidLeafLength ;;?
      let? rest := decode_hashes hs in Ok (decoded :: rest)
  end.

Definition ComputeMerkleRootFromHashes (hashes : list string) : result (list Z) :=
  fail_if (len hashes =? 0) ErrEmptyLeaves ;;?
  let? leaves := decode_hashes hashes in
  ComputeMerkleRoot leaves.

(** ** Proofs *)

(** The sibling of node [idx] and the side it is on. *)
Definition sibling (level : list (list Z)) (idx : nat) : list Z * bool :=
  if (idx mod 2 =? 0)%nat then
    if (idx + 1 <? length level)%nat then (nth (idx + 1) level [], false)
    else (nth idx level [], false)
  else (nth (idx - 1) level [], true).

Fixpoint proof_loop (fuel : nat) (level : list (list Z)) (idx : nat)
    (branch : list (list Z)) (sides : list bool)
  : list (list Z) * list bool * list (list Z) :=
  if (1 <? len level)
  then match fuel with
       | O => (branch, sides, level)
       | S fuel' =>
           let '(sib, sibIsLeft) := sibling level idx in
           proof_loop fuel' (next_level level) (idx / 2)
             (branch ++ [copy_into hashLength sib]) (sides ++ [sibIsLeft])
       end
  else (branch, sides, level).

Definition BuildMerkleProof (leaves : list (list Z)) (index : Z) : result MerkleProof :=
  fail_if (len leaves =? 0) ErrEmptyLeaves ;;?
  fail_if ((index <? 0) || (index >=? len leaves)) ErrInvalidIndex ;;?
  let? level := hash_leaves leaves in
  let idx := Z.to_nat index in
  let '(branch, sides, top) := proof_loop (length level) level idx [] [] in
  Ok (mkMerkleProof (copy_into hashLength (nth idx leaves [])) index branch sides
        (if 0 <? len top then copy_into hashLength (nth 0 top []) else [])).

Definition merkleProofLegacy (leaves : list (list Z)) (index : Z)
  : result (list (list Z) * list bool * list Z) :=
  let? proof := BuildMerkleProof leaves index in
  Ok (Branch proof, SiblingLeft proof, Root proof).

Definition ComputeMerkleProofWithSide (leaves : list (list Z)) (index : Z)
  : result (list (list Z) * list bool * list Z) := merkleProofLegacy leaves index.

(** The loop both verifiers run: [branch] and [sides] are walked in step. *)
Fixpoint fold_branch (current : list Z) (branch : list (list Z)) (sides : list bool)
  : result (list Z) :=
  match branch, sides with
  | sib :: branch', isLeft :: sides' =>
      fail_if (negb (len sib =? Z.of_nat hashLength)) ErrInvalidBranchItem ;;?
      fold_branch (if (isLeft : bool) then hashNode sib current else hashNode current sib)
        branch' sides'
  | _ :: _, [] => Err "index out of range"
  | [], _ => Ok current
  end.

Definition VerifyMerkleProof (leaf : list Z) (index : Z) (branch : list (list Z))
    (siblingLeft : list bool) (expectedRoot : list Z) : result bool :=
  fail_if (negb (len leaf =? Z.of_nat hashLength)) ErrInvalidLeafLength ;;?
  fail_if (negb (len expectedRoot =? Z.of_nat hashLength)) ErrInvalidRootLength ;;?
  fail_if (negb (len branch =? len siblingLeft)) ErrBranchMismatch ;;?
  fail_if (index <? 0) ErrNegativeIndex ;;?
  let? current := fold_branch (hashLeaf leaf) branch siblingLeft in
  Ok (bytes_eqb current expectedRoot).

Definition VerifyMerkleProofWithStruct (proof : option MerkleProof) : result bool :=
  match proof with
  | None => Err "nil proof"
  | Some p => VerifyMerkleProof (Leaf p) (Index p) (Branch p) (SiblingLeft p) (Root p)
  end.

Definition GetMerkleRootFromProof (proof : option MerkleProof) : result (list Z) :=
  match proof with
  | None => Err "nil proof"
  | Some p =>
      fail_if (negb (len (Leaf p) =? Z.of_nat hashLength)) ErrInvalidLeafLength ;;?
      let? current := fold_branch (hashLeaf (Leaf p)) (Branch p) (SiblingLeft p) in
      Ok (copy_into hashLength current)
  end.

(** ** The tree with precomputed levels *)
Record MerkleTree := mkMerkleTree {
  leaves : list (list Z);
  levels : list (list (list Z));
  root : option (list Z);
  built : bool
}.

(** The levels [build] appends, from the hashed leaves to the root. *)
Fixpoint build_levels (fuel : nat) (level : list (list Z)) : list (list (list Z)) :=
  if (1 <? len level)
  then match fuel with
       | O => [level]
       | S fuel' => level :: build_levels fuel' (next_level level)
       end
  else [level].

Definition build (t : MerkleTree) : MerkleTree :=
  if built t then t
  else
    let level := map hashLeaf (leaves t) in
    let lvls := build_levels (length level) level in
    let top := List.last lvls [] in
    mkMerkleTree (leaves t) (levels t ++ lvls)
      (if 0 <? len top then Some (copy_into hashLength (nth 0 top [])) else root t) true.

Fixpoint check_leaves (ls : list (list Z)) : result (list (list Z)) :=
  match ls with
  | [] => Ok []
  | l :: ls' =>
      fail_if (negb (len l =? Z.of_nat hashLength)) ErrInvalidLeafLength ;;?
      let? rest := check_leaves ls' in Ok (copy_into hashLength l :: rest)
  end.

Definition NewMerkleTree (ls : list (list Z)) : result MerkleTree :=
  fail_if (len ls =? 0) ErrEmptyLeaves ;;?
  let? copies := check_leaves ls in
  Ok (build (mkMerkleTree copies [] None false)).

Definition GetRoot (t : MerkleTree) : option (list Z) := copy_into hashLength <$> root t.

(** The loop of [GetProof] over all levels but the last. *)
Fixpoint tree_proof_loop (lvls : list (list (list Z))) (idx : nat)
    (branch : list (list Z)) (sides : list bool) : list (list Z) * list bool :=
  match lvls with
  | level :: ((_ :: _) as rest) =>
      let '(sib, sibIsLeft) := sibling level idx in
      tree_proof_loop rest (idx / 2) (branch ++ [copy_into hashLength sib])
        (sides ++ [sibIsLeft])
  | _ => (branch, sides)
  end.

Definition GetProof (t : MerkleTree) (index : Z) : result MerkleProof :=
  fail_if ((index <? 0) || (index >=? len (leaves t))) ErrInvalidIndex ;;?
  let idx := Z.to_nat index in
  let '(branch, sides) := tree_proof_loop (levels t) idx [] [] in
  Ok (mkMerkleProof (copy_into hashLength (nth idx (leaves t) [])) index branch sides
        (match root t with Some r => copy_into hashLength r | None => [] end)).

Definition GetLeafCount (t : MerkleTree) : Z := len (leaves t).
Definition GetDepth (t : MerkleTree) : Z :=
  if len (levels t) =? 0 then 0 else len (levels t) - 1.

(** * Properties *)

(** ** Sizes *)
Lemma hashLeaf_length (l : list Z) : length (hashLeaf l) = hashLength.
Proof. apply sha256_length. Qed.

Lemma hashNode_length (l r : list Z) : length (hashNode l r) = hashLength.
Proof. apply sha256_length. Qed.

Lemma len_eqb (l : list Z) : (len l =? Z.of_nat hashLength) = true <-> length l = hashLength.
Proof. unfold len. rewrite Z.eqb_eq. lia. Qed.

#[export] Hint Resolve hashLeaf_length hashNode_length : go.

(** Induction two elements at a time, the way [next_level] recurses. *)
Lemma pair_ind {A : Type} (P : list A -> Prop) :
  P [] -> (forall x, P [x]) -> (forall x y l, P l -> P (x :: y :: l)) -> forall l, P l.
Proof.
  intros H0 H1 H2 l.
  enough (P l /\ forall x, P (x :: l)) as [? _] by done.
  induction l as [|x l [IH IH']]; split; auto.
Qed.

Lemma next_level_length (level : list (list Z)) :
  length (next_level level) = ((length level + 1) / 2)%nat.
Proof.
  induction level as [| |x y l IH] using pair_ind; [done..|].
  cbn [next_level length]. rewrite IH.
  replace (S (S (length l)) + 1)%nat with (1 * 2 + (length l + 1))%nat by lia.
  rewrite Nat.div_add_l by lia. lia.
Qed.

Lemma next_level_lt (level : list (list Z)) :
  (1 < length level)%nat -> (0 < length (next_level level) < length level)%nat.
Proof.
  rewrite next_level_length. intros. split.
  - apply Nat.div_str_pos. lia.
  - apply Nat.Div0.div_lt_upper_bound. lia.
Qed.

Lemma next_level_sized (level : list (list Z)) :
  Forall (fun h => length h = hashLength) (next_level level).
Proof. induction level using pair_ind; cbn; auto with go. Qed.

(** ** Lookups: the parent of node [idx] *)
Lemma next_level_lookup (level : list (list Z)) (k : nat) (l : list Z) :
  level !! (2 * k)%nat = Some l ->
  next_level level !! k = Some (hashNode l (default l (level !! (2 * k + 1)%nat))).
Proof.
  revert k; induction level as [|x|x y level IH] using pair_ind; intros k H.
  - done.
  - pose proof (lookup_lt_Some _ _ _ H) as Hl. cbn in Hl.
    replace k with O in * by lia. by simplify_eq/=.
  - destruct k; cbn [next_level]; [by simplify_eq/=|].
    replace (2 * S k)%nat with (S (S (2 * k))) in H by lia.
    replace (2 * S k + 1)%nat with (S (S (2 * k + 1))) by lia.
    cbn in *. by apply IH.
Qed.

Lemma nth_lookup_Some_eq {A : Type} (l : list A) (i : nat) (d x : A) :
  l !! i = Some x -> nth i l d = x.
Proof. intros H. rewrite nth_lookup. by rewrite H. Qed.

(** The parent of [idx] is the hash of the node and its sibling, in order. *)
Lemma sibling_parent (level : list (list Z)) (idx : nat) (cur : list Z) :
  level !! idx = Some cur ->
  exists sib isLeft, sibling level idx = (sib, isLeft) /\ sib ∈ level /\
    next_level level !! (idx / 2)%nat
    = Some (if isLeft then hashNode sib cur else hashNode cur sib).
Proof.
  intros H. unfold sibling.
  pose proof (Nat.div_mod_eq idx 2) as Hd. pose proof (Nat.mod_upper_bound idx 2).
  destruct (Nat.eqb_spec (idx mod 2) 0) as [E|E].
  - assert (Hi : idx = (2 * (idx / 2))%nat) by lia.
    rewrite Hi in H. pose proof (next_level_lookup _ _ _ H) as Hn.
    rewrite <- Hi in *. destruct (Nat.ltb_spec (idx + 1) (length level)) as [Hl|Hl].
    + destruct (lookup_lt_is_Some_2 level (idx + 1) Hl) as [s Hs].
      exists s, false. rewrite (nth_lookup_Some_eq _ _ _ _ Hs), Hs in *.
      split_and!; [done| |done]. by eapply list_elem_of_lookup_2.
    + exists cur, false. rewrite (nth_lookup_Some_eq _ _ _ _ H).
      rewrite (lookup_ge_None_2 level (idx + 1)) in Hn by lia.
      split_and!; [done| |done]. by eapply list_elem_of_lookup_2.
  - assert (Hi : (idx - 1 = 2 * (idx / 2))%nat) by lia.
    destruct (lookup_lt_is_Some_2 level (idx - 1)) as [s Hs].
    { apply lookup_lt_Some in H. lia. }
    exists s, true. rewrite (nth_lookup_Some_eq _ _ _ _ Hs).
    pose proof Hs as Hs'. rewrite Hi in Hs'. apply next_level_lookup in Hs'.
    replace (2 * (idx / 2) + 1)%nat with idx in Hs' by lia. rewrite H in Hs'. cbn in Hs'.
    split_and!; [done| |done]. by eapply list_elem_of_lookup_2.
Qed.

(** ** The proof loop *)
Lemma proof_loop_acc (fuel : nat) (level : list (list Z)) (idx : nat) b s :
  proof_loop fuel level idx b s
  = (b ++ fst (fst (proof_loop fuel level idx [] [])),
     s ++ snd (fst (proof_loop fuel level idx [] [])),
     snd (proof_loop fuel level idx [] [])).
Proof.
  revert level idx b s; induction fuel as [|fuel IH]; intros level idx b s; cbn [proof_loop].
  - destruct (1 <? len level); cbn; by rewrite !app_nil_r.
  - destruct (1 <? len level); cbn [fst snd]; [|by rewrite !app_nil_r].
    destruct (sibling level idx) as [sib isLeft].
    rewrite (IH _ _ (b ++ _) (s ++ _)).
    rewrite (IH _ _ ([] ++ [copy_into hashLength sib]) ([] ++ [isLeft])). cbn [fst snd].
    by rewrite <- !app_assoc.
Qed.

Lemma proof_loop_step (fuel : nat) (level : list (list Z)) (idx : nat) sib isLeft :
  (1 < length level)%nat -> sibling level idx = (sib, isLeft) ->
  proof_loop (S fuel) level idx [] []
  = (copy_into hashLength sib :: fst (fst (proof_loop fuel (next_level level) (idx / 2) [] [])),
     isLeft :: snd (fst (proof_loop fuel (next_level level) (idx / 2) [] [])),
     snd (proof_loop fuel (next_level level) (idx / 2) [] [])).
Proof.
  intros Hl Hs. cbn [proof_loop].
  rewrite (proj2 (Z.ltb_lt 1 (len level))) by (unfold len; lia).
  rewrite Hs, proof_loop_acc. done.
Qed.

Lemma proof_loop_verifies (fuel : nat) (level : list (list Z)) (idx : nat) (cur : list Z) :
  Forall (fun h => length h = hashLength) level ->
  (length level <= S fuel)%nat -> level !! idx = Some cur ->
  exists r b s, proof_loop fuel level idx [] [] = (b, s, [r]) /\
    root_loop fuel level = [r] /\ length b = length s /\ fold_branch cur b s = Ok r /\
    length r = hashLength.
Proof.
  revert level idx cur; induction fuel as [|fuel IH]; intros level idx cur Hs Hl Hi.
  - destruct level as [|x [|y level]]; cbn in Hl; [done| |lia].
    pose proof (lookup_lt_Some _ _ _ Hi) as Hlt. cbn in Hlt.
    replace idx with O in * by lia. simplify_eq/=. inversion_clear Hs.
    exists cur, [], []. done.
  - destruct (Nat.ltb_spec 1 (length level)) as [Hlt|Hge].
    + destruct (sibling_parent _ _ _ Hi) as (sib & isLeft & Esib & Hin & Hpar).
      pose proof (next_level_lt _ Hlt).
      destruct (IH _ _ _ (next_level_sized level) ltac:(lia) Hpar)
        as (r & b & s & Eb & Er & Ebs & Ef & Hr).
      rewrite (proof_loop_step _ _ _ _ _ Hlt Esib), Eb. cbn [fst snd].
      assert (Hsib : length sib = hashLength) by (rewrite list.Forall_forall in Hs; auto).
      rewrite copy_into_full by done.
      exists r, (sib :: b), (isLeft :: s). split_and!; auto.
      * cbn [root_loop]. by rewrite (proj2 (Z.ltb_lt 1 (len level))) by (unfold len; lia).
      * cbn. by rewrite Ebs.
      * cbn [fold_branch]. rewrite (proj2 (len_eqb sib) Hsib). cbn. exact Ef.
    + destruct level as [|x [|y level]]; cbn in Hge; [done| |lia].
      pose proof (lookup_lt_Some _ _ _ Hi) as Hlt. cbn in Hlt.
      replace idx with O in * by lia. simplify_eq/=. inversion_clear Hs.
      exists cur, [], []. done.
Qed.

(** ** Leaves *)
Definition sized (ls : list (list Z)) : Prop := Forall (fun l => length l = hashLength) ls.

Lemma hash_leaves_ok (ls : list (list Z)) : sized ls -> hash_leaves ls = Ok (map hashLeaf ls).
Proof.
  induction 1 as [|l ls Hl _ IH]; [done|]. cbn [hash_leaves].
  rewrite (proj2 (len_eqb l) Hl), IH. done.
Qed.

Lemma hash_leaves_err (ls : list (list Z)) : ~ sized ls -> hash_leaves ls = Err ErrInvalidLeafLength.
Proof.
  induction ls as [|l ls IH]; intros H; [by destruct H; constructor|]. cbn [hash_leaves].
  destruct (len l =? Z.of_nat hashLength) eqn:E; [|done]. cbn.
  rewrite IH; [done|]. intros Hs. apply H. constructor; [|done]. by apply len_eqb.
Qed.

Lemma hashed_sized (ls : list (list Z)) :
  Forall (fun h => length h = hashLength) (map hashLeaf ls).
Proof. apply Forall_fmap, Forall_true. auto with go. Qed.

Lemma len_pos {A : Type} (l : list A) : l <> [] -> (len l =? 0) = false.
Proof. destruct l; [done|]. intros _. apply Z.eqb_neq. unfold len. cbn. lia. Qed.

Lemma root_loop_single (ls : list (list Z)) :
  ls <> [] -> exists r, root_loop (length ls) (map hashLeaf ls) = [r] /\ length r = hashLength.
Proof.
  intros H. destruct ls as [|l ls]; [done|].
  destruct (proof_loop_verifies (length (l :: ls)) (map hashLeaf (l :: ls)) 0 (hashLeaf l))
    as (r & _ & _ & _ & Hr & _ & _ & Hl); eauto using hashed_sized.
  by rewrite length_map; lia.
Qed.

(** ** Roots and proofs of a well-formed leaf list *)
Lemma ComputeMerkleRoot_ok (ls : list (list Z)) (r : list Z) :
  sized ls -> ls <> [] -> root_loop (length ls) (map hashLeaf ls) = [r] ->
  length r = hashLength -> ComputeMerkleRoot ls = Ok r.
Proof.
  intros Hs Hne Hr Hl. unfold ComputeMerkleRoot. rewrite len_pos by done. cbn [fail_if result_bind].
  rewrite hash_leaves_ok by done. cbn [result_bind]. rewrite length_map, Hr. cbn [nth].
  by rewrite copy_into_full.
Qed.

Lemma BuildMerkleProof_ok (ls : list (list Z)) (i : Z) :
  sized ls -> 0 <= i < len ls ->
  exists r b s, BuildMerkleProof ls i = Ok (mkMerkleProof (nth (Z.to_nat i) ls []) i b s r) /\
    proof_loop (length ls) (map hashLeaf ls) (Z.to_nat i) [] [] = (b, s, [r]) /\
    root_loop (length ls) (map hashLeaf ls) = [r] /\ length r = hashLength /\
    length (nth (Z.to_nat i) ls []) = hashLength /\ length b = length s /\
    fold_branch (hashLeaf (nth (Z.to_nat i) ls [])) b s = Ok r.
Proof.
  intros Hs Hi. unfold len in Hi.
  destruct (lookup_lt_is_Some_2 ls (Z.to_nat i)) as [l Hl]; [lia|].
  rewrite (nth_lookup_Some_eq _ _ _ _ Hl).
  assert (Hlen : length l = hashLength)
    by (unfold sized in Hs; rewrite list.Forall_forall in Hs; eapply Hs, list_elem_of_lookup_2, Hl).
  destruct (proof_loop_verifies (length ls) (map hashLeaf ls) (Z.to_nat i) (hashLeaf l))
    as (r & b & s & Ep & Er & Ebs & Ef & Hr); eauto using hashed_sized.
  { rewrite length_map. lia. }
  { change (map hashLeaf ls) with (hashLeaf <$> ls). by rewrite list_lookup_fmap, Hl. }
  exists r, b, s. split_and!; auto. unfold BuildMerkleProof.
  rewrite len_pos by (destruct ls; [by cbn in Hi; lia|done]).
  replace ((i <? 0) || (i >=? len ls)) with false
    by (symmetry; unfold len; apply orb_false_intro; [apply Z.ltb_ge|rewrite Z.geb_leb; apply Z.leb_gt]; lia).
  cbn [fail_if result_bind]. rewrite hash_leaves_ok by done. cbn [result_bind].
  rewrite length_map, Ep, (nth_lookup_Some_eq _ _ _ _ Hl). cbn [nth].
  by rewrite !copy_into_full by done.
Qed.

(** ** The precomputed tree *)
Lemma check_leaves_ok (ls : list (list Z)) : sized ls -> check_leaves ls = Ok ls.
Proof.
  induction 1 as [|l ls Hl _ IH]; [done|]. cbn [check_leaves].
  rewrite (proj2 (len_eqb l) Hl), IH. cbn. by rewrite copy_into_full.
Qed.

Lemma check_leaves_err (ls : list (list Z)) :
  ~ sized ls -> check_leaves ls = Err ErrInvalidLeafLength.
Proof.
  induction ls as [|l ls IH]; intros H; [by destruct H; constructor|]. cbn [check_leaves].
  destruct (len l =? Z.of_nat hashLength) eqn:E; [|done]. cbn.
  rewrite IH; [done|]. intros Hs. apply H. constructor; [|done]. by apply len_eqb.
Qed.

Lemma build_levels_cons (fuel : nat) (level : list (list Z)) :
  exists l ls, build_levels fuel level = l :: ls.
Proof. destruct fuel; cbn [build_levels]; destruct (1 <? len level); eauto. Qed.

Lemma build_levels_last (fuel : nat) (level : list (list Z)) :
  List.last (build_levels fuel level) [] = root_loop fuel level.
Proof.
  revert level; induction fuel as [|fuel IH]; intros level; cbn [build_levels root_loop];
    destruct (1 <? len level); auto.
  rewrite <- IH. destruct (build_levels_cons fuel (next_level level)) as (l & ls & E).
  by rewrite E.
Qed.

Lemma tree_proof_loop_eq (fuel : nat) (level : list (list Z)) (idx : nat) b s :
  tree_proof_loop (build_levels fuel level) idx b s = fst (proof_loop fuel level idx b s).
Proof.
  revert level idx b s; induction fuel as [|fuel IH]; intros; cbn [build_levels proof_loop];
    destruct (1 <? len level); auto.
  destruct (build_levels_cons fuel (next_level level)) as (l & ls & E).
  destruct (sibling level idx) as [sib isLeft] eqn:Es.
  rewrite <- IH, E. cbn [tree_proof_loop]. by rewrite Es.
Qed.

Lemma NewMerkleTree_ok (ls : list (list Z)) (r : list Z) :
  sized ls -> ls <> [] -> root_loop (length ls) (map hashLeaf ls) = [r] ->
  length r = hashLength ->
  NewMerkleTree ls
  = Ok (mkMerkleTree ls (build_levels (length ls) (map hashLeaf ls)) (Some r) true).
Proof.
  intros Hs Hne Hr Hl. unfold NewMerkleTree. rewrite len_pos by done. cbn [fail_if result_bind].
  rewrite check_leaves_ok by done. cbn [result_bind]. unfold build. cbn [built leaves levels].
  rewrite length_map, build_levels_last, Hr. cbn [nth app]. by rewrite copy_into_full.
Qed.

(** ** Soundness: a verified leaf is a leaf of the tree, or two named inputs collide *)

(** Two different inputs, one among [xs] and one among [ys], with the same SHA-256 digest. *)
Definition collides (xs ys : list (list Z)) : Prop :=
  exists x y, x ∈ xs /\ y ∈ ys /\ x <> y /\ sha256 x = sha256 y.

(** The inputs [hashLeaf] and [hashNode] give to SHA-256. *)
Definition leaf_input (leaf : list Z) : list Z := leafPrefix :: copy_into hashLength leaf.
Definition node_input (l r : list Z) : list Z :=
  nodePrefix :: copy_into hashLength l ++ copy_into hashLength r.

(** What the verifier hashes while it walks a branch, and with the leaf before it. *)
Fixpoint fold_inputs (cur : list Z) (branch : list (list Z)) (sides : list bool) : list (list Z) :=
  match branch, sides with
  | sib :: branch', isLeft :: sides' =>
      let i := if (isLeft : bool) then node_input sib cur else node_input cur sib in
      i :: fold_inputs (sha256 i) branch' sides'
  | _, _ => []
  end.
Definition proof_inputs (leaf : list Z) (branch : list (list Z)) (sides : list bool) : list (list Z) :=
  leaf_input leaf :: fold_inputs (hashLeaf leaf) branch sides.

(** What [ComputeMerkleRoot] hashes: every leaf, and every pair of every level. *)
Fixpoint level_inputs (level : list (list Z)) : list (list Z) :=
  match level with
  | [] => []
  | [l] => [node_input l l]
  | l :: r :: rest => node_input l r :: level_inputs rest
  end.
Fixpoint levels_inputs (fuel : nat) (level : list (list Z)) : list (list Z) :=
  if 1 <? len level
  then match fuel with
       | O => []
       | S fuel' => level_inputs level ++ levels_inputs fuel' (next_level level)
       end
  else [].
Definition tree_inputs (ls : list (list Z)) : list (list Z) :=
  map leaf_input ls ++ levels_inputs (length ls) (map hashLeaf ls).

Lemma collides_mono (xs xs' ys ys' : list (list Z)) :
  xs ⊆ xs' -> ys ⊆ ys' -> collides xs ys -> collides xs' ys'.
Proof. intros H1 H2 (x & y & ? & ? & ?). exists x, y. auto. Qed.

Lemma sha256_meets (xs ys : list (list Z)) (x y : list Z) :
  x ∈ xs -> y ∈ ys -> sha256 x = sha256 y -> x = y \/ collides xs ys.
Proof. intros. destruct (decide (x = y)); [by left|right; by exists x, y]. Qed.

(** Whether two given lists collide can be computed, with one digest for each input. *)
Definition digests (xs : list (list Z)) : list (list Z * list Z) := map (fun x => (x, sha256 x)) xs.
Definition collides_dec (xs ys : list (list Z)) : bool :=
  let dx := digests xs in let dy := digests ys in
  existsb (fun '(x, h) => existsb (fun '(y, g) => bool_decide (h = g) && negb (bool_decide (x = y))) dy) dx.

Lemma collides_dec_spec (xs ys : list (list Z)) : collides xs ys -> collides_dec xs ys = true.
Proof.
  intros (x & y & Hx & Hy & Hne & E). apply existsb_exists. exists (x, sha256 x).
  split; [by apply (in_map (fun x => (x, sha256 x))), list_elem_of_In|].
  apply existsb_exists. exists (y, sha256 y).
  split; [by apply (in_map (fun x => (x, sha256 x))), list_elem_of_In|].
  by rewrite (bool_decide_true _ E), bool_decide_false.
Qed.

Lemma leaf_input_inj (a b : list Z) :
  length a = hashLength -> length b = hashLength -> leaf_input a = leaf_input b -> a = b.
Proof. intros Ha Hb E. unfold leaf_input in E. rewrite !copy_into_full in E by done. by injection E. Qed.

Lemma node_input_inj (a b c d : list Z) :
  length a = hashLength -> length b = hashLength -> length c = hashLength ->
  length d = hashLength -> node_input a b = node_input c d -> a = c /\ b = d.
Proof.
  intros Ha Hb Hc Hd E. unfold node_input in E. rewrite !copy_into_full in E by done.
  injection E as E. apply app_inj_1 in E; [done|congruence].
Qed.

Lemma fold_branch_last (cur : list Z) (b : list (list Z)) (s : list bool) (v : list Z) :
  fold_branch cur b s = Ok v -> length b = length s ->
  (b = [] /\ v = cur) \/
  (exists b' s' sib u l r, length b' = length s' /\ fold_branch cur b' s' = Ok u /\
     fold_inputs cur b' s' ⊆ fold_inputs cur b s /\ length sib = hashLength /\
     (l = sib /\ r = u \/ l = u /\ r = sib) /\ node_input l r ∈ fold_inputs cur b s /\ v = hashNode l r).
Proof.
  revert cur s; induction b as [|x b IH]; intros cur s H Hl; destruct s as [|y s]; try done.
  - cbn in H. simplify_eq. by left.
  - right. cbn [fold_branch] in H. inv_result. bool_to_prop.
    assert (E : length x = hashLength) by (unfold len in *; lia).
    cbn in Hl. cbn [fold_inputs].
    set (i := if y then node_input x cur else node_input cur x) in *.
    assert (Ei : (if y then hashNode x cur else hashNode cur x) = sha256 i) by (by destruct y).
    rewrite Ei in H. destruct (IH _ _ H ltac:(lia)) as [[-> ->]|(b' & s' & sib & u & l & r & Hbs & Hf & Hin & Hs & Hv & Hm & ->)].
    + exists [], [], x, cur, (if y then x else cur), (if y then cur else x). split_and!; [done|done|apply list_subseteq_nil|done| | |].
      * destruct y; auto.
      * destruct y; apply list_elem_of_here.
      * destruct y; done.
    + exists (x :: b'), (y :: s'), sib, u, l, r. split_and!; auto.
      * cbn. by rewrite Hbs.
      * cbn [fold_branch]. by rewrite (proj2 (len_eqb x) E), Ei.
      * cbn [fold_inputs]. fold i. by apply list_subseteq_skip.
      * by apply list_elem_of_further.
Qed.

Lemma fold_branch_length (cur : list Z) b s (v : list Z) :
  length cur = hashLength -> fold_branch cur b s = Ok v -> length v = hashLength.
Proof.
  revert cur s; induction b as [|x b IH]; intros cur s Hc H; destruct s as [|y s]; cbn in H;
    inv_result; auto.
  eapply IH, H. destruct y; auto with go.
Qed.

Lemma next_level_elem (level : list (list Z)) (v : list Z) :
  v ∈ next_level level ->
  exists x y, x ∈ level /\ y ∈ level /\ node_input x y ∈ level_inputs level /\ v = hashNode x y.
Proof.
  induction level as [|x|x y level IH] using pair_ind; cbn [next_level level_inputs].
  - by intros ?%not_elem_of_nil.
  - intros ->%list_elem_of_singleton. exists x, x. set_solver.
  - intros [->|H]%elem_of_cons; [exists x, y; set_solver|].
    destruct (IH H) as (a & c & Ha & Hc & ? & ->). exists a, c. rewrite !elem_of_cons. auto.
Qed.

(** A level is sound for a leaf when folding the leaf's hash into one of its nodes
    shows that the leaf is among [ls], or that the walk and the inputs [ys] collide. *)
Definition sound_level (ls ys : list (list Z)) (leaf : list Z) (level : list (list Z)) : Prop :=
  forall b s v, length b = length s -> fold_branch (hashLeaf leaf) b s = Ok v -> v ∈ level ->
  leaf ∈ ls \/ collides (proof_inputs leaf b s) ys.

Lemma sound_level_leaves (ls ys : list (list Z)) (leaf : list Z) :
  sized ls -> length leaf = hashLength -> map leaf_input ls ⊆ ys ->
  sound_level ls ys leaf (map hashLeaf ls).
Proof.
  intros Hs Hl Hys b s v Hbs Hf Hv. unfold sized in Hs. rewrite list.Forall_forall in Hs.
  apply list_elem_of_fmap in Hv as (x & -> & Hin).
  assert (Hx : leaf_input x ∈ ys) by (apply Hys, list_elem_of_fmap; eauto).
  destruct (fold_branch_last _ _ _ _ Hf Hbs) as [[-> E]|(? & ? & ? & ? & l & r & _ & _ & _ & _ & _ & Hm & E)].
  - destruct (sha256_meets (proof_inputs leaf [] s) ys (leaf_input leaf) (leaf_input x)) as [Ei|?]; auto.
    + apply list_elem_of_here.
    + apply leaf_input_inj in Ei as ->; auto.
  - right. eexists _, _. split_and!; [by apply list_elem_of_further|exact Hx|discriminate|by symmetry].
Qed.

Lemma sound_level_next (ls ys : list (list Z)) (leaf : list Z) (level : list (list Z)) :
  Forall (fun h => length h = hashLength) level -> level_inputs level ⊆ ys ->
  sound_level ls ys leaf level -> sound_level ls ys leaf (next_level level).
Proof.
  intros Hs Hys IH b s v Hbs Hf Hv. rewrite list.Forall_forall in Hs.
  apply next_level_elem in Hv as (x & y & Hx & Hy & Hxy%Hys & ->).
  destruct (fold_branch_last _ _ _ _ Hf Hbs) as [[-> E]|(b' & s' & sib & u & l & r & Hl & Hf' & Hin & Hsib & Hlr & Hm & E)].
  - right. eexists _, _. split_and!; [by apply list_elem_of_here|exact Hxy|discriminate|by symmetry].
  - pose proof (fold_branch_length _ _ _ _ (hashLeaf_length leaf) Hf').
    destruct (sha256_meets (proof_inputs leaf b s) ys (node_input l r) (node_input x y)) as [Ei|?]; auto.
    { by apply list_elem_of_further. }
    apply node_input_inj in Ei as [-> ->]; auto; [|by destruct Hlr as [[-> ->]|[-> ->]]..].
    destruct (IH b' s' u Hl Hf') as [?|Hc]; [by destruct Hlr as [[-> ->]|[-> ->]]|by left|right].
    eapply (collides_mono _ _ ys ys); [|done|exact Hc]. by apply list_subseteq_skip.
Qed.

Lemma root_loop_sound (ls ys : list (list Z)) (leaf : list Z) (fuel : nat) (level : list (list Z)) :
  Forall (fun h => length h = hashLength) level -> levels_inputs fuel level ⊆ ys ->
  sound_level ls ys leaf level -> sound_level ls ys leaf (root_loop fuel level).
Proof.
  revert level; induction fuel as [|fuel IH]; intros level Hs Hys H; cbn [root_loop levels_inputs] in *;
    destruct (1 <? len level); auto.
  apply list_subseteq_app_iff_l in Hys as [H1 H2].
  apply IH; [by apply next_level_sized|done|]. by apply sound_level_next.
Qed.

Lemma next_level_dup (level : list (list Z)) (x : list Z) :
  Nat.Odd (length (level ++ [x])) -> next_level (level ++ [x]) = next_level (level ++ [x; x]).
Proof.
  induction level as [|y|y z level IH] using pair_ind; intros [k Hk].
  - done.
  - cbn in Hk. lia.
  - cbn [app next_level]. rewrite IH; [done|]. exists (k - 1)%nat. cbn in Hk. lia.
Qed.

Lemma root_loop_fuel (f1 f2 : nat) (level : list (list Z)) :
  (length level <= S f1)%nat -> (length level <= S f2)%nat ->
  root_loop f1 level = root_loop f2 level.
Proof.
  revert f2 level; induction f1 as [|f1 IH]; intros f2 level H1 H2; destruct f2 as [|f2];
    cbn [root_loop]; unfold len in *; destruct (Z.ltb_spec 1 (Z.of_nat (length level))); auto; try lia.
  pose proof (next_level_lt level ltac:(lia)). apply IH; lia.
Qed.

(** C34. Completeness of Merkle proofs: for every list of 32-byte leaves and every
    index in range, [BuildMerkleProof] succeeds, its root is the one
    [ComputeMerkleRoot] computes, and [VerifyMerkleProofWithStruct] accepts it. *)
Theorem merkle_proof_complete (ls : list (list Z)) (i : Z)
  (Hs : sized ls) (Hi : 0 <= i < len ls) :
  exists p, BuildMerkleProof ls i = Ok p /\ Leaf p = nth (Z.to_nat i) ls [] /\
    ComputeMerkleRoot ls = Ok (Root p) /\ VerifyMerkleProofWithStruct (Some p) = Ok true /\
    GetMerkleRootFromProof (Some p) = Ok (Root p).
Proof.
  destruct (BuildMerkleProof_ok ls i Hs Hi) as (r & b & s & Eb & _ & Er & Hr & Hl & Hbs & Hf).
  eexists. split_and!; [exact Eb|done|..]; cbn [Leaf Index Branch SiblingLeft Root].
  - apply ComputeMerkleRoot_ok; auto. destruct ls; [by unfold len in Hi; cbn in Hi; lia|done].
  - unfold VerifyMerkleProofWithStruct, VerifyMerkleProof. cbn [Leaf Index Branch SiblingLeft Root].
    rewrite (proj2 (len_eqb _) Hl), (proj2 (len_eqb _) Hr), (proj2 (Z.ltb_ge i 0)) by lia.
    replace (len b =? len s) with true by (symmetry; apply Z.eqb_eq; unfold len; lia).
    cbn [fail_if negb result_bind]. rewrite Hf. cbn. f_equal. by apply bytes_eqb_spec.
  - unfold GetMerkleRootFromProof. cbn [Leaf Branch SiblingLeft].
    rewrite (proj2 (len_eqb _) Hl). cbn [fail_if negb result_bind]. rewrite Hf.
    cbn [result_bind]. by rewrite copy_into_full.
Qed.

(** C35. Soundness of Merkle proofs: whatever branch, sides and index a proof
    claims, if it verifies against the root of [ls] then the proven leaf is one
    of [ls], unless one of the inputs this very proof gives to SHA-256 (its leaf, or a pair
    on its branch) and one of the inputs the root of [ls] was computed from are different and
    have the same digest.  The
    domain separation of leaves and inner nodes is what excludes proofs that are too
    short or too long. *)
Theorem merkle_proof_sound (ls : list (list Z)) (leaf : list Z) (i : Z)
    (b : list (list Z)) (s : list bool) (r : list Z)
  (Hr : ComputeMerkleRoot ls = Ok r) (Hv : VerifyMerkleProof leaf i b s r = Ok true) :
  leaf ∈ ls \/ collides (proof_inputs leaf b s) (tree_inputs ls).
Proof.
  destruct (decide (ls = [])) as [->|Hne]; [done|].
  assert (Hs : sized ls).
  { destruct (decide (sized ls)) as [H|H]; [done|]. exfalso. unfold ComputeMerkleRoot in Hr.
    rewrite len_pos, (hash_leaves_err _ H) in Hr by done. done. }
  destruct (root_loop_single ls Hne) as (r' & Er & Hr').
  rewrite (ComputeMerkleRoot_ok ls r') in Hr by done. simplify_eq.
  unfold VerifyMerkleProof in Hv. inv_result. bool_to_prop.
  match goal with H : bytes_eqb _ _ = true |- _ => apply bytes_eqb_spec in H; subst end.
  eapply (root_loop_sound ls (tree_inputs ls) leaf (length ls) (map hashLeaf ls));
    [apply hashed_sized|apply list_subseteq_app_r; reflexivity|..].
  - apply sound_level_leaves; [done| |apply list_subseteq_app_l; reflexivity]. unfold len in *. lia.
  - unfold len in *. lia.
  - eassumption.
  - rewrite Er. set_solver.
Qed.

(** Error behaviour of the root: it exists exactly for a non-empty list of
    32-byte leaves; the other inputs give the two documented errors. *)
Theorem merkle_root_errors (ls : list (list Z)) :
  (ls = [] -> ComputeMerkleRoot ls = Err ErrEmptyLeaves) /\
  (ls <> [] -> ~ sized ls -> ComputeMerkleRoot ls = Err ErrInvalidLeafLength) /\
  (ls <> [] -> sized ls -> exists r, ComputeMerkleRoot ls = Ok r /\ length r = hashLength).
Proof.
  split_and!.
  - by intros ->.
  - intros Hne Hs. unfold ComputeMerkleRoot. by rewrite len_pos, (hash_leaves_err _ Hs) by done.
  - intros Hne Hs. destruct (root_loop_single ls Hne) as (r & Er & Hr).
    exists r. split; [by apply ComputeMerkleRoot_ok|done].
Qed.

(** The precomputed [MerkleTree] is equivalent to the direct functions: a tree
    exists exactly when a root does, it holds that root, and [GetProof] returns
    the proof [BuildMerkleProof] builds from scratch, errors included. *)
Theorem merkle_tree_refines (ls : list (list Z)) (i : Z)
  (Hne : ls <> []) (Hs : sized ls) :
  exists t r, NewMerkleTree ls = Ok t /\ ComputeMerkleRoot ls = Ok r /\ GetRoot t = Some r /\
    GetLeafCount t = len ls /\ GetProof t i = BuildMerkleProof ls i.
Proof.
  destruct (root_loop_single ls Hne) as (r & Er & Hr).
  eexists _, r. split; [by apply NewMerkleTree_ok|]. split_and!.
  - by apply ComputeMerkleRoot_ok.
  - unfold GetRoot. cbn. by rewrite copy_into_full.
  - done.
  - unfold GetProof, BuildMerkleProof. cbn [leaves levels root].
    rewrite len_pos, hash_leaves_ok by done. cbn [fail_if result_bind].
    destruct ((i <? 0) || (i >=? len ls)) eqn:Ei; [done|]. cbn [fail_if result_bind].
    rewrite tree_proof_loop_eq, length_map.
    apply orb_false_elim in Ei as [E1 E2]. rewrite Z.geb_leb in E2. bool_to_prop.
    destruct (BuildMerkleProof_ok ls i Hs ltac:(lia)) as (r' & b & s & _ & Ep & Er' & _).
    rewrite Er in Er'. simplify_eq. rewrite Ep. done.
Qed.

(** Appending a copy of the last leaf of an odd list of at least three leaves
    does not change the root, so a block's transaction list is not determined by
    its Merkle root alone. *)
Theorem merkle_root_duplicate_last (ls : list (list Z)) (x : list Z)
  (Hs : sized (ls ++ [x])) (Hodd : Nat.Odd (length (ls ++ [x]))) (Hlen : (3 <= length (ls ++ [x]))%nat) :
  ComputeMerkleRoot (ls ++ [x]) = ComputeMerkleRoot (ls ++ [x; x]).
Proof.
  assert (Hs2 : sized (ls ++ [x; x])).
  { unfold sized in *. rewrite Forall_app in *. destruct Hs as [? Hx].
    inversion_clear Hx. auto. }
  unfold ComputeMerkleRoot. rewrite !len_pos, !hash_leaves_ok by (auto; by destruct ls).
  cbn [fail_if result_bind]. do 3 f_equal. rewrite !map_app. cbn [map].
  set (L := map hashLeaf ls). set (h := hashLeaf x).
  assert (EL : length L = length ls) by apply length_map.
  rewrite !length_app in *. cbn [length] in *.
  rewrite (root_loop_fuel _ (length ls + 5) (L ++ [h])), (root_loop_fuel _ (length ls + 5) (L ++ [h; h]))
    by (rewrite !length_app; cbn [length]; lia).
  replace (length ls + 5)%nat with (S (length ls + 4)) by lia. cbn [root_loop].
  unfold len. rewrite !length_app. cbn [length].
  rewrite !(proj2 (Z.ltb_lt 1 _)) by lia. rewrite next_level_dup; [done|].
  rewrite length_app. cbn [length]. by rewrite EL.
Qed.

(** [VerifyMerkleProof] does not use its index: a proof accepted at one
    non-negative position is accepted at every other one. *)
Theorem verify_ignores_index (leaf : list Z) (i j : Z) b s r (Hi : 0 <= i) (Hj : 0 <= j) :
  VerifyMerkleProof leaf i b s r = VerifyMerkleProof leaf j b s r.
Proof.
  unfold VerifyMerkleProof. by rewrite (proj2 (Z.ltb_ge i 0)), (proj2 (Z.ltb_ge j 0)) by lia.
Qed.

(** ** Witnesses *)
Definition leaf_of (n : Z) : list Z := copy_into 32 [n].
Definition three_leaves : list (list Z) := [leaf_of 1; leaf_of 2; leaf_of 3].

Lemma three_leaves_sized : sized three_leaves.
Proof. repeat constructor. Qed.

Lemma merkle_proof_complete_witness :
  exists p, BuildMerkleProof three_leaves 2 = Ok p /\
    VerifyMerkleProofWithStruct (Some p) = Ok true.
Proof.
  destruct (merkle_proof_complete three_leaves 2 three_leaves_sized ltac:(vm_compute; split; congruence))
    as (p & Hp & _ & _ & Hv & _). by exists p.
Defined.

(** The inputs of the sample proof do not collide with those of the tree, so that the
    theorem gives membership; a leaf outside the tree has no such proof. *)
Lemma merkle_proof_sound_witness :
  let b := [hashLeaf (leaf_of 1); hashNode (hashLeaf (leaf_of 3)) (hashLeaf (leaf_of 3))] in
  leaf_of 2 ∈ three_leaves /\ ~ collides (proof_inputs (leaf_of 2) b [true; false]) (tree_inputs three_leaves).
Proof.
  intros b.
  assert (Hn : ~ collides (proof_inputs (leaf_of 2) b [true; false]) (tree_inputs three_leaves)).
  { intros H%collides_dec_spec. vm_compute in H. discriminate H. }
  split; [|exact Hn].
  destruct (merkle_proof_sound three_leaves (leaf_of 2) 0 b [true; false]
    (match ComputeMerkleRoot three_leaves with Ok r => r | Err _ => [] end)) as [H|H].
  - vm_compute. reflexivity.
  - vm_compute. reflexivity.
  - exact H.
  - destruct (Hn H).
Defined.

Lemma merkle_root_errors_witness :
  ComputeMerkleRoot [[1; 2]] = Err ErrInvalidLeafLength.
Proof.
  apply (merkle_root_errors [[1; 2]]); [done|]. intros H. inversion_clear H. done.
Defined.

Lemma merkle_tree_refines_witness :
  exists t r, NewMerkleTree three_leaves = Ok t /\ ComputeMerkleRoot three_leaves = Ok r /\
    GetRoot t = Some r /\ GetProof t 7 = Err ErrInvalidIndex.
Proof.
  destruct (merkle_tree_refines three_leaves 7) as (t & r & H1 & H2 & H3 & _ & H5);
    [done|apply three_leaves_sized|]. exists t, r. by rewrite H5.
Defined.

Lemma merkle_root_duplicate_last_witness :
  ComputeMerkleRoot [leaf_of 1; leaf_of 2; leaf_of 3]
  = ComputeMerkleRoot [leaf_of 1; leaf_of 2; leaf_of 3; leaf_of 3].
Proof.
  apply (merkle_root_duplicate_last [leaf_of 1; leaf_of 2] (leaf_of 3));
    [repeat constructor|by exists 1%nat|cbn; lia].
Defined.

Lemma verify_ignores_index_witness :
  VerifyMerkleProof (leaf_of 1) 0 [] [] (leaf_of 9) = VerifyMerkleProof (leaf_of 1) 41 [] [] (leaf_of 9).
Proof. apply (verify_ignores_index (leaf_of 1) 0 41 [] [] (leaf_of 9)); lia. Defined.
