(* ===== verification/Json.v ===== *)
(** * JSON output

    What the source uses of [encoding/json]: [json.Marshal] of numbers, strings,
    byte slices (standard base64), objects with the field order of the struct,
    and arrays.  Strings are escaped as Go does with HTML escaping on; a byte
    sequence that is not valid UTF-8 is replaced by [\ufffd], one byte at a time. *)

From S2P Require Import Prelude Bytes.
From stdpp Require Import base list strings numbers.
From Stdlib Require Import ZArith Lia Ascii.

Open Scope Z_scope.

Unset Elimination Schemes.
Inductive json :=
| JNum (z : Z)
| JStr (s : string)
| JNull
| JArr (l : list json)
| JObj (l : list (string * json)).
Set Elimination Schemes.

(** ** Decimal numbers *)
Fixpoint dec_digits (fuel : nat) (n : Z) (acc : string) : string :=
  match fuel with
  | O => acc
  | S fuel' =>
      let acc := String (ascii_of_Z (48 + n mod 10)) acc in
      if n / 10 =? 0 then acc else dec_digits fuel' (n / 10) acc
  end.

(** [strconv.FormatInt]; 20 digits hold every [uint64] and [int64]. *)
Definition dec_string (z : Z) : string :=
  if z <? 0 then String "-"%char (dec_digits 20 (- z) "") else dec_digits 20 z "".

(** ** UTF-8 *)
Definition in_range (lo hi b : Z) : bool := (lo <=? b) && (b <=? hi).

(** [utf8.DecodeRune] on a non-empty slice: the rune's width and its value, or
    [None] for [RuneError] of width 1. *)
Definition decode_rune (l : list Z) : option (nat * Z) :=
  match l with
  | b0 :: rest =>
      if b0 <? 128 then Some (1%nat, b0)
      else if in_range 194 223 b0 then
        match rest with
        | b1 :: _ => if in_range 128 191 b1
                     then Some (2%nat, (b0 - 192) * 64 + (b1 - 128)) else None
        | _ => None
        end
      else if in_range 224 239 b0 then
        match rest with
        | b1 :: b2 :: _ =>
            let lo := if b0 =? 224 then 160 else 128 in
            let hi := if b0 =? 237 then 159 else 191 in
            if in_range lo hi b1 && in_range 128 191 b2
            then Some (3%nat, (b0 - 224) * 4096 + (b1 - 128) * 64 + (b2 - 128)) else None
        | _ => None
        end
      else if in_range 240 244 b0 then
        match rest with
        | b1 :: b2 :: b3 :: _ =>
            let lo := if b0 =? 240 then 144 else 128 in
            let hi := if b0 =? 244 then 143 else 191 in
            if in_range lo hi b1 && in_range 128 191 b2 && in_range 128 191 b3
            then Some (4%nat, (b0 - 240) * 262144 + (b1 - 128) * 4096 + (b2 - 128) * 64 + (b3 - 128))
            else None
        | _ => None
        end
      else None
  | [] => None
  end.

(** ** Strings *)
Definition json_escape_ascii (b : Z) : string :=
  if b =? 34 then String "\"%char (String (ascii_of_Z 34) EmptyString)
  else if b =? 92 then "\\"%string
  else if b =? 8 then "\b"%string
  else if b =? 12 then "\f"%string
  else if b =? 10 then "\n"%string
  else if b =? 13 then "\r"%string
  else if b =? 9 then "\t"%string
  else if (b <? 32) || (b =? 60) || (b =? 62) || (b =? 38)
  then "\u00"%string +:+ String (hex_digit (b / 16)) (String (hex_digit (b mod 16)) EmptyString)
  else String (ascii_of_Z b) EmptyString.

(** One step per rune; [length l] steps are enough. *)
Fixpoint json_escape (fuel : nat) (l : list Z) : string :=
  match fuel, l with
  | S fuel', b :: l' =>
      match decode_rune l with
      | None => "\ufffd"%string +:+ json_escape fuel' l'
      | Some (w, r) =>
          if r <? 128 then json_escape_ascii r +:+ json_escape fuel' l'
          else if r =? 8232 then "\u2028"%string +:+ json_escape fuel' (drop w l)
          else if r =? 8233 then "\u2029"%string +:+ json_escape fuel' (drop w l)
          else string_of_bytes (take w l) +:+ json_escape fuel' (drop w l)
      end
  | _, _ => EmptyString
  end.

Definition quote : string := String (ascii_of_Z 34) EmptyString.
Definition json_string (s : string) : string :=
  quote +:+ json_escape (String.length s) (bytes_of_string s) +:+ quote.

(** ** Base64 of a byte slice *)
Definition b64_char (n : Z) : Ascii.ascii :=
  if n <? 26 then ascii_of_Z (65 + n)
  else if n <? 52 then ascii_of_Z (97 + n - 26)
  else if n <? 62 then ascii_of_Z (48 + n - 52)
  else if n =? 62 then "+"%char else "/"%char.

Fixpoint base64 (l : list Z) : string :=
  match l with
  | [] => EmptyString
  | [a] =>
      String (b64_char (a / 4)) (String (b64_char ((a mod 4) * 16)) "==")
  | [a; b] =>
      String (b64_char (a / 4)) (String (b64_char ((a mod 4) * 16 + b / 16))
        (String (b64_char ((b mod 16) * 4)) "="))
  | a :: b :: c :: l' =>
      String (b64_char (a / 4)) (String (b64_char ((a mod 4) * 16 + b / 16))
        (String (b64_char ((b mod 16) * 4 + c / 64)) (String (b64_char (c mod 64)) (base64 l'))))
  end.

(** ** Values *)
Fixpoint join (sep : string) (l : list string) : string :=
  match l with
  | [] => EmptyString
  | [x] => x
  | x :: l' => x +:+ sep +:+ join sep l'
  end.

Fixpoint json_print (j : json) : string :=
  match j with
  | JNum z => dec_string z
  | JStr s => json_string s
  | JNull => "null"
  | JArr l => "["%string +:+ join "," (map json_print l) +:+ "]"
  | JObj l =>
      "{"%string +:+
      join "," (map (fun kv => json_string (fst kv) +:+ ":" +:+ json_print (snd kv)) l) +:+ "}"
  end.

Definition json_bytes (j : json) : list Z := bytes_of_string (json_print j).

Example json_print_escapes :
  json_print (JObj [("a"%string, JStr (string_of_bytes [60; 10; 255; 195; 169])); ("n"%string, JNum 1200)])
  = string_of_bytes ([123; 34; 97; 34; 58; 34] ++ bytes_of_string "\u003c\n\ufffd" ++ [195; 169; 34; 44; 34]
      ++ bytes_of_string "n" ++ [34; 58] ++ bytes_of_string "1200}").
Proof. vm_compute. reflexivity. Qed.
