(* ===== verification/Transaction.v ===== *)
(** * Addresses, transactions, blocks and their encodings

    [blockchain/core/types.go] (addresses, [Transaction], [BlockHeader],
    [Block], transaction verification) and [blockchain/core/encoding.go] (the
    binary and JSON preimages, hashes and ids, the binary decoder).

    [nil] and the empty slice are told apart only where the source does, for
    [FromPubKey] and [Signature] ([option]).  Ed25519 is the one primitive left
    abstract: [ed25519_verify] is a parameter of every definition that checks a
    signature. *)

From S2P Require Import Prelude Bytes Sha256 Config Merkle Json.
From stdpp Require Import base list strings numbers.
From Stdlib Require Import ZArith Lia.

Open Scope Z_scope.
Open Scope go_scope.

Definition AddressPrefix : string := "NOGO".
Definition AddressVersion : Z := 0.
Definition ChecksumLen : nat := 4.
Definition HashLen : nat := 32.
Definition PubKeySize : Z := 32.
Definition SignatureSize : Z := 64.

(** ** String slices *)
Fixpoint str_take (n : nat) (s : string) : string :=
  match n, s with
  | S n', String c s' => String c (str_take n' s')
  | _, _ => EmptyString
  end.
Fixpoint str_drop (n : nat) (s : string) : string :=
  match n, s with
  | S n', String _ s' => str_drop n' s'
  | _, _ => s
  end.
Definition str_eqb (a b : string) : bool := bool_decide (a = b).

(** ** Addresses *)
Definition GenerateAddress (pubKey : list Z) : string :=
  let hash := sha256 pubKey in
  let addressHash := take HashLen hash in
  let addressData := AddressVersion :: addressHash in
  let checksum := sha256 addressData in
  let addressData := addressData ++ take ChecksumLen checksum in
  AddressPrefix +:+ hex_encode addressData.

Definition ValidateAddress (addr : string) : result unit :=
  fail_if (strlen addr <? strlen AddressPrefix + 10) "address too short" ;;?
  fail_if (negb (str_eqb (str_take 4 addr) AddressPrefix)) "invalid prefix" ;;?
  let encoded := str_drop 4 addr in
  let? decoded := wrap "invalid hex" (hex_decode encoded) in
  fail_if (len decoded <? Z.of_nat ChecksumLen + 1) "invalid encoded length" ;;?
  let addressData := take (length decoded - ChecksumLen) decoded in
  let storedChecksum := drop (length decoded - ChecksumLen) decoded in
  let checksum := sha256 addressData in
  fail_if (negb (bytes_eqb storedChecksum (take ChecksumLen checksum))) "checksum mismatch".

Definition StringToAddress (addr : string) : result (list Z) :=
  let encoded :=
    if (4 <=? strlen addr) && str_eqb (str_take 4 addr) "NOGO" then str_drop 4 addr else addr in
  let? decoded := wrap "invalid address hex encoding" (hex_decode encoded) in
  fail_if (len decoded <? 20) "address too short" ;;?
  Ok (take 20 decoded).

(** ** Transactions *)
Definition TxCoinbase : string := "coinbase".
Definition TxTransfer : string := "transfer".

Record Transaction := mkTransaction {
  tx_Type : string;
  tx_ChainID : Z;
  tx_FromPubKey : option (list Z);
  tx_ToAddress : string;
  tx_Amount : Z;
  tx_Fee : Z;
  tx_Nonce : Z;
  tx_Data : string;
  tx_Signature : option (list Z)
}.

(** A slice as its contents; [nil] has none. *)
Definition slice (o : option (list Z)) : list Z := default [] o.
Definition is_nil (o : option (list Z)) : bool := match o with None => true | Some _ => false end.
Definition is_type (tx : Transaction) (ty : string) : bool := str_eqb (tx_Type tx) ty.

(** The ranges of the fields' Go types. *)
Definition tx_typed (tx : Transaction) : Prop :=
  is_u64 (tx_ChainID tx) /\ is_u64 (tx_Amount tx) /\ is_u64 (tx_Fee tx) /\
  is_u64 (tx_Nonce tx) /\ Forall is_byte (slice (tx_FromPubKey tx)) /\
  Forall is_byte (slice (tx_Signature tx)).

Definition FromAddress (t : Transaction) : result string :=
  fail_if (negb (is_type t TxTransfer))
    "from address only exists for transfer transactions" ;;?
  fail_if (negb (len (slice (tx_FromPubKey t)) =? PubKeySize)) "invalid fromPubKey length" ;;?
  Ok (GenerateAddress (slice (tx_FromPubKey t))).

(** ** Blocks *)
Record BlockHeader := mkBlockHeader {
  h_Version : Z;
  h_PrevHash : list Z;
  h_TimestampUnix : Z;
  h_DifficultyBits : Z;
  h_Difficulty : Z;
  h_Nonce : Z;
  h_StateRoot : list Z;
  h_MerkleRoot : list Z;
  h_Height : Z;
  h_MinerAddress : string
}.

Record Block := mkBlock {
  b_Hash : list Z;
  b_Height : Z;
  b_Header : BlockHeader;
  b_Transactions : list Transaction;
  b_CoinbaseTx : option Transaction;
  b_MinerAddress : string;
  b_TotalWork : string
}.

Definition GetHeight (b : Block) : Z := b_Height b.

(** ** Signing hashes *)

(** The two [omitempty] shapes. *)
Definition omit_str (k : string) (s : string) : list (string * json) :=
  if strlen s =? 0 then [] else [(k, JStr s)].
Definition omit_num (k : string) (n : Z) : list (string * json) :=
  if n =? 0 then [] else [(k, JNum n)].

Definition signingHashLegacyJSON (t : Transaction) : result (list Z) :=
  let? fromAddr := (if is_type t TxTransfer then FromAddress t else Ok ""%string) in
  let v := JObj ([("type"%string, JStr (tx_Type t)); ("chainId"%string, JNum (tx_ChainID t))]
                 ++ omit_str "fromAddr" fromAddr
                 ++ [("toAddress"%string, JStr (tx_ToAddress t));
                     ("amount"%string, JNum (tx_Amount t)); ("fee"%string, JNum (tx_Fee t))]
                 ++ omit_num "nonce" (tx_Nonce t) ++ omit_str "data" (tx_Data t)) in
  Ok (sha256 (json_bytes v)).

Definition SigningHash (t : Transaction) : result (list Z) := signingHashLegacyJSON t.

Definition binaryEncodingVersionV1 : Z := 1.

Definition decodeHex32 (addrHex : string) : result (list Z) :=
  if (4 <? strlen addrHex) && str_eqb (str_take 4 addrHex) AddressPrefix then
    let? b := wrap "decode NOGO address" (hex_decode (str_drop 4 addrHex)) in
    fail_if (len b <? 33) "NOGO address too short" ;;?
    if len b =? 37 then Ok (copy_into 32 (take 32 (drop 1 b)))
    else Err "invalid NOGO address length"
  else
    let? b := wrap "decode hex" (hex_decode addrHex) in
    fail_if (negb (len b =? 32)) "invalid hash length" ;;?
    Ok (copy_into 32 b).

Definition bytesToHex32 (b : list Z) : result string :=
  fail_if (negb (len b =? 32)) "invalid hash length" ;;?
  Ok (hex_encode b).

(** The length-prefixed data field that ends both preimages. *)
Definition write_data (data : string) : list Z :=
  let data := bytes_of_string data in
  writeULEB128 (u64 (len data)) ++ (if 0 <? len data then data else []).

Definition txSigningPreimageBinaryV1 (tx : Transaction) : result (list Z) :=
  let? txType := (if is_type tx TxCoinbase then Ok 0
                  else if is_type tx TxTransfer then Ok 1
                  else Err "unknown tx type") in
  fail_if (tx_ChainID tx =? 0) "missing chainId" ;;?
  let head := [binaryEncodingVersionV1] ++ [txType] ++ le_bytes 8 (tx_ChainID tx) in
  if is_type tx TxCoinbase then
    let? to := wrap "invalid toAddress" (decodeHex32 (tx_ToAddress tx)) in
    Ok (head ++ to ++ le_bytes 8 (tx_Amount tx) ++ write_data (tx_Data tx))
  else
    fail_if (negb (len (slice (tx_FromPubKey tx)) =? PubKeySize)) "invalid fromPubKey length" ;;?
    let? to := wrap "invalid toAddress" (decodeHex32 (tx_ToAddress tx)) in
    Ok (head ++ slice (tx_FromPubKey tx) ++ to ++ le_bytes 8 (tx_Amount tx) ++
        le_bytes 8 (tx_Nonce tx) ++ le_bytes 8 (tx_Fee tx) ++ write_data (tx_Data tx)).

Definition txSigningHashBinaryV1 (tx : Transaction) : result (list Z) :=
  let? pre := txSigningPreimageBinaryV1 tx in
  Ok (sha256 pre).

Definition txSigningHashForConsensus (tx : Transaction) (p : ConsensusParams) (height : Z)
  : result (list Z) :=
  if BinaryEncodingActive p height then txSigningHashBinaryV1 tx
  else signingHashLegacyJSON tx.

Definition txIDHexForConsensus (tx : Transaction) (p : ConsensusParams) (height : Z)
  : result string :=
  let? h := txSigningHashForConsensus tx p height in
  bytesToHex32 h.

Definition TxIDHexForConsensus (tx : Transaction) (p : ConsensusParams) (height : Z)
  : result string :=
  let? hash := txSigningHashForConsensus tx p height in
  Ok (hex_encode hash).

Definition TxIDHex (tx : Transaction) : result string :=
  let? h := SigningHash tx in
  Ok (hex_encode h).

(** The exported variant of [encoding.go]. *)
Definition TxSigningHashForConsensus (tx : Transaction) (p : ConsensusParams) (height : Z)
  : result (list Z) :=
  if BinaryEncodingActive p height then txSigningPreimageBinaryV1 tx
  else signingHashLegacyJSON tx.

(** ** Verification *)
Section Verification.
Variable ed25519_verify : list Z -> list Z -> list Z -> bool.

Definition verifyWithSigningHash (t : Transaction) (h : list Z) : result unit :=
  fail_if (negb (is_type t TxTransfer))
    "signature verification only applies to transfer transactions" ;;?
  fail_if (negb (len (slice (tx_FromPubKey t)) =? PubKeySize)) "invalid fromPubKey length" ;;?
  fail_if (negb (len (slice (tx_Signature t)) =? SignatureSize)) "invalid signature length" ;;?
  fail_if (negb (ed25519_verify (slice (tx_FromPubKey t)) h (slice (tx_Signature t))))
    "invalid signature".

Definition verifyCoinbase (t : Transaction) : result unit :=
  fail_if (tx_ChainID t =? 0) "chainId must be set" ;;?
  fail_if (tx_Amount t =? 0) "coinbase amount must be > 0" ;;?
  wrap "invalid toAddress" (ValidateAddress (tx_ToAddress t)) ;;?
  fail_if (negb (is_nil (tx_FromPubKey t)) || negb (is_nil (tx_Signature t))
           || negb (tx_Nonce t =? 0) || negb (tx_Fee t =? 0))
    "coinbase must not include fromPubKey/signature/nonce/fee".

(** The checks [verifyTransfer] and [verifyTransferForConsensus] share; they
    differ in the hash that is signed. *)
Definition verify_transfer_with (signingHash : result (list Z)) (t : Transaction) : result unit :=
  fail_if (tx_Amount t =? 0) "amount must be > 0" ;;?
  wrap "invalid toAddress" (ValidateAddress (tx_ToAddress t)) ;;?
  fail_if (negb (len (slice (tx_FromPubKey t)) =? PubKeySize)) "invalid fromPubKey length" ;;?
  fail_if (negb (len (slice (tx_Signature t)) =? SignatureSize)) "invalid signature length" ;;?
  fail_if (tx_Nonce t =? 0) "nonce must be > 0" ;;?
  fail_if (tx_ChainID t =? 0) "chainId must be set" ;;?
  let? h := signingHash in
  verifyWithSigningHash t h.

Definition verifyTransfer (t : Transaction) : result unit :=
  verify_transfer_with (SigningHash t) t.

Definition verifyTransferForConsensus (t : Transaction) (p : ConsensusParams) (height : Z)
  : result unit :=
  verify_transfer_with (txSigningHashForConsensus t p height) t.

Definition Verify (t : Transaction) : result unit :=
  if is_type t TxCoinbase then verifyCoinbase t
  else if is_type t TxTransfer then verifyTransfer t
  else Err "unknown transaction type".

Definition VerifyForConsensus (t : Transaction) (p : ConsensusParams) (height : Z)
  : result unit :=
  if is_type t TxCoinbase then Verify t
  else if is_type t TxTransfer then verifyTransferForConsensus t p height
  else Err "unknown transaction type".

End Verification.

(** ** Merkle root and header hash of a block *)
Fixpoint tx_hashes (txs : list Transaction) (p : ConsensusParams) (height : Z)
  : result (list (list Z)) :=
  match txs with
  | [] => Ok []
  | tx :: txs' =>
      let? th := txSigningHashForConsensus tx p height in
      let? rest := tx_hashes txs' p height in
      Ok (th :: rest)
  end.

Definition TxRootLegacyForConsensus (b : Block) (p : ConsensusParams) : result (list Z) :=
  let? hs := tx_hashes (b_Transactions b) p (GetHeight b) in
  Ok (sha256 (concat hs)).

Definition MerkleRootV2ForConsensus (b : Block) (p : ConsensusParams) : result (list Z) :=
  let? leaves := tx_hashes (b_Transactions b) p (GetHeight b) in
  MerkleRoot leaves.

Definition blockHeaderPreimageBinaryV1 (b : option Block) (nonce : Z) (p : ConsensusParams)
  : result (list Z) :=
  match b with
  | None => Err "nil block"
  | Some b =>
      let h := b_Header b in
      fail_if (h_TimestampUnix h <=? 0) "invalid timestamp" ;;?
      fail_if (negb (len (h_PrevHash h) =? 0) && negb (len (h_PrevHash h) =? 32))
        "invalid prevHash length" ;;?
      fail_if (negb (len (b_Hash b) =? 0) && negb (len (b_Hash b) =? 32))
        "invalid hash length" ;;?
      let? miner := wrap "invalid minerAddress" (decodeHex32 (b_MinerAddress b)) in
      let? root :=
        (if len (h_MerkleRoot h) =? 32 then Ok (copy_into 32 (h_MerkleRoot h))
         else
           let? r := wrap "compute Merkle root" (MerkleRootV2ForConsensus b p) in
           Ok (copy_into 32 r)) in
      let prev := if len (h_PrevHash h) =? 32 then copy_into 32 (h_PrevHash h)
                  else copy_into 32 [] in
      Ok ([binaryEncodingVersionV1] ++ le_bytes 4 (h_Version h) ++ le_bytes 8 (GetHeight b) ++
          le_bytes 8 (u64 (h_TimestampUnix h)) ++ prev ++ root ++
          le_bytes 4 (h_DifficultyBits h) ++ miner ++ le_bytes 8 nonce)
  end.

Definition HeaderBytesForConsensus (b : Block) (p : ConsensusParams) (nonce : Z)
  : result (list Z) := blockHeaderPreimageBinaryV1 (Some b) nonce p.

Definition BlockHash (b : option Block) (p : ConsensusParams) : result (list Z) :=
  match b with
  | None => Err "nil block"
  | Some b' =>
      let? headerBytes := wrap "encode header"
        (if BinaryEncodingActive p (GetHeight b')
         then blockHeaderPreimageBinaryV1 b (h_Nonce (b_Header b')) p
         else HeaderBytesForConsensus b' p (h_Nonce (b_Header b'))) in
      Ok (sha256 headerBytes)
  end.

Definition BlockHashHex (b : option Block) (p : ConsensusParams) : result string :=
  let? hash := BlockHash b p in
  Ok (hex_encode hash).

(** ** Binary transport of transactions *)
Definition EncodeTransactionBinary (tx : Transaction) : result (list Z) :=
  txSigningPreimageBinaryV1 tx.

Fixpoint encode_txs (txs : list Transaction) : result (list Z) :=
  match txs with
  | [] => Ok []
  | tx :: txs' =>
      let? txData := wrap "encode tx" (EncodeTransactionBinary tx) in
      let? rest := encode_txs txs' in
      Ok (txData ++ rest)
  end.

Definition EncodeBlockBinary (block : option Block) : result (list Z) :=
  match block with
  | None => Err "nil block"
  | Some b =>
      let h := b_Header b in
      let? txs := encode_txs (b_Transactions b) in
      Ok ([binaryEncodingVersionV1] ++ le_bytes 4 (h_Version h) ++ le_bytes 8 (GetHeight b) ++
          le_bytes 8 (u64 (h_TimestampUnix h)) ++ le_bytes 4 (h_DifficultyBits h) ++
          le_bytes 8 (h_Nonce h) ++ b_Hash b ++ h_PrevHash h ++ h_MerkleRoot h ++
          le_bytes 4 (u32 (len (b_Transactions b))) ++ txs)
  end.

(** The decoder's state: the data and the read position. *)
Record binaryDecoder := mkDecoder { d_data : list Z; d_pos : Z }.
Definition newBinaryDecoder (data : list Z) : binaryDecoder := mkDecoder data 0.

(** A Go slice expression [data[lo:hi]]; out of range it panics. *)
Definition slice_range (data : list Z) (lo hi : Z) : result (list Z) :=
  if (0 <=? lo) && (lo <=? hi) && (hi <=? len data)
  then Ok (take (Z.to_nat (hi - lo)) (drop (Z.to_nat lo) data))
  else Err "panic: slice bounds out of range".

Definition readBytes : St binaryDecoder (list Z) := fun d =>
  match slice_range (d_data d) (d_pos d) (len (d_data d)) with
  | Err e => (d, Err e)
  | Ok rest =>
      match readULEB128 rest with
      | Err e => (d, Err e)
      | Ok (length, _) =>
          (* the position moves past one length byte, whatever the length took *)
          let pos := d_pos d + (len rest - len rest) + 1 in
          let d := mkDecoder (d_data d) pos in
          if i64 (pos + i64 length) >? len (d_data d) then (d, Err "unexpected EOF")
          else
            match slice_range (d_data d) pos (i64 (pos + i64 length)) with
            | Err e => (d, Err e)
            | Ok data => (mkDecoder (d_data d) (i64 (pos + i64 length)), Ok data)
            end
      end
  end.

Definition readUint64 : St binaryDecoder Z := fun d =>
  if d_pos d + 8 >? len (d_data d) then (d, Err "unexpected EOF")
  else
    match slice_range (d_data d) (d_pos d) (d_pos d + 8) with
    | Err e => (d, Err e)
    | Ok b => (mkDecoder (d_data d) (d_pos d + 8), Ok (le_val b))
    end.

Definition decodeTransaction : St binaryDecoder Transaction :=
  let! typeBytes := readBytes in
  let! chainID := readUint64 in
  let! fromPubKey := readBytes in
  let! toAddrBytes := readBytes in
  let! amount := readUint64 in
  let! fee := readUint64 in
  let! nonce := readUint64 in
  let! dataBytes := readBytes in
  let ty := string_of_bytes typeBytes in
  let! signature :=
    (if str_eqb ty TxTransfer && (0 <? len fromPubKey)
     then let! s := readBytes in st_ret (Some s) else st_ret None) in
  st_ret (mkTransaction ty chainID (Some fromPubKey) (string_of_bytes toAddrBytes)
            amount fee nonce (string_of_bytes dataBytes) signature).

Definition DecodeTransactionBinary (data : list Z) : result Transaction :=
  match data with
  | v :: ((_ :: _) as rest) =>
      fail_if (negb (v =? binaryEncodingVersionV1)) "unsupported version" ;;?
      snd (decodeTransaction (newBinaryDecoder rest))
  | _ => Err "data too short"
  end.

(** ** Generic hashing helpers *)
Definition HashData (data : option (list Z)) : result (list Z) :=
  match data with None => Err "nil data" | Some d => Ok (sha256 d) end.
Definition DoubleHash (data : option (list Z)) : result (list Z) :=
  match data with None => Err "nil data" | Some d => Ok (sha256 (sha256 d)) end.

(** ** JSON of whole transactions and blocks, for their sizes *)
Definition tx_json (t : Transaction) : json :=
  JObj ([("type"%string, JStr (tx_Type t)); ("chainId"%string, JNum (tx_ChainID t))]
        ++ omit_str "fromPubKey" (base64 (slice (tx_FromPubKey t)))
        ++ [("toAddress"%string, JStr (tx_ToAddress t));
            ("amount"%string, JNum (tx_Amount t)); ("fee"%string, JNum (tx_Fee t))]
        ++ omit_num "nonce" (tx_Nonce t) ++ omit_str "data" (tx_Data t)
        ++ omit_str "signature" (base64 (slice (tx_Signature t)))).

(** [Block.MarshalJSON] builds a map, whose keys [encoding/json] sorts. *)
Definition block_json (b : Block) : json :=
  let h := b_Header b in
  JObj [("coinbaseTx"%string, match b_CoinbaseTx b with Some t => tx_json t | None => JNull end);
        ("difficulty"%string, JNum (h_Difficulty h));
        ("difficultyBits"%string, JNum (h_DifficultyBits h));
        ("hash"%string, JStr (hex_encode (b_Hash b)));
        ("height"%string, JNum (GetHeight b));
        ("merkleRoot"%string, JStr (hex_encode (h_MerkleRoot h)));
        ("minerAddress"%string, JStr (b_MinerAddress b));
        ("nonce"%string, JNum (h_Nonce h));
        ("prevHash"%string, JStr (hex_encode (h_PrevHash h)));
        ("stateRoot"%string, JStr (hex_encode (h_StateRoot h)));
        ("timestampUnix"%string, JNum (h_TimestampUnix h));
        ("totalWork"%string, JStr (b_TotalWork b));
        ("transactions"%string, JArr (map tx_json (b_Transactions b)));
        ("version"%string, JNum (h_Version h))].

Definition blockSizeForConsensus (b : Block) : Z := len (json_bytes (block_json b)).

(** * Properties *)

(** ** Addresses *)
Lemma str_eqb_spec (a b : string) : str_eqb a b = true <-> a = b.
Proof. unfold str_eqb. by rewrite bool_decide_eq_true. Qed.

Lemma str_eqb_refl (a : string) : str_eqb a a = true.
Proof. by apply str_eqb_spec. Qed.

(** The 37 bytes an address encodes. *)
Definition address_bytes (pubKey : list Z) : list Z :=
  (AddressVersion :: sha256 pubKey) ++ take ChecksumLen (sha256 (AddressVersion :: sha256 pubKey)).

Lemma GenerateAddress_eq (pubKey : list Z) :
  GenerateAddress pubKey = AddressPrefix +:+ hex_encode (address_bytes pubKey).
Proof.
  unfold GenerateAddress, address_bytes.
  by rewrite (take_ge (sha256 pubKey)) by (rewrite sha256_length; unfold HashLen; lia).
Qed.

Lemma address_bytes_length (pubKey : list Z) : length (address_bytes pubKey) = 37%nat.
Proof.
  unfold address_bytes. rewrite length_app, length_take. cbn [length].
  rewrite !sha256_length. reflexivity.
Qed.

Lemma address_bytes_range (pubKey : list Z) : Forall is_byte (address_bytes pubKey).
Proof.
  unfold address_bytes. apply Forall_app. split.
  - constructor; [unfold is_byte, AddressVersion; lia|apply sha256_range].
  - apply Forall_take, sha256_range.
Qed.

Lemma prefix_slices (s : string) :
  str_take 4 (AddressPrefix +:+ s) = AddressPrefix /\ str_drop 4 (AddressPrefix +:+ s) = s.
Proof. by destruct s. Qed.

Lemma strlen_prefixed (l : list Z) :
  strlen (AddressPrefix +:+ hex_encode l) = 4 + 2 * len l.
Proof.
  unfold strlen, AddressPrefix. change (String.length ("NOGO" +:+ hex_encode l))
    with (4 + String.length (hex_encode l))%nat.
  rewrite hex_encode_length. unfold len. lia.
Qed.

Lemma address_checksum (pubKey : list Z) :
  take (37 - ChecksumLen) (address_bytes pubKey) = AddressVersion :: sha256 pubKey /\
  drop (37 - ChecksumLen) (address_bytes pubKey)
  = take ChecksumLen (sha256 (AddressVersion :: sha256 pubKey)).
Proof.
  unfold address_bytes.
  assert (E : length (AddressVersion :: sha256 pubKey) = (37 - ChecksumLen)%nat)
    by (cbn [length]; by rewrite sha256_length).
  rewrite <- E. split; [by rewrite take_app_length|by rewrite drop_app_length].
Qed.

(** Both decoders on the prefix followed by the hexadecimal of 37 bytes. *)
Lemma ValidateAddress_hex (l : list Z) :
  Forall is_byte l -> length l = 37%nat ->
  ValidateAddress (AddressPrefix +:+ hex_encode l)
  = fail_if (negb (bytes_eqb (drop (37 - ChecksumLen) l)
                     (take ChecksumLen (sha256 (take (37 - ChecksumLen) l)))))
      "checksum mismatch".
Proof.
  intros Hb Hl. unfold ValidateAddress.
  destruct (prefix_slices (hex_encode l)) as [-> ->].
  rewrite strlen_prefixed, hex_decode_encode by done.
  unfold len. rewrite Hl, str_eqb_refl.
  assert (E1 : (4 + 2 * Z.of_nat 37 <? strlen AddressPrefix + 10) = false) by reflexivity.
  assert (E2 : (Z.of_nat 37 <? Z.of_nat ChecksumLen + 1) = false) by reflexivity.
  rewrite E1. cbn [fail_if result_bind wrap negb]. by rewrite Hl, E2.
Qed.

Lemma decodeHex32_hex (l : list Z) :
  Forall is_byte l -> length l = 37%nat ->
  decodeHex32 (AddressPrefix +:+ hex_encode l) = Ok (take 32 (drop 1 l)).
Proof.
  intros Hb Hl. unfold decodeHex32.
  destruct (prefix_slices (hex_encode l)) as [-> ->].
  rewrite strlen_prefixed, hex_decode_encode by done.
  unfold len. rewrite Hl, str_eqb_refl. cbn [wrap result_bind]. rewrite Hl.
  assert (E1 : (4 <? 4 + 2 * Z.of_nat 37) = true) by reflexivity.
  assert (E2 : (Z.of_nat 37 <? 33) = false) by reflexivity.
  assert (E3 : (Z.of_nat 37 =? 37) = true) by reflexivity.
  rewrite E1, E2, E3. cbn [andb fail_if result_bind]. f_equal.
  apply copy_into_full. rewrite length_take, length_drop, Hl. lia.
Qed.

Lemma ValidateAddress_generated (pubKey : list Z) :
  ValidateAddress (GenerateAddress pubKey) = Ok tt.
Proof.
  rewrite GenerateAddress_eq, ValidateAddress_hex by
    auto using address_bytes_range, address_bytes_length.
  destruct (address_checksum pubKey) as [-> ->].
  by rewrite (proj2 (bytes_eqb_spec _ _) eq_refl).
Qed.

Lemma decodeHex32_generated (pubKey : list Z) :
  decodeHex32 (GenerateAddress pubKey) = Ok (sha256 pubKey).
Proof.
  rewrite GenerateAddress_eq, decodeHex32_hex by
    auto using address_bytes_range, address_bytes_length.
  assert (E : forall x (l k : list Z), drop 1 ((x :: l) ++ k) = l ++ k) by done.
  unfold address_bytes. rewrite E, take_app_le by (rewrite sha256_length; lia).
  by rewrite take_ge by (rewrite sha256_length; lia).
Qed.

Lemma decodeHex32_length (a : string) (b : list Z) : decodeHex32 a = Ok b -> length b = 32%nat.
Proof.
  unfold decodeHex32. destruct (_ && _); intros H; inv_result.
  - case_match; inv_result. apply copy_into_length.
  - apply copy_into_length.
Qed.

(** ** Preimages *)
Lemma le_val_nonneg_u64 (z : Z) : is_u64 z -> 0 <= z < 256 ^ Z.of_nat 8.
Proof. unfold_u64. cbn. lia. Qed.

Lemma write_data_inj (a b : string) :
  len (bytes_of_string a) <= max_u64 -> len (bytes_of_string b) <= max_u64 ->
  write_data a = write_data b -> a = b.
Proof.
  intros Ha Hb H. unfold write_data in H.
  assert (Hl : forall s, (if 0 <? len (bytes_of_string s) then bytes_of_string s else [])
                         = bytes_of_string s)
    by (intros s; destruct (bytes_of_string s); done).
  rewrite !Hl in H. unfold len in *.
  pose proof (f_equal readULEB128 H) as E.
  rewrite !readULEB128_write in E by apply u64_range.
  injection E as _ E. by apply bytes_of_string_inj.
Qed.

(** The preimage of a transfer, once the checks have passed. *)
Definition transfer_preimage (tx : Transaction) (to : list Z) : list Z :=
  ([binaryEncodingVersionV1] ++ [1] ++ le_bytes 8 (tx_ChainID tx)) ++
  slice (tx_FromPubKey tx) ++ to ++ le_bytes 8 (tx_Amount tx) ++
  le_bytes 8 (tx_Nonce tx) ++ le_bytes 8 (tx_Fee tx) ++ write_data (tx_Data tx).

Lemma preimage_transfer_inv (tx : Transaction) (b : list Z) :
  is_type tx TxTransfer = true -> txSigningPreimageBinaryV1 tx = Ok b ->
  exists to, decodeHex32 (tx_ToAddress tx) = Ok to /\ b = transfer_preimage tx to /\
    length (slice (tx_FromPubKey tx)) = 32%nat /\ tx_ChainID tx <> 0.
Proof.
  intros Ht H. unfold txSigningPreimageBinaryV1 in H.
  assert (Hc : is_type tx TxCoinbase = false).
  { unfold is_type in *. apply str_eqb_spec in Ht. rewrite Ht. done. }
  rewrite Hc, Ht in H. inv_result. bool_to_prop. exists a1. split_and!; auto.
  unfold PubKeySize, len in *. lia.
Qed.

Lemma preimage_transfer (tx : Transaction) (to : list Z) :
  is_type tx TxTransfer = true -> tx_ChainID tx <> 0 ->
  length (slice (tx_FromPubKey tx)) = 32%nat -> decodeHex32 (tx_ToAddress tx) = Ok to ->
  txSigningPreimageBinaryV1 tx = Ok (transfer_preimage tx to).
Proof.
  intros Ht Hc Hl Hd. unfold txSigningPreimageBinaryV1.
  assert (Hnc : is_type tx TxCoinbase = false).
  { unfold is_type in *. apply str_eqb_spec in Ht. rewrite Ht. done. }
  rewrite Hnc, Ht, (proj2 (Z.eqb_neq _ _) Hc), Hd. unfold len. rewrite Hl. done.
Qed.

Lemma transfer_preimage_length (tx : Transaction) (to : list Z) :
  length (slice (tx_FromPubKey tx)) = 32%nat -> length to = 32%nat ->
  (98 <= length (transfer_preimage tx to))%nat.
Proof.
  intros Hl Ht. unfold transfer_preimage.
  rewrite !length_app, !le_bytes_length, Hl, Ht. cbn [length]. lia.
Qed.

(** Address round trip: the address generated for a key validates, decodes to
    the key's SHA-256 digest, and two keys have one address exactly when they have one digest. *)
Theorem address_roundtrip (pk1 pk2 : list Z) :
  ValidateAddress (GenerateAddress pk1) = Ok tt /\
  decodeHex32 (GenerateAddress pk1) = Ok (sha256 pk1) /\
  (GenerateAddress pk1 = GenerateAddress pk2 <-> sha256 pk1 = sha256 pk2).
Proof.
  split_and!; [apply ValidateAddress_generated|apply decodeHex32_generated|]. split.
  - intros H. pose proof (decodeHex32_generated pk1) as E. rewrite H, decodeHex32_generated in E. congruence.
  - intros H. unfold GenerateAddress. by rewrite H.
Qed.

(** C37. What a binary signature commits to: two transfers with the same signing
    preimage agree on the chain, the sender's key, the amount, the nonce, the fee
    and the data, and their recipients decode to the same 32 bytes. *)
Theorem preimage_binds_transfer (t1 t2 : Transaction) (b : list Z)
  (Hy1 : tx_typed t1) (Hy2 : tx_typed t2)
  (Ht1 : is_type t1 TxTransfer = true) (Ht2 : is_type t2 TxTransfer = true)
  (Hd1 : len (bytes_of_string (tx_Data t1)) <= max_u64)
  (Hd2 : len (bytes_of_string (tx_Data t2)) <= max_u64)
  (H1 : txSigningPreimageBinaryV1 t1 = Ok b) (H2 : txSigningPreimageBinaryV1 t2 = Ok b) :
  tx_ChainID t1 = tx_ChainID t2 /\ slice (tx_FromPubKey t1) = slice (tx_FromPubKey t2) /\
  tx_Amount t1 = tx_Amount t2 /\ tx_Nonce t1 = tx_Nonce t2 /\ tx_Fee t1 = tx_Fee t2 /\
  tx_Data t1 = tx_Data t2 /\ decodeHex32 (tx_ToAddress t1) = decodeHex32 (tx_ToAddress t2).
Proof.
  destruct (preimage_transfer_inv t1 b Ht1 H1) as (to1 & D1 & -> & L1 & _).
  destruct (preimage_transfer_inv t2 _ Ht2 H2) as (to2 & D2 & E & L2 & _).
  pose proof (decodeHex32_length _ _ D1). pose proof (decodeHex32_length _ _ D2).
  unfold transfer_preimage in E. rewrite <- !app_assoc in E.
  repeat (apply app_inj_length in E as [?B E];
          [|by rewrite ?le_bytes_length, ?L1, ?L2; congruence]).
  unfold tx_typed in *. destruct_and!.
  split_and!; eauto using le_bytes_u64_inj, write_data_inj. congruence.
Qed.

(** ** Letter case of hexadecimal addresses *)

(** [strings.ToUpper] on the letters of a lower-case hexadecimal string. *)
Fixpoint upper_hex (s : string) : string :=
  match s with
  | EmptyString => EmptyString
  | String c s' =>
      let z := Z_of_ascii c in
      String (if (97 <=? z) && (z <=? 102) then ascii_of_Z (z - 32) else c) (upper_hex s')
  end.

Definition set_to (tx : Transaction) (to : string) : Transaction :=
  mkTransaction (tx_Type tx) (tx_ChainID tx) (tx_FromPubKey tx) to (tx_Amount tx)
    (tx_Fee tx) (tx_Nonce tx) (tx_Data tx) (tx_Signature tx).

Lemma hex_val_upper (c : Ascii.ascii) :
  hex_val (if (97 <=? Z_of_ascii c) && (Z_of_ascii c <=? 102)
           then ascii_of_Z (Z_of_ascii c - 32) else c) = hex_val c.
Proof. destruct c as [[] [] [] [] [] [] [] []]; reflexivity. Qed.

(** Two characters at a time. *)
Lemma string_pair_ind (P : string -> Prop) :
  P EmptyString -> (forall c, P (String c EmptyString)) ->
  (forall c d s, P s -> P (String c (String d s))) -> forall s, P s.
Proof.
  intros H0 H1 H2 s. enough (P s /\ forall c, P (String c s)) by tauto.
  induction s as [|c s [IH1 IH2]]; split; auto.
Qed.

Lemma hex_decode_upper (s : string) : hex_decode (upper_hex s) = hex_decode s.
Proof.
  induction s as [|c|c d s IH] using string_pair_ind; [done|..];
    cbn [upper_hex hex_decode]; rewrite !hex_val_upper; [done|]. by rewrite IH.
Qed.

Lemma upper_hex_length (s : string) : String.length (upper_hex s) = String.length s.
Proof. induction s; cbn; auto. Qed.

Lemma strlen_upper (s : string) :
  strlen (AddressPrefix +:+ upper_hex s) = strlen (AddressPrefix +:+ s).
Proof.
  unfold strlen. f_equal. unfold AddressPrefix.
  change (4 + String.length (upper_hex s) = 4 + String.length s)%nat.
  by rewrite upper_hex_length.
Qed.

Lemma ValidateAddress_upper (s : string) :
  ValidateAddress (AddressPrefix +:+ upper_hex s) = ValidateAddress (AddressPrefix +:+ s).
Proof.
  unfold ValidateAddress. rewrite strlen_upper.
  destruct (prefix_slices (upper_hex s)) as [-> ->]. destruct (prefix_slices s) as [-> ->].
  by rewrite hex_decode_upper.
Qed.

Lemma decodeHex32_upper (s : string) :
  decodeHex32 (AddressPrefix +:+ upper_hex s) = decodeHex32 (AddressPrefix +:+ s).
Proof.
  destruct (decide (s = EmptyString)) as [->|Hs]; [done|]. unfold decodeHex32.
  rewrite strlen_upper. destruct (prefix_slices (upper_hex s)) as [-> ->].
  destruct (prefix_slices s) as [-> ->]. rewrite str_eqb_refl, hex_decode_upper.
  assert (E : (4 <? strlen (AddressPrefix +:+ s)) = true).
  { apply Z.ltb_lt. unfold strlen, AddressPrefix.
    change (4 < Z.of_nat (4 + String.length s)). destruct s; [done|cbn [String.length]; lia]. }
  by rewrite E.
Qed.

Lemma preimage_set_to (tx : Transaction) (a1 a2 : string) :
  decodeHex32 a1 = decodeHex32 a2 ->
  txSigningPreimageBinaryV1 (set_to tx a1) = txSigningPreimageBinaryV1 (set_to tx a2).
Proof.
  intros H. unfold txSigningPreimageBinaryV1, is_type, set_to. cbn [tx_Type tx_ChainID
    tx_FromPubKey tx_ToAddress tx_Amount tx_Fee tx_Nonce tx_Data]. by rewrite H.
Qed.

(** Recipient malleability: under the binary encoding, rewriting the letters of
    the recipient's hexadecimal address in upper case changes neither the signed
    hash, nor the transaction id, nor the outcome of the signature check, although
    balances are keyed by the address as it is spelled. *)
Theorem recipient_case_malleable (ed : list Z -> list Z -> list Z -> bool)
  (tx : Transaction) (s : string) (p : ConsensusParams) (height : Z)
  (Hb : BinaryEncodingActive p height = true)
  (Hc : is_type tx TxTransfer = true) :
  let t1 := set_to tx (AddressPrefix +:+ s) in
  let t2 := set_to tx (AddressPrefix +:+ upper_hex s) in
  TxIDHexForConsensus t2 p height = TxIDHexForConsensus t1 p height /\
  VerifyForConsensus ed t2 p height = VerifyForConsensus ed t1 p height.
Proof.
  intros t1 t2.
  assert (E : txSigningHashForConsensus t2 p height = txSigningHashForConsensus t1 p height).
  { unfold txSigningHashForConsensus. rewrite Hb. unfold txSigningHashBinaryV1, t1, t2.
    by rewrite (preimage_set_to tx _ _ (decodeHex32_upper s)). }
  split; [unfold TxIDHexForConsensus; by rewrite E|].
  assert (Hn : is_type tx TxCoinbase = false)
    by (unfold is_type in *; apply str_eqb_spec in Hc; by rewrite Hc).
  unfold VerifyForConsensus. change (is_type t1) with (is_type tx).
  change (is_type t2) with (is_type tx). rewrite Hn, Hc.
  unfold verifyTransferForConsensus, verify_transfer_with. rewrite E.
  change (tx_ToAddress t2) with (AddressPrefix +:+ upper_hex s).
  change (tx_ToAddress t1) with (AddressPrefix +:+ s).
  by rewrite ValidateAddress_upper.
Qed.

(** A transfer passes consensus verification exactly when its amount, nonce and
    chain id are positive, its recipient is a valid address, its key and signature
    have their sizes, and the signature verifies over the hash of that height. *)
Theorem verify_transfer_iff (ed : list Z -> list Z -> list Z -> bool)
  (t : Transaction) (p : ConsensusParams) (height : Z)
  (Ht : is_type t TxTransfer = true) :
  VerifyForConsensus ed t p height = Ok tt <->
  tx_Amount t <> 0 /\ tx_Nonce t <> 0 /\ tx_ChainID t <> 0 /\
  ValidateAddress (tx_ToAddress t) = Ok tt /\
  length (slice (tx_FromPubKey t)) = 32%nat /\ length (slice (tx_Signature t)) = 64%nat /\
  exists h, txSigningHashForConsensus t p height = Ok h /\
    ed (slice (tx_FromPubKey t)) h (slice (tx_Signature t)) = true.
Proof.
  assert (Hn : is_type t TxCoinbase = false)
    by (unfold is_type in *; apply str_eqb_spec in Ht; by rewrite Ht).
  unfold VerifyForConsensus. rewrite Hn, Ht.
  unfold verifyTransferForConsensus, verify_transfer_with, verifyWithSigningHash.
  rewrite Ht. split.
  - intros H. inv_result. bool_to_prop. unfold len, PubKeySize, SignatureSize in *.
    repeat match goal with u : unit |- _ => destruct u end.
    split_and!; eauto; lia.
  - intros (Ha & Hm & Hc & Hv & Hp & Hs & h & Hh & He).
    unfold len. rewrite Hp, Hs, Hv, Hh.
    apply Z.eqb_neq in Ha, Hm, Hc. rewrite Ha, Hm, Hc.
    change (Z.of_nat 32 =? PubKeySize) with true. change (Z.of_nat 64 =? SignatureSize) with true.
    cbn [fail_if wrap result_bind negb]. by rewrite He.
Qed.

(** ** The exported signing hash and the binary decoder *)
Lemma preimage_type (tx : Transaction) (b : list Z) :
  txSigningPreimageBinaryV1 tx = Ok b ->
  exists ty rest, b = 1 :: ty :: rest /\ (ty = 0 \/ ty = 1).
Proof.
  intros H. unfold txSigningPreimageBinaryV1 in H.
  destruct (is_type tx TxCoinbase); [|destruct (is_type tx TxTransfer)]; inv_result;
    eexists _, _; (split; [reflexivity|auto]).
Qed.

(** [TxSigningHashForConsensus] is no hash under the binary encoding: for a
    transfer it returns the preimage, at least 98 bytes, and a Merkle tree that has
    it for a leaf is refused. *)
Theorem exported_signing_hash_unusable (tx : Transaction) (p : ConsensusParams) (height : Z)
  (h : list Z) (before after : list (list Z))
  (Hb : BinaryEncodingActive p height = true)
  (Ht : is_type tx TxTransfer = true)
  (H : TxSigningHashForConsensus tx p height = Ok h) :
  (98 <= length h)%nat /\ txSigningHashForConsensus tx p height = Ok (sha256 h) /\
  ComputeMerkleRoot (before ++ h :: after) = Err ErrInvalidLeafLength.
Proof.
  unfold TxSigningHashForConsensus, txSigningHashForConsensus in *. rewrite Hb in *.
  destruct (preimage_transfer_inv tx h Ht H) as (to & Hd & -> & Hl & _).
  pose proof (transfer_preimage_length tx to Hl (decodeHex32_length _ _ Hd)).
  split_and!; [done|unfold txSigningHashBinaryV1; by rewrite H|].
  unfold ComputeMerkleRoot. rewrite len_pos by (by destruct before).
  cbn [fail_if result_bind]. rewrite hash_leaves_err; [done|].
  intros Hs. apply Forall_app in Hs as [_ Hs]. inversion_clear Hs. unfold hashLength in *. lia.
Qed.

Lemma slice_range_all (l : list Z) : slice_range l 0 (len l) = Ok l.
Proof.
  unfold slice_range. assert (0 <= len l) by (unfold len; lia).
  rewrite (proj2 (Z.leb_le 0 (len l))), !Z.leb_refl by done. cbn [andb].
  f_equal. apply take_ge. rewrite Z.sub_0_r. unfold len. cbn [Z.to_nat drop]. lia.
Qed.

Lemma readBytes_first (n : Z) (rest : list Z) :
  n = 0 \/ n = 1 ->
  exists d r, readBytes (newBinaryDecoder (n :: rest)) = (d, r) /\
    (forall l, r = Ok l -> (length l <= 1)%nat).
Proof.
  intros Hn. destruct (readBytes (newBinaryDecoder (n :: rest))) as [d r] eqn:E.
  exists d, r. split; [done|]. intros l ->. unfold readBytes in E.
  cbn [newBinaryDecoder d_data d_pos] in E. rewrite slice_range_all in E.
  assert (Hu : readULEB128 (n :: rest) = Ok (n, rest)).
  { destruct Hn as [-> | ->]; reflexivity. }
  rewrite Hu in E. rewrite Z.sub_diag in E. change (0 + 0 + 1) with 1 in E.
  assert (Hi : i64 (1 + i64 n) = 1 + n) by (destruct Hn as [-> | ->]; reflexivity).
  rewrite Hi in E. case_match; [congruence|]. unfold slice_range in E.
  repeat case_match; simplify_eq. rewrite length_take. lia.
Qed.

(** The binary decoder does not invert the binary encoder: whatever
    [DecodeTransactionBinary] returns on an encoded transaction has a type string of
    at most one byte, so it is neither the transaction nor any valid one. *)
Theorem decode_never_inverts (ed : list Z -> list Z -> list Z -> bool)
  (tx tx' : Transaction) (b : list Z) (p : ConsensusParams) (height : Z)
  (He : EncodeTransactionBinary tx = Ok b) (Hd : DecodeTransactionBinary b = Ok tx') :
  tx' <> tx /\ strlen (tx_Type tx') <= 1 /\
  VerifyForConsensus ed tx' p height = Err "unknown transaction type".
Proof.
  destruct (preimage_type tx b He) as (ty & rest & -> & Hty).
  unfold DecodeTransactionBinary in Hd. inv_result.
  destruct (readBytes_first ty rest Hty) as (d & r & Er & Hr).
  unfold decodeTransaction, st_bind at 1 in Hd. rewrite Er in Hd.
  destruct r as [l|]; [|discriminate]. specialize (Hr l eq_refl).
  assert (Hs : tx_Type tx' = string_of_bytes l).
  { unfold st_bind, st_ret in Hd. repeat case_match; cbn in Hd; simplify_eq; reflexivity. }
  assert (Hlen : strlen (tx_Type tx') <= 1).
  { rewrite Hs. unfold strlen. destruct l as [|x [|y l]]; cbn in *; lia. }
  assert (Hf : forall k, 1 < strlen k -> is_type tx' k = false).
  { intros k Hk. apply not_true_is_false. intros E. unfold is_type in E.
    apply str_eqb_spec in E. subst k. lia. }
  assert (Hc : is_type tx' TxCoinbase = false) by (apply Hf; reflexivity).
  assert (Ht : is_type tx' TxTransfer = false) by (apply Hf; reflexivity).
  split_and!; [|done|unfold VerifyForConsensus; by rewrite Hc, Ht].
  intros ->. unfold EncodeTransactionBinary, txSigningPreimageBinaryV1 in He.
  by rewrite Hc, Ht in He.
Qed.

(** * Witnesses *)
Definition main_params : ConsensusParams :=
  mkConsensusParams 1 true 30 1 7200 1 4294967295 1 255 100 11 true 0 true 0 1 1000000 1000
    main_policy.

(** A transfer from the all-zero key, and a signature scheme that accepts it. *)
Definition zero_key : list Z := replicate 32 0.
Definition sample_tx : Transaction :=
  mkTransaction TxTransfer 1 (Some zero_key) (GenerateAddress [9]) 500 10 1 "memo"
    (Some (replicate 64 1)).
Definition accept_all (pk msg sig : list Z) : bool := true.

Lemma sample_tx_typed : tx_typed sample_tx.
Proof.
  unfold tx_typed, sample_tx, is_u64, max_u64.
  cbn [tx_ChainID tx_Amount tx_Fee tx_Nonce tx_FromPubKey tx_Signature slice default].
  split_and!; try lia; cbn; repeat constructor; unfold is_byte; lia.
Qed.

Lemma address_roundtrip_witness :
  ValidateAddress (GenerateAddress [9]) = Ok tt.
Proof. apply (address_roundtrip [9] [9]). Defined.

Lemma preimage_binds_transfer_witness : tx_Amount sample_tx = 500.
Proof.
  destruct (txSigningPreimageBinaryV1 sample_tx) as [b|] eqn:E;
    [|vm_compute in E; discriminate].
  apply (preimage_binds_transfer sample_tx sample_tx b);
    [apply sample_tx_typed|apply sample_tx_typed|reflexivity|reflexivity
    |vm_compute; discriminate|vm_compute; discriminate|exact E|exact E].
Defined.

Lemma recipient_case_malleable_witness :
  let s := str_drop 4 (GenerateAddress [9]) in
  VerifyForConsensus accept_all (set_to sample_tx (AddressPrefix +:+ upper_hex s)) main_params 5
  = Ok tt /\ upper_hex s <> s.
Proof.
  intros s. split; [|vm_compute; discriminate].
  rewrite (proj2 (recipient_case_malleable accept_all sample_tx s main_params 5
                    eq_refl eq_refl)).
  vm_compute. reflexivity.
Defined.

Lemma verify_transfer_iff_witness : ValidateAddress (tx_ToAddress sample_tx) = Ok tt.
Proof.
  assert (H : VerifyForConsensus accept_all sample_tx main_params 5 = Ok tt)
    by (vm_compute; reflexivity).
  pose proof (proj1 (verify_transfer_iff accept_all sample_tx main_params 5 eq_refl) H) as K.
  tauto.
Defined.

Lemma exported_signing_hash_unusable_witness :
  exists h, TxSigningHashForConsensus sample_tx main_params 5 = Ok h /\
    ComputeMerkleRoot ([] ++ h :: []) = Err ErrInvalidLeafLength.
Proof.
  destruct (TxSigningHashForConsensus sample_tx main_params 5) as [h|] eqn:E;
    [|vm_compute in E; discriminate].
  exists h. split; [done|].
  apply (exported_signing_hash_unusable sample_tx main_params 5 h [] [] eq_refl eq_refl E).
Defined.

Lemma decode_never_inverts_witness :
  exists b tx', EncodeTransactionBinary sample_tx = Ok b /\
    DecodeTransactionBinary b = Ok tx' /\ tx' <> sample_tx.
Proof.
  destruct (EncodeTransactionBinary sample_tx) as [b|] eqn:E; [|vm_compute in E; discriminate].
  destruct (DecodeTransactionBinary b) as [tx'|] eqn:D.
  - exists b, tx'. split_and!; [done|done|].
    apply (decode_never_inverts accept_all sample_tx tx' b main_params 5 E D).
  - exfalso. assert (Hb : is_ok (let? b := EncodeTransactionBinary sample_tx in
                                 DecodeTransactionBinary b) = true) by (vm_compute; reflexivity).
    rewrite E in Hb. cbn [result_bind] in Hb. by rewrite D in Hb.
Defined.
