(* ===== verification/Ledger.v ===== *)
(** * The account ledger

    [core.Account] and the functions that apply a block to the account map:
    [applyBlockToState] of [blockchain/core/chain_struct.go], its two tolerant
    variants and the state merges of [blockchain/core/chain.go], the reduced copy in
    [blockchain/consensus/validator.go], and the recomputation, comparison and
    supply functions of [Chain].

    The Go functions mutate the map they are given and return an error, so they
    are computations of [St State unit]: what was written before an error stays.
    A map iteration whose result does not depend on its order is a fold or a
    [merge] of the map. *)

From S2P Require Import Prelude Bytes Sha256 Config Merkle Json Transaction.
From stdpp Require Import base list strings numbers gmap.
From Stdlib Require Import ZArith Lia.

Open Scope Z_scope.
Open Scope go_scope.

(** ** Accounts *)
Record Account := mkAccount { Balance : Z; Nonce : Z }.
Definition zero_account : Account := mkAccount 0 0.

#[export] Instance Account_eq_dec : EqDecision Account.
Proof. solve_decision. Defined.

Definition AddBalance (amount : Z) : St Account unit := fun a =>
  if amount >? (max_u64 - Balance a)%u64 then (a, Err "balance overflow")
  else (mkAccount (Balance a + amount)%u64 (Nonce a), Ok tt).

Definition SubBalance (amount : Z) : St Account unit := fun a =>
  if amount >? Balance a then (a, Err "balance underflow")
  else (mkAccount (Balance a - amount)%u64 (Nonce a), Ok tt).

Definition IncrementNonce : St Account unit := fun a =>
  if Nonce a >=? max_u64 then (a, Err "nonce overflow")
  else (mkAccount (Balance a) (Nonce a + 1)%u64, Ok tt).

(** ** The account map *)
Abbreviation State := (gmap string Account).

(** Reading an absent key of a Go map gives the zero value. *)
Definition acct (st : State) (addr : string) : Account := default zero_account (st !! addr).

(** [a := state[addr]; if a.Balance > MaxUint64-amount { error }; a.Balance += amount;
    state[addr] = a] *)
Definition credit (msg : error) (addr : string) (amount : Z) : St State unit := fun st =>
  let a := acct st addr in
  if Balance a >? (max_u64 - amount)%u64 then (st, Err msg)
  else (<[addr := mkAccount (Balance a + amount)%u64 (Nonce a)]> st, Ok tt).

(** [if p.MaxBlockSize > 0 && uint64(size) > p.MaxBlockSize { error }] *)
Definition check_block_size (p : ConsensusParams) (b : Block) : result unit :=
  fail_if ((0 <? MaxBlockSize p) && (u64 (blockSizeForConsensus b) >? MaxBlockSize p))
    "block too large".

(** The sum of the fees of the transfers, in [uint64]. *)
Definition sum_fees (txs : list Transaction) : Z :=
  fold_left (fun fees tx => if is_type tx TxTransfer then (fees + tx_Fee tx)%u64 else fees) txs 0.

Definition first_is_coinbase (b : Block) : bool :=
  match b_Transactions b with tx :: _ => is_type tx TxCoinbase | [] => false end.

Section Apply.
Variable ed25519_verify : list Z -> list Z -> list Z -> bool.

(** *** Transaction steps of [core.applyBlockToState] *)
Definition apply_coinbase_tx (p : ConsensusParams) (height : Z) (i : nat) (tx : Transaction)
  : St State unit :=
  st_lift (fail_if (negb (Nat.eqb i 0)) "coinbase must be first") ;;!
  st_lift (VerifyForConsensus ed25519_verify tx p height) ;;!
  credit "coinbase balance overflow" (tx_ToAddress tx) (tx_Amount tx).

Definition apply_transfer_tx (p : ConsensusParams) (height : Z) (tx : Transaction)
  : St State unit :=
  st_lift (VerifyForConsensus ed25519_verify tx p height) ;;!
  let! fromAddr := st_lift (FromAddress tx) in
  let! st := st_get in
  let from := acct st fromAddr in
  st_lift (fail_if (negb ((Nonce from + 1)%u64 =? tx_Nonce tx)) "bad nonce") ;;!
  st_lift (fail_if (tx_Amount tx >? (max_u64 - tx_Fee tx)%u64)
             "transaction amount + fee overflow") ;;!
  let totalDebit := (tx_Amount tx + tx_Fee tx)%u64 in
  st_lift (fail_if (Balance from <? totalDebit) "insufficient funds") ;;!
  st_modify (fun st => <[fromAddr := mkAccount (Balance from - totalDebit)%u64 (tx_Nonce tx)]> st)
  ;;! credit "transfer balance overflow" (tx_ToAddress tx) (tx_Amount tx).

Definition apply_tx (p : ConsensusParams) (height : Z) (i : nat) (tx : Transaction)
  : St State unit :=
  if is_type tx TxCoinbase then apply_coinbase_tx p height i tx
  else if is_type tx TxTransfer then apply_transfer_tx p height tx
  else st_fail "unknown tx type".

Fixpoint apply_txs (p : ConsensusParams) (height : Z) (i : nat) (txs : list Transaction)
  : St State unit :=
  match txs with
  | [] => st_ret tt
  | tx :: txs' => apply_tx p height i tx ;;! apply_txs p height (S i) txs'
  end.

(** The economics checked for a block above the genesis block, and the genesis
    address's share of the reward. *)
Definition check_economics (mp : MonetaryPolicy) (b : Block) (genesisAddress : string)
  : St State unit :=
  st_lift (wrap "invalid minerAddress" (ValidateAddress (b_MinerAddress b))) ;;!
  match b_Transactions b with
  | [] => st_ret tt
  | cb :: rest =>
      let fees := sum_fees rest in
      st_lift (fail_if (negb (str_eqb (tx_ToAddress cb) (b_MinerAddress b)))
                 "coinbase toAddress must match minerAddress") ;;!
      let expected := coinbase_expected mp (GetHeight b) fees in
      st_lift (fail_if (negb (tx_Amount cb =? expected)) "bad coinbase amount") ;;!
      let blockReward := BlockReward mp (GetHeight b) in
      let genesisReward := (blockReward * GenesisShare mp / 100)%u64 in
      if genesisReward >? 0
      then credit "genesis address balance overflow" genesisAddress genesisReward
      else st_ret tt
  end.

Definition applyBlockToState (p : ConsensusParams) (mp : MonetaryPolicy) (b : Block)
  (genesisAddress : string) : St State unit :=
  st_lift (check_block_size p b) ;;!
  st_lift (fail_if (len (b_Transactions b) =? 0) "block has no transactions") ;;!
  st_lift (fail_if (negb (first_is_coinbase b)) "first tx must be coinbase") ;;!
  (if GetHeight b >? 0 then check_economics mp b genesisAddress else st_ret tt) ;;!
  apply_txs p (GetHeight b) 0 (b_Transactions b).

(** [recomputeStateLocked]: every block of the chain from the empty map. *)
Fixpoint apply_blocks (p : ConsensusParams) (mp : MonetaryPolicy) (genesisAddress : string)
  (bs : list Block) : St State unit :=
  match bs with
  | [] => st_ret tt
  | b :: bs' =>
      (fun st => match applyBlockToState p mp b genesisAddress st with
                 | (st', r) => (st', wrap "apply block" r) end) ;;!
      apply_blocks p mp genesisAddress bs'
  end.

Definition recomputeState (p : ConsensusParams) (mp : MonetaryPolicy) (genesisAddress : string)
  (bs : list Block) : State * result unit :=
  apply_blocks p mp genesisAddress bs ∅.

(** [validateStateLocked] *)
Definition validateState (p : ConsensusParams) (mp : MonetaryPolicy) (genesisAddress : string)
  (bs : list Block) (current : State) : result unit :=
  match apply_blocks p mp genesisAddress bs ∅ with
  | (_, Err e) => Err e
  | (recomputed, Ok _) =>
      fail_if (negb (Nat.eqb (size recomputed) (size current))) "state size mismatch" ;;?
      fail_if (negb (bool_decide (map_Forall (fun addr a => recomputed !! addr = Some a) current)))
        "account mismatch"
  end.

(** *** [consensus.applyBlockToState] *)
Definition consensus_validateAddress (addr : string) : result unit :=
  fail_if (strlen addr <? 14) "address too short" ;;?
  if (4 <=? strlen addr) && str_eqb (str_take 4 addr) "NOGO" then
    let? decoded := wrap "invalid hex" (hex_decode (str_drop 4 addr)) in
    fail_if (len decoded <? 5) "invalid address length"
  else
    let? _ := wrap "invalid hex address" (hex_decode addr) in Ok tt.

Definition consensus_apply_transfer (p : ConsensusParams) (height : Z) (tx : Transaction)
  : St State unit :=
  st_lift (VerifyForConsensus ed25519_verify tx p height) ;;!
  let! fromAddr := st_lift (FromAddress tx) in
  let! st := st_get in
  let from := acct st fromAddr in
  st_lift (fail_if (negb ((Nonce from + 1)%u64 =? tx_Nonce tx)) "bad nonce") ;;!
  let totalDebit := (tx_Amount tx + tx_Fee tx)%u64 in
  st_lift (fail_if (Balance from <? totalDebit) "insufficient funds") ;;!
  st_modify (fun st => <[fromAddr := mkAccount (Balance from - totalDebit)%u64 (tx_Nonce tx)]> st)
  ;;! credit "transfer balance overflow" (tx_ToAddress tx) (tx_Amount tx).

Fixpoint consensus_apply_txs (p : ConsensusParams) (height : Z) (i : nat)
  (txs : list Transaction) : St State unit :=
  match txs with
  | [] => st_ret tt
  | tx :: txs' =>
      (if is_type tx TxCoinbase then apply_coinbase_tx p height i tx
       else if is_type tx TxTransfer then consensus_apply_transfer p height tx
       else st_fail "unknown tx type") ;;!
      consensus_apply_txs p height (S i) txs'
  end.

Definition consensus_applyBlockToState (p : ConsensusParams) (b : Block) : St State unit :=
  st_lift (fail_if (len (b_Transactions b) =? 0) "block has no transactions") ;;!
  st_lift (fail_if (negb (first_is_coinbase b)) "first tx must be coinbase") ;;!
  (if GetHeight b >? 0 then
     st_lift (wrap "invalid minerAddress" (consensus_validateAddress (b_MinerAddress b))) ;;!
     match b_Transactions b with
     | [] => st_ret tt
     | cb :: rest =>
         let fees := sum_fees rest in
         st_lift (fail_if (negb (str_eqb (tx_ToAddress cb) (b_MinerAddress b)))
                    "coinbase toAddress must match minerAddress") ;;!
         let policy := cp_MonetaryPolicy p in
         st_lift (fail_if (negb (tx_Amount cb =? coinbase_expected policy (GetHeight b) fees))
                    "bad coinbase amount")
     end
   else st_ret tt) ;;!
  consensus_apply_txs p (GetHeight b) 0 (b_Transactions b).

(** *** The tolerant variants of [chain.go]

    Both credit the coinbase up front within a band around the miner's share and
    then run the transfers with a laxer nonce rule; [nonce_rule] is that rule and
    [lo], [hi] are the band's percentages. *)
Definition tolerant_coinbase (mp : MonetaryPolicy) (b : Block) (lo hi : Z) (msg : error)
  : St State unit :=
  match b_Transactions b with
  | cb :: _ =>
      if (GetHeight b >? 0) && is_type cb TxCoinbase then
        let minerReward := (BlockReward mp (GetHeight b) * MinerRewardShare mp / 100)%u64 in
        let rewardLowerBound := (minerReward * lo / 100)%u64 in
        let rewardUpperBound := (minerReward * hi / 100)%u64 in
        st_lift (fail_if ((tx_Amount cb <? rewardLowerBound) || (tx_Amount cb >? rewardUpperBound))
                   msg) ;;!
        credit "coinbase balance overflow" (tx_ToAddress cb) (tx_Amount cb)
      else st_ret tt
  | [] => st_ret tt
  end.

Definition tolerant_transfer (nonce_rule : Z -> Z -> result unit) (p : ConsensusParams)
  (height : Z) (tx : Transaction) : St State unit :=
  st_lift (VerifyForConsensus ed25519_verify tx p height) ;;!
  let! fromAddr := st_lift (FromAddress tx) in
  let! st := st_get in
  let from := acct st fromAddr in
  st_lift (nonce_rule (tx_Nonce tx) (Nonce from)) ;;!
  let totalDebit := (tx_Amount tx + tx_Fee tx)%u64 in
  st_lift (fail_if (Balance from <? totalDebit) "insufficient funds") ;;!
  st_modify (fun st => <[fromAddr := mkAccount (Balance from - totalDebit)%u64
                                       (Z.max (Nonce from) (tx_Nonce tx))]> st) ;;!
  credit "transfer balance overflow" (tx_ToAddress tx) (tx_Amount tx).

Fixpoint tolerant_txs (nonce_rule : Z -> Z -> result unit) (p : ConsensusParams) (height : Z)
  (i : nat) (txs : list Transaction) : St State unit :=
  match txs with
  | [] => st_ret tt
  | tx :: txs' =>
      (if is_type tx TxCoinbase
       then st_lift (fail_if (negb (Nat.eqb i 0)) "coinbase must be first")
       else if is_type tx TxTransfer then tolerant_transfer nonce_rule p height tx
       else st_ret tt) ;;!
      tolerant_txs nonce_rule p height (S i) txs'
  end.

(** [nonceGap := int64(tx.Nonce) - int64(from.Nonce)], between 0 and 2. *)
Definition strict_nonce_rule (txNonce fromNonce : Z) : result unit :=
  let nonceGap := i64 (i64 txNonce - i64 fromNonce) in
  fail_if (nonceGap <? 0) "invalid nonce" ;;?
  fail_if (nonceGap >? 2) "excessive nonce gap".

Definition relaxed_nonce_rule (txNonce fromNonce : Z) : result unit :=
  fail_if (txNonce >? (fromNonce + 10)%u64) "excessive nonce gap".

Definition applyBlockToStateWithStrictTolerance (p : ConsensusParams) (mp : MonetaryPolicy)
  (b : Block) : St State unit :=
  st_lift (check_block_size p b) ;;!
  st_lift (fail_if (len (b_Transactions b) =? 0) "block has no transactions") ;;!
  tolerant_coinbase mp b 98 102 "coinbase reward outside strict tolerance bounds" ;;!
  tolerant_txs strict_nonce_rule p (GetHeight b) 0 (b_Transactions b).

Definition applyBlockToStateWithTolerance (p : ConsensusParams) (mp : MonetaryPolicy)
  (b : Block) : St State unit :=
  st_lift (check_block_size p b) ;;!
  st_lift (fail_if (len (b_Transactions b) =? 0) "block has no transactions") ;;!
  tolerant_coinbase mp b 90 110 "coinbase reward out of tolerance bounds" ;;!
  tolerant_txs relaxed_nonce_rule p (GetHeight b) 0 (b_Transactions b).

End Apply.

(** ** Merging a fork's state *)
Definition merge_strict (existing temp : option Account) : option Account :=
  match temp, existing with
  | None, _ => existing
  | Some t, None => Some t
  | Some t, Some e =>
      if (Balance t >? Balance e) && ((Balance t - Balance e)%u64 >? (Balance e / 10)%u64)
      then Some e
      else Some (mkAccount (Balance t) (Z.max (Nonce e) (Nonce t)))
  end.
Definition mergeStatesWithStrictValidation (current temp : State) : State :=
  merge merge_strict current temp.

Definition merge_fork_aware (existing temp : option Account) : option Account :=
  match temp, existing with
  | None, _ => existing
  | Some t, None => Some t
  | Some t, Some e =>
      if Nonce t >? Nonce e then Some (mkAccount (Balance e) (Nonce t)) else Some e
  end.
Definition mergeStatesWithForkAwareness (current temp : State) : State :=
  merge merge_fork_aware current temp.

(** The exact supply of a state, and Go's [uint64] sum of it. *)
Definition supply (st : State) : Z := map_fold (fun _ a acc => Balance a + acc) 0 st.

(** [validateStateIntegrity]; the overflow test of the running sum fails at some
    step exactly when the sum exceeds [uint64]. *)
Definition validateStateIntegrity (mp : MonetaryPolicy) (currentHeight : Z)
  (current new : State) : result unit :=
  fail_if (negb (bool_decide (map_Forall (fun _ a => Balance a <= max_i64) new)))
    "suspicious balance" ;;?
  fail_if (supply new >? max_u64) "total supply overflow detected" ;;?
  let existingSupply := u64 (supply current) in
  let maxAllowedIncrease := (BlockReward mp currentHeight * 2)%u64 in
  fail_if (supply new >? (existingSupply + maxAllowedIncrease)%u64) "excessive supply increase".

(** [Chain.TotalSupply] *)
Definition TotalSupply (blocks : list Block) : Z :=
  fold_left (fun total b =>
    match b_Transactions b with
    | cb :: _ => if is_type cb TxCoinbase then (total + tx_Amount cb)%u64 else total
    | [] => total
    end) blocks 0.

(** * Lemmas *)

(** ** Well-typed states and the supply *)
Definition acct_typed (a : Account) : Prop := is_u64 (Balance a) /\ is_u64 (Nonce a).
Definition st_typed (st : State) : Prop := map_Forall (fun _ a => acct_typed a) st.

Lemma acct_insert (st : State) (k a : string) (x : Account) :
  acct (<[k := x]> st) a = if decide (k = a) then x else acct st a.
Proof. unfold acct. case_decide; subst; [by rewrite lookup_insert_eq|by rewrite lookup_insert_ne]. Qed.

Lemma acct_is_typed (st : State) (a : string) : st_typed st -> acct_typed (acct st a).
Proof.
  intros H. unfold acct. destruct (st !! a) eqn:E; cbn; [by apply (H a)|].
  split; unfold_u64; cbn; lia.
Qed.

Lemma st_typed_insert (st : State) (k : string) (x : Account) :
  st_typed st -> acct_typed x -> st_typed (<[k := x]> st).
Proof. intros. by apply map_Forall_insert_2. Qed.

Lemma st_typed_empty : st_typed ∅.
Proof. apply map_Forall_empty. Qed.

Lemma supply_empty : supply ∅ = 0.
Proof. apply map_fold_empty. Qed.

Lemma supply_insert_fresh (st : State) (k : string) (x : Account) :
  st !! k = None -> supply (<[k := x]> st) = Balance x + supply st.
Proof. intros. unfold supply. rewrite map_fold_insert_L; [done|intros; lia|done]. Qed.

Lemma supply_insert (st : State) (k : string) (x : Account) :
  supply (<[k := x]> st) = supply st - Balance (acct st k) + Balance x.
Proof.
  unfold acct. destruct (st !! k) as [y|] eqn:E; cbn.
  - rewrite <- (insert_delete_id st k y E) at 2. rewrite <- (insert_delete_eq st k x).
    rewrite !supply_insert_fresh by apply lookup_delete_eq. lia.
  - rewrite supply_insert_fresh by done. lia.
Qed.

Lemma supply_nonneg (st : State) : st_typed st -> 0 <= supply st.
Proof.
  induction st as [|k x st Hk IH] using map_ind; [by rewrite supply_empty|].
  intros H. apply map_Forall_insert in H as [[Hb _] H]; [|done].
  rewrite supply_insert_fresh by done. specialize (IH H). unfold_u64. lia.
Qed.

#[export] Hint Resolve acct_is_typed st_typed_insert : go.

(** ** One credit *)
Lemma credit_ok (msg : error) (addr : string) (amount : Z) (st st' : State) (u : unit) :
  st_typed st -> is_u64 amount -> credit msg addr amount st = (st', Ok u) ->
  Balance (acct st addr) + amount <= max_u64 /\
  st' = <[addr := mkAccount (Balance (acct st addr) + amount) (Nonce (acct st addr))]> st.
Proof.
  intros Hst Ha H. unfold credit in H. destruct (acct_is_typed st addr Hst) as [Hb _].
  case_match eqn:E; [discriminate|]. injection H as <-. bool_to_prop.
  rewrite sub64_small in E by (unfold_u64; lia).
  rewrite add64_small by (unfold_u64; lia). split; [unfold_u64; lia|done].
Qed.

Lemma credit_typed (msg : error) (addr : string) (amount : Z) (st : State) :
  st_typed st -> is_u64 amount -> st_typed (fst (credit msg addr amount st)).
Proof.
  intros Hst Ha. unfold credit. case_match; cbn [fst]; [done|].
  apply st_typed_insert; [done|]. split; cbn; [apply u64_range|apply acct_is_typed, Hst].
Qed.

(** ** The accounting view of a transaction *)

(** What a transaction takes from and gives to an address, and how many times the
    address sends in it. *)
Definition sends (tx : Transaction) (a : string) : bool :=
  match FromAddress tx with Ok f => str_eqb f a | Err _ => false end.
Definition debit_of (tx : Transaction) (a : string) : Z :=
  if sends tx a then tx_Amount tx + tx_Fee tx else 0.
Definition credit_of (tx : Transaction) (a : string) : Z :=
  if str_eqb (tx_ToAddress tx) a then tx_Amount tx else 0.
Definition sent_count (tx : Transaction) (a : string) : Z := if sends tx a then 1 else 0.
(** Coins a transaction creates or burns. *)
Definition minted (tx : Transaction) : Z :=
  if is_type tx TxCoinbase then tx_Amount tx else - tx_Fee tx.

(** [st'] is [st] with the entries of [tx] posted. *)
Definition posted (tx : Transaction) (st st' : State) : Prop :=
  st_typed st' /\ supply st' = supply st + minted tx /\
  forall a, Balance (acct st' a) = Balance (acct st a) + credit_of tx a - debit_of tx a /\
            Nonce (acct st' a) = Nonce (acct st a) + sent_count tx a.

Lemma sends_coinbase (tx : Transaction) (a : string) :
  is_type tx TxCoinbase = true -> sends tx a = false.
Proof.
  unfold sends, FromAddress, is_type. intros H. apply str_eqb_spec in H. by rewrite H.
Qed.

Lemma credit_posts (msg : error) (addr : string) (amount : Z) (st st' : State) (u : unit) :
  st_typed st -> is_u64 amount -> credit msg addr amount st = (st', Ok u) ->
  st_typed st' /\ supply st' = supply st + amount /\
  forall a, Balance (acct st' a) = Balance (acct st a) + (if str_eqb addr a then amount else 0) /\
            Nonce (acct st' a) = Nonce (acct st a).
Proof.
  intros Hst Ha H. pose proof (acct_is_typed st addr Hst) as [Hb Hn].
  apply credit_ok in H as [Hle ->]; [|done..]. split_and!.
  - apply st_typed_insert; [done|]. split; cbn; unfold_u64; lia.
  - rewrite supply_insert. cbn. lia.
  - intros a. rewrite acct_insert. case_decide as D; subst.
    + rewrite str_eqb_refl. done.
    + destruct (str_eqb addr a) eqn:E; [by apply str_eqb_spec in E|]. lia.
Qed.

(** ** One transaction *)
Section Posting.
Context (ed : list Z -> list Z -> list Z -> bool) (p : ConsensusParams) (height : Z).

Lemma coinbase_posts (i : nat) (tx : Transaction) (st st' : State) (u : unit) :
  tx_typed tx -> st_typed st -> is_type tx TxCoinbase = true ->
  apply_coinbase_tx ed p height i tx st = (st', Ok u) -> posted tx st st'.
Proof.
  intros (_ & Ha & _) Hst Hc H. unfold apply_coinbase_tx in H. inv_st.
  apply credit_posts in H as (Ht & Hs & Hp); [|done..].
  split_and!; [done|unfold minted; by rewrite Hc|]. intros a.
  unfold credit_of, debit_of, sent_count. rewrite sends_coinbase by done.
  specialize (Hp a). lia.
Qed.

Lemma transfer_verified (tx : Transaction) (u : unit) :
  is_type tx TxTransfer = true -> VerifyForConsensus ed tx p height = Ok u -> tx_Nonce tx <> 0.
Proof.
  intros Ht H. unfold VerifyForConsensus in H. rewrite Ht in H.
  assert (Hn : is_type tx TxCoinbase = false)
    by (unfold is_type in *; apply str_eqb_spec in Ht; by rewrite Ht).
  rewrite Hn in H. unfold verifyTransferForConsensus, verify_transfer_with in H.
  inv_result. by bool_to_prop.
Qed.

(** The guards a successful transfer has passed and the state it leaves. *)
Lemma transfer_ok (tx : Transaction) (st st' : State) (u : unit) :
  tx_typed tx -> st_typed st -> is_type tx TxTransfer = true ->
  apply_transfer_tx ed p height tx st = (st', Ok u) ->
  exists from, FromAddress tx = Ok from /\
    tx_Nonce tx = Nonce (acct st from) + 1 /\
    tx_Amount tx + tx_Fee tx <= Balance (acct st from) /\
    credit "transfer balance overflow" (tx_ToAddress tx) (tx_Amount tx)
      (<[from := mkAccount (Balance (acct st from) - (tx_Amount tx + tx_Fee tx)) (tx_Nonce tx)]> st)
    = (st', Ok u).
Proof.
  intros (_ & Ha & Hf & Hn & _) Hst Ht H. unfold apply_transfer_tx in H. inv_st. bool_to_prop.
  match goal with E : VerifyForConsensus _ _ _ _ = _ |- _ => apply transfer_verified in E; [|done] end.
  match goal with E : FromAddress _ = Ok ?f |- _ => exists f; destruct (acct_is_typed st f Hst) as [Hb Hno] end.
  rewrite sub64_small in * by (unfold_u64; lia).
  rewrite (add64_small (tx_Amount tx)) in * by (unfold_u64; lia).
  rewrite sub64_small in H by (unfold_u64; lia).
  split_and!; [done| |lia|done].
  match goal with E : (_ + 1)%u64 = _ |- _ => rewrite <- E in *; unfold_u64 end.
  Z.to_euclidean_division_equations. lia.
Qed.

Lemma transfer_posts (tx : Transaction) (st st' : State) (u : unit) :
  tx_typed tx -> st_typed st -> is_type tx TxTransfer = true ->
  apply_transfer_tx ed p height tx st = (st', Ok u) -> posted tx st st'.
Proof.
  intros Hx Hst Ht H. destruct (transfer_ok tx st st' u Hx Hst Ht H) as (f & Hf & Hn & Hle & Hc).
  destruct Hx as (_ & Ha & Hfee & Hno & _). destruct (acct_is_typed st f Hst) as [Hb Hbn].
  assert (Hnc : is_type tx TxCoinbase = false)
    by (unfold is_type in *; apply str_eqb_spec in Ht; by rewrite Ht).
  apply credit_posts in Hc as (Hty & Hs & Hp); [| |done].
  2: { apply st_typed_insert; [done|]. split; cbn; unfold_u64; lia. }
  split_and!; [done| |].
  - rewrite Hs, supply_insert. cbn. unfold minted. rewrite Hnc. lia.
  - intros a. specialize (Hp a). rewrite acct_insert in Hp.
    unfold debit_of, credit_of, sent_count, sends. rewrite Hf.
    destruct (str_eqb f a) eqn:E; case_decide as D; cbn in Hp;
      try (apply str_eqb_spec in E); try congruence; subst;
      rewrite ?str_eqb_refl in *; try discriminate; lia.
Qed.

Lemma tx_posts (i : nat) (tx : Transaction) (st st' : State) (u : unit) :
  tx_typed tx -> st_typed st -> apply_tx ed p height i tx st = (st', Ok u) -> posted tx st st'.
Proof.
  intros Hx Hst H. unfold apply_tx in H. destruct (is_type tx TxCoinbase) eqn:Hc.
  - by eapply coinbase_posts.
  - destruct (is_type tx TxTransfer) eqn:Ht; [by eapply transfer_posts|discriminate].
Qed.

(** ** A list of transactions *)
Definition posted_all (txs : list Transaction) (st st' : State) : Prop :=
  st_typed st' /\ supply st' = supply st + sumZ (map minted txs) /\
  forall a,
    Balance (acct st' a) = Balance (acct st a) + sumZ (map (fun tx => credit_of tx a) txs)
                           - sumZ (map (fun tx => debit_of tx a) txs) /\
    Nonce (acct st' a) = Nonce (acct st a) + sumZ (map (fun tx => sent_count tx a) txs).

Lemma txs_post (i : nat) (txs : list Transaction) (st st' : State) (u : unit) :
  Forall tx_typed txs -> st_typed st ->
  apply_txs ed p height i txs st = (st', Ok u) -> posted_all txs st st'.
Proof.
  intros Hx. revert i st. induction Hx as [|tx txs Hx _ IH]; intros i st Hst H.
  - cbn in H. inv_st. split_and!; [done|cbn; lia|intros a; cbn; lia].
  - cbn [apply_txs] in H. inv_st.
    match goal with E : apply_tx _ _ _ _ _ _ = _ |- _ =>
      apply tx_posts in E as (Ht1 & Hs1 & Hp1); [|done..] end.
    apply IH in H as (Ht2 & Hs2 & Hp2); [|done].
    split_and!; [done|cbn [map sumZ foldr] in *; unfold sumZ in *; lia|].
    intros a. specialize (Hp1 a). specialize (Hp2 a). cbn [map]. unfold sumZ in *. cbn. lia.
Qed.

End Posting.

(** ** A block *)
Definition block_typed (b : Block) : Prop :=
  0 <= b_Height b /\ Forall tx_typed (b_Transactions b).

(** What a block pays to the genesis address. *)
Definition genesis_reward (mp : MonetaryPolicy) (height : Z) : Z :=
  if height >? 0 then (BlockReward mp height * GenesisShare mp / 100)%u64 else 0.
Definition genesis_credit (mp : MonetaryPolicy) (b : Block) (genesisAddress a : string) : Z :=
  if str_eqb genesisAddress a then genesis_reward mp (GetHeight b) else 0.

Definition transfer_fees (txs : list Transaction) : Z :=
  sumZ (map (fun tx => if is_type tx TxTransfer then tx_Fee tx else 0) txs).

Lemma div64_100_range (z : Z) : is_u64 z -> is_u64 (z / 100)%u64.
Proof. unfold div64. unfold_u64. Z.to_euclidean_division_equations. lia. Qed.

Lemma genesis_reward_range (mp : MonetaryPolicy) (h : Z) : is_u64 (genesis_reward mp h).
Proof.
  unfold genesis_reward. case_match; [apply div64_100_range, u64_range|unfold_u64; lia].
Qed.

Section BlockPosting.
Context (ed : list Z -> list Z -> list Z -> bool) (p : ConsensusParams) (mp : MonetaryPolicy)
  (g : string).

(** The economics step: it pays the genesis address and nothing else. *)
Lemma economics_ok (b : Block) (cb : Transaction) (rest : list Transaction)
  (st st' : State) (u : unit) :
  b_Transactions b = cb :: rest -> st_typed st -> GetHeight b > 0 ->
  check_economics mp b g st = (st', Ok u) ->
  ValidateAddress (b_MinerAddress b) = Ok tt /\ tx_ToAddress cb = b_MinerAddress b /\
  tx_Amount cb = coinbase_expected mp (GetHeight b) (sum_fees rest) /\
  st_typed st' /\ supply st' = supply st + genesis_reward mp (GetHeight b) /\
  forall a, Balance (acct st' a) = Balance (acct st a) + genesis_credit mp b g a /\
            Nonce (acct st' a) = Nonce (acct st a).
Proof.
  intros Hb Hst Hh H. unfold check_economics in H. rewrite Hb in H. inv_st. bool_to_prop.
  match goal with E : str_eqb _ _ = true |- _ => apply str_eqb_spec in E end.
  repeat match goal with v : unit |- _ => destruct v end.
  assert (Eg : (BlockReward mp (GetHeight b) * GenesisShare mp / 100)%u64
               = genesis_reward mp (GetHeight b)).
  { unfold genesis_reward. by replace (GetHeight b >? 0) with true by lia. }
  rewrite Eg in H. unfold genesis_credit.
  pose proof (genesis_reward_range mp (GetHeight b)) as Hr.
  do 3 (split; [done|]). destruct (genesis_reward mp (GetHeight b) >? 0) eqn:Epos.
  - apply credit_posts in H as (? & ? & Hp); auto.
  - inv_st. bool_to_prop. unfold_u64. split_and!; [done|lia|]. intros a. case_match; lia.
Qed.

(** Only the first transaction of an applied block is a coinbase. *)
Lemma applied_tail_transfers (h : Z) (i : nat) (txs : list Transaction) (st st' : State) (u : unit) :
  apply_txs ed p h (S i) txs st = (st', Ok u) ->
  Forall (fun tx => is_type tx TxCoinbase = false /\ is_type tx TxTransfer = true) txs.
Proof.
  revert i st. induction txs as [|tx txs IH]; intros i st H; constructor;
    cbn [apply_txs] in H; inv_st; [|by eapply IH].
  match goal with E : apply_tx _ _ _ _ _ _ = _ |- _ => unfold apply_tx in E end.
  destruct (is_type tx TxCoinbase) eqn:Hc.
  - match goal with E : apply_coinbase_tx _ _ _ _ _ _ = _ |- _ =>
      unfold apply_coinbase_tx in E; cbn [Nat.eqb negb fail_if] in E; inv_st end.
  - destruct (is_type tx TxTransfer); [done|inv_st].
Qed.

Lemma sum_fees_le (txs : list Transaction) (acc : Z) :
  Forall tx_typed txs -> is_u64 acc ->
  0 <= fold_left (fun fees tx => if is_type tx TxTransfer then (fees + tx_Fee tx)%u64 else fees)
         txs acc <= acc + transfer_fees txs.
Proof.
  intros Hx. revert acc. unfold transfer_fees, sumZ.
  induction Hx as [|tx txs (_ & _ & Hf & _) _ IH]; intros acc Ha; cbn; [unfold_u64; lia|].
  destruct (is_type tx TxTransfer).
  - specialize (IH (acc + tx_Fee tx)%u64 (u64_range _)). unfold_u64.
    Z.to_euclidean_division_equations. lia.
  - specialize (IH acc Ha). lia.
Qed.

Lemma minted_transfers (txs : list Transaction) :
  Forall (fun tx => is_type tx TxCoinbase = false /\ is_type tx TxTransfer = true) txs ->
  sumZ (map minted txs) = - transfer_fees txs.
Proof.
  unfold transfer_fees, sumZ, minted.
  induction 1 as [|tx txs [Hc Ht] _ IH]; cbn; [done|]. rewrite Hc, Ht. lia.
Qed.

(** The whole block: the shape of its transactions and the entries it posts. *)
Lemma block_posts (b : Block) (st st' : State) (u : unit) :
  block_typed b -> st_typed st ->
  applyBlockToState ed p mp b g st = (st', Ok u) ->
  exists cb rest, b_Transactions b = cb :: rest /\ is_type cb TxCoinbase = true /\
    Forall (fun tx => is_type tx TxCoinbase = false /\ is_type tx TxTransfer = true) rest /\
    (GetHeight b > 0 ->
       ValidateAddress (b_MinerAddress b) = Ok tt /\ tx_ToAddress cb = b_MinerAddress b /\
       tx_Amount cb = coinbase_expected mp (GetHeight b) (sum_fees rest)) /\
    st_typed st' /\
    supply st' = supply st + genesis_reward mp (GetHeight b) + tx_Amount cb - transfer_fees rest /\
    forall a,
      Balance (acct st' a) = Balance (acct st a) + genesis_credit mp b g a
        + sumZ (map (fun tx => credit_of tx a) (cb :: rest))
        - sumZ (map (fun tx => debit_of tx a) rest) /\
      Nonce (acct st' a) = Nonce (acct st a) + sumZ (map (fun tx => sent_count tx a) rest).
Proof.
  intros [Hh Hx] Hst H. unfold applyBlockToState in H. inv_st.
  unfold first_is_coinbase in *. bool_to_prop.
  destruct (b_Transactions b) as [|cb rest] eqn:Eb; [done|].
  assert (Htail := H). cbn [apply_txs] in Htail. inv_st. apply applied_tail_transfers in Htail.
  assert (Hc : exists s1, apply_txs ed p (GetHeight b) 0 (cb :: rest) s1 = (st', Ok u) /\
    (GetHeight b > 0 ->
       ValidateAddress (b_MinerAddress b) = Ok tt /\ tx_ToAddress cb = b_MinerAddress b /\
       tx_Amount cb = coinbase_expected mp (GetHeight b) (sum_fees rest)) /\
    st_typed s1 /\ supply s1 = supply st + genesis_reward mp (GetHeight b) /\
    forall a, Balance (acct s1 a) = Balance (acct st a) + genesis_credit mp b g a /\
              Nonce (acct s1 a) = Nonce (acct st a)).
  { eexists. split; [exact H|]. destruct (GetHeight b >? 0) eqn:Eh.
    - match goal with E : check_economics _ _ _ _ = _ |- _ =>
        apply (economics_ok b cb rest) in E as (? & ? & ? & ? & ? & ?); [|done|done|lia] end.
      auto.
    - inv_st. unfold genesis_credit, genesis_reward. rewrite Eh.
      split_and!; [lia|done|lia|intros a; case_match; lia]. }
  destruct Hc as (s1 & H1 & He & Ht1 & Hs1 & Hp1). clear H.
  apply txs_post in H1 as (Ht & Hs & Hp); [|done..].
  exists cb, rest. do 5 (split; [done|]). split.
  - pose proof (minted_transfers rest Htail) as Hm. rewrite Hs, Hs1. unfold sumZ in *.
    cbn [map foldr]. rewrite Hm. unfold minted.
    match goal with E : is_type cb TxCoinbase = true |- _ => rewrite E end. lia.
  - intros a. specialize (Hp a). specialize (Hp1 a). destruct Hp as [Hp Hn].
    cbn [map] in Hp, Hn. unfold sumZ in *. cbn [foldr] in *.
    unfold debit_of at 1 in Hp. unfold sent_count at 1 in Hn.
    rewrite sends_coinbase in Hp, Hn by done. cbn [map foldr]. lia.
Qed.

End BlockPosting.

(** ** Typing is kept on every path *)
Section Typing.
Context (ed : list Z -> list Z -> list Z -> bool) (p : ConsensusParams).

Lemma credit_preserves (msg : error) (addr : string) (amount : Z) :
  is_u64 amount -> preserves st_typed (credit msg addr amount).
Proof. intros Ha st Hst. by apply credit_typed. Qed.

Lemma transfer_preserves (h : Z) (tx : Transaction) :
  tx_typed tx -> preserves st_typed (apply_transfer_tx ed p h tx).
Proof.
  intros (_ & Ha & _ & Hn & _). unfold apply_transfer_tx.
  apply preserves_bind; [auto with go|intros _].
  apply preserves_bind; [auto with go|intros f].
  apply preserves_get_bind. intros st Hst.
  do 3 (apply lift_bind_state; [done|intros _ _]).
  unfold st_bind, st_modify. apply credit_typed; [|done].
  apply st_typed_insert; [done|]. split; cbn; [apply u64_range|done].
Qed.

Lemma tx_preserves (h : Z) (i : nat) (tx : Transaction) :
  tx_typed tx -> preserves st_typed (apply_tx ed p h i tx).
Proof.
  intros Hx. pose proof Hx as (_ & Ha & _). unfold apply_tx, apply_coinbase_tx.
  auto 7 using transfer_preserves, credit_preserves with go.
Qed.

Lemma txs_preserve (h : Z) (i : nat) (txs : list Transaction) :
  Forall tx_typed txs -> preserves st_typed (apply_txs ed p h i txs).
Proof.
  intros Hx. revert i. induction Hx; intros i; cbn [apply_txs];
    auto using tx_preserves with go.
Qed.

Lemma block_preserves (mp : MonetaryPolicy) (b : Block) (g : string) :
  block_typed b -> preserves st_typed (applyBlockToState ed p mp b g).
Proof.
  intros [_ Hx]. unfold applyBlockToState, check_economics.
  repeat (apply preserves_bind; [auto with go|intros _]).
  - apply preserves_if; [|auto with go]. apply preserves_bind; [auto with go|intros _].
    destruct (b_Transactions b); [auto with go|].
    repeat (apply preserves_bind; [auto with go|intros _]).
    apply preserves_if; [|auto with go]. apply credit_preserves, div64_100_range, u64_range.
  - by apply txs_preserve.
Qed.

End Typing.

(** ** Nonces over time *)
Section Nonces.
Context (ed : list Z -> list Z -> list Z -> bool) (p : ConsensusParams) (mp : MonetaryPolicy)
  (g : string).

Lemma sent_sum_nonneg (txs : list Transaction) (a : string) :
  0 <= sumZ (map (fun tx => sent_count tx a) txs).
Proof.
  apply sumZ_nonneg, list.Forall_forall. intros z Hz.
  apply list_elem_of_fmap in Hz as (tx & -> & _). unfold sent_count. case_match; lia.
Qed.

(** A transfer applied among others uses a nonce above the sender's old one and at
    most its new one. *)
Lemma txs_nonce_window (h : Z) (i : nat) (txs : list Transaction) (tx : Transaction)
  (f : string) (st st' : State) (u : unit) :
  Forall tx_typed txs -> st_typed st -> tx ∈ txs -> is_type tx TxTransfer = true ->
  FromAddress tx = Ok f -> apply_txs ed p h i txs st = (st', Ok u) ->
  Nonce (acct st f) < tx_Nonce tx <= Nonce (acct st' f).
Proof.
  intros Hx. revert i st. induction Hx as [|t txs Ht Hx IH]; intros i st Hst Hin Hty Hf H.
  - by apply not_elem_of_nil in Hin.
  - cbn [apply_txs] in H. inv_st. rename S into E1.
    pose proof (tx_posts _ _ _ _ _ _ _ _ Ht Hst E1) as (Hst1 & _ & Hp). specialize (Hp f).
    apply elem_of_cons in Hin as [->|Hin].
    + apply txs_post in H as (_ & _ & Hp2); [|done..]. specialize (Hp2 f).
      pose proof (sent_sum_nonneg txs f).
      assert (Hc : is_type t TxCoinbase = false)
        by (unfold is_type in *; apply str_eqb_spec in Hty; by rewrite Hty).
      unfold apply_tx in E1. rewrite Hc, Hty in E1.
      destruct (transfer_ok _ _ _ _ _ _ _ Ht Hst Hty E1) as (f' & Hf' & Hn & _).
      rewrite Hf in Hf'. injection Hf' as <-.
      assert (Hs : sent_count t f = 1)
        by (unfold sent_count, sends; by rewrite Hf, str_eqb_refl).
      lia.
    + specialize (IH _ _ Hst1 Hin Hty Hf H).
      assert (0 <= sent_count t f) by (unfold sent_count; case_match; lia). lia.
Qed.

Lemma block_nonce_window (b : Block) (tx : Transaction) (f : string) (st st' : State) (u : unit) :
  block_typed b -> st_typed st -> tx ∈ b_Transactions b -> is_type tx TxTransfer = true ->
  FromAddress tx = Ok f -> applyBlockToState ed p mp b g st = (st', Ok u) ->
  Nonce (acct st f) < tx_Nonce tx <= Nonce (acct st' f).
Proof.
  intros [Hh Hx] Hst Hin Hty Hf H. unfold applyBlockToState in H. inv_st.
  match goal with E : (if _ then check_economics _ _ _ else _) st = (?s, _) |- _ =>
    assert (Hs : st_typed s /\ Nonce (acct s f) = Nonce (acct st f)) end.
  { destruct (GetHeight b >? 0) eqn:Eh; inv_st; [|done].
    destruct (b_Transactions b) as [|cb rest] eqn:Eb; [by apply not_elem_of_nil in Hin|].
    match goal with E : check_economics _ _ _ _ = _ |- _ =>
      apply (economics_ok mp g b cb rest) in E as (_ & _ & _ & ? & _ & Hp); [|done|done|lia] end.
    split; [done|]. apply Hp. }
  destruct Hs as [Hs Hn]. rewrite <- Hn. by eapply txs_nonce_window.
Qed.

Lemma txs_from (h : Z) (i : nat) (txs : list Transaction) (tx : Transaction)
  (st st' : State) (u : unit) :
  tx ∈ txs -> is_type tx TxTransfer = true -> apply_txs ed p h i txs st = (st', Ok u) ->
  exists f, FromAddress tx = Ok f.
Proof.
  revert i st. induction txs as [|t txs IH]; intros i st Hin Hty H.
  - by apply not_elem_of_nil in Hin.
  - cbn [apply_txs] in H. inv_st. apply elem_of_cons in Hin as [->|Hin]; [|by eapply IH].
    assert (Hc : is_type t TxCoinbase = false)
      by (unfold is_type in *; apply str_eqb_spec in Hty; by rewrite Hty).
    match goal with E : apply_tx _ _ _ _ _ _ = _ |- _ =>
      unfold apply_tx in E; rewrite Hc, Hty in E; unfold apply_transfer_tx in E; inv_st end.
    eauto.
Qed.

Lemma wrap_ok {A : Type} (ctx : string) (m : result A) (a : A) : wrap ctx m = Ok a -> m = Ok a.
Proof. destruct m; cbn; congruence. Qed.

(** One block of [apply_blocks]. *)
Lemma apply_blocks_cons (b : Block) (bs : list Block) (st st' : State) (u : unit) :
  apply_blocks ed p mp g (b :: bs) st = (st', Ok u) ->
  exists st1 v, applyBlockToState ed p mp b g st = (st1, Ok v) /\
    apply_blocks ed p mp g bs st1 = (st', Ok u).
Proof.
  intros H. cbn [apply_blocks] in H. apply st_bind_ok in H as (st1 & v & E & H).
  destruct (applyBlockToState ed p mp b g st) as [s r] eqn:Eb.
  injection E as -> E. apply wrap_ok in E as ->. eauto.
Qed.

Lemma apply_blocks_typed (bs : list Block) (st st' : State) (u : unit) :
  Forall block_typed bs -> st_typed st -> apply_blocks ed p mp g bs st = (st', Ok u) ->
  st_typed st' /\ forall a, Nonce (acct st a) <= Nonce (acct st' a).
Proof.
  intros Hb. revert st. induction Hb as [|b bs Hb _ IH]; intros st Hst H.
  - cbn in H. inv_st. split; [done|intros; lia].
  - apply apply_blocks_cons in H as (st1 & v & E & H).
    apply block_posts in E as (cb & rest & _ & _ & _ & _ & Ht & _ & Hp); [|done..].
    apply IH in H as [Ht' Hn]; [|done]. split; [done|]. intros a.
    specialize (Hp a). specialize (Hn a). pose proof (sent_sum_nonneg rest a). lia.
Qed.

Lemma blocks_nonce_bound (bs : list Block) (b : Block) (tx : Transaction) (f : string)
  (st st' : State) (u : unit) :
  Forall block_typed bs -> st_typed st -> b ∈ bs -> tx ∈ b_Transactions b ->
  is_type tx TxTransfer = true -> FromAddress tx = Ok f ->
  apply_blocks ed p mp g bs st = (st', Ok u) -> tx_Nonce tx <= Nonce (acct st' f).
Proof.
  intros Hb. revert st. induction Hb as [|b' bs Hb' Hb IH]; intros st Hst Hin Htx Hty Hf H.
  - by apply not_elem_of_nil in Hin.
  - apply apply_blocks_cons in H as (st1 & v & E & H).
    assert (Hst1 : st_typed st1).
    { apply block_posts in E as (? & ? & _ & _ & _ & _ & Ht & _); done. }
    apply elem_of_cons in Hin as [->|Hin]; [|by eapply IH].
    apply apply_blocks_typed in H as [_ Hn]; [|done..]. specialize (Hn f).
    eapply block_nonce_window in E; [|done..]. lia.
Qed.

End Nonces.

(** ** The supply of a recomputed chain *)
Definition coinbase_amount (b : Block) : Z :=
  match b_Transactions b with cb :: _ => tx_Amount cb | [] => 0 end.
Definition block_fees (b : Block) : Z := transfer_fees (tail (b_Transactions b)).
Definition block_issue (mp : MonetaryPolicy) (b : Block) : Z :=
  genesis_reward mp (GetHeight b) + coinbase_amount b - block_fees b.

Lemma blocks_supply (ed : list Z -> list Z -> list Z -> bool) (p : ConsensusParams)
  (mp : MonetaryPolicy) (g : string) (bs : list Block) (st st' : State) (u : unit) :
  Forall block_typed bs -> st_typed st -> apply_blocks ed p mp g bs st = (st', Ok u) ->
  supply st' = supply st + sumZ (map (block_issue mp) bs).
Proof.
  intros Hb. revert st. induction Hb as [|b bs Hb _ IH]; intros st Hst H.
  - cbn in H. inv_st. cbn. lia.
  - apply apply_blocks_cons in H as (st1 & v & E & H).
    apply block_posts in E as (cb & rest & Hcb & _ & _ & _ & Ht & Hs & _); [|done..].
    apply IH in H; [|done]. unfold sumZ in *. cbn [map foldr].
    assert (Hbi : block_issue mp b
                  = genesis_reward mp (GetHeight b) + tx_Amount cb - transfer_fees rest)
      by (unfold block_issue, coinbase_amount, block_fees; by rewrite Hcb).
    lia.
Qed.

Lemma TotalSupply_sum (ed : list Z -> list Z -> list Z -> bool) (p : ConsensusParams)
  (mp : MonetaryPolicy) (g : string) (bs : list Block) (st st' : State) (u : unit) (acc : Z) :
  Forall block_typed bs -> st_typed st -> apply_blocks ed p mp g bs st = (st', Ok u) ->
  u64 (fold_left (fun total b =>
    match b_Transactions b with
    | cb :: _ => if is_type cb TxCoinbase then (total + tx_Amount cb)%u64 else total
    | [] => total
    end) bs acc) = u64 (acc + sumZ (map coinbase_amount bs)).
Proof.
  intros Hb. revert st acc. induction Hb as [|b bs Hb _ IH]; intros st acc Hst H.
  - cbn. f_equal. lia.
  - apply apply_blocks_cons in H as (st1 & v & E & H).
    apply block_posts in E as (cb & rest & Hcb & Hc & _ & _ & Ht & _); [|done..].
    assert (Hca : coinbase_amount b = tx_Amount cb) by (unfold coinbase_amount; by rewrite Hcb).
    cbn [fold_left map]. rewrite (IH st1) by done. rewrite Hca, Hcb, Hc.
    unfold sumZ. cbn [foldr]. unfold add64, u64. rewrite Zplus_mod_idemp_l. f_equal. lia.
Qed.

Lemma u64_le (z : Z) : 0 <= z -> 0 <= u64 z <= z.
Proof. unfold_u64. intros. Z.to_euclidean_division_equations. lia. Qed.

(** Wrap-around only ever lowers the amount the coinbase may claim. *)
Lemma coinbase_expected_le (mp : MonetaryPolicy) (h fees : Z) :
  policy_typed mp -> 0 <= h -> MinerFeeShare mp <= 100 -> 0 <= fees ->
  0 <= coinbase_expected mp h fees <= BlockReward mp h * MinerRewardShare mp / 100 + fees.
Proof.
  intros Hp Hh Hs Hf. pose proof (BlockReward_range mp h Hp Hh) as Hr.
  destruct Hp as (_ & _ & _ & _ & _ & _ & Hms & Hm & _). unfold is_byte in *.
  unfold coinbase_expected, MinerFeeAmount, add64, mul64, div64.
  assert (H0 : 0 <= BlockReward mp h * MinerRewardShare mp) by nia.
  pose proof (u64_le _ H0) as Hu.
  assert (Hd : 0 <= u64 (BlockReward mp h * MinerRewardShare mp) / 100
               <= BlockReward mp h * MinerRewardShare mp / 100).
  { split; [apply Z.div_pos; lia|apply Z.div_le_mono; lia]. }
  assert (Hfee : 0 <= (if (MinerFeeShare mp =? 0) || (fees =? 0) then 0
                       else u64 (fees * MinerFeeShare mp) / 100) <= fees).
  { case_match; [lia|]. assert (H1 : 0 <= fees * MinerFeeShare mp) by nia.
    pose proof (u64_le _ H1). split; [apply Z.div_pos; lia|].
    apply Z.div_le_upper_bound; nia. }
  match goal with |- 0 <= u64 ?z <= _ => pose proof (u64_le z ltac:(lia)) end. lia.
Qed.

Lemma genesis_reward_le (mp : MonetaryPolicy) (h : Z) :
  policy_typed mp -> 0 <= h -> 0 <= genesis_reward mp h <= BlockReward mp h * GenesisShare mp / 100.
Proof.
  intros Hp Hh. pose proof (BlockReward_range mp h Hp Hh) as Hr.
  destruct Hp as (_ & _ & _ & _ & _ & _ & _ & _ & _ & Hg & _). unfold is_byte in *.
  assert (H0 : 0 <= BlockReward mp h * GenesisShare mp) by nia. pose proof (u64_le _ H0).
  unfold genesis_reward, mul64, div64. case_match.
  - split; [apply Z.div_pos; lia|apply Z.div_le_mono; lia].
  - split; [lia|apply Z.div_pos; lia].
Qed.

Lemma Validate_fee_share (mp : MonetaryPolicy) :
  MonetaryPolicy_Validate mp = Ok tt -> MinerFeeShare mp <= 100.
Proof. intros H. unfold MonetaryPolicy_Validate in H. inv_result. bool_to_prop. lia. Qed.

(** ** A block that fails late *)
Definition append_tx (b : Block) (tx : Transaction) : Block :=
  mkBlock (b_Hash b) (b_Height b) (b_Header b) (b_Transactions b ++ [tx]) (b_CoinbaseTx b)
    (b_MinerAddress b) (b_TotalWork b).

Lemma apply_txs_snoc (ed : list Z -> list Z -> list Z -> bool) (p : ConsensusParams) (h : Z)
  (i : nat) (txs : list Transaction) (tx : Transaction) (st : State) :
  apply_txs ed p h i (txs ++ [tx]) st
  = (apply_txs ed p h i txs ;;! apply_tx ed p h (i + length txs) tx) st.
Proof.
  revert i st. induction txs as [|t txs IH]; intros i st.
  - cbn [app apply_txs]. unfold st_bind, st_ret. rewrite Nat.add_0_r.
    destruct (apply_tx _ _ _ _ _ _) as [s [[]|]]; done.
  - cbn [app apply_txs length]. unfold st_bind at 1 3.
    destruct (apply_tx ed p h i t st) as [s [[]|e]] eqn:E.
    + rewrite IH. unfold st_bind at 2. rewrite E. by rewrite Nat.add_succ_r.
    + unfold st_bind. by rewrite E.
Qed.

Lemma sum_fees_snoc (txs : list Transaction) (tx : Transaction) :
  is_type tx TxTransfer = false -> sum_fees (txs ++ [tx]) = sum_fees txs.
Proof. intros H. unfold sum_fees. rewrite fold_left_app. cbn. by rewrite H. Qed.

(** A tolerant transfer whose checks pass is a debit followed by a credit. *)
Lemma tolerant_transfer_iff (ed : list Z -> list Z -> list Z -> bool)
  (rule : Z -> Z -> result unit) (p : ConsensusParams) (h : Z) (tx : Transaction)
  (from : string) (st st' : State) :
  FromAddress tx = Ok from ->
  tolerant_transfer ed rule p h tx st = (st', Ok tt) <->
  VerifyForConsensus ed tx p h = Ok tt /\
  rule (tx_Nonce tx) (Nonce (acct st from)) = Ok tt /\
  (tx_Amount tx + tx_Fee tx)%u64 <= Balance (acct st from) /\
  credit "transfer balance overflow" (tx_ToAddress tx) (tx_Amount tx)
    (<[from := mkAccount (Balance (acct st from) - (tx_Amount tx + tx_Fee tx))%u64
                 (Z.max (Nonce (acct st from)) (tx_Nonce tx))]> st) = (st', Ok tt).
Proof.
  intros Hf. unfold tolerant_transfer. split.
  - intros H. inv_st. bool_to_prop.
    match goal with E : FromAddress tx = Ok ?f |- _ => rewrite Hf in E; injection E as <- end.
    repeat match goal with v : unit |- _ => destruct v end. split_and!; eauto.
  - intros (Hv & Hr & Hb & Hc).
    unfold st_bind, st_lift, st_get, st_modify. rewrite Hv, Hf, Hr.
    by rewrite (proj2 (Z.ltb_ge _ _) Hb), Hc.
Qed.

Lemma credit_run (msg : error) (addr : string) (amount : Z) (st : State) :
  st_typed st -> is_u64 amount -> Balance (acct st addr) + amount <= max_u64 ->
  credit msg addr amount st
  = (<[addr := mkAccount (Balance (acct st addr) + amount) (Nonce (acct st addr))]> st, Ok tt).
Proof.
  intros Hst Ha Hle. destruct (acct_is_typed st addr Hst) as [Hb _]. unfold credit.
  rewrite sub64_small, add64_small by (unfold_u64; lia).
  by replace (_ >? _) with false by (unfold_u64; lia).
Qed.

(** ** The comparison of states *)
Lemma validateState_spec (ed : list Z -> list Z -> list Z -> bool) (p : ConsensusParams)
  (mp : MonetaryPolicy) (g : string) (bs : list Block) (current : State) :
  validateState ed p mp g bs current = Ok tt <-> recomputeState ed p mp g bs = (current, Ok tt).
Proof.
  unfold validateState, recomputeState.
  destruct (apply_blocks ed p mp g bs ∅) as [r [[]|e]]; [|split; discriminate]. split.
  - intros H. inv_result. bool_to_prop.
    match goal with E : Nat.eqb _ _ = true |- _ => apply Nat.eqb_eq in E end.
    assert (Hsub : current ⊆ r).
    { apply map_subseteq_spec. intros k x Hk.
      match goal with E : map_Forall _ _ |- _ => by apply E in Hk end. }
    rewrite (map_subseteq_size_eq current r) by (done || lia). done.
  - intros H. injection H as ->. rewrite Nat.eqb_refl. cbn [negb fail_if result_bind].
    rewrite bool_decide_eq_true_2; [done|]. by intros k x Hk.
Qed.

(** * Properties *)

(** C1. An accepted block does exactly its accounting: it starts with one coinbase
    followed by transfers only, every address's balance changes by the genesis share
    plus what the block pays it minus what it sends and pays in fees, every nonce
    grows by the number of transfers sent, and the supply changes by what is issued
    minus the fees. *)
Theorem ledger_block_effect (ed : list Z -> list Z -> list Z -> bool) (p : ConsensusParams)
  (mp : MonetaryPolicy) (g : string) (b : Block) (st st' : State)
  (Hb : block_typed b) (Hst : st_typed st)
  (H : applyBlockToState ed p mp b g st = (st', Ok tt)) :
  exists cb rest, b_Transactions b = cb :: rest /\ is_type cb TxCoinbase = true /\
    Forall (fun tx => is_type tx TxCoinbase = false /\ is_type tx TxTransfer = true) rest /\
    supply st' = supply st + genesis_reward mp (GetHeight b) + tx_Amount cb - transfer_fees rest /\
    forall a,
      Balance (acct st' a) = Balance (acct st a) + genesis_credit mp b g a
        + sumZ (map (fun tx => credit_of tx a) (cb :: rest))
        - sumZ (map (fun tx => debit_of tx a) rest) /\
      Nonce (acct st' a) = Nonce (acct st a) + sumZ (map (fun tx => sent_count tx a) rest).
Proof.
  destruct (block_posts ed p mp g b st st' tt Hb Hst H)
    as (cb & rest & ? & ? & ? & _ & _ & ? & ?).
  by exists cb, rest.
Qed.

(** C2. Bounded issuance: under a validated monetary policy no accepted block above
    the genesis block raises the total supply by more than that height's block
    reward, whatever the fees and even where the [uint64] arithmetic wraps. *)
Theorem supply_growth_bounded (ed : list Z -> list Z -> list Z -> bool) (p : ConsensusParams)
  (mp : MonetaryPolicy) (g : string) (b : Block) (st st' : State)
  (Hmp : policy_typed mp) (Hv : MonetaryPolicy_Validate mp = Ok tt)
  (Hb : block_typed b) (Hst : st_typed st) (Hh : 0 < GetHeight b)
  (H : applyBlockToState ed p mp b g st = (st', Ok tt)) :
  supply st' <= supply st + BlockReward mp (GetHeight b).
Proof.
  pose proof Hb as [_ Hx].
  destruct (block_posts ed p mp g b st st' tt Hb Hst H)
    as (cb & rest & Htx & _ & _ & He & _ & Hs & _).
  destruct He as (_ & _ & Ha); [lia|]. rewrite Hs, Ha.
  rewrite Htx in Hx. inversion_clear Hx as [|? ? _ Hr].
  pose proof (sum_fees_le rest 0 Hr ltac:(unfold_u64; lia)) as Hf.
  change (0 <= sum_fees rest <= 0 + transfer_fees rest) in Hf.
  pose proof (coinbase_expected_le mp (GetHeight b) (sum_fees rest) Hmp ltac:(lia)
                (Validate_fee_share mp Hv) ltac:(lia)).
  pose proof (genesis_reward_le mp (GetHeight b) Hmp ltac:(lia)).
  pose proof (BlockReward_range mp (GetHeight b) Hmp ltac:(lia)) as Hrange.
  destruct (Validate_shares mp Hmp Hv) as (_ & Hm & Hg & Hsum).
  destruct Hmp as (_ & _ & _ & _ & _ & _ & _ & _ & Hc & _ & Hi & _). unfold is_byte in *.
  assert (BlockReward mp (GetHeight b) * MinerRewardShare mp / 100
          + BlockReward mp (GetHeight b) * GenesisShare mp / 100
          <= BlockReward mp (GetHeight b)).
  { set (r := BlockReward mp (GetHeight b)) in *.
    pose proof (Z.div_mod (r * MinerRewardShare mp) 100 ltac:(lia)).
    pose proof (Z.div_mod (r * GenesisShare mp) 100 ltac:(lia)).
    pose proof (Z.mod_pos_bound (r * MinerRewardShare mp) 100 ltac:(lia)).
    pose proof (Z.mod_pos_bound (r * GenesisShare mp) 100 ltac:(lia)). nia. }
  lia.
Qed.

(** C3. No replay: a transfer that occurs in an applied chain of blocks makes every
    further block that contains it fail. *)
Theorem transfer_no_replay (ed : list Z -> list Z -> list Z -> bool) (p : ConsensusParams)
  (mp : MonetaryPolicy) (g : string) (bs : list Block) (b b' : Block) (tx : Transaction)
  (st st1 : State)
  (Hst : st_typed st) (Hbs : Forall block_typed bs) (Hb' : block_typed b')
  (Hin : b ∈ bs) (Htx : tx ∈ b_Transactions b) (Htx' : tx ∈ b_Transactions b')
  (Hty : is_type tx TxTransfer = true)
  (H : apply_blocks ed p mp g bs st = (st1, Ok tt)) :
  exists st2 e, applyBlockToState ed p mp b' g st1 = (st2, Err e).
Proof.
  destruct (apply_blocks_typed _ _ _ _ _ _ _ _ Hbs Hst H) as [Hst1 _].
  destruct (applyBlockToState ed p mp b' g st1) as [st2 [u|e]] eqn:E; [|by eauto]. exfalso.
  destruct (FromAddress tx) as [f|] eqn:Hf.
  - pose proof (blocks_nonce_bound _ _ _ _ _ _ _ _ _ _ _ Hbs Hst Hin Htx Hty Hf H).
    pose proof (block_nonce_window _ _ _ _ _ _ _ _ _ _ Hb' Hst1 Htx' Hty Hf E). lia.
  - unfold applyBlockToState in E. inv_st.
    match goal with K : apply_txs _ _ _ _ _ _ = _ |- _ =>
      apply (txs_from _ _ _ _ _ tx) in K as [f Hf']; [congruence|done|done] end.
Qed.

(** Balances and nonces stay [uint64] values whatever block is applied, accepted or
    rejected. *)
Theorem ledger_typed_invariant (ed : list Z -> list Z -> list Z -> bool) (p : ConsensusParams)
  (mp : MonetaryPolicy) (g : string) (b : Block) (st : State)
  (Hb : block_typed b) (Hst : st_typed st) :
  st_typed (fst (applyBlockToState ed p mp b g st)).
Proof. by apply block_preserves. Qed.

(** A rejected block is not rolled back: with one transaction of an unknown type
    appended, any acceptable block is refused and still leaves every effect it would
    have had, because the map is updated in place. *)
Theorem rejected_block_keeps_effects (ed : list Z -> list Z -> list Z -> bool)
  (p : ConsensusParams) (mp : MonetaryPolicy) (g : string) (b : Block) (junk : Transaction)
  (st st' : State)
  (Hc : is_type junk TxCoinbase = false) (Ht : is_type junk TxTransfer = false)
  (Hsize : check_block_size p (append_tx b junk) = Ok tt)
  (H : applyBlockToState ed p mp b g st = (st', Ok tt)) :
  applyBlockToState ed p mp (append_tx b junk) g st = (st', Err "unknown tx type").
Proof.
  unfold applyBlockToState in *. inv_st. rewrite Hsize.
  unfold first_is_coinbase, append_tx, GetHeight in *. cbn [b_Transactions b_Height].
  destruct (b_Transactions b) as [|cb rest] eqn:Eb; [discriminate|]. bool_to_prop.
  unfold st_bind at 1, st_lift at 1.
  unfold st_bind at 1, st_lift at 1. rewrite len_pos by done. cbn [fail_if].
  unfold st_bind at 1, st_lift at 1. cbn [app].
  match goal with E : is_type cb TxCoinbase = true |- _ => rewrite E end. cbn [negb fail_if].
  match goal with E : (if _ then _ else _) st = (?s, Ok ?v) |- _ =>
    assert (E' : (if b_Height b >? 0 then check_economics mp (append_tx b junk) g else st_ret tt) st
                 = (s, Ok v)) end.
  { match goal with E : (if _ then _ else _) st = _ |- _ => rewrite <- E end.
    destruct (b_Height b >? 0); [|done]. unfold check_economics, append_tx, GetHeight.
    cbn [b_Transactions b_Height b_MinerAddress]. rewrite Eb. cbn [app].
    by rewrite sum_fees_snoc. }
  unfold st_bind at 1. unfold append_tx in E'. rewrite Eb in E'. cbn [app] in E'. rewrite E'.
  change (cb :: rest ++ [junk]) with ((cb :: rest) ++ [junk]).
  rewrite apply_txs_snoc. unfold st_bind.
  match goal with K : apply_txs _ _ _ _ _ _ = _ |- _ => rewrite K end.
  unfold apply_tx. by rewrite Hc, Ht.
Qed.

(** [validateStateLocked] accepts exactly the state that replaying the whole chain
    from the empty map produces. *)
Theorem validate_state_iff (ed : list Z -> list Z -> list Z -> bool) (p : ConsensusParams)
  (mp : MonetaryPolicy) (g : string) (bs : list Block) (current : State) :
  validateState ed p mp g bs current = Ok tt <-> recomputeState ed p mp g bs = (current, Ok tt).
Proof. apply validateState_spec. Qed.

(** What [TotalSupply] reports: the coins in a recomputed state are the genesis
    rewards plus the coinbase amounts minus the fees paid, while [TotalSupply] is the
    [uint64] sum of the coinbase amounts alone. *)
Theorem total_supply_reported (ed : list Z -> list Z -> list Z -> bool) (p : ConsensusParams)
  (mp : MonetaryPolicy) (g : string) (bs : list Block) (st : State)
  (Hbs : Forall block_typed bs) (H : recomputeState ed p mp g bs = (st, Ok tt)) :
  supply st = sumZ (map (fun b => genesis_reward mp (GetHeight b)) bs)
              + sumZ (map coinbase_amount bs) - sumZ (map block_fees bs) /\
  u64 (TotalSupply bs) = u64 (sumZ (map coinbase_amount bs)).
Proof.
  unfold recomputeState in H. split.
  - apply blocks_supply in H; [|done|apply st_typed_empty].
    rewrite supply_empty in H. rewrite H. clear. unfold sumZ, block_issue.
    induction bs; cbn; lia.
  - by apply (TotalSupply_sum _ _ _ _ _ _ _ _ 0) in H; [|done|apply st_typed_empty].
Qed.

(** The ledger copy in [consensus/validator.go] mints coins: it lacks the check of
    [amount + fee], so whenever it accepts a transfer whose sum exceeds [uint64] the
    supply grows by 2^64 minus the fee, while the ledger of [core] refuses every such
    transfer. *)
Theorem consensus_overflow_mints (ed : list Z -> list Z -> list Z -> bool) (p : ConsensusParams)
  (h : Z) (tx : Transaction) (st st' : State)
  (Hx : tx_typed tx) (Hst : st_typed st) (Ht : is_type tx TxTransfer = true)
  (Hov : max_u64 < tx_Amount tx + tx_Fee tx)
  (H : consensus_apply_transfer ed p h tx st = (st', Ok tt)) :
  supply st' = supply st + 18446744073709551616 - tx_Fee tx /\
  exists e, apply_transfer_tx ed p h tx st = (st, Err e).
Proof.
  destruct Hx as (_ & Ha & Hf & Hn & _). unfold consensus_apply_transfer in H. inv_st. bool_to_prop.
  match goal with E : FromAddress tx = Ok ?f |- _ => pose proof (acct_is_typed st f Hst) as [Hb _] end.
  assert (Hw : (tx_Amount tx + tx_Fee tx)%u64 = tx_Amount tx + tx_Fee tx - 18446744073709551616).
  { unfold_u64. Z.to_euclidean_division_equations. lia. }
  rewrite Hw in *. rewrite sub64_small in H by (unfold_u64; lia). split.
  - apply credit_posts in H as (_ & Hs & _); [| |done].
    + rewrite Hs, supply_insert. cbn. lia.
    + apply st_typed_insert; [done|]. split; cbn; unfold_u64; lia.
  - unfold apply_transfer_tx, st_bind, st_lift, st_get.
    repeat match goal with E : ?m = Ok _ |- context [?m] => rewrite E end.
    match goal with E : (_ + 1)%u64 = _ |- _ => rewrite (proj2 (Z.eqb_eq _ _) E) end.
    cbn [negb fail_if]. rewrite (sub64_small max_u64) by (unfold_u64; lia).
    replace (tx_Amount tx >? max_u64 - tx_Fee tx) with true by (unfold_u64; lia). by eexists.
Qed.

(** [applyBlockToStateWithStrictTolerance] lets a transfer be replayed, although its
    nonce rule is there to prevent it: after the transfer has been applied, applying it
    again succeeds as long as the funds suffice, and debits the sender again. *)
Theorem strict_tolerance_replays (ed : list Z -> list Z -> list Z -> bool) (p : ConsensusParams)
  (h : Z) (tx : Transaction) (from : string) (st st1 : State)
  (Hx : tx_typed tx) (Hst1 : st_typed st1)
  (Hf : FromAddress tx = Ok from) (Hne : tx_ToAddress tx <> from)
  (Hsum : tx_Amount tx + tx_Fee tx <= Balance (acct st1 from))
  (Hroom : Balance (acct st1 (tx_ToAddress tx)) + tx_Amount tx <= max_u64)
  (H : tolerant_transfer ed strict_nonce_rule p h tx st = (st1, Ok tt)) :
  exists st2, tolerant_transfer ed strict_nonce_rule p h tx st1 = (st2, Ok tt) /\
    Balance (acct st2 from) = Balance (acct st1 from) - (tx_Amount tx + tx_Fee tx).
Proof.
  destruct Hx as (_ & Ha & Hfee & Hn & _).
  destruct (proj1 (tolerant_transfer_iff ed strict_nonce_rule p h tx from st _ Hf) H)
    as (Hv & Hr & _ & Hc).
  pose proof (acct_is_typed st1 from Hst1) as [Hb1 Hn1].
  assert (Hnonce : strict_nonce_rule (tx_Nonce tx) (Nonce (acct st1 from)) = Ok tt).
  { unfold credit in Hc. case_match; [discriminate|]. injection Hc as <-.
    rewrite acct_insert, decide_False, acct_insert, decide_True by done. cbn [Nonce].
    destruct (Z.max_spec (Nonce (acct st from)) (tx_Nonce tx)) as [[_ ->]|[_ ->]]; [|done].
    unfold strict_nonce_rule. by rewrite Z.sub_diag. }
  assert (Hdeb : (tx_Amount tx + tx_Fee tx)%u64 = tx_Amount tx + tx_Fee tx)
    by (apply add64_small; unfold_u64; lia).
  eexists. split.
  - apply (tolerant_transfer_iff ed strict_nonce_rule p h tx from st1 _ Hf).
    rewrite Hdeb, sub64_small by (unfold_u64; lia). split_and!; [done|done|lia|].
    apply credit_run; [apply st_typed_insert; [done|split; cbn; unfold_u64; lia]|done|].
    rewrite acct_insert, decide_False by done. done.
  - rewrite acct_insert, decide_False, acct_insert, decide_True by done. done.
Qed.

(** Merging a fork's state with [mergeStatesWithForkAwareness] never changes the
    balance of a known account and never lowers a nonce, and
    [mergeStatesWithStrictValidation] raises no known balance by more than a tenth. *)
Theorem merge_states_bounds (current temp : State) (a : string) (e : Account)
  (Hc : st_typed current) (Ht : st_typed temp) (He : current !! a = Some e) :
  (exists m, mergeStatesWithForkAwareness current temp !! a = Some m /\
     Balance m = Balance e /\ Nonce e <= Nonce m) /\
  (exists m, mergeStatesWithStrictValidation current temp !! a = Some m /\
     Balance m <= Balance e + Balance e / 10 /\ Nonce e <= Nonce m).
Proof.
  assert (Hbe : 0 <= Balance e <= max_u64) by (apply (Hc a e He)).
  assert (0 <= Balance e / 10) by (apply Z.div_pos; lia).
  unfold mergeStatesWithForkAwareness, mergeStatesWithStrictValidation.
  rewrite !lookup_merge, He. destruct (temp !! a) as [t|] eqn:Et; cbn.
  - assert (Hbt : 0 <= Balance t <= max_u64) by (apply (Ht a t Et)).
    split; case_match eqn:E.
    + eexists. split; [done|]. cbn. bool_to_prop. lia.
    + eexists. split; [done|]. lia.
    + eexists. split; [done|]. lia.
    + eexists. split; [done|]. cbn. split; [|lia].
      unfold div64 in E. destruct (Balance t >? Balance e) eqn:Eg; cbn [andb] in E;
        bool_to_prop; [|lia]. rewrite sub64_small in E by lia. lia.
  - split; eexists; (split; [done|lia]).
Qed.

(** The account operations either fail and leave the account as it was, or change
    exactly one field by exactly the given amount, without wrap-around. *)
Theorem account_ops_exact (a : Account) (amount : Z) (Ha : acct_typed a) (Hm : is_u64 amount) :
  AddBalance amount a = (if Balance a + amount <=? max_u64
    then (mkAccount (Balance a + amount) (Nonce a), Ok tt) else (a, Err "balance overflow")) /\
  SubBalance amount a = (if amount <=? Balance a
    then (mkAccount (Balance a - amount) (Nonce a), Ok tt) else (a, Err "balance underflow")) /\
  IncrementNonce a = (if Nonce a <? max_u64
    then (mkAccount (Balance a) (Nonce a + 1), Ok tt) else (a, Err "nonce overflow")).
Proof.
  destruct Ha as [Hb Hn]. unfold AddBalance, SubBalance, IncrementNonce.
  rewrite (sub64_small max_u64) by (unfold_u64; lia). split_and!.
  - destruct (Z.leb_spec (Balance a + amount) max_u64).
    + replace (_ >? _) with false by lia. rewrite add64_small by (unfold_u64; lia). done.
    + by replace (_ >? _) with true by lia.
  - destruct (Z.leb_spec amount (Balance a)).
    + replace (_ >? _) with false by lia. rewrite sub64_small by (unfold_u64; lia). done.
    + by replace (_ >? _) with true by lia.
  - rewrite Z.geb_leb. destruct (Z.ltb_spec (Nonce a) max_u64).
    + replace (_ <=? _) with false by lia. rewrite add64_small by (unfold_u64; lia). done.
    + by replace (_ <=? _) with true by lia.
Qed.

(** * Witnesses *)

(** A two-block chain: the genesis block funds the all-zero key, the next block
    carries [sample_tx]. *)
Definition sample_header (h : Z) : BlockHeader :=
  mkBlockHeader 1 [] 1700000000 1 1 0 [] [] h "".
Definition coinbase_tx (to : string) (amount : Z) : Transaction :=
  mkTransaction TxCoinbase 1 None to amount 0 0 "" None.
Definition miner : string := GenerateAddress [7].
Definition genesis_addr : string := GenerateAddress [5].
Definition block0 : Block :=
  mkBlock [] 0 (sample_header 0) [coinbase_tx (GenerateAddress zero_key) 1000000] None "" "".
Definition block1 : Block :=
  mkBlock [] 1 (sample_header 1) [coinbase_tx miner 792000000; sample_tx] None miner "".
Definition state0 : State :=
  fst (applyBlockToState accept_all main_params main_policy block0 genesis_addr ∅).
Definition state1 : State :=
  fst (applyBlockToState accept_all main_params main_policy block1 genesis_addr state0).

Lemma run_ok {S A : Type} (x : S * result A) (a : A) : snd x = Ok a -> x = (fst x, Ok a).
Proof. by destruct x as [s r]; cbn; intros ->. Qed.

Lemma state0_ok :
  applyBlockToState accept_all main_params main_policy block0 genesis_addr ∅ = (state0, Ok tt).
Proof. refine (run_ok _ tt _). vm_cast_no_check (eq_refl (@Ok unit tt)). Qed.

Lemma state1_ok :
  applyBlockToState accept_all main_params main_policy block1 genesis_addr state0
  = (state1, Ok tt).
Proof. refine (run_ok _ tt _). vm_cast_no_check (eq_refl (@Ok unit tt)). Qed.

Lemma coinbase_tx_typed (to : string) (amount : Z) : is_u64 amount -> tx_typed (coinbase_tx to amount).
Proof. intros. unfold tx_typed, coinbase_tx. cbn. unfold_u64. split_and!; try lia; constructor. Qed.

Lemma block0_typed : block_typed block0.
Proof. split; [done|]. repeat constructor; unfold_u64; cbn; lia. Qed.

Lemma block1_typed : block_typed block1.
Proof.
  split; [done|]. apply Forall_cons. split; [apply coinbase_tx_typed; unfold_u64; lia|].
  apply Forall_cons. split; [apply sample_tx_typed|constructor].
Qed.

Lemma state0_typed : st_typed state0.
Proof. apply (block_preserves _ _ _ _ _ block0_typed), st_typed_empty. Qed.

Lemma state1_typed : st_typed state1.
Proof. apply (block_preserves _ _ _ _ _ block1_typed), state0_typed. Qed.

Lemma ledger_block_effect_witness :
  exists cb rest, b_Transactions block1 = cb :: rest /\ is_type cb TxCoinbase = true.
Proof.
  destruct (ledger_block_effect _ _ _ _ _ _ _ block1_typed state0_typed state1_ok)
    as (cb & rest & H1 & H2 & _).
  by exists cb, rest.
Defined.

Lemma supply_growth_bounded_witness : supply state1 <= supply state0 + BlockReward main_policy 1.
Proof.
  apply (supply_growth_bounded accept_all main_params main_policy genesis_addr block1);
    [apply main_policy_typed|reflexivity|apply block1_typed|apply state0_typed|reflexivity
    |apply state1_ok].
Defined.

Lemma transfer_no_replay_witness :
  exists st2 e, applyBlockToState accept_all main_params main_policy block1 genesis_addr state1
                = (st2, Err e).
Proof.
  apply (transfer_no_replay accept_all main_params main_policy genesis_addr [block1] block1 block1
           sample_tx state0).
  - apply state0_typed.
  - constructor; [apply block1_typed|constructor].
  - apply block1_typed.
  - apply elem_of_cons. by left.
  - cbn. set_solver.
  - cbn. set_solver.
  - reflexivity.
  - cbn [apply_blocks]. unfold st_bind. by rewrite state1_ok.
Defined.

Lemma ledger_typed_invariant_witness :
  st_typed (fst (applyBlockToState accept_all main_params main_policy block1 genesis_addr state1)).
Proof.
  apply (ledger_typed_invariant accept_all main_params main_policy genesis_addr block1 state1);
    [apply block1_typed|apply state1_typed].
Defined.

Definition junk_tx : Transaction := mkTransaction "mint" 1 None "" 0 0 0 "" None.

Lemma rejected_block_keeps_effects_witness :
  applyBlockToState accept_all main_params main_policy (append_tx block1 junk_tx) genesis_addr
    state0 = (state1, Err "unknown tx type") /\ state1 <> state0.
Proof.
  split.
  - apply (rejected_block_keeps_effects accept_all main_params main_policy genesis_addr block1
             junk_tx state0 state1);
      [reflexivity|reflexivity|vm_cast_no_check (eq_refl (@Ok unit tt))|apply state1_ok].
  - intros E. pose proof (f_equal (fun s => Balance (acct s genesis_addr)) E) as F.
    vm_compute in F. discriminate.
Defined.

Lemma validate_state_iff_witness :
  validateState accept_all main_params main_policy genesis_addr [block0; block1] state1 = Ok tt.
Proof.
  apply (validate_state_iff accept_all main_params main_policy genesis_addr [block0; block1] state1).
  unfold recomputeState. cbn [apply_blocks]. unfold st_bind.
  rewrite state0_ok. cbn [wrap]. by rewrite state1_ok.
Defined.

Lemma total_supply_reported_witness :
  u64 (TotalSupply [block0; block1]) = 793000000 /\
  supply state1 = 801000000 - 10.
Proof.
  assert (H : recomputeState accept_all main_params main_policy genesis_addr [block0; block1]
              = (state1, Ok tt)).
  { unfold recomputeState. cbn [apply_blocks]. unfold st_bind.
    rewrite state0_ok. cbn [wrap]. by rewrite state1_ok. }
  destruct (total_supply_reported accept_all main_params main_policy genesis_addr
              [block0; block1] state1) as [H1 H2].
  - constructor; [apply block0_typed|]. constructor; [apply block1_typed|constructor].
  - exact H.
  - rewrite H1, H2. split; vm_compute; reflexivity.
Defined.

(** 2^64 - 1 coins for a fee of 2: the debit wraps to 1. *)
Definition wrap_tx : Transaction :=
  mkTransaction TxTransfer 1 (Some zero_key) (GenerateAddress [9]) max_u64 2 1 ""
    (Some (replicate 64 1)).

Lemma wrap_tx_typed : tx_typed wrap_tx.
Proof.
  unfold tx_typed, wrap_tx, is_u64, max_u64.
  cbn [tx_ChainID tx_Amount tx_Fee tx_Nonce tx_FromPubKey tx_Signature slice default].
  split_and!; try lia; cbn; repeat constructor; unfold is_byte; lia.
Qed.

Lemma consensus_overflow_mints_witness :
  exists st', consensus_apply_transfer accept_all main_params 1 wrap_tx state0 = (st', Ok tt) /\
    supply st' = supply state0 + 18446744073709551616 - 2.
Proof.
  assert (H : snd (consensus_apply_transfer accept_all main_params 1 wrap_tx state0) = Ok tt)
    by vm_cast_no_check (eq_refl (@Ok unit tt)).
  pose proof (run_ok _ _ H) as R. eexists. split; [exact R|].
  apply (consensus_overflow_mints accept_all main_params 1 wrap_tx state0 _ wrap_tx_typed
           state0_typed eq_refl eq_refl R).
Defined.

(** The sender's account after one tolerant transfer from [state0]. *)
Definition replay_state : State :=
  fst (tolerant_transfer accept_all strict_nonce_rule main_params 1 sample_tx state0).

Lemma strict_tolerance_replays_witness :
  exists st2, tolerant_transfer accept_all strict_nonce_rule main_params 1 sample_tx replay_state
              = (st2, Ok tt).
Proof.
  assert (H : snd (tolerant_transfer accept_all strict_nonce_rule main_params 1 sample_tx state0)
              = Ok tt) by vm_cast_no_check (eq_refl (@Ok unit tt)).
  assert (Hty : st_typed replay_state).
  { assert (E : bool_decide (map_Forall (fun _ a => (0 <= Balance a /\ Balance a <= max_u64) /\
      (0 <= Nonce a /\ Nonce a <= max_u64)) replay_state) = true)
      by vm_cast_no_check (eq_refl true).
    by apply bool_decide_eq_true in E. }
  destruct (strict_tolerance_replays accept_all main_params 1 sample_tx (GenerateAddress zero_key)
              state0 replay_state sample_tx_typed Hty eq_refl) as (st2 & E & _).
  - vm_compute. discriminate.
  - vm_compute. discriminate.
  - vm_compute. discriminate.
  - exact (run_ok _ _ H).
  - exists st2. exact E.
Defined.

Lemma account_ops_exact_witness :
  AddBalance 5 (mkAccount 7 0) = (mkAccount 12 0, Ok tt).
Proof.
  apply (account_ops_exact (mkAccount 7 0) 5); [split|]; unfold_u64; cbn; lia.
Defined.
