(* ===== verification/FeeChecker.v ===== *)
(** * Fee rules

    [blockchain/core/fee_checker.go].  The checker reads its mempool through the Go
    interface [MempoolStats]; here that is a class, with the laws its clients rely on
    as a second class that an implementation has to discharge. *)

From S2P Require Import Prelude Bytes Sha256 Config Merkle Json Transaction.
From stdpp Require Import base list strings numbers.
From Stdlib Require Import ZArith Lia.

Open Scope Z_scope.
Open Scope go_scope.

(** ** Statistics of a mempool *)
Record FeeStats := mkFeeStats {
  fs_MinFee : Z;
  fs_MaxFee : Z;
  fs_AvgFee : Z;
  fs_MedianFee : Z;
  fs_P25Fee : Z;
  fs_P75Fee : Z;
  fs_TxCount : Z
}.

Class MempoolStats (M : Type) := { GetFeeStats : M -> FeeStats }.

(** What an implementation promises: the statistics are [uint64]s, and those of a
    non-empty pool are ordered. *)
Class MempoolStatsLaws (M : Type) `{MempoolStats M} (inv : M -> Prop) := {
  fee_stats_typed : forall m, inv m ->
    is_u64 (fs_P25Fee (GetFeeStats m)) /\ is_u64 (fs_MedianFee (GetFeeStats m)) /\
    is_u64 (fs_P75Fee (GetFeeStats m));
  fee_stats_ordered : forall m, inv m -> 0 < fs_TxCount (GetFeeStats m) ->
    fs_MinFee (GetFeeStats m) <= fs_P25Fee (GetFeeStats m) /\
    fs_P25Fee (GetFeeStats m) <= fs_MedianFee (GetFeeStats m) /\
    fs_MedianFee (GetFeeStats m) <= fs_P75Fee (GetFeeStats m) /\
    fs_P75Fee (GetFeeStats m) <= fs_MaxFee (GetFeeStats m)
}.

(** ** The checker *)
Record FeeChecker (M : Type) := mkFeeChecker {
  minFee : Z;
  feePerByte : Z;
  mempoolSize : Z;
  historyFees : list Z;
  mempool : option M
}.
Arguments mkFeeChecker {M} _ _ _ _ _.
Arguments minFee {M} _.
Arguments feePerByte {M} _.
Arguments mempoolSize {M} _.
Arguments historyFees {M} _.
Arguments mempool {M} _.

Definition MinFee : Z := 10000.
Definition MinFeePerByte : Z := 100.
Definition congestionBaseThreshold : Z := 10000.
Definition congestionScale : Z := 1000000.
Definition congestionMultiplier : Z := 1500000.

Definition NewFeeChecker {M : Type} (minFee feePerByte : Z) : FeeChecker M :=
  mkFeeChecker minFee feePerByte 0 [] None.

Definition maxUint64Minus (x : Z) : Z := (max_u64 - x)%u64.
Definition safeBigIntToUint64 (n : Z) : Z := if n >? max_u64 then max_u64 else u64 n.

(** The JSON size of a transaction; [json.Marshal] cannot fail on one. *)
Definition getTxSize (tx : option Transaction) : Z :=
  match tx with
  | None => 0
  | Some tx => u64 (len (json_bytes (tx_json tx)))
  end.

Definition average (fees : list Z) : Z :=
  if len fees =? 0 then 0 else u64 (sumZ fees / len fees).

(** The congestion factor, as a numerator over [congestionScale]. *)
Definition congestion (size : Z) : Z :=
  if size >? congestionBaseThreshold
  then (size * congestionScale / congestionBaseThreshold)%u64
  else congestionScale.

Definition calculateRequiredFee {M : Type} (f : FeeChecker M) (tx : Transaction) : Z :=
  let baseFee := minFee f in
  let txSize := getTxSize (Some tx) in
  let sizeFee := (txSize * feePerByte f)%u64 in
  if baseFee >? maxUint64Minus sizeFee then max_u64
  else
    let baseTotal := (baseFee + sizeFee)%u64 in
    let congestionNum := congestion (mempoolSize f) in
    let congestionNum :=
      if 0 <? len (historyFees f) then
        let avgFee := average (historyFees f) in
        if tx_Fee tx <? (avgFee * 50 / 100)%u64
        then (congestionNum * congestionMultiplier / congestionScale)%u64
        else congestionNum
      else congestionNum in
    safeBigIntToUint64 (baseTotal * congestionNum / congestionScale).

Definition CalculateRequiredFee {M : Type} (f : FeeChecker M) (tx : Transaction) : Z :=
  calculateRequiredFee f tx.

Definition ValidateFee {M : Type} (f : FeeChecker M) (tx : Transaction) : result unit :=
  let requiredFee := calculateRequiredFee f tx in
  fail_if (tx_Fee tx <? requiredFee) "fee too low" ;;?
  let maxAllowed := requiredFee * 10 in
  fail_if (tx_Fee tx >? maxAllowed) "fee unusually high".

Definition UpdateHistory {M : Type} (fee : Z) (f : FeeChecker M) : FeeChecker M :=
  let h := historyFees f ++ [fee] in
  let h := if len h >? 1000 then drop (length h - 1000) h else h in
  mkFeeChecker (minFee f) (feePerByte f) (mempoolSize f) h (mempool f).

Definition UpdateMempoolSize {M : Type} (size : Z) (f : FeeChecker M) : FeeChecker M :=
  mkFeeChecker (minFee f) (feePerByte f) size (historyFees f) (mempool f).

Definition GetMinFee {M : Type} (f : FeeChecker M) : Z := minFee f.

Definition SetMempool {M : Type} (mp : M) (f : FeeChecker M) : FeeChecker M :=
  mkFeeChecker (minFee f) (feePerByte f) (mempoolSize f) (historyFees f) (Some mp).

Definition CalculateMinFee (txSize mempoolSize : Z) : Z :=
  let baseFee := MinFee in
  let sizeFee := (txSize * MinFeePerByte)%u64 in
  if baseFee >? maxUint64Minus sizeFee then max_u64
  else
    let baseTotal := (baseFee + sizeFee)%u64 in
    if mempoolSize >? congestionBaseThreshold then
      let congestionNum := (mempoolSize * congestionScale / congestionBaseThreshold)%u64 in
      safeBigIntToUint64 (baseTotal * congestionNum / congestionScale)
    else baseTotal.

Definition EstimateSmartFee (txSize mempoolSize : Z) (speed : string) : Z :=
  let baseFee := CalculateMinFee txSize mempoolSize in
  if mempoolSize >? 0 then
    if str_eqb speed "fast" then (baseFee * 110 / 100)%u64 else baseFee
  else baseFee.

Definition CalculateOptimalFee {M : Type} `{MempoolStats M} (f : FeeChecker M)
  (tx : Transaction) (speed : string) : Z :=
  let txSize := getTxSize (Some tx) in
  let baseFee := calculateRequiredFee f tx in
  let fallback :=
    safeBigIntToUint64 (baseFee * congestion (mempoolSize f) / congestionScale) in
  match mempool f with
  | Some mp =>
      let stats := GetFeeStats mp in
      if fs_TxCount stats >? 0 then
        if str_eqb speed "fast" then
          let percentileFee := (fs_P75Fee stats * txSize / 100)%u64 in
          if (fs_P75Fee stats >? 0) && (percentileFee >? baseFee) then percentileFee
          else (baseFee * 110 / 100)%u64
        else if str_eqb speed "slow" then
          let percentileFee := (fs_P25Fee stats * txSize / 100)%u64 in
          if (fs_P25Fee stats >? 0) && (percentileFee <? baseFee) then percentileFee
          else baseFee
        else
          let medianFee := (fs_MedianFee stats * txSize / 100)%u64 in
          if (fs_MedianFee stats >? 0) && (medianFee >? baseFee) then medianFee
          else baseFee
      else fallback
  | None => fallback
  end.

(** * Lemmas *)
Lemma safeBigInt_range (n : Z) : is_u64 (safeBigIntToUint64 n).
Proof. unfold safeBigIntToUint64. case_match; [unfold_u64; lia|apply u64_range]. Qed.

Lemma calculateRequiredFee_range {M : Type} (f : FeeChecker M) (tx : Transaction) :
  is_u64 (calculateRequiredFee f tx).
Proof.
  unfold calculateRequiredFee. case_match; [unfold_u64; lia|apply safeBigInt_range].
Qed.

Lemma getTxSize_range (tx : option Transaction) : is_u64 (getTxSize tx).
Proof. destruct tx; cbn; [apply u64_range|unfold_u64; lia]. Qed.

(** The factor of a fresh checker is one: a tariff linear in the size. *)
Lemma required_fee_fresh {M : Type} (mf pb : Z) (tx : Transaction) :
  0 <= mf -> 0 <= pb -> mf + getTxSize (Some tx) * pb <= max_u64 ->
  calculateRequiredFee (@NewFeeChecker M mf pb) tx = mf + getTxSize (Some tx) * pb.
Proof.
  intros Hm Hp H. pose proof (getTxSize_range (Some tx)) as Hs.
  unfold calculateRequiredFee. cbn [NewFeeChecker minFee feePerByte mempoolSize historyFees len length].
  set (sz := getTxSize (Some tx)) in *.
  assert (0 <= sz * pb) by (unfold_u64; nia).
  rewrite (mul64_small sz pb) by lia. unfold maxUint64Minus. rewrite sub64_small by lia.
  replace (mf >? max_u64 - sz * pb) with false by lia. rewrite add64_small by lia.
  change (congestion 0) with congestionScale. cbn [Z.of_nat Z.ltb Z.compare].
  rewrite Z.div_mul by done. unfold safeBigIntToUint64.
  replace (mf + sz * pb >? max_u64) with false by lia. rewrite u64_small; lia.
Qed.

(** A percentile turned into a fee, without wrap-around. *)
Lemma percentile_fee (pc sz : Z) :
  is_u64 pc -> 0 <= sz -> pc * sz <= max_u64 -> (pc * sz / 100)%u64 = pc * sz / 100.
Proof. intros Hp Hs H. unfold div64. rewrite mul64_small; [done|unfold_u64; nia]. Qed.

Lemma percentile_mono (a b sz : Z) : a <= b -> 0 <= sz -> a * sz / 100 <= b * sz / 100.
Proof. intros. apply Z.div_le_mono; nia. Qed.

(** The fee band of the mempool and of block templates: with the default tariff a
    transaction passes exactly when its fee lies between 10000 plus 100 per JSON byte
    and ten times that. *)
Theorem default_fee_band {M : Type} (tx : Transaction)
  (Hs : MinFee + getTxSize (Some tx) * MinFeePerByte <= max_u64) :
  let required := MinFee + getTxSize (Some tx) * MinFeePerByte in
  ValidateFee (@NewFeeChecker M MinFee MinFeePerByte) tx = Ok tt <->
  required <= tx_Fee tx <= 10 * required.
Proof.
  intros required. unfold ValidateFee.
  rewrite (required_fee_fresh MinFee MinFeePerByte tx)
    by (done || unfold MinFee, MinFeePerByte; lia).
  fold required. split.
  - intros H. inv_result. bool_to_prop. lia.
  - intros [H1 H2]. replace (tx_Fee tx <? required) with false by lia.
    cbn [fail_if result_bind]. by replace (tx_Fee tx >? required * 10) with false by lia.
Qed.

(** Against any mempool whose statistics obey the interface's laws, the recommended
    fees are ordered by urgency as long as no product exceeds [uint64]: slow is at most
    average, average at most fast, and average and fast cover the required fee. *)
Theorem optimal_fee_ordered {M : Type} `{MempoolStats M} (inv : M -> Prop)
  `{!MempoolStatsLaws M inv} (f : FeeChecker M) (m : M)
  (tx : Transaction)
  (Hm : mempool f = Some m) (HI : inv m) (Hc : 0 < fs_TxCount (GetFeeStats m))
  (Hp : fs_P75Fee (GetFeeStats m) * getTxSize (Some tx) <= max_u64)
  (Hb : calculateRequiredFee f tx * 110 <= max_u64) :
  CalculateOptimalFee f tx "slow" <= CalculateOptimalFee f tx "average" /\
  CalculateOptimalFee f tx "average" <= CalculateOptimalFee f tx "fast" /\
  calculateRequiredFee f tx <= CalculateOptimalFee f tx "average".
Proof.
  destruct (fee_stats_typed m HI) as (T25 & T50 & T75).
  destruct (fee_stats_ordered m HI Hc) as (_ & O1 & O2 & _).
  pose proof (getTxSize_range (Some tx)) as Hs.
  pose proof (calculateRequiredFee_range f tx) as Hr.
  unfold CalculateOptimalFee. rewrite Hm.
  replace (fs_TxCount (GetFeeStats m) >? 0) with true by lia.
  change (str_eqb "slow" "fast") with false. change (str_eqb "slow" "slow") with true.
  change (str_eqb "average" "fast") with false. change (str_eqb "average" "slow") with false.
  change (str_eqb "fast" "fast") with true. cbv iota.
  set (sz := getTxSize (Some tx)) in *. set (base := calculateRequiredFee f tx) in *.
  set (st := GetFeeStats m) in *. unfold is_u64 in *.
  rewrite !percentile_fee by (unfold is_u64; nia).
  pose proof (percentile_mono (fs_P25Fee st) (fs_MedianFee st) sz O1 ltac:(lia)).
  pose proof (percentile_mono (fs_MedianFee st) (fs_P75Fee st) sz O2 ltac:(lia)).
  assert (base <= base * 110 / 100) by (apply Z.div_le_lower_bound; lia).
  repeat match goal with |- context [(?a >? ?b)] =>
    destruct (Z.gtb_spec a b); cbn [andb] end;
  repeat match goal with |- context [(?a <? ?b)] =>
    destruct (Z.ltb_spec a b); cbn [andb] end; lia.
Qed.

(** * Witnesses *)
Lemma default_fee_band_witness :
  ValidateFee (@NewFeeChecker unit MinFee MinFeePerByte) sample_tx <> Ok tt.
Proof.
  intros H. apply (default_fee_band (M := unit) sample_tx) in H; [|vm_compute; discriminate].
  destruct H as [H _]. vm_compute in H. by apply H.
Defined.
