(* ===== verification/Float.v ===== *)
(** * Floating point

    Go's [float64] is IEEE binary64, taken from the standard library's [SpecFloat]
    (53 bits of precision, round to nearest even).  Go's [math/big] [Float] is modelled
    as far as [nogopow/difficulty_adjustment.go] uses it: non-negative values of a
    chosen precision, rounded to nearest even after every operation. *)

From S2P Require Import Prelude.
From stdpp Require Import base strings numbers.
From Stdlib Require Import ZArith Lia SpecFloat.

Open Scope Z_scope.
Open Scope go_scope.

(** ** float64 *)
Definition float64 : Type := spec_float.
(** [float64(x)] of an integer. *)
Definition f64_of_Z (z : Z) : float64 := binary_normalize 53 1024 z 0 false.
Definition f64_add (a b : float64) : float64 := SFadd 53 1024 a b.
Definition f64_sub (a b : float64) : float64 := SFsub 53 1024 a b.
Definition f64_mul (a b : float64) : float64 := SFmul 53 1024 a b.
Definition f64_div (a b : float64) : float64 := SFdiv 53 1024 a b.
Definition f64_ltb (a b : float64) : bool := SFltb a b.
Definition f64_leb (a b : float64) : bool := SFleb a b.
(** [int64(f)] truncates; it is used on finite values within the range of [int64] only. *)
Definition f64_trunc (f : float64) : Z :=
  match f with
  | S754_finite s m e =>
      let n := if 0 <=? e then Z.shiftl (Zpos m) e else Z.shiftr (Zpos m) (- e) in
      if s then - n else n
  | _ => 0
  end.
(** The constant [n/d]: a decimal literal is rounded once, as the division is. *)
Definition f64_const (n d : Z) : float64 := f64_div (f64_of_Z n) (f64_of_Z d).

#[export] Instance spec_float_eq_dec : EqDecision spec_float.
Proof. solve_decision. Defined.

(** ** big.Float

    A value [bf_m * 2 ^ bf_e] with its precision. *)
Record bigfloat := mkBig { bf_m : Z; bf_e : Z; bf_prec : Z }.

(** The number of bits of a mantissa. *)
Definition bitlen (m : Z) : Z := if m =? 0 then 0 else Z.log2 m + 1.

(** [m / 2^s] rounded to the nearest integer, ties to even. *)
Definition rne (m s : Z) : Z :=
  let q := m / 2 ^ s in
  let r := m mod 2 ^ s in
  if s =? 0 then m
  else match r ?= 2 ^ (s - 1) with
       | Lt => q
       | Gt => q + 1
       | Eq => if Z.even q then q else q + 1
       end.

(** Rounding to [prec] bits. *)
Definition bf_round (prec m e : Z) : bigfloat :=
  let s := Z.max 0 (bitlen m - prec) in mkBig (rne m s) (e + s) prec.

(** [new(big.Float).SetInt(x)]: the precision is at least 64 bits and enough for [x]. *)
Definition bf_of_int (x : Z) : bigfloat := mkBig x 0 (Z.max (bitlen x) 64).

(** [big.NewFloat(x)], [SetFloat64]: 53 bits, a panic on NaN.  Infinities and negative
    values do not occur where it is used; they are refused as well. *)
Definition bf_of_f64 (x : float64) : result bigfloat :=
  match x with
  | S754_zero _ => Ok (mkBig 0 0 53)
  | S754_finite false m e => Ok (mkBig (Zpos m) e 53)
  | S754_finite true _ _ => Err "negative big.Float"
  | S754_infinity _ => Err "infinite big.Float"
  | S754_nan => Err "panic: NewFloat(NaN)"
  end.

Definition bf_mul (a b : bigfloat) : bigfloat :=
  bf_round (Z.max (bf_prec a) (bf_prec b)) (bf_m a * bf_m b) (bf_e a + bf_e b).

Definition bf_add (a b : bigfloat) : bigfloat :=
  let e := Z.min (bf_e a) (bf_e b) in
  bf_round (Z.max (bf_prec a) (bf_prec b))
    (bf_m a * 2 ^ (bf_e a - e) + bf_m b * 2 ^ (bf_e b - e)) e.

(** [Int(nil)]: truncation. *)
Definition bf_int (a : bigfloat) : Z :=
  if 0 <=? bf_e a then bf_m a * 2 ^ bf_e a else bf_m a / 2 ^ (- bf_e a).

(** * Lemmas *)

(** Rounding never crosses a point of its own grid. *)
Lemma rne_le (m s k : Z) : 0 <= s -> m <= k * 2 ^ s -> rne m s <= k.
Proof.
  intros Hs H. unfold rne. assert (Hp : 0 < 2 ^ s) by (apply Z.pow_pos_nonneg; lia).
  destruct (Z.eqb_spec s 0) as [->|Hn]; [rewrite Z.pow_0_r in H; lia|].
  pose proof (Z.div_mod m (2 ^ s) ltac:(lia)). pose proof (Z.mod_pos_bound m (2 ^ s) Hp).
  assert (Hh : 0 < 2 ^ (s - 1)) by (apply Z.pow_pos_nonneg; lia).
  assert (m / 2 ^ s <= k) by (apply Z.div_le_upper_bound; lia).
  assert (m mod 2 ^ s = 0 \/ m / 2 ^ s + 1 <= k) by nia.
  destruct (Z.compare_spec (m mod 2 ^ s) (2 ^ (s - 1))); [destruct (Z.even _)| |]; lia.
Qed.

Lemma rne_ge (m s k : Z) : 0 <= s -> k * 2 ^ s <= m -> k <= rne m s.
Proof.
  intros Hs H. unfold rne. assert (Hp : 0 < 2 ^ s) by (apply Z.pow_pos_nonneg; lia).
  destruct (Z.eqb_spec s 0) as [->|Hn]; [rewrite Z.pow_0_r in H; lia|].
  assert (k <= m / 2 ^ s) by (apply Z.div_le_lower_bound; lia).
  destruct (Z.compare _ _); [destruct (Z.even _)| |]; lia.
Qed.

Lemma bitlen_bound (m n : Z) : 0 <= n -> 0 <= m < 2 ^ n -> 0 <= bitlen m <= n.
Proof.
  intros Hn Hm. unfold bitlen. destruct (Z.eqb_spec m 0); [lia|].
  pose proof (Z.log2_nonneg m). assert (Z.log2 m < n) by (apply Z.log2_lt_pow2; lia). lia.
Qed.

(** A rounded number stays on its side of every multiple of [2^-G] when the exponent
    after rounding is at most [-G]. *)
Lemma bf_round_le (prec m e G k : Z) :
  0 <= m -> 0 <= G -> e + Z.max 0 (bitlen m - prec) <= - G -> m <= k * 2 ^ (- e - G) ->
  let r := bf_round prec m e in bf_m r <= k * 2 ^ (- bf_e r - G).
Proof.
  intros Hm HG He H. cbn. set (s := Z.max 0 (bitlen m - prec)) in *.
  apply rne_le; [lia|]. rewrite <- Z.mul_assoc, <- Z.pow_add_r by lia.
  replace (- (e + s) - G + s) with (- e - G) by lia. done.
Qed.

Lemma bf_round_ge (prec m e G k : Z) :
  0 <= m -> 0 <= G -> e + Z.max 0 (bitlen m - prec) <= - G -> k * 2 ^ (- e - G) <= m ->
  let r := bf_round prec m e in k * 2 ^ (- bf_e r - G) <= bf_m r.
Proof.
  intros Hm HG He H. cbn. set (s := Z.max 0 (bitlen m - prec)) in *.
  apply rne_ge; [lia|]. rewrite <- Z.mul_assoc, <- Z.pow_add_r by lia.
  replace (- (e + s) - G + s) with (- e - G) by lia. done.
Qed.

(** ** Magnitudes of binary64

    [Zdigits2 m + e] is the binary order of magnitude of [m * 2 ^ e].  Rounding never
    lowers it, which bounds a product from below without any error analysis. *)
Lemma Zdigits2_log2 (m : Z) : 0 < m -> Zdigits2 m = Z.log2 m + 1.
Proof.
  destruct m as [|p|p]; [lia| |lia]. intros _. cbn [Zdigits2].
  induction p as [p IH|p IH|]; cbn [digits2_pos]; [| |done]; rewrite Pos2Z.inj_succ, IH.
  - change (Z.pos p~1) with (2 * Z.pos p + 1). rewrite Z.log2_succ_double by lia. lia.
  - change (Z.pos p~0) with (2 * Z.pos p). rewrite Z.log2_double by lia. lia.
Qed.

Lemma Zdigits2_mono (m n : Z) : 0 < m <= n -> Zdigits2 m <= Zdigits2 n.
Proof. intros H. rewrite !Zdigits2_log2 by lia. pose proof (Z.log2_le_mono m n). lia. Qed.

Lemma Zdigits2_mul (m n : Z) : 0 < m -> 0 < n -> Zdigits2 m + Zdigits2 n - 1 <= Zdigits2 (m * n).
Proof.
  intros Hm Hn. rewrite !Zdigits2_log2 by nia. pose proof (Z.log2_mul_below m n). lia.
Qed.

Lemma shr_1_digits (x : shr_record) :
  0 < shr_m x -> 1 < Zdigits2 (shr_m x) ->
  0 < shr_m (shr_1 x) /\ Zdigits2 (shr_m (shr_1 x)) = Zdigits2 (shr_m x) - 1.
Proof. destruct x as [[|[p|p|]|p] r s]; cbn; intros; split; lia. Qed.

Lemma iter_shr_digits (n : positive) (x : shr_record) :
  0 < shr_m x -> Z.pos n < Zdigits2 (shr_m x) ->
  0 < shr_m (iter_pos shr_1 n x) /\
  Zdigits2 (shr_m (iter_pos shr_1 n x)) = Zdigits2 (shr_m x) - Z.pos n.
Proof.
  revert x. induction n as [n IH|n IH|]; intros x Hx Hn; cbn [iter_pos].
  - destruct (shr_1_digits x) as [H1 D1]; [lia|lia|].
    destruct (IH (shr_1 x)) as [H2 D2]; [lia|lia|].
    destruct (IH (iter_pos shr_1 n (shr_1 x))) as [H3 D3]; [lia|lia|]. split; lia.
  - destruct (IH x) as [H2 D2]; [lia|lia|].
    destruct (IH (iter_pos shr_1 n x)) as [H3 D3]; [lia|lia|]. split; lia.
  - apply shr_1_digits; lia.
Qed.

Lemma shr_fexp_digits (m e : Z) (l : location) :
  0 < m -> - 1000 <= Zdigits2 m + e ->
  let '(x, e') := shr_fexp 53 1024 m e l in
  0 < shr_m x /\ Zdigits2 (shr_m x) + e' = Zdigits2 m + e /\ Z.max e (Zdigits2 m + e - 53) <= e'.
Proof.
  intros Hm He. unfold shr_fexp, fexp, emin.
  assert (Hr : shr_m (shr_record_of_loc m l) = m) by (by destruct l as [|[]]).
  destruct (Z.max _ _ - e) as [|p|p] eqn:E; cbn [shr]; rewrite ?Hr; [lia| |lia].
  destruct (iter_shr_digits p (shr_record_of_loc m l)) as [H1 H2]; rewrite ?Hr in *; lia.
Qed.

Lemma round_aux_digits (m e : Z) :
  0 < m -> - 1000 <= Zdigits2 m + e ->
  match binary_round_aux 53 1024 false m e loc_Exact with
  | S754_finite false m' e' =>
      Zdigits2 m + e <= Zdigits2 (Z.pos m') + e' /\ Zdigits2 m + e - 53 <= e'
  | S754_infinity false => True
  | _ => False
  end.
Proof.
  intros Hm He. unfold binary_round_aux.
  pose proof (shr_fexp_digits m e loc_Exact Hm He) as H1.
  destruct (shr_fexp 53 1024 m e loc_Exact) as [x e1]. destruct H1 as (P1 & D1 & L1).
  set (m2 := round_nearest_even _ _).
  assert (Hm2 : shr_m x <= m2).
  { subst m2. destruct (loc_of_shr_record x) as [|[]]; cbn [round_nearest_even]; [lia| |lia|lia].
    case_match; lia. }
  pose proof (Zdigits2_mono (shr_m x) m2 ltac:(lia)) as Hd.
  pose proof (shr_fexp_digits m2 e1 loc_Exact ltac:(lia) ltac:(lia)) as H2.
  destruct (shr_fexp 53 1024 m2 e1 loc_Exact) as [y e2]. destruct H2 as (P2 & D2 & L2).
  destruct (shr_m y) as [|p|p]; [lia| |lia]. destruct (e2 <=? 1024 - 53); [|done]. lia.
Qed.

Lemma shl_align_digits (m : positive) (e e' : Z) :
  let '(m', e'') := shl_align m e e' in Zdigits2 (Z.pos m') + e'' = Zdigits2 (Z.pos m) + e.
Proof.
  unfold shl_align. destruct (e' - e) as [|d|d] eqn:E; [done|done|].
  assert (H : forall k, Zdigits2 (Z.pos (Pos.iter xO m k)) = Zdigits2 (Z.pos m) + Z.pos k).
  { intros k. induction k as [|k IH] using Pos.peano_ind; [cbn; lia|].
    rewrite Pos.iter_succ. cbn [Zdigits2 digits2_pos] in *. lia. }
  rewrite H. lia.
Qed.

Lemma f64_of_Z_digits (n : Z) :
  0 < n ->
  match f64_of_Z n with
  | S754_finite false m e => Zdigits2 n <= Zdigits2 (Z.pos m) + e
  | S754_infinity false => True
  | _ => False
  end.
Proof.
  intros Hn. destruct n as [|p|p]; [lia| |lia]. unfold f64_of_Z, binary_normalize, binary_round.
  pose proof (shl_align_digits p 0 (fexp 53 1024 (Z.pos (digits2_pos p) + 0))) as Ha.
  destruct (shl_align _ _ _) as [m e]. cbn [Zdigits2] in *.
  pose proof (round_aux_digits (Z.pos m) e ltac:(lia) ltac:(cbn [Zdigits2]; lia)) as Hr.
  destruct (binary_round_aux _ _ _ _ _ _) as [| [] | |[] m' e']; try done. cbn [Zdigits2] in *. lia.
Qed.

(** A share [c] between [1/2] and [1] of [n >= 4] is more than one. *)
Lemma f64_share_gt_one (n k : Z) (c : positive) :
  4 <= n -> Zdigits2 (Z.pos c) = 53 -> 0 <= k <= 1 ->
  f64_leb (f64_mul (f64_of_Z n) (S754_finite false c (-53))) (f64_of_Z k) = false.
Proof.
  intros Hn Hc Hk. pose proof (f64_of_Z_digits n ltac:(lia)) as Hf.
  pose proof (Zdigits2_mono 4 n ltac:(lia)) as Hd. change (Zdigits2 4) with 3 in Hd.
  assert (Hv : f64_of_Z k = S754_zero false \/ f64_of_Z k = S754_finite false 4503599627370496 (-52)).
  { assert (k = 0 \/ k = 1) as [->| ->] by lia; [left|right]; by vm_compute. }
  destruct (f64_of_Z n) as [|[]| |[] m e]; try done; [by destruct Hv as [-> | ->]|].
  unfold f64_mul, SFmul. cbn [xorb].
  pose proof (Zdigits2_mul (Z.pos m) (Z.pos c) ltac:(lia) ltac:(lia)) as Hm.
  change (Z.pos (m * c)) with (Z.pos m * Z.pos c).
  pose proof (round_aux_digits (Z.pos m * Z.pos c) (e + -53) ltac:(lia) ltac:(lia)) as Hr.
  destruct (binary_round_aux _ _ _ _ _ _) as [|[]| |[] m' e']; try done; [by destruct Hv as [-> | ->]|].
  unfold f64_leb, SFleb, SFcompare. destruct Hv as [-> | ->]; [done|].
  destruct (Z.compare_spec e' (-52)); [lia|lia|done].
Qed.


(** Nor does rounding raise it by more than one, which keeps quotients of machine integers
    far below the largest number. *)
Lemma Zdigits2_nonneg (m : Z) : 0 <= Zdigits2 m.
Proof. by destruct m. Qed.

Lemma shr_1_below (x : shr_record) :
  0 <= shr_m x -> 0 <= shr_m (shr_1 x) /\ Zdigits2 (shr_m (shr_1 x)) <= Z.max 0 (Zdigits2 (shr_m x) - 1).
Proof. destruct x as [[|[p|p|]|p] r s]; cbn; intros; split; lia. Qed.

Lemma iter_shr_below (n : positive) (x : shr_record) :
  0 <= shr_m x -> 0 <= shr_m (iter_pos shr_1 n x) /\
  Zdigits2 (shr_m (iter_pos shr_1 n x)) <= Z.max 0 (Zdigits2 (shr_m x) - Z.pos n).
Proof.
  revert x. induction n as [n IH|n IH|]; intros x Hx; cbn [iter_pos].
  - destruct (shr_1_below x Hx) as [H1 D1]. destruct (IH _ H1) as [H2 D2]. destruct (IH _ H2) as [H3 D3]. lia.
  - destruct (IH _ Hx) as [H2 D2]. destruct (IH _ H2) as [H3 D3]. lia.
  - by apply shr_1_below.
Qed.

Lemma shr_fexp_below (m e D : Z) (l : location) :
  0 <= m -> -1074 <= D -> e <= D -> Zdigits2 m + e <= D ->
  let '(x, e') := shr_fexp 53 1024 m e l in 0 <= shr_m x /\ e' <= D /\ Zdigits2 (shr_m x) + e' <= D.
Proof.
  intros Hm HD He Hd. unfold shr_fexp, fexp, emin.
  assert (Hr : shr_m (shr_record_of_loc m l) = m) by (by destruct l as [|[]]).
  destruct (Z.max _ _ - e) as [|p|p] eqn:E; cbn [shr]; rewrite ?Hr; [lia| |lia].
  destruct (iter_shr_below p (shr_record_of_loc m l)) as [H1 H2]; rewrite ?Hr in *; lia.
Qed.

Lemma Zdigits2_succ (m : Z) : 0 <= m -> Zdigits2 (m + 1) <= Zdigits2 m + 1.
Proof.
  intros Hm. destruct (Z.eq_dec m 0) as [->|]; [done|]. rewrite !Zdigits2_log2 by lia.
  pose proof (Z.log2_succ_le m) as H. rewrite <- !Z.add_1_r in H. lia.
Qed.

Lemma round_aux_below (s : bool) (m e D : Z) (l : location) :
  0 <= m -> -1074 <= D < 900 -> e <= D -> Zdigits2 m + e <= D ->
  match binary_round_aux 53 1024 s m e l with
  | S754_finite s' m' e' => s' = s /\ Zdigits2 (Z.pos m') + e' <= D + 1 /\ e' <= D + 1
  | S754_zero _ => True
  | _ => False
  end.
Proof.
  intros Hm HD He Hd. unfold binary_round_aux.
  pose proof (shr_fexp_below m e D l Hm ltac:(lia) He Hd) as H1.
  destruct (shr_fexp 53 1024 m e l) as [x e1]. destruct H1 as (P1 & E1 & D1).
  set (m2 := round_nearest_even _ _).
  assert (Hm2 : 0 <= m2 /\ Zdigits2 m2 <= Zdigits2 (shr_m x) + 1).
  { pose proof (Zdigits2_succ (shr_m x) P1). pose proof (Zdigits2_nonneg (shr_m x)).
    subst m2. destruct (loc_of_shr_record x) as [|[]]; cbn [round_nearest_even]; try case_match; lia. }
  pose proof (shr_fexp_below m2 e1 (D + 1) loc_Exact ltac:(lia) ltac:(lia) ltac:(lia) ltac:(lia)) as H2.
  destruct (shr_fexp 53 1024 m2 e1 loc_Exact) as [y e2]. destruct H2 as (P2 & E2 & D2).
  destruct (shr_m y) as [|p|p]; [done| |lia]. destruct (Z.leb_spec e2 (1024 - 53)); [done|lia].
Qed.

Lemma f64_of_Z_below (n D : Z) :
  0 <= D < 900 -> Zdigits2 n <= D ->
  match f64_of_Z n with
  | S754_finite _ m e => Zdigits2 (Z.pos m) + e <= D + 1
  | S754_zero _ => True
  | _ => False
  end.
Proof.
  intros HD Hn. destruct n as [|p|p]; [done| |];
  unfold f64_of_Z, binary_normalize, binary_round;
  pose proof (shl_align_digits p 0 (fexp 53 1024 (Z.pos (digits2_pos p) + 0))) as Ha;
  (assert (He : snd (shl_align p 0 (fexp 53 1024 (Z.pos (digits2_pos p) + 0))) <= 0)
    by (unfold shl_align; destruct (fexp 53 1024 _ - 0) eqn:E; cbn [snd]; lia));
  destruct (shl_align _ _ _) as [m e]; cbn [Zdigits2 snd] in *;
  match goal with |- context [binary_round_aux 53 1024 ?s _ _ _] =>
    pose proof (round_aux_below s (Z.pos m) e D loc_Exact ltac:(lia) ltac:(lia) ltac:(lia)
      ltac:(cbn [Zdigits2]; lia)) as Hr end;
  destruct (binary_round_aux _ _ _ _ _ _) as [| | |s' m' e']; try done; apply Hr.
Qed.

Lemma SFdiv_core_below (m1 e1 m2 e2 : Z) (q e : Z) (l : location) :
  0 < m1 -> 0 < m2 -> SFdiv_core_binary 53 1024 m1 e1 m2 e2 = (q, e, l) ->
  0 <= q /\ Zdigits2 q + e <= Z.max e (Zdigits2 m1 + e1 - (Zdigits2 m2 + e2) + 1) /\
  e <= Z.max (Zdigits2 m1 + e1 - (Zdigits2 m2 + e2) - 53) (-1074).
Proof.
  intros H1 H2. unfold SFdiv_core_binary. set (e' := Z.min _ _).
  set (m' := match _ with Z0 => m1 | _ => _ end). intros E.
  assert (Hm : m' = m1 * 2 ^ (e1 - e2 - e')).
  { subst m'. destruct (e1 - e2 - e') as [|p|p] eqn:Es.
    - lia.
    - by rewrite Z.shiftl_mul_pow2 by lia.
    - subst e'. lia. }
  pose proof (Z_div_mod m' m2 ltac:(lia)) as Hd. destruct (Z.div_eucl m' m2) as [q' r].
  injection E as <- <- _. destruct Hd as [Hq Hr].
  assert (Hp : 0 < 2 ^ (e1 - e2 - e')) by (apply Z.pow_pos_nonneg; subst e'; lia).
  assert (Hq0 : 0 <= q') by nia.
  assert (He : e' <= Z.max (Zdigits2 m1 + e1 - (Zdigits2 m2 + e2) - 53) (-1074)).
  { subst e'. unfold fexp, emin. lia. }
  split; [done|]. split; [|done].
  destruct (Z.eq_dec q' 0) as [->|Hn]; [cbn; lia|].
  rewrite !Zdigits2_log2 by lia.
  assert (Hl : Z.log2 q' <= Z.log2 m1 + (e1 - e2 - e') - Z.log2 m2).
  { pose proof (Z.log2_mul_below m2 q' ltac:(lia) ltac:(lia)) as Hb.
    assert (Hle : m2 * q' <= m1 * 2 ^ (e1 - e2 - e')) by nia.
    apply Z.log2_le_mono in Hle. rewrite Z.log2_mul_pow2 in Hle by (subst e'; lia). lia. }
  lia.
Qed.

(** A quotient of machine integers is below [math.MaxFloat64]. *)
Lemma f64_ratio_below (a b : Z) :
  - 2 ^ 63 <= a < 2 ^ 63 -> 0 < b < 2 ^ 63 ->
  f64_ltb (f64_div (f64_of_Z a) (f64_of_Z b)) (S754_finite false 9007199254740991 971) = true.
Proof.
  intros Ha Hb.
  assert (Hda : Zdigits2 a <= 64).
  { destruct a as [|p|p]; [done| |]; cbn [Zdigits2];
      change (Z.pos (digits2_pos p)) with (Zdigits2 (Z.pos p)); rewrite Zdigits2_log2 by lia;
      (assert (Z.log2 (Z.pos p) < 64) by (apply Z.log2_lt_pow2; lia)); lia. }
  assert (Hdb : 1 <= Zdigits2 b) by (change 1 with (Zdigits2 1); apply Zdigits2_mono; lia).
  pose proof (f64_of_Z_below a 64 ltac:(lia) Hda) as H1.
  pose proof (f64_of_Z_digits b ltac:(lia)) as H2.
  destruct (f64_of_Z b) as [|[]| |[] mb eb]; try done.
  { destruct (f64_of_Z a) as [| | |sa ma ea]; done. }
  destruct (f64_of_Z a) as [| | |sa ma ea]; try done.
  unfold f64_div, SFdiv. destruct (SFdiv_core_binary 53 1024 (Z.pos ma) ea (Z.pos mb) eb) as [[q e] l] eqn:E.
  apply SFdiv_core_below in E as (Hq & Hd & He); [|lia..].
  pose proof (round_aux_below (xorb sa false) q e 65 l Hq ltac:(lia) ltac:(lia) ltac:(lia)) as Hr.
  destruct (binary_round_aux _ _ _ _ _ _) as [| | |s' m' e']; try done.
  unfold f64_ltb, SFltb, SFcompare. destruct s'; [done|]. destruct (Z.compare_spec e' 971); [lia|done|lia].
Qed.
