(* ===== verification/Difficulty.v ===== *)
(** * Difficulty adjustment

    [blockchain/nogopow/difficulty_adjustment.go] (the PI controller with double
    exponential smoothing), [blockchain/nogopow/compatibility.go] (the calculator the
    miner uses), and the three validators that compare a block with it:
    [validateBlockDifficultyLocked] of [core/chain.go], the difficulty check of
    [consensus/validator.go] and [validateDifficulty] of [consensus/forks.go].

    All [float64] arithmetic is that of [Float], operation by operation in the source's
    order; [big.Int] is [Z]; a NaN handed to [big.NewFloat] is the panic it is in Go. *)

From S2P Require Import Prelude Bytes Sha256 Config Merkle Json Transaction Float.
From stdpp Require Import base list strings numbers sorting.
From Stdlib Require Import ZArith Lia SpecFloat.

Open Scope Z_scope.
Open Scope go_scope.

Definition defaultWindowSize : Z := 10.
Definition maxReasonableTimeDiff : Z := 3600.
Definition defaultKp : float64 := f64_const 15 100.
Definition defaultKi : float64 := f64_const 3 100.
Definition integralDecay : float64 := f64_const 97 100.
Definition integralClampMin : float64 := f64_of_Z (-3).
Definition integralClampMax : float64 := f64_of_Z 3.
Definition scanDepth : nat := 100.
Definition smoothingAlpha : float64 := f64_const 3 10.
Definition one_minus_alpha : float64 := f64_const 7 10.
Definition smoothingBeta : float64 := f64_const 1 10.
Definition one_minus_beta : float64 := f64_const 9 10.
Definition maxSmoothingWindow : Z := 50.
Definition errMin : float64 := f64_const (-75) 100.
Definition errMax : float64 := f64_of_Z 3.

(** The fields of [nogopow.Header] the adjuster reads. *)
Record Header := mkHeader {
  hd_Number : option Z;
  hd_Time : Z;
  hd_Difficulty : option Z
}.

Record DifficultyAdjuster := mkAdjuster {
  consensusParams : ConsensusParams;
  integralGain : float64;
  proportionalGain : float64;
  windowSize : Z;
  getAncestor : option (Z -> option Header)
}.

Definition NewDifficultyAdjuster (p : ConsensusParams) : DifficultyAdjuster :=
  let w := if DifficultyAdjustmentInterval p >? 1 then i64 (DifficultyAdjustmentInterval p)
           else defaultWindowSize in
  mkAdjuster p defaultKi defaultKp w None.

Definition SetAncestorFunc (fn : Z -> option Header) (da : DifficultyAdjuster)
  : DifficultyAdjuster :=
  mkAdjuster (consensusParams da) (integralGain da) (proportionalGain da) (windowSize da)
    (Some fn).

Definition SetIntegralGain (ki : float64) (da : DifficultyAdjuster) : DifficultyAdjuster :=
  mkAdjuster (consensusParams da) ki (proportionalGain da) (windowSize da) (getAncestor da).

Definition clampFloat64 (f lo hi : float64) : float64 :=
  if f64_ltb f lo then lo else if f64_ltb hi f then hi else f.

Definition targetTime (da : DifficultyAdjuster) : Z := BlockTimeTargetSeconds (consensusParams da).

(** [float64(targetTime-t) / float64(targetTime)], clamped. *)
Definition time_error (target t : Z) : float64 :=
  clampFloat64 (f64_div (f64_of_Z (i64 (target - t))) (f64_of_Z target)) errMin errMax.

(** ** Average block time *)

(** The time differences of the window, newest first; [n] more blocks to look at, the
    next one at distance [i]. *)
Fixpoint window_diffs (anc : Z -> option Header) (height : Z) (n : nat) (i : Z) : list Z :=
  match n with
  | O => []
  | S n' =>
      if height <? i then []
      else
        let rest := window_diffs anc height n' (i + 1) in
        match anc (u64 (height - i + 1)), anc (u64 (height - i)) with
        | Some curr, Some prev =>
            if (hd_Time prev =? 0) || (hd_Time curr <=? hd_Time prev) then rest
            else
              let diff := i64 (hd_Time curr - hd_Time prev) in
              let diff := if diff <? 1 then 1 else diff in
              let diff := if diff >? 300 then 300 else diff in
              diff :: rest
        | _, _ => rest
        end
  end.

Definition median (l : list Z) : Z := nth (length l / 2) (merge_sort Z.le l) 0.

Definition fallback_block_time (da : DifficultyAdjuster) (currentTime : Z) (parent : Header) : Z :=
  if (0 <? hd_Time parent) && (hd_Time parent <? currentTime) then
    let timeDiff := i64 (currentTime - hd_Time parent) in
    if (0 <? timeDiff) && (timeDiff <? maxReasonableTimeDiff) then timeDiff else targetTime da
  else targetTime da.

Definition computeAverageBlockTime (da : DifficultyAdjuster) (currentTime : Z) (parent : Header)
  : Z :=
  match getAncestor da, hd_Number parent with
  | Some anc, Some n =>
      let height := u64 n in
      let window := if windowSize da >? 50 then 50 else windowSize da in
      let timeDiffs := window_diffs anc height (Z.to_nat window) 1 in
      match timeDiffs with
      | [] => fallback_block_time da currentTime parent
      | _ => median timeDiffs
      end
  | _, _ => fallback_block_time da currentTime parent
  end.

(** ** Integral over the chain's history *)
Fixpoint integral_loop (anc : Z -> option Header) (target height : Z) (n : nat) (i : Z)
  (integral : float64) (count : nat) : float64 :=
  match n with
  | O => integral
  | S n' =>
      if negb (i <? height) then integral
      else
        match anc (u64 (height - i)) with
        | None => integral
        | Some block =>
            let prev := if i + 1 <? height then anc (u64 (height - i - 1)) else None in
            let skip := integral_loop anc target height n' (i + 1) integral count in
            match prev with
            | None => skip
            | Some prev =>
                if hd_Time prev =? 0 then skip
                else
                  let timeDiff := i64 (hd_Time block - hd_Time prev) in
                  if timeDiff <=? 0 then skip
                  else
                    let timeDiff := if timeDiff >? i64 (target * 4) then i64 (target * 4)
                                    else timeDiff in
                    let err := time_error target timeDiff in
                    let integral := match count with
                                    | O => err
                                    | S _ => f64_add (f64_mul integral integralDecay) err
                                    end in
                    integral_loop anc target height n' (i + 1) integral (S count)
            end
        end
  end.

Definition computeChainIntegral (da : DifficultyAdjuster) (parent : Header) : float64 :=
  match getAncestor da, hd_Number parent with
  | Some anc, Some n =>
      let height := u64 n in
      if height =? 0 then f64_of_Z 0
      else clampFloat64 (integral_loop anc (targetTime da) height scanDepth 0 (f64_of_Z 0) 0)
             integralClampMin integralClampMax
  | _, _ => f64_of_Z 0
  end.

(** ** Double exponential smoothing *)

(** The errors of the window, newest first. *)
Fixpoint smoothing_errors (anc : Z -> option Header) (target height : Z) (n : nat) (i : Z)
  : list float64 :=
  match n with
  | O => []
  | S n' =>
      if negb (i <? height) then []
      else
        match anc (u64 (height - i)) with
        | None => []
        | Some block =>
            let prev := if i + 1 <? height then anc (u64 (height - i - 1)) else None in
            let rest := smoothing_errors anc target height n' (i + 1) in
            match prev with
            | None => rest
            | Some prev =>
                if (hd_Time prev =? 0) || (hd_Time block <=? hd_Time prev) then rest
                else
                  let timeDiff := i64 (hd_Time block - hd_Time prev) in
                  let timeDiff := if (timeDiff <=? 0) || (timeDiff >? i64 (target * 10))
                                  then target else timeDiff in
                  time_error target timeDiff :: rest
            end
        end
  end.

Definition smooth_step (lt : float64 * float64) (err : float64) : float64 * float64 :=
  let '(level, trend) := lt in
  let level' := f64_add (f64_mul smoothingAlpha err)
                  (f64_mul one_minus_alpha (f64_add level trend)) in
  let trend' := f64_add (f64_mul smoothingBeta (f64_sub level' level))
                  (f64_mul one_minus_beta trend) in
  (level', trend').

Definition calculateDoubleExponentialSmoothing (da : DifficultyAdjuster) (avgTime target : Z)
  (parent : Header) : float64 :=
  let simple := if avgTime >? 0 then time_error target avgTime else f64_of_Z 0 in
  match getAncestor da, hd_Number parent with
  | Some anc, Some n =>
      if target <=? 0 then simple
      else
        let height := u64 n in
        let window := if windowSize da <? 5 then 5 else windowSize da in
        let window := if window >? maxSmoothingWindow then maxSmoothingWindow else window in
        match rev (smoothing_errors anc target height (Z.to_nat window) 0) with
        | [] => f64_of_Z 0
        | oldest :: newer =>
            let '(level, trend) := fold_left smooth_step newer (oldest, f64_of_Z 0) in
            clampFloat64 (f64_add level trend) errMin errMax
        end
  | _, _ => simple
  end.

(** ** The controller *)
Definition ceilOffset : float64 := f64_const 999999 1000000.
Definition maxAdjust : float64 := f64_const 5 4.
Definition minAdjust : float64 := f64_const 3 4.

(** [parentDiff * mult + 0.999999], truncated, in [big.Float]s. *)
Definition scaled_ceiling (parentDiff : Z) (mult : float64) : result Z :=
  let? m := bf_of_f64 mult in
  let? c := bf_of_f64 ceilOffset in
  Ok (bf_int (bf_add (bf_mul (bf_of_int parentDiff) m) c)).

Definition controller_multiplier (da : DifficultyAdjuster) (avgTime target : Z)
  (parent : Header) : float64 :=
  let error := if (avgTime >? 0) && (target >? 0)
               then f64_div (f64_of_Z (i64 (target - avgTime))) (f64_of_Z target)
               else f64_of_Z 0 in
  let error := clampFloat64 error errMin errMax in
  let integral := computeChainIntegral da parent in
  let piOutput := f64_add (f64_mul (proportionalGain da) error)
                    (f64_mul (integralGain da) integral) in
  let smoothedOutput := calculateDoubleExponentialSmoothing da avgTime target parent in
  let multiplier := f64_add (f64_add (f64_of_Z 1) (f64_mul (f64_const 7 10) piOutput))
                      (f64_mul (f64_const 3 10) smoothedOutput) in
  clampFloat64 multiplier minAdjust maxAdjust.

Definition calculateDeterministicDifficulty (da : DifficultyAdjuster) (avgTime target : Z)
  (parentDiff : Z) (parent : Header) : result Z :=
  let? newDifficulty := scaled_ceiling parentDiff (controller_multiplier da avgTime target parent) in
  Ok (if newDifficulty <? 0 then 0 else newDifficulty).

Definition enforceBoundaryConditions (da : DifficultyAdjuster) (newDifficulty parentDiff : Z)
  : result Z :=
  let minDiff := MinDifficulty (consensusParams da) in
  let d := if newDifficulty <? minDiff then minDiff else newDifficulty in
  let maxDiff := Z.shiftl 1 256 in
  let d := if d >? maxDiff then maxDiff else d in
  let? maxAllowedInt := scaled_ceiling parentDiff maxAdjust in
  let? minAllowedInt := scaled_ceiling parentDiff minAdjust in
  let d := if d >? maxAllowedInt then maxAllowedInt else d in
  let d := if d <? minAllowedInt then minAllowedInt else d in
  Ok (if d <? minDiff then minDiff else d).

Definition CalcDifficulty (da : DifficultyAdjuster) (currentTime : Z) (parent : option Header)
  : result Z :=
  let minDiff := if MinDifficulty (consensusParams da) >? 0
                 then MinDifficulty (consensusParams da) else 1 in
  match parent with
  | None => Ok minDiff
  | Some parent =>
      match hd_Difficulty parent with
      | None => Ok minDiff
      | Some parentDiff =>
          let avgBlockTime := computeAverageBlockTime da currentTime parent in
          let? newDifficulty :=
            calculateDeterministicDifficulty da avgBlockTime (targetTime da) parentDiff parent in
          enforceBoundaryConditions da newDifficulty parentDiff
      end
  end.

Definition ValidateDifficulty (da : DifficultyAdjuster) (difficulty : option Z)
  (parent : option Header) : bool :=
  match difficulty with
  | None => false
  | Some d =>
      if d <=? 0 then false
      else if d <? MinDifficulty (consensusParams da) then false
      else match parent with
           | Some h =>
               match hd_Difficulty h with
               | Some pd => if pd >? 0 then negb (d >? pd * 2048 / 1000) else true
               | None => true
               end
           | None => true
           end
  end.

(** ** The calculator of [compatibility.go] *)
Definition CalcNextDifficulty (da : DifficultyAdjuster) (parent : option (Z * Z * Z))
  (currentTime : Z) : result Z :=
  match parent with
  | None => Ok (MinDifficulty (consensusParams da))
  | Some (height, timestamp, bits) =>
      let? d := CalcDifficulty da currentTime
                  (Some (mkHeader (Some (i64 height)) (u64 timestamp) (Some bits))) in
      let b := u64 d in
      let b := if b >? 4294967295 then 4294967295 else b in
      Ok (if b <? 1 then 1 else b)
  end.

Definition calculator_ValidateDifficulty (da : DifficultyAdjuster)
  (parent : option (Z * Z * Z)) (current : option (Z * Z * Z)) : result unit :=
  match parent, current with
  | Some _, Some (_, ts, bits) =>
      let? expected := CalcNextDifficulty da parent (u64 ts) in
      fail_if (negb (bits =? expected)) "bad difficulty"
  | _, _ => Ok tt
  end.

(** ** The validators *)

(** [actual] within [tolerance] percent of [expected]. *)
Definition within_tolerance (expected actual tolerance : Z) : result unit :=
  fail_if (actual <? expected * (100 - tolerance) / 100) "difficulty too low" ;;?
  fail_if (actual >? expected * (100 + tolerance) / 100) "difficulty too high".

(** The header of [parent] as the validators build it. *)
Definition parent_header (parent : Block) : Header :=
  mkHeader (Some (i64 (GetHeight parent))) (u64 (h_TimestampUnix (b_Header parent)))
    (Some (h_DifficultyBits (b_Header parent))).

Definition difficulty_check (p : ConsensusParams) (tolerance : Z) (block parent : Block)
  : result unit :=
  let bits := h_DifficultyBits (b_Header block) in
  fail_if (bits <? MinDifficultyBits p) "difficulty below min" ;;?
  fail_if (bits >? MaxDifficultyBits p) "difficulty above max" ;;?
  if negb (DifficultyEnable p) then Ok tt
  else
    let? expected := CalcDifficulty (NewDifficultyAdjuster p)
                       (u64 (h_TimestampUnix (b_Header block))) (Some (parent_header parent)) in
    within_tolerance expected bits tolerance.

(** [core.DifficultyTolerancePercent] and [consensus.DifficultyTolerancePercent]. *)
Definition core_tolerance : Z := 50.
Definition consensus_tolerance : Z := 15.

Definition validateBlockDifficultyLocked (p : ConsensusParams) (block parent : Block)
  : result unit := difficulty_check p core_tolerance block parent.

(** [BlockValidator.validateDifficulty]; its adjuster is also a new one without an
    ancestor function. *)
Definition BlockValidator_validateDifficulty (p : ConsensusParams) (block : Block)
  (parent : option Block) : result unit :=
  if GetHeight block =? 0 then
    fail_if (negb (h_DifficultyBits (b_Header block) =? GenesisDifficultyBits p))
      "genesis difficulty mismatch"
  else match parent with
       | None => Err "parent block is nil"
       | Some parent => difficulty_check p consensus_tolerance block parent
       end.

(** [validateDifficultyNogoPow]; index 0 returns before the genesis test is reached. *)
Definition validateDifficultyNogoPow (p : ConsensusParams) (path : list Block) (idx : Z)
  : result unit :=
  if (idx <=? 0) || (idx >=? len path) then Ok tt
  else
    match nth_error path (Z.to_nat idx), nth_error path (Z.to_nat (idx - 1)) with
    | Some current, Some parent => difficulty_check p consensus_tolerance current parent
    | _, _ => Ok tt
    end.

(** * Lemmas *)

(** ** The ceiling by an offset of 0.999999 *)
Definition offset_big : bigfloat := mkBig 9007190247541737 (-53) 53.

Lemma ceilOffset_big : bf_of_f64 ceilOffset = Ok offset_big.
Proof. vm_compute. reflexivity. Qed.

(** What [bf_add] rounds, for a summand of exponent between -53 and 0. *)
Definition offset_sum (m e : Z) : Z := m * 2 ^ (e + 53) + 9007190247541737.

Lemma bf_add_offset (x : bigfloat) :
  -53 <= bf_e x -> 53 <= bf_prec x ->
  bf_add x offset_big = bf_round (bf_prec x) (offset_sum (bf_m x) (bf_e x)) (-53).
Proof.
  intros He Hp. unfold bf_add, offset_sum. cbn [offset_big bf_e bf_m bf_prec].
  rewrite Z.min_r, Z.max_l by lia. replace (-53 - -53) with 0 by lia.
  rewrite Z.pow_0_r, Z.mul_1_r. by replace (bf_e x - -53) with (bf_e x + 53) by lia.
Qed.

Section Offset.
Context (x : bigfloat).
Context (Hm : 0 <= bf_m x) (He : -53 <= bf_e x <= 0) (Hp : bf_prec x = 64)
  (Hv : bf_m x < 2 ^ 34 * 2 ^ (- bf_e x)).

Lemma offset_sum_bound : 0 <= offset_sum (bf_m x) (bf_e x) < 2 ^ 88.
Proof.
  unfold offset_sum. assert (0 < 2 ^ (bf_e x + 53)) by (apply Z.pow_pos_nonneg; lia).
  assert (E : 2 ^ (- bf_e x) * 2 ^ (bf_e x + 53) = 2 ^ 53)
    by (rewrite <- Z.pow_add_r by lia; f_equal; lia).
  assert (bf_m x * 2 ^ (bf_e x + 53) < 2 ^ 34 * 2 ^ 53) by (rewrite <- E; nia).
  change (2 ^ 34 * 2 ^ 53) with (2 ^ 87) in *. change (2 ^ 88) with (2 * 2 ^ 87). lia.
Qed.

Lemma offset_exponent : -53 + Z.max 0 (bitlen (offset_sum (bf_m x) (bf_e x)) - bf_prec x) <= -20.
Proof.
  pose proof (bitlen_bound (offset_sum (bf_m x) (bf_e x)) 88 ltac:(lia) offset_sum_bound). lia.
Qed.

(** The truncation of [x + 0.999999] against an integer. *)
Lemma offset_int_le (n : Z) :
  bf_m x <= n * 2 ^ (- bf_e x) -> bf_int (bf_add x offset_big) <= n.
Proof.
  intros H. rewrite bf_add_offset by lia. pose proof offset_exponent as Hx.
  pose proof offset_sum_bound as [Hb _].
  assert (E : 2 ^ (- bf_e x) * 2 ^ (bf_e x + 53) = 2 ^ 53)
    by (rewrite <- Z.pow_add_r by lia; f_equal; lia).
  assert (0 < 2 ^ (bf_e x + 53)) by (apply Z.pow_pos_nonneg; lia).
  assert (Hs : offset_sum (bf_m x) (bf_e x) <= (n * 2 ^ 20 + (2 ^ 20 - 1)) * 2 ^ (- -53 - 20)).
  { unfold offset_sum. change (2 ^ (- -53 - 20)) with (2 ^ 33).
    assert (bf_m x * 2 ^ (bf_e x + 53) <= n * 2 ^ 53) by (rewrite <- E; nia).
    change (2 ^ 53) with (2 ^ 20 * 2 ^ 33) in *. lia. }
  pose proof (bf_round_le (bf_prec x) _ (-53) 20 _ Hb ltac:(lia) Hx Hs) as Hr. cbv zeta in Hr.
  set (r := bf_round _ _ _) in *. assert (Hre : bf_e r <= -20) by exact Hx.
  unfold bf_int. replace (0 <=? bf_e r) with false by lia.
  assert (Hpow : 2 ^ (- bf_e r) = 2 ^ 20 * 2 ^ (- bf_e r - 20))
    by (rewrite <- Z.pow_add_r by lia; f_equal; lia).
  assert (0 < 2 ^ (- bf_e r - 20)) by (apply Z.pow_pos_nonneg; lia).
  apply Z.lt_succ_r, Z.div_lt_upper_bound; [lia|]. rewrite Hpow. nia.
Qed.

Lemma offset_int_ge (n : Z) :
  n * 2 ^ 53 <= offset_sum (bf_m x) (bf_e x) -> n <= bf_int (bf_add x offset_big).
Proof.
  intros H. rewrite bf_add_offset by lia. pose proof offset_exponent as Hx.
  pose proof offset_sum_bound as [Hb _].
  assert (Hs : (n * 2 ^ 20) * 2 ^ (- -53 - 20) <= offset_sum (bf_m x) (bf_e x)).
  { change (2 ^ (- -53 - 20)) with (2 ^ 33). change (2 ^ 53) with (2 ^ 20 * 2 ^ 33) in H. lia. }
  pose proof (bf_round_ge (bf_prec x) _ (-53) 20 _ Hb ltac:(lia) Hx Hs) as Hr. cbv zeta in Hr.
  set (r := bf_round _ _ _) in *. assert (Hre : bf_e r <= -20) by exact Hx.
  unfold bf_int. replace (0 <=? bf_e r) with false by lia.
  assert (Hpow : 2 ^ (- bf_e r) = 2 ^ 20 * 2 ^ (- bf_e r - 20))
    by (rewrite <- Z.pow_add_r by lia; f_equal; lia).
  assert (0 < 2 ^ (- bf_e r - 20)) by (apply Z.pow_pos_nonneg; lia).
  apply Z.div_le_lower_bound; [lia|]. rewrite Hpow. lia.
Qed.

Lemma offset_int_floor (n : Z) :
  n * 2 ^ (- bf_e x) <= bf_m x -> n <= bf_int (bf_add x offset_big).
Proof.
  intros H. apply offset_int_ge. unfold offset_sum.
  assert (E : 2 ^ (- bf_e x) * 2 ^ (bf_e x + 53) = 2 ^ 53)
    by (rewrite <- Z.pow_add_r by lia; f_equal; lia).
  assert (0 < 2 ^ (bf_e x + 53)) by (apply Z.pow_pos_nonneg; lia).
  assert (n * 2 ^ 53 <= bf_m x * 2 ^ (bf_e x + 53)) by (rewrite <- E; nia). lia.
Qed.

End Offset.

(** ** The product with a multiplier of 53 bits *)
Section Product.
Context (pd mm e : Z).
Context (Hpd : 0 <= pd < 2 ^ 32) (Hmm : 0 <= mm < 2 ^ 53) (He : -53 <= e <= -52).

Definition product : bigfloat := bf_mul (bf_of_int pd) (mkBig mm e 53).

Lemma product_eq : product = bf_round 64 (pd * mm) e.
Proof.
  unfold product, bf_mul, bf_of_int. cbn [bf_m bf_e bf_prec].
  pose proof (bitlen_bound pd 32 ltac:(lia) Hpd). by rewrite (Z.max_r (bitlen pd) 64), Z.max_l by lia.
Qed.

Lemma product_mantissa : 0 <= pd * mm < 2 ^ 85.
Proof. change (2 ^ 85) with (2 ^ 32 * 2 ^ 53). nia. Qed.

Lemma product_shift : 0 <= Z.max 0 (bitlen (pd * mm) - 64) <= 21.
Proof. pose proof (bitlen_bound (pd * mm) 85 ltac:(lia) product_mantissa). lia. Qed.

Lemma product_exp : -53 <= bf_e product <= -31.
Proof. rewrite product_eq. cbn. pose proof product_shift. lia. Qed.

(** The product keeps its side of every quarter. *)
Lemma product_le (k : Z) : pd * mm <= k * 2 ^ (- e - 2) -> bf_m product <= k * 2 ^ (- bf_e product - 2).
Proof.
  intros H. rewrite product_eq. pose proof product_shift. pose proof product_mantissa.
  apply (bf_round_le 64 (pd * mm) e 2 k); lia.
Qed.
Lemma product_ge (k : Z) : k * 2 ^ (- e - 2) <= pd * mm -> k * 2 ^ (- bf_e product - 2) <= bf_m product.
Proof.
  intros H. rewrite product_eq. pose proof product_shift. pose proof product_mantissa.
  apply (bf_round_ge 64 (pd * mm) e 2 k); lia.
Qed.

Lemma product_nonneg : 0 <= bf_m product.
Proof.
  pose proof (product_ge 0) as H. rewrite !Z.mul_0_l in H. apply H, product_mantissa.
Qed.

Lemma quarter_pow (e' : Z) : e' <= -2 -> 2 ^ (- e') = 4 * 2 ^ (- e' - 2).
Proof. intros. change 4 with (2 ^ 2). rewrite <- Z.pow_add_r by lia. f_equal. lia. Qed.

Lemma product_small : bf_m product < 2 ^ 34 * 2 ^ (- bf_e product).
Proof.
  pose proof product_exp. pose proof product_mantissa as Hm.
  assert (Hq : 2 ^ (- e) = 4 * 2 ^ (- e - 2)) by (apply quarter_pow; lia).
  assert (2 ^ 52 <= 2 ^ (- e)) by (apply Z.pow_le_mono_r; lia).
  assert (bf_m product <= 2 ^ 35 * 2 ^ (- bf_e product - 2)).
  { apply product_le. change (2 ^ 85) with (2 ^ 33 * 2 ^ 52) in Hm.
    change (2 ^ 35) with (4 * 2 ^ 33). lia. }
  rewrite quarter_pow by lia. assert (0 < 2 ^ (- bf_e product - 2)) by (apply Z.pow_pos_nonneg; lia).
  change (2 ^ 35) with 34359738368 in *. change (2 ^ 34) with 17179869184. lia.
Qed.

Definition ceiling : Z := bf_int (bf_add product offset_big).

(** The truncated sum against an integer, in quarters of the exact product. *)
Lemma ceiling_le (n : Z) : pd * mm <= 4 * n * 2 ^ (- e - 2) -> ceiling <= n.
Proof.
  intros H. pose proof product_exp. apply offset_int_le;
    [apply product_nonneg|lia|by rewrite product_eq|apply product_small|].
  rewrite quarter_pow by lia. apply product_le in H. lia.
Qed.

Lemma ceiling_ge (n : Z) : 4 * n * 2 ^ (- e - 2) <= pd * mm -> n <= ceiling.
Proof.
  intros H. pose proof product_exp. apply offset_int_floor;
    [apply product_nonneg|lia|by rewrite product_eq|apply product_small|].
  rewrite quarter_pow by lia. apply product_ge in H. lia.
Qed.

Lemma ceiling_gt (n : Z) : (4 * n + 1) * 2 ^ (- e - 2) <= pd * mm -> n + 1 <= ceiling.
Proof.
  intros H. pose proof product_exp as Hx. apply offset_int_ge;
    [apply product_nonneg|lia|by rewrite product_eq|apply product_small|].
  apply product_ge in H. unfold offset_sum.
  assert (E : 2 ^ (- bf_e product - 2) * 2 ^ (bf_e product + 53) = 2 ^ 51)
    by (rewrite <- Z.pow_add_r by lia; f_equal; lia).
  assert (0 < 2 ^ (bf_e product + 53)) by (apply Z.pow_pos_nonneg; lia).
  assert ((4 * n + 1) * 2 ^ 51 <= bf_m product * 2 ^ (bf_e product + 53)) by (rewrite <- E; nia).
  change (2 ^ 53) with (4 * 2 ^ 51). lia.
Qed.

(** A product that is a whole number of quarters is rounded up exactly. *)
Lemma ceiling_quarters (k : Z) : pd * mm = k * 2 ^ (- e - 2) -> ceiling = (k + 3) / 4.
Proof.
  intros H. assert (0 < 2 ^ (- e - 2)) by (apply Z.pow_pos_nonneg; lia).
  pose proof (Z.div_mod (k + 3) 4 ltac:(lia)). pose proof (Z.mod_pos_bound (k + 3) 4 ltac:(lia)).
  set (n := (k + 3) / 4) in *. apply Z.le_antisymm.
  - apply ceiling_le. rewrite H. nia.
  - destruct (Z.eq_dec (4 * n) k) as [E|E]; [apply ceiling_ge; rewrite H; nia|].
    replace n with (n - 1 + 1) by lia. apply ceiling_gt. rewrite H. nia.
Qed.

End Product.

Lemma scaled_ceiling_eq (pd mm e : Z) (mult : float64) :
  bf_of_f64 mult = Ok (mkBig mm e 53) -> scaled_ceiling pd mult = Ok (ceiling pd mm e).
Proof. intros H. unfold scaled_ceiling. by rewrite H, ceilOffset_big. Qed.

Lemma max_allowed (pd : Z) :
  0 <= pd < 2 ^ 32 -> scaled_ceiling pd maxAdjust = Ok ((5 * pd + 3) / 4).
Proof.
  intros H. rewrite (scaled_ceiling_eq pd 5629499534213120 (-52)) by (vm_compute; reflexivity).
  f_equal. apply ceiling_quarters; [done|lia|lia|]. change (2 ^ (- -52 - 2)) with (2 ^ 50). lia.
Qed.

Lemma min_allowed (pd : Z) :
  0 <= pd < 2 ^ 32 -> scaled_ceiling pd minAdjust = Ok ((3 * pd + 3) / 4).
Proof.
  intros H. rewrite (scaled_ceiling_eq pd 6755399441055744 (-53)) by (vm_compute; reflexivity).
  f_equal. apply ceiling_quarters; [done|lia|lia|]. change (2 ^ (- -53 - 2)) with (2 ^ 51). lia.
Qed.

(** ** The boundary conditions *)
Lemma if_lt_max (a b : Z) : (if a <? b then b else a) = Z.max a b.
Proof. destruct (Z.ltb_spec a b); lia. Qed.
Lemma if_gt_min (a b : Z) : (if a >? b then b else a) = Z.min a b.
Proof. destruct (Z.gtb_spec a b); lia. Qed.

Lemma enforceBoundary_eq (da : DifficultyAdjuster) (d pd : Z) :
  0 <= pd < 2 ^ 32 -> 0 <= MinDifficulty (consensusParams da) < 2 ^ 32 ->
  enforceBoundaryConditions da d pd
  = Ok (Z.max (MinDifficulty (consensusParams da))
          (Z.max ((3 * pd + 3) / 4) (Z.min ((5 * pd + 3) / 4) d))).
Proof.
  intros Hpd Hmin. unfold enforceBoundaryConditions. rewrite max_allowed, min_allowed by done.
  cbn [result_bind]. f_equal. change (Z.shiftl 1 256) with (2 ^ 256).
  set (lo := (3 * pd + 3) / 4). set (hi := (5 * pd + 3) / 4).
  set (mn := MinDifficulty (consensusParams da)) in *.
  assert (lo <= hi) by (apply Z.div_le_mono; lia).
  assert (hi < 2 ^ 256) by (apply Z.div_lt_upper_bound; lia).
  assert (2 ^ 32 <= 2 ^ 256) by (apply Z.pow_le_mono_r; lia).
  rewrite !if_lt_max, !if_gt_min. lia.
Qed.

(** ** The controller without an ancestor function *)

(** The multiplier as a function of the block time, for the default target. *)
Definition plain_multiplier (avg : Z) : float64 :=
  let error := time_error DefaultTargetBlockTime avg in
  clampFloat64
    (f64_add (f64_add (f64_of_Z 1)
       (f64_mul (f64_const 7 10)
          (f64_add (f64_mul defaultKp error) (f64_mul defaultKi (f64_of_Z 0)))))
       (f64_mul (f64_const 3 10) error)) minAdjust maxAdjust.

Lemma plain_controller (p : ConsensusParams) (avg : Z) (parent : Header) :
  0 < avg ->
  controller_multiplier (NewDifficultyAdjuster p) avg DefaultTargetBlockTime parent
  = plain_multiplier avg.
Proof.
  intros H. unfold controller_multiplier, plain_multiplier, computeChainIntegral,
    calculateDoubleExponentialSmoothing, time_error.
  cbn [NewDifficultyAdjuster getAncestor proportionalGain integralGain].
  by replace (avg >? 0) with true by lia.
Qed.

(** The multiplier is an ordinary number between the bounds and lies on the right side
    of one. *)
Definition multiplier_ok (avg : Z) : bool :=
  match bf_of_f64 (plain_multiplier avg) with
  | Ok b =>
      (0 <=? bf_m b) && (bf_m b <? 2 ^ 53) && (-53 <=? bf_e b) && (bf_e b <=? -52) &&
      (bf_prec b =? 53) &&
      (if avg <? DefaultTargetBlockTime then 2 ^ (- bf_e b) <=? bf_m b
       else if DefaultTargetBlockTime <? avg then bf_m b <=? 2 ^ (- bf_e b)
       else bf_m b =? 2 ^ (- bf_e b))
  | Err _ => false
  end.

Lemma multipliers_ok : forallb multiplier_ok (seqZ 1 60) = true.
Proof. vm_compute. reflexivity. Qed.

(** From 60 seconds on the error is the lower clamp, so the multiplier is that of 60. *)
Definition error_clamped (avg : Z) : bool :=
  f64_ltb (f64_div (f64_of_Z (i64 (DefaultTargetBlockTime - avg)))
             (f64_of_Z DefaultTargetBlockTime)) errMin.

Lemma errors_clamped : forallb error_clamped (seqZ 60 3540) = true.
Proof. vm_compute. reflexivity. Qed.

Lemma error_at (avg : Z) :
  60 <= avg < maxReasonableTimeDiff -> time_error DefaultTargetBlockTime avg = errMin.
Proof.
  intros H. unfold maxReasonableTimeDiff in H.
  assert (Hc : error_clamped avg = true).
  { apply (proj1 (forallb_forall _ _) errors_clamped), list_elem_of_In, elem_of_seqZ. lia. }
  unfold error_clamped in Hc. unfold time_error, clampFloat64. by rewrite Hc.
Qed.

Lemma multiplier_at (avg : Z) : 0 < avg < maxReasonableTimeDiff -> multiplier_ok avg = true.
Proof.
  intros H.
  assert (Hs : forall a, 1 <= a <= 60 -> multiplier_ok a = true).
  { intros a Ha. apply (proj1 (forallb_forall _ _) multipliers_ok), list_elem_of_In, elem_of_seqZ.
    lia. }
  destruct (Z.le_gt_cases avg 60) as [Hle|Hgt]; [apply Hs; lia|].
  pose proof (Hs 60 ltac:(lia)) as H60. unfold multiplier_ok, plain_multiplier in *.
  rewrite error_at in H60 |- * by lia. unfold DefaultTargetBlockTime in *.
  replace (avg <? 30) with false by lia. replace (30 <? avg) with true by lia. exact H60.
Qed.

Lemma plain_block_time (p : ConsensusParams) (t : Z) (parent : Header) :
  BlockTimeTargetSeconds p = DefaultTargetBlockTime ->
  0 < computeAverageBlockTime (NewDifficultyAdjuster p) t parent < maxReasonableTimeDiff.
Proof.
  intros H. unfold computeAverageBlockTime, fallback_block_time, targetTime.
  cbn [NewDifficultyAdjuster getAncestor consensusParams]. rewrite H.
  unfold DefaultTargetBlockTime, maxReasonableTimeDiff.
  repeat (case_match; bool_to_prop); lia.
Qed.

(** The unbounded result of the controller, on the right side of the parent's. *)
Lemma plain_step (p : ConsensusParams) (pd avg : Z) (parent : Header) :
  0 <= pd < 2 ^ 32 -> 0 < avg < maxReasonableTimeDiff ->
  exists d, calculateDeterministicDifficulty (NewDifficultyAdjuster p) avg DefaultTargetBlockTime
              pd parent = Ok d /\
    (avg <= DefaultTargetBlockTime -> pd <= d) /\ (DefaultTargetBlockTime <= avg -> d <= pd).
Proof.
  intros Hpd Ha. pose proof (multiplier_at avg Ha) as Hok. unfold multiplier_ok in Hok.
  unfold calculateDeterministicDifficulty. rewrite plain_controller by lia.
  destruct (bf_of_f64 (plain_multiplier avg)) as [[mm e pr]|] eqn:Em; [|done].
  cbn [bf_m bf_e bf_prec] in Hok. apply andb_prop in Hok as [Hok Hdir]. bool_to_prop. subst pr.
  rewrite (scaled_ceiling_eq pd mm e _ Em). cbn [result_bind].
  assert (Hq : 2 ^ (- e) = 4 * 2 ^ (- e - 2)) by (apply quarter_pow; lia).
  assert (Hlo : 2 ^ (- e) <= mm -> pd <= ceiling pd mm e) by (intros; apply ceiling_ge; [lia..|nia]).
  assert (Hhi : mm <= 2 ^ (- e) -> ceiling pd mm e <= pd) by (intros; apply ceiling_le; [lia..|nia]).
  assert (0 <= ceiling pd mm e) by (apply ceiling_ge; [lia..|nia]).
  replace (ceiling pd mm e <? 0) with false by lia.
  eexists. split; [reflexivity|]. unfold DefaultTargetBlockTime in *.
  repeat case_match; bool_to_prop; lia.
Qed.

(** Whatever the controller proposes, what [CalcDifficulty] returns is clamped. *)
Lemma calc_difficulty_clamped (da : DifficultyAdjuster) (t : Z) (parent : Header) (pd d : Z) :
  0 <= pd < 2 ^ 32 -> 0 <= MinDifficulty (consensusParams da) < 2 ^ 32 ->
  hd_Difficulty parent = Some pd -> CalcDifficulty da t (Some parent) = Ok d ->
  exists raw, d = Z.max (MinDifficulty (consensusParams da))
                    (Z.max ((3 * pd + 3) / 4) (Z.min ((5 * pd + 3) / 4) raw)).
Proof.
  intros Hpd Hmin Hp. unfold CalcDifficulty. rewrite Hp.
  generalize (calculateDeterministicDifficulty da (computeAverageBlockTime da t parent)
                (targetTime da) pd parent).
  intros [raw|e]; cbn [result_bind]; [|intros H; discriminate H].
  rewrite enforceBoundary_eq by done. intros H. injection H as <-. by exists raw.
Qed.

(** The block check, with the expected difficulty it compares with. *)
Lemma difficulty_check_inv (p : ConsensusParams) (tol : Z) (block parent : Block) :
  DifficultyEnable p = true -> difficulty_check p tol block parent = Ok tt ->
  let bits := h_DifficultyBits (b_Header block) in
  MinDifficultyBits p <= bits <= MaxDifficultyBits p /\
  exists d, CalcDifficulty (NewDifficultyAdjuster p) (u64 (h_TimestampUnix (b_Header block)))
              (Some (parent_header parent)) = Ok d /\
    d * (100 - tol) / 100 <= bits <= d * (100 + tol) / 100.
Proof.
  unfold difficulty_check, within_tolerance. intros ->. cbn [negb].
  generalize (CalcDifficulty (NewDifficultyAdjuster p) (u64 (h_TimestampUnix (b_Header block)))
                (Some (parent_header parent))).
  intros [d|e] H; inv_result; bool_to_prop; (split; [lia|]); exists d; split; [done|lia].
Qed.

(** * Properties *)

(** C39. One block changes the difficulty by at most a quarter, rounded up: whatever the
    history, the new difficulty lies between ceil(3/4) and ceil(5/4) of the parent's, or
    is the configured minimum; because of the rounding a difficulty of 3 or less is never
    lowered. *)
Theorem calc_difficulty_bounds (da : DifficultyAdjuster) (t : Z) (parent : Header) (pd d : Z)
  (Hpd : 0 <= pd < 2 ^ 32) (Hmin : 0 <= MinDifficulty (consensusParams da) < 2 ^ 32)
  (Hp : hd_Difficulty parent = Some pd)
  (H : CalcDifficulty da t (Some parent) = Ok d) :
  (3 * pd + 3) / 4 <= d <= Z.max (MinDifficulty (consensusParams da)) ((5 * pd + 3) / 4) /\
  MinDifficulty (consensusParams da) <= d /\ (pd <= 3 -> pd <= d).
Proof.
  destruct (calc_difficulty_clamped da t parent pd d Hpd Hmin Hp H) as [raw ->].
  assert ((3 * pd + 3) / 4 <= (5 * pd + 3) / 4) by (apply Z.div_le_mono; lia).
  split_and!; try lia. intros. assert (pd <= (3 * pd + 3) / 4) by (apply Z.div_le_lower_bound; lia).
  lia.
Qed.

(** The rule the validators apply is total and moves the right way: with the default
    30-second target and no ancestor function [CalcDifficulty] always returns, no faster
    block lowers the difficulty, no slower block raises it, and a block exactly on target
    keeps it, up to the configured minimum. *)
Theorem calc_difficulty_direction (p : ConsensusParams) (t pd : Z) (parent : Header)
  (Ht : BlockTimeTargetSeconds p = DefaultTargetBlockTime)
  (Hpd : 0 <= pd < 2 ^ 32) (Hmin : 0 <= MinDifficulty p < 2 ^ 32)
  (Hp : hd_Difficulty parent = Some pd) :
  let da := NewDifficultyAdjuster p in
  let avg := computeAverageBlockTime da t parent in
  exists d, CalcDifficulty da t (Some parent) = Ok d /\
    (avg <= 30 -> pd <= d) /\ (30 <= avg -> d <= Z.max (MinDifficulty p) pd).
Proof.
  intros da avg. pose proof (plain_block_time p t parent Ht) as Ha. fold da avg in Ha.
  destruct (plain_step p pd avg parent Hpd Ha) as (d & Hd & H1 & H2).
  unfold CalcDifficulty. rewrite Hp. fold avg. unfold targetTime.
  change (consensusParams da) with p. rewrite Ht. fold da in Hd. rewrite Hd. cbn [result_bind].
  rewrite enforceBoundary_eq by done. change (consensusParams da) with p.
  eexists. split; [reflexivity|]. unfold DefaultTargetBlockTime in *.
  assert ((3 * pd + 3) / 4 < pd + 1) by (apply Z.div_lt_upper_bound; lia).
  assert (pd <= (5 * pd + 3) / 4) by (apply Z.div_le_lower_bound; lia).
  lia.
Qed.

(** What the chain accepts: a block that passes [validateBlockDifficultyLocked] has a
    difficulty between half of ceil(3/4) and one and a half times ceil(5/4) of its
    parent's, the minimum apart. *)
Theorem accepted_difficulty_bounds (p : ConsensusParams) (block parent : Block)
  (Hpd : 0 <= h_DifficultyBits (b_Header parent) < 2 ^ 32)
  (Hmin : 0 <= MinDifficulty p < 2 ^ 32) (Hen : DifficultyEnable p = true)
  (H : validateBlockDifficultyLocked p block parent = Ok tt) :
  let pd := h_DifficultyBits (b_Header parent) in
  let bits := h_DifficultyBits (b_Header block) in
  (3 * pd + 3) / 4 * 50 / 100 <= bits <= Z.max (MinDifficulty p) ((5 * pd + 3) / 4) * 150 / 100 /\
  MinDifficultyBits p <= bits <= MaxDifficultyBits p.
Proof.
  destruct (difficulty_check_inv p core_tolerance block parent Hen H) as (Hbits & d & Hd & Htol).
  set (pd := h_DifficultyBits (b_Header parent)) in *. cbv zeta.
  destruct (calc_difficulty_clamped (NewDifficultyAdjuster p) _ (parent_header parent) pd d Hpd Hmin eq_refl Hd) as [raw ->].
  cbn [NewDifficultyAdjuster consensusParams] in *. unfold core_tolerance in *.
  set (lo := (3 * pd + 3) / 4) in *. set (hi := (5 * pd + 3) / 4) in *.
  assert (lo <= hi) by (apply Z.div_le_mono; lia).
  match type of Htol with ?d * _ / _ <= _ <= _ =>
    assert (lo * 50 / 100 <= d * (100 - 50) / 100) by (apply Z.div_le_mono; lia);
    assert (d * (100 + 50) / 100 <= Z.max (MinDifficulty p) hi * 150 / 100)
      by (apply Z.div_le_mono; lia) end.
  lia.
Qed.

(** * Witnesses *)
Definition header_at (time bits : Z) : Header := mkHeader (Some 9) time (Some bits).
Definition bits_block (time bits h : Z) : Block :=
  mkBlock [] h (mkBlockHeader 1 [] time bits bits 0 [] [] h "") [] None "" "".

(** A block after 10 seconds raises a difficulty of 100 to the ceiling of 125. *)
Lemma calc_difficulty_bounds_witness :
  CalcDifficulty (NewDifficultyAdjuster main_params) 1010 (Some (header_at 1000 100)) = Ok 125 /\
  75 <= 125 <= 125.
Proof.
  assert (H : CalcDifficulty (NewDifficultyAdjuster main_params) 1010 (Some (header_at 1000 100))
              = Ok 125) by (vm_compute; reflexivity).
  pose proof (calc_difficulty_bounds (NewDifficultyAdjuster main_params) 1010
    (header_at 1000 100) 100 125 ltac:(lia) ltac:(cbn; lia) eq_refl H) as (K & _).
  split; [exact H|]. vm_compute in K |- *. exact K.
Defined.

Lemma calc_difficulty_direction_witness :
  exists d, CalcDifficulty (NewDifficultyAdjuster main_params) 1040 (Some (header_at 1000 100))
            = Ok d /\ d <= 100.
Proof.
  destruct (calc_difficulty_direction main_params 1040 100 (header_at 1000 100) eq_refl
    ltac:(lia) ltac:(cbn; lia) eq_refl) as (d & Hd & _ & K).
  exists d. split; [exact Hd|]. apply K. vm_compute. discriminate.
Defined.

Lemma accepted_difficulty_bounds_witness :
  validateBlockDifficultyLocked main_params (bits_block 1060 80 1) (bits_block 1000 100 0) = Ok tt /\
  37 <= 80 <= 187.
Proof.
  assert (H : validateBlockDifficultyLocked main_params (bits_block 1060 80 1)
                (bits_block 1000 100 0) = Ok tt) by (vm_compute; reflexivity).
  split; [exact H|].
  exact (proj1 (accepted_difficulty_bounds main_params (bits_block 1060 80 1)
    (bits_block 1000 100 0) ltac:(cbn; lia) ltac:(cbn; lia) eq_refl H)).
Defined.
