(* ===== verification/Mempool.v ===== *)
(** * The transaction pool

    [blockchain/mempool/mempool.go].  The pool keeps four views of the pending
    transactions (by id, by sender and nonce, by recipient, in arrival order) and a
    running byte count.

    - A map iteration whose outcome can depend on Go's unspecified order goes through
      [range_entries] and [range_nonces], parameters that stand for one such order; the
      theorems assume of them what the language guarantees, that each key is visited
      exactly once.
    - [time.Now()] is the argument [now] (nanoseconds); goroutines, locks and metrics
      are left out.
    - [float64] is the IEEE binary64 of [Float].
    - [feeHeap] holds pointers; an entry is identified by its contents, which include
      its id. *)

From S2P Require Import Prelude Bytes Sha256 Config Merkle Json Transaction FeeChecker Float.
From stdpp Require Import base list strings numbers gmap sorting.
From Stdlib Require Import ZArith Lia SpecFloat.

Open Scope Z_scope.
Open Scope go_scope.

#[export] Instance Transaction_eq_dec : EqDecision Transaction.
Proof. solve_decision. Defined.

(** ** State *)
Record mempoolEntry := mkEntry {
  e_tx : Transaction;
  e_txID : string;
  e_received : Z;
  e_size : Z;
  e_feeRate : float64;
  e_dependsOn : gset string;
  e_children : gset string
}.
#[export] Instance mempoolEntry_eq_dec : EqDecision mempoolEntry.
Proof. solve_decision. Defined.

Abbreviation Entries := (gmap string mempoolEntry).
Abbreviation Nonces := (gmap Z string).

Record Mempool := mkMempool {
  maxSize : Z;
  minFeeRate : Z;
  ttl : Z;
  chainID : Z;
  consensus : ConsensusParams;
  currentHeight : Z;
  entries : Entries;
  bySenderNonce : gmap string Nonces;
  addrInfo : gmap string (gset string);
  byFee : list mempoolEntry;
  totalSize : Z;
  maxTotalSize : Z;
  closed : bool
}.

Definition DefaultMempoolMax : Z := 10000.

(** Field updates. *)
Definition set_config (ms mfr : Z) (p : ConsensusParams) (h : Z) (m : Mempool) : Mempool :=
  mkMempool ms mfr (ttl m) (chainID m) p h (entries m) (bySenderNonce m) (addrInfo m) (byFee m)
    (totalSize m) (maxTotalSize m) (closed m).
Definition set_pool (es : Entries) (ix : gmap string Nonces) (ai : gmap string (gset string))
  (bf : list mempoolEntry) (ts : Z) (m : Mempool) : Mempool :=
  mkMempool (maxSize m) (minFeeRate m) (ttl m) (chainID m) (consensus m) (currentHeight m)
    es ix ai bf ts (maxTotalSize m) (closed m).

Definition NewMempool (maxSize minFeeRate ttl chainID : Z) (p : ConsensusParams)
  (currentHeight maxMemoryMB : Z) : Mempool :=
  let maxSize := if maxSize <=? 0 then DefaultMempoolMax else maxSize in
  let ttl := if ttl <=? 0 then 24 * 3600 * 1000000000 else ttl in
  let maxTotalSize := if maxMemoryMB >? 0 then (maxMemoryMB * 1024 * 1024)%u64
                      else Z.shiftl 100 20 in
  mkMempool maxSize minFeeRate ttl chainID p currentHeight ∅ ∅ ∅ [] 0 maxTotalSize false.

(** ** Sizes, indexes and removal *)
Definition estimateTxSize (tx : Transaction) : Z :=
  (0 + 1 + 8 + u64 (len (slice (tx_FromPubKey tx))) + u64 (strlen (tx_ToAddress tx)) + 8 + 8 + 8
   + u64 (strlen (tx_Data tx)) + u64 (len (slice (tx_Signature tx))))%u64.

(** [m.bySenderNonce[from]]; an absent key reads as the nil map. *)
Definition nonces_of (ix : gmap string Nonces) (from : string) : Nonces := default ∅ (ix !! from).

Definition indexEntry (from : string) (nonce : Z) (txid : string) (ix : gmap string Nonces)
  : gmap string Nonces := <[from := <[nonce := txid]> (nonces_of ix from)]> ix.

Definition indexAddrInfo (toAddr txid : string) (ai : gmap string (gset string))
  : gmap string (gset string) :=
  if str_eqb toAddr "" then ai
  else <[toAddr := {[txid]} ∪ default ∅ (ai !! toAddr)]> ai.

(** [feeHeap.remove]: the first occurrence. *)
Fixpoint heap_remove (e : mempoolEntry) (h : list mempoolEntry) : list mempoolEntry :=
  match h with
  | [] => []
  | x :: h' => if decide (x = e) then h' else x :: heap_remove e h'
  end.

(** The index part of [removeLocked]. *)
Definition unindex (from : string) (nonce : Z) (ix : gmap string Nonces) : gmap string Nonces :=
  match ix !! from with
  | None => ix
  | Some inner =>
      let inner' := delete nonce inner in
      if decide (inner' = ∅) then delete from ix else <[from := inner']> ix
  end.

Definition removeLocked (txid : string) (m : Mempool) : Mempool :=
  match entries m !! txid with
  | None => m
  | Some e =>
      let ix := match FromAddress (e_tx e) with
                | Err _ => bySenderNonce m
                | Ok from => unindex from (tx_Nonce (e_tx e)) (bySenderNonce m)
                end in
      set_pool (delete txid (entries m)) ix (addrInfo m) (heap_remove e (byFee m))
        (totalSize m - e_size e)%u64 m
  end.

Definition removeAll (txids : list string) (m : Mempool) : Mempool :=
  fold_left (fun m id => removeLocked id m) txids m.

Definition Remove (txid : string) (m : Mempool) : Mempool := removeLocked txid m.
Definition RemoveMany (txids : list string) (m : Mempool) : Mempool := removeAll txids m.

Definition Contains (txid : string) (m : Mempool) : bool :=
  match entries m !! txid with Some _ => true | None => false end.
Definition GetTxBytes (tx : Transaction) : Z := i64 (estimateTxSize tx).
Definition Size (m : Mempool) : Z := Z.of_nat (size (entries m)).
Definition TotalSize (m : Mempool) : Z := totalSize m.
Definition Get (txid : string) (m : Mempool) : option Transaction := e_tx <$> entries m !! txid.
Definition HasSenderNonce (from : string) (nonce : Z) (m : Mempool) : bool :=
  match nonces_of (bySenderNonce m) from !! nonce with Some _ => true | None => false end.

Definition isFull (m : Mempool) : bool :=
  (maxSize m <=? Size m) || (maxTotalSize m <=? totalSize m).

(** The entry every successful insertion stores. *)
Definition new_entry (tx : Transaction) (txid : string) (now : Z) : mempoolEntry :=
  let txSize := estimateTxSize tx in
  mkEntry tx txid now txSize (f64_div (f64_of_Z (tx_Fee tx)) (f64_of_Z txSize)) ∅ ∅.

(** [m.entries[txid] = entry; indexEntry; indexAddrInfo; byFee.push; totalSize += size] *)
Definition insert_entry (from : string) (e : mempoolEntry) (m : Mempool) : Mempool :=
  set_pool (<[e_txID e := e]> (entries m))
    (indexEntry from (tx_Nonce (e_tx e)) (e_txID e) (bySenderNonce m))
    (indexAddrInfo (tx_ToAddress (e_tx e)) (e_txID e) (addrInfo m))
    (byFee m ++ [e]) (totalSize m + e_size e)%u64 m.

(** ** [strings.TrimSpace(s) == empty]: every rune is white space. *)
Definition is_space (r : Z) : bool :=
  in_range 9 13 r || (r =? 32) || (r =? 133) || (r =? 160) || (r =? 5760) || in_range 8192 8202 r
  || (r =? 8232) || (r =? 8233) || (r =? 8239) || (r =? 8287) || (r =? 12288).
Fixpoint blank_runes (fuel : nat) (l : list Z) : bool :=
  match fuel, l with
  | _, [] => true
  | O, _ => false
  | S fuel', _ =>
      match decode_rune l with
      | Some (w, r) => is_space r && blank_runes fuel' (drop w l)
      | None => false
      end
  end.
Definition is_blank (s : string) : bool := blank_runes (String.length s) (bytes_of_string s).

(** ** Operations that depend on the iteration order *)
Section Operations.
Variable range_entries : Entries -> list (string * mempoolEntry).
Variable range_nonces : Nonces -> list (Z * string).
Variable ed25519_verify : list Z -> list Z -> list Z -> bool.

Definition lowest_step (acc : Z * string) (x : string * mempoolEntry) : Z * string :=
  if tx_Fee (e_tx (snd x)) <? fst acc then (tx_Fee (e_tx (snd x)), fst x) else acc.
Definition lowestFeeEntry (m : Mempool) : string :=
  snd (fold_left lowest_step (range_entries (entries m)) (max_u64, ""%string)).

(** The dependents of a victim: its sender's entries with a higher nonce. *)
Definition depends (from : string) (nonce : Z) (e : mempoolEntry) : bool :=
  match FromAddress (e_tx e) with
  | Err _ => false
  | Ok addr => str_eqb addr from && (nonce <? tx_Nonce (e_tx e))
  end.

Definition evictWithDependents (txid : string) (m : Mempool) : Mempool :=
  match entries m !! txid with
  | None => m
  | Some victim =>
      let m := removeLocked txid m in
      match FromAddress (e_tx victim) with
      | Err _ => m
      | Ok from =>
          fold_left (fun m x => if depends from (tx_Nonce (e_tx victim)) (snd x)
                                then removeLocked (fst x) m else m)
            (range_entries (entries m)) m
      end
  end.

Definition evictBySenderNonce (from : string) (nonce : Z) (m : Mempool)
  : Mempool * list string :=
  let '(m, evicted) :=
    match nonces_of (bySenderNonce m) from !! nonce with
    | Some txid => (removeLocked txid m, [txid])
    | None => (m, [])
    end in
  fold_left (fun acc x => if nonce <? fst x
                          then (removeLocked (snd x) (fst acc), snd acc ++ [snd x]) else acc)
    (range_nonces (nonces_of (bySenderNonce m) from)) (m, evicted).

Definition validateTransactionBasic (m : Mempool) (tx : Transaction) : result unit :=
  ValidateFee (@NewFeeChecker Mempool MinFee MinFeePerByte) tx ;;?
  fail_if (tx_Nonce tx =? 0) "nonce must be > 0" ;;?
  fail_if (negb (tx_ChainID tx =? chainID m) && negb (chainID m =? 0)) "wrong chain ID".

Definition validateTransaction (m : Mempool) (tx : Transaction) (p : ConsensusParams) (height : Z)
  : result unit :=
  wrap "signature verification" (VerifyForConsensus ed25519_verify tx p height) ;;?
  validateTransactionBasic m tx.

(** A Go pair of a string and an error. *)
Definition outcome : Type := string * result unit.

(** The body the two insertions share after the id and the sender are known;
    [validation] is the check that distinguishes them. *)
Definition add_locked (tx : Transaction) (txid from : string) (now : Z)
  (validation : result unit) (m : Mempool) : Mempool * outcome :=
  if Contains txid m then (m, (txid, Err "duplicate transaction"))
  else match nonces_of (bySenderNonce m) from !! tx_Nonce tx with
  | Some existingID => (m, (existingID, Err "nonce already in mempool"))
  | None =>
    match wrap "validation failed" validation with
    | Err e => (m, (""%string, Err e))
    | Ok _ =>
      let lowest := lowestFeeEntry m in
      if isFull m && str_eqb lowest "" then (m, (""%string, Err "mempool full"))
      else
        let m := if isFull m then evictWithDependents lowest m else m in
        let e := new_entry tx txid now in
        if (totalSize m + e_size e)%u64 >? maxTotalSize m
        then (m, (""%string, Err "mempool size limit exceeded"))
        else (insert_entry from e m, (txid, Ok tt))
    end
  end.

Definition AddWithTxID (tx : Transaction) (txid : string) (p : ConsensusParams)
  (height now : Z) (m : Mempool) : Mempool * outcome :=
  match (if is_blank txid then wrap "calculate txid" (TxIDHex tx) else Ok txid) with
  | Err e => (m, (""%string, Err e))
  | Ok txid =>
    match wrap "get from address" (FromAddress tx) with
    | Err e => (m, (""%string, Err e))
    | Ok from => add_locked tx txid from now (validateTransaction m tx p height) m
    end
  end.

Definition Add (tx : Transaction) (now : Z) (m : Mempool) : Mempool * outcome :=
  AddWithTxID tx "" (consensus m) (currentHeight m) now m.

Definition AddWithoutSignatureValidation (tx : Transaction) (now : Z) (m : Mempool)
  : Mempool * outcome :=
  match wrap "calculate txid" (TxIDHex tx) with
  | Err e => (m, (""%string, Err e))
  | Ok txid =>
    match wrap "get from address" (FromAddress tx) with
    | Err e => (m, (""%string, Err e))
    | Ok from => add_locked tx txid from now (validateTransactionBasic m tx) m
    end
  end.

Fixpoint AddMany (txs : list Transaction) (p : ConsensusParams) (height now : Z) (m : Mempool)
  : Mempool * list outcome :=
  match txs with
  | [] => (m, [])
  | tx :: txs' =>
      let '(m, o) := AddWithTxID tx "" p height now m in
      let '(m, os) := AddMany txs' p height now m in
      (m, o :: os)
  end.

(** The answer of a replacement: id, replaced, evicted ids, error. *)
Record rbf_outcome := mkRbf {
  rbf_txid : string;
  rbf_replaced : bool;
  rbf_evicted : list string;
  rbf_result : result unit
}.

(** [newFeeRate < minFeeRate] when the size grew, in [float64]; the size difference is
    taken in [uint64]. *)
Definition rbf_rate_too_low (m : Mempool) (tx : Transaction) (existing : mempoolEntry) : bool :=
  let feeIncrease := f64_of_Z (tx_Fee tx - tx_Fee (e_tx existing))%u64 in
  let sizeIncrease := f64_of_Z (estimateTxSize tx - e_size existing)%u64 in
  f64_ltb (f64_of_Z 0) sizeIncrease
  && f64_ltb (f64_div feeIncrease sizeIncrease) (f64_of_Z (minFeeRate m)).

Definition ReplaceByFeeWithTxID (tx : Transaction) (txid : string) (now : Z) (m : Mempool)
  : Mempool * rbf_outcome :=
  let refuse e := (m, mkRbf "" false [] (Err e)) in
  match wrap "get from address" (FromAddress tx) with
  | Err e => refuse e
  | Ok from =>
    match nonces_of (bySenderNonce m) from !! tx_Nonce tx with
    | None => refuse "no existing nonce to replace"%string
    | Some existingID =>
      match entries m !! existingID with
      | None => refuse "panic: nil pointer dereference"%string
      | Some existing =>
        if tx_Fee tx <=? tx_Fee (e_tx existing) then refuse "replacement fee must be higher"%string
        else if rbf_rate_too_low m tx existing then refuse "fee rate increase insufficient"%string
        else
          let '(m, evicted) := evictBySenderNonce from (tx_Nonce tx) m in
          if Contains txid m
          then (m, mkRbf txid true evicted (Err "replacement tx already exists"))
          else (insert_entry from (new_entry tx txid now) m, mkRbf txid true evicted (Ok tt))
      end
    end
  end.

Definition ReplaceByFee (tx : Transaction) (now : Z) (m : Mempool) : Mempool * rbf_outcome :=
  match wrap "calculate txid" (TxIDHex tx) with
  | Err e => (m, mkRbf "" false [] (Err e))
  | Ok txid => ReplaceByFeeWithTxID tx txid now m
  end.

Definition Clear (m : Mempool) : Mempool := set_pool ∅ ∅ ∅ [] 0 m.
Definition SetMinFeeRate (rate : Z) (m : Mempool) : Mempool :=
  set_config (maxSize m) rate (consensus m) (currentHeight m) m.
Definition UpdateHeight (height : Z) (m : Mempool) : Mempool :=
  set_config (maxSize m) (minFeeRate m) (consensus m) height m.
Definition UpdateConsensus (p : ConsensusParams) (m : Mempool) : Mempool :=
  set_config (maxSize m) (minFeeRate m) p (currentHeight m) m.

(** The loop of [SetMaxSize]; every round removes an entry, so the number of entries
    is fuel enough (theorem [set_max_size_bounds]). *)
Fixpoint shrink (fuel : nat) (m : Mempool) : Mempool :=
  match fuel with
  | O => m
  | S fuel' =>
      if maxSize m <? Size m then
        let lowest := lowestFeeEntry m in
        if str_eqb lowest "" then m else shrink fuel' (evictWithDependents lowest m)
      else m
  end.
Definition SetMaxSize (n : Z) (m : Mempool) : Mempool :=
  let m := set_config n (minFeeRate m) (consensus m) (currentHeight m) m in
  shrink (size (entries m)) m.

Definition expired (now : Z) (m : Mempool) (x : string * mempoolEntry) : bool :=
  ttl m <? now - e_received (snd x).
Definition cleanupExpired (now : Z) (m : Mempool) : Mempool :=
  removeAll (map fst (List.filter (expired now m) (range_entries (entries m)))) m.

(** ** Queries *)
Definition GetByAddress (addr : string) (m : Mempool) : gset string :=
  list_to_set (map snd (range_nonces (nonces_of (bySenderNonce m) addr)))
  ∪ default ∅ (addrInfo m !! addr).

Definition nonce_le (a b : mempoolEntry) : Prop := tx_Nonce (e_tx a) <= tx_Nonce (e_tx b).
#[local] Instance nonce_le_dec (a b : mempoolEntry) : Decision (nonce_le a b).
Proof. unfold nonce_le. apply _. Defined.
Definition PendingForSender (from : string) (m : Mempool) : list mempoolEntry :=
  merge_sort nonce_le
    (omap (fun x => entries m !! snd x) (range_nonces (nonces_of (bySenderNonce m) from))).

Definition TxForSenderNonce (from : string) (nonce : Z) (m : Mempool)
  : result (option mempoolEntry) :=
  match nonces_of (bySenderNonce m) from !! nonce with
  | None => Ok None
  | Some txid =>
      match entries m !! txid with
      | Some e => Ok (Some e)
      | None => Err "panic: nil pointer dereference"
      end
  end.

(** [sort.Slice] by decreasing fee, then by arrival: [a] may precede [b]. *)
Definition fee_before (a b : mempoolEntry) : Prop :=
  tx_Fee (e_tx b) < tx_Fee (e_tx a) \/
  (tx_Fee (e_tx a) = tx_Fee (e_tx b) /\ e_received a <= e_received b).
#[local] Instance fee_before_dec (a b : mempoolEntry) : Decision (fee_before a b).
Proof. unfold fee_before. apply _. Defined.
Definition EntriesSortedByFeeDesc (m : Mempool) : list mempoolEntry :=
  merge_sort fee_before (map snd (range_entries (entries m))).

Definition pool_GetFeeStats (m : Mempool) : FeeStats :=
  if Size m =? 0 then mkFeeStats 0 0 0 0 0 0 0
  else
    let all := map (fun x => tx_Fee (e_tx (snd x))) (range_entries (entries m)) in
    let totalFees := fold_left (fun a f => (a + f)%u64) all 0 in
    let maxFee := fold_left (fun a f => if f >? a then f else a) all 0 in
    let fees := merge_sort Z.le all in
    let n := length fees in
    mkFeeStats (nth 0 fees 0) maxFee (totalFees / u64 (Z.of_nat n))
      (nth (n / 2) fees 0) (nth (n * 25 / 100) fees 0) (nth (n * 75 / 100) fees 0) (Size m).

(** [GetStats]; the average is a [float64] sum in iteration order. *)
Record PoolStats := mkPoolStats {
  ps_Count : Z;
  ps_TotalSize : Z;
  ps_TotalFees : Z;
  ps_AvgFeeRate : float64;
  ps_MinFee : Z;
  ps_MaxFee : Z;
  ps_MaxSize : Z;
  ps_MaxTotalSize : Z
}.
Definition GetStats (m : Mempool) : PoolStats :=
  let es := map snd (range_entries (entries m)) in
  let fees := map (fun e => tx_Fee (e_tx e)) es in
  let totalFees := fold_left (fun a f => (a + f)%u64) fees 0 in
  let minFee := fold_left (fun a f => if f <? a then f else a) fees max_u64 in
  let maxFee := fold_left (fun a f => if f >? a then f else a) fees 0 in
  let rates := fold_left (fun a e => f64_add a (e_feeRate e)) es (f64_of_Z 0) in
  let nonempty := 0 <? Size m in
  mkPoolStats (Size m) (totalSize m) totalFees
    (if nonempty then f64_div rates (f64_of_Z (Size m)) else rates)
    (if nonempty then minFee else 0) maxFee (maxSize m) (maxTotalSize m).

End Operations.

Definition Close (m : Mempool) : Mempool :=
  mkMempool (maxSize m) (minFeeRate m) (ttl m) (chainID m) (consensus m) (currentHeight m)
    (entries m) (bySenderNonce m) (addrInfo m) (byFee m) (totalSize m) (maxTotalSize m) true.

(** * The invariant *)
Definition total_sizes (es : Entries) : Z := map_fold (fun _ e acc => e_size e + acc) 0 es.

(** The four views agree: every entry is filed under its id and under its sender and
    nonce, the sender index has nothing else and no empty map, the arrival list holds
    the entries, and the byte count is their total. *)
Record mp_inv (m : Mempool) : Prop := {
  inv_key : forall id e, entries m !! id = Some e -> e_txID e = id;
  inv_fwd : forall id e, entries m !! id = Some e ->
    exists from, FromAddress (e_tx e) = Ok from /\
      nonces_of (bySenderNonce m) from !! tx_Nonce (e_tx e) = Some id;
  inv_bwd : forall from n id, nonces_of (bySenderNonce m) from !! n = Some id ->
    exists e, entries m !! id = Some e /\ FromAddress (e_tx e) = Ok from /\ tx_Nonce (e_tx e) = n;
  inv_nonempty : forall from inner, bySenderNonce m !! from = Some inner -> inner <> ∅;
  inv_heap : byFee m ≡ₚ (map_to_list (entries m)).*2;
  inv_total : totalSize m = u64 (total_sizes (entries m))
}.

(** ** Index lemmas *)
Lemma nonces_of_index (ix : gmap string Nonces) (f g : string) (n : Z) (id : string) :
  nonces_of (indexEntry f n id ix) g
  = if decide (f = g) then <[n := id]> (nonces_of ix f) else nonces_of ix g.
Proof.
  unfold indexEntry, nonces_of. case_decide; subst;
    [by rewrite lookup_insert_eq|by rewrite lookup_insert_ne].
Qed.

Lemma nonces_of_unindex (ix : gmap string Nonces) (f g : string) (n : Z) :
  nonces_of (unindex f n ix) g
  = if decide (f = g) then delete n (nonces_of ix f) else nonces_of ix g.
Proof.
  unfold unindex, nonces_of. destruct (ix !! f) as [inner|] eqn:E.
  - case_decide as D; [|case_decide]; subst.
    + case_decide as D'; subst; [rewrite lookup_delete_eq; cbn; by rewrite D|].
      by rewrite lookup_delete_ne.
    + by rewrite lookup_insert_eq.
    + by rewrite lookup_insert_ne.
  - case_decide; subst; [cbn; rewrite E; by rewrite delete_empty|done].
Qed.

Lemma unindex_nonempty (ix : gmap string Nonces) (f : string) (n : Z) :
  (forall from inner, ix !! from = Some inner -> inner <> ∅) ->
  forall from inner, unindex f n ix !! from = Some inner -> inner <> ∅.
Proof.
  intros H from inner. unfold unindex. destruct (ix !! f) eqn:E; [|apply H].
  case_decide as D.
  - intros Hl. apply lookup_delete_Some in Hl as [_ Hl]. by apply H in Hl.
  - intros Hl. apply lookup_insert_Some in Hl as [[_ <-]|[_ Hl]]; [done|by apply H in Hl].
Qed.

Lemma heap_remove_perm (e : mempoolEntry) (h : list mempoolEntry) :
  e ∈ h -> h ≡ₚ e :: heap_remove e h.
Proof.
  induction h as [|x h IH]; intros Hin; [by apply not_elem_of_nil in Hin|].
  cbn. case_decide as D; [by subst|].
  apply elem_of_cons in Hin as [->|Hin]; [done|]. rewrite (IH Hin) at 1. by rewrite Permutation_swap.
Qed.

Lemma total_sizes_insert (es : Entries) (id : string) (e : mempoolEntry) :
  es !! id = None -> total_sizes (<[id := e]> es) = e_size e + total_sizes es.
Proof. intros. unfold total_sizes. rewrite map_fold_insert_L; [done|intros; lia|done]. Qed.

Lemma total_sizes_delete (es : Entries) (id : string) (e : mempoolEntry) :
  es !! id = Some e -> total_sizes (delete id es) = total_sizes es - e_size e.
Proof.
  intros H. rewrite <- (insert_delete_id es id e H) at 2.
  rewrite total_sizes_insert by apply lookup_delete_eq. lia.
Qed.

Lemma u64_sub_idemp (a b : Z) : (u64 a - b)%u64 = u64 (a - b).
Proof. unfold sub64, u64. apply Zminus_mod_idemp_l. Qed.
Lemma u64_add_idemp (a b : Z) : (u64 a + b)%u64 = u64 (a + b).
Proof. unfold add64, u64. apply Zplus_mod_idemp_l. Qed.

(** ** Removal *)
Lemma removeLocked_entries (id : string) (m : Mempool) :
  entries (removeLocked id m) = delete id (entries m).
Proof.
  unfold removeLocked. destruct (entries m !! id) eqn:E; [done|]. by rewrite delete_id.
Qed.

Lemma removeLocked_addr (id : string) (m : Mempool) : addrInfo (removeLocked id m) = addrInfo m.
Proof. unfold removeLocked. by destruct (entries m !! id). Qed.

Lemma removeLocked_inv (id : string) (m : Mempool) : mp_inv m -> mp_inv (removeLocked id m).
Proof.
  intros Hm. pose proof Hm as [K F B N H T]. unfold removeLocked.
  destruct (entries m !! id) as [e|] eqn:E; [|done].
  destruct (F id e E) as (from & Hf & Hix). rewrite Hf. split; cbn.
  - intros id' e' Hl. apply lookup_delete_Some in Hl as [_ Hl]. by apply K.
  - intros id' e' Hl. apply lookup_delete_Some in Hl as [Hne Hl].
    destruct (F id' e' Hl) as (g & Hg & Hgx). exists g. split; [done|].
    rewrite nonces_of_unindex. case_decide; subst; [|done].
    apply lookup_delete_Some. split; [|done]. intros En. rewrite En in Hix. congruence.
  - intros g n id' Hl. rewrite nonces_of_unindex in Hl.
    assert (Hl' : nonces_of (bySenderNonce m) g !! n = Some id' /\
                  (g = from -> tx_Nonce (e_tx e) <> n)).
    { case_decide; subst; [|split; [done|congruence]].
      by apply lookup_delete_Some in Hl as [? ?]. }
    destruct Hl' as [Hl' Hn]. destruct (B _ _ _ Hl') as (e' & He' & Hg & Hn').
    exists e'. split_and!; [|done|done]. apply lookup_delete_Some. split; [|done].
    intros ->. rewrite E in He'. injection He' as <-. rewrite Hf in Hg. injection Hg as ->.
    by apply Hn.
  - by apply unindex_nonempty.
  - assert (Hin : e ∈ byFee m).
    { rewrite H. apply list_elem_of_fmap. exists (id, e). split; [done|].
      by apply elem_of_map_to_list. }
    apply (inj (cons e)). rewrite <- (heap_remove_perm e (byFee m) Hin), H.
    by rewrite <- (map_to_list_delete (entries m) id e E).
  - by rewrite T, u64_sub_idemp, (total_sizes_delete _ _ _ E).
Qed.

(** ** Insertion *)
Lemma insert_entry_inv (from : string) (e : mempoolEntry) (m : Mempool) :
  mp_inv m -> FromAddress (e_tx e) = Ok from -> entries m !! e_txID e = None ->
  nonces_of (bySenderNonce m) from !! tx_Nonce (e_tx e) = None ->
  mp_inv (insert_entry from e m).
Proof.
  intros [K F B N H T] Hf He Hn. split; cbn.
  - intros id e' Hl. apply lookup_insert_Some in Hl as [[<- <-]|[_ Hl]]; [done|by apply K].
  - intros id e' Hl. apply lookup_insert_Some in Hl as [[<- <-]|[Hne Hl]].
    + exists from. split; [done|]. rewrite nonces_of_index, decide_True by done.
      apply lookup_insert_eq.
    + destruct (F id e' Hl) as (g & Hg & Hgx). exists g. split; [done|].
      rewrite nonces_of_index. case_decide; subst; [|done].
      rewrite lookup_insert_ne; [done|]. intros En. rewrite En in Hn. congruence.
  - intros g n id Hl. rewrite nonces_of_index in Hl. case_decide; subst.
    + apply lookup_insert_Some in Hl as [[<- <-]|[_ Hl]].
      * exists e. rewrite lookup_insert_eq. auto.
      * destruct (B _ _ _ Hl) as (e' & He' & ? & ?). exists e'. split; [|done].
        rewrite lookup_insert_ne; [done|]. intros En. rewrite En in He. congruence.
    + destruct (B _ _ _ Hl) as (e' & He' & ? & ?). exists e'. split; [|done].
      rewrite lookup_insert_ne; [done|]. intros En. rewrite En in He. congruence.
  - intros g inner Hl. unfold indexEntry in Hl.
    apply lookup_insert_Some in Hl as [[_ <-]|[_ Hl]]; [apply insert_non_empty|by apply N in Hl].
  - rewrite map_to_list_insert by done. cbn. rewrite H. by rewrite Permutation_app_comm.
  - rewrite T, u64_add_idemp, total_sizes_insert by done. f_equal. lia.
Qed.

(** ** Sequences of removals *)
Lemma removeAll_inv (ids : list string) (m : Mempool) : mp_inv m -> mp_inv (removeAll ids m).
Proof. revert m. induction ids; cbn; intros m Hm; [done|]. by apply IHids, removeLocked_inv. Qed.

Lemma removeAll_lookup (ids : list string) (m : Mempool) (id : string) :
  entries (removeAll ids m) !! id = if decide (id ∈ ids) then None else entries m !! id.
Proof.
  revert m. induction ids as [|i ids IH]; intros m; cbn [removeAll fold_left].
  - rewrite decide_False; [done|apply not_elem_of_nil].
  - change (fold_left _ ids ?x) with (removeAll ids x). rewrite IH, removeLocked_entries.
    destruct (decide (id ∈ ids)) as [Hin|Hin].
    + by rewrite decide_True by (apply elem_of_cons; by right).
    + destruct (decide (i = id)) as [->|Hne].
      * rewrite lookup_delete_eq, decide_True; [done|apply elem_of_cons; by left].
      * rewrite lookup_delete_ne, decide_False; [done| |done].
        intros Hc. apply elem_of_cons in Hc as [?|?]; congruence.
Qed.

Lemma removeAll_addr (ids : list string) (m : Mempool) : addrInfo (removeAll ids m) = addrInfo m.
Proof.
  revert m. induction ids; cbn; intros m; [done|].
  change (fold_left _ ids ?x) with (removeAll ids x). by rewrite IHids, removeLocked_addr.
Qed.

(** The configuration is untouched by removals. *)
Definition same_config (m m' : Mempool) : Prop :=
  maxSize m' = maxSize m /\ maxTotalSize m' = maxTotalSize m /\ minFeeRate m' = minFeeRate m /\
  chainID m' = chainID m /\ ttl m' = ttl m.

Lemma removeAll_config (ids : list string) (m : Mempool) : same_config m (removeAll ids m).
Proof.
  revert m. induction ids; cbn; intros m; [done|].
  change (fold_left _ ids ?x) with (removeAll ids x).
  destruct (IHids (removeLocked a m)) as (E1 & E2 & E3 & E4 & E5).
  unfold same_config. rewrite E1, E2, E3, E4, E5.
  unfold removeLocked. by destruct (entries m !! a).
Qed.

Lemma fold_remove_if {A : Type} (f : A -> bool) (key : A -> string) (l : list A) (m : Mempool) :
  fold_left (fun m x => if f x then removeLocked (key x) m else m) l m
  = removeAll (map key (List.filter f l)) m.
Proof. revert m. induction l as [|x l IH]; intros m; cbn; [done|]. rewrite IH. by destruct (f x). Qed.

Lemma fold_evict_if {A : Type} (f : A -> bool) (key : A -> string) (l : list A) (m : Mempool)
  (ev : list string) :
  fold_left (fun acc x => if f x then (removeLocked (key x) (fst acc), snd acc ++ [key x]) else acc)
    l (m, ev)
  = (removeAll (map key (List.filter f l)) m, ev ++ map key (List.filter f l)).
Proof.
  revert m ev. induction l as [|x l IH]; intros m ev; cbn; [by rewrite app_nil_r|].
  destruct (f x); cbn; [|by rewrite IH].
  rewrite IH. cbn. by rewrite <- app_assoc.
Qed.

Section Order.
Context (range_entries : Entries -> list (string * mempoolEntry))
  (range_nonces : Nonces -> list (Z * string)).
Context (Hre : forall es, range_entries es ≡ₚ map_to_list es)
  (Hrn : forall ns, range_nonces ns ≡ₚ map_to_list ns).

Lemma range_elem (es : Entries) (id : string) (e : mempoolEntry) :
  (id, e) ∈ range_entries es <-> es !! id = Some e.
Proof. rewrite Hre. apply elem_of_map_to_list. Qed.

Lemma filtered_elem {A : Type} (f : string * A -> bool) (l : list (string * A)) (id : string) :
  id ∈ map fst (List.filter f l) <-> exists a, (id, a) ∈ l /\ f (id, a) = true.
Proof.
  rewrite list_elem_of_fmap. split.
  - intros ([i a] & -> & H). apply list_elem_of_In, filter_In in H as [H1 H2].
    exists a. split; [by apply list_elem_of_In|done].
  - intros (a & H1 & H2). exists (id, a). split; [done|].
    apply list_elem_of_In, filter_In. split; [by apply list_elem_of_In|done].
Qed.

(** ** Evictions as removals *)
Definition evict_ids (txid : string) (victim : mempoolEntry) (m : Mempool) : list string :=
  match FromAddress (e_tx victim) with
  | Err _ => []
  | Ok from => map fst (List.filter (fun x => depends from (tx_Nonce (e_tx victim)) (snd x))
                          (range_entries (entries (removeLocked txid m))))
  end.

Lemma evictWithDependents_eq (txid : string) (m : Mempool) (victim : mempoolEntry) :
  entries m !! txid = Some victim ->
  evictWithDependents range_entries txid m = removeAll (txid :: evict_ids txid victim m) m.
Proof.
  intros H. unfold evictWithDependents, evict_ids. rewrite H. cbn [removeAll fold_left].
  destruct (FromAddress (e_tx victim)); [|done].
  by rewrite (fold_remove_if (fun x => depends a (tx_Nonce (e_tx victim)) (snd x)) fst).
Qed.

Lemma evictWithDependents_inv (txid : string) (m : Mempool) :
  mp_inv m -> mp_inv (evictWithDependents range_entries txid m).
Proof.
  intros Hm. destruct (entries m !! txid) as [v|] eqn:E.
  - rewrite (evictWithDependents_eq _ _ v E). by apply removeAll_inv.
  - unfold evictWithDependents. by rewrite E.
Qed.

Lemma evictWithDependents_config (txid : string) (m : Mempool) :
  same_config m (evictWithDependents range_entries txid m).
Proof.
  destruct (entries m !! txid) as [v|] eqn:E.
  - rewrite (evictWithDependents_eq _ _ v E). apply removeAll_config.
  - unfold evictWithDependents. by rewrite E.
Qed.

Lemma evict_size (txid : string) (m : Mempool) (victim : mempoolEntry) :
  entries m !! txid = Some victim ->
  (size (entries (evictWithDependents range_entries txid m)) < size (entries m))%nat.
Proof.
  intros H. rewrite (evictWithDependents_eq _ _ victim H).
  apply map_subset_size. split.
  - apply map_subseteq_spec. intros id e. rewrite removeAll_lookup. by case_decide.
  - intros Hs. apply (lookup_weaken _ _ _ _ H) in Hs. rewrite removeAll_lookup in Hs.
    rewrite decide_True in Hs; [done|apply elem_of_cons; by left].
Qed.

Lemma removeAll_index (ids : list string) (m : Mempool) (f : string) (n : Z) (id : string) :
  mp_inv m -> nonces_of (bySenderNonce (removeAll ids m)) f !! n = Some id ->
  nonces_of (bySenderNonce m) f !! n = Some id /\ id ∉ ids.
Proof.
  intros Hm Hl. destruct (inv_bwd _ (removeAll_inv ids m Hm) _ _ _ Hl) as (e & He & Hf & Hn).
  rewrite removeAll_lookup in He. case_decide; [done|]. split; [|done].
  destruct (inv_fwd _ Hm _ _ He) as (g & Hg & Hx). congruence.
Qed.

(** The ids a replacement evicts: the sender's entries from that nonce on. *)
Lemma evictBySenderNonce_eq (from : string) (nonce : Z) (m m' : Mempool) (ev : list string) :
  mp_inv m -> evictBySenderNonce range_nonces from nonce m = (m', ev) ->
  m' = removeAll ev m /\
  forall id, id ∈ ev <-> exists n, nonce <= n /\ nonces_of (bySenderNonce m) from !! n = Some id.
Proof.
  intros Hm H. unfold evictBySenderNonce in H.
  assert (Hin : forall (ns : Nonces) id,
    id ∈ map snd (List.filter (fun x => nonce <? fst x) (range_nonces ns)) <->
    exists n, nonce < n /\ ns !! n = Some id).
  { intros ns id. rewrite list_elem_of_fmap. split.
    - intros ([n i] & -> & Hx). apply list_elem_of_In, filter_In in Hx as [Hx Hb].
      apply list_elem_of_In in Hx. rewrite Hrn in Hx. apply elem_of_map_to_list in Hx.
      exists n. cbn in *. split; [lia|done].
    - intros (n & Hn & Hx). exists (n, id). split; [done|].
      apply list_elem_of_In, filter_In. split; [|cbn; lia].
      apply list_elem_of_In. rewrite Hrn. by apply elem_of_map_to_list. }
  destruct (nonces_of (bySenderNonce m) from !! nonce) as [txid|] eqn:E;
    rewrite (fold_evict_if (fun x => nonce <? fst x) snd) in H;
    apply pair_eq in H as [Hm' Hev]; rewrite <- Hev, <- Hm'; (split; [done|]); intros id.
  - cbn [app]. rewrite elem_of_cons, Hin. destruct (inv_bwd _ Hm _ _ _ E) as (e & He & Hf & Hn).
    assert (Hone : forall n, nonce < n ->
      (nonces_of (bySenderNonce (removeLocked txid m)) from !! n = Some id <->
       nonces_of (bySenderNonce m) from !! n = Some id)).
    { intros n Hlt. unfold removeLocked. rewrite He, Hf. cbn [bySenderNonce set_pool].
      rewrite nonces_of_unindex, decide_True, lookup_delete_ne by (done || lia). done. }
    split.
    + intros [->|(n & Hlt & Hx)]; [by exists nonce|]. exists n. split; [lia|by apply Hone].
    + intros (n & Hle & Hx). destruct (decide (n = nonce)) as [->|]; [left; congruence|].
      right. exists n. split; [lia|]. apply Hone; [lia|done].
  - cbn [app]. rewrite Hin. split.
    + intros (n & ? & ?). exists n. split; [lia|done].
    + intros (n & ? & ?). exists n. split; [|done].
      destruct (decide (n = nonce)) as [->|]; [congruence|lia].
Qed.

(** ** The lowest fee *)
Lemma lowest_fold (l : list (string * mempoolEntry)) (acc r : Z * string) :
  fold_left lowest_step l acc = r ->
  fst r <= fst acc /\ (forall x, x ∈ l -> fst r <= tx_Fee (e_tx (snd x))) /\
  (r = acc \/ exists e, (snd r, e) ∈ l /\ tx_Fee (e_tx e) = fst r).
Proof.
  revert acc. induction l as [|[id e] l IH]; intros acc H; cbn [fold_left] in H.
  - subst. split_and!; [lia|intros x Hx; by apply not_elem_of_nil in Hx|by left].
  - apply IH in H as (H1 & H2 & H3). unfold lowest_step in H1, H3. cbn [fst snd] in *.
    destruct (Z.ltb_spec (tx_Fee (e_tx e)) (fst acc)); cbn [fst] in *.
    + split_and!; [lia| |].
      * intros x Hx. apply elem_of_cons in Hx as [->|Hx]; [done|by apply H2].
      * right. destruct H3 as [->|(e' & Hin & He)].
        -- exists e. split; [apply elem_of_cons; by left|done].
        -- exists e'. split; [apply elem_of_cons; by right|done].
    + split_and!; [done| |].
      * intros x Hx. apply elem_of_cons in Hx as [->|Hx]; [cbn; lia|by apply H2].
      * destruct H3 as [->|(e' & Hin & He)]; [by left|]. right. exists e'.
        split; [apply elem_of_cons; by right|done].
Qed.

(** A non-empty answer is an entry with the smallest fee of the pool. *)
Lemma lowestFeeEntry_spec (m : Mempool) :
  lowestFeeEntry range_entries m <> ""%string ->
  exists e, entries m !! lowestFeeEntry range_entries m = Some e /\
    forall id e', entries m !! id = Some e' -> tx_Fee (e_tx e) <= tx_Fee (e_tx e').
Proof.
  unfold lowestFeeEntry. destruct (fold_left _ _ _) as [fee id] eqn:E. cbn [snd].
  apply lowest_fold in E as (_ & Hmin & [Heq|(e & Hin & Hfee)]); intros Hne; [congruence|].
  cbn [fst snd] in *. exists e. split; [by apply range_elem|].
  intros i e' He'. rewrite Hfee. apply (Hmin (i, e')). by apply range_elem.
Qed.

(** The empty answer means that no fee is below the largest [uint64], or that an entry
    is filed under the empty id. *)
Lemma lowestFeeEntry_empty (m : Mempool) :
  lowestFeeEntry range_entries m = ""%string -> entries m !! ""%string = None ->
  forall id e, entries m !! id = Some e -> max_u64 <= tx_Fee (e_tx e).
Proof.
  unfold lowestFeeEntry. destruct (fold_left _ _ _) as [fee i] eqn:E. cbn [snd].
  apply lowest_fold in E as (_ & Hmin & [Heq|(e & Hin & Hfee)]); intros -> Hn id e' He'.
  - injection Heq as ->. apply (Hmin (id, e')). by apply range_elem.
  - apply range_elem in Hin. cbn in Hin. congruence.
Qed.

(** ** The operations keep the invariant *)
Section Invariant.
Context (ed : list Z -> list Z -> list Z -> bool).

(** What [depends] decides. *)
Lemma depends_iff (from : string) (nonce : Z) (e : mempoolEntry) :
  depends from nonce e = true <-> FromAddress (e_tx e) = Ok from /\ nonce < tx_Nonce (e_tx e).
Proof.
  unfold depends. destruct (FromAddress (e_tx e)) as [a|x]; [|by split; [|intros []]].
  rewrite andb_true_iff, Z.ltb_lt. destruct (str_eqb_spec a from); naive_solver.
Qed.

Lemma evict_lookup (txid : string) (m : Mempool) (id : string) (e : mempoolEntry) :
  entries (evictWithDependents range_entries txid m) !! id = Some e -> entries m !! id = Some e.
Proof.
  destruct (entries m !! txid) as [v|] eqn:E.
  - rewrite (evictWithDependents_eq _ _ v E), removeAll_lookup. by case_decide.
  - unfold evictWithDependents. by rewrite E.
Qed.

Lemma evict_index (txid : string) (m : Mempool) (f : string) (n : Z) :
  mp_inv m -> nonces_of (bySenderNonce m) f !! n = None ->
  nonces_of (bySenderNonce (evictWithDependents range_entries txid m)) f !! n = None.
Proof.
  intros Hm Hn. destruct (entries m !! txid) as [v|] eqn:E.
  - rewrite (evictWithDependents_eq _ _ v E).
    apply eq_None_not_Some. intros [id El].
    apply removeAll_index in El as [El _]; [congruence|done].
  - unfold evictWithDependents. by rewrite E.
Qed.

Lemma add_locked_inv (tx : Transaction) (txid from : string) (now : Z) (v : result unit)
  (m : Mempool) :
  FromAddress tx = Ok from -> mp_inv m ->
  mp_inv (fst (add_locked range_entries tx txid from now v m)).
Proof.
  intros Hf Hm. unfold add_locked, Contains. destruct (entries m !! txid) eqn:Ee; [done|].
  destruct (nonces_of (bySenderNonce m) from !! tx_Nonce tx) eqn:En; [done|].
  destruct (wrap _ v); [|done]. destruct (isFull m && _) eqn:Ef; [done|].
  destruct (isFull m); (destruct (_ >? _); cbn [fst]; [auto using evictWithDependents_inv|]);
    apply insert_entry_inv; auto using evictWithDependents_inv, evict_index.
  cbn. destruct (entries (evictWithDependents _ _ _) !! txid) eqn:El; [|done].
  apply evict_lookup in El. congruence.
Qed.

Lemma AddWithTxID_inv (tx : Transaction) (txid : string) (p : ConsensusParams) (h now : Z)
  (m : Mempool) : mp_inv m -> mp_inv (fst (AddWithTxID range_entries ed tx txid p h now m)).
Proof.
  intros Hm. unfold AddWithTxID. destruct (if is_blank txid then _ else _); [|done].
  destruct (FromAddress tx) eqn:Hf; cbn [wrap]; [|done]. by apply add_locked_inv.
Qed.

Lemma ReplaceByFeeWithTxID_inv (tx : Transaction) (txid : string) (now : Z) (m : Mempool) :
  mp_inv m -> mp_inv (fst (ReplaceByFeeWithTxID range_nonces tx txid now m)).
Proof.
  intros Hm. unfold ReplaceByFeeWithTxID.
  destruct (FromAddress tx) as [from|] eqn:Hf; cbn [wrap]; [|done].
  destruct (nonces_of (bySenderNonce m) from !! tx_Nonce tx) as [x|] eqn:En; [|done].
  destruct (entries m !! x) as [old|]; [|done]. destruct (_ <=? _); [done|].
  destruct (rbf_rate_too_low m tx old); [done|].
  destruct (evictBySenderNonce range_nonces from (tx_Nonce tx) m) as [m' ev] eqn:Eev.
  apply evictBySenderNonce_eq in Eev as [-> Hev]; [|done].
  unfold Contains. destruct (entries (removeAll ev m) !! txid) eqn:Ee; cbn [fst];
    [by apply removeAll_inv|].
  apply insert_entry_inv; [by apply removeAll_inv|done|done|]. cbn.
  destruct (nonces_of (bySenderNonce (removeAll ev m)) from !! tx_Nonce tx) as [id|] eqn:El; [|done].
  apply removeAll_index in El as [El Hni]; [|done]. exfalso. apply Hni, Hev.
  exists (tx_Nonce tx). split; [lia|done].
Qed.

Lemma AddWithoutSignatureValidation_inv (tx : Transaction) (now : Z) (m : Mempool) :
  mp_inv m -> mp_inv (fst (AddWithoutSignatureValidation range_entries tx now m)).
Proof.
  intros Hm. unfold AddWithoutSignatureValidation. destruct (wrap _ (TxIDHex tx)); [|done].
  destruct (FromAddress tx) eqn:Hf; cbn [wrap]; [|done]. by apply add_locked_inv.
Qed.

Lemma AddMany_inv (txs : list Transaction) (p : ConsensusParams) (h now : Z) (m : Mempool) :
  mp_inv m -> mp_inv (fst (AddMany range_entries ed txs p h now m)).
Proof.
  revert m. induction txs as [|tx txs IH]; intros m Hm; cbn [AddMany]; [done|].
  pose proof (AddWithTxID_inv tx "" p h now m Hm) as H1.
  destruct (AddWithTxID range_entries ed tx "" p h now m) as [m1 o]. cbn [fst] in H1.
  specialize (IH m1 H1). by destruct (AddMany range_entries ed txs p h now m1).
Qed.

Lemma shrink_inv (fuel : nat) (m : Mempool) : mp_inv m -> mp_inv (shrink range_entries fuel m).
Proof.
  revert m. induction fuel as [|fuel IH]; intros m Hm; cbn [shrink]; [done|].
  destruct (_ <? _); [|done]. destruct (str_eqb _ _); [done|].
  by apply IH, evictWithDependents_inv.
Qed.

Lemma empty_pool_inv (m : Mempool) :
  entries m = ∅ -> bySenderNonce m = ∅ -> byFee m = [] -> totalSize m = 0 -> mp_inv m.
Proof.
  intros He Hi Hb Ht. split; rewrite ?He, ?Hi, ?Hb, ?Ht; try done.
Qed.

Lemma set_config_inv (ms mfr : Z) (p : ConsensusParams) (h : Z) (m : Mempool) :
  mp_inv m -> mp_inv (set_config ms mfr p h m).
Proof. by intros [K F B N H T]; split. Qed.

(** ** Every operation of the pool, and the states they reach *)
Inductive pool_op : Type :=
| OpAdd (tx : Transaction) (txid : string) (p : ConsensusParams) (height now : Z)
| OpAddMany (txs : list Transaction) (p : ConsensusParams) (height now : Z)
| OpAddUnsigned (tx : Transaction) (now : Z)
| OpRemove (txid : string)
| OpRemoveMany (txids : list string)
| OpReplace (tx : Transaction) (txid : string) (now : Z)
| OpClear
| OpSetMinFeeRate (rate : Z)
| OpSetMaxSize (n : Z)
| OpUpdateHeight (height : Z)
| OpUpdateConsensus (p : ConsensusParams)
| OpCleanup (now : Z)
| OpClose.

Definition run_op (m : Mempool) (op : pool_op) : Mempool :=
  match op with
  | OpAdd tx txid p h now => fst (AddWithTxID range_entries ed tx txid p h now m)
  | OpAddMany txs p h now => fst (AddMany range_entries ed txs p h now m)
  | OpAddUnsigned tx now => fst (AddWithoutSignatureValidation range_entries tx now m)
  | OpRemove id => Remove id m
  | OpRemoveMany ids => RemoveMany ids m
  | OpReplace tx txid now => fst (ReplaceByFeeWithTxID range_nonces tx txid now m)
  | OpClear => Clear m
  | OpSetMinFeeRate r => SetMinFeeRate r m
  | OpSetMaxSize n => SetMaxSize range_entries n m
  | OpUpdateHeight h => UpdateHeight h m
  | OpUpdateConsensus p => UpdateConsensus p m
  | OpCleanup now => cleanupExpired range_entries now m
  | OpClose => Close m
  end.

Lemma run_op_inv (m : Mempool) (op : pool_op) : mp_inv m -> mp_inv (run_op m op).
Proof.
  intros Hm. destruct op; cbn [run_op];
    unfold Remove, RemoveMany, SetMinFeeRate, UpdateHeight, UpdateConsensus, SetMaxSize,
      cleanupExpired;
    auto using AddWithTxID_inv, AddMany_inv, AddWithoutSignatureValidation_inv,
      ReplaceByFeeWithTxID_inv, removeLocked_inv, removeAll_inv, shrink_inv, set_config_inv.
  - by apply empty_pool_inv.
  - by destruct Hm as [K F B N H T]; split.
Qed.

End Invariant.

(** ** Bounds *)
Lemma Size_evict_lowest (m : Mempool) :
  lowestFeeEntry range_entries m <> ""%string ->
  Size (evictWithDependents range_entries (lowestFeeEntry range_entries m) m) + 1 <= Size m.
Proof.
  intros H. destruct (lowestFeeEntry_spec m H) as (e & He & _).
  pose proof (evict_size _ _ _ He). unfold Size. lia.
Qed.

Lemma add_locked_ok (tx : Transaction) (txid from : string) (now : Z) (v : result unit)
  (m m' : Mempool) (id : string) :
  add_locked range_entries tx txid from now v m = (m', (id, Ok tt)) ->
  v = Ok tt /\ id = txid /\ entries m' !! id = Some (new_entry tx txid now) /\
  totalSize m' <= maxTotalSize m' /\ (Size m <= maxSize m -> Size m' <= maxSize m').
Proof.
  intros H. unfold add_locked, Contains in H. destruct (entries m !! txid) eqn:Ee; [done|].
  destruct (nonces_of _ _ !! _); [done|]. destruct v as [[]|]; cbn [wrap] in H; [|done].
  destruct (isFull m && str_eqb (lowestFeeEntry range_entries m) "") eqn:Ef; [done|].
  set (m1 := if isFull m then _ else m) in *.
  destruct ((totalSize m1 + e_size (new_entry tx txid now))%u64 >? maxTotalSize m1) eqn:Et; [done|].
  injection H as <- <-. bool_to_prop. split_and!; [done|done|cbn; apply lookup_insert_eq|exact Et|].
  intros Hs. assert (Hm1 : Size m1 + 1 <= maxSize m1).
  { unfold m1. destruct (isFull m) eqn:Efull.
    - cbn [andb] in Ef. assert (Hne : lowestFeeEntry range_entries m <> ""%string).
      { intros E. rewrite E, str_eqb_refl in Ef. done. }
      pose proof (Size_evict_lowest m Hne).
      destruct (evictWithDependents_config (lowestFeeEntry range_entries m) m) as (-> & _). lia.
    - unfold isFull in Efull. bool_to_prop. lia. }
  assert (Hins : (size (<[txid := new_entry tx txid now]> (entries m1)) <= S (size (entries m1)))%nat).
  { rewrite map_size_insert. case_match; cbn; lia. }
  unfold Size in *. cbn. lia.
Qed.

Lemma shrink_bound (fuel : nat) (m : Mempool) :
  (size (entries m) <= fuel)%nat ->
  let m' := shrink range_entries fuel m in
  maxSize m' = maxSize m /\
  (Size m' <= maxSize m \/ lowestFeeEntry range_entries m' = ""%string).
Proof.
  revert m. induction fuel as [|fuel IH]; intros m Hf; cbn [shrink].
  - split; [done|]. right. assert (He : entries m = ∅) by (apply map_size_empty_inv; lia).
    unfold lowestFeeEntry. rewrite He.
    assert (Hr : range_entries ∅ = []) by (apply Permutation_nil_r; by rewrite Hre, map_to_list_empty).
    by rewrite Hr.
  - destruct (Z.ltb_spec (maxSize m) (Size m)); [|split; [done|left; done]].
    destruct (str_eqb _ _) eqn:El; [apply str_eqb_spec in El; by split; [|right]|].
    assert (Hne : lowestFeeEntry range_entries m <> ""%string)
      by (intros E; by rewrite E, str_eqb_refl in El).
    pose proof (Size_evict_lowest m Hne) as Hs. unfold Size in Hs.
    destruct (evictWithDependents_config (lowestFeeEntry range_entries m) m) as (Hc & _).
    destruct (IH (evictWithDependents range_entries (lowestFeeEntry range_entries m) m)) as [H1 H2];
      [lia|]. rewrite Hc in *. by split.
Qed.

(** ** Fee statistics *)
Lemma merge_sort_perm_Z (l : list Z) : merge_sort Z.le l ≡ₚ l.
Proof. apply merge_sort_Permutation. Qed.

Lemma strongly_sorted_nth (l : list Z) (i j : nat) :
  StronglySorted Z.le l -> (i <= j < length l)%nat -> nth i l 0 <= nth j l 0.
Proof.
  intros Hs. revert i j. induction Hs as [|x l Hs IH Hall]; intros i j H; cbn in H; [lia|].
  destruct i, j; cbn; [lia| |lia|apply IH; lia].
  apply (proj1 (List.Forall_forall _ _) Hall), nth_In. lia.
Qed.

Lemma fold_max_ge (l : list Z) (a : Z) :
  a <= fold_left (fun a f => if f >? a then f else a) l a /\
  forall x, In x l -> x <= fold_left (fun a f => if f >? a then f else a) l a.
Proof.
  revert a. induction l as [|y l IH]; intros a; cbn; [split; [lia|tauto]|].
  destruct (IH (if y >? a then y else a)) as [H1 H2].
  assert (a <= (if y >? a then y else a) /\ y <= (if y >? a then y else a))
    by (destruct (Z.gtb_spec y a); lia).
  split; [lia|]. intros x [<-|Hx]; [lia|by apply H2].
Qed.

Lemma percentile_index (n : nat) :
  (0 < n)%nat ->
  (n * 25 / 100 <= n / 2)%nat /\ (n / 2 <= n * 75 / 100)%nat /\ (n * 75 / 100 < n)%nat.
Proof.
  intros H.
  assert (E : (n / 2 = n * 50 / 100)%nat)
    by (change 100%nat with (2 * 50)%nat; by rewrite Nat.Div0.div_mul_cancel_r).
  rewrite E. split_and!; [apply Nat.Div0.div_le_mono; lia|apply Nat.Div0.div_le_mono; lia|].
  apply Nat.Div0.div_lt_upper_bound. lia.
Qed.

Definition fees_typed (m : Mempool) : Prop :=
  map_Forall (fun _ e => is_u64 (tx_Fee (e_tx e))) (entries m).

Definition pool_fees (m : Mempool) : list Z :=
  map (fun x => tx_Fee (e_tx (snd x))) (range_entries (entries m)).

Lemma pool_fees_typed (m : Mempool) : fees_typed m -> Forall is_u64 (merge_sort Z.le (pool_fees m)).
Proof.
  intros H. rewrite merge_sort_perm_Z. unfold pool_fees. apply list.Forall_forall.
  intros z Hz. apply list_elem_of_fmap in Hz as ([id e] & -> & Hin).
  apply range_elem in Hin. by apply (H id e).
Qed.

Lemma nth_u64 (l : list Z) (i : nat) : Forall is_u64 l -> is_u64 (nth i l 0).
Proof.
  intros H. destruct (nth_in_or_default i l 0) as [Hin| ->]; [|unfold_u64; lia].
  by apply (proj1 (List.Forall_forall _ _) H).
Qed.

Lemma pool_fees_length (m : Mempool) :
  length (merge_sort Z.le (pool_fees m)) = size (entries m).
Proof.
  rewrite merge_sort_perm_Z. unfold pool_fees. rewrite length_map, Hre.
  by rewrite length_map_to_list.
Qed.

#[local] Instance pool_stats : MempoolStats Mempool :=
  {| GetFeeStats := pool_GetFeeStats range_entries |}.

(** The pool keeps the promises of the interface the fee checker uses. *)
#[local] Instance pool_stats_laws : MempoolStatsLaws Mempool fees_typed.
Proof.
  split.
  - intros m Hm. cbn [GetFeeStats pool_stats]. unfold pool_GetFeeStats.
    fold (pool_fees m). pose proof (pool_fees_typed m Hm).
    case_match; cbn; split_and!; try (by apply nth_u64); unfold_u64; lia.
  - intros m Hm. cbn [GetFeeStats pool_stats]. unfold pool_GetFeeStats. fold (pool_fees m).
    destruct (Z.eqb_spec (Size m) 0); cbn [fs_TxCount fs_MinFee fs_P25Fee fs_MedianFee
      fs_P75Fee fs_MaxFee]; intros Hc; [lia|].
    set (fees := merge_sort Z.le (pool_fees m)).
    assert (Hs : StronglySorted Z.le fees).
    { apply Sorted_StronglySorted; [intros a b c; lia|]. apply (Sorted_merge_sort _). }
    assert (Hl : (0 < length fees)%nat).
    { unfold fees. rewrite pool_fees_length. unfold Size in *. lia. }
    destruct (percentile_index (length fees) Hl) as (I1 & I2 & I3).
    split_and!; try (apply strongly_sorted_nth; [done|lia]).
    apply fold_max_ge. eapply Permutation_in; [apply merge_sort_perm_Z|].
    apply nth_In, I3.
Qed.

End Order.

(** * Properties *)

(** What Go guarantees of a map iteration: every entry once, in some order. *)
Definition visits_all_entries (range : Entries -> list (string * mempoolEntry)) : Prop :=
  forall es, range es ≡ₚ map_to_list es.
Definition visits_all_nonces (range : Nonces -> list (Z * string)) : Prop :=
  forall ns, range ns ≡ₚ map_to_list ns.

(** C38. In every state a new pool reaches through any sequence of its operations, and for
    every iteration order, the four views agree and the byte count is exact: at most one
    transaction per sender and nonce, the sender index has exactly the entries, the
    arrival list is a permutation of them. *)
Theorem mempool_invariant (re : Entries -> list (string * mempoolEntry))
  (rn : Nonces -> list (Z * string)) (ed : list Z -> list Z -> list Z -> bool)
  (ops : list pool_op) (ms mfr t cid : Z) (p : ConsensusParams) (h mb : Z)
  (Hre : visits_all_entries re) (Hrn : visits_all_nonces rn) :
  mp_inv (fold_left (run_op re rn ed) ops (NewMempool ms mfr t cid p h mb)).
Proof.
  assert (H0 : mp_inv (NewMempool ms mfr t cid p h mb)) by (by apply empty_pool_inv).
  revert H0. generalize (NewMempool ms mfr t cid p h mb).
  induction ops as [|op ops IH]; intros m Hm; cbn; [done|]. by apply IH, run_op_inv.
Qed.

(** What an accepted transaction means: it was verified for the given rules and
    height, its fee is in the tariff's band, its chain id fits, it can be read back under
    the returned id, and the pool is within its two capacity limits. *)
Theorem mempool_add_admits (re : Entries -> list (string * mempoolEntry))
  (ed : list Z -> list Z -> list Z -> bool) (tx : Transaction) (txid id : string)
  (p : ConsensusParams) (h now : Z) (m m' : Mempool)
  (Hre : visits_all_entries re)
  (H : AddWithTxID re ed tx txid p h now m = (m', (id, Ok tt))) :
  VerifyForConsensus ed tx p h = Ok tt /\
  ValidateFee (@NewFeeChecker Mempool MinFee MinFeePerByte) tx = Ok tt /\
  (chainID m = 0 \/ tx_ChainID tx = chainID m) /\
  Get id m' = Some tx /\ totalSize m' <= maxTotalSize m' /\
  (Size m <= maxSize m -> Size m' <= maxSize m').
Proof.
  unfold AddWithTxID in H. destruct (if is_blank txid then _ else _) as [i|]; [|done].
  destruct (FromAddress tx) as [from|]; cbn [wrap] in H; [|done].
  apply (add_locked_ok re Hre) in H as (Hv & -> & He & Ht & Hs).
  unfold validateTransaction, validateTransactionBasic in Hv. inv_result.
  repeat match goal with u : unit |- _ => destruct u end.
  split_and!; [done|done| |unfold Get; by rewrite He|done|done].
  match goal with E : negb _ && negb _ = false |- _ =>
    apply andb_false_iff in E as [E|E]; bool_to_prop; auto end.
Qed.

(** Eviction removes a transaction together with exactly its sender's transactions of
    higher nonce, for every iteration order: an entry survives exactly when it is neither. *)
Theorem evict_with_dependents_exact (re : Entries -> list (string * mempoolEntry))
  (txid from : string) (victim : mempoolEntry) (m : Mempool) (id : string) (e : mempoolEntry)
  (Hre : visits_all_entries re)
  (Hv : entries m !! txid = Some victim) (Hf : FromAddress (e_tx victim) = Ok from) :
  entries (evictWithDependents re txid m) !! id = Some e <->
  entries m !! id = Some e /\ id <> txid /\
  ~ (FromAddress (e_tx e) = Ok from /\ tx_Nonce (e_tx victim) < tx_Nonce (e_tx e)).
Proof.
  rewrite (evictWithDependents_eq re txid m victim Hv), removeAll_lookup.
  unfold evict_ids. rewrite Hf, <- depends_iff.
  set (dep := depends from (tx_Nonce (e_tx victim))).
  assert (Hin : id ∈ txid :: map fst (List.filter (fun x => dep (snd x))
                   (re (entries (removeLocked txid m))))
    <-> id = txid \/ exists e', id <> txid /\ entries m !! id = Some e' /\ dep e' = true).
  { rewrite elem_of_cons, (filtered_elem (fun x => dep (snd x))).
    setoid_rewrite (range_elem re Hre). setoid_rewrite removeLocked_entries.
    setoid_rewrite lookup_delete_Some. naive_solver. }
  case_decide as D; split; [done| |..].
  - apply Hin in D as [?|(e' & _ & He & ?)]; [naive_solver|].
    intros (? & _ & Hd). destruct Hd. congruence.
  - intros He. split_and!; [done|..]; intros ?; apply D, Hin; [by left|].
    destruct (decide (id = txid)); [by left|]. right. by exists e.
  - tauto.
Qed.

(** [SetMaxSize] ends with the pool within the new limit, unless what is left cannot be
    chosen for eviction: every remaining fee is the largest [uint64]. *)
Theorem set_max_size_bounds (re : Entries -> list (string * mempoolEntry)) (n : Z) (m : Mempool)
  (Hre : visits_all_entries re)
  (Hid : entries (SetMaxSize re n m) !! ""%string = None) :
  let m' := SetMaxSize re n m in
  Size m' <= n \/ forall id e, entries m' !! id = Some e -> max_u64 <= tx_Fee (e_tx e).
Proof.
  cbv zeta. unfold SetMaxSize in *. cbv zeta in *.
  set (m0 := set_config n (minFeeRate m) (consensus m) (currentHeight m) m) in *.
  destruct (shrink_bound re Hre (size (entries m0)) m0 (le_n _)) as [_ [H|H]]; [by left|].
  right. by apply (lowestFeeEntry_empty re Hre).
Qed.

(** Replace-by-fee: a successful replacement pays more than the transaction it
    replaces, evicts exactly the sender's transactions from that nonce on, and leaves
    every other entry as it was. *)
Theorem replace_by_fee_exact (rn : Nonces -> list (Z * string)) (tx : Transaction) (txid from : string) (now : Z)
  (m m' : Mempool) (o : rbf_outcome)
  (Hrn : visits_all_nonces rn) (Hm : mp_inv m) (Hf : FromAddress tx = Ok from)
  (H : ReplaceByFeeWithTxID rn tx txid now m = (m', o)) (Hok : rbf_result o = Ok tt) :
  (exists old oldID, nonces_of (bySenderNonce m) from !! tx_Nonce tx = Some oldID /\
     entries m !! oldID = Some old /\ tx_Fee (e_tx old) < tx_Fee tx) /\
  (forall id, id ∈ rbf_evicted o <->
     exists n, tx_Nonce tx <= n /\ nonces_of (bySenderNonce m) from !! n = Some id) /\
  (forall id, entries m' !! id = if decide (id = txid) then Some (new_entry tx txid now)
                                 else if decide (id ∈ rbf_evicted o) then None
                                 else entries m !! id).
Proof.
  unfold ReplaceByFeeWithTxID in H. rewrite Hf in H. cbn [wrap] in H.
  destruct (nonces_of (bySenderNonce m) from !! tx_Nonce tx) as [x|] eqn:En;
    [|injection H as <- <-; discriminate].
  destruct (entries m !! x) as [old|] eqn:Eo; [|injection H as <- <-; discriminate].
  destruct (Z.leb_spec (tx_Fee tx) (tx_Fee (e_tx old))); [injection H as <- <-; discriminate|].
  destruct (rbf_rate_too_low m tx old); [injection H as <- <-; discriminate|].
  destruct (evictBySenderNonce rn from (tx_Nonce tx) m) as [m1 ev] eqn:Eev.
  apply (evictBySenderNonce_eq rn Hrn) in Eev as [-> Hev]; [|done].
  unfold Contains in H. destruct (entries (removeAll ev m) !! txid) eqn:Ee;
    injection H as <- <-; [discriminate|]. cbn [rbf_evicted].
  split_and!; [by exists old, x|exact Hev|]. intros id. cbn. case_decide as D.
  - subst. apply lookup_insert_eq.
  - rewrite lookup_insert_ne by done. apply removeAll_lookup.
Qed.

(** The API's replacement with an empty id loses a transaction: when the pool already
    holds an entry filed under the empty id (the first such replacement), a second one, by
    another sender, evicts the transaction it replaces and then fails. *)
Theorem replace_with_empty_id_loses (rn : Nonces -> list (Z * string)) (tx : Transaction) (from oldID other : string) (now : Z)
  (m m' : Mempool) (o : rbf_outcome) (first : mempoolEntry)
  (Hrn : visits_all_nonces rn) (Hm : mp_inv m)
  (Hf : FromAddress tx = Ok from)
  (Hfirst : entries m !! ""%string = Some first)
  (Hother : FromAddress (e_tx first) = Ok other) (Hne : other <> from)
  (Hold : nonces_of (bySenderNonce m) from !! tx_Nonce tx = Some oldID)
  (H : ReplaceByFeeWithTxID rn tx "" now m = (m', o)) (Hr : rbf_replaced o = true) :
  rbf_result o = Err "replacement tx already exists" /\
  oldID ∈ rbf_evicted o /\ entries m' !! oldID = None.
Proof.
  unfold ReplaceByFeeWithTxID in H. rewrite Hf in H. cbn [wrap] in H. rewrite Hold in H.
  destruct (entries m !! oldID) as [old|] eqn:Eo; [|injection H as <- <-; discriminate].
  destruct (_ <=? _); [injection H as <- <-; discriminate|].
  destruct (rbf_rate_too_low m tx old); [injection H as <- <-; discriminate|].
  destruct (evictBySenderNonce rn from (tx_Nonce tx) m) as [m1 ev] eqn:Eev.
  apply (evictBySenderNonce_eq rn Hrn) in Eev as [-> Hev]; [|done].
  assert (Hstay : ""%string ∉ ev).
  { intros Hin. apply Hev in Hin as (n & _ & Hn).
    destruct (inv_bwd _ Hm _ _ _ Hn) as (e & He & Hfe & _). congruence. }
  unfold Contains in H. rewrite removeAll_lookup, decide_False, Hfirst in H by done.
  injection H as <- <-. cbn. assert (Hin : oldID ∈ ev) by (apply Hev; eexists; split; [|done]; lia).
  split_and!; [done|done|]. by rewrite removeAll_lookup, decide_True.
Qed.

(** Removal leaves the recipient index behind: after a transaction has been removed,
    [GetByAddress] of its recipient still reports its id although the pool no longer
    contains it. *)
Theorem remove_leaves_address_index (rn : Nonces -> list (Z * string)) (txid addr : string)
  (ids : gset string) (m : Mempool)
  (Hin : addrInfo m !! addr = Some ids) (Hid : txid ∈ ids) :
  txid ∈ GetByAddress rn addr (Remove txid m) /\ Contains txid (Remove txid m) = false.
Proof.
  unfold Remove, GetByAddress, Contains. rewrite removeLocked_addr, Hin, removeLocked_entries.
  rewrite lookup_delete_eq. split; [|done]. apply elem_of_union_r. done.
Qed.

#[export] Instance fee_before_trans : Transitive fee_before.
Proof. intros a b c. unfold fee_before. lia. Qed.
#[export] Instance fee_before_total : Total fee_before.
Proof. intros a b. unfold fee_before. lia. Qed.

(** Block templates see the pool by decreasing fee and, among equal fees, by arrival:
    [EntriesSortedByFeeDesc] is a permutation of the entries in that order. *)
Theorem entries_sorted_by_fee (re : Entries -> list (string * mempoolEntry)) (m : Mempool)
  (Hre : visits_all_entries re) :
  EntriesSortedByFeeDesc re m ≡ₚ (map_to_list (entries m)).*2 /\
  StronglySorted fee_before (EntriesSortedByFeeDesc re m).
Proof.
  unfold EntriesSortedByFeeDesc. split.
  - rewrite merge_sort_Permutation. by rewrite (Hre (entries m)).
  - apply (StronglySorted_merge_sort _).
Qed.

Lemma rbf_rate_refused (rn : Nonces -> list (Z * string)) (tx : Transaction) (txid : string)
  (now : Z) (from id : string) (e : mempoolEntry) (m : Mempool) :
  FromAddress tx = Ok from -> nonces_of (bySenderNonce m) from !! tx_Nonce tx = Some id ->
  entries m !! id = Some e -> tx_Fee (e_tx e) < tx_Fee tx -> rbf_rate_too_low m tx e = true ->
  ReplaceByFeeWithTxID rn tx txid now m
  = (m, mkRbf "" false [] (Err "fee rate increase insufficient")).
Proof.
  intros Hf Hn He Hfee Hr. unfold ReplaceByFeeWithTxID. rewrite Hf. cbn [wrap].
  rewrite Hn, He, (proj2 (Z.leb_gt _ _) Hfee), Hr. done.
Qed.

(** Two transfers of one sender and nonce, the second without the first's memo. *)
Definition memo_tx (fee : Z) (memo : string) : Transaction :=
  mkTransaction TxTransfer 1 (Some (replicate 32 0)) "" 500 fee 1 memo (Some (replicate 64 1)).

(** A shorter replacement is refused however much it pays: the size difference is
    taken in [uint64], so a replacement one byte shorter than the original counts as
    2^64 - 1 bytes longer; here one that offers ten times the fee of the original is
    refused by a pool that asks for one unit per byte. *)
Theorem shorter_replacement_refused :
  let old := memo_tx 100000 "memo" in
  let new := memo_tx 1000000 "mem" in
  let m := NewMempool 10 1 0 1 main_params 5 0 in
  estimateTxSize new < estimateTxSize old /\
  (forall rn from,
     FromAddress old = Ok from ->
     let m1 := insert_entry from (new_entry old "old" 0) m in
     ReplaceByFeeWithTxID rn new "new" 0 m1
     = (m1, mkRbf "" false [] (Err "fee rate increase insufficient"))).
Proof.
  cbv zeta. split; [vm_compute; reflexivity|]. intros rn from Hf.
  apply (rbf_rate_refused rn _ _ _ from "old" (new_entry (memo_tx 100000 "memo") "old" 0)).
  - exact Hf.
  - cbn [insert_entry set_pool bySenderNonce]. rewrite nonces_of_index, decide_True by done.
    apply lookup_insert_eq.
  - apply lookup_insert_eq.
  - vm_compute. reflexivity.
  - vm_compute. reflexivity.
Qed.

(** * Witnesses *)
Definition re0 : Entries -> list (string * mempoolEntry) := map_to_list.
Definition rn0 : Nonces -> list (Z * string) := map_to_list.
Lemma re0_ok : visits_all_entries re0.
Proof. by intros es. Qed.
Lemma rn0_ok : visits_all_nonces rn0.
Proof. by intros ns. Qed.

(** Transfers of two senders, A and B.  Addresses, ids and pools are evaluated once. *)
Definition addr_A : string := Eval vm_compute in GenerateAddress (replicate 32 0).
Definition addr_B : string := Eval vm_compute in GenerateAddress (replicate 32 1).
Definition recipient : string := Eval vm_compute in GenerateAddress [9].
Definition pool_tx (key : Z) (nonce fee : Z) : Transaction :=
  mkTransaction TxTransfer 1 (Some (replicate 32 key)) recipient 500 fee nonce ""
    (Some (replicate 64 1)).
Lemma from_A (nonce fee : Z) : FromAddress (pool_tx 0 nonce fee) = Ok addr_A.
Proof. vm_cast_no_check (eq_refl (Ok addr_A)). Qed.
Lemma from_B (nonce fee : Z) : FromAddress (pool_tx 1 nonce fee) = Ok addr_B.
Proof. vm_cast_no_check (eq_refl (Ok addr_B)). Qed.
Definition the_id (tx : Transaction) : string :=
  match TxIDHex tx with Ok s => s | Err _ => ""%string end.
Definition id_A1 : string := Eval vm_compute in the_id (pool_tx 0 1 60000).
Definition id_A2 : string := Eval vm_compute in the_id (pool_tx 0 2 61000).
Definition id_B1 : string := Eval vm_compute in the_id (pool_tx 1 1 62000).
Definition pool0 : Mempool := NewMempool 10 1 0 1 main_params 5 0.
Definition add_op (key nonce fee : Z) : pool_op := OpAdd (pool_tx key nonce fee) "" main_params 5 0.
Definition run0 (ops : list pool_op) : Mempool :=
  fold_left (run_op re0 rn0 accept_all) ops (NewMempool 10 1 0 1 main_params 5 0).
Definition ops1 : list pool_op := [add_op 0 1 60000; add_op 0 2 61000; add_op 1 1 62000].
Definition pool1 : Mempool := Eval vm_compute in run0 ops1.
(** A's transaction replaced through the API, which passes the empty id. *)
Definition ops2 : list pool_op := ops1 ++ [OpReplace (pool_tx 0 1 70000) "" 0].
Definition pool2 : Mempool :=
  Eval vm_compute in run_op re0 rn0 accept_all pool1 (OpReplace (pool_tx 0 1 70000) "" 0).

Lemma run0_inv (ops : list pool_op) : mp_inv (run0 ops).
Proof.
  unfold run0. assert (H0 : mp_inv (NewMempool 10 1 0 1 main_params 5 0)) by by apply empty_pool_inv.
  revert H0. generalize (NewMempool 10 1 0 1 main_params 5 0).
  induction ops as [|op ops IH]; intros m Hm; cbn; [done|].
  by apply IH, (run_op_inv re0 rn0 rn0_ok).
Qed.

Lemma pool1_inv : mp_inv pool1.
Proof.
  assert (E : run0 ops1 = pool1) by vm_cast_no_check (eq_refl pool1).
  rewrite <- E. exact (run0_inv ops1).
Qed.

Lemma pool2_inv : mp_inv pool2.
Proof.
  assert (E : run_op re0 rn0 accept_all pool1 (OpReplace (pool_tx 0 1 70000) "" 0) = pool2)
    by vm_cast_no_check (eq_refl pool2).
  rewrite <- E. exact (run_op_inv re0 rn0 rn0_ok accept_all _ _ pool1_inv).
Qed.

Lemma mempool_invariant_witness :
  mp_inv (fold_left (run_op re0 rn0 accept_all) ops2 (NewMempool 10 1 0 1 main_params 5 0)).
Proof. exact (mempool_invariant re0 rn0 accept_all ops2 10 1 0 1 main_params 5 0 re0_ok rn0_ok). Defined.

Lemma mempool_add_admits_witness :
  exists id m', AddWithTxID re0 accept_all (pool_tx 0 1 60000) "" main_params 5 0 pool0
                = (m', (id, Ok tt)) /\ Get id m' = Some (pool_tx 0 1 60000).
Proof.
  set (r := AddWithTxID re0 accept_all (pool_tx 0 1 60000) "" main_params 5 0 pool0).
  assert (Hok : snd (snd r) = Ok tt) by vm_cast_no_check (eq_refl (@Ok unit tt)).
  assert (E : r = (fst r, (fst (snd r), Ok tt))) by (rewrite <- Hok; by destruct r as [a [b c]]).
  exists (fst (snd r)), (fst r). split; [exact E|].
  apply (mempool_add_admits re0 accept_all (pool_tx 0 1 60000) "" _ main_params 5 0 pool0 _
           re0_ok E).
Defined.

Lemma evict_with_dependents_exact_witness :
  entries (evictWithDependents re0 id_A1 pool1) !! id_A2 = None /\
  entries (evictWithDependents re0 id_A1 pool1) !! id_B1 <> None.
Proof.
  assert (HA : entries pool1 !! id_A1 = Some (new_entry (pool_tx 0 1 60000) id_A1 0))
    by (vm_compute; reflexivity).
  pose proof (from_A 1 60000 : FromAddress (e_tx (new_entry (pool_tx 0 1 60000) id_A1 0)) = _) as Hf.
  split.
  - destruct (entries (evictWithDependents re0 id_A1 pool1) !! id_A2) as [e|] eqn:E; [|reflexivity].
    destruct (proj1 (evict_with_dependents_exact re0 id_A1 addr_A _ pool1 id_A2 e re0_ok HA Hf) E)
      as (He & _ & Hd).
    assert (HA2 : entries pool1 !! id_A2 = Some (new_entry (pool_tx 0 2 61000) id_A2 0))
      by (vm_compute; reflexivity).
    rewrite HA2 in He. injection He as <-. destruct Hd.
    exact (conj (from_A 2 61000) Z.lt_1_2).
  - set (e := new_entry (pool_tx 1 1 62000) id_B1 0).
    assert (HB : entries pool1 !! id_B1 = Some e) by (vm_compute; reflexivity).
    rewrite (proj2 (evict_with_dependents_exact re0 id_A1 addr_A _ pool1 id_B1 e re0_ok HA Hf)).
    + discriminate.
    + split; [exact HB|split; [|intros [_ Hn]; exact (Z.lt_irrefl 1 Hn)]].
      vm_compute. discriminate.
Defined.

Definition small_pool : Mempool := Eval vm_compute in SetMaxSize re0 1 pool1.
Lemma set_max_size_bounds_witness : Size (SetMaxSize re0 1 pool1) <= 1.
Proof.
  assert (E : SetMaxSize re0 1 pool1 = small_pool) by vm_cast_no_check (eq_refl small_pool).
  assert (Hid : entries (SetMaxSize re0 1 pool1) !! ""%string = None)
    by (rewrite E; vm_compute; reflexivity).
  destruct (set_max_size_bounds re0 1 pool1 re0_ok Hid) as [H|_]; [exact H|].
  rewrite E. vm_compute. discriminate.
Defined.

Lemma replace_by_fee_exact_witness :
  id_A2 ∈ rbf_evicted (snd (ReplaceByFeeWithTxID rn0 (pool_tx 0 1 70000) "r" 0 pool1)).
Proof.
  assert (Hok : rbf_result (snd (ReplaceByFeeWithTxID rn0 (pool_tx 0 1 70000) "r" 0 pool1)) = Ok tt)
    by vm_cast_no_check (eq_refl (@Ok unit tt)).
  destruct (replace_by_fee_exact rn0 (pool_tx 0 1 70000) "r" addr_A 0 pool1 _ _ rn0_ok pool1_inv
              (from_A 1 70000) (surjective_pairing _) Hok) as (_ & Hev & _).
  apply Hev. exists 2. split; [exact (Z.lt_le_incl 1 2 Z.lt_1_2)|]. vm_compute. reflexivity.
Defined.

Lemma replace_with_empty_id_loses_witness :
  entries (fst (ReplaceByFeeWithTxID rn0 (pool_tx 1 1 70000) "" 0 pool2)) !! id_B1 = None.
Proof.
  apply (replace_with_empty_id_loses rn0 (pool_tx 1 1 70000) addr_B id_B1 addr_A 0
           pool2 _ (snd (ReplaceByFeeWithTxID rn0 (pool_tx 1 1 70000) "" 0 pool2))
           (new_entry (pool_tx 0 1 70000) "" 0) rn0_ok pool2_inv).
  - exact (from_B 1 70000).
  - vm_compute. reflexivity.
  - exact (from_A 1 70000).
  - vm_compute. discriminate.
  - vm_compute. reflexivity.
  - apply surjective_pairing.
  - vm_cast_no_check (eq_refl true).
Defined.

Definition has_addr (addr id : string) (m : Mempool) : bool :=
  match addrInfo m !! addr with Some ids => bool_decide (id ∈ ids) | None => false end.
Lemma has_addr_spec (addr id : string) (m : Mempool) :
  has_addr addr id m = true -> exists ids, addrInfo m !! addr = Some ids /\ id ∈ ids.
Proof.
  unfold has_addr. intros H. destruct (addrInfo m !! addr) as [ids|] eqn:E; [|done].
  exists ids. by apply bool_decide_eq_true in H.
Qed.

Lemma remove_leaves_address_index_witness :
  id_A1 ∈ GetByAddress rn0 recipient (Remove id_A1 pool1).
Proof.
  assert (H : has_addr recipient id_A1 pool1 = true) by (vm_compute; reflexivity).
  destruct (has_addr_spec _ _ _ H) as (ids & E & Hin).
  exact (proj1 (remove_leaves_address_index rn0 id_A1 recipient ids pool1 E Hin)).
Defined.

Lemma entries_sorted_by_fee_witness :
  StronglySorted fee_before (EntriesSortedByFeeDesc re0 pool1).
Proof. apply (entries_sorted_by_fee re0 pool1 re0_ok). Defined.

Lemma fees_typed_check (m : Mempool) :
  forallb (fun x => (0 <=? tx_Fee (e_tx (snd x))) && (tx_Fee (e_tx (snd x)) <=? max_u64))
    (map_to_list (entries m)) = true -> fees_typed m.
Proof.
  intros H id e He. apply elem_of_map_to_list, list_elem_of_In in He.
  apply (proj1 (forallb_forall _ _) H) in He. cbn in He. unfold is_u64. lia.
Qed.

Definition checker1 : FeeChecker Mempool := SetMempool pool1 (NewFeeChecker MinFee MinFeePerByte).

Lemma optimal_fee_ordered_witness :
  @CalculateOptimalFee Mempool (pool_stats re0) checker1 (pool_tx 0 1 60000) "slow"
  <= @CalculateOptimalFee Mempool (pool_stats re0) checker1 (pool_tx 0 1 60000) "average".
Proof.
  assert (Hty : fees_typed pool1).
  { apply fees_typed_check. vm_cast_no_check (eq_refl true). }
  assert (H1 : 0 < fs_TxCount (@GetFeeStats Mempool (pool_stats re0) pool1)).
  { apply Z.ltb_lt. vm_cast_no_check (eq_refl true). }
  assert (H2 : fs_P75Fee (@GetFeeStats Mempool (pool_stats re0) pool1)
               * getTxSize (Some (pool_tx 0 1 60000)) <= max_u64).
  { apply Z.leb_le. vm_cast_no_check (eq_refl true). }
  assert (H3 : calculateRequiredFee checker1 (pool_tx 0 1 60000) * 110 <= max_u64).
  { apply Z.leb_le. vm_cast_no_check (eq_refl true). }
  exact (proj1 (@optimal_fee_ordered Mempool (pool_stats re0) fees_typed
                  (pool_stats_laws re0 re0_ok) checker1 pool1 (pool_tx 0 1 60000) eq_refl Hty
                  H1 H2 H3)).
Defined.
