(* ===== verification/Chain.v ===== *)
(** * The chain: state, indexes, validation

    [blockchain/core/chain.go] and [core/chain_struct.go]: the [Chain] structure, its lookups
    and indexes, the store of fork blocks, the orphan pool, the block validation of
    [validateBlockLocked] and [connectBlockLocked], and the difficulty cache of
    [core/chain_lifecycle.go].  Fork choice is in [ForkChoice], reorganization and the
    entry points in [Reorg].

    A [*Block] is a [BlockRef]: the address of the block and its contents.  The one field
    of a block the chain writes, [TotalWork], lives in a map by address.  The storage
    behind the Go interface [ChainStore] is a type class over an abstract store; events,
    callbacks and goroutines are recorded in a trace.  A run-time panic (a slice bound
    of a log line, a nil map) and an endless loop are results of their own, which no
    error handling of the code catches. *)

From S2P Require Import Prelude Bytes Sha256 Config Merkle Json Transaction Ledger Float Difficulty FeeChecker Mempool.
From stdpp Require Import base list gmap strings numbers sorting.
From Stdlib Require Import ZArith Lia.

Open Scope Z_scope.
Open Scope go_scope.

(** ** Steps *)

(** A step of the chain: it reads and writes the chain and returns a value.  An operation
    that returns a Go [error] has a value of type [result]. *)
Definition M (C A : Type) : Type := C -> res (C * A).

Definition ret {C A : Type} (a : A) : M C A := fun c => Val (c, a).
Definition bind {C A B : Type} (m : M C A) (k : A -> M C B) : M C B :=
  fun c => res_bind (m c) (fun '(c', a) => k a c').
Definition get {C : Type} : M C C := fun c => Val (c, c).
Definition modify {C : Type} (f : C -> C) : M C unit := fun c => Val (f c, tt).
Definition halt_with {C A : Type} (h : halt) : M C A := fun _ => Halt h.
Definition lift_res {C A : Type} (r : res A) : M C A := fun c => res_bind r (fun a => Val (c, a)).

(** [if err := m; err != nil { return err }] *)
Definition try {C A B : Type} (m : M C (result A)) (k : A -> M C (result B)) : M C (result B) :=
  bind m (fun r => match r with Ok a => k a | Err e => ret (Err e) end).
Definition wrapM {C A : Type} (ctx : string) (m : M C (result A)) : M C (result A) :=
  bind m (fun r => ret (wrap ctx r)).

Declare Scope chain_scope.
Delimit Scope chain_scope with chain.
Notation "'let*' x ':=' m 'in' k" := (bind m (fun x => k))
  (at level 10, x pattern, m at level 100, k at level 200) : chain_scope.
Notation "m ';;*' k" := (bind m (fun _ => k)) (at level 100, right associativity) : chain_scope.
Notation "'try*' x ':=' m 'in' k" := (try m (fun x => k))
  (at level 10, x pattern, m at level 100, k at level 200) : chain_scope.
Notation "m ';;??' k" := (try m (fun _ => k)) (at level 100, right associativity) : chain_scope.
Open Scope chain_scope.

(** ** Inversion of a run that returns *)
Lemma bind_val {C A B : Type} (m : M C A) (k : A -> M C B) (c c' : C) (b : B) :
  bind m k c = Val (c', b) -> exists c1 a, m c = Val (c1, a) /\ k a c1 = Val (c', b).
Proof. unfold bind. destruct (m c) as [[c1 a]|]; cbn; [eauto|discriminate]. Qed.

Lemma try_ok {C A B : Type} (m : M C (result A)) (k : A -> M C (result B)) (c c' : C) (b : B) :
  try m k c = Val (c', Ok b) -> exists c1 a, m c = Val (c1, Ok a) /\ k a c1 = Val (c', Ok b).
Proof.
  unfold try. intros H. apply bind_val in H as (c1 & [a|e] & Hm & Hk); [eauto|discriminate].
Qed.

Lemma wrapM_ok {C A : Type} (ctx : string) (m : M C (result A)) (c c' : C) (a : A) :
  wrapM ctx m c = Val (c', Ok a) -> m c = Val (c', Ok a).
Proof.
  unfold wrapM. intros H. apply bind_val in H as (c1 & [x|e] & Hm & Hk); cbn in Hk;
    [injection Hk as <- <-; done|discriminate].
Qed.

Lemma lift_res_val {C A : Type} (r : res A) (c c' : C) (a : A) :
  lift_res r c = Val (c', a) -> c' = c /\ r = Val a.
Proof. unfold lift_res. destruct r; cbn; [intros H; injection H as <- <-; auto|discriminate]. Qed.

Lemma bind_get {C B : Type} (k : C -> M C B) (c : C) : bind get k c = k c c.
Proof. reflexivity. Qed.
Lemma bind_modify {C B : Type} (f : C -> C) (k : unit -> M C B) (c : C) :
  bind (modify f) k c = k tt (f c).
Proof. reflexivity. Qed.
Lemma bind_ret {C A B : Type} (a : A) (k : A -> M C B) (c : C) : bind (ret a) k c = k a c.
Proof. reflexivity. Qed.

(** The same facts forwards, for a step whose outcome is known. *)
Lemma bind_run {C A B : Type} (m : M C A) (k : A -> M C B) (c c1 : C) (a : A) :
  m c = Val (c1, a) -> bind m k c = k a c1.
Proof. unfold bind. by intros ->. Qed.
Lemma try_run {C A B : Type} (m : M C (result A)) (k : A -> M C (result B)) (c c1 : C) (a : A) :
  m c = Val (c1, Ok a) -> try m k c = k a c1.
Proof. intros E. unfold try. by rewrite (bind_run _ _ _ _ _ E). Qed.
Lemma try_err {C A B : Type} (m : M C (result A)) (k : A -> M C (result B)) (c c1 : C) (e : error) :
  m c = Val (c1, Err e) -> try m k c = Val (c1, Err e).
Proof. intros E. unfold try. by rewrite (bind_run _ _ _ _ _ E). Qed.
Lemma wrapM_run {C A : Type} (ctx : string) (m : M C (result A)) (c c1 : C) (r : result A) :
  m c = Val (c1, r) -> wrapM ctx m c = Val (c1, wrap ctx r).
Proof. intros E. unfold wrapM. by rewrite (bind_run _ _ _ _ _ E). Qed.
Lemma lift_res_run {C A : Type} (r : res A) (c : C) (a : A) :
  r = Val a -> lift_res r c = Val (c, a).
Proof. by intros ->. Qed.

(** Takes a run apart, naming nothing. *)
Ltac inv_run_step :=
  match goal with
  | H : bind get _ _ = Val _ |- _ => rewrite bind_get in H; cbv beta in H
  | H : bind (modify _) _ _ = Val _ |- _ => rewrite bind_modify in H; cbv beta in H
  | H : bind (ret _) _ _ = Val _ |- _ => rewrite bind_ret in H; cbv beta in H
  | H : bind _ _ _ = Val _ |- _ => apply bind_val in H as (? & ? & ? & H)
  | H : try _ _ _ = Val (_, Ok _) |- _ => apply try_ok in H as (? & ? & ? & H)
  | H : wrapM _ _ _ = Val (_, Ok _) |- _ => apply wrapM_ok in H
  | H : lift_res _ _ = Val _ |- _ => apply lift_res_val in H as [? H]
  | H : ret _ _ = Val _ |- _ => unfold ret in H; injection H; clear H; intros
  | H : modify _ _ = Val _ |- _ => unfold modify in H; injection H; clear H; intros
  | H : halt_with _ _ = Val _ |- _ => unfold halt_with in H; discriminate H
  end.
Ltac inv_run := repeat (inv_run_step; subst).

(** ** Invariants and relations along a run *)

(** A run that returns ends in [P] if it starts there. *)
Definition keeps {C A : Type} (P : C -> Prop) (m : M C A) : Prop :=
  forall c c' a, P c -> m c = Val (c', a) -> P c'.

(** A run that returns moves along [R]. *)
Definition moves {C A : Type} (R : C -> C -> Prop) (m : M C A) : Prop :=
  forall c c' a, m c = Val (c', a) -> R c c'.

Section keeps.
Context {C : Type}.
Implicit Types P : C -> Prop.
Implicit Types R : C -> C -> Prop.

Lemma keeps_ret {A : Type} P (a : A) : keeps P (ret a).
Proof. intros c c' x Hc E. by injection E as <- <-. Qed.
Lemma keeps_halt {A : Type} P h : keeps P (halt_with h : M C A).
Proof. by intros c c' x Hc E. Qed.
Lemma keeps_bind {A B : Type} P (m : M C A) (k : A -> M C B) :
  keeps P m -> (forall a, keeps P (k a)) -> keeps P (bind m k).
Proof.
  intros Hm Hk c c' b Hc E. apply bind_val in E as (c1 & a & E1 & E2).
  exact (Hk a c1 c' b (Hm c c1 a Hc E1) E2).
Qed.
Lemma keeps_get {A : Type} P (k : C -> M C A) : (forall c, keeps P (k c)) -> keeps P (bind get k).
Proof. intros Hk c c' a Hc E. rewrite bind_get in E. exact (Hk c c c' a Hc E). Qed.
Lemma keeps_modify P (f : C -> C) : (forall c, P c -> P (f c)) -> keeps P (modify f).
Proof. intros Hf c c' a Hc E. injection E as <- _. auto. Qed.
Lemma keeps_lift {A : Type} P (r : res A) : keeps P (lift_res r).
Proof. intros c c' a Hc E. by apply lift_res_val in E as [-> _]. Qed.
Lemma keeps_try {A B : Type} P (m : M C (result A)) (k : A -> M C (result B)) :
  keeps P m -> (forall a, keeps P (k a)) -> keeps P (try m k).
Proof. intros Hm Hk. apply keeps_bind; [done|]. intros [a|e]; [apply Hk|apply keeps_ret]. Qed.
Lemma keeps_wrapM {A : Type} P ctx (m : M C (result A)) : keeps P m -> keeps P (wrapM ctx m).
Proof. intros Hm. apply keeps_bind; [done|]. intros r. apply keeps_ret. Qed.

Lemma moves_keeps {A : Type} P R (m : M C A) :
  (forall c c', R c c' -> P c -> P c') -> moves R m -> keeps P m.
Proof. intros HP Hm c c' a Hc E. exact (HP c c' (Hm c c' a E) Hc). Qed.

Context (R : C -> C -> Prop) {HR : PreOrder R}.
Lemma moves_ret {A : Type} (a : A) : moves R (ret a).
Proof. intros c c' x E. by injection E as <- <-. Qed.
Lemma moves_halt {A : Type} h : moves R (halt_with h : M C A).
Proof. by intros c c' x E. Qed.
Lemma moves_bind {A B : Type} (m : M C A) (k : A -> M C B) :
  moves R m -> (forall a, moves R (k a)) -> moves R (bind m k).
Proof.
  intros Hm Hk c c' b E. apply bind_val in E as (c1 & a & E1 & E2).
  transitivity c1; [exact (Hm _ _ _ E1)|exact (Hk _ _ _ _ E2)].
Qed.
Lemma moves_get {A : Type} (k : C -> M C A) : (forall c, moves R (k c)) -> moves R (bind get k).
Proof. intros Hk c c' a E. rewrite bind_get in E. exact (Hk c c c' a E). Qed.
Lemma moves_modify (f : C -> C) : (forall c, R c (f c)) -> moves R (modify f).
Proof. intros Hf c c' a E. injection E as <- _. auto. Qed.
Lemma moves_lift {A : Type} (r : res A) : moves R (lift_res r).
Proof. intros c c' a E. by apply lift_res_val in E as [-> _]. Qed.
Lemma moves_try {A B : Type} (m : M C (result A)) (k : A -> M C (result B)) :
  moves R m -> (forall a, moves R (k a)) -> moves R (try m k).
Proof. intros Hm Hk. apply moves_bind; [done|]. intros [a|e]; [apply Hk|apply moves_ret]. Qed.
Lemma moves_wrapM {A : Type} ctx (m : M C (result A)) : moves R m -> moves R (wrapM ctx m).
Proof. intros Hm. apply moves_bind; [done|]. intros r. apply moves_ret. Qed.
End keeps.

(** Splits a run into its steps. *)
Ltac keeps_step :=
  lazymatch goal with
  | |- forall _, _ => intro
  | |- keeps _ (bind get _) => apply keeps_get
  | |- keeps _ (bind _ _) => apply keeps_bind
  | |- keeps _ (try _ _) => apply keeps_try
  | |- keeps _ (wrapM _ _) => apply keeps_wrapM
  | |- keeps _ (ret _) => apply keeps_ret
  | |- keeps _ (halt_with _) => apply keeps_halt
  | |- keeps _ (lift_res _) => apply keeps_lift
  | |- keeps _ (if ?x then _ else _) => destruct x
  | |- keeps _ (match ?x with _ => _ end) => destruct x
  end.

(** Two computations that agree from every chain in [P]. *)
Definition agree {C A : Type} (P : C -> Prop) (m1 m2 : M C A) : Prop :=
  forall c, P c -> m1 c = m2 c.

Section agree.
Context {C : Type} (P : C -> Prop).

Lemma agree_refl {A : Type} (m : M C A) : agree P m m.
Proof. by intros c _. Qed.
Lemma agree_bind {A B : Type} (m1 m2 : M C A) (k1 k2 : A -> M C B) :
  agree P m1 m2 -> keeps P m1 -> (forall a, agree P (k1 a) (k2 a)) ->
  agree P (bind m1 k1) (bind m2 k2).
Proof.
  intros Hm Hk Ha c Hc. unfold bind. rewrite <- (Hm c Hc).
  destruct (m1 c) as [[c1 a]|] eqn:E; [|done]. cbn. exact (Ha a c1 (Hk c c1 a Hc E)).
Qed.
Lemma agree_after {A B : Type} (m : M C A) (k1 k2 : A -> M C B) :
  keeps P m -> (forall a, agree P (k1 a) (k2 a)) -> agree P (bind m k1) (bind m k2).
Proof. apply agree_bind, agree_refl. Qed.
Lemma agree_get {B : Type} (k1 k2 : C -> M C B) :
  (forall c, agree P (k1 c) (k2 c)) -> agree P (bind get k1) (bind get k2).
Proof. intros Ha c Hc. rewrite !bind_get. by apply Ha. Qed.
Lemma agree_try {A B : Type} (m : M C (result A)) (k1 k2 : A -> M C (result B)) :
  keeps P m -> (forall a, agree P (k1 a) (k2 a)) -> agree P (try m k1) (try m k2).
Proof.
  intros Hm Ha. apply agree_after; [done|]. intros [a|e]; [apply Ha|apply agree_refl].
Qed.
End agree.

(** ** Data *)
Record BlockRef := mkRef { ref_ptr : Z; ref_blk :> Block }.

Definition hexhash (b : Block) : string := hex_encode (b_Hash b).
Definition hexprev (b : Block) : string := hex_encode (h_PrevHash (b_Header b)).

Record TxLocation := mkTxLocation { loc_Height : Z; loc_BlockHashHex : string; loc_Index : Z }.

Record AddressTxEntry := mkAddressTxEntry {
  ae_TxID : string;
  ae_Location : TxLocation;
  ae_FromAddr : string;
  ae_ToAddress : string;
  ae_Amount : Z;
  ae_Fee : Z;
  ae_Nonce : Z;
  ae_Type : string
}.

(** What the chain tells the outside: events, callbacks and goroutines, oldest first. *)
Inductive Event : Type :=
| EvNewBlock (height : Z) (hash prevHash : string) (bits : Z) (txCount : Z)
| EvChainReorg (reverted : list (string * Z)) (new : list (string * Z))
    (depth : Z) (tip : string) (tipHeight ancestorHeight : Z)
| EvBlockAdded (b : BlockRef)
| EvIndexBlock (b : BlockRef) (entries : list (string * string * Transaction))
| EvMissingBlock (parentHash : list Z) (height : Z)
| EvReorganized (tip : BlockRef)
| EvForkResolved (newHeight rolledBack : Z)
| EvCheckpointDue (height : Z) (hash : string)
| EvAppendLater (b : BlockRef).

(** [ChainStore]: the part of the interface the chain writes through. *)
Class ChainStore (S : Type) := {
  AppendCanonical : Block -> S -> S * result unit;
  PutBlock : Block -> S -> S * result unit;
  RewriteCanonical : list Block -> S -> S * result unit;
  PutAccount : string -> Account -> S -> S * result unit;
  CalculateStateRoot : State -> S -> result (list Z);
  Snapshot : Z -> list Z -> State -> S -> S * result unit;
  PutCheckpointEntry : Z -> string -> S -> S * result unit
}.

(** A [[]string] of the orphan index: its array and its length.  Slices share arrays, and an
    operation on one is seen through the others. *)
Record Slice := mkSlice { sl_arr : nat; sl_len : nat }.

Abbreviation Blocks := (gmap string BlockRef).
Abbreviation Forks := (gmap Z (list BlockRef)).

Record Chain (S : Type) := mkChain {
  chainID : Z;
  genesisAddress : string;
  consensus : ConsensusParams;
  monetaryPolicy : MonetaryPolicy;
  store : S;
  blocks : list BlockRef;
  blocksByHash : Blocks;
  state : State;
  bestTipHash : string;
  canonicalWork : Z;
  forkBlocks : Forks;
  forkBlocksByHash : Blocks;
  workCache : gmap string Z;
  orphanPool : Blocks;
  orphanByParent : gmap string Slice;
  orphanArrays : gmap nat (list string);  (* the arrays behind the slices *)
  orphanTimestamps : gmap string Z;
  orphanOrder : list string;
  orphanReady : bool;  (* the three orphan maps have been allocated *)
  txIndex : gmap string TxLocation;
  addressIndex : gmap string (list AddressTxEntry);
  pendingAncestorRequests : gmap string Z;
  totalWork : gmap Z string;
  mempool : option Mempool;
  lastReorgTime : Z;
  lastAutoReorgTime : Z;
  diffCache : Z * Z;
  trace : list Event
}.
Arguments mkChain {S}.
Arguments chainID {S}.
Arguments genesisAddress {S}.
Arguments consensus {S}.
Arguments monetaryPolicy {S}.
Arguments store {S}.
Arguments blocks {S}.
Arguments blocksByHash {S}.
Arguments state {S}.
Arguments bestTipHash {S}.
Arguments canonicalWork {S}.
Arguments forkBlocks {S}.
Arguments forkBlocksByHash {S}.
Arguments workCache {S}.
Arguments orphanPool {S}.
Arguments orphanByParent {S}.
Arguments orphanArrays {S}.
Arguments orphanTimestamps {S}.
Arguments orphanOrder {S}.
Arguments orphanReady {S}.
Arguments txIndex {S}.
Arguments addressIndex {S}.
Arguments pendingAncestorRequests {S}.
Arguments totalWork {S}.
Arguments mempool {S}.
Arguments lastReorgTime {S}.
Arguments lastAutoReorgTime {S}.
Arguments diffCache {S}.
Arguments trace {S}.

(** ** Field updates *)
Section setters.
Context {S : Type}.
Definition set_store (x : S) (c : Chain S) : Chain S :=
  mkChain (chainID c) (genesisAddress c) (consensus c) (monetaryPolicy c) x (blocks c)
    (blocksByHash c) (state c) (bestTipHash c) (canonicalWork c) (forkBlocks c)
    (forkBlocksByHash c) (workCache c) (orphanPool c) (orphanByParent c) (orphanArrays c)
    (orphanTimestamps c) (orphanOrder c) (orphanReady c) (txIndex c) (addressIndex c)
    (pendingAncestorRequests c) (totalWork c) (mempool c) (lastReorgTime c) (lastAutoReorgTime
    c) (diffCache c) (trace c).
Definition set_blocks (x : list BlockRef) (c : Chain S) : Chain S :=
  mkChain (chainID c) (genesisAddress c) (consensus c) (monetaryPolicy c) (store c) x
    (blocksByHash c) (state c) (bestTipHash c) (canonicalWork c) (forkBlocks c)
    (forkBlocksByHash c) (workCache c) (orphanPool c) (orphanByParent c) (orphanArrays c)
    (orphanTimestamps c) (orphanOrder c) (orphanReady c) (txIndex c) (addressIndex c)
    (pendingAncestorRequests c) (totalWork c) (mempool c) (lastReorgTime c) (lastAutoReorgTime
    c) (diffCache c) (trace c).
Definition set_blocksByHash (x : Blocks) (c : Chain S) : Chain S :=
  mkChain (chainID c) (genesisAddress c) (consensus c) (monetaryPolicy c) (store c) (blocks c) x
    (state c) (bestTipHash c) (canonicalWork c) (forkBlocks c) (forkBlocksByHash c) (workCache
    c) (orphanPool c) (orphanByParent c) (orphanArrays c) (orphanTimestamps c) (orphanOrder c)
    (orphanReady c) (txIndex c) (addressIndex c) (pendingAncestorRequests c) (totalWork c)
    (mempool c) (lastReorgTime c) (lastAutoReorgTime c) (diffCache c) (trace c).
Definition set_state (x : State) (c : Chain S) : Chain S :=
  mkChain (chainID c) (genesisAddress c) (consensus c) (monetaryPolicy c) (store c) (blocks c)
    (blocksByHash c) x (bestTipHash c) (canonicalWork c) (forkBlocks c) (forkBlocksByHash c)
    (workCache c) (orphanPool c) (orphanByParent c) (orphanArrays c) (orphanTimestamps c)
    (orphanOrder c) (orphanReady c) (txIndex c) (addressIndex c) (pendingAncestorRequests c)
    (totalWork c) (mempool c) (lastReorgTime c) (lastAutoReorgTime c) (diffCache c) (trace c).
Definition set_bestTipHash (x : string) (c : Chain S) : Chain S :=
  mkChain (chainID c) (genesisAddress c) (consensus c) (monetaryPolicy c) (store c) (blocks c)
    (blocksByHash c) (state c) x (canonicalWork c) (forkBlocks c) (forkBlocksByHash c)
    (workCache c) (orphanPool c) (orphanByParent c) (orphanArrays c) (orphanTimestamps c)
    (orphanOrder c) (orphanReady c) (txIndex c) (addressIndex c) (pendingAncestorRequests c)
    (totalWork c) (mempool c) (lastReorgTime c) (lastAutoReorgTime c) (diffCache c) (trace c).
Definition set_canonicalWork (x : Z) (c : Chain S) : Chain S :=
  mkChain (chainID c) (genesisAddress c) (consensus c) (monetaryPolicy c) (store c) (blocks c)
    (blocksByHash c) (state c) (bestTipHash c) x (forkBlocks c) (forkBlocksByHash c) (workCache
    c) (orphanPool c) (orphanByParent c) (orphanArrays c) (orphanTimestamps c) (orphanOrder c)
    (orphanReady c) (txIndex c) (addressIndex c) (pendingAncestorRequests c) (totalWork c)
    (mempool c) (lastReorgTime c) (lastAutoReorgTime c) (diffCache c) (trace c).
Definition set_forkBlocks (x : Forks) (c : Chain S) : Chain S :=
  mkChain (chainID c) (genesisAddress c) (consensus c) (monetaryPolicy c) (store c) (blocks c)
    (blocksByHash c) (state c) (bestTipHash c) (canonicalWork c) x (forkBlocksByHash c)
    (workCache c) (orphanPool c) (orphanByParent c) (orphanArrays c) (orphanTimestamps c)
    (orphanOrder c) (orphanReady c) (txIndex c) (addressIndex c) (pendingAncestorRequests c)
    (totalWork c) (mempool c) (lastReorgTime c) (lastAutoReorgTime c) (diffCache c) (trace c).
Definition set_forkBlocksByHash (x : Blocks) (c : Chain S) : Chain S :=
  mkChain (chainID c) (genesisAddress c) (consensus c) (monetaryPolicy c) (store c) (blocks c)
    (blocksByHash c) (state c) (bestTipHash c) (canonicalWork c) (forkBlocks c) x (workCache c)
    (orphanPool c) (orphanByParent c) (orphanArrays c) (orphanTimestamps c) (orphanOrder c)
    (orphanReady c) (txIndex c) (addressIndex c) (pendingAncestorRequests c) (totalWork c)
    (mempool c) (lastReorgTime c) (lastAutoReorgTime c) (diffCache c) (trace c).
Definition set_workCache (x : gmap string Z) (c : Chain S) : Chain S :=
  mkChain (chainID c) (genesisAddress c) (consensus c) (monetaryPolicy c) (store c) (blocks c)
    (blocksByHash c) (state c) (bestTipHash c) (canonicalWork c) (forkBlocks c)
    (forkBlocksByHash c) x (orphanPool c) (orphanByParent c) (orphanArrays c) (orphanTimestamps
    c) (orphanOrder c) (orphanReady c) (txIndex c) (addressIndex c) (pendingAncestorRequests c)
    (totalWork c) (mempool c) (lastReorgTime c) (lastAutoReorgTime c) (diffCache c) (trace c).
Definition set_orphanPool (x : Blocks) (c : Chain S) : Chain S :=
  mkChain (chainID c) (genesisAddress c) (consensus c) (monetaryPolicy c) (store c) (blocks c)
    (blocksByHash c) (state c) (bestTipHash c) (canonicalWork c) (forkBlocks c)
    (forkBlocksByHash c) (workCache c) x (orphanByParent c) (orphanArrays c) (orphanTimestamps
    c) (orphanOrder c) (orphanReady c) (txIndex c) (addressIndex c) (pendingAncestorRequests c)
    (totalWork c) (mempool c) (lastReorgTime c) (lastAutoReorgTime c) (diffCache c) (trace c).
Definition set_orphanByParent (x : gmap string Slice) (c : Chain S) : Chain S :=
  mkChain (chainID c) (genesisAddress c) (consensus c) (monetaryPolicy c) (store c) (blocks c)
    (blocksByHash c) (state c) (bestTipHash c) (canonicalWork c) (forkBlocks c)
    (forkBlocksByHash c) (workCache c) (orphanPool c) x (orphanArrays c) (orphanTimestamps c)
    (orphanOrder c) (orphanReady c) (txIndex c) (addressIndex c) (pendingAncestorRequests c)
    (totalWork c) (mempool c) (lastReorgTime c) (lastAutoReorgTime c) (diffCache c) (trace c).
Definition set_orphanArrays (x : gmap nat (list string)) (c : Chain S) : Chain S :=
  mkChain (chainID c) (genesisAddress c) (consensus c) (monetaryPolicy c) (store c) (blocks c)
    (blocksByHash c) (state c) (bestTipHash c) (canonicalWork c) (forkBlocks c)
    (forkBlocksByHash c) (workCache c) (orphanPool c) (orphanByParent c) x (orphanTimestamps c)
    (orphanOrder c) (orphanReady c) (txIndex c) (addressIndex c) (pendingAncestorRequests c)
    (totalWork c) (mempool c) (lastReorgTime c) (lastAutoReorgTime c) (diffCache c) (trace c).
Definition set_orphanTimestamps (x : gmap string Z) (c : Chain S) : Chain S :=
  mkChain (chainID c) (genesisAddress c) (consensus c) (monetaryPolicy c) (store c) (blocks c)
    (blocksByHash c) (state c) (bestTipHash c) (canonicalWork c) (forkBlocks c)
    (forkBlocksByHash c) (workCache c) (orphanPool c) (orphanByParent c) (orphanArrays c) x
    (orphanOrder c) (orphanReady c) (txIndex c) (addressIndex c) (pendingAncestorRequests c)
    (totalWork c) (mempool c) (lastReorgTime c) (lastAutoReorgTime c) (diffCache c) (trace c).
Definition set_orphanOrder (x : list string) (c : Chain S) : Chain S :=
  mkChain (chainID c) (genesisAddress c) (consensus c) (monetaryPolicy c) (store c) (blocks c)
    (blocksByHash c) (state c) (bestTipHash c) (canonicalWork c) (forkBlocks c)
    (forkBlocksByHash c) (workCache c) (orphanPool c) (orphanByParent c) (orphanArrays c)
    (orphanTimestamps c) x (orphanReady c) (txIndex c) (addressIndex c) (pendingAncestorRequests
    c) (totalWork c) (mempool c) (lastReorgTime c) (lastAutoReorgTime c) (diffCache c) (trace
    c).
Definition set_orphanReady (x : bool) (c : Chain S) : Chain S :=
  mkChain (chainID c) (genesisAddress c) (consensus c) (monetaryPolicy c) (store c) (blocks c)
    (blocksByHash c) (state c) (bestTipHash c) (canonicalWork c) (forkBlocks c)
    (forkBlocksByHash c) (workCache c) (orphanPool c) (orphanByParent c) (orphanArrays c)
    (orphanTimestamps c) (orphanOrder c) x (txIndex c) (addressIndex c) (pendingAncestorRequests
    c) (totalWork c) (mempool c) (lastReorgTime c) (lastAutoReorgTime c) (diffCache c) (trace
    c).
Definition set_txIndex (x : gmap string TxLocation) (c : Chain S) : Chain S :=
  mkChain (chainID c) (genesisAddress c) (consensus c) (monetaryPolicy c) (store c) (blocks c)
    (blocksByHash c) (state c) (bestTipHash c) (canonicalWork c) (forkBlocks c)
    (forkBlocksByHash c) (workCache c) (orphanPool c) (orphanByParent c) (orphanArrays c)
    (orphanTimestamps c) (orphanOrder c) (orphanReady c) x (addressIndex c)
    (pendingAncestorRequests c) (totalWork c) (mempool c) (lastReorgTime c) (lastAutoReorgTime
    c) (diffCache c) (trace c).
Definition set_addressIndex (x : gmap string (list AddressTxEntry)) (c : Chain S) : Chain S :=
  mkChain (chainID c) (genesisAddress c) (consensus c) (monetaryPolicy c) (store c) (blocks c)
    (blocksByHash c) (state c) (bestTipHash c) (canonicalWork c) (forkBlocks c)
    (forkBlocksByHash c) (workCache c) (orphanPool c) (orphanByParent c) (orphanArrays c)
    (orphanTimestamps c) (orphanOrder c) (orphanReady c) (txIndex c) x (pendingAncestorRequests
    c) (totalWork c) (mempool c) (lastReorgTime c) (lastAutoReorgTime c) (diffCache c) (trace
    c).
Definition set_pendingAncestorRequests (x : gmap string Z) (c : Chain S) : Chain S :=
  mkChain (chainID c) (genesisAddress c) (consensus c) (monetaryPolicy c) (store c) (blocks c)
    (blocksByHash c) (state c) (bestTipHash c) (canonicalWork c) (forkBlocks c)
    (forkBlocksByHash c) (workCache c) (orphanPool c) (orphanByParent c) (orphanArrays c)
    (orphanTimestamps c) (orphanOrder c) (orphanReady c) (txIndex c) (addressIndex c) x
    (totalWork c) (mempool c) (lastReorgTime c) (lastAutoReorgTime c) (diffCache c) (trace c).
Definition set_totalWork (x : gmap Z string) (c : Chain S) : Chain S :=
  mkChain (chainID c) (genesisAddress c) (consensus c) (monetaryPolicy c) (store c) (blocks c)
    (blocksByHash c) (state c) (bestTipHash c) (canonicalWork c) (forkBlocks c)
    (forkBlocksByHash c) (workCache c) (orphanPool c) (orphanByParent c) (orphanArrays c)
    (orphanTimestamps c) (orphanOrder c) (orphanReady c) (txIndex c) (addressIndex c)
    (pendingAncestorRequests c) x (mempool c) (lastReorgTime c) (lastAutoReorgTime c) (diffCache
    c) (trace c).
Definition set_mempool (x : option Mempool) (c : Chain S) : Chain S :=
  mkChain (chainID c) (genesisAddress c) (consensus c) (monetaryPolicy c) (store c) (blocks c)
    (blocksByHash c) (state c) (bestTipHash c) (canonicalWork c) (forkBlocks c)
    (forkBlocksByHash c) (workCache c) (orphanPool c) (orphanByParent c) (orphanArrays c)
    (orphanTimestamps c) (orphanOrder c) (orphanReady c) (txIndex c) (addressIndex c)
    (pendingAncestorRequests c) (totalWork c) x (lastReorgTime c) (lastAutoReorgTime c)
    (diffCache c) (trace c).
Definition set_lastReorgTime (x : Z) (c : Chain S) : Chain S :=
  mkChain (chainID c) (genesisAddress c) (consensus c) (monetaryPolicy c) (store c) (blocks c)
    (blocksByHash c) (state c) (bestTipHash c) (canonicalWork c) (forkBlocks c)
    (forkBlocksByHash c) (workCache c) (orphanPool c) (orphanByParent c) (orphanArrays c)
    (orphanTimestamps c) (orphanOrder c) (orphanReady c) (txIndex c) (addressIndex c)
    (pendingAncestorRequests c) (totalWork c) (mempool c) x (lastAutoReorgTime c) (diffCache c)
    (trace c).
Definition set_lastAutoReorgTime (x : Z) (c : Chain S) : Chain S :=
  mkChain (chainID c) (genesisAddress c) (consensus c) (monetaryPolicy c) (store c) (blocks c)
    (blocksByHash c) (state c) (bestTipHash c) (canonicalWork c) (forkBlocks c)
    (forkBlocksByHash c) (workCache c) (orphanPool c) (orphanByParent c) (orphanArrays c)
    (orphanTimestamps c) (orphanOrder c) (orphanReady c) (txIndex c) (addressIndex c)
    (pendingAncestorRequests c) (totalWork c) (mempool c) (lastReorgTime c) x (diffCache c)
    (trace c).
Definition set_diffCache (x : Z * Z) (c : Chain S) : Chain S :=
  mkChain (chainID c) (genesisAddress c) (consensus c) (monetaryPolicy c) (store c) (blocks c)
    (blocksByHash c) (state c) (bestTipHash c) (canonicalWork c) (forkBlocks c)
    (forkBlocksByHash c) (workCache c) (orphanPool c) (orphanByParent c) (orphanArrays c)
    (orphanTimestamps c) (orphanOrder c) (orphanReady c) (txIndex c) (addressIndex c)
    (pendingAncestorRequests c) (totalWork c) (mempool c) (lastReorgTime c) (lastAutoReorgTime
    c) x (trace c).
Definition set_trace (x : list Event) (c : Chain S) : Chain S :=
  mkChain (chainID c) (genesisAddress c) (consensus c) (monetaryPolicy c) (store c) (blocks c)
    (blocksByHash c) (state c) (bestTipHash c) (canonicalWork c) (forkBlocks c)
    (forkBlocksByHash c) (workCache c) (orphanPool c) (orphanByParent c) (orphanArrays c)
    (orphanTimestamps c) (orphanOrder c) (orphanReady c) (txIndex c) (addressIndex c)
    (pendingAncestorRequests c) (totalWork c) (mempool c) (lastReorgTime c) (lastAutoReorgTime
    c) (diffCache c) x.
End setters.

(** ** Constants *)
Definition MaxOrphanPoolSize : Z := 2048.
Definition MaxOrphanPoolAge : Z := 600 * 1000000000.
Definition MaxBlocksByHashSize : Z := 100000.
Definition MaxForkBlocksPerHeight : Z := 16.
Definition SnapshotInterval : Z := 256.
Definition CheckpointInterval : Z := 1000.
Definition MaxWorkCacheSize : Z := 100000.
Definition MaxForkBlocksTotal : Z := 50000.
Definition MaxReorgDepth : Z := 100.
Definition MinAutoReorgInterval : Z := 200 * 1000000.
Definition MaxBlockTimeDriftSec : Z := 900.
Definition parentRequestDedupWindow : Z := 30 * 1000000000.

Definition ErrOrphanBlock : error := "orphan block".
Definition ErrKnownBlock : error := "block already known".

(** ** Work *)
Definition WorkForDifficultyBits (bits : Z) : Z := if bits =? 0 then 0 else u64 bits.

Definition block_work (b : Block) : Z := WorkForDifficultyBits (h_DifficultyBits (b_Header b)).

(** [calculateChainWorkLocked]; the same sum is taken over a segment wherever work is
    compared. *)
Definition calculateChainWorkLocked (bs : list BlockRef) : Z :=
  foldl (fun total (b : BlockRef) => total + block_work b) 0 bs.

(** ** The proof-of-work seal

    [verifyBlockPoWSeal] builds the header the engine checks; the engine of
    [blockchain/nogopow] is the argument [seal_valid]. *)
Record PowHeader := mkPowHeader {
  ph_ParentHash : list Z;
  ph_Coinbase : list Z;
  ph_Root : list Z;
  ph_TxHash : list Z;
  ph_Number : Z;
  ph_Time : Z;
  ph_Difficulty : Z;
  ph_Nonce : list Z
}.

Section chain.
Context {S : Type} `{ChainStore S}.
(** The ed25519 check, the seal check, the two clocks (network time in seconds, local time
    in nanoseconds) and the order in which Go ranges over the maps. *)
Variable ed25519_verify : list Z -> list Z -> list Z -> bool.
Variable seal_valid : PowHeader -> bool.
Variable network_now now : Z.
Variable range_blocks : Blocks -> list (string * BlockRef).
Variable range_forks : Forks -> list (Z * list BlockRef).
Variable range_accounts : State -> list (string * Account).
Variable range_times : gmap string Z -> list (string * Z).
(** The capacity the run-time chooses for a slice of so many elements that has to move. *)
Variable grow : nat -> nat.

Implicit Types c : Chain S.
Implicit Types b : BlockRef.

Definition pow_header (block parent : Block) : result PowHeader :=
  let? addr := wrap "invalid miner address for PoW seal" (StringToAddress (b_MinerAddress block)) in
  let h := b_Header block in
  Ok (mkPowHeader (copy_into 32 (b_Hash parent)) addr
        (if len (h_StateRoot h) =? 32 then copy_into 32 (h_StateRoot h) else replicate 32 0)
        (copy_into 32 (h_MerkleRoot h)) (i64 (GetHeight block)) (u64 (h_TimestampUnix h))
        (h_DifficultyBits h) (copy_into 32 (le_bytes 8 (h_Nonce h)))).

Definition verifyBlockPoWSeal (block : Block) (parent : option Block) : result unit :=
  if len (b_Hash block) =? 0 then Err "invalid block for POW verification"
  else if GetHeight block =? 0 then Ok tt
  else match parent with
       | None => Err "parent block is nil for POW verification"
       | Some parent =>
           let? ph := pow_header block parent in
           fail_if (negb (seal_valid ph)) "NogoPow seal verification failed"
       end.

(** ** Log lines that slice a string: [s[:n]] panics when [s] is shorter. *)
Definition log_prefix (n : Z) (s : string) : M (Chain S) unit :=
  if strlen s <? n then halt_with (Panic "slice bounds out of range") else ret tt.

Definition emit (e : Event) : M (Chain S) unit := modify (fun c => set_trace (trace c ++ [e]) c).

(** ** Lookups *)
Definition block_at (h : Z) c : option BlockRef :=
  if (0 <=? h) && (h <? len (blocks c)) then blocks c !! Z.to_nat h else None.

Definition canonicalTipLocked c : option BlockRef := last (blocks c).

Definition isCanonicalLocked (b : BlockRef) c : bool :=
  match block_at (GetHeight b) c with
  | None => false
  | Some canonicalBlock => bytes_eqb (b_Hash canonicalBlock) (b_Hash b)
  end.

(** Is the hash the canonical one at the height of the block filed under it? *)
Definition isParentOnActiveChainLocked (parentHashHex : string) c : bool :=
  match (blocksByHash c !! parentHashHex : option BlockRef) with
  | None => false
  | Some parentBlock =>
      match block_at (GetHeight parentBlock) c with
      | None => false
      | Some canonicalBlock => str_eqb (hexhash canonicalBlock) parentHashHex
      end
  end.

Definition isParentInForkBlocksLocked (parentHashHex : string) c : bool :=
  if isParentOnActiveChainLocked parentHashHex c then false
  else match (forkBlocksByHash c !! parentHashHex : option BlockRef) with Some _ => true | None => false end.

Definition lookupBlockInForkBlocksLocked (hashHex : string) c : option BlockRef :=
  forkBlocksByHash c !! hashHex.

Definition fork_blocks_at (h : Z) c : list BlockRef := default [] (forkBlocks c !! h).

Definition find_hash (hashHex : string) (bs : list BlockRef) : option BlockRef :=
  List.find (fun b => str_eqb (hexhash b) hashHex) bs.

(** The parent of a block as the reorganization and the fork store look it up: by hash, else
    among the fork blocks one height below. *)
Definition find_parent (b : BlockRef) c : option BlockRef :=
  match (blocksByHash c !! hexprev b : option BlockRef) with
  | Some p => Some p
  | None => find_hash (hexprev b) (fork_blocks_at (u64 (GetHeight b - 1)) c)
  end.

(** ** The fork store *)
Definition drop_fork_hash (b : BlockRef) c : Chain S :=
  set_forkBlocksByHash (delete (hexhash b) (forkBlocksByHash c))
    (set_blocksByHash (delete (hexhash b) (blocksByHash c)) c).

Definition drop_fork_hashes (bs : list BlockRef) c : Chain S :=
  foldl (fun c (b : BlockRef) => drop_fork_hash b c) c bs.

Definition total_forks c : Z := sumZ (map (fun x => len (snd x)) (map_to_list (forkBlocks c))).

Definition fork_heights c : list Z := merge_sort Z.le (map fst (map_to_list (forkBlocks c))).

(** The loop over the heights, lowest first; [toRemove] blocks are still to go. *)
Fixpoint trim_heights (hs : list Z) (toRemove : Z) c : Chain S :=
  match hs with
  | [] => c
  | h :: hs' =>
      if toRemove <=? 0 then c
      else
        let bs := fork_blocks_at h c in
        let k := Z.min (len bs) toRemove in
        let c1 := drop_fork_hashes (take (Z.to_nat k) bs) c in
        if toRemove <=? k
        then if k <? len bs
             then set_forkBlocks (<[h := drop (Z.to_nat k) bs]> (forkBlocks c1)) c1
             else set_forkBlocks (delete h (forkBlocks c1)) c1
        else trim_heights hs' (toRemove - k) (set_forkBlocks (delete h (forkBlocks c1)) c1)
  end.

Definition enforceForkBlocksTotalLimitLocked c : Chain S :=
  let total := total_forks c in
  if total <=? MaxForkBlocksTotal then c
  else trim_heights (fork_heights c) (total - MaxForkBlocksTotal) c.

Definition addToForkLocked (b : BlockRef) : M (Chain S) unit :=
  let* c := get in
  let height := GetHeight b in
  let at_height := fork_blocks_at height c in
  if existsb (fun x : BlockRef => bytes_eqb (b_Hash x) (b_Hash b)) at_height then ret tt
  else
    let hashHex := hexhash b in
    let bs := at_height ++ [b] in
    modify (set_forkBlocks (<[height := bs]> (forkBlocks c))) ;;*
    modify (fun c => set_blocksByHash (<[hashHex := b]> (blocksByHash c)) c) ;;*
    modify (fun c => set_forkBlocksByHash (<[hashHex := b]> (forkBlocksByHash c)) c) ;;*
    (if len bs >? MaxForkBlocksPerHeight then
       match bs with
       | [] => ret tt
       | removed :: rest =>
           modify (drop_fork_hash removed) ;;*
           modify (fun c => set_forkBlocks (<[height := rest]> (forkBlocks c)) c) ;;*
           log_prefix 16 (hexhash removed)
       end
     else ret tt) ;;*
    modify enforceForkBlocksTotalLimitLocked.

(** The first block of [bs] with the hash of [b] removed, and whether there was one. *)
Fixpoint remove_hash (b : BlockRef) (bs : list BlockRef) : option (list BlockRef) :=
  match bs with
  | [] => None
  | x :: bs' => if bytes_eqb (b_Hash x) (b_Hash b) then Some bs'
                else cons x <$> remove_hash b bs'
  end.

Definition removeFromForkLocked (b : BlockRef) c : Chain S :=
  let height := GetHeight b in
  let c1 := match remove_hash b (fork_blocks_at height c) with
            | None => c
            | Some [] => set_forkBlocks (delete height (forkBlocks c)) c
            | Some bs => set_forkBlocks (<[height := bs]> (forkBlocks c)) c
            end in
  drop_fork_hash b c1.

(** ** The orphan pool *)
Definition array c (k : nat) : list string := default [] (orphanArrays c !! k).

(** The hashes filed under a parent. *)
Definition orphan_children (parentHash : string) c : list string :=
  match orphanByParent c !! parentHash with
  | None => []
  | Some s => take (sl_len s) (array c (sl_arr s))
  end.

Definition set_array (k : nat) (l : list string) c : Chain S :=
  set_orphanArrays (<[k := l]> (orphanArrays c)) c.

(** [append(s, x)] on a slice of the index: in place while the capacity lasts, else in a new
    array. *)
Definition append_child (parentHash hash : string) c : Chain S :=
  let moved (items : list string) :=
    let k := size (orphanArrays c) in
    let n := Datatypes.S (length items) in
    set_orphanByParent (<[parentHash := mkSlice k n]> (orphanByParent c))
      (set_array k (items ++ [hash] ++ replicate (grow n - n) ""%string) c) in
  match orphanByParent c !! parentHash with
  | None => moved []
  | Some s =>
      let data := array c (sl_arr s) in
      if (sl_len s <? length data)%nat
      then set_orphanByParent (<[parentHash := mkSlice (sl_arr s) (Datatypes.S (sl_len s))]>
                                 (orphanByParent c))
             (set_array (sl_arr s) (<[sl_len s := hash]> data) c)
      else moved (take (sl_len s) data)
  end.

Fixpoint index_of (x : string) (l : list string) : option nat :=
  match l with
  | [] => None
  | y :: l' => if str_eqb y x then Some 0%nat else Datatypes.S <$> index_of x l'
  end.

(** [append(children[:i], children[i+1:]...)]: the elements behind move down in the array,
    whose old last element stays where it was. *)
Definition removeOrphanIndexLocked (orphanHash parentHash : string) c : Chain S :=
  match orphanByParent c !! parentHash with
  | None => c
  | Some s =>
      let data := array c (sl_arr s) in
      let children := take (sl_len s) data in
      match index_of orphanHash children with
      | None => c
      | Some i =>
          let n := (length children - 1)%nat in
          let c1 := set_array (sl_arr s)
                      (take i data ++ drop (Datatypes.S i) children ++ drop n data) c in
          set_orphanByParent (if (n =? 0)%nat then delete parentHash (orphanByParent c1)
                              else <[parentHash := mkSlice (sl_arr s) n]> (orphanByParent c1)) c1
      end
  end.

Definition removeOrphanLocked (hashHex : string) c : Chain S :=
  match (orphanPool c !! hashHex : option BlockRef) with
  | None => c
  | Some b =>
      removeOrphanIndexLocked hashHex (hexprev b)
        (set_orphanTimestamps (delete hashHex (orphanTimestamps c))
           (set_orphanPool (delete hashHex (orphanPool c)) c))
  end.

Definition remove_expired (ts : list (string * Z)) c : Chain S :=
  foldl (fun c '(hashHex, timestamp) =>
    if now - timestamp >? MaxOrphanPoolAge then removeOrphanLocked hashHex c else c) c ts.

Definition cleanupOldOrphansLocked c : Chain S :=
  remove_expired (range_times (orphanTimestamps c)) c.

Definition cleanupExpiredOrphansLocked c : Chain S :=
  if (size (orphanTimestamps c) =? 0)%nat then c
  else remove_expired (range_times (orphanTimestamps c)) c.

Definition addOrphanLocked (b : BlockRef) : M (Chain S) unit :=
  let* c := get in
  let hashHex := hexhash b in
  match (orphanPool c !! hashHex : option BlockRef) with
  | Some _ => ret tt
  | None =>
      (if Z.of_nat (size (orphanPool c)) >=? MaxOrphanPoolSize
       then match orphanOrder c with
            | [] => ret tt
            | oldest :: _ => modify (removeOrphanLocked oldest)
            end
       else ret tt) ;;*
      if negb (orphanReady c) then halt_with (Panic "assignment to entry in nil map")
      else
        modify (fun c => set_orphanPool (<[hashHex := b]> (orphanPool c)) c) ;;*
        modify (append_child (hexprev b) hashHex) ;;*
        modify (fun c => set_orphanTimestamps (<[hashHex := now]> (orphanTimestamps c)) c) ;;*
        modify (fun c => set_orphanOrder (orphanOrder c ++ [hashHex]) c) ;;*
        modify cleanupOldOrphansLocked
  end.

(** [acceptOrphanChildrenLocked]: the breadth-first loop over the orphans below [parentHash];
    each child found leaves the pool and is handed to a goroutine that appends it.  Every
    round consumes one queue element, and a child is queued only when it leaves the pool, so
    [size (orphanPool c)] + 1 rounds are enough. *)
Fixpoint accept_children (cur : string) (children : list string) (c : Chain S)
  : Chain S * list string :=
  match children with
  | [] => (c, [])
  | orphanHash :: rest =>
      match (orphanPool c !! orphanHash : option BlockRef) with
      | None => accept_children cur rest c
      | Some orphanBlock =>
          if negb (str_eqb (hexprev orphanBlock) cur) then accept_children cur rest c
          else
            let c1 := removeOrphanLocked orphanHash c in
            let c2 := set_trace (trace c1 ++ [EvAppendLater orphanBlock]) c1 in
            let (c3, queued) := accept_children cur rest c2 in (c3, orphanHash :: queued)
      end
  end.

Fixpoint accept_loop (fuel : nat) (queue : list string) (c : Chain S) : Chain S :=
  match fuel, queue with
  | Datatypes.S fuel', cur :: queue' =>
      let children := orphan_children cur c in
      let c1 := set_orphanByParent (delete cur (orphanByParent c)) c in
      let (c2, queued) := accept_children cur children c1 in
      accept_loop fuel' (queue' ++ queued) c2
  | _, _ => c
  end.

Definition acceptOrphanChildrenLocked (parentHash : string) c : Chain S :=
  accept_loop (Datatypes.S (size (orphanPool c))) [parentHash] c.

(** ** Indexes *)
Definition append_entry (addr : string) (e : AddressTxEntry)
  (ix : gmap string (list AddressTxEntry)) : gmap string (list AddressTxEntry) :=
  <[addr := default [] (ix !! addr) ++ [e]]> ix.

Definition index_tx (p : ConsensusParams) (b : Block) (i : nat) (tx : Transaction)
  (ix : gmap string TxLocation) : gmap string TxLocation :=
  if negb (is_type tx TxTransfer) then ix
  else match TxIDHexForConsensus tx p (GetHeight b) with
       | Err _ => ix
       | Ok txid => <[txid := mkTxLocation (GetHeight b) (hexhash b) (Z.of_nat i)]> ix
       end.

Definition indexTxsForBlockLocked (b : BlockRef) c : Chain S :=
  set_txIndex (foldl (fun ix '(i, tx) => index_tx (consensus c) b i tx ix) (txIndex c)
                 (imap pair (b_Transactions b))) c.

Definition index_address_tx (p : ConsensusParams) (b : Block) (i : nat) (tx : Transaction)
  (ix : gmap string (list AddressTxEntry)) : gmap string (list AddressTxEntry) :=
  if negb (is_type tx TxTransfer) then ix
  else match TxIDHexForConsensus tx p (GetHeight b) with
       | Err _ => ix
       | Ok txid =>
           match FromAddress tx with
           | Err _ => ix
           | Ok fromAddr =>
               let e := mkAddressTxEntry txid
                          (mkTxLocation (GetHeight b) (hexhash b) (Z.of_nat i)) fromAddr
                          (tx_ToAddress tx) (tx_Amount tx) (tx_Fee tx) (tx_Nonce tx) (tx_Type tx) in
               let ix1 := append_entry fromAddr e ix in
               if negb (str_eqb (tx_ToAddress tx) fromAddr)
               then append_entry (tx_ToAddress tx) e ix1 else ix1
           end
       end.

Definition indexAddressTxsForBlockLocked (b : BlockRef) c : Chain S :=
  set_addressIndex (foldl (fun ix '(i, tx) => index_address_tx (consensus c) b i tx ix)
                      (addressIndex c) (imap pair (b_Transactions b))) c.

Definition reindexAllTxsLocked c : Chain S :=
  foldl (fun c (b : BlockRef) => indexTxsForBlockLocked b c) (set_txIndex ∅ c) (blocks c).

Definition reindexAllAddressTxsLocked c : Chain S :=
  foldl (fun c (b : BlockRef) => indexAddressTxsForBlockLocked b c) (set_addressIndex ∅ c)
    (blocks c).

(** [GetID] of a transaction: the empty string on an error. *)
Definition GetID (tx : Transaction) : string :=
  match TxIDHex tx with Ok s => s | Err _ => ""%string end.

(** [updateIndexesForBlock]: every transaction type, by [GetID]; the address
    entries carry no fee, nonce or type, and a transaction without a sender has none. *)
Definition update_tx_index (b : Block) (height : Z) (c : Chain S) (itx : nat * Transaction)
  : Chain S :=
  let (i, tx) := itx in
  let txid := GetID tx in
  let loc := mkTxLocation height (hexhash b) (Z.of_nat i) in
  let c1 := set_txIndex (<[txid := loc]> (txIndex c)) c in
  match FromAddress tx with
  | Err _ => c1
  | Ok fromAddr =>
      let e := mkAddressTxEntry txid loc fromAddr (tx_ToAddress tx) (tx_Amount tx) 0 0 "" in
      let ix := append_entry fromAddr e (addressIndex c1) in
      set_addressIndex (if strlen (tx_ToAddress tx) =? 0 then ix
                        else append_entry (tx_ToAddress tx) e ix) c1
  end.

Definition updateIndexesForBlock (b : BlockRef) (height : Z) c : Chain S :=
  foldl (update_tx_index b height) c (imap pair (b_Transactions b)).

(** [enforceBlocksByHashSize]: the hashes by increasing height, within a height in the order
    of the range, until enough blocks that are not fork blocks have been dropped. *)
Definition by_height (l : list (string * BlockRef)) : list (string * BlockRef) :=
  concat (map (fun h => List.filter (fun x : string * BlockRef => GetHeight (snd x) =? h) l)
            (remove_dups (merge_sort Z.le (map (fun x : string * BlockRef => GetHeight (snd x)) l)))).

Fixpoint evict_known (l : list (string * BlockRef)) (evictCount : Z) (forks m : Blocks) : Blocks :=
  match l with
  | [] => m
  | (hashHex, _) :: l' =>
      match forks !! hashHex with
      | Some _ => evict_known l' evictCount forks m
      | None => if evictCount <=? 1 then delete hashHex m
                else evict_known l' (evictCount - 1) forks (delete hashHex m)
      end
  end.

Definition enforceBlocksByHashSize c : Chain S :=
  let n := Z.of_nat (size (blocksByHash c)) in
  if n <=? MaxBlocksByHashSize then c
  else set_blocksByHash (evict_known (by_height (range_blocks (blocksByHash c)))
                           (n - MaxBlocksByHashSize) (forkBlocksByHash c) (blocksByHash c)) c.

Definition addToIndexLocked (b : BlockRef) c : Chain S :=
  if len (b_Hash b) =? 0 then c
  else enforceBlocksByHashSize (set_blocksByHash (<[hexhash b := b]> (blocksByHash c)) c).

(** The entries of a block for the address index in the key-value store: id, sender and
    transaction of every transfer that has both. *)
Definition index_entries (b : Block) : list (string * string * Transaction) :=
  omap (fun tx =>
    if negb (is_type tx TxTransfer) then None
    else match FromAddress tx, TxIDHex tx with
         | Ok fromAddr, Ok txID => Some (txID, fromAddr, tx)
         | _, _ => None
         end) (b_Transactions b).

(** The write to that index; a failure is logged and ignored. *)
Definition index_in_store (b : BlockRef) c : Chain S :=
  set_trace (trace c ++ [EvIndexBlock b (index_entries b)]) c.

(** ** State and work of the canonical chain *)

(** [block.TotalWork = c.canonicalWork.String()] *)
Definition set_total_work (b : BlockRef) (w : Z) c : Chain S :=
  set_totalWork (<[ref_ptr b := dec_string w]> (totalWork c)) c.

(** The block behind a pointer, with its current [TotalWork]. *)
Definition deref c b : Block :=
  match totalWork c !! ref_ptr b with
  | None => b
  | Some w => mkBlock (b_Hash b) (b_Height b) (b_Header b) (b_Transactions b) (b_CoinbaseTx b)
                (b_MinerAddress b) w
  end.

(** [applyBlockToState] on [c.state]: the changes stay when it fails. *)
Definition apply_to_state (b : BlockRef) : M (Chain S) (result unit) :=
  fun c => let (st, r) := applyBlockToState ed25519_verify (consensus c) (monetaryPolicy c) b
                            (genesisAddress c) (state c) in
           Val (set_state st c, r).

Definition recomputeStateLocked : M (Chain S) (result unit) :=
  fun c => let (st, r) := recomputeState ed25519_verify (consensus c) (monetaryPolicy c)
                            (genesisAddress c) (map ref_blk (blocks c)) in
           Val (set_state st c, r).

(** The loop that resets [canonicalWork] and writes every block's [TotalWork]. *)
Definition resetCanonicalWork c : Chain S :=
  foldl (fun c (b : BlockRef) =>
           let c1 := set_canonicalWork (canonicalWork c + block_work b) c in
           set_total_work b (canonicalWork c1) c1) (set_canonicalWork 0 c) (blocks c).

Definition initCanonicalIndexesLocked c : Chain S :=
  let c1 := foldl (fun c (b : BlockRef) => addToIndexLocked b c) c (blocks c) in
  let c2 := match (last (blocks c1) : option BlockRef) with
            | None => c1
            | Some tip => set_bestTipHash (hexhash tip) c1
            end in
  let c3 := reindexAllAddressTxsLocked (reindexAllTxsLocked c2) in
  set_canonicalWork (calculateChainWorkLocked (blocks c3)) c3.

Definition invalidateWorkCache c : Chain S := set_workCache ∅ c.

Definition store_op {A : Type} (f : S -> S * A) : M (Chain S) A :=
  fun c => let (s, a) := f (store c) in Val (set_store s c, a).

(** [extractTransactionIDs], and the removal of a block's transactions from the mempool. *)
Definition extractTransactionIDs (txs : list Transaction) : list string :=
  omap (fun tx => match TxIDHex tx with Ok s => Some s | Err _ => None end) txs.

Definition remove_confirmed (txids : list string) c : Chain S :=
  match mempool c with
  | None => c
  | Some m => if len txids =? 0 then c else set_mempool (Some (RemoveMany txids m)) c
  end.

(** ** Block validation *)
Definition validateGenesisBlockLocked (b : Block) c : result unit :=
  fail_if (negb (GetHeight b =? 0)) "genesis block height must be 0" ;;?
  fail_if (negb (len (h_PrevHash (b_Header b)) =? 0)) "genesis block prevHash must be empty" ;;?
  fail_if (negb (h_DifficultyBits (b_Header b) =? GenesisDifficultyBits (consensus c)))
    "invalid genesis difficulty" ;;?
  wrap "genesis PoW verification failed" (verifyBlockPoWSeal b None).

Definition validateBlockTimestampLocked (b parent : Block) : result unit :=
  let t := h_TimestampUnix (b_Header b) in
  fail_if (t <=? h_TimestampUnix (b_Header parent)) "block timestamp not greater than parent" ;;?
  fail_if (t >? i64 (network_now + MaxBlockTimeDriftSec)) "block timestamp too far in future".

Definition validateMerkleRootLocked (b : Block) c : result unit :=
  let? leaves := wrap "compute tx hash" (tx_hashes (b_Transactions b) (consensus c) (GetHeight b)) in
  let? computedRoot := wrap "compute merkle root" (MerkleRoot leaves) in
  fail_if (len (h_MerkleRoot (b_Header b)) =? 0) "merkle root is nil" ;;?
  fail_if (negb (bytes_eqb computedRoot (h_MerkleRoot (b_Header b)))) "merkle root mismatch".

Fixpoint validate_txs (p : ConsensusParams) (height : Z) (i : nat) (txs : list Transaction)
  : result unit :=
  match txs with
  | [] => Ok tt
  | tx :: txs' =>
      (if (i =? 0)%nat && is_type tx TxCoinbase then Ok tt
       else wrap "transaction" (VerifyForConsensus ed25519_verify tx p height)) ;;?
      validate_txs p height (Datatypes.S i) txs'
  end.

Definition validateTransactionsLocked (b : Block) c : result unit :=
  validate_txs (consensus c) (GetHeight b) 0 (b_Transactions b).

Definition validateCoinbaseLocked (b : Block) c : result unit :=
  match b_Transactions b with
  | [] => Err "no transactions"
  | coinbase :: rest =>
      fail_if (negb (is_type coinbase TxCoinbase)) "first transaction must be coinbase" ;;?
      if GetHeight b >? 0 then
        fail_if (negb (str_eqb (tx_ToAddress coinbase) (b_MinerAddress b)))
          "coinbase toAddress must match minerAddress" ;;?
        let expectedReward := coinbase_expected (monetaryPolicy c) (GetHeight b) (sum_fees rest) in
        fail_if (negb (tx_Amount coinbase =? expectedReward)) "bad coinbase amount"
      else Ok tt
  end.

Definition validateBlockHeaderLocked (b : Block) c : result unit :=
  fail_if (len (b_Hash b) =? 0) "block hash is empty" ;;?
  fail_if (len (b_Transactions b) =? 0) "block has no transactions" ;;?
  if GetHeight b =? 0 then validateGenesisBlockLocked b c else Ok tt.

Definition validateBlockLocked (b : Block) c : result unit :=
  fail_if (len (b_Hash b) =? 0) "block hash is empty" ;;?
  fail_if (len (b_Transactions b) =? 0) "block has no transactions" ;;?
  if GetHeight b =? 0 then validateGenesisBlockLocked b c
  else match (blocksByHash c !! hexprev b : option BlockRef) with
       | None => Err ErrOrphanBlock
       | Some parent =>
           fail_if (negb (bytes_eqb (h_PrevHash (b_Header b)) (b_Hash parent)))
             "invalid previous hash" ;;?
           fail_if (negb (GetHeight b =? (GetHeight parent + 1)%u64)) "invalid block height" ;;?
           wrap "invalid timestamp" (validateBlockTimestampLocked b parent) ;;?
           wrap "invalid difficulty" (validateBlockDifficultyLocked (consensus c) b parent) ;;?
           (if h_Version (b_Header b) >=? 2
            then wrap "invalid merkle root" (validateMerkleRootLocked b c) else Ok tt) ;;?
           wrap "invalid transactions" (validateTransactionsLocked b c) ;;?
           wrap "invalid coinbase" (validateCoinbaseLocked b c)
       end.

(** ** Connecting a block to the tip *)
Fixpoint put_accounts (l : list (string * Account)) (s : S) : S :=
  match l with
  | [] => s
  | (addr, a) :: l' => put_accounts l' (fst (PutAccount addr a s))
  end.

(** The periodic snapshot and checkpoint; a failure is logged and ignored.  The log prints
    [stateRoot[:8]], which panics for a root of fewer bytes, its capacity taken to be its length. *)
Definition periodic_snapshot (b : BlockRef) : M (Chain S) unit :=
  let* c := get in
  let height := GetHeight b in
  if negb (height mod SnapshotInterval =? 0) then ret tt
  else
    (match CalculateStateRoot (state c) (store c) with
     | Err _ => ret tt
     | Ok root =>
         let* r := store_op (Snapshot height root (state c)) in
         match r with
         | Err _ => ret tt
         | Ok _ => if len root <? 8 then halt_with (Panic "slice bounds out of range") else ret tt
         end
     end) ;;*
    let* r := store_op (PutCheckpointEntry height (hexhash b)) in
    (match r with Err _ => ret tt | Ok _ => log_prefix 16 (hexhash b) end) ;;*
    if height mod CheckpointInterval =? 0 then emit (EvCheckpointDue height (hexhash b)) else ret tt.

Definition connectBlockLocked (b : BlockRef) : M (Chain S) (result unit) :=
  let* c := get in
  let hashHex := hexhash b in
  match wrap "validate block" (validateBlockLocked b c) with
  | Err e => ret (Err e)
  | Ok _ =>
      wrapM "apply block to state" (apply_to_state b) ;;??
      modify (fun c => set_store (put_accounts (range_accounts (state c)) (store c)) c) ;;*
      periodic_snapshot b ;;*
      let* c := get in
      wrapM "store block" (store_op (AppendCanonical (deref c b))) ;;??
      wrapM "put block" (store_op (PutBlock (deref c b))) ;;??
      modify (fun c => set_blocks (blocks c ++ [b]) c) ;;*
      modify (fun c => set_blocksByHash (<[hashHex := b]> (blocksByHash c)) c) ;;*
      modify (removeFromForkLocked b) ;;*
      modify (addToIndexLocked b) ;;*
      modify (indexTxsForBlockLocked b) ;;*
      modify (indexAddressTxsForBlockLocked b) ;;*
      modify (index_in_store b) ;;*
      modify (set_bestTipHash hashHex) ;;*
      modify (fun c => set_canonicalWork (canonicalWork c + block_work b) c) ;;*
      modify (fun c => set_total_work b (canonicalWork c) c) ;;*
      emit (EvNewBlock (GetHeight b) hashHex (hexprev b) (h_DifficultyBits (b_Header b))
              (len (b_Transactions b))) ;;*
      emit (EvBlockAdded b) ;;*
      emit (EvReorganized b) ;;*
      ret (Ok tt)
  end.

(** ** The difficulty of the next block, with its cache by height *)
Definition chain_header c (h : Z) : option Header :=
  match (block_at h c : option BlockRef) with
  | None => None
  | Some b => Some (mkHeader (Some (i64 (GetHeight b))) (u64 (h_TimestampUnix (b_Header b)))
                      (Some (h_DifficultyBits (b_Header b))))
  end.

Definition Chain_CalcNextDifficulty (latest : option BlockRef) (currentTime : Z)
  : M (Chain S) (result Z) :=
  let* c := get in
  match latest with
  | None => ret (Ok (MinDifficulty (consensus c) mod 2 ^ 32))
  | Some latest =>
      if GetHeight latest =? fst (diffCache c) then ret (Ok (snd (diffCache c)))
      else
        let da := SetAncestorFunc (chain_header c) (NewDifficultyAdjuster (consensus c)) in
        try* d := ret (CalcNextDifficulty da
                    (Some (GetHeight latest, h_TimestampUnix (b_Header latest),
                           h_DifficultyBits (b_Header latest))) (u64 currentTime)) in
        modify (set_diffCache (GetHeight latest, d)) ;;*
        ret (Ok d)
  end.

End chain.

(** * Properties *)

(** On a fresh chain whose tip is the genesis block the difficulty of the next block is
    reported as 0, since the empty cache claims height 0, and nothing is computed. *)
Theorem fresh_difficulty_zero {S : Type} (c : Chain S) (g : BlockRef) (time : Z)
  (Hg : GetHeight g = 0) (Hc : diffCache c = (0, 0)) :
  Chain_CalcNextDifficulty (Some g) time c = Val (c, Ok 0).
Proof. unfold Chain_CalcNextDifficulty. rewrite bind_get, Hg, Hc. reflexivity. Qed.
