(* ===== verification/ForkChoice.v ===== *)
(** * Fork choice

    [blockchain/core/chain.go]: cumulative work and its cache, completeness of a fork
    chain, the tie breaker, the choice of the best tip, the common ancestor, and
    [core/work.go].

    The walks follow parent hashes without a bound of their own.  The model gives each one
    more step than there are blocks it can visit: a walk that needs more has met a block
    twice and, its next step depending on the block alone, goes on for ever in Go too; it is
    [Halt Diverge] here. *)

From S2P Require Import Prelude Bytes Sha256 Config Merkle Json Transaction Ledger Float Difficulty FeeChecker Mempool Chain.
From stdpp Require Import base list gmap strings numbers sorting.
From Stdlib Require Import ZArith Lia.

Open Scope Z_scope.
Open Scope go_scope.
Open Scope chain_scope.

#[export] Instance BlockHeader_eq_dec : EqDecision BlockHeader.
Proof. solve_decision. Defined.
#[export] Instance Block_eq_dec : EqDecision Block.
Proof. solve_decision. Defined.

Section fork_choice.
Context {S : Type} `{ChainStore S}.
Variable range_forks : Forks -> list (Z * list BlockRef).
Variable range_cache : gmap string Z -> list (string * Z).

Implicit Types c : Chain S.
Implicit Types b : BlockRef.

(** One more than the blocks any walk can visit. *)
Definition walk_bound c : nat :=
  2 + size (forkBlocksByHash c) + size (blocksByHash c) + length (blocks c) +
  length (concat (map snd (map_to_list (forkBlocks c)))).

(** ** Cumulative work *)

(** The block the walk of [calculateCumulativeWorkLocked] visits after [b]. *)
Definition work_parent (b : BlockRef) c : option BlockRef :=
  if (len (h_PrevHash (b_Header b)) =? 0) || (GetHeight b =? 0) then None
  else match lookupBlockInForkBlocksLocked (hexprev b) c with
       | Some parent => Some parent
       | None =>
           let fallback := block_at (u64 (GetHeight b - 1)) c in
           match (blocksByHash c !! hexprev b : option BlockRef) with
           | Some parent => if GetHeight parent <? len (blocks c) then Some parent else fallback
           | None => fallback
           end
       end.

(** The walk: the blocks passed, oldest first, and the work found below them. *)
Fixpoint work_walk (fuel : nat) (current : BlockRef) (path : list BlockRef) (c : Chain S)
  : res (list BlockRef * Z) :=
  match workCache c !! hexhash current with
  | Some cached => Val (path, cached)
  | None =>
      match work_parent current c with
      | None => Val (current :: path, 0)
      | Some parent =>
          match fuel with
          | O => Halt Diverge
          | Datatypes.S fuel' => work_walk fuel' parent (current :: path) c
          end
      end
  end.

(** Adds up the work along the path, filing every intermediate sum. *)
Fixpoint accumulate (path : list BlockRef) (acc : Z) (cache : gmap string Z)
  : Z * gmap string Z :=
  match path with
  | [] => (acc, cache)
  | b :: path' => let acc' := acc + block_work b in
                  accumulate path' acc' (<[hexhash b := acc']> cache)
  end.

Definition enforceWorkCacheSize c : Chain S :=
  if Z.of_nat (size (workCache c)) <=? MaxWorkCacheSize then c
  else set_workCache (foldl (fun m k => delete k m) (workCache c)
         (map fst (take (Z.to_nat (MaxWorkCacheSize / 10)) (range_cache (workCache c))))) c.

Definition calculateCumulativeWorkLocked (b : BlockRef) : M (Chain S) Z :=
  let* c := get in
  match workCache c !! hexhash b with
  | Some cached => ret cached
  | None =>
      let* (path, base) := lift_res (work_walk (walk_bound c) b [] c) in
      let '(total, cache) := accumulate path base (workCache c) in
      modify (set_workCache cache) ;;*
      modify enforceWorkCacheSize ;;*
      ret total
  end.

(** ** Completeness of a fork chain *)
Definition maxSteps : nat := Z.to_nat 10000.

Fixpoint complete_loop (steps : nat) (current : BlockRef) (visited : list string) (c : Chain S)
  : res bool :=
  match steps with
  | O => Val true
  | Datatypes.S steps' =>
      let hashHex := hexhash current in
      if existsb (str_eqb hashHex) visited then
        if strlen hashHex <? 16 then Halt (Panic "slice bounds out of range") else Val false
      else if GetHeight current =? 0 then Val true
      else if isParentOnActiveChainLocked (hexprev current) c then Val true
      else match (forkBlocksByHash c !! hexprev current : option BlockRef) with
           | Some parent => complete_loop steps' parent (hashHex :: visited) c
           | None => Val false
           end
  end.

Definition isForkChainCompleteLocked (tip : BlockRef) c : res bool :=
  complete_loop maxSteps tip [] c.

(** ** The tie breaker *)
Fixpoint total_fees (txs : list Transaction) (total : Z) : Z :=
  match txs with
  | [] => total
  | tx :: txs' => if tx_Fee tx >? (max_u64 - total)%u64 then max_u64
                  else total_fees txs' (total + tx_Fee tx)%u64
  end.

Definition calculateTotalFeesLocked (b : Block) : Z := total_fees (b_Transactions b) 0.

(** The first byte in which two hashes differ decides: [Some true] when the first hash is
    lower. *)
Fixpoint lower_hash (h1 h2 : list Z) : option bool :=
  match h1, h2 with
  | x :: h1', y :: h2' => if x <? y then Some true else if y <? x then Some false
                          else lower_hash h1' h2'
  | _, _ => None
  end.

Definition shouldSwitchBasedOnTieBreakerLocked (newBlock currentTip : Block) : bool :=
  match lower_hash (b_Hash newBlock) (b_Hash currentTip) with
  | Some r => r
  | None => calculateTotalFeesLocked newBlock >? calculateTotalFeesLocked currentTip
  end.

(** ** The best tip *)
Definition all_forks c : list BlockRef := concat (map snd (range_forks (forkBlocks c))).

(** No other fork block names it as its parent. *)
Definition is_fork_tip (forks : list BlockRef) (b : BlockRef) : bool :=
  negb (existsb (fun x : BlockRef => str_eqb (hexprev x) (hexhash b)) forks).

Definition too_deep (canonicalHeight forkHeight : Z) : bool :=
  (canonicalHeight >? MaxReorgDepth) && (forkHeight <? canonicalHeight - MaxReorgDepth).

(** The candidate with its height and work, as the loop keeps the best one. *)
Definition candidate : Type := BlockRef * Z * Z.

Definition is_better (b : BlockRef) (forkWork : Z) (best : candidate) : bool :=
  let '(bestTip, bestHeight, bestWork) := best in
  if forkWork >? bestWork then true
  else if forkWork =? bestWork then
    if GetHeight b >? bestHeight then true
    else if GetHeight b =? bestHeight then shouldSwitchBasedOnTieBreakerLocked b bestTip
    else false
  else false.

Fixpoint best_loop (canonicalHeight : Z) (forks cands : list BlockRef) (best : candidate)
  : M (Chain S) candidate :=
  match cands with
  | [] => ret best
  | b :: cands' =>
      if too_deep canonicalHeight (GetHeight b) || negb (is_fork_tip forks b)
      then best_loop canonicalHeight forks cands' best
      else
        let* c := get in
        let* complete := lift_res (isForkChainCompleteLocked b c) in
        if negb complete then best_loop canonicalHeight forks cands' best
        else
          let* forkWork := calculateCumulativeWorkLocked b in
          best_loop canonicalHeight forks cands'
            (if is_better b forkWork best then (b, GetHeight b, forkWork) else best)
  end.

Definition findBestChainTipLocked : M (Chain S) (option BlockRef) :=
  let* c := get in
  match canonicalTipLocked c with
  | None => ret None
  | Some tip =>
      let height := len (blocks c) - 1 in
      let* best := best_loop height (all_forks c) (all_forks c) (tip, height, canonicalWork c) in
      ret (Some (fst (fst best)))
  end.

Definition shouldReorgToHeaviestLocked : M (Chain S) bool :=
  let* c := get in
  match canonicalTipLocked c with
  | None => ret false
  | Some currentTip =>
      if (size (forkBlocks c) =? 0)%nat then ret false
      else
        let* bestTip := findBestChainTipLocked in
        match bestTip with
        | None => ret false
        | Some bestTip => ret (negb (str_eqb (hexhash bestTip) (hexhash currentTip)))
        end
  end.

(** ** Work of a segment *)

(** [calculateChainWorkFromAncestorLocked]: down from the tip through the fork blocks, until
    the ancestor's height or the first parent that is not a fork block. *)
Fixpoint segment_walk (fuel : nat) (ancestorHeight : Z) (current : BlockRef) (total : Z)
  (c : Chain S) : res Z :=
  if GetHeight current >? ancestorHeight then
    let total' := total + block_work current in
    match lookupBlockInForkBlocksLocked (hexprev current) c with
    | None => Val total'
    | Some parent =>
        match fuel with
        | O => Halt Diverge
        | Datatypes.S fuel' => segment_walk fuel' ancestorHeight parent total' c
        end
    end
  else Val total.

Definition calculateChainWorkFromAncestorLocked (ancestor tip : BlockRef) c : res Z :=
  segment_walk (walk_bound c) (GetHeight ancestor) tip 0 c.

(** The canonical blocks above a height; a height past the tip leaves nothing to sum. *)
Definition calculateCanonicalWorkFromHeightLocked (fromHeight : Z) c : Z :=
  calculateChainWorkLocked (drop (Z.to_nat (u64 (fromHeight + 1))) (blocks c)).

(** ** The common ancestor *)

(** The walk of [findCommonAncestorLocked]: the hashes seen, and the height at which the
    branch leaves the canonical chain through an unknown block (-1 when it does not). *)
Fixpoint ancestor_walk (fuel : nat) (current : BlockRef) (seen : list string) (c : Chain S)
  : res (list string * Z) :=
  let seen := hexhash current :: seen in
  let continue := fun parent =>
    match fuel with
    | O => Halt Diverge
    | Datatypes.S fuel' => ancestor_walk fuel' parent seen c
    end in
  if len (h_PrevHash (b_Header current)) =? 0 then Val (seen, -1)
  else
    let parentHashHex := hexprev current in
    let parentHeight := i64 (i64 (GetHeight current) - 1) in
    let diverges :=
      match (block_at parentHeight c : option BlockRef) with
      | Some canonical => if str_eqb (hexhash canonical) parentHashHex then -1 else parentHeight
      | None => -1
      end in
    match lookupBlockInForkBlocksLocked parentHashHex c with
    | Some parent => continue parent
    | None =>
        match (blocksByHash c !! parentHashHex : option BlockRef) with
        | None => Val (seen, diverges)
        | Some parent =>
            if parentHeight <? 0 then Halt (Panic "index out of range")
            else match (block_at parentHeight c : option BlockRef) with
                 | None => Val (seen, diverges)
                 | Some canonical =>
                     if str_eqb (hexhash canonical) parentHashHex then continue parent
                     else Val (seen, diverges)
                 end
        end
    end.

(** The scan from the tip down to the first canonical block whose hash was seen; the blocks
    above it are the ones to remove, newest first. *)
Fixpoint ancestor_scan (seen : list string) (down removed : list BlockRef)
  : result (BlockRef * list BlockRef) :=
  match down with
  | [] => Err "no common ancestor found"
  | canonicalBlock :: down' =>
      if existsb (str_eqb (hexhash canonicalBlock)) seen then Ok (canonicalBlock, removed)
      else ancestor_scan seen down' (removed ++ [canonicalBlock])
  end.

Definition findCommonAncestorLocked (newBlock : BlockRef) c
  : res (result (BlockRef * list BlockRef)) :=
  res_bind (ancestor_walk (walk_bound c) newBlock [] c) (fun '(seen, divergence) =>
  let seen :=
    if divergence >=? 0 then
      match (block_at (divergence - 1) c : option BlockRef) with
      | Some b => hexhash b :: seen
      | None => seen
      end
    else seen in
  Val (ancestor_scan seen (rev (blocks c)) [])).

(** * Lemmas *)

(** ** The blocks a walk can meet *)
Definition known c (b : BlockRef) : Prop :=
  (exists h, forkBlocksByHash c !! h = Some b) \/ (exists h, blocksByHash c !! h = Some b) \/
  b ∈ blocks c \/ (exists h l, forkBlocks c !! h = Some l /\ b ∈ l).

(** What the content of known blocks has to satisfy: a hash of 32 bytes identifies the block,
    and the parent a walk finds is lower. *)
Record known_ok c : Prop := {
  ko_hash : forall b, known c b -> length (b_Hash b) = 32%nat /\ Forall is_byte (b_Hash b);
  ko_unique : forall b1 b2, known c b1 -> known c b2 ->
                b_Hash b1 = b_Hash b2 -> ref_blk b1 = ref_blk b2;
  ko_height : forall b, known c b -> 0 <= GetHeight b;
  ko_lower : forall b p, known c b -> work_parent b c = Some p -> GetHeight p < GetHeight b
}.

Lemma block_at_elem (h : Z) c b : block_at h c = Some b -> b ∈ blocks c.
Proof. unfold block_at. case_match; [|done]. apply list_elem_of_lookup_2. Qed.

Lemma work_parent_known c b p : work_parent b c = Some p -> known c p.
Proof.
  unfold work_parent, lookupBlockInForkBlocksLocked. case_match; [done|].
  destruct (forkBlocksByHash c !! hexprev b) eqn:E1; [intros [= <-]; left; eauto|].
  destruct (blocksByHash c !! hexprev b) eqn:E2; [case_match|];
    try (intros [= <-]; right; left; by eauto); intros Hb;
    right; right; left; by eapply block_at_elem.
Qed.

Lemma work_parent_content c b1 b2 : ref_blk b1 = ref_blk b2 -> work_parent b1 c = work_parent b2 c.
Proof. unfold work_parent. by intros ->. Qed.

Lemma hexhash_inj c b1 b2 :
  known_ok c -> known c b1 -> known c b2 -> hexhash b1 = hexhash b2 -> ref_blk b1 = ref_blk b2.
Proof.
  intros Hk H1 H2 Hh. apply (ko_unique c Hk b1 b2 H1 H2). unfold hexhash in Hh.
  apply hex_encode_inj in Hh; [done|..]; by apply (ko_hash c Hk).
Qed.

(** The same, as a check over the list of the known blocks. *)
Definition known_list c : list BlockRef :=
  (map_to_list (forkBlocksByHash c)).*2 ++ (map_to_list (blocksByHash c)).*2 ++ blocks c ++
  concat (map snd (map_to_list (forkBlocks c))).

Lemma known_listed c b : known c b <-> b ∈ known_list c.
Proof.
  unfold known, known_list. rewrite !elem_of_app, !list_elem_of_fmap.
  assert (Hm : forall m : Blocks, (exists h, m !! h = Some b) <->
            (exists y : string * BlockRef, b = y.2 /\ y ∈ map_to_list m)).
  { intros m. split.
    - intros [h Hh]. exists (h, b). by rewrite elem_of_map_to_list.
    - intros ([h x] & -> & Hx). exists h. by rewrite elem_of_map_to_list in Hx. }
  rewrite !Hm. rewrite (list_elem_of_In (concat _) b), in_concat.
  assert (Hf : (exists h l, forkBlocks c !! h = Some l /\ b ∈ l) <->
            (exists l, In l (map snd (map_to_list (forkBlocks c))) /\ In b l)).
  { split.
    - intros (h & l & Hl & Hb). exists l. split; [|by apply list_elem_of_In].
      apply in_map_iff. exists (h, l). split; [done|].
      by apply list_elem_of_In, elem_of_map_to_list.
    - intros (l & Hl & Hb). apply in_map_iff in Hl as ([h l'] & <- & Hin).
      apply list_elem_of_In, elem_of_map_to_list in Hin. exists h, l'.
      split; [done|by apply list_elem_of_In]. }
  rewrite Hf. tauto.
Qed.

Definition block_ok c b : Prop :=
  length (b_Hash b) = 32%nat /\ Forall is_byte (b_Hash b) /\ 0 <= GetHeight b /\
  match work_parent b c with Some p => GetHeight p < GetHeight b | None => True end /\
  Forall (fun b2 : BlockRef => b_Hash b = b_Hash b2 -> ref_blk b = ref_blk b2) (known_list c).

#[export] Instance is_byte_dec z : Decision (is_byte z).
Proof. unfold is_byte. apply _. Defined.
#[export] Instance block_ok_dec c b : Decision (block_ok c b).
Proof. unfold block_ok. destruct (work_parent b c); apply _. Defined.

Lemma known_ok_check c : Forall (block_ok c) (known_list c) -> known_ok c.
Proof.
  intros Hall. assert (Hb : forall b, known c b -> block_ok c b).
  { intros b Hb. rewrite Forall_forall in Hall. by apply Hall, known_listed. }
  split.
  - intros b Hk. destruct (Hb b Hk) as (? & ? & _). done.
  - intros b1 b2 H1 H2. destruct (Hb b1 H1) as (_ & _ & _ & _ & Hu).
    rewrite Forall_forall in Hu. by apply Hu, known_listed.
  - intros b Hk. by destruct (Hb b Hk) as (_ & _ & ? & _).
  - intros b p Hk Hp. destruct (Hb b Hk) as (_ & _ & _ & Hl & _). by rewrite Hp in Hl.
Qed.

(** ** Cumulative work without the cache *)

(** [rooted c b n w]: the walk from [b] takes [n] steps to its last block, and the work of the
    blocks on it is [w]. *)
Inductive rooted c : BlockRef -> nat -> Z -> Prop :=
| rooted_last b : work_parent b c = None -> rooted c b 0 (block_work b)
| rooted_step b p n w :
    work_parent b c = Some p -> rooted c p n w -> rooted c b (Datatypes.S n) (w + block_work b).

Lemma rooted_det c b n1 w1 n2 w2 : rooted c b n1 w1 -> rooted c b n2 w2 -> n1 = n2 /\ w1 = w2.
Proof.
  intros H1. revert n2 w2. induction H1 as [b Hb|b p n w Hp _ IH]; intros n2 w2 H2;
    inversion H2; subst; simplify_eq; [done|].
  match goal with R : rooted _ _ _ _ |- _ => destruct (IH _ _ R) as [-> ->] end. done.
Qed.

Lemma rooted_content c x b n w : ref_blk x = ref_blk b -> rooted c x n w -> rooted c b n w.
Proof.
  intros E R. revert E. destruct R as [y Hp|y p m v Hp R]; intros E; rewrite E;
    rewrite (work_parent_content c y b E) in Hp.
  - by constructor.
  - by econstructor.
Qed.

Lemma rooted_exists c b : known_ok c -> known c b -> exists n w, rooted c b n w.
Proof.
  intros Hk Hb. pose proof (ko_height c Hk b Hb) as H0.
  remember (Z.to_nat (GetHeight b)) as m eqn:Em. revert b Hb H0 Em.
  induction m as [m IH] using lt_wf_ind. intros b Hb H0 ->.
  destruct (work_parent b c) as [p|] eqn:E; [|exists 0%nat, (block_work b); by constructor].
  pose proof (work_parent_known c b p E) as Hp.
  pose proof (ko_lower c Hk b p Hb E). pose proof (ko_height c Hk p Hp).
  destruct (IH (Z.to_nat (GetHeight p))) with (b := p) as (n & w & R); [lia|done|done|done|].
  exists (Datatypes.S n), (w + block_work b). by econstructor.
Qed.

(** The walk visits no block twice, so [walk_bound] steps are enough. *)
Lemma known_list_length c : (length (known_list c) + 2)%nat = walk_bound c.
Proof.
  unfold known_list, walk_bound. rewrite !length_app, !length_fmap, !length_map_to_list. lia.
Qed.

Lemma work_parent_listed c b p : work_parent b c = Some p -> p ∈ known_list c.
Proof. intros Hp. by apply known_listed, (work_parent_known c b). Qed.

Lemma rooted_path c b n w : rooted c b n w ->
  exists l, length l = n /\ NoDup l /\ (forall x, x ∈ l -> x ∈ known_list c) /\
    (forall x, x ∈ l -> exists m v, (m < n)%nat /\ rooted c x m v).
Proof.
  induction 1 as [b Hb|b p n w Hp R (l & Hl & Hnd & Hin & Hr)].
  - exists []. split_and!; [done|constructor|set_solver..].
  - exists (p :: l). split_and!.
    + cbn. by rewrite Hl.
    + constructor; [|done]. intros Hpl. destruct (Hr p Hpl) as (m & v & Hm & R').
      destruct (rooted_det _ _ _ _ _ _ R R'). lia.
    + intros x [->|Hx]%elem_of_cons; [by eapply work_parent_listed|auto].
    + intros x [->|Hx]%elem_of_cons; [exists n, w; auto|].
      destruct (Hr x Hx) as (m & v & Hm & R'). exists m, v. split; [lia|done].
Qed.

Lemma rooted_bound c b n w : rooted c b n w -> (n <= walk_bound c)%nat.
Proof.
  intros R. destruct (rooted_path c b n w R) as (l & <- & Hnd & Hin & _).
  pose proof (submseteq_length _ _ (NoDup_submseteq _ _ Hnd Hin)).
  rewrite <- known_list_length. lia.
Qed.

(** ** The cache holds cumulative work *)
Definition cache_ok c : Prop :=
  forall b v, known c b -> workCache c !! hexhash b = Some v -> exists n, rooted c b n v.

(** Along a path, oldest first, the running sums starting at [base] are the works. *)
Fixpoint sums_ok c (base : Z) (path : list BlockRef) : Prop :=
  match path with
  | [] => True
  | b :: path' => known c b /\ (exists n, rooted c b n (base + block_work b)) /\
                  sums_ok c (base + block_work b) path'
  end.

Definition path_work (path : list BlockRef) : Z :=
  sumZ (map (fun b : BlockRef => block_work b) path).

Lemma path_work_cons b path : path_work (b :: path) = block_work b + path_work path.
Proof. reflexivity. Qed.

Lemma work_walk_spec c (Hc : cache_ok c) fuel : forall b path n w,
  known c b -> rooted c b n w -> (n <= fuel)%nat -> sums_ok c w path ->
  exists path' base, work_walk fuel b path c = Val (path', base) /\ sums_ok c base path' /\
    base + path_work path' = w + path_work path.
Proof.
  induction fuel as [|fuel IH]; intros b path n w Hb R Hn Hs; cbn [work_walk];
    (destruct (workCache c !! hexhash b) as [v|] eqn:Ev;
      [destruct (Hc b v Hb Ev) as [n' R']; destruct (rooted_det _ _ _ _ _ _ R R') as [-> ->];
       exists path, v; by split_and!|]);
    (inversion R as [? Hp|? p m v Hp R']; subst; rewrite Hp;
      [exists (b :: path), 0; rewrite path_work_cons; cbn [sums_ok];
       split_and!; [done|done|exists 0%nat; by rewrite Z.add_0_l|by rewrite Z.add_0_l|lia]|]);
    [lia|].
  destruct (IH p (b :: path) m v) as (path' & base & E & Hok & Hsum);
    [by eapply work_parent_known|done|lia|cbn; split_and!; [done|by eexists|done]|].
  exists path', base. rewrite E. split_and!; [done|done|]. rewrite Hsum, path_work_cons. lia.
Qed.

Lemma accumulate_spec c (Hk : known_ok c) path : forall base cache,
  sums_ok c base path ->
  (forall b v, known c b -> cache !! hexhash b = Some v -> exists n, rooted c b n v) ->
  exists cache', accumulate path base cache = (base + path_work path, cache') /\
    (forall b v, known c b -> cache' !! hexhash b = Some v -> exists n, rooted c b n v).
Proof.
  induction path as [|x path IH]; intros base cache Hs Hc; cbn [accumulate].
  - exists cache. unfold path_work. cbn. by rewrite Z.add_0_r.
  - destruct Hs as (Hx & [n R] & Hs).
    destruct (IH (base + block_work x) (<[hexhash x := base + block_work x]> cache) Hs)
      as (cache' & E & Hc').
    + intros b v Hb. destruct (decide (hexhash x = hexhash b)) as [Heq|Hne].
      * rewrite Heq, lookup_insert_eq. intros [= <-].
        exists n. by apply (rooted_content c x b); [apply (hexhash_inj c x b)|].
      * rewrite lookup_insert_ne by done. by apply Hc.
    + exists cache'. rewrite E, path_work_cons. split; [f_equal; lia|done].
Qed.

(** Nothing but the cache differs. *)
Definition same_but_cache c c' : Prop := exists m, c' = set_workCache m c.

Lemma known_set_cache c m b : known (set_workCache m c) b <-> known c b.
Proof. reflexivity. Qed.

Lemma rooted_set_cache c m b n w : rooted (set_workCache m c) b n w <-> rooted c b n w.
Proof.
  split.
  - intros R. remember (set_workCache m c) as c' eqn:E.
    induction R; subst; [by constructor|by econstructor].
  - induction 1; [by constructor|by econstructor].
Qed.

Lemma same_but_cache_trans c c1 c2 :
  same_but_cache c c1 -> same_but_cache c1 c2 -> same_but_cache c c2.
Proof. intros [m1 ->] [m2 ->]. by exists m2. Qed.

Lemma enforce_cache c : exists m, enforceWorkCacheSize c = set_workCache m c /\
  forall h v, m !! h = Some v -> workCache c !! h = Some v.
Proof.
  unfold enforceWorkCacheSize. case_match.
  - exists (workCache c). split; [by destruct c|auto].
  - eexists. split; [reflexivity|]. generalize (map fst (take (Z.to_nat (MaxWorkCacheSize / 10))
      (range_cache (workCache c)))). intros ks. generalize (workCache c).
    induction ks as [|k ks IH]; intros m h v; cbn; [done|].
    intros Hv%IH. by apply lookup_delete_Some in Hv as [_ ?].
Qed.

(** The cached computation is the uncached one, and keeps the cache consistent. *)
Lemma cumulative_work_spec c b n w :
  known_ok c -> cache_ok c -> known c b -> rooted c b n w ->
  exists m, calculateCumulativeWorkLocked b c = Val (set_workCache m c, w) /\
    cache_ok (set_workCache m c).
Proof.
  intros Hk Hc Hb R. unfold calculateCumulativeWorkLocked, bind, get. cbn [res_bind].
  destruct (workCache c !! hexhash b) as [v|] eqn:Ev.
  - destruct (Hc b v Hb Ev) as [n' R']. destruct (rooted_det _ _ _ _ _ _ R R') as [_ <-].
    exists (workCache c). split; [by destruct c|]. by destruct c.
  - destruct (work_walk_spec c Hc (walk_bound c) b [] n w Hb R (rooted_bound _ _ _ _ R) I)
      as (path & base & E & Hs & Hsum).
    unfold lift_res. rewrite E. cbn [res_bind].
    destruct (accumulate_spec c Hk path base (workCache c) Hs Hc) as (cache' & Ea & Hc').
    rewrite Ea. unfold modify, ret. cbn [res_bind].
    destruct (enforce_cache (set_workCache cache' c)) as (m & -> & Hm).
    exists m. rewrite Hsum. unfold path_work. cbn [map sumZ]. rewrite Z.add_0_r. split; [done|].
    intros x v Hx Hv. apply Hm in Hv. destruct (Hc' x v Hx Hv) as [k Hr].
    exists k. by apply rooted_set_cache.
Qed.

(** ** Completeness is decided and does not depend on the cache *)
Lemma complete_loop_total c (Hk : known_ok c) steps : forall b visited,
  known c b -> exists r, complete_loop steps b visited c = Val r.
Proof.
  induction steps as [|steps IH]; intros b visited Hb; cbn [complete_loop]; [eauto|].
  case_match.
  - destruct (ko_hash c Hk b Hb) as [Hl _]. unfold hexhash, strlen. rewrite hex_encode_length, Hl.
    cbn. eauto.
  - do 2 (case_match; [by eauto|]). case_match eqn:E; [|by eauto]. apply IH. left. by exists (hexprev b).
Qed.

Lemma complete_total c b :
  known_ok c -> known c b -> exists r, isForkChainCompleteLocked b c = Val r.
Proof. intros Hk. by apply complete_loop_total. Qed.

Lemma complete_set_cache c m b :
  isForkChainCompleteLocked b (set_workCache m c) = isForkChainCompleteLocked b c.
Proof.
  unfold isForkChainCompleteLocked. generalize (@nil string). revert b.
  induction maxSteps as [|steps IH]; intros b visited; cbn [complete_loop]; [done|].
  change (isParentOnActiveChainLocked (hexprev b) (set_workCache m c))
    with (isParentOnActiveChainLocked (hexprev b) c).
  change (forkBlocksByHash (set_workCache m c)) with (forkBlocksByHash c).
  repeat case_match; auto.
Qed.

(** ** The order of candidates: work, then height, then the lower hash *)
Lemma lower_hash_eq h1 : forall h2,
  length h1 = length h2 -> lower_hash h1 h2 = None -> h1 = h2.
Proof.
  induction h1 as [|x h1 IH]; intros [|y h2] Hl H'; try done. cbn in H', Hl.
  destruct (Z.ltb_spec x y); [done|]. destruct (Z.ltb_spec y x); [done|].
  f_equal; [lia|]. apply IH; [lia|done].
Qed.

Lemma lower_hash_refl h : lower_hash h h = None.
Proof. induction h as [|x h IH]; cbn; [done|]. by rewrite Z.ltb_irrefl. Qed.

Lemma lower_hash_flip h1 : forall h2 r,
  lower_hash h1 h2 = Some r -> lower_hash h2 h1 = Some (negb r).
Proof.
  induction h1 as [|x h1 IH]; intros [|y h2] r H'; try done. cbn in H' |- *.
  destruct (Z.ltb_spec x y), (Z.ltb_spec y x); try lia; simplify_eq; auto.
Qed.

Lemma lower_hash_trans h1 : forall h2 h3,
  length h1 = length h2 -> length h2 = length h3 ->
  lower_hash h1 h2 = Some true -> lower_hash h2 h3 = Some true -> lower_hash h1 h3 = Some true.
Proof.
  induction h1 as [|x h1 IH]; intros [|y h2] [|z h3] L1 L2 H1 H2; try done. cbn in *.
  destruct (Z.ltb_spec x y), (Z.ltb_spec y x), (Z.ltb_spec y z), (Z.ltb_spec z y),
    (Z.ltb_spec x z), (Z.ltb_spec z x); try lia; try done.
  apply (IH h2); auto; lia.
Qed.

Definition preferred (x y : candidate) : Prop :=
  let '(bx, hx, wx) := x in
  let '(by_, hy, wy) := y in
  wy < wx \/ (wx = wy /\ (hy < hx \/ (hx = hy /\ lower_hash (b_Hash bx) (b_Hash by_) = Some true))).

Definition cand_block (x : candidate) : BlockRef := fst (fst x).

Lemma preferred_trans x y z :
  length (b_Hash (cand_block x)) = 32%nat -> length (b_Hash (cand_block y)) = 32%nat ->
  length (b_Hash (cand_block z)) = 32%nat ->
  preferred x y -> preferred y z -> preferred x z.
Proof.
  destruct x as [[bx hx] wx], y as [[by_ hy] wy], z as [[bz hz] wz]. cbn. intros L1 L2 L3.
  intros [?|(? & [?|[? ?]])] [?|(? & [?|[? ?]])]; try (left; lia); right; (split; [lia|]);
    try (left; lia). right. split; [lia|]. eapply lower_hash_trans; [..|done|done]; congruence.
Qed.

Lemma preferred_total x y :
  length (b_Hash (cand_block x)) = 32%nat -> length (b_Hash (cand_block y)) = 32%nat ->
  ~ preferred x y -> ~ preferred y x ->
  b_Hash (cand_block x) = b_Hash (cand_block y) /\ snd (fst x) = snd (fst y) /\ snd x = snd y.
Proof.
  destruct x as [[bx hx] wx], y as [[by_ hy] wy]. cbn. intros L1 L2 Hxy Hyx.
  assert (Hw : wx = wy) by lia. assert (Hh : hx = hy) by lia. subst. split_and!; [|done..].
  apply lower_hash_eq; [congruence|].
  destruct (lower_hash (b_Hash bx) (b_Hash by_)) as [[]|] eqn:E; [| |done]; exfalso.
  - apply Hxy. right. auto.
  - apply Hyx. apply lower_hash_flip in E. right. auto.
Qed.

Lemma preferred_dec x y : preferred x y \/ ~ preferred x y.
Proof.
  destruct x as [[bx hx] wx], y as [[by_ hy] wy]. cbn.
  destruct (decide (wy < wx)); [by left; left|].
  destruct (decide (wx = wy)); [|right; lia].
  destruct (decide (hy < hx)); [left; right; auto|].
  destruct (decide (hx = hy)); [|right; lia].
  destruct (decide (lower_hash (b_Hash bx) (b_Hash by_) = Some true)); [left; right; auto|right].
  intros [?|(_ & [?|[_ ?]])]; [lia|lia|done].
Qed.

(** Not being preferred is transitive. *)
Lemma preferred_neg_trans x y z :
  length (b_Hash (cand_block x)) = 32%nat -> length (b_Hash (cand_block y)) = 32%nat ->
  length (b_Hash (cand_block z)) = 32%nat ->
  ~ preferred x y -> ~ preferred y z -> ~ preferred x z.
Proof.
  intros Lx Ly Lz Hxy Hyz Hxz. destruct (preferred_dec z y) as [Hzy|Hzy].
  - by apply Hxy, (preferred_trans x z y).
  - apply Hxy. destruct (preferred_total y z Ly Lz Hyz Hzy) as (E1 & E2 & E3). clear -Hxz E1 E2 E3.
    destruct x as [[bx hx] wx], y as [[by_ hy] wy], z as [[bz hz] wz]. cbn in *. subst.
    by rewrite E1.
Qed.

Lemma is_better_iff c b w t h v :
  known_ok c -> known c b -> known c t ->
  is_better b w (t, h, v) = true <-> preferred (b, GetHeight b, w) (t, h, v).
Proof.
  intros Hk Hb Ht. unfold is_better, preferred.
  rewrite !Z.gtb_ltb. destruct (Z.ltb_spec v w); [split; [left; lia|done]|].
  destruct (Z.eqb_spec w v); [|split; [done|lia]].
  destruct (Z.ltb_spec h (GetHeight b)); [split; [right; lia|done]|].
  destruct (Z.eqb_spec (GetHeight b) h); [|split; [done|lia]].
  unfold shouldSwitchBasedOnTieBreakerLocked.
  destruct (lower_hash (b_Hash b) (b_Hash t)) as [r|] eqn:E.
  - split; [intros ->; right; auto|]. intros [?|(_ & [?|[_ [= ->]]])]; [lia|lia|done].
  - apply lower_hash_eq in E; [|destruct (ko_hash c Hk b Hb), (ko_hash c Hk t Ht); congruence].
    pose proof (ko_unique c Hk b t Hb Ht E) as Hbt. rewrite Hbt in *.
    rewrite Z.gtb_ltb, Z.ltb_irrefl.
    split; [done|]. intros [?|(_ & [?|[_ ?]])]; [lia|lia|done].
Qed.

(** ** The loop keeps a candidate no other eligible one is preferred to *)
Definition eligible (canonicalHeight : Z) (forks : list BlockRef) c (b : BlockRef) : Prop :=
  too_deep canonicalHeight (GetHeight b) = false /\ is_fork_tip forks b = true /\
  isForkChainCompleteLocked b c = Val true.

Definition cand_of c (b : BlockRef) (x : candidate) : Prop :=
  exists n w, rooted c b n w /\ x = (b, GetHeight b, w).

(** What the loop over [cands] makes of [best]. *)
Record best_of ch forks (cands : list BlockRef) c (best best' : candidate) : Prop := {
  bo_from : best' = best \/ exists b, b ∈ cands /\ eligible ch forks c b /\ cand_of c b best';
  bo_old : ~ preferred best best';
  bo_max : forall b x, b ∈ cands -> eligible ch forks c b -> cand_of c b x -> ~ preferred x best'
}.

Lemma preferred_irrefl x : ~ preferred x x.
Proof.
  destruct x as [[b h] w]. cbn. rewrite lower_hash_refl.
  intros [?|(_ & [?|[_ ?]])]; [lia|lia|done].
Qed.

Lemma best_of_skip ch forks b cands c best best' :
  ~ eligible ch forks c b -> best_of ch forks cands c best best' ->
  best_of ch forks (b :: cands) c best best'.
Proof.
  intros Hn [Hf Ho Hm]. split; [|done|].
  - destruct Hf as [->|(x & Hx & Hr)]; [by left|]. right. exists x. by rewrite elem_of_cons; auto.
  - intros y z [->|Hy]%elem_of_cons; [done|]. by apply Hm.
Qed.

Lemma best_loop_spec ch forks c (Hk : known_ok c) cands : forall m best,
  (forall b, b ∈ cands -> known c b) -> known c (cand_block best) ->
  cache_ok (set_workCache m c) ->
  exists m' best', best_loop ch forks cands best (set_workCache m c)
                   = Val (set_workCache m' c, best') /\
    cache_ok (set_workCache m' c) /\ best_of ch forks cands c best best'.
Proof.
  induction cands as [|b cands IH]; intros m best Hin Hbest Hc; cbn [best_loop].
  { exists m, best. split_and!; [done|done|]. split; [by left| |set_solver]. apply preferred_irrefl. }
  assert (Hin' : forall x, x ∈ cands -> known c x) by set_solver.
  assert (Hb : known c b) by set_solver.
  destruct (too_deep ch (GetHeight b) || negb (is_fork_tip forks b)) eqn:Ed.
  { destruct (IH m best Hin' Hbest Hc) as (m' & best' & E & Hc' & Ho). exists m', best'.
    split_and!; [done|done|]. apply best_of_skip; [|done]. intros (? & Ht & _).
    apply orb_true_iff in Ed as [?|Ed]; [congruence|]. by rewrite Ht in Ed. }
  apply orb_false_iff in Ed as [Ed Et]. apply negb_false_iff in Et.
  unfold bind at 1, get. cbn [res_bind]. unfold bind at 1, lift_res. rewrite complete_set_cache.
  destruct (complete_total c b Hk Hb) as [[] Er]; rewrite Er; cbn [res_bind negb].
  2: { destruct (IH m best Hin' Hbest Hc) as (m' & best' & E & Hc' & Ho). exists m', best'.
       split_and!; [done|done|]. apply best_of_skip; [|done]. intros (_ & _ & ?). congruence. }
  destruct (rooted_exists c b Hk Hb) as (n & w & R).
  assert (Hk' : known_ok (set_workCache m c)) by (destruct Hk; by split).
  destruct (cumulative_work_spec (set_workCache m c) b n w Hk' Hc Hb
              (proj2 (rooted_set_cache c m b n w) R)) as (m1 & E1 & Hc1).
  unfold bind at 1. rewrite E1. cbn [res_bind].
  change (set_workCache m1 (set_workCache m c)) with (set_workCache m1 c) in *.
  set (x := (b, GetHeight b, w) : candidate).
  destruct best as [[t h] v]. cbn [cand_block fst] in Hbest.
  pose proof (is_better_iff c b w t h v Hk Hb Hbest) as Hbt. fold x in Hbt.
  assert (L : forall y, known c y -> length (b_Hash y) = 32%nat) by (intros y Hy; by apply (ko_hash c Hk)).
  set (best1 := if is_better b w (t, h, v) then x else (t, h, v)).
  assert (Hk1 : known c (cand_block best1)) by (unfold best1; by case_match).
  destruct (IH m1 best1 Hin' Hk1 Hc1) as (m' & best' & E & Hc' & [Hf Ho Hm]).
  exists m', best'. split_and!; [exact E|done|].
  assert (Hk2 : known c (cand_block best')).
  { destruct Hf as [->|(y & Hy & _ & (? & ? & _ & ->))]; [done|by apply Hin']. }
  assert (Hxn : ~ preferred x best' /\ ~ preferred (t, h, v) best').
  { unfold best1 in Ho. destruct (is_better b w (t, h, v)) eqn:Eb.
    - split; [done|]. intros Hp. apply Ho. apply (preferred_trans _ (t, h, v)); auto. by apply Hbt.
    - split; [|done]. apply (preferred_neg_trans _ (t, h, v)); auto. by intros ?%Hbt. }
  split.
  - destruct Hf as [->|(y & Hy & He & Hcy)]; [|right; exists y; set_solver].
    unfold best1. case_match; [right|by left]. exists b. split_and!; [set_solver|by split_and!|].
    by exists n, w.
  - tauto.
  - intros y z [->|Hy]%elem_of_cons; [|by apply Hm].
    intros _ (n' & w' & R' & ->). destruct (rooted_det _ _ _ _ _ _ R R') as [_ <-]. tauto.
Qed.

(** ** The whole choice, for one order of the range over the fork store *)
Lemma canonical_tip_known c tip : canonicalTipLocked c = Some tip -> known c tip.
Proof. intros Ht. right. right. left. by apply last_Some_elem_of. Qed.

Lemma find_best_spec c tip :
  known_ok c -> cache_ok c -> canonicalTipLocked c = Some tip ->
  (forall b, b ∈ all_forks c -> known c b) ->
  let height := len (blocks c) - 1 in
  exists m x, findBestChainTipLocked c = Val (set_workCache m c, Some (cand_block x)) /\
    cache_ok (set_workCache m c) /\
    best_of height (all_forks c) (all_forks c) c (tip, height, canonicalWork c) x.
Proof.
  intros Hk Hc Ht Hin height. unfold findBestChainTipLocked, bind at 1, get. cbn [res_bind].
  rewrite Ht. fold height.
  destruct (best_loop_spec height (all_forks c) c Hk (all_forks c) (workCache c)
              (tip, height, canonicalWork c) Hin (canonical_tip_known c tip Ht))
    as (m & x & E & Hc' & Ho); [by destruct c|].
  replace (set_workCache (workCache c) c) with c in E by by destruct c.
  exists m, x. unfold bind. rewrite E. by split_and!.
Qed.
End fork_choice.

(** Go ranges over the whole map, in any order. *)
Definition visits_all_forks (range : Forks -> list (Z * list BlockRef)) : Prop :=
  forall m, range m ≡ₚ map_to_list m.

Lemma all_forks_elem {S : Type} (r : Forks -> list (Z * list BlockRef)) (c : Chain S) b :
  visits_all_forks r -> b ∈ all_forks r c <-> exists h l, forkBlocks c !! h = Some l /\ b ∈ l.
Proof.
  unfold visits_all_forks, all_forks. intros Hr. rewrite list_elem_of_In, in_concat. split.
  - intros (l & Hl & Hb). apply in_map_iff in Hl as ([h l'] & <- & Hp).
    apply list_elem_of_In in Hp, Hb. rewrite Hr, elem_of_map_to_list in Hp. eauto.
  - intros (h & l & Hl & Hb).
    assert (Hp : (h, l) ∈ r (forkBlocks c)) by (by rewrite Hr; apply elem_of_map_to_list).
    exists l. split; [|by apply list_elem_of_In]. apply in_map_iff. exists (h, l).
    split; [done|by apply list_elem_of_In].
Qed.

Lemma all_forks_perm {S : Type} (r1 r2 : Forks -> list (Z * list BlockRef)) (c : Chain S) b :
  visits_all_forks r1 -> visits_all_forks r2 -> b ∈ all_forks r1 c -> b ∈ all_forks r2 c.
Proof. intros H1 H2. by rewrite !all_forks_elem. Qed.

Lemma all_forks_known {S : Type} (r : Forks -> list (Z * list BlockRef)) (c : Chain S) b :
  visits_all_forks r -> b ∈ all_forks r c -> known c b.
Proof. intros Hr. rewrite all_forks_elem by done. intros Hb. by right; right; right. Qed.

Lemma eligible_perm {S : Type} (ch : Z) (f1 f2 : list BlockRef) (c : Chain S) b :
  (forall x, x ∈ f1 <-> x ∈ f2) -> eligible ch f1 c b -> eligible ch f2 c b.
Proof.
  intros Hf (Hd & Ht & Hc). split_and!; [done| |done]. unfold is_fork_tip in *.
  apply negb_true_iff in Ht. apply negb_true_iff, not_true_is_false. intros Hx.
  apply existsb_exists in Hx as (x & Hx & Heq). apply list_elem_of_In, Hf, list_elem_of_In in Hx.
  enough (existsb (fun y : BlockRef => str_eqb (hexprev y) (hexhash b)) f1 = true) by congruence.
  apply existsb_exists. eauto.
Qed.

(** * Properties *)

(** The work cache is transparent: for consistent blocks and a consistent cache,
    [calculateCumulativeWorkLocked] returns the sum of the work of the blocks on the way
    down from the block, changes nothing but the cache and leaves the cache consistent. *)
Theorem cumulative_work_exact {S : Type} (rc : gmap string Z -> list (string * Z)) (c : Chain S)
  (b : BlockRef) (n : nat) (w : Z)
  (Hk : known_ok c) (Hc : cache_ok c) (Hb : known c b) (R : rooted c b n w) :
  exists m, calculateCumulativeWorkLocked rc b c = Val (set_workCache m c, w) /\
    cache_ok (set_workCache m c).
Proof. by apply (cumulative_work_spec rc c b n w). Qed.

(** C14. The best tip is the heaviest: [findBestChainTipLocked] always ends, and returns the
    canonical tip or the tip of a complete fork chain, to which no other such tip is preferred
    by cumulative work, then height, then the lower hash. *)
Theorem best_tip_heaviest {S : Type} (rf : Forks -> list (Z * list BlockRef))
  (rc : gmap string Z -> list (string * Z)) (c : Chain S) (tip : BlockRef)
  (Hrf : visits_all_forks rf) (Hk : known_ok c) (Hc : cache_ok c)
  (Ht : canonicalTipLocked c = Some tip) :
  let height := len (blocks c) - 1 in
  let forks := all_forks map_to_list c in
  exists m x, findBestChainTipLocked rf rc c = Val (set_workCache m c, Some (cand_block x)) /\
    (x = (tip, height, canonicalWork c) \/
     exists b, b ∈ forks /\ eligible height forks c b /\ cand_of c b x) /\
    ~ preferred (tip, height, canonicalWork c) x /\
    (forall b y, b ∈ forks -> eligible height forks c b -> cand_of c b y -> ~ preferred y x).
Proof.
  intros height forks.
  assert (Hm : visits_all_forks map_to_list) by (intros ?; reflexivity).
  assert (Hf : forall x, x ∈ all_forks rf c <-> x ∈ forks)
    by (intros x; split; by apply all_forks_perm).
  destruct (find_best_spec rf rc c tip Hk Hc Ht) as (m & x & E & _ & [Hfrom Hold Hmax]).
  { intros b. by apply all_forks_known. }
  exists m, x. split_and!; [done| |done|].
  - destruct Hfrom as [->|(b & Hb & He & Hx)]; [by left|right]. exists b.
    split_and!; [by apply Hf|by apply (eligible_perm _ _ _ _ _ Hf)|done].
  - intros b y Hb He. apply Hmax; [by apply Hf|]. apply (eligible_perm _ forks); [|done].
    intros z. by rewrite Hf.
Qed.

(** C15. Fork choice is deterministic: whatever the order in which the node ranges over its
    fork blocks, the tip chosen has the same hash. *)
Theorem best_tip_deterministic {S : Type} (rf1 rf2 : Forks -> list (Z * list BlockRef))
  (rc1 rc2 : gmap string Z -> list (string * Z)) (c : Chain S) (tip : BlockRef)
  (Hr1 : visits_all_forks rf1) (Hr2 : visits_all_forks rf2) (Hk : known_ok c) (Hc : cache_ok c)
  (Ht : canonicalTipLocked c = Some tip) :
  exists c1 c2 b1 b2, findBestChainTipLocked rf1 rc1 c = Val (c1, Some b1) /\
    findBestChainTipLocked rf2 rc2 c = Val (c2, Some b2) /\ b_Hash b1 = b_Hash b2.
Proof.
  assert (Hf : forall x, x ∈ all_forks rf1 c <-> x ∈ all_forks rf2 c)
    by (intros x; split; by apply all_forks_perm).
  destruct (find_best_spec rf1 rc1 c tip Hk Hc Ht) as (m1 & x1 & E1 & _ & B1).
  { intros b. by apply all_forks_known. }
  destruct (find_best_spec rf2 rc2 c tip Hk Hc Ht) as (m2 & x2 & E2 & _ & B2).
  { intros b. by apply all_forks_known. }
  exists (set_workCache m1 c), (set_workCache m2 c), (cand_block x1), (cand_block x2).
  split_and!; [done|done|].
  assert (L : forall x ch f, best_of ch f f c (tip, len (blocks c) - 1, canonicalWork c) x ->
                f = all_forks rf1 c \/ f = all_forks rf2 c -> length (b_Hash (cand_block x)) = 32%nat).
  { intros x ch f [[->|(b & Hb & _ & (? & ? & _ & ->))] _ _] Hfs.
    - by apply (ko_hash c Hk), canonical_tip_known.
    - apply (ko_hash c Hk). destruct Hfs as [-> | ->];
        [by apply (all_forks_known rf1)|by apply (all_forks_known rf2)]. }
  apply (preferred_total x1 x2); [by eapply L; [exact B1|left]|by eapply L; [exact B2|right]|..].
  - destruct B1 as [[->|(b & Hb & He & Hx)] _ _]; [apply B2|].
    apply (bo_max _ _ _ _ _ _ B2 b); [by apply Hf| |done]. by apply (eligible_perm _ _ _ _ _ Hf).
  - destruct B2 as [[->|(b & Hb & He & Hx)] _ _]; [apply B1|].
    apply (bo_max _ _ _ _ _ _ B1 b); [by apply Hf| |done]. apply (eligible_perm _ (all_forks rf2 c)); [|done].
    intros z. by rewrite Hf.
Qed.
