(* ===== verification/Reorg.v ===== *)
(** * Reorganization and the entry points of the chain

    [blockchain/core/chain.go]: [reorganizeChainLocked] and what leads to it
    ([tryReorganizeLocked], [handleReorganizationLocked], [reorganizeToHeaviestLocked],
    [autoReorgIfNeededLocked]), [AppendBlock], [RollbackToHeight], [SetTip], and the audit
    [AuditChain], which serves as the specification of a consistent chain. *)

From S2P Require Import Prelude Bytes Sha256 Config Merkle Json Transaction Ledger Float Difficulty FeeChecker Mempool Chain ForkChoice.
From stdpp Require Import base list gmap strings numbers sorting.
From Stdlib Require Import ZArith Lia.

Open Scope Z_scope.
Open Scope go_scope.
Open Scope chain_scope.

Section reorg.
Context {S : Type} `{ChainStore S}.
Variable ed25519_verify : list Z -> list Z -> list Z -> bool.
Variable seal_valid : PowHeader -> bool.
Variable network_now now : Z.
Variable range_blocks : Blocks -> list (string * BlockRef).
Variable range_forks : Forks -> list (Z * list BlockRef).
Variable range_accounts : State -> list (string * Account).
Variable range_times : gmap string Z -> list (string * Z).
Variable range_cache : gmap string Z -> list (string * Z).
Variable grow : nat -> nat.

Implicit Types c : Chain S.
Implicit Types b tip : BlockRef.

(** ** Audit *)
Fixpoint audit_links (parent : BlockRef) (bs : list BlockRef) : result unit :=
  match bs with
  | [] => Ok tt
  | b :: bs' =>
      fail_if (negb (GetHeight b =? (GetHeight parent + 1)%u64)) "block has invalid height" ;;?
      fail_if (negb (bytes_eqb (h_PrevHash (b_Header b)) (b_Hash parent)))
        "block has invalid prevHash" ;;?
      match b_Transactions b with
      | [] => Err "block has no transactions"
      | cb :: _ => fail_if (negb (is_type cb TxCoinbase)) "first transaction is not coinbase"
      end ;;?
      audit_links b bs'
  end.

Definition AuditChain c : result unit :=
  match blocks c with
  | [] => Err "chain is empty"
  | genesis :: bs =>
      fail_if (negb (GetHeight genesis =? 0)) "genesis block height is not 0" ;;?
      fail_if (negb (len (h_PrevHash (b_Header genesis)) =? 0))
        "genesis block prevHash is not empty" ;;?
      audit_links genesis bs ;;?
      wrap "state validation failed"
        (validateState ed25519_verify (consensus c) (monetaryPolicy c) (genesisAddress c)
           (map ref_blk (blocks c)) (state c))
  end.

(** ** Orphans after a change of the tip *)
Definition isParentInCanonicalOrForkLocked (parentHashHex : string) c : bool :=
  match (blocksByHash c !! parentHashHex : option BlockRef) with
  | None => false
  | Some parentBlock =>
      let h := GetHeight parentBlock in
      match (block_at h c : option BlockRef) with
      | Some x => ref_ptr x =? ref_ptr parentBlock
      | None => false
      end ||
      existsb (fun x : BlockRef => ref_ptr x =? ref_ptr parentBlock) (fork_blocks_at h c)
  end.

Definition couldBePartOfValidChainLocked (orphan : BlockRef) (currentHeight : Z) c : bool :=
  match (blocksByHash c !! hexprev orphan : option BlockRef) with
  | Some _ => true
  | None =>
      existsb (fun h =>
        existsb (fun pH => match (orphanPool c !! pH : option BlockRef) with
                           | Some pOrphan => GetHeight pOrphan =? (h - 1)%u64
                           | None => false
                           end) (orphan_children (hexprev orphan) c))
        (seqZ (currentHeight + 1) (GetHeight orphan - (currentHeight + 1)))
  end.

Definition keep_orphan (height : Z) (orphan : BlockRef) c : bool :=
  let h := GetHeight orphan in
  if h <=? height then true
  else if (h =? (height + 1)%u64) && isParentInCanonicalOrForkLocked (hexprev orphan) c then true
  else (h >? (height + 1)%u64) && (h <=? (height + 128)%u64) && couldBePartOfValidChainLocked orphan height c.

Definition rebuildOrphanByParentIndexLocked c : Chain S :=
  foldl (fun c '(hash, orphan) => append_child grow (hexprev (orphan : BlockRef)) hash c)
    (set_orphanByParent ∅ c) (range_blocks (orphanPool c)).

(** The timestamps of the orphans removed here are left behind. *)
Definition cleanOrphanPoolAboveHeight (height : Z) c : Chain S :=
  let c1 := foldl (fun c '(hash, orphan) =>
                     if keep_orphan height orphan c then c
                     else set_orphanPool (delete hash (orphanPool c)) c)
              c (range_blocks (orphanPool c)) in
  if (size (orphanPool c1) <? size (orphanPool c))%nat
  then rebuildOrphanByParentIndexLocked c1 else c1.

(** ** Reorganization *)
Definition requestMissingParentAsync (b : BlockRef) : M (Chain S) unit :=
  emit (EvMissingBlock (h_PrevHash (b_Header b)) (u64 (GetHeight b - 1))).

(** A parent already asked for within the window is not asked for again. *)
Definition request_parent (b : BlockRef) : M (Chain S) unit :=
  let* c := get in
  let ask := modify (fun c => set_pendingAncestorRequests
                       (<[hexprev b := now]> (pendingAncestorRequests c)) c) ;;*
             log_prefix 16 (hexprev b) ;;*
             requestMissingParentAsync b in
  match pendingAncestorRequests c !! hexprev b with
  | None => ask
  | Some lastReq => if now - lastReq >=? parentRequestDedupWindow then ask else ret tt
  end.

(** The walk from the new tip down to the ancestor's height: the branch, oldest first, or
    the block whose parent is missing, or a seal that fails. *)
Inductive climbed : Type :=
| Reached (branch : list BlockRef)
| Missing (b : BlockRef)
| BadSeal (b : BlockRef) (e : error).

Fixpoint climb (check_seal : bool) (fuel : nat) (ancestorHeight : Z) (current : BlockRef)
  (branch : list BlockRef) (c : Chain S) : res climbed :=
  if GetHeight current >? ancestorHeight then
    match find_parent current c with
    | None => Val (Missing current)
    | Some parent =>
        match if check_seal then verifyBlockPoWSeal seal_valid current (Some (ref_blk parent))
              else Ok tt with
        | Err e => Val (BadSeal current e)
        | Ok _ =>
            match fuel with
            | O => Halt Diverge
            | Datatypes.S fuel' =>
                climb check_seal fuel' ancestorHeight parent (current :: branch) c
            end
        end
    end
  else Val (Reached branch).

Definition append_known (b : BlockRef) c : Chain S :=
  set_blocksByHash (<[hexhash b := b]> (blocksByHash c)) (set_blocks (blocks c ++ [b]) c).

Definition branch_ids (branch : list BlockRef) : list string :=
  concat (map (fun b : BlockRef => extractTransactionIDs (b_Transactions b)) branch).

(** The ancestor is the tip: the branch is appended. *)
Definition extend_with (newTip : BlockRef) (branch : list BlockRef) : M (Chain S) (result unit) :=
  modify (fun c => foldl (fun c (b : BlockRef) =>
            let c1 := append_known b c in
            updateIndexesForBlock b (len (blocks c1) - 1) c1) c branch) ;;*
  modify invalidateWorkCache ;;*
  wrapM "recompute state after chain extension" (recomputeStateLocked ed25519_verify) ;;??
  modify (set_bestTipHash (hexhash newTip)) ;;*
  modify resetCanonicalWork ;;*
  let* c := get in
  wrapM "rewrite canonical after extension"
    (store_op (RewriteCanonical (map (deref c) (blocks c)))) ;;??
  modify (remove_confirmed (branch_ids branch)) ;;*
  ret (Ok tt).

Definition extend_chain (ancestor newTip : BlockRef) : M (Chain S) (result unit) :=
  let* c := get in
  let* walk := lift_res (climb false (walk_bound c) (GetHeight ancestor) newTip [] c) in
  match walk with
  | Missing _ => ret (Err "parent block not found during chain extension")
  | BadSeal _ e => ret (Err e)
  | Reached branch => extend_with newTip branch
  end.

Definition drop_forks_above (newHeight : Z) c : Chain S :=
  foldl (fun c '(h, bs) => set_forkBlocks (delete h (forkBlocks c)) (drop_fork_hashes bs c)) c
    (List.filter (fun x : Z * list BlockRef => fst x >? newHeight) (range_forks (forkBlocks c))).

(** A branch whose lowest block has no known parent. *)
Definition defer_or_reject (current : BlockRef) : M (Chain S) (result unit) :=
  let* c := get in
  if u64 (GetHeight current - 1) =? len (blocks c) - 1 then
    request_parent current ;;*
    log_prefix 16 (hexprev current) ;;*
    ret (Err "deferred reorg: waiting for fork parent")
  else ret (Err ErrOrphanBlock).

Definition refs (bs : list BlockRef) : list (string * Z) :=
  map (fun b : BlockRef => (hexhash b, GetHeight b)) bs.

(** The canonical chain is cut above the ancestor and the branch appended. *)
Definition switch_with (ancestor newTip : BlockRef) (branch : list BlockRef)
  : M (Chain S) (result unit) :=
  let* c0 := get in
  let ancestorHeight := GetHeight ancestor in
  let removeStart := i64 ancestorHeight + 1 in
  if removeStart <? 0 then halt_with (Panic "slice bounds out of range")
  else
    let oldCanonical := drop (Z.to_nat removeStart) (blocks c0) in
    modify (fun c => set_blocks (take (Z.to_nat removeStart) (blocks c)) c) ;;*
    modify (fun c => foldl (fun c (b : BlockRef) => append_known b c) c branch) ;;*
    wrapM "recompute state after reorg" (recomputeStateLocked ed25519_verify) ;;??
    modify reindexAllTxsLocked ;;*
    modify reindexAllAddressTxsLocked ;;*
    modify (set_bestTipHash (hexhash newTip)) ;;*
    modify invalidateWorkCache ;;*
    modify resetCanonicalWork ;;*
    let* c := get in
    wrapM "rewrite canonical" (store_op (RewriteCanonical (map (deref c) (blocks c)))) ;;??
    modify (remove_confirmed (branch_ids branch)) ;;*
    match (last (blocks c) : option BlockRef) with
    | None => halt_with (Panic "index out of range")
    | Some tip =>
        let newHeight := GetHeight tip in
        modify (set_lastReorgTime now) ;;*
        modify (drop_forks_above newHeight) ;;*
        modify (cleanOrphanPoolAboveHeight newHeight) ;;*
        emit (EvForkResolved newHeight 0) ;;*
        emit (EvReorganized tip) ;;*
        (* the list is [branch] followed by the ancestor, without its first element *)
        emit (EvChainReorg (refs oldCanonical) (tail (refs branch ++ refs [ancestor]))
                (len oldCanonical) (hexhash newTip) newHeight ancestorHeight) ;;*
        ret (Ok tt)
    end.

Definition switch_chain (ancestor newTip : BlockRef) : M (Chain S) (result unit) :=
  let* c := get in
  let* walk := lift_res (climb true (walk_bound c) (GetHeight ancestor) newTip [] c) in
  match walk with
  | Missing current => defer_or_reject current
  | BadSeal current e => log_prefix 16 (hexhash current) ;;* ret (Err e)
  | Reached branch => switch_with ancestor newTip branch
  end.

Definition reorganizeChainLocked (ancestor newTip : BlockRef) : M (Chain S) (result unit) :=
  let* c := get in
  let n := len (blocks c) in
  let ancestorHeight := i64 (GetHeight ancestor) in
  match canonicalTipLocked c with
  | None => ret (Err "cannot reorganize empty chain")
  | Some tip =>
      if ancestorHeight >? n - 1 then ret (Err "ancestor height exceeds maximum valid height")
      else if (ancestorHeight =? n - 1) && str_eqb (hexhash ancestor) (hexhash tip)
      then extend_chain ancestor newTip
      else switch_chain ancestor newTip
  end.

Definition ReorganizeToKnownFork (ancestor newTip : BlockRef) : M (Chain S) (result unit) :=
  reorganizeChainLocked ancestor newTip.

(** ** What leads to a reorganization *)
Definition handleReorganizationLocked (newBlock : BlockRef) : M (Chain S) (result unit) :=
  let* c := get in
  let* found := lift_res (findCommonAncestorLocked newBlock c) in
  match found with
  | Err _ => ret (Err ErrOrphanBlock)
  | Ok (ancestor, removed) =>
      let* newChainWork := lift_res (calculateChainWorkFromAncestorLocked ancestor newBlock c) in
      if newChainWork <=? calculateChainWorkLocked removed then ret (Ok tt)
      else reorganizeChainLocked ancestor newBlock
  end.

Definition reorganizeToLocked (newBlock : BlockRef) : M (Chain S) (result unit) :=
  let* c := get in
  let* found := lift_res (findCommonAncestorLocked newBlock c) in
  match found with
  | Err e => ret (wrap "find common ancestor" (Err e))
  | Ok (ancestor, _) => reorganizeChainLocked ancestor newBlock
  end.

Definition reorganizeToHeaviestLocked : M (Chain S) (result unit) :=
  let* c := get in
  match canonicalTipLocked c with
  | None => ret (Ok tt)
  | Some currentTip =>
      if (size (forkBlocks c) =? 0)%nat then ret (Ok tt)
      else
        let* bestTip := findBestChainTipLocked range_forks range_cache in
        match bestTip with
        | None => ret (Ok tt)
        | Some bestTip =>
            if str_eqb (hexhash bestTip) (hexhash currentTip) then ret (Ok tt)
            else
              let* _ := calculateCumulativeWorkLocked range_cache bestTip in
              reorganizeToLocked bestTip
        end
  end.

Definition autoReorgIfNeededLocked : M (Chain S) unit :=
  let* bestTip := findBestChainTipLocked range_forks range_cache in
  let* c := get in
  match bestTip, canonicalTipLocked c with
  | Some bestTip, Some tip =>
      if str_eqb (hexhash bestTip) (hexhash tip) then ret tt
      else
        log_prefix 16 (hexhash bestTip) ;;*
        let* _ := calculateCumulativeWorkLocked range_cache bestTip in
        log_prefix 16 (hexhash tip) ;;*
        let* c := get in
        let* found := lift_res (findCommonAncestorLocked bestTip c) in
        match found with
        | Err _ => ret tt
        | Ok (ancestor, _) => let* _ := reorganizeChainLocked ancestor bestTip in ret tt
        end
  | _, _ => ret tt
  end.

Definition debouncedAutoReorgLocked : M (Chain S) unit :=
  let* c := get in
  if now - lastAutoReorgTime c <? MinAutoReorgInterval then ret tt
  else modify (set_lastAutoReorgTime now) ;;* autoReorgIfNeededLocked.

(** The walk of [tryReorganizeLocked]: the first canonical ancestor, or none when a block on
    the way is missing. *)
Fixpoint fork_point (fuel : nat) (cur : BlockRef) (c : Chain S) : res (option BlockRef) :=
  let down :=
    match find_hash (hexprev cur) (fork_blocks_at (u64 (GetHeight cur - 1)) c) with
    | None => Val None
    | Some parent => match fuel with
                     | O => Halt Diverge
                     | Datatypes.S fuel' => fork_point fuel' parent c
                     end
    end in
  match (blocksByHash c !! hexprev cur : option BlockRef) with
  | Some parent => if isCanonicalLocked parent c then Val (Some parent) else down
  | None => down
  end.

Definition fork_bound c : nat := Datatypes.S (Z.to_nat (total_forks c)).

Definition tryReorganizeLocked (newBlock : BlockRef) : M (Chain S) (result unit) :=
  let* c := get in
  let* ancestor := lift_res (fork_point (fork_bound c) newBlock c) in
  match ancestor with
  | None => ret (Ok tt)
  | Some forkAncestor =>
      let* newChainWork := lift_res (calculateChainWorkFromAncestorLocked forkAncestor newBlock c) in
      if newChainWork <=? calculateCanonicalWorkFromHeightLocked (GetHeight forkAncestor) c
      then ret (Ok tt)
      else reorganizeChainLocked forkAncestor newBlock
  end.

(** ** Appending a block *)
Definition append_orphan (b : BlockRef) : M (Chain S) (result unit) :=
  addOrphanLocked now range_times grow b ;;*
  modify (acceptOrphanChildrenLocked (hexhash b)) ;;*
  ret (Err ErrOrphanBlock).

Definition AppendBlock (b : BlockRef) : M (Chain S) (result unit) :=
  let* c := get in
  match (blocksByHash c !! hexhash b : option BlockRef) with
  | Some _ => ret (Err ErrKnownBlock)
  | None =>
      match wrap "validate block header" (validateBlockHeaderLocked seal_valid b c) with
      | Err e => ret (Err e)
      | Ok _ =>
          let parentHashHex := hexprev b in
          let parent := blocksByHash c !! parentHashHex in
          if match parent with Some p => isCanonicalLocked p c | None => false end then
            match (last (blocks c) : option BlockRef) with
            | None => halt_with (Panic "index out of range")
            | Some tip =>
                if str_eqb parentHashHex (hexhash tip)
                then connectBlockLocked ed25519_verify seal_valid network_now range_blocks
                       range_accounts b
                else addToForkLocked b ;;* tryReorganizeLocked b
            end
          else
            match find_hash parentHashHex (fork_blocks_at (u64 (GetHeight b - 1)) c) with
            | Some _ => addToForkLocked b ;;* tryReorganizeLocked b
            | None =>
                match (orphanPool c !! parentHashHex : option BlockRef) with
                | Some _ => append_orphan b
                | None =>
                    addOrphanLocked now range_times grow b ;;*
                    requestMissingParentAsync b ;;*
                    modify (acceptOrphanChildrenLocked (hexhash b)) ;;*
                    ret (Err ErrOrphanBlock)
                end
            end
      end
  end.

(** ** Rollback *)
Definition drop_entries (height : Z) (j : nat) (addr : string)
  (ix : gmap string (list AddressTxEntry)) : gmap string (list AddressTxEntry) :=
  match ix !! addr with
  | None => ix
  | Some es => <[addr := List.filter (fun e => negb (loc_Height (ae_Location e) =? height) ||
                           negb (loc_Index (ae_Location e) =? Z.of_nat j)) es]> ix
  end.

Definition unindex_tx (height : Z) (c : Chain S) (jtx : nat * Transaction) : Chain S :=
  let (j, tx) := jtx in
  let c1 := set_txIndex (delete (GetID tx) (txIndex c)) c in
  match FromAddress tx with
  | Err _ => c1
  | Ok fromAddr =>
      let ix := drop_entries height j fromAddr (addressIndex c1) in
      set_addressIndex (if strlen (tx_ToAddress tx) =? 0 then ix
                        else drop_entries height j (tx_ToAddress tx) ix) c1
  end.

(** The blocks above the height, highest first, with their heights. *)
Definition unindex_block (c : Chain S) (ib : Z * BlockRef) : Chain S :=
  let (i, b) := ib in
  foldl (unindex_tx i) (set_blocksByHash (delete (hexhash b) (blocksByHash c)) c)
    (imap pair (b_Transactions b)).

Definition drop_fork_heights (height : Z) c : Chain S :=
  set_forkBlocks (filter (fun x => fst x <= height) (forkBlocks c)) c.

Definition RollbackToHeight (height : Z) : M (Chain S) (result unit) :=
  let* c := get in
  let n := len (blocks c) in
  if height >=? n then ret (Err "height is beyond chain length")
  else if height =? n - 1 then ret (Ok tt)
  else
    let keep := Z.to_nat (height + 1) in
    let removed := imap (fun k b => (height + 1 + Z.of_nat k, b)) (drop keep (blocks c)) in
    modify (fun c => foldl unindex_block c (rev removed)) ;;*
    modify (fun c => set_blocks (take keep (blocks c)) c) ;;*
    modify invalidateWorkCache ;;*
    modify (initCanonicalIndexesLocked range_blocks) ;;*
    modify (drop_fork_heights height) ;;*
    modify (cleanOrphanPoolAboveHeight height) ;;*
    modify (fun c => set_canonicalWork (calculateChainWorkLocked (blocks c)) c) ;;*
    wrapM "recompute state after rollback" (recomputeStateLocked ed25519_verify) ;;??
    let* c := get in
    let* _ := store_op (RewriteCanonical (map (deref c) (blocks c))) in
    emit (EvForkResolved height (n - 1 - height)) ;;*
    match (last (blocks c) : option BlockRef) with
    | None => halt_with (Panic "index out of range")
    | Some tip => emit (EvReorganized tip) ;;* ret (Ok tt)
    end.

(** * Lemmas *)

(** ** What the bookkeeping leaves alone *)
Definition core c : list BlockRef * State * string * Z * (ConsensusParams * MonetaryPolicy * string) :=
  (blocks c, state c, bestTipHash c, canonicalWork c,
   (consensus c, monetaryPolicy c, genesisAddress c)).

Lemma foldl_core {A : Type} (f : Chain S -> A -> Chain S) (l : list A) c :
  (forall c x, core (f c x) = core c) -> core (foldl f c l) = core c.
Proof. intros Hf. revert c. induction l as [|x l IH]; intros c; cbn; [done|]. by rewrite IH, Hf. Qed.

Lemma update_tx_index_core (b : Block) h c itx : core (update_tx_index b h c itx) = core c.
Proof. destruct itx. unfold update_tx_index. by case_match. Qed.

Lemma updateIndexes_core b h c : core (updateIndexesForBlock b h c) = core c.
Proof. apply foldl_core. intros. apply update_tx_index_core. Qed.

Lemma reindexTxs_core c : core (reindexAllTxsLocked c) = core c.
Proof. unfold reindexAllTxsLocked. by rewrite foldl_core. Qed.

Lemma reindexAddr_core c : core (reindexAllAddressTxsLocked c) = core c.
Proof. unfold reindexAllAddressTxsLocked. by rewrite foldl_core. Qed.

Lemma remove_confirmed_core ids c : core (remove_confirmed ids c) = core c.
Proof. unfold remove_confirmed. by repeat case_match. Qed.

Lemma drop_fork_hash_core b c : core (drop_fork_hash b c) = core c.
Proof. done. Qed.

Lemma drop_fork_hashes_core bs c : core (drop_fork_hashes bs c) = core c.
Proof. apply foldl_core. intros. apply drop_fork_hash_core. Qed.

Lemma drop_forks_above_core h c : core (drop_forks_above h c) = core c.
Proof. apply foldl_core. intros c' [k bs]. apply (drop_fork_hashes_core bs c'). Qed.

Lemma append_child_core parent hash c : core (append_child grow parent hash c) = core c.
Proof. unfold append_child. by repeat case_match. Qed.

Lemma rebuild_core c : core (rebuildOrphanByParentIndexLocked c) = core c.
Proof.
  unfold rebuildOrphanByParentIndexLocked. rewrite foldl_core; [done|].
  intros c' [k b]. apply append_child_core.
Qed.

Lemma clean_orphans_core h c : core (cleanOrphanPoolAboveHeight h c) = core c.
Proof.
  unfold cleanOrphanPoolAboveHeight. set (c1 := foldl _ c _).
  assert (E : core c1 = core c) by (apply foldl_core; intros c' [k b]; by case_match).
  case_match; [|done]. by rewrite rebuild_core.
Qed.

Lemma removeFromFork_core b c : core (removeFromForkLocked b c) = core c.
Proof. unfold removeFromForkLocked. rewrite drop_fork_hash_core. by repeat case_match. Qed.

Lemma enforceBlocks_core c : core (enforceBlocksByHashSize range_blocks c) = core c.
Proof. unfold enforceBlocksByHashSize. by case_match. Qed.

Lemma addToIndex_core b c : core (addToIndexLocked range_blocks b c) = core c.
Proof. unfold addToIndexLocked. case_match; [done|]. by rewrite enforceBlocks_core. Qed.

(** ** Work of a chain *)
Lemma chain_work_from (bs : list BlockRef) (w : Z) :
  foldl (fun total (b : BlockRef) => total + block_work b) w bs = w + calculateChainWorkLocked bs.
Proof.
  unfold calculateChainWorkLocked. revert w. induction bs as [|b bs IH]; intros w; cbn [foldl]; [lia|].
  rewrite IH, (IH (0 + block_work b)). lia.
Qed.

Lemma chain_work_app (l1 l2 : list BlockRef) :
  calculateChainWorkLocked (l1 ++ l2) = calculateChainWorkLocked l1 + calculateChainWorkLocked l2.
Proof. unfold calculateChainWorkLocked at 1. by rewrite foldl_app, chain_work_from. Qed.

Lemma chain_work_cons b (l : list BlockRef) :
  calculateChainWorkLocked (b :: l) = block_work b + calculateChainWorkLocked l.
Proof. unfold calculateChainWorkLocked at 1. cbn [foldl]. by rewrite chain_work_from. Qed.

Lemma reset_work_core c :
  core (resetCanonicalWork c)
  = (blocks c, state c, bestTipHash c, calculateChainWorkLocked (blocks c),
     (consensus c, monetaryPolicy c, genesisAddress c)).
Proof.
  unfold resetCanonicalWork.
  enough (forall bs c', core (foldl (fun c (b : BlockRef) =>
      let c1 := set_canonicalWork (canonicalWork c + block_work b) c in
      set_total_work b (canonicalWork c1) c1) c' bs)
    = (blocks c', state c', bestTipHash c', canonicalWork c' + calculateChainWorkLocked bs,
       (consensus c', monetaryPolicy c', genesisAddress c'))) as E by (rewrite E; done).
  induction bs as [|b bs IH]; intros c'; cbn [foldl].
  - unfold core, calculateChainWorkLocked. cbn. by rewrite Z.add_0_r.
  - rewrite IH, chain_work_cons. cbn. by rewrite Z.add_assoc.
Qed.

(** ** Linked chains *)
Definition first_coinbase (b : Block) : Prop :=
  exists cb txs, b_Transactions b = cb :: txs /\ is_type cb TxCoinbase = true.

Definition link (p b : Block) : Prop :=
  GetHeight b = (GetHeight p + 1)%u64 /\ h_PrevHash (b_Header b) = b_Hash p /\ first_coinbase b.

Fixpoint links (p : Block) (bs : list BlockRef) : Prop :=
  match bs with
  | [] => True
  | b :: bs' => link p b /\ links b bs'
  end.

Definition chain_linked (bs : list BlockRef) : Prop :=
  match bs with
  | [] => False
  | g :: bs' => GetHeight g = 0 /\ h_PrevHash (b_Header g) = [] /\ links g bs'
  end.

Lemma audit_links_iff (bs : list BlockRef) : forall p : BlockRef,
  audit_links p bs = Ok tt <-> links p bs.
Proof.
  induction bs as [|b bs IH]; intros p; cbn [audit_links links]; [done|].
  rewrite <- IH. unfold link, first_coinbase. split.
  - intros H'. inv_result. bool_to_prop.
    match goal with E : bytes_eqb _ _ = true |- _ => apply bytes_eqb_spec in E end.
    destruct (b_Transactions b) as [|cb txs]; [done|]. inv_result. bool_to_prop. eauto 10.
  - intros [(E1 & E2 & cb & txs & Et & Hcb) Hl]. rewrite E1, E2, Et, Z.eqb_refl.
    rewrite (proj2 (bytes_eqb_spec _ _) eq_refl), Hcb. done.
Qed.

Lemma links_app (l1 l2 : list BlockRef) : forall p : Block,
  links p (l1 ++ l2) <-> links p l1 /\ links (default p (ref_blk <$> last l1)) l2.
Proof.
  induction l1 as [|b l1 IH]; intros p; cbn [links app]; [cbn; tauto|].
  rewrite IH, last_cons. destruct (last l1); cbn; tauto.
Qed.

Lemma chain_linked_app (l1 l2 : list BlockRef) (tip : BlockRef) :
  last l1 = Some tip -> chain_linked (l1 ++ l2) <-> chain_linked l1 /\ links tip l2.
Proof.
  destruct l1 as [|g l1]; [done|]. intros Hl. cbn [chain_linked app]. rewrite links_app.
  rewrite last_cons in Hl. destruct (last l1) as [x|]; injection Hl as <-; cbn; tauto.
Qed.

Lemma chain_linked_take (l : list BlockRef) (n : nat) :
  (0 < n)%nat -> chain_linked l -> chain_linked (take n l).
Proof.
  intros Hn. destruct l as [|g l]; [done|]. destruct n as [|n]; [lia|]. cbn.
  intros (? & ? & Hl). split_and!; [done|done|]. rewrite <- (take_drop n l), links_app in Hl. tauto.
Qed.

(** Heights are positions, as long as they fit [uint64]. *)
Lemma links_height (bs : list BlockRef) : forall (p : Block) (i : nat) (b : BlockRef),
  links p bs -> 0 <= GetHeight p -> GetHeight p + Z.of_nat (length bs) <= max_u64 ->
  bs !! i = Some b -> GetHeight b = GetHeight p + 1 + Z.of_nat i.
Proof.
  induction bs as [|x bs IH]; intros p i b Hl Hp Hlen Hi; [done|].
  destruct Hl as [(Hh & _) Hl]. cbn [length] in Hlen.
  rewrite add64_small in Hh by (unfold_u64; lia).
  destruct i as [|i]; cbn in Hi; [injection Hi as <-; lia|].
  rewrite (IH x i b Hl); [lia|lia|lia|done].
Qed.

Lemma linked_height (bs : list BlockRef) (i : nat) (b : BlockRef) :
  chain_linked bs -> len bs <= max_u64 -> bs !! i = Some b -> GetHeight b = Z.of_nat i.
Proof.
  destruct bs as [|g bs]; [done|]. intros (Hg & _ & Hl) Hlen Hi. unfold len in Hlen. cbn in Hlen.
  destruct i as [|i]; cbn in Hi; [injection Hi as <-; lia|].
  rewrite (links_height bs g i b Hl); [lia|lia|lia|done].
Qed.

(** ** Recomputing the state *)
Definition recomputed c (bs : list BlockRef) : State * result unit :=
  recomputeState ed25519_verify (consensus c) (monetaryPolicy c) (genesisAddress c)
    (map ref_blk bs).

Lemma apply_blocks_app p mp g l1 : forall l2 st,
  apply_blocks ed25519_verify p mp g (l1 ++ l2) st
  = match apply_blocks ed25519_verify p mp g l1 st with
    | (st', Ok _) => apply_blocks ed25519_verify p mp g l2 st'
    | (st', Err e) => (st', Err e)
    end.
Proof.
  induction l1 as [|b l1 IH]; intros l2 st; cbn [apply_blocks app]; [done|].
  unfold st_bind. destruct (applyBlockToState ed25519_verify p mp b g st) as [st' [[]|e]]; [|done].
  cbn [wrap]. apply IH.
Qed.

Lemma recomputed_prefix c l1 l2 st :
  recomputed c (l1 ++ l2) = (st, Ok tt) -> exists st', recomputed c l1 = (st', Ok tt).
Proof.
  unfold recomputed, recomputeState. rewrite map_app, apply_blocks_app.
  destruct (apply_blocks _ _ _ _ (map ref_blk l1) ∅) as [st' [[]|e]]; [eauto|done].
Qed.

Lemma recomputed_snoc c l b st st' :
  recomputed c l = (st, Ok tt) ->
  applyBlockToState ed25519_verify (consensus c) (monetaryPolicy c) b (genesisAddress c) st
  = (st', Ok tt) ->
  recomputed c (l ++ [b]) = (st', Ok tt).
Proof.
  unfold recomputed, recomputeState. intros Hl Hb. rewrite map_app, apply_blocks_app, Hl.
  cbn [map apply_blocks].
  unfold st_bind. by rewrite Hb.
Qed.

(** ** Consistency of the canonical chain *)
Lemma audit_iff c :
  AuditChain c = Ok tt <-> chain_linked (blocks c) /\ recomputed c (blocks c) = (state c, Ok tt).
Proof.
  unfold AuditChain, recomputed. destruct (blocks c) as [|g bs]; [by split; [|intros []]|].
  cbn [chain_linked]. rewrite <- audit_links_iff, <- validateState_spec. split.
  - intros H'. inv_result; bool_to_prop;
      repeat match goal with u : unit |- _ => destruct u end. split; [|done].
    split_and!; [done| |done]. by destruct (h_PrevHash (b_Header g)).
  - intros [(-> & -> & ->) ->]. done.
Qed.

(** The chain passes its audit, and its work and best tip are those of its blocks. *)
Record consistent c : Prop := {
  cs_audit : AuditChain c = Ok tt;
  cs_work : canonicalWork c = calculateChainWorkLocked (blocks c);
  cs_tip : Some (bestTipHash c) = (fun b : BlockRef => hexhash b) <$> last (blocks c)
}.

Lemma consistent_core c c' : core c = core c' -> consistent c -> consistent c'.
Proof.
  unfold core. intros [= Hb Hs Ht Hw Hp Hm Hg] [Ha Hcw Htip].
  split; [|by rewrite <- Hw, <- Hb|by rewrite <- Ht, <- Hb].
  apply audit_iff in Ha as [Hl Hr]. apply audit_iff. unfold recomputed in *.
  rewrite <- Hb, <- Hs, <- Hp, <- Hm, <- Hg. done.
Qed.

(** ** Connecting a block *)
Lemma store_op_core {A : Type} (f : S -> S * A) c c' a :
  store_op f c = Val (c', a) -> core c' = core c.
Proof. unfold store_op. destruct (f (store c)). intros [= <- _]. done. Qed.

Lemma log_prefix_core n s c c' u : log_prefix n s c = Val (c', u) -> c' = c.
Proof. unfold log_prefix. case_match; intros E; inv_run; done. Qed.

Lemma emit_core e c c' u : emit e c = Val (c', u) -> core c' = core c.
Proof. unfold emit. intros E. inv_run. done. Qed.

Lemma periodic_snapshot_core b c c' u : periodic_snapshot b c = Val (c', u) -> core c' = core c.
Proof.
  unfold periodic_snapshot. intros E. inv_run_step. case_match; [inv_run; done|].
  apply bind_val in E as (c1 & ? & E1 & E). apply bind_val in E as (c2 & r & E2 & E).
  apply bind_val in E as (c3 & ? & E3 & E).
  assert (H1 : core c1 = core c).
  { destruct (CalculateStateRoot _ _); [|by inv_run].
    apply bind_val in E1 as (? & ? & Es & E1). repeat case_match; inv_run; exact (store_op_core _ _ _ _ Es). }
  rewrite <- H1, <- (store_op_core _ _ _ _ E2).
  assert (H3 : c3 = c2) by (destruct r; [exact (log_prefix_core _ _ _ _ _ E3)|by inv_run]). subst.
  destruct (_ mod CheckpointInterval =? 0); [exact (emit_core _ _ _ _ E)|by inv_run].
Qed.

Lemma validateBlock_link b (tip : BlockRef) c :
  blocksByHash c !! hexprev b = Some tip -> GetHeight b <> 0 ->
  validateBlockLocked ed25519_verify seal_valid network_now b c = Ok tt -> link tip b.
Proof.
  unfold validateBlockLocked, validateCoinbaseLocked. intros -> Hh H'.
  replace (GetHeight b =? 0) with false in H' by lia. inv_result. bool_to_prop.
  unfold link, first_coinbase. split_and!; [done|by apply bytes_eqb_spec|].
  destruct (b_Transactions b) as [|cb txs]; [done|]. inv_result. bool_to_prop. eauto.
Qed.

Lemma connect_spec b (tip : BlockRef) c c' :
  consistent c -> last (blocks c) = Some tip -> blocksByHash c !! hexprev b = Some tip ->
  GetHeight b <> 0 ->
  connectBlockLocked ed25519_verify seal_valid network_now range_blocks range_accounts b c
  = Val (c', Ok tt) ->
  consistent c' /\ blocks c' = blocks c ++ [b] /\
  canonicalWork c' = canonicalWork c + block_work b.
Proof.
  intros [Ha Hw Ht] Hl Hp Hh E. unfold connectBlockLocked in E. inv_run_step.
  destruct (wrap _ (validateBlockLocked _ _ _ _ _)) as [[]|] eqn:Ev; [|inv_run; done].
  assert (Hv : link tip b).
  { apply (validateBlock_link b tip c Hp Hh). by destruct (validateBlockLocked _ _ _ _ _) as [[]|]. }
  apply audit_iff in Ha as [Hlk Hr].
  apply try_ok in E as (c1 & [] & Est & E). apply wrapM_ok in Est.
  unfold apply_to_state in Est.
  destruct (applyBlockToState _ _ _ _ _ _) as [st r] eqn:Eap. injection Est as <- ->.
  inv_run_step. apply bind_val in E as (c2 & u2 & E2 & E). inv_run_step.
  apply try_ok in E as (c3 & u3 & E3 & E). apply try_ok in E as (c4 & u4 & E4 & E).
  apply wrapM_ok in E3, E4.
  apply periodic_snapshot_core in E2. apply store_op_core in E3, E4.
  assert (E5 : core c4 = (blocks c, st, bestTipHash c, canonicalWork c,
                          (consensus c, monetaryPolicy c, genesisAddress c)))
    by (rewrite E4, E3, E2; reflexivity).
  clear E2 E3 E4. do 10 inv_run_step.
  set (c5 := removeFromForkLocked _ _) in E. set (c6 := indexAddressTxsForBlockLocked _ _) in E.
  assert (E6 : core c6 = (blocks c ++ [b], st, bestTipHash c, canonicalWork c,
                          (consensus c, monetaryPolicy c, genesisAddress c))).
  { change (core c6) with (core (addToIndexLocked range_blocks b c5)).
    rewrite addToIndex_core. unfold c5. rewrite removeFromFork_core.
    unfold core in E5 |- *. injection E5 as Eb Es Et Ew Ep Em Eg. cbn.
    by rewrite Eb, Es, Et, Ew, Ep, Em, Eg. }
  apply bind_val in E as (y1 & ? & K1 & E). apply bind_val in E as (y2 & ? & K2 & E).
  apply bind_val in E as (y3 & ? & K3 & E). apply emit_core in K1, K2, K3. inv_run.
  assert (E7 : core c' = (blocks c ++ [b], st, hexhash b, canonicalWork c + block_work b,
                          (consensus c, monetaryPolicy c, genesisAddress c))).
  { rewrite K3, K2, K1. unfold core in E6 |- *. injection E6 as Eb Es _ Ew Ep Em Eg. cbn.
    by rewrite Eb, Es, Ew, Ep, Em, Eg. }
  unfold core in E7. injection E7 as Eb Es Et Ew Ep Em Eg. rewrite Eb, Ew. split_and!; [|done..].
  split; [|by rewrite Ew, Eb, chain_work_app, Hw, chain_work_cons; unfold calculateChainWorkLocked;
            cbn; lia|by rewrite Et, Eb, last_snoc].
  apply audit_iff. rewrite Eb, Es. split; [by apply (chain_linked_app _ _ tip Hl)|].
  unfold recomputed. rewrite Ep, Em, Eg. by apply (recomputed_snoc c (blocks c) b (state c)).
Qed.

(** ** Reorganizing to a branch *)
Implicit Types a t : BlockRef.

(** [branch c a t l]: following parents through the indexes leads from [t] down to [a] over the
    blocks [l], oldest first, each one linked to its parent. *)
Inductive branch c (a : BlockRef) : BlockRef -> list BlockRef -> Prop :=
| branch_here b : ref_blk b = ref_blk a -> branch c a b []
| branch_step b p l :
    find_parent b c = Some p -> branch c a p l ->
    GetHeight b = GetHeight p + 1 -> GetHeight b <= max_u64 ->
    h_PrevHash (b_Header b) = b_Hash p ->
    branch c a b (l ++ [b]).

Lemma branch_height c a t l : branch c a t l -> GetHeight t = GetHeight a + len l.
Proof.
  induction 1 as [b Hb|]; unfold len in *; rewrite ?length_app; [rewrite Hb|]; cbn [length]; lia.
Qed.

Lemma branch_last c a t l : branch c a t l -> default (ref_blk a) (ref_blk <$> last l) = ref_blk t.
Proof. destruct 1; [done|]. by rewrite last_snoc. Qed.

Lemma branch_links c a t l :
  0 <= GetHeight a -> branch c a t l -> Forall first_coinbase (map ref_blk l) -> links a l.
Proof.
  intros H0. induction 1 as [|b p l Hp Hbr IH Hh Hm Hprev]; [done|].
  rewrite map_app, Forall_app. intros [Hl Hb]. apply links_app. split; [by apply IH|].
  rewrite (branch_last c a p l Hbr). split; [|done]. pose proof (branch_height c a p l Hbr). unfold len in *.
  split_and!; [|done|by inversion Hb]. rewrite add64_small by (unfold_u64; lia). done.
Qed.

(** The seal of a block was checked against its parent. *)
Definition sealed c (b : BlockRef) : Prop :=
  exists p, find_parent b c = Some p /\ verifyBlockPoWSeal seal_valid b (Some (ref_blk p)) = Ok tt.

Lemma climb_reached chk a c fuel : forall t l acc r,
  branch c a t l -> climb chk fuel (GetHeight a) t acc c = Val (Reached r) ->
  r = l ++ acc /\ (chk = true -> Forall (sealed c) l).
Proof.
  induction fuel as [|fuel IH]; intros t l acc r Hbr E; cbn [climb] in E;
    (destruct Hbr as [b Hb|b p l Hp Hbr Hh Hm Hprev];
      [rewrite Hb, Z.gtb_ltb, Z.ltb_irrefl in E; by injection E as <-|]);
    pose proof (branch_height c a p l Hbr) as Hph; unfold len in Hph;
    replace (GetHeight b >? GetHeight a) with true in E by lia; rewrite Hp in E;
    (destruct (if chk then _ else _) as [[]|] eqn:Es; [|done]); [done|].
  destruct (IH p l (b :: acc) r Hbr E) as [-> Hs]. rewrite <- app_assoc. split; [done|].
  intros ->. apply Forall_app. split; [by apply Hs|]. constructor; [|constructor].
  exists p. split; [exact Hp|exact Es].
Qed.

Lemma applied_coinbase p mp (b : Block) g st st' :
  applyBlockToState ed25519_verify p mp b g st = (st', Ok tt) -> first_coinbase b.
Proof.
  unfold applyBlockToState. intros E. inv_st. bool_to_prop. unfold first_is_coinbase in *.
  destruct (b_Transactions b) as [|cb txs] eqn:Et; [done|]. by exists cb, txs.
Qed.

Lemma apply_blocks_coinbase p mp g bs : forall st st',
  apply_blocks ed25519_verify p mp g bs st = (st', Ok tt) -> Forall first_coinbase bs.
Proof.
  induction bs as [|b bs IH]; intros st st' E; [constructor|]. cbn [apply_blocks] in E.
  unfold st_bind in E.
  destruct (applyBlockToState ed25519_verify p mp b g st) as [st1 [[]|e]] eqn:Eb; [|done].
  constructor; [exact (applied_coinbase _ _ _ _ _ _ Eb)|exact (IH _ _ E)].
Qed.

Lemma recomputed_coinbase c bs st :
  recomputed c bs = (st, Ok tt) -> Forall first_coinbase (map ref_blk bs).
Proof. apply apply_blocks_coinbase. Qed.

Lemma recomputeStateLocked_inv c c' :
  recomputeStateLocked ed25519_verify c = Val (c', Ok tt) ->
  exists st, recomputed c (blocks c) = (st, Ok tt) /\ c' = set_state st c.
Proof.
  unfold recomputeStateLocked, recomputed. destruct (recomputeState _ _ _ _ _) as [st r].
  intros [= <- ->]. eauto.
Qed.

(** The last steps of both kinds of reorganization: with the new blocks in place and linked,
    recomputing state, tip and work makes the chain consistent. *)
Lemma consistent_from c bs (tip : Block) st w h :
  chain_linked bs -> ref_blk <$> last bs = Some tip -> recomputed c bs = (st, Ok tt) ->
  h = hexhash tip -> w = calculateChainWorkLocked bs -> forall c',
  core c' = (bs, st, h, w, (consensus c, monetaryPolicy c, genesisAddress c)) -> consistent c'.
Proof.
  intros Hl Ht Hr -> -> c' E. unfold core in E. injection E as Eb Es Eh Ew Ep Em Eg.
  split; [|by rewrite Ew, Eb|].
  2: { rewrite Eh, Eb. destruct (last bs); [|done]. injection Ht as <-. done. }
  apply audit_iff. unfold recomputed in *. by rewrite Eb, Es, Ep, Em, Eg.
Qed.

Definition with_blocks c (bs : list BlockRef) :=
  (bs, state c, bestTipHash c, canonicalWork c, (consensus c, monetaryPolicy c, genesisAddress c)).

Lemma foldl_append (f : Chain S -> BlockRef -> Chain S) l : forall c,
  (forall c b, core (f c b) = with_blocks c (blocks c ++ [b])) ->
  core (foldl f c l) = with_blocks c (blocks c ++ l).
Proof.
  induction l as [|b l IH]; intros c Hf; cbn [foldl]; [by rewrite app_nil_r|].
  rewrite IH by done. specialize (Hf c b). unfold core, with_blocks in *.
  injection Hf as -> -> -> -> -> -> ->. by rewrite <- app_assoc.
Qed.

(** Runs the tail both paths share on a chain whose blocks are in place. *)
Lemma finish_core c c1 l : core c1 = with_blocks c l -> forall st,
  core (resetCanonicalWork (set_state st c1))
  = (l, st, bestTipHash c, calculateChainWorkLocked l,
     (consensus c, monetaryPolicy c, genesisAddress c)).
Proof.
  unfold core, with_blocks. intros [= Eb _ Et _ Ep Em Eg] st.
  pose proof (reset_work_core (set_state st c1)) as Hr. unfold core in Hr. rewrite Hr. cbn.
  by rewrite Eb, Et, Ep, Em, Eg.
Qed.

Lemma recomputed_params c c1 bs l : core c1 = with_blocks c l -> recomputed c1 bs = recomputed c bs.
Proof. unfold core, with_blocks, recomputed. by intros [= _ _ _ _ -> -> ->]. Qed.

(** The pointer found may be another one to the same block. *)
Definition canonical c a : Prop :=
  0 <= GetHeight a /\ exists a', block_at (GetHeight a) c = Some a' /\ ref_blk a' = ref_blk a.

(** The canonical blocks up to the height of [a]. *)
Definition below c a : list BlockRef := take (Z.to_nat (GetHeight a + 1)) (blocks c).

Lemma appended_linked c a t l st (pre : list BlockRef) :
  chain_linked pre -> ref_blk <$> last pre = Some (ref_blk a) -> 0 <= GetHeight a ->
  branch c a t l -> recomputed c (pre ++ l) = (st, Ok tt) ->
  chain_linked (pre ++ l) /\ ref_blk <$> last (pre ++ l) = Some (ref_blk t).
Proof.
  intros Hlk Hlast H0 Hbr Er. destruct (last pre) as [a'|] eqn:El; [|done]. injection Hlast as Ha.
  split.
  - apply (chain_linked_app _ _ a' El). split; [done|]. rewrite Ha.
    apply (branch_links c a t l H0 Hbr).
    pose proof (recomputed_coinbase _ _ _ Er) as Hcb. rewrite map_app, Forall_app in Hcb.
    exact (proj2 Hcb).
  - rewrite last_app, El. pose proof (branch_last c a t l Hbr) as Hb.
    destruct (last l); cbn in Hb |- *; [by rewrite Hb|by rewrite Ha, Hb].
Qed.

Lemma extend_spec c a t l c' :
  consistent c -> ref_blk <$> last (blocks c) = Some (ref_blk a) -> 0 <= GetHeight a -> branch c a t l ->
  extend_chain a t c = Val (c', Ok tt) ->
  consistent c' /\ blocks c' = blocks c ++ l.
Proof.
  intros Hcs Hlast H0 Hbr E. unfold extend_chain in E. inv_run_step.
  apply bind_val in E as (c1 & walk & Ew & E). apply lift_res_val in Ew as [-> Ew].
  destruct walk as [r|?|? ?]; [|inv_run; done..].
  destruct (climb_reached _ _ _ _ _ _ _ _ Hbr Ew) as [-> _]. rewrite app_nil_r in E.
  unfold extend_with in E. do 2 inv_run_step. set (c2 := foldl _ c l) in E.
  assert (E2 : core c2 = with_blocks c (blocks c ++ l)).
  { apply foldl_append. intros c0 b. rewrite updateIndexes_core. done. }
  apply try_ok in E as (c3 & [] & Er & E). apply wrapM_ok in Er.
  apply recomputeStateLocked_inv in Er as (st & Er & ->).
  assert (Eb : blocks c2 = blocks c ++ l) by (by injection E2).
  change (blocks (invalidateWorkCache c2)) with (blocks c2) in Er. rewrite Eb in Er.
  change (recomputed (invalidateWorkCache c2)) with (recomputed c2) in Er.
  rewrite (recomputed_params c c2 _ _ E2) in Er.
  do 3 inv_run_step. apply try_ok in E as (c4 & u & Es & E). apply wrapM_ok, store_op_core in Es.
  inv_run. rewrite <- (remove_confirmed_core (branch_ids l)) in Es.
  set (c5 := remove_confirmed _ c4) in *.
  assert (E5 : core c5 = (blocks c ++ l, st, hexhash t, calculateChainWorkLocked (blocks c ++ l),
                          (consensus c, monetaryPolicy c, genesisAddress c))).
  { rewrite Es. refine (finish_core (set_bestTipHash (hexhash t) c)
      (set_bestTipHash (hexhash t) (invalidateWorkCache c2)) (blocks c ++ l) _ st).
    unfold core, with_blocks in E2 |- *. injection E2 as F1 F2 F3 F4 F5 F6 F7. cbn.
    by rewrite F1, F2, F4, F5, F6, F7. }
  split; [|by injection E5].
  destruct Hcs as [Ha _ _]. apply audit_iff in Ha as [Hlk _].
  destruct (appended_linked c a t l st _ Hlk Hlast H0 Hbr Er) as [Hl Ht].
  by apply (consistent_from c (blocks c ++ l) t st _ _) with (c' := c5) in E5.
Qed.

(** A canonical block and what lies below it. *)
Lemma block_at_bound c h b : block_at h c = Some b -> h < len (blocks c).
Proof.
  unfold block_at. destruct ((0 <=? h) && (h <? len (blocks c))) eqn:E; [|done].
  bool_to_prop. lia.
Qed.

Lemma below_last c a : canonical c a -> ref_blk <$> last (below c a) = Some (ref_blk a).
Proof.
  unfold below, canonical, block_at. intros (H0 & a' & E & Ha).
  destruct ((0 <=? GetHeight a) && (GetHeight a <? len (blocks c))); [|done].
  replace (Z.to_nat (GetHeight a + 1)) with (Datatypes.S (Z.to_nat (GetHeight a))) by lia.
  rewrite (take_S_r _ _ _ E), last_snoc. cbn. by rewrite Ha.
Qed.

Lemma switch_spec c a t l c' :
  consistent c -> GetHeight a < 2 ^ 63 -> canonical c a ->
  branch c a t l -> switch_chain a t c = Val (c', Ok tt) ->
  consistent c' /\ blocks c' = below c a ++ l /\
  Forall (sealed c) l.
Proof.
  intros Hcs H63 Hcan Hbr E. pose proof (proj1 Hcan) as H0. unfold switch_chain in E. inv_run_step.
  apply bind_val in E as (c1 & walk & Ew & E). apply lift_res_val in Ew as [-> Ew].
  destruct walk as [r|?|? ?];
    [|unfold defer_or_reject in E; inv_run_step; case_match; inv_run; done|inv_run; done].
  destruct (climb_reached _ _ _ _ _ _ _ _ Hbr Ew) as [-> Hseal]. rewrite app_nil_r in E.
  unfold switch_with in E. inv_run_step. rewrite i64_small in E by lia. replace (GetHeight a + 1 <? 0) with false in E by lia.
  fold (below c a) in *. set (pre := below c a) in *.
  do 2 inv_run_step. set (c2 := foldl _ _ l) in E.
  assert (E2 : core c2 = with_blocks c (pre ++ l)).
  { unfold c2. by rewrite (foldl_append _ l (set_blocks pre c)). }
  apply try_ok in E as (c3 & [] & Er & E). apply wrapM_ok in Er.
  apply recomputeStateLocked_inv in Er as (st & Er & ->).
  assert (Eb : blocks c2 = pre ++ l) by (by injection E2). rewrite Eb in Er.
  rewrite (recomputed_params c c2 _ _ E2) in Er.
  do 6 inv_run_step. set (c4 := reindexAllAddressTxsLocked _) in E.
  assert (E4 : core c4 = core (set_state st c2)).
  { unfold c4. by rewrite reindexAddr_core, reindexTxs_core. }
  set (c5 := resetCanonicalWork _) in E.
  assert (E5 : core c5 = (pre ++ l, st, hexhash t, calculateChainWorkLocked (pre ++ l),
                          (consensus c, monetaryPolicy c, genesisAddress c))).
  { unfold c5. rewrite reset_work_core.
    unfold core, with_blocks in E2, E4. injection E2 as F1 F2 F3 F4 F5 F6 F7.
    injection E4 as G1 G2 G3 G4 G5 G6 G7. cbn in G1, G2, G3, G4, G5, G6, G7 |- *. by rewrite G1, G2, G5, G6, G7, F1, F5, F6, F7. }
  apply try_ok in E as (c6 & u & Es & E). apply wrapM_ok, store_op_core in Es. inv_run_step.
  destruct (last (blocks c5)) as [tip|]; [|inv_run; done]. do 3 inv_run_step.
  apply bind_val in E as (y1 & ? & K1 & E). apply bind_val in E as (y2 & ? & K2 & E).
  apply bind_val in E as (y3 & ? & K3 & E). apply emit_core in K1, K2, K3. inv_run.
  assert (E7 : core c' = core c5).
  { rewrite K3, K2, K1, clean_orphans_core, drop_forks_above_core.
    transitivity (core c6); [exact (remove_confirmed_core (branch_ids l) c6)|exact Es]. }
  rewrite E5 in E7. split_and!; [|by injection E7|by apply Hseal].
  destruct Hcs as [Ha _ _]. apply audit_iff in Ha as [Hlk _].
  assert (Hpre : chain_linked pre) by (unfold pre, below; apply chain_linked_take; [lia|done]).
  destruct (appended_linked c a t l st _ Hpre (below_last c a Hcan) H0 Hbr Er) as [Hl Ht].
  by apply (consistent_from c (pre ++ l) t st _ _) with (c' := c') in E7.
Qed.

Lemma reorganize_spec c a t l c' :
  consistent c -> len (blocks c) < 2 ^ 63 -> canonical c a -> branch c a t l ->
  reorganizeChainLocked a t c = Val (c', Ok tt) ->
  consistent c' /\ blocks c' = below c a ++ l /\ (below c a = blocks c \/ Forall (sealed c) l).
Proof.
  intros Hcs Hn Hcan Hbr E. pose proof Hcan as (H0 & a' & Hat & Ha').
  unfold reorganizeChainLocked in E. inv_run_step.
  pose proof (block_at_bound c _ _ Hat) as Ha.
  destruct (canonicalTipLocked c) as [tip|] eqn:Et; [|inv_run; done].
  rewrite i64_small in E by lia. replace (GetHeight a >? len (blocks c) - 1) with false in E by lia.
  destruct ((GetHeight a =? len (blocks c) - 1) && _) eqn:Ex.
  - apply andb_prop in Ex as [Ex _]. apply Z.eqb_eq in Ex.
    assert (Hall : below c a = blocks c) by (apply take_ge; unfold len in *; lia).
    pose proof (below_last c a Hcan) as Hlast. rewrite Hall in *.
    destruct (extend_spec c a t l c' Hcs Hlast H0 Hbr E). auto.
  - destruct (switch_spec c a t l c') as (? & ? & ?); [done|lia|done..|auto].
Qed.

(** ** A branch that checks out is adopted *)
Lemma climb_runs chk a c fuel : forall t l acc,
  branch c a t l -> (chk = true -> Forall (sealed c) l) -> (length l <= fuel)%nat ->
  climb chk fuel (GetHeight a) t acc c = Val (Reached (l ++ acc)).
Proof.
  induction fuel as [|fuel IH]; intros t l acc Hbr Hs Hf;
    (destruct Hbr as [b Hb|b p l Hp Hbr Hh Hm Hprev];
      [cbn [climb]; rewrite Hb, Z.gtb_ltb, Z.ltb_irrefl; done|]);
    rewrite length_app in Hf; cbn in Hf; [lia|].
  pose proof (branch_height c a p l Hbr) as Hph. unfold len in Hph. cbn [climb].
  replace (GetHeight b >? GetHeight a) with true by lia. rewrite Hp.
  assert (Hok : (if chk then verifyBlockPoWSeal seal_valid b (Some (ref_blk p)) else Ok tt) = Ok tt).
  { destruct chk; [|done]. specialize (Hs eq_refl). apply Forall_app in Hs as [_ Hs].
    apply Forall_cons in Hs as [(q & Hq & Hv) _]. by simplify_eq. }
  rewrite Hok, (IH p l (b :: acc) Hbr), <- app_assoc; [done| |lia].
  intros Hc. specialize (Hs Hc). by apply Forall_app in Hs as [? _].
Qed.

Lemma find_hash_some h bs b : find_hash h bs = Some b -> b ∈ bs /\ hexhash b = h.
Proof.
  unfold find_hash. intros E. apply find_some in E as [Hin Hh].
  split; [by apply list_elem_of_In|by apply str_eqb_spec].
Qed.

Lemma fork_at_known c h b : b ∈ fork_blocks_at h c -> known c b.
Proof.
  unfold fork_blocks_at. destruct (forkBlocks c !! h) as [bs|] eqn:E; cbn; [|set_solver].
  intros Hb. do 3 right. eauto.
Qed.

Lemma find_parent_known c b p : find_parent b c = Some p -> known c p.
Proof.
  unfold find_parent. destruct (blocksByHash c !! hexprev b) as [q|] eqn:E.
  - intros [= <-]. right. left. eauto.
  - intros [Hin _]%find_hash_some. by apply fork_at_known in Hin.
Qed.

Lemma find_parent_listed c b p : find_parent b c = Some p -> p ∈ known_list c.
Proof. intros Hp. by apply known_listed, (find_parent_known c b). Qed.

Lemma branch_distinct c a t l : branch c a t l ->
  NoDup l /\ forall x : BlockRef, x ∈ l -> GetHeight x <= GetHeight t.
Proof.
  induction 1 as [b Hb|b p l Hp Hbr [Hnd Hle] Hh _ _]; [split; [constructor|set_solver]|]. split.
  - apply NoDup_app. split_and!; [done| |apply NoDup_singleton].
    intros x Hx ->%list_elem_of_singleton. specialize (Hle _ Hx). lia.
  - intros x [Hx| ->%list_elem_of_singleton]%elem_of_app; [specialize (Hle _ Hx)|]; lia.
Qed.

Lemma branch_listed c a t l : branch c a t l -> t ∈ known_list c -> forall x : BlockRef, x ∈ l -> x ∈ known_list c.
Proof.
  induction 1 as [b Hb|b p l Hp Hbr IH _ _ _]; [set_solver|].
  intros Hb x [Hx| ->%list_elem_of_singleton]%elem_of_app; [|done].
  apply IH; [by apply (find_parent_listed c b)|done].
Qed.

(** No walk over a branch runs out of steps. *)
Lemma branch_bound c a t l : branch c a t l -> (length l <= walk_bound c)%nat.
Proof.
  intros [b Hb|b p l' Hp Hbr _ _ _]; [cbn; lia|]. rewrite length_app. cbn [length].
  destruct (branch_distinct c a p l' Hbr) as [Hnd _].
  pose proof (branch_listed c a p l' Hbr (find_parent_listed c b p Hp)) as Hin.
  pose proof (submseteq_length _ _ (NoDup_submseteq _ _ Hnd Hin)).
  pose proof (known_list_length c). lia.
Qed.

Lemma store_op_run {A : Type} (f : S -> S * A) c : exists s, store_op f c = Val (set_store s c, snd (f (store c))).
Proof. unfold store_op. destruct (f (store c)) as [s a]. by exists s. Qed.

Lemma recompute_run c st r :
  recomputed c (blocks c) = (st, r) -> recomputeStateLocked ed25519_verify c = Val (set_state st c, r).
Proof. unfold recomputed, recomputeStateLocked. by intros ->. Qed.

(** The chain with the branch in place, before the state is recomputed. *)
Definition extended c (l : list BlockRef) : Chain S :=
  invalidateWorkCache (foldl (fun c (b : BlockRef) =>
    let c1 := append_known b c in updateIndexesForBlock b (len (blocks c1) - 1) c1) c l).

Definition switched c a (l : list BlockRef) : Chain S :=
  foldl (fun c (b : BlockRef) => append_known b c) (set_blocks (below c a) c) l.

Lemma extended_core c l : core (extended c l) = with_blocks c (blocks c ++ l).
Proof. apply foldl_append. intros c0 b. rewrite updateIndexes_core. done. Qed.

Lemma switched_core c a l : core (switched c a l) = with_blocks c (below c a ++ l).
Proof. unfold switched. by rewrite (foldl_append _ l (set_blocks (below c a) c)). Qed.

Lemma core_recomputed c c1 l :
  core c1 = with_blocks c l -> recomputed c1 (blocks c1) = recomputed c l.
Proof. intros E. rewrite (recomputed_params c c1 _ _ E). by injection E as ->. Qed.

Lemma with_blocks_blocks c c1 l : core c1 = with_blocks c l -> blocks c1 = l.
Proof. by intros [= ->]. Qed.

Lemma extend_reached c a t l :
  branch c a t l -> extend_chain a t c = extend_with t l c.
Proof.
  intros Hbr. unfold extend_chain. rewrite bind_get.
  rewrite (bind_run _ _ _ _ _ (lift_res_run _ _ _ (climb_runs false a c (walk_bound c) t l [] Hbr
             ltac:(done) (branch_bound c a t l Hbr)))).
  by rewrite app_nil_r.
Qed.

Lemma switch_reached c a t l :
  branch c a t l -> Forall (sealed c) l -> switch_chain a t c = switch_with a t l c.
Proof.
  intros Hbr Hs. unfold switch_chain. rewrite bind_get.
  rewrite (bind_run _ _ _ _ _ (lift_res_run _ _ _ (climb_runs true a c (walk_bound c) t l [] Hbr
             ltac:(done) (branch_bound c a t l Hbr)))).
  by rewrite app_nil_r.
Qed.

(** The store takes the rewritten chain. *)
Definition rewrites : Prop := forall bs (s : S), snd (RewriteCanonical bs s) = Ok tt.

Lemma rewrite_run ctx bs c : rewrites ->
  exists s, wrapM ctx (store_op (RewriteCanonical bs)) c = Val (set_store s c, Ok tt).
Proof.
  intros Hw. destruct (store_op_run (RewriteCanonical bs) c) as [s E]. exists s.
  rewrite (wrapM_run _ _ _ _ _ E). by rewrite Hw.
Qed.

Lemma core_blocks c1 c2 : core c1 = core c2 -> blocks c1 = blocks c2.
Proof. by intros [= ->]. Qed.

Lemma reset_blocks c : blocks (resetCanonicalWork c) = blocks c.
Proof. pose proof (reset_work_core c) as E. by injection E. Qed.

Lemma extend_runs c t l st :
  rewrites -> recomputed c (blocks c ++ l) = (st, Ok tt) ->
  exists c', extend_with t l c = Val (c', Ok tt).
Proof.
  intros Hw Er. unfold extend_with. rewrite !bind_modify. fold (extended c l).
  rewrite <- (core_recomputed _ _ _ (extended_core c l)) in Er.
  rewrite (try_run _ _ _ _ _ (wrapM_run _ _ _ _ _ (recompute_run _ _ _ Er))).
  rewrite !bind_modify, bind_get.
  match goal with |- exists _, try (wrapM ?x (store_op (RewriteCanonical ?bs))) _ ?c1 = _ =>
    destruct (rewrite_run x bs c1 Hw) as [s E] end.
  rewrite (try_run _ _ _ _ _ E). rewrite !bind_modify. by eexists.
Qed.

Lemma extend_fails c t l st e :
  recomputed c (blocks c ++ l) = (st, Err e) -> exists e',
  extend_with t l c = Val (set_state st (extended c l), Err e').
Proof.
  intros Er. unfold extend_with. rewrite !bind_modify. fold (extended c l).
  rewrite <- (core_recomputed _ _ _ (extended_core c l)) in Er.
  eexists. apply (try_err _ _ _ _ _ (wrapM_run _ _ _ _ _ (recompute_run _ _ _ Er))).
Qed.

Lemma switch_runs c a t l st :
  rewrites -> 0 <= GetHeight a < 2 ^ 63 -> blocks c <> [] ->
  recomputed c (below c a ++ l) = (st, Ok tt) ->
  exists c', switch_with a t l c = Val (c', Ok tt).
Proof.
  intros Hw Ha Hne Er. unfold switch_with. rewrite bind_get, i64_small by lia.
  replace (GetHeight a + 1 <? 0) with false by lia.
  rewrite !bind_modify. fold (below c a) (switched c a l).
  rewrite <- (core_recomputed _ _ _ (switched_core c a l)) in Er.
  rewrite (try_run _ _ _ _ _ (wrapM_run _ _ _ _ _ (recompute_run _ _ _ Er))).
  rewrite !bind_modify, bind_get.
  match goal with |- exists _, try (wrapM ?x (store_op (RewriteCanonical ?bs))) _ ?c1 = _ =>
    destruct (rewrite_run x bs c1 Hw) as [s E]; set (c2 := c1) in * end.
  rewrite (try_run _ _ _ _ _ E). rewrite !bind_modify.
  assert (Hb : blocks c2 = below c a ++ l).
  { rewrite <- (with_blocks_blocks _ _ _ (switched_core c a l)). unfold c2.
    rewrite reset_blocks. cbn [invalidateWorkCache set_workCache set_bestTipHash blocks].
    by rewrite (core_blocks _ _ (reindexAddr_core _)), (core_blocks _ _ (reindexTxs_core _)). }
  rewrite Hb. destruct (last (below c a ++ l)) as [tip|] eqn:El; [by eexists|].
  apply last_None, app_eq_nil in El as [El _]. unfold below in El.
  destruct (blocks c); [done|]. 
  by replace (Z.to_nat (GetHeight a + 1)) with (Datatypes.S (Z.to_nat (GetHeight a))) in El by lia.
Qed.

Lemma switch_fails c a t l st e :
  0 <= GetHeight a < 2 ^ 63 -> recomputed c (below c a ++ l) = (st, Err e) -> exists e',
  switch_with a t l c = Val (set_state st (switched c a l), Err e').
Proof.
  intros Ha Er. unfold switch_with. rewrite bind_get, i64_small by lia.
  replace (GetHeight a + 1 <? 0) with false by lia.
  rewrite !bind_modify. fold (below c a) (switched c a l).
  rewrite <- (core_recomputed _ _ _ (switched_core c a l)) in Er.
  eexists. apply (try_err _ _ _ _ _ (wrapM_run _ _ _ _ _ (recompute_run _ _ _ Er))).
Qed.

(** The two paths of [reorganizeChainLocked]. *)
Lemma reorganize_paths c a t l :
  len (blocks c) < 2 ^ 63 -> canonical c a -> branch c a t l -> Forall (sealed c) l ->
  (below c a = blocks c /\ reorganizeChainLocked a t c = extend_with t l c) \/
  reorganizeChainLocked a t c = switch_with a t l c.
Proof.
  intros Hn (H0 & a' & Hat & _) Hbr Hs. pose proof (block_at_bound c _ _ Hat) as Ha.
  unfold reorganizeChainLocked. rewrite bind_get.
  destruct (canonicalTipLocked c) as [tip|] eqn:Et.
  2: { apply last_None in Et. unfold len in *. rewrite Et in Ha. cbn in Ha. lia. }
  rewrite i64_small by lia. replace (GetHeight a >? len (blocks c) - 1) with false by lia.
  destruct ((GetHeight a =? len (blocks c) - 1) && _) eqn:Ex.
  - left. apply andb_prop in Ex as [Ex _]. apply Z.eqb_eq in Ex.
    split; [apply take_ge; unfold len in *; lia|by apply (extend_reached c a)].
  - right. by apply switch_reached.
Qed.

Lemma canonical_height c a : len (blocks c) < 2 ^ 63 -> canonical c a -> 0 <= GetHeight a < 2 ^ 63.
Proof. intros Hn (H0 & a' & Hat & _). pose proof (block_at_bound c _ _ Hat). lia. Qed.

Lemma canonical_nonempty c a : canonical c a -> blocks c <> [].
Proof.
  intros (H0 & a' & Hat & _) E. pose proof (block_at_bound c _ _ Hat) as Hb.
  unfold len in Hb. rewrite E in Hb. cbn in Hb. lia.
Qed.

Lemma reorganize_runs c a t l st :
  rewrites -> len (blocks c) < 2 ^ 63 -> canonical c a -> branch c a t l ->
  Forall (sealed c) l -> recomputed c (below c a ++ l) = (st, Ok tt) ->
  exists c', reorganizeChainLocked a t c = Val (c', Ok tt).
Proof.
  intros Hw Hn Hcan Hbr Hs Er.
  destruct (reorganize_paths c a t l Hn Hcan Hbr Hs) as [[Hall ->]| ->].
  - rewrite Hall in Er. by apply (extend_runs c t l st).
  - apply (switch_runs c a t l st Hw (canonical_height c a Hn Hcan)); [|done].
    by apply (canonical_nonempty c a).
Qed.

Lemma failed_audit c c1 l st e :
  core c1 = with_blocks c l -> recomputed c l = (st, Err e) ->
  AuditChain (set_state st c1) <> Ok tt.
Proof.
  intros Ec Er Ha. apply audit_iff in Ha as [_ Ha].
  change (recomputed c1 (blocks c1) = (st, Ok tt)) in Ha.
  rewrite (core_recomputed c c1 l Ec), Er in Ha. by injection Ha.
Qed.

Lemma reorganize_breaks c a t l st e :
  len (blocks c) < 2 ^ 63 -> canonical c a -> branch c a t l ->
  Forall (sealed c) l -> recomputed c (below c a ++ l) = (st, Err e) ->
  exists c' e', reorganizeChainLocked a t c = Val (c', Err e') /\
    blocks c' = below c a ++ l /\ AuditChain c' <> Ok tt.
Proof.
  intros Hn Hcan Hbr Hs Er.
  destruct (reorganize_paths c a t l Hn Hcan Hbr Hs) as [[Hall ->]| ->].
  - rewrite Hall in Er. destruct (extend_fails c t l st e Er) as [e' ->]. eexists _, _.
    split_and!; [done| |exact (failed_audit c _ _ st e (extended_core c l) Er)].
    rewrite Hall. exact (with_blocks_blocks _ _ _ (extended_core c l)).
  - destruct (switch_fails c a t l st e (canonical_height c a Hn Hcan) Er) as [e' ->].
    eexists _, _.
    split_and!; [done| |exact (failed_audit c _ _ st e (switched_core c a l) Er)].
    exact (with_blocks_blocks _ _ _ (switched_core c a l)).
Qed.

(** ** A reorganization that is tried has more work *)

(** The maps by hash file every block under its own hash, and the parent of a known block is
    the block its header names, one height below. *)
Record indexed c : Prop := {
  ix_blocks : forall h b, blocksByHash c !! h = Some b -> hexhash b = h;
  ix_forks : forall h b, forkBlocksByHash c !! h = Some b -> hexhash b = h;
  ix_parent : forall b p, known c b -> find_parent b c = Some p ->
                GetHeight b = GetHeight p + 1 /\ GetHeight b <= max_u64 /\
                h_PrevHash (b_Header b) = b_Hash p
}.

Lemma find_parent_hash c b p : indexed c -> find_parent b c = Some p -> hexhash p = hexprev b.
Proof.
  intros Hi. unfold find_parent. destruct (blocksByHash c !! hexprev b) as [q|] eqn:E.
  - intros [= <-]. by apply (ix_blocks c Hi).
  - by intros [_ ?]%find_hash_some.
Qed.

Lemma branch_content c a (x y : BlockRef) l :
  branch c a x l -> ref_blk x = ref_blk y ->
  exists l', branch c a y l' /\ map ref_blk l' = map ref_blk l.
Proof.
  intros [b Hb|b p l0 Hp Hbr Hh Hm Hprev] E.
  - exists []. split; [constructor; congruence|done].
  - exists (l0 ++ [y]). rewrite !map_app. cbn. rewrite E. split; [|done].
    apply branch_step with p; [|done|by rewrite <- E..].
    unfold find_parent in *. by rewrite <- E.
Qed.

Lemma work_content (l1 l2 : list BlockRef) :
  map ref_blk l1 = map ref_blk l2 -> calculateChainWorkLocked l1 = calculateChainWorkLocked l2.
Proof.
  revert l2. induction l1 as [|b l1 IH]; intros [|b2 l2]; cbn [map]; try done.
  intros [= E1 E2]. by rewrite !chain_work_cons, E1, (IH l2).
Qed.

Lemma block_work_nonneg (b : Block) : 0 <= block_work b.
Proof. unfold block_work, WorkForDifficultyBits. case_match; [done|]. apply u64_range. Qed.

Lemma chain_work_nonneg (l : list BlockRef) : 0 <= calculateChainWorkLocked l.
Proof.
  induction l as [|b l IH]; [done|]. rewrite chain_work_cons. pose proof (block_work_nonneg b). lia.
Qed.

(** The segment whose work is compared is part of the branch. *)
Lemma segment_work c a fuel : known_ok c -> indexed c -> forall (t : BlockRef) l total w,
  branch c a t l -> segment_walk fuel (GetHeight a) t total c = Val w ->
  w <= total + calculateChainWorkLocked l.
Proof.
  intros Hk Hi. induction fuel as [|fuel IH]; intros t l total w Hbr E; cbn [segment_walk] in E;
    (destruct Hbr as [b Hb|b p l Hp Hbr Hh Hm Hprev];
      [rewrite Hb, Z.gtb_ltb, Z.ltb_irrefl in E; injection E as <-;
       change (calculateChainWorkLocked []) with 0; lia|]);
    rewrite chain_work_app, chain_work_cons; change (calculateChainWorkLocked []) with 0;
    pose proof (chain_work_nonneg l); pose proof (branch_height c a p l Hbr) as Hph;
    unfold len in Hph; replace (GetHeight b >? GetHeight a) with true in E by lia;
    (destruct (lookupBlockInForkBlocksLocked (hexprev b) c) as [q|] eqn:Eq;
      [|injection E as <-; lia]); [done|].
  assert (Hq : ref_blk p = ref_blk q).
  { apply (hexhash_inj c); [done|exact (find_parent_known c b p Hp)|left; eauto|].
    rewrite (find_parent_hash c b p Hi Hp). symmetry. by apply (ix_forks c Hi). }
  destruct (branch_content c a p q l Hbr Hq) as (l' & Hbr' & Hl').
  rewrite <- (work_content _ _ Hl'). specialize (IH q l' _ w Hbr' E). lia.
Qed.

Lemma fork_point_branch c fuel : known_ok c -> indexed c -> forall (t a : BlockRef),
  known c t -> fork_point fuel t c = Val (Some a) -> exists l, branch c a t l /\ canonical c a.
Proof.
  intros Hk Hi.
  assert (Hstop : forall t a : BlockRef, known c t -> blocksByHash c !! hexprev t = Some a ->
            isCanonicalLocked a c = true -> exists l, branch c a t l /\ canonical c a).
  { intros t a Ht Ha Hcan.
    assert (Hf : find_parent t c = Some a) by (unfold find_parent; by rewrite Ha).
    destruct (ix_parent c Hi t a Ht Hf) as (? & ? & ?). exists ([] ++ [t]). split.
    { apply branch_step with a; [done|by constructor|done..]. }
    assert (Hka : known c a) by exact (find_parent_known c t a Hf).
    split; [by apply (ko_height c Hk)|]. unfold isCanonicalLocked in Hcan.
    destruct (block_at (GetHeight a) c) as [a'|] eqn:Eat; [|done]. exists a'. split; [done|].
    apply (ko_unique c Hk); [|done|by apply bytes_eqb_spec].
    right. right. left. exact (block_at_elem _ _ _ Eat). }
  induction fuel as [|fuel IH]; intros t a Ht E; cbn [fork_point] in E.
  - destruct (blocksByHash c !! hexprev t) as [p|] eqn:Ep; [destruct (isCanonicalLocked p c) eqn:Ec|];
      [injection E as ->; by apply Hstop|..]; by destruct (find_hash _ _).
  - assert (Hdown : match find_hash (hexprev t) (fork_blocks_at (u64 (GetHeight t - 1)) c) with
                    | None => Val None
                    | Some parent => fork_point fuel parent c
                    end = Val (Some a) -> exists l, branch c a t l /\ canonical c a).
    { intros E'. destruct (find_hash _ _) as [q|] eqn:Eq; [|done].
      apply find_hash_some in Eq as Hq. destruct Hq as [Hin Hqh]. apply fork_at_known in Hin.
      destruct (IH q a Hin E') as (l & Hbr & Hcan).
      assert (exists p, find_parent t c = Some p) as [p Hp]
        by (unfold find_parent; destruct (blocksByHash c !! hexprev t); eauto).
      destruct (ix_parent c Hi t p Ht Hp) as (? & ? & ?).
      destruct (branch_content c a q p l Hbr) as (l' & Hbr' & _).
      { apply (hexhash_inj c); [done|done|exact (find_parent_known c t p Hp)|].
        by rewrite (find_parent_hash c t p Hi Hp). }
      exists (l' ++ [t]). split; [|done]. by apply branch_step with p. }
    destruct (blocksByHash c !! hexprev t) as [p|] eqn:Ep; [destruct (isCanonicalLocked p c) eqn:Ec|];
      [injection E as ->; by apply Hstop|exact (Hdown E)..].
Qed.

Lemma try_reorganize_spec c (t : BlockRef) c' :
  known_ok c -> indexed c -> consistent c -> len (blocks c) < 2 ^ 63 -> known c t ->
  tryReorganizeLocked t c = Val (c', Ok tt) ->
  c' = c \/ (consistent c' /\ canonicalWork c < canonicalWork c').
Proof.
  intros Hk Hi Hcs Hn Ht E. unfold tryReorganizeLocked in E. inv_run_step.
  apply bind_val in E as (c1 & anc & Ef & E). apply lift_res_val in Ef as [-> Ef].
  destruct anc as [a|]; [|inv_run; by left].
  apply bind_val in E as (c2 & w & Es & E). apply lift_res_val in Es as [-> Es].
  destruct (w <=? _) eqn:Ew; [inv_run; by left|]. apply Z.leb_gt in Ew. right.
  destruct (fork_point_branch c _ Hk Hi t a Ht Ef) as (l & Hbr & Hcan).
  destruct (reorganize_spec c a t l c' Hcs Hn Hcan Hbr E) as (Hcs' & Hb & _).
  split; [done|]. rewrite (cs_work c Hcs), (cs_work c' Hcs'), Hb, chain_work_app.
  pose proof (segment_work c a _ Hk Hi t l 0 w Hbr Es).
  pose proof (canonical_height c a Hn Hcan).
  unfold calculateCanonicalWorkFromHeightLocked in Ew. rewrite u64_small in Ew by (unfold_u64; lia).
  rewrite <- (take_drop (Z.to_nat (GetHeight a + 1)) (blocks c)) at 1. rewrite chain_work_app.
  fold (below c a). lia.
Qed.

(** ** Rollback *)
Lemma unindex_tx_core h c jtx : core (unindex_tx h c jtx) = core c.
Proof. destruct jtx. unfold unindex_tx. by case_match. Qed.

Lemma unindex_block_core c ib : core (unindex_block c ib) = core c.
Proof. destruct ib as [i b]. unfold unindex_block. rewrite foldl_core; [done|]. intros. apply unindex_tx_core. Qed.

Lemma drop_fork_heights_core h c : core (drop_fork_heights h c) = core c.
Proof. done. Qed.

Lemma init_core c tip : last (blocks c) = Some tip ->
  core (initCanonicalIndexesLocked range_blocks c)
  = (blocks c, state c, hexhash tip, calculateChainWorkLocked (blocks c),
     (consensus c, monetaryPolicy c, genesisAddress c)).
Proof.
  intros Ht. unfold initCanonicalIndexesLocked. set (c1 := foldl _ c _).
  assert (E1 : core c1 = core c) by (apply foldl_core; intros; apply addToIndex_core).
  rewrite (core_blocks _ _ E1), Ht. set (c2 := set_bestTipHash _ c1).
  pose proof (reindexAddr_core (reindexAllTxsLocked c2)) as E3. rewrite reindexTxs_core in E3.
  unfold core in E1, E3 |- *. injection E1 as F1 F2 F3 F4 F5 F6 F7.
  injection E3 as G1 G2 G3 G4 G5 G6 G7. cbn in G1, G2, G3, G4, G5, G6, G7 |- *.
  by rewrite G1, G2, G3, G5, G6, G7, F1, F2, F5, F6, F7.
Qed.

(** The chain cut down, before its state is recomputed. *)
Definition rolled c (h : Z) : Chain S :=
  let removed := imap (fun k b => (h + 1 + Z.of_nat k, b)) (drop (Z.to_nat (h + 1)) (blocks c)) in
  let c0 := foldl unindex_block c (rev removed) in
  let c1 := initCanonicalIndexesLocked range_blocks
              (invalidateWorkCache (set_blocks (take (Z.to_nat (h + 1)) (blocks c0)) c0)) in
  let c2 := cleanOrphanPoolAboveHeight h (drop_fork_heights h c1) in
  set_canonicalWork (calculateChainWorkLocked (blocks c2)) c2.

Lemma rolled_core c h pre tip :
  pre = take (Z.to_nat (h + 1)) (blocks c) -> last pre = Some tip ->
  core (rolled c h) = (pre, state c, hexhash tip, calculateChainWorkLocked pre,
                       (consensus c, monetaryPolicy c, genesisAddress c)).
Proof.
  intros Hpre Ht. unfold rolled. set (c0 := foldl unindex_block c _).
  assert (E0 : core c0 = core c) by (apply foldl_core; intros; apply unindex_block_core).
  rewrite (core_blocks _ _ E0), <- Hpre. clearbody c0.
  set (c1 := cleanOrphanPoolAboveHeight _ _).
  assert (E1 : core c1 = (pre, state c, hexhash tip, calculateChainWorkLocked pre,
                          (consensus c, monetaryPolicy c, genesisAddress c))).
  { unfold c1. rewrite clean_orphans_core, drop_fork_heights_core.
    rewrite (init_core (invalidateWorkCache (set_blocks pre c0)) tip Ht). cbn.
    unfold core in E0. by injection E0 as _ -> _ _ -> -> ->. }
  clearbody c1. unfold core in E1 |- *. injection E1 as F1 F2 F3 F4 F5 F6 F7. cbn.
  by rewrite F1, F2, F3, F5, F6, F7.
Qed.

Lemma rollback_head c h :
  0 <= h < len (blocks c) - 1 ->
  RollbackToHeight h c =
  (wrapM "recompute state after rollback" (recomputeStateLocked ed25519_verify) ;;??
   let* c1 := get in
   let* _ := store_op (RewriteCanonical (map (deref c1) (blocks c1))) in
   emit (EvForkResolved h (len (blocks c) - 1 - h)) ;;*
   match (last (blocks c1) : option BlockRef) with
   | None => halt_with (Panic "index out of range")
   | Some tip => emit (EvReorganized tip) ;;* ret (Ok tt)
   end) (rolled c h).
Proof.
  intros Hh. unfold RollbackToHeight. rewrite bind_get.
  replace (h >=? len (blocks c)) with false by lia.
  replace (h =? len (blocks c) - 1) with false by lia.
  rewrite !bind_modify. reflexivity.
Qed.

Lemma take_last_some (l : list BlockRef) (h : Z) :
  0 <= h < len l -> exists tip, last (take (Z.to_nat (h + 1)) l) = Some tip.
Proof.
  intros Hh. unfold len in Hh.
  replace (Z.to_nat (h + 1)) with (Datatypes.S (Z.to_nat h)) by lia.
  destruct (lookup_lt_is_Some_2 l (Z.to_nat h)) as [tip E]; [lia|].
  exists tip. by rewrite (take_S_r _ _ _ E), last_snoc.
Qed.

Lemma rollback_spec c h :
  consistent c -> 0 <= h < len (blocks c) ->
  exists c', RollbackToHeight h c = Val (c', Ok tt) /\ consistent c' /\
    blocks c' = take (Z.to_nat (h + 1)) (blocks c).
Proof.
  intros Hcs Hh. destruct (Z.eqb_spec h (len (blocks c) - 1)) as [->|Hne].
  { exists c. unfold RollbackToHeight. rewrite bind_get, Z.eqb_refl.
    replace (_ >=? len (blocks c)) with false by lia.
    split_and!; [done|done|]. rewrite take_ge; [done|unfold len; lia]. }
  rewrite rollback_head by lia.
  set (pre := take (Z.to_nat (h + 1)) (blocks c)).
  destruct (take_last_some (blocks c) h Hh) as [tip Elast]. fold pre in Elast.
  pose proof (rolled_core c h pre tip eq_refl Elast) as E1.
  pose proof (cs_audit c Hcs) as Ha. apply audit_iff in Ha as [Hlk Hr].
  assert (exists st, recomputed c pre = (st, Ok tt)) as [st Er].
  { rewrite <- (take_drop (Z.to_nat (h + 1)) (blocks c)) in Hr.
    exact (recomputed_prefix c pre _ _ Hr). }
  generalize dependent (rolled c h). intros c2 E1.
  assert (Hb : blocks c2 = pre) by (unfold core in E1; by injection E1).
  assert (Er2 : recomputed c2 (blocks c2) = (st, Ok tt)).
  { unfold core in E1. injection E1 as F1 F2 F3 F4 F5 F6 F7.
    unfold recomputed in *. by rewrite F1, F5, F6, F7. }
  rewrite (try_run _ _ _ _ _ (wrapM_run _ _ _ _ _ (recompute_run _ _ _ Er2))), bind_get.
  match goal with |- exists _, bind (store_op ?f) _ ?x = _ /\ _ =>
    destruct (store_op_run f x) as [s Es] end.
  rewrite (bind_run _ _ _ _ _ Es).
  change (blocks (set_state st c2)) with (blocks c2). rewrite Hb, Elast. unfold emit.
  rewrite !bind_modify. eexists. split; [reflexivity|].
  match goal with |- consistent ?x /\ _ =>
    assert (E3 : core x = (pre, st, hexhash tip, calculateChainWorkLocked pre,
                          (consensus c, monetaryPolicy c, genesisAddress c))) end.
  { unfold core in E1 |- *. injection E1 as F1 F2 F3 F4 F5 F6 F7. cbn.
    by rewrite F1, F3, F4, F5, F6, F7. }
  split; [|by injection E3].
  apply (consistent_from c pre tip st _ _) in E3; [done| |by rewrite Elast|done..].
  apply chain_linked_take; [lia|done].
Qed.

(** The chain can be executed on the well-linkedness of its indexes. *)
Definition parent_ok c (b : BlockRef) : Prop :=
  match find_parent b c with
  | None => True
  | Some p => GetHeight b = GetHeight p + 1 /\ GetHeight b <= max_u64 /\
              h_PrevHash (b_Header b) = b_Hash p
  end.

#[export] Instance parent_ok_dec c b : Decision (parent_ok c b).
Proof. unfold parent_ok. destruct (find_parent b c); apply _. Defined.

Lemma indexed_check c :
  Forall (fun x : string * BlockRef => hexhash x.2 = x.1) (map_to_list (blocksByHash c)) ->
  Forall (fun x : string * BlockRef => hexhash x.2 = x.1) (map_to_list (forkBlocksByHash c)) ->
  Forall (parent_ok c) (known_list c) -> indexed c.
Proof.
  rewrite !Forall_forall. intros H1 H2 H3. split.
  - intros h b Hb. apply (H1 (h, b)). by apply elem_of_map_to_list.
  - intros h b Hb. apply (H2 (h, b)). by apply elem_of_map_to_list.
  - intros b p Hk Hp. specialize (H3 b (proj1 (known_listed c b) Hk)).
    unfold parent_ok in H3. by rewrite Hp in H3.
Qed.
End reorg.

(** * Properties *)
Section properties.
Context {S : Type} `{ChainStore S}.
Variable ed25519_verify : list Z -> list Z -> list Z -> bool.
Variable seal_valid : PowHeader -> bool.
Variable network_now now : Z.
Variable range_blocks : Blocks -> list (string * BlockRef).
Variable range_forks : Forks -> list (Z * list BlockRef).
Variable range_accounts : State -> list (string * Account).
Variable grow : nat -> nat.

Abbreviation connect := (connectBlockLocked ed25519_verify seal_valid network_now range_blocks
                           range_accounts).
Abbreviation reorganize := (reorganizeChainLocked ed25519_verify seal_valid now range_blocks
                              range_forks grow).

(** Connecting a block keeps the chain consistent: from a chain that passes its audit and
    whose work and tip are those of its blocks, [connectBlockLocked] of a block on the tip
    leads to such a chain again, longer by that block and heavier by its work. *)
Theorem connect_block_consistent (b tip : BlockRef) (c c' : Chain S)
  (Hcs : consistent ed25519_verify c) (Ht : last (blocks c) = Some tip)
  (Hp : blocksByHash c !! hexprev b = Some tip) (Hh : GetHeight b <> 0)
  (E : connect b c = Val (c', Ok tt)) :
  consistent ed25519_verify c' /\ blocks c' = blocks c ++ [b] /\
  canonicalWork c' = canonicalWork c + block_work b.
Proof. eapply connect_spec; eassumption. Qed.

(** C10. A reorganization that succeeds leads from a consistent chain to a consistent chain: the
    blocks up to the ancestor stay, the branch follows them, state, work and tip are
    those of the new blocks, and unless the branch extends the tip every block of it
    has a proof-of-work seal that was checked. *)
Theorem reorganize_consistent (c c' : Chain S) (a t : BlockRef) (l : list BlockRef)
  (Hcs : consistent ed25519_verify c) (Hn : len (blocks c) < 2 ^ 63) (Ha : canonical c a)
  (Hbr : branch c a t l) (E : reorganize a t c = Val (c', Ok tt)) :
  consistent ed25519_verify c' /\ blocks c' = below c a ++ l /\
  (below c a = blocks c \/ Forall (sealed seal_valid c) l).
Proof. eapply reorganize_spec; eassumption. Qed.

(** C11. A valid branch is always adopted: when the seals of the branch hold, its blocks apply
    to the state of the ancestor and the store takes the new chain, [reorganizeChainLocked]
    returns without error, without a panic and within its bound of steps. *)
Theorem reorganize_succeeds (c : Chain S) (a t : BlockRef) (l : list BlockRef) (st : State)
  (Hw : rewrites) (Hn : len (blocks c) < 2 ^ 63) (Ha : canonical c a) (Hbr : branch c a t l)
  (Hs : Forall (sealed seal_valid c) l)
  (Hst : recomputeState ed25519_verify (consensus c) (monetaryPolicy c) (genesisAddress c)
           (map ref_blk (below c a ++ l)) = (st, Ok tt)) :
  exists c', reorganize a t c = Val (c', Ok tt).
Proof. eapply reorganize_runs; eassumption. Qed.

(** C40. A branch with a block that does not apply breaks the chain: [reorganizeChainLocked]
    reports the error, but the canonical blocks are already the ones of the branch, and the
    chain no longer passes its audit. *)
Theorem reorganize_failure_keeps_branch (c : Chain S) (a t : BlockRef) (l : list BlockRef)
  (st : State) (e : error) (Hn : len (blocks c) < 2 ^ 63) (Ha : canonical c a)
  (Hbr : branch c a t l) (Hs : Forall (sealed seal_valid c) l)
  (Hst : recomputeState ed25519_verify (consensus c) (monetaryPolicy c) (genesisAddress c)
           (map ref_blk (below c a ++ l)) = (st, Err e)) :
  exists c' e', reorganize a t c = Val (c', Err e') /\ blocks c' = below c a ++ l /\
    AuditChain ed25519_verify c' <> Ok tt.
Proof. eapply reorganize_breaks; eassumption. Qed.

(** C12. Trying a fork never lowers the work of the chain: when [tryReorganizeLocked] returns
    without error, either nothing changed, or the chain is consistent and strictly heavier. *)
Theorem try_reorganize_heavier (c c' : Chain S) (t : BlockRef)
  (Hk : known_ok c) (Hi : indexed c) (Hcs : consistent ed25519_verify c)
  (Hn : len (blocks c) < 2 ^ 63) (Ht : known c t)
  (E : tryReorganizeLocked ed25519_verify seal_valid now range_blocks range_forks grow t c
       = Val (c', Ok tt)) :
  c' = c \/ (consistent ed25519_verify c' /\ canonicalWork c < canonicalWork c').
Proof. eapply try_reorganize_spec; eassumption. Qed.

(** C13. Rolling back a consistent chain to one of its heights always succeeds, whatever the
    store answers, and leaves the consistent chain of the blocks up to that height. *)
Theorem rollback_consistent (c : Chain S) (h : Z)
  (Hcs : consistent ed25519_verify c) (Hh : 0 <= h < len (blocks c)) :
  exists c', RollbackToHeight ed25519_verify range_blocks grow h c = Val (c', Ok tt) /\
    consistent ed25519_verify c' /\ blocks c' = take (Z.to_nat (h + 1)) (blocks c).
Proof. eapply rollback_spec; eassumption. Qed.

(** The audit decides exactly that the blocks are linked from a genesis block at height 0
    by height, previous hash and leading coinbase, and that the state is the one the blocks
    produce. *)
Theorem audit_exact (c : Chain S) :
  AuditChain ed25519_verify c = Ok tt <->
  chain_linked (blocks c) /\
  recomputeState ed25519_verify (consensus c) (monetaryPolicy c) (genesisAddress c)
    (map ref_blk (blocks c)) = (state c, Ok tt).
Proof. apply audit_iff. Qed.

End properties.
