(* ===== verification/AddBlock.v ===== *)
(** * Adding a block

    [blockchain/core/chain.go]: [AddBlock], the entry point of blocks from peers, the miner and
    the API, with its three outcomes [addCanonicalBlockLocked], [addForkBlockLocked] and
    [addOrphanBlockLocked], the reconnection of orphans that a new block sets off
    ([processOrphanDescendantsLocked], [addBlockReconnectLocked], [tryProcessOrphansLocked]),
    the blocks loaded at start-up ([processLoadedOrphansLocked]), and [SetTip].

    Reconnecting orphans is recursive: adding an orphan adds the orphans below it.  Every
    level has taken one orphan out of the pool before it goes down, so the depth is bounded
    by the pool, which is the fuel [AddBlock] starts with.  The loop over the children of a
    block ranges over a slice of the orphan index that the removals inside the loop shift
    in place; the model keeps the arrays behind the slices for that reason. *)

From S2P Require Import Prelude Bytes Sha256 Config Merkle Json Transaction Ledger Float Difficulty FeeChecker Mempool Chain ForkChoice Reorg.
From stdpp Require Import base list gmap strings numbers sorting.
From Stdlib Require Import ZArith Lia.

Open Scope Z_scope.
Open Scope go_scope.
Open Scope chain_scope.

Create HintDb shrink.

Section add_block.
Context {S : Type} `{ChainStore S}.
Variable ed25519_verify : list Z -> list Z -> list Z -> bool.
Variable seal_valid : PowHeader -> bool.
Variable now : Z.
Variable range_blocks : Blocks -> list (string * BlockRef).
Variable range_forks : Forks -> list (Z * list BlockRef).
Variable range_times : gmap string Z -> list (string * Z).
Variable range_cache : gmap string Z -> list (string * Z).
Variable grow : nat -> nat.
(** The capacity of a byte slice, which bounds [s[:8]]; it is at least the length. *)
Variable capacity : list Z -> Z.

Implicit Types c : Chain S.
Implicit Types b : BlockRef.

Abbreviation findBest := (findBestChainTipLocked range_forks range_cache).
Abbreviation autoReorg := (autoReorgIfNeededLocked ed25519_verify seal_valid now range_blocks
                             range_forks range_cache grow).
Abbreviation debouncedAutoReorg := (debouncedAutoReorgLocked ed25519_verify seal_valid now
                                      range_blocks range_forks range_cache grow).
Abbreviation reorganizeToHeaviest := (reorganizeToHeaviestLocked ed25519_verify seal_valid now
                                        range_blocks range_forks range_cache grow).

(** A log line that prints [s[:8]] of a byte slice. *)
Definition log_bytes8 (s : list Z) : M (Chain S) unit :=
  if Z.max (len s) (capacity s) <? 8 then halt_with (Panic "slice bounds out of range") else ret tt.

(** ** Consensus checks *)
Definition blockVersionForHeight (height : Z) c : Z :=
  if MerkleEnable (consensus c) && (height >=? MerkleActivationHeight (consensus c)) then 2 else 1.

Definition validateBlockConsensusLocked (b : Block) c : result unit :=
  match b_Transactions b with
  | [] => Err "block must contain at least one transaction"
  | cb :: _ =>
      fail_if (negb (is_type cb TxCoinbase)) "first transaction must be coinbase" ;;?
      fail_if (len (b_Hash b) =? 0) "missing block hash" ;;?
      fail_if (h_DifficultyBits (b_Header b) =? 0) "invalid difficulty bits" ;;?
      fail_if (negb (h_Version (b_Header b) =? blockVersionForHeight (GetHeight b) c))
        "invalid block version" ;;?
      fail_if (existsb (fun tx => negb (tx_ChainID tx =? chainID c)) (b_Transactions b))
        "transaction has wrong chainId"
  end.

(** ** The fork store, as [addForkBlockLocked] limits it *)
Definition trim_height (height : Z) c : Chain S :=
  let bs := fork_blocks_at height c in
  if len bs >? MaxForkBlocksPerHeight then
    let k := Z.to_nat (len bs - MaxForkBlocksPerHeight) in
    let c1 := drop_fork_hashes (take k bs) c in
    set_forkBlocks (<[height := drop k bs]> (forkBlocks c1)) c1
  else c.

(** Whole heights, lowest first, until three quarters of the limit are left. *)
Fixpoint trim_whole (hs : list Z) (total : Z) c : Chain S :=
  match hs with
  | [] => c
  | h :: hs' =>
      if total <=? MaxForkBlocksTotal * 3 / 4 then c
      else
        let bs := fork_blocks_at h c in
        let c1 := drop_fork_hashes bs c in
        trim_whole hs' (total - len bs) (set_forkBlocks (delete h (forkBlocks c1)) c1)
  end.

Definition trim_total c : Chain S :=
  let total := total_forks c in
  if total >? MaxForkBlocksTotal then trim_whole (fork_heights c) total c else c.

Definition store_fork (b : BlockRef) (hashHex : string) c : Chain S :=
  let height := GetHeight b in
  let c1 := set_forkBlocks (<[height := fork_blocks_at height c ++ [b]]> (forkBlocks c)) c in
  let c2 := set_blocksByHash (<[hashHex := b]> (blocksByHash c1))
              (set_forkBlocksByHash (<[hashHex := b]> (forkBlocksByHash c1)) c1) in
  trim_total (trim_height height c2).

(** The seal is checked when the parent is known. *)
Definition check_fork_seal (b : BlockRef) (hashHex : string) : M (Chain S) (result unit) :=
  let* c := get in
  if (GetHeight b >? 0) && (len (h_PrevHash (b_Header b)) >? 0) then
    log_prefix 16 hashHex ;;*
    match (find_parent b c : option BlockRef) with
    | None => ret (Ok tt)
    | Some parent => ret (wrap "fork block PoW verification failed"
                            (verifyBlockPoWSeal seal_valid b (Some (ref_blk parent))))
    end
  else ret (Ok tt).

Definition parent_missing (b : BlockRef) c : bool :=
  match (blocksByHash c !! hexprev b : option BlockRef) with
  | Some _ => false
  | None => negb (isParentInForkBlocksLocked (hexprev b) c)
  end.

(** [if] the parent is missing, ask for it. *)
Definition ask_if_missing (b : BlockRef) : M (Chain S) bool :=
  let* c := get in
  let missing := parent_missing b c in
  (if missing then request_parent now b else ret tt) ;;*
  ret missing.

(** ** Adding to the canonical chain, to the fork store, to the orphan pool

    [descend] is [processOrphanDescendantsLocked]. *)
Section descend.
Variable descend : string -> M (Chain S) unit.

Definition undo_append (hashHex : string) c : Chain S :=
  set_blocksByHash (delete hashHex (blocksByHash c)) (set_blocks (removelast (blocks c)) c).

Definition addCanonicalBlockLocked (b : BlockRef) (hashHex : string) : M (Chain S) (result bool) :=
  let* c := get in
  let height := len (blocks c) in
  modify (fun c => set_blocks (blocks c ++ [b]) c) ;;*
  modify (updateIndexesForBlock b height) ;;*
  modify (index_in_store b) ;;*
  modify (fun c => set_canonicalWork (canonicalWork c + block_work b) c) ;;*
  modify (fun c => set_total_work b (canonicalWork c) c) ;;*
  let* c := get in
  let* stored := store_op (AppendCanonical (deref c b)) in
  match stored with
  | Err e => modify (undo_append hashHex) ;;* ret (wrap "persist block" (Err e))
  | Ok _ =>
      let* applied := apply_to_state ed25519_verify b in
      match applied with
      | Err e => modify (undo_append hashHex) ;;* ret (wrap "apply block to state" (Err e))
      | Ok _ =>
          modify (remove_confirmed (extractTransactionIDs (b_Transactions b))) ;;*
          log_prefix 16 hashHex ;;*
          emit (EvNewBlock (GetHeight b) hashHex (hexprev b) (h_DifficultyBits (b_Header b))
                  (len (b_Transactions b))) ;;*
          emit (EvBlockAdded b) ;;*
          descend hashHex ;;*
          autoReorg ;;*
          ret (Ok true)
      end
  end.

(** The block is already in the fork store. *)
Definition readd_fork (b : BlockRef) (hashHex : string) : M (Chain S) (result bool) :=
  log_prefix 16 hashHex ;;*
  let* _ := ask_if_missing b in
  let* c := get in
  let* complete := lift_res (isForkChainCompleteLocked b c) in
  (if complete then
     let* better := shouldReorgToHeaviestLocked range_forks range_cache in
     if better then (let* _ := reorganizeToHeaviest in ret tt) else ret tt
   else ret tt) ;;*
  descend hashHex ;;*
  debouncedAutoReorg ;;*
  ret (Ok false).

Definition new_fork (b : BlockRef) (hashHex : string) : M (Chain S) (result bool) :=
  modify (store_fork b hashHex) ;;*
  let* c := get in
  let height := GetHeight b in
  (if (i64 height <? len (blocks c)) && (height >=? len (blocks c))
   then halt_with (Panic "index out of range") else ret tt) ;;*
  log_prefix 16 hashHex ;;*
  let* missing := ask_if_missing b in
  let* c := get in
  let* complete := (if missing then ret false else lift_res (isForkChainCompleteLocked b c)) in
  let* better := (if complete : bool then shouldReorgToHeaviestLocked range_forks range_cache
                  else ret false) in
  if better : bool then
    wrapM "reorg failed" reorganizeToHeaviest ;;??
    ret (Ok true)
  else
    descend hashHex ;;*
    debouncedAutoReorg ;;*
    ret (Ok false).

Definition addForkBlockLocked (b : BlockRef) (hashHex : string) : M (Chain S) (result bool) :=
  check_fork_seal b hashHex ;;??
  let* c := get in
  if existsb (fun x : BlockRef => str_eqb (hexhash x) hashHex) (fork_blocks_at (GetHeight b) c)
  then readd_fork b hashHex
  else new_fork b hashHex.

(** File the block under its hash unless the hash is known. *)
Definition ensure_known (b : BlockRef) (hashHex : string) c : Chain S :=
  match (blocksByHash c !! hashHex : option BlockRef) with
  | Some _ => c
  | None => set_blocksByHash (<[hashHex := b]> (blocksByHash c)) c
  end.

Definition addBlockReconnectLocked (b : BlockRef) (hashHex : string) : M (Chain S) (result bool) :=
  modify (ensure_known b hashHex) ;;*
  let* c := get in
  let height := GetHeight b in
  let expectedHeight := len (blocks c) in
  if height =? expectedHeight then
    match (last (blocks c) : option BlockRef) with
    | Some currentTip => if bytes_eqb (h_PrevHash (b_Header b)) (b_Hash currentTip)
                         then addCanonicalBlockLocked b hashHex
                         else addForkBlockLocked b hashHex
    | None => addForkBlockLocked b hashHex
    end
  else if height =? expectedHeight + 1 then
    match (blocksByHash c !! hexprev b : option BlockRef) with
    | Some _ => addCanonicalBlockLocked b hashHex
    | None => addForkBlockLocked b hashHex
    end
  else addForkBlockLocked b hashHex.

End descend.

(** ** Reconnecting orphans *)
Definition maxCascadeDepth : Z := 500.

Definition requeue (b : BlockRef) (hashHex : string) c : Chain S :=
  append_child grow (hexprev b) hashHex
    (set_orphanTimestamps (<[hashHex := now]> (orphanTimestamps c))
       (set_orphanPool (<[hashHex := b]> (orphanPool c)) c)).

(** The loop of [cascade] over the positions [ps] of a slice: each position is read from the
    array when its turn comes.  [add] reconnects one orphan, [again] is the recursive call;
    the results are the counters [connected] and [totalConnected]. *)
Fixpoint cascade_loop (add : BlockRef -> string -> M (Chain S) (result bool))
  (again : Slice -> Z -> M (Chain S) (Z * Z)) (s : Slice) (ps : list nat) (connected total : Z)
  : M (Chain S) (Z * Z) :=
  match ps with
  | [] => ret (connected, total)
  | i :: ps' =>
      let next := cascade_loop add again s ps' in
      if total + connected >=? maxCascadeDepth then ret (connected, total)
      else
        let* c := get in
        let childHash := nth i (array c (sl_arr s)) ""%string in
        match (orphanPool c !! childHash : option BlockRef) with
        | None => next connected total
        | Some orphanBlock =>
            modify (removeOrphanLocked childHash) ;;*
            let* r := add orphanBlock childHash in
            match r with
            | Err _ => log_prefix 16 childHash ;;* next connected total
            | Ok true =>
                let* c := get in
                match orphanByParent c !! childHash with
                | Some grandchildren =>
                    if (0 <? sl_len grandchildren)%nat then
                      let* (deeper, total') := again grandchildren (total + 1) in
                      next (connected + 1 + deeper) total'
                    else next (connected + 1) (total + 1)
                | None => next (connected + 1) (total + 1)
                end
            | Ok false =>
                log_prefix 16 childHash ;;*
                modify (requeue orphanBlock childHash) ;;*
                next connected total
            end
        end
  end.

(** [processOrphanDescendantsLocked], given the cascade. *)
Definition descendants (casc : Slice -> Z -> M (Chain S) (Z * Z)) (parentHash : string)
  : M (Chain S) unit :=
  let* c := get in
  if negb (orphanReady c) then ret tt
  else match orphanByParent c !! parentHash with
       | None => ret tt
       | Some children =>
           if (sl_len children =? 0)%nat then ret tt
           else
             let* (connected, _) := casc children 0 in
             if connected >? 0 then log_prefix 16 parentHash else ret tt
       end.

(** The recursion [fuel] levels deep, and [bottom] below that. *)
Fixpoint cascade (bottom : Slice -> Z -> M (Chain S) (Z * Z)) (fuel : nat) (s : Slice) (total : Z)
  : M (Chain S) (Z * Z) :=
  match fuel with
  | O => bottom s total
  | Datatypes.S fuel' =>
      cascade_loop (addBlockReconnectLocked (descendants (cascade bottom fuel')))
        (cascade bottom fuel') s (seq 0 (sl_len s)) 0 total
  end.

(** One level more than there are orphans. *)
Definition processOrphanDescendantsLocked (parentHash : string) : M (Chain S) unit :=
  let* c := get in
  descendants (cascade (fun _ _ => halt_with Diverge) (Datatypes.S (size (orphanPool c)))) parentHash.

Abbreviation addCanonical := (addCanonicalBlockLocked processOrphanDescendantsLocked).
Abbreviation addFork := (addForkBlockLocked processOrphanDescendantsLocked).

(** ** The orphan pool *)

(** One round of [tryProcessOrphansLocked]: the orphans in the order of the range, skipping
    the ones removed meanwhile; whether one was found, and whether one was accepted. *)
Fixpoint orphan_round (tipHash : string) (expectedHeight : Z) (l : list (string * BlockRef))
  (found processed : bool) : M (Chain S) (bool * bool) :=
  match l with
  | [] => ret (found, processed)
  | (orphanHash, _) :: l' =>
      let* c := get in
      match (orphanPool c !! orphanHash : option BlockRef) with
      | None => orphan_round tipHash expectedHeight l' found processed
      | Some orphan =>
          if str_eqb (hexprev orphan) tipHash then
            if negb (GetHeight orphan =? expectedHeight)
            then orphan_round tipHash expectedHeight l' found processed
            else
              modify (removeOrphanLocked orphanHash) ;;*
              let* r := addCanonical orphan orphanHash in
              match r with
              | Err _ => orphan_round tipHash expectedHeight l' true processed
              | Ok accepted => ret (true, processed || accepted)
              end
          else if isParentInForkBlocksLocked (hexprev orphan) c then
            modify (removeOrphanLocked orphanHash) ;;*
            let* r := addFork orphan orphanHash in
            match r with
            | Err _ => orphan_round tipHash expectedHeight l' true processed
            | Ok accepted => ret (true, processed || accepted)
            end
          else orphan_round tipHash expectedHeight l' found processed
      end
  end.

Fixpoint orphan_rounds (iterations : nat) (processed : bool) : M (Chain S) bool :=
  match iterations with
  | O => ret processed
  | Datatypes.S iterations' =>
      let* c := get in
      match canonicalTipLocked c with
      | None => ret processed
      | Some tip =>
          let* (found, processed') :=
            orphan_round (hexhash tip) (u64 (GetHeight tip + 1)) (range_blocks (orphanPool c))
              false processed in
          if found : bool then orphan_rounds iterations' processed' else ret processed'
      end
  end.

Definition tryProcessOrphansLocked : M (Chain S) (result bool) :=
  let* c := get in
  if (size (orphanPool c) =? 0)%nat then ret (Ok false)
  else let* processed := orphan_rounds (Datatypes.S (size (orphanPool c))) false in
       ret (Ok processed).

(** The first of the oldest time stamps in the order of the range. *)
Definition oldest (ts : list (string * Z)) : option (string * Z) :=
  foldl (fun acc x => match acc with
                      | None => Some x
                      | Some (_, t) => if snd x <? t then Some x else acc
                      end) None ts.

Definition allocate_orphans c : Chain S :=
  if orphanReady c then c
  else set_orphanReady true (set_orphanPool ∅ (set_orphanByParent ∅ (set_orphanTimestamps ∅ c))).

Definition evict_oldest : M (Chain S) unit :=
  let* c := get in
  if Z.of_nat (size (orphanPool c)) >=? MaxOrphanPoolSize then
    match oldest (range_times (orphanTimestamps c)) with
    | None => ret tt
    | Some (oldestHash, _) =>
        if strlen oldestHash =? 0 then ret tt
        else modify (removeOrphanLocked oldestHash) ;;* log_prefix 16 oldestHash
    end
  else ret tt.

Definition addOrphanBlockLocked (b : BlockRef) (hashHex : string) : M (Chain S) (result bool) :=
  let* c := get in
  match (if orphanReady c then orphanPool c !! hashHex else None : option BlockRef) with
  | Some _ => log_prefix 16 hashHex ;;* ret (Ok false)
  | None =>
      modify allocate_orphans ;;*
      modify (cleanupExpiredOrphansLocked now range_times) ;;*
      evict_oldest ;;*
      modify (requeue b hashHex) ;;*
      log_prefix 16 hashHex ;;*
      log_prefix 16 (hexprev b) ;;*
      let* c := get in
      (if isParentInForkBlocksLocked (hexprev b) c then ret tt
       else match pendingAncestorRequests c !! hexprev b with
            | Some lastReq =>
                if now - lastReq <? parentRequestDedupWindow then ret tt
                else modify (fun c => set_pendingAncestorRequests
                               (<[hexprev b := now]> (pendingAncestorRequests c)) c) ;;*
                     requestMissingParentAsync b
            | None => modify (fun c => set_pendingAncestorRequests
                               (<[hexprev b := now]> (pendingAncestorRequests c)) c) ;;*
                      requestMissingParentAsync b
            end) ;;*
      tryProcessOrphansLocked
  end.

(** ** [AddBlock] *)
Definition wrong_prev (b : BlockRef) c : option BlockRef :=
  match (last (blocks c) : option BlockRef) with
  | None => None
  | Some currentTip => if bytes_eqb (h_PrevHash (b_Header b)) (b_Hash currentTip) then None
                       else Some currentTip
  end.

Definition log_prev (b currentTip : BlockRef) : M (Chain S) unit :=
  log_bytes8 (b_Hash currentTip) ;;* log_bytes8 (h_PrevHash (b_Header b)).

(** The hash is known already. *)
Definition add_known (b : BlockRef) (hashHex : string) : M (Chain S) (result bool) :=
  let* c := get in
  let height := GetHeight b in
  let expectedHeight := len (blocks c) in
  let parentHashHex := hexprev b in
  if height <? expectedHeight then
    if match (block_at height c : option BlockRef) with
       | Some canonicalBlock => str_eqb (hexhash canonicalBlock) hashHex
       | None => false
       end
    then ret (Ok false)
    else
      log_prefix 16 hashHex ;;*
      (if isParentOnActiveChainLocked parentHashHex c || isParentInForkBlocksLocked parentHashHex c
       then log_prefix 16 parentHashHex else ret tt) ;;*
      addFork b hashHex
  else if height =? expectedHeight then
    match wrong_prev b c with
    | Some currentTip => log_prev b currentTip ;;* addFork b hashHex
    | None => log_prefix 16 hashHex ;;* addCanonical b hashHex
    end
  else
    log_prefix 16 hashHex ;;*
    if isParentInForkBlocksLocked parentHashHex c
    then log_prefix 16 parentHashHex ;;* addFork b hashHex
    else addOrphanBlockLocked b hashHex.

(** The hash is new, and the block has just been filed under it. *)
Definition add_new (b : BlockRef) (hashHex : string) : M (Chain S) (result bool) :=
  let* c := get in
  let height := GetHeight b in
  let expectedHeight := len (blocks c) in
  let parentHashHex := hexprev b in
  let onActive := (len (blocks c) >? 0) && isParentOnActiveChainLocked parentHashHex c in
  let inFork := isParentInForkBlocksLocked parentHashHex c in
  if height =? expectedHeight then
    match wrong_prev b c with
    | Some currentTip => log_prev b currentTip ;;* addFork b hashHex
    | None => addCanonical b hashHex
    end
  else if height <? expectedHeight then
    (if onActive || inFork then log_prefix 16 parentHashHex else ret tt) ;;*
    addFork b hashHex
  else if height =? expectedHeight + 1 then
    let parentExists := match (blocksByHash c !! parentHashHex : option BlockRef) with
                        | Some _ => true | None => false end in
    if negb parentExists && negb inFork
    then log_prefix 16 parentHashHex ;;* addOrphanBlockLocked b hashHex
    else if inFork then addFork b hashHex
    else addCanonical b hashHex
  else
    if inFork || onActive then log_prefix 16 parentHashHex ;;* addFork b hashHex
    else addOrphanBlockLocked b hashHex.

Definition AddBlock (b : BlockRef) : M (Chain S) (result bool) :=
  modify (cleanupExpiredOrphansLocked now range_times) ;;*
  let* c := get in
  match validateBlockConsensusLocked b c with
  | Err e => ret (wrap "block consensus validation failed" (Err e))
  | Ok _ =>
      let hashHex := hexhash b in
      match (blocksByHash c !! hashHex : option BlockRef) with
      | Some _ => add_known b hashHex
      | None => modify (ensure_known b hashHex) ;;* add_new b hashHex
      end
  end.

(** ** Blocks loaded at start-up *)
Definition is_canonical_hash (hashHex : string) (b : BlockRef) c : bool :=
  match (block_at (GetHeight b) c : option BlockRef) with
  | Some canonicalBlock => str_eqb (hexhash canonicalBlock) hashHex
  | None => false
  end.

Definition collect_orphans c : Chain S :=
  foldl (fun c '(hashHex, b) => if is_canonical_hash hashHex b c then c else requeue b hashHex c)
    (set_orphanReady true (set_orphanPool ∅ (set_orphanByParent ∅ (set_orphanTimestamps ∅ c))))
    (range_blocks (blocksByHash c)).

Fixpoint loaded_round (tipHash : string) (expectedHeight : Z) (l : list (string * BlockRef))
  : M (Chain S) bool :=
  match l with
  | [] => ret false
  | (orphanHash, _) :: l' =>
      let* c := get in
      match (orphanPool c !! orphanHash : option BlockRef) with
      | None => loaded_round tipHash expectedHeight l'
      | Some orphan =>
          if negb (str_eqb (hexprev orphan) tipHash) then loaded_round tipHash expectedHeight l'
          else if negb (GetHeight orphan =? expectedHeight) then
            modify (removeOrphanLocked orphanHash) ;;* loaded_round tipHash expectedHeight l'
          else
            let* r := addCanonical orphan orphanHash in
            match r with
            | Err _ => modify (removeOrphanLocked orphanHash) ;;*
                       loaded_round tipHash expectedHeight l'
            | Ok true => modify (removeOrphanLocked orphanHash) ;;* ret true
            | Ok false => loaded_round tipHash expectedHeight l'
            end
      end
  end.

Fixpoint loaded_rounds (iterations : nat) : M (Chain S) unit :=
  match iterations with
  | O => ret tt
  | Datatypes.S iterations' =>
      let* c := get in
      if (size (orphanPool c) =? 0)%nat then ret tt
      else match canonicalTipLocked c with
           | None => ret tt
           | Some tip =>
               let* found := loaded_round (hexhash tip) (u64 (GetHeight tip + 1))
                               (range_blocks (orphanPool c)) in
               if found : bool then loaded_rounds iterations' else ret tt
           end
  end.

Definition processLoadedOrphansLocked : M (Chain S) unit :=
  let* c := get in
  if Z.of_nat (size (blocksByHash c)) <=? len (blocks c) then ret tt
  else
    modify collect_orphans ;;*
    let* c := get in
    if (size (orphanPool c) =? 0)%nat then ret tt
    else
      loaded_rounds (2 * size (orphanPool c)) ;;*
      let* c := get in
      if (0 <? size (orphanPool c))%nat
      then modify (fun c => set_orphanReady false (set_orphanByParent ∅ (set_orphanPool ∅ c)))
      else ret tt.

(** ** [SetTip] *)
Fixpoint tip_path (fuel : nat) (current : BlockRef) (path : list BlockRef) (c : Chain S)
  : res (result (list BlockRef)) :=
  if GetHeight current >? 0 then
    let path' := current :: path in
    if match (block_at (GetHeight current) c : option BlockRef) with
       | Some existing => bytes_eqb (b_Hash existing) (b_Hash current)
       | None => false
       end
    then Val (Ok path')
    else match (blocksByHash c !! hexprev current : option BlockRef) with
         | None => Val (Err "parent block not found")
         | Some parent =>
             match fuel with
             | O => Halt Diverge
             | Datatypes.S fuel' => tip_path fuel' parent path' c
             end
         end
  else Val (Ok path).

Definition SetTip (newTip : BlockRef) : M (Chain S) (result unit) :=
  let* c := get in
  let* path := lift_res (tip_path (walk_bound c) newTip [] c) in
  match path with
  | Err e => ret (Err e)
  | Ok pathBlocks =>
      let forkHeight := match pathBlocks with b :: _ => GetHeight b | [] => 0 end in
      let newBlocks :=
        if (len pathBlocks >? 0) && (forkHeight =? 0) then pathBlocks
        else (if forkHeight <? len (blocks c) then take (Z.to_nat forkHeight) (blocks c) else [])
             ++ pathBlocks in
      modify (fun c => set_bestTipHash (hexhash newTip) (set_blocks newBlocks c)) ;;*
      ret (Ok tt)
  end.

(** * Lemmas *)

(** ** Reorganizing never adds an orphan or a fork block *)
Definition shrink c c' : Prop :=
  orphanPool c' ⊆ orphanPool c /\ forkBlocks c' ⊆ forkBlocks c.

#[local] Instance shrink_preorder : PreOrder shrink.
Proof.
  split; [by split|]. intros c1 c2 c3 [H1 H2] [H3 H4].
  split; [by transitivity (orphanPool c2)|by transitivity (forkBlocks c2)].
Qed.

Lemma foldl_shrink {A : Type} (f : Chain S -> A -> Chain S) (l : list A) c :
  (forall c x, shrink c (f c x)) -> shrink c (foldl f c l).
Proof.
  intros Hf. revert c. induction l as [|x l IH]; intros c; cbn; [done|].
  transitivity (f c x); auto.
Qed.

(** Updates of other fields, and the removal of a fork height or of an orphan. *)
Ltac shrinks := solve [by split | split; cbn; [done|apply delete_subseteq]
                      | split; cbn; [apply delete_subseteq|done]].

Lemma update_tx_shrink (b : Block) h c itx : shrink c (update_tx_index b h c itx).
Proof. destruct itx. unfold update_tx_index. case_match; shrinks. Qed.

Lemma updateIndexes_shrink b h c : shrink c (updateIndexesForBlock b h c).
Proof. apply foldl_shrink. intros. apply update_tx_shrink. Qed.

Lemma reindexTxs_shrink c : shrink c (reindexAllTxsLocked c).
Proof.
  unfold reindexAllTxsLocked. transitivity (set_txIndex ∅ c); [shrinks|].
  apply foldl_shrink. intros. shrinks.
Qed.

Lemma reindexAddr_shrink c : shrink c (reindexAllAddressTxsLocked c).
Proof.
  unfold reindexAllAddressTxsLocked. transitivity (set_addressIndex ∅ c); [shrinks|].
  apply foldl_shrink. intros. shrinks.
Qed.

Lemma resetWork_shrink c : shrink c (resetCanonicalWork c).
Proof.
  unfold resetCanonicalWork. transitivity (set_canonicalWork 0 c); [shrinks|].
  apply foldl_shrink. intros. shrinks.
Qed.

Lemma remove_confirmed_shrink ids c : shrink c (remove_confirmed ids c).
Proof. unfold remove_confirmed. repeat case_match; shrinks. Qed.

Lemma drop_hashes_same (bs : list BlockRef) c :
  orphanPool (drop_fork_hashes bs c) = orphanPool c /\
  forkBlocks (drop_fork_hashes bs c) = forkBlocks c.
Proof.
  unfold drop_fork_hashes. revert c. induction bs as [|b bs IH]; intros c; cbn; [done|].
  destruct (IH (drop_fork_hash b c)) as [-> ->]. done.
Qed.

Lemma drop_forks_above_shrink h c : shrink c (drop_forks_above range_forks h c).
Proof.
  apply foldl_shrink. intros c' [k bs]. destruct (drop_hashes_same bs c') as [E1 E2].
  split; [change (orphanPool (drop_fork_hashes bs c') ⊆ orphanPool c'); by rewrite E1|].
  apply delete_subseteq.
Qed.

Lemma append_child_shrink p h c : shrink c (append_child grow p h c).
Proof. unfold append_child. repeat case_match; shrinks. Qed.

Lemma clean_orphans_shrink h c : shrink c (cleanOrphanPoolAboveHeight range_blocks grow h c).
Proof.
  unfold cleanOrphanPoolAboveHeight. set (c1 := foldl _ c _).
  assert (E : shrink c c1) by (apply foldl_shrink; intros c' [k b]; case_match; shrinks).
  case_match; [|done]. transitivity c1; [done|]. unfold rebuildOrphanByParentIndexLocked.
  transitivity (set_orphanByParent ∅ c1); [shrinks|].
  apply foldl_shrink. intros c' [k b]. apply append_child_shrink.
Qed.

Lemma removeOrphanIndex_shrink h p c : shrink c (removeOrphanIndexLocked h p c).
Proof. unfold removeOrphanIndexLocked. repeat case_match; shrinks. Qed.

Lemma removeOrphan_shrink h c : shrink c (removeOrphanLocked h c).
Proof.
  unfold removeOrphanLocked. case_match; [|done].
  etransitivity; [|apply removeOrphanIndex_shrink]. shrinks.
Qed.

(** ** Reorganization moves along [shrink] *)
Ltac moves_step :=
  lazymatch goal with
  | |- forall _, _ => intro
  | |- moves _ (bind get _) => apply (moves_get shrink)
  | |- moves _ (bind _ _) => apply (moves_bind shrink)
  | |- moves _ (try _ _) => apply (moves_try shrink)
  | |- moves _ (wrapM _ _) => apply (moves_wrapM shrink)
  | |- moves _ (ret _) => apply (moves_ret shrink)
  | |- moves _ (halt_with _) => apply (moves_halt shrink)
  | |- moves _ (lift_res _) => apply (moves_lift shrink)
  | |- moves _ (modify _) => apply (moves_modify shrink); intro
  | |- moves _ (if ?x then _ else _) => destruct x
  | |- moves _ (match ?x with _ => _ end) => destruct x
  end.
Ltac moves_tac := repeat (try solve [shrinks | eauto with shrink]; moves_step);
  try solve [shrinks | eauto with shrink].

Lemma log_prefix_moves n s : moves shrink (log_prefix n s : M (Chain S) unit).
Proof. unfold log_prefix. moves_tac. Qed.
Lemma emit_moves e : moves shrink (emit e : M (Chain S) unit).
Proof. unfold emit. moves_tac. Qed.
Lemma store_op_moves {A : Type} (f : S -> S * A) : moves shrink (store_op f).
Proof. intros c c' a E. unfold store_op in E. destruct (f (store c)). injection E as <- _. shrinks. Qed.
Lemma recompute_moves : moves shrink (recomputeStateLocked (S:=S) ed25519_verify).
Proof.
  intros c c' a E. unfold recomputeStateLocked in E. destruct (recomputeState _ _ _ _ _).
  injection E as <- _. shrinks.
Qed.
Lemma apply_moves b : moves shrink (apply_to_state (S:=S) ed25519_verify b).
Proof.
  intros c c' a E. unfold apply_to_state in E. destruct (applyBlockToState _ _ _ _ _ _).
  injection E as <- _. shrinks.
Qed.
#[local] Hint Resolve log_prefix_moves emit_moves store_op_moves recompute_moves apply_moves
  reindexTxs_shrink reindexAddr_shrink resetWork_shrink remove_confirmed_shrink
  drop_forks_above_shrink clean_orphans_shrink removeOrphan_shrink updateIndexes_shrink
  append_child_shrink : shrink.

Lemma request_moves b : moves shrink (request_parent (S:=S) now b).
Proof. unfold request_parent, requestMissingParentAsync. moves_tac. Qed.
Lemma cumulative_moves b : moves shrink (calculateCumulativeWorkLocked (S:=S) range_cache b).
Proof.
  unfold calculateCumulativeWorkLocked, enforceWorkCacheSize. moves_tac.
  case_match; shrinks.
Qed.
#[local] Hint Resolve request_moves cumulative_moves : shrink.

Lemma best_loop_moves ch forks cands : forall best,
  moves shrink (best_loop (S:=S) range_cache ch forks cands best).
Proof.
  induction cands as [|x cands IH]; intros [[t h] v]; cbn [best_loop]; moves_tac; apply IH.
Qed.
#[local] Hint Resolve best_loop_moves : shrink.
Lemma find_best_moves : moves shrink (findBest : M (Chain S) _).
Proof. unfold findBestChainTipLocked. moves_tac. Qed.
#[local] Hint Resolve find_best_moves : shrink.
Lemma should_reorg_moves : moves shrink (shouldReorgToHeaviestLocked (S:=S) range_forks range_cache).
Proof. unfold shouldReorgToHeaviestLocked. moves_tac. Qed.

Lemma extend_moves t l : moves shrink (extend_with ed25519_verify t l).
Proof.
  unfold extend_with. moves_tac. apply foldl_shrink. intros c' b.
  transitivity (append_known b c'); [shrinks|apply updateIndexes_shrink].
Qed.
Lemma switch_moves a t l :
  moves shrink (switch_with ed25519_verify now range_blocks range_forks grow a t l).
Proof. unfold switch_with. moves_tac. apply foldl_shrink. intros c' b. shrinks. Qed.
#[local] Hint Resolve should_reorg_moves extend_moves switch_moves : shrink.

Lemma reorganize_moves a t :
  moves shrink (reorganizeChainLocked ed25519_verify seal_valid now range_blocks range_forks grow a t).
Proof.
  unfold reorganizeChainLocked, extend_chain, switch_chain, defer_or_reject. moves_tac.
Qed.
#[local] Hint Resolve reorganize_moves : shrink.
Lemma heaviest_moves : moves shrink reorganizeToHeaviest.
Proof. unfold reorganizeToHeaviestLocked, reorganizeToLocked. moves_tac. Qed.
Lemma auto_moves : moves shrink autoReorg.
Proof. unfold autoReorgIfNeededLocked. moves_tac. Qed.
#[local] Hint Resolve auto_moves : shrink.
Lemma debounced_moves : moves shrink debouncedAutoReorg.
Proof. unfold debouncedAutoReorgLocked. moves_tac. Qed.

#[local] Hint Resolve heaviest_moves debounced_moves : shrink.

Lemma ensure_known_shrink b h c : shrink c (ensure_known b h c).
Proof. unfold ensure_known. case_match; shrinks. Qed.
Lemma undo_append_shrink h c : shrink c (undo_append h c).
Proof. shrinks. Qed.
Lemma ask_moves b : moves shrink (ask_if_missing b).
Proof. unfold ask_if_missing. moves_tac. Qed.
Lemma check_seal_moves b h : moves shrink (check_fork_seal b h).
Proof. unfold check_fork_seal. moves_tac. Qed.
#[local] Hint Resolve ensure_known_shrink undo_append_shrink ask_moves check_seal_moves : shrink.

(** A step that moves along [shrink] keeps what [HP] keeps. *)
Ltac keeps_leaf P HP :=
  solve [auto | apply (moves_keeps P shrink); [exact HP|];
                (eauto with shrink || (apply (moves_modify shrink); intro; shrinks || eauto with shrink))].
Ltac keeps_with P HP := repeat (try keeps_leaf P HP; keeps_step); try keeps_leaf P HP.

(** ** What the additions keep

    A property that shrinking keeps is kept by every step but the insertion of a fork block
    and the reconnection of orphans. *)
Section kept.
Variable P : Chain S -> Prop.
Hypothesis P_shrink : forall c c', shrink c c' -> P c -> P c'.
Hypothesis P_fork : forall b h c, P c -> P (store_fork b h c).

Ltac keeps_tac := keeps_with P P_shrink.

Section with_descend.
Variable descend : string -> M (Chain S) unit.
Hypothesis Hd : forall h, keeps P (descend h).

Lemma addCanonical_keeps b h : keeps P (addCanonicalBlockLocked descend b h).
Proof. unfold addCanonicalBlockLocked. keeps_tac. Qed.

Lemma addFork_keeps b h : keeps P (addForkBlockLocked descend b h).
Proof.
  unfold addForkBlockLocked, readd_fork, new_fork. keeps_tac.
  apply keeps_modify. intros ? Hc. by apply P_fork.
Qed.

Lemma reconnect_keeps b h : keeps P (addBlockReconnectLocked descend b h).
Proof.
  unfold addBlockReconnectLocked. keeps_tac; by (apply addCanonical_keeps || apply addFork_keeps).
Qed.
End with_descend.

(** Two ways of reconnecting that agree on [P]. *)
Section two_descends.
Variable d1 d2 : string -> M (Chain S) unit.
Hypothesis Hd1 : forall h, keeps P (d1 h).
Hypothesis Hd : forall h, agree P (d1 h) (d2 h).

Ltac agree_step :=
  lazymatch goal with
  | |- forall _, _ => intro
  | |- agree _ (bind get _) (bind get _) => apply agree_get
  | |- agree _ (bind (d1 _) _) (bind (d2 _) _) => apply agree_bind; [apply Hd|apply Hd1|]
  | |- agree _ (bind ?m _) (bind ?m _) => apply agree_after; [keeps_tac|]
  | |- agree _ (try ?m _) (try ?m _) => apply agree_try; [keeps_tac|]
  | |- agree _ ?m ?m => apply agree_refl
  | |- agree _ (if ?x then _ else _) _ => destruct x
  | |- agree _ (match ?x with _ => _ end) _ => destruct x
  end.
Ltac agree_tac := repeat agree_step.

Lemma addCanonical_agree b h :
  agree P (addCanonicalBlockLocked d1 b h) (addCanonicalBlockLocked d2 b h).
Proof. unfold addCanonicalBlockLocked. agree_tac. Qed.

Lemma addFork_agree b h : agree P (addForkBlockLocked d1 b h) (addForkBlockLocked d2 b h).
Proof.
  unfold addForkBlockLocked, readd_fork, new_fork. agree_tac.
  apply keeps_modify. intros ? Hc. by apply P_fork.
Qed.

Lemma reconnect_agree b h :
  agree P (addBlockReconnectLocked d1 b h) (addBlockReconnectLocked d2 b h).
Proof.
  unfold addBlockReconnectLocked. agree_tac; by (apply addCanonical_agree || apply addFork_agree).
Qed.
End two_descends.
End kept.

(** ** The orphan pool never grows while orphans are reconnected *)
Definition pool_le (n : nat) c : Prop := (size (orphanPool c) <= n)%nat.

Lemma pool_shrink n c c' : shrink c c' -> pool_le n c -> pool_le n c'.
Proof. intros [Hp _] Hn. unfold pool_le in *. pose proof (map_subseteq_size _ _ Hp). lia. Qed.

Lemma trim_whole_pool hs : forall total c, orphanPool (trim_whole hs total c) = orphanPool c.
Proof.
  induction hs as [|h hs IH]; intros total c; cbn [trim_whole]; [done|]. case_match; [done|].
  rewrite IH. change (orphanPool (drop_fork_hashes (fork_blocks_at h c) c) = orphanPool c).
  apply drop_hashes_same.
Qed.

Lemma store_fork_pool b h c : orphanPool (store_fork b h c) = orphanPool c.
Proof.
  unfold store_fork, trim_total. set (c2 := set_blocksByHash _ _).
  assert (E : orphanPool (trim_height (GetHeight b) c2) = orphanPool c2).
  { unfold trim_height. case_match; [|done].
    exact (proj1 (drop_hashes_same _ c2)). }
  case_match; [rewrite trim_whole_pool|]; by rewrite E.
Qed.

Lemma pool_fork n b h c : pool_le n c -> pool_le n (store_fork b h c).
Proof. unfold pool_le. by rewrite store_fork_pool. Qed.

Lemma append_child_pool p h c : orphanPool (append_child grow p h c) = orphanPool c.
Proof. unfold append_child. by repeat case_match. Qed.

Lemma removeOrphan_pool h c : orphanPool (removeOrphanLocked h c) = delete h (orphanPool c).
Proof.
  unfold removeOrphanLocked. case_match eqn:E; [|by rewrite delete_id].
  unfold removeOrphanIndexLocked. by repeat case_match.
Qed.

Lemma removed_pool n h b c :
  pool_le n c -> orphanPool c !! h = Some b -> exists m, n = Datatypes.S m /\ pool_le m (removeOrphanLocked h c).
Proof.
  unfold pool_le. rewrite removeOrphan_pool. intros Hn Hb.
  pose proof (map_size_delete_Some h (orphanPool c) (ex_intro _ b Hb)).
  pose proof (map_size_ne_0_lookup_2 (orphanPool c) h (ex_intro _ b Hb)).
  exists (n - 1)%nat. split; [lia|]. lia.
Qed.

Lemma requeue_pool m b h c : pool_le m c -> pool_le (Datatypes.S m) (requeue b h c).
Proof.
  unfold pool_le, requeue. rewrite append_child_pool. cbn.
  rewrite map_size_insert. destruct (orphanPool c !! h); cbn; lia.
Qed.

Lemma cascade_loop_keeps add again s ps :
  (forall n b h, keeps (pool_le n) (add b h)) -> (forall n s t, keeps (pool_le n) (again s t)) ->
  forall n connected total, keeps (pool_le n) (cascade_loop add again s ps connected total).
Proof.
  intros Hadd Hagain. induction ps as [|i ps IH]; intros n connected total; cbn [cascade_loop];
    [apply keeps_ret|]. case_match; [apply keeps_ret|].
  intros c c' a Hc E. rewrite bind_get in E.
  set (h := nth i (array c (sl_arr s)) ""%string) in *.
  destruct (orphanPool c !! h) as [b|] eqn:Eb; [|exact (IH n _ _ _ _ _ Hc E)].
  destruct (removed_pool n h b c Hc Eb) as (m & -> & Hm). rewrite bind_modify in E.
  apply bind_val in E as (c1 & r & Er & E). apply (Hadd m b h) in Er; [|done].
  assert (Hm1 : pool_le (Datatypes.S m) c1) by (unfold pool_le in *; lia).
  destruct r as [[]|e].
  - rewrite bind_get in E.
    destruct (orphanByParent c1 !! h) as [gs|]; [|exact (IH _ _ _ _ _ _ Hm1 E)].
    case_match; [|exact (IH _ _ _ _ _ _ Hm1 E)].
    apply bind_val in E as (c2 & [d t] & Ea & E).
    exact (IH _ _ _ _ _ _ (Hagain _ _ _ _ _ _ Hm1 Ea) E).
  - apply bind_val in E as (c2 & [] & El & E). apply log_prefix_core in El as ->.
    rewrite bind_modify in E. exact (IH _ _ _ _ _ _ (requeue_pool m b h c1 Er) E).
  - apply bind_val in E as (c2 & [] & El & E). apply log_prefix_core in El as ->.
    exact (IH _ _ _ _ _ _ Hm1 E).
Qed.

Abbreviation diverge := (fun (_ : Slice) (_ : Z) => halt_with Diverge : M (Chain S) (Z * Z)).

Lemma descendants_keeps P casc p :
  (forall c c', shrink c c' -> P c -> P c') -> (forall s t, keeps P (casc s t)) ->
  keeps P (descendants casc p).
Proof.
  intros HP Hc. unfold descendants. apply keeps_get. intros c.
  repeat case_match; try apply keeps_ret. apply keeps_bind; [apply Hc|]. intros [k t].
  case_match; [|apply keeps_ret]. apply (moves_keeps P shrink); [done|apply log_prefix_moves].
Qed.

Lemma cascade_keeps fuel : forall n s total, keeps (pool_le n) (cascade diverge fuel s total).
Proof.
  induction fuel as [|fuel IH]; intros n s total; cbn [cascade]; [apply keeps_halt|].
  apply cascade_loop_keeps; [|apply IH]. intros m b h.
  apply reconnect_keeps; [apply pool_shrink|intros; by apply pool_fork|].
  intros p. apply descendants_keeps; [apply pool_shrink|apply IH].
Qed.

Lemma bind_same {A B : Type} (m1 m2 : M (Chain S) A) (k1 k2 : A -> M (Chain S) B) c :
  m1 c = m2 c -> (forall c1 a, m1 c = Val (c1, a) -> k1 a c1 = k2 a c1) ->
  bind m1 k1 c = bind m2 k2 c.
Proof. unfold bind. intros <- Hk. destruct (m1 c) as [[c1 a]|]; [|done]. cbn. by apply Hk. Qed.

Lemma cascade_loop_agree n add1 add2 again1 again2 s ps :
  (forall n b h, keeps (pool_le n) (add1 b h)) -> (forall n s t, keeps (pool_le n) (again1 s t)) ->
  (forall m b h, n = Datatypes.S m -> agree (pool_le m) (add1 b h) (add2 b h)) ->
  (forall m s t, n = Datatypes.S m -> agree (pool_le m) (again1 s t) (again2 s t)) ->
  forall connected total,
  agree (pool_le n) (cascade_loop add1 again1 s ps connected total)
    (cascade_loop add2 again2 s ps connected total).
Proof.
  intros Hk1 Hk2 Ha Hg. induction ps as [|i ps IH]; intros connected total; cbn [cascade_loop];
    [apply agree_refl|]. case_match; [apply agree_refl|].
  intros c Hc. rewrite !bind_get. set (h := nth i (array c (sl_arr s)) ""%string).
  destruct (orphanPool c !! h) as [b|] eqn:Eb; [|by apply IH].
  destruct (removed_pool n h b c Hc Eb) as (m & -> & Hm). rewrite !bind_modify.
  apply bind_same; [by apply (Ha m)|]. intros c1 r Er. apply (Hk1 m b h) in Er; [|done].
  assert (Hm1 : pool_le (Datatypes.S m) c1) by (unfold pool_le in *; lia).
  destruct r as [[]|e].
  - rewrite !bind_get. destruct (orphanByParent c1 !! h) as [gs|]; [|by apply IH].
    case_match; [|by apply IH]. apply bind_same; [by apply (Hg m)|]. intros c2 [d t] Eg.
    apply IH. exact (Hk2 _ _ _ _ _ _ Hm1 Eg).
  - apply bind_same; [done|]. intros c2 [] El. apply log_prefix_core in El as ->.
    rewrite !bind_modify. apply IH. by apply requeue_pool.
  - apply bind_same; [done|]. intros c2 [] El. apply log_prefix_core in El as ->. by apply IH.
Qed.

(** With more levels than orphans the bottom of the recursion is never reached. *)
Lemma cascade_enough bottom fuel1 : forall fuel2 n s total,
  (n < fuel1)%nat -> (n < fuel2)%nat ->
  agree (pool_le n) (cascade diverge fuel1 s total) (cascade bottom fuel2 s total).
Proof.
  induction fuel1 as [|fuel1 IH]; intros fuel2 n s total H1 H2; [lia|].
  destruct fuel2 as [|fuel2]; [lia|]. cbn [cascade].
  assert (Hd : forall m p, n = Datatypes.S m ->
            agree (pool_le m) (descendants (cascade diverge fuel1) p)
              (descendants (cascade bottom fuel2) p)).
  { intros m p ->. unfold descendants. apply agree_get. intros c.
    repeat case_match; try apply agree_refl.
    apply agree_bind; [apply IH; lia|apply cascade_keeps|]. intros [k t]. apply agree_refl. }
  assert (Hkd : forall m p, keeps (pool_le m) (descendants (cascade diverge fuel1) p))
    by (intros; apply descendants_keeps; [apply pool_shrink|apply cascade_keeps]).
  apply cascade_loop_agree.
  - intros m b h. apply reconnect_keeps; [apply pool_shrink|intros; by apply pool_fork|apply Hkd].
  - intros. apply cascade_keeps.
  - intros m b h E. apply reconnect_agree;
      [apply pool_shrink|intros; by apply pool_fork|apply Hkd|intros p; by apply Hd].
  - intros m s' t ->. apply IH; lia.
Qed.

(** ** The limits of the fork store *)
Definition total_of (m : Forks) : Z := sumZ (map (fun x : Z * list BlockRef => len (snd x)) (map_to_list m)).

Definition bounded (m : Forks) : Prop :=
  (forall h l, m !! h = Some l -> len l <= MaxForkBlocksPerHeight) /\ total_of m <= MaxForkBlocksTotal.

Definition forks_bounded c : Prop := bounded (forkBlocks c).

Lemma sum_len_perm (l1 l2 : list (Z * list BlockRef)) : l1 ≡ₚ l2 ->
  sumZ (map (fun x => len (snd x)) l1) = sumZ (map (fun x => len (snd x)) l2).
Proof. intros E. apply sumZ_perm. by rewrite E. Qed.

Lemma total_delete (m : Forks) h l : m !! h = Some l -> total_of m = len l + total_of (delete h m).
Proof.
  intros E. unfold total_of. rewrite <- (sum_len_perm _ _ (map_to_list_delete m h l E)). done.
Qed.

Lemma total_at (m : Forks) h : total_of m = len (default [] (m !! h)) + total_of (delete h m).
Proof.
  destruct (m !! h) as [l|] eqn:E; [by apply total_delete|]. rewrite delete_id by done. done.
Qed.

Lemma total_insert (m : Forks) h l : total_of (<[h := l]> m) = len l + total_of (delete h m).
Proof. rewrite (total_at (<[h := l]> m) h), lookup_insert_eq, delete_insert_eq. done. Qed.

Lemma total_nonneg (m : Forks) : 0 <= total_of m.
Proof. apply sumZ_nonneg. apply Forall_map, Forall_true. intros x. unfold len; cbn; lia. Qed.

Lemma total_subseteq (m1 m2 : Forks) : m1 ⊆ m2 -> total_of m1 <= total_of m2.
Proof.
  revert m2. induction m1 as [|h l m1 Hh IH] using map_ind; intros m2 Hs.
  - unfold total_of at 1. rewrite map_to_list_empty. apply total_nonneg.
  - rewrite total_insert, delete_id by done.
    assert (E : m2 !! h = Some l) by (apply (lookup_weaken _ _ _ _ (lookup_insert_eq _ _ _) Hs)).
    rewrite (total_delete m2 h l E).
    enough (total_of m1 <= total_of (delete h m2)) by lia. apply IH.
    apply map_subseteq_spec. intros k x Hk.
    assert (k <> h) by (intros ->; congruence). rewrite lookup_delete_ne by done.
    apply (lookup_weaken _ _ _ _ (eq_trans (lookup_insert_ne _ _ _ _ (not_eq_sym H0)) Hk) Hs).
Qed.

Lemma bounded_subseteq (m1 m2 : Forks) : m1 ⊆ m2 -> bounded m2 -> bounded m1.
Proof.
  intros Hs [Hh Ht]. split; [|pose proof (total_subseteq _ _ Hs); lia].
  intros h l E. apply (Hh h). by apply (lookup_weaken _ _ _ _ E).
Qed.

Lemma shrink_bounded c c' : shrink c c' -> forks_bounded c -> forks_bounded c'.
Proof. intros [_ Hf]. by apply bounded_subseteq. Qed.

Lemma trim_whole_spec hs : forall c,
  (forall h l, forkBlocks c !! h = Some l -> h ∈ hs) ->
  let c' := trim_whole hs (total_of (forkBlocks c)) c in
  forkBlocks c' ⊆ forkBlocks c /\ total_of (forkBlocks c') <= MaxForkBlocksTotal.
Proof.
  induction hs as [|h hs IH]; intros c Hin c'; subst c'; cbn [trim_whole].
  - split; [done|]. replace (forkBlocks c) with (∅ : Forks); [done|].
    symmetry. apply map_empty. intros h. destruct (forkBlocks c !! h) as [l|] eqn:E; [|done].
    by apply Hin, elem_of_nil in E.
  - destruct (Z.leb_spec (total_of (forkBlocks c)) (MaxForkBlocksTotal * 3 / 4)) as [Hle|Hgt].
    { split; [done|]. assert (MaxForkBlocksTotal * 3 / 4 <= MaxForkBlocksTotal) by done. lia. }
    set (c1 := set_forkBlocks _ _).
    assert (E : forkBlocks c1 = delete h (forkBlocks c)).
    { change (delete h (forkBlocks (drop_fork_hashes (fork_blocks_at h c) c)) = delete h (forkBlocks c)).
      by rewrite (proj2 (drop_hashes_same _ c)). }
    replace (total_of (forkBlocks c) - len (fork_blocks_at h c)) with (total_of (forkBlocks c1)).
    2: { rewrite E, (total_at (forkBlocks c) h). unfold fork_blocks_at. lia. }
    destruct (IH c1) as [Hs Ht].
    { intros k l. rewrite E. intros [Hne Hk]%lookup_delete_Some.
      apply Hin, elem_of_cons in Hk as [->|?]; [done|done]. }
    split; [|done]. etransitivity; [exact Hs|]. rewrite E. apply delete_subseteq.
Qed.

Lemma fork_heights_all c h l : forkBlocks c !! h = Some l -> h ∈ fork_heights c.
Proof.
  intros E. unfold fork_heights. rewrite merge_sort_Permutation.
  apply list_elem_of_fmap. exists (h, l). split; [done|]. by apply elem_of_map_to_list.
Qed.

Lemma trim_height_forks h c :
  forkBlocks (trim_height h c)
  = (if len (fork_blocks_at h c) >? MaxForkBlocksPerHeight
     then <[h := drop (Z.to_nat (len (fork_blocks_at h c) - MaxForkBlocksPerHeight))
                   (fork_blocks_at h c)]> (forkBlocks c)
     else forkBlocks c).
Proof.
  unfold trim_height. case_match; [|done]. set (k := Z.to_nat _).
  change (<[h := drop k (fork_blocks_at h c)]>
            (forkBlocks (drop_fork_hashes (take k (fork_blocks_at h c)) c))
          = <[h := drop k (fork_blocks_at h c)]> (forkBlocks c)).
  by rewrite (proj2 (drop_hashes_same _ c)).
Qed.

Lemma store_fork_bounded b h c : forks_bounded c -> forks_bounded (store_fork b h c).
Proof.
  intros [Hh Ht]. unfold store_fork. set (c2 := set_blocksByHash _ _).
  assert (Hat : fork_blocks_at (GetHeight b) c2 = fork_blocks_at (GetHeight b) c ++ [b]).
  { unfold fork_blocks_at at 1. change (forkBlocks c2) with
      (<[GetHeight b := fork_blocks_at (GetHeight b) c ++ [b]]> (forkBlocks c)).
    by rewrite lookup_insert_eq. }
  set (c3 := trim_height (GetHeight b) c2).
  assert (Hper : forall k l, forkBlocks c3 !! k = Some l -> len l <= MaxForkBlocksPerHeight).
  { intros k l. unfold c3. rewrite trim_height_forks, Hat.
    destruct (Z.gtb_spec (len (fork_blocks_at (GetHeight b) c ++ [b])) MaxForkBlocksPerHeight).
    - intros [[<- <-]|[Hne Hk]]%lookup_insert_Some.
      + unfold len in *. rewrite length_drop, !length_app in *. cbn in *.
        unfold MaxForkBlocksPerHeight in *. lia.
      + change (forkBlocks c2) with
          (<[GetHeight b := fork_blocks_at (GetHeight b) c ++ [b]]> (forkBlocks c)) in Hk.
        rewrite lookup_insert_ne in Hk by done. by apply (Hh k).
    - change (forkBlocks c2) with
        (<[GetHeight b := fork_blocks_at (GetHeight b) c ++ [b]]> (forkBlocks c)).
      intros [[<- <-]|[Hne Hk]]%lookup_insert_Some; [done|by apply (Hh k)]. }
  unfold trim_total. change (total_forks c3) with (total_of (forkBlocks c3)).
  destruct (Z.gtb_spec (total_of (forkBlocks c3)) MaxForkBlocksTotal) as [Hgt|Hle].
  - destruct (trim_whole_spec (fork_heights c3) c3 (fork_heights_all c3)) as [Hs Hb].
    split; [|done]. intros k l E. apply (Hper k). by apply (lookup_weaken _ _ _ _ E).
  - by split.
Qed.

(** ** A property kept by [AddBlock] *)
Lemma remove_expired_shrink ts : forall c, shrink c (remove_expired now ts c).
Proof.
  intros c. apply foldl_shrink. intros c' [h t]. case_match; [apply removeOrphan_shrink|done].
Qed.
Lemma cleanup_shrink c : shrink c (cleanupExpiredOrphansLocked now range_times c).
Proof. unfold cleanupExpiredOrphansLocked. case_match; [done|]. apply remove_expired_shrink. Qed.
Lemma log8_moves l : moves shrink (log_bytes8 l).
Proof. unfold log_bytes8. moves_tac. Qed.
Lemma log_prev_moves b t : moves shrink (log_prev b t).
Proof. unfold log_prev. apply (moves_bind shrink); intros; apply log8_moves. Qed.
Lemma evict_moves : moves shrink evict_oldest.
Proof. unfold evict_oldest. moves_tac. Qed.
Lemma missing_moves b : moves shrink (requestMissingParentAsync (S:=S) b).
Proof. unfold requestMissingParentAsync. moves_tac. Qed.
#[local] Hint Resolve cleanup_shrink log8_moves log_prev_moves evict_moves missing_moves : shrink.

Section kept_all.
Variable P : Chain S -> Prop.
Hypothesis P_shrink : forall c c', shrink c c' -> P c -> P c'.
Hypothesis P_fork : forall b h c, P c -> P (store_fork b h c).
Hypothesis P_requeue : forall b h c, P c -> P (requeue b h c).

Ltac keeps_tac := keeps_with P P_shrink.

Lemma requeue_keeps b h : keeps P (modify (requeue b h)).
Proof. apply keeps_modify. auto. Qed.

Lemma allocate_shrink c : shrink c (allocate_orphans c).
Proof.
  unfold allocate_orphans. case_match; [done|]. split; cbn; [|done]. apply map_empty_subseteq.
Qed.

Lemma cascade_loop_all add again s ps :
  (forall b h, keeps P (add b h)) -> (forall s t, keeps P (again s t)) ->
  forall connected total, keeps P (cascade_loop add again s ps connected total).
Proof.
  intros Hadd Hagain. induction ps as [|i ps IH]; intros connected total; cbn [cascade_loop];
    keeps_tac; apply requeue_keeps.
Qed.

Lemma cascade_all fuel : forall s total, keeps P (cascade diverge fuel s total).
Proof.
  induction fuel as [|fuel IH]; intros s total; cbn [cascade]; [apply keeps_halt|].
  apply cascade_loop_all; [|apply IH]. intros b h. apply reconnect_keeps; [done|done|].
  intros p. apply descendants_keeps; [exact P_shrink|exact IH].
Qed.

Lemma process_all p : keeps P (processOrphanDescendantsLocked p).
Proof.
  apply keeps_get. intros c. apply descendants_keeps; [done|apply cascade_all].
Qed.

Lemma addCanonical_all b h : keeps P (addCanonical b h).
Proof. apply addCanonical_keeps; [done|apply process_all]. Qed.
Lemma addFork_all b h : keeps P (addFork b h).
Proof. apply addFork_keeps; [done|done|apply process_all]. Qed.

Lemma orphan_round_all tip h l : forall found processed,
  keeps P (orphan_round tip h l found processed).
Proof.
  induction l as [|[k x] l IH]; intros found processed; cbn [orphan_round]; keeps_tac;
    (apply addCanonical_all || apply addFork_all).
Qed.

Lemma orphan_rounds_all n : forall processed, keeps P (orphan_rounds n processed).
Proof.
  induction n as [|n IH]; intros processed; cbn [orphan_rounds]; keeps_tac. apply orphan_round_all.
Qed.

Lemma addOrphan_all b h : keeps P (addOrphanBlockLocked b h).
Proof.
  unfold addOrphanBlockLocked, tryProcessOrphansLocked. keeps_tac;
    try apply requeue_keeps; try apply orphan_rounds_all.
  all: apply (moves_keeps P shrink); [done|]; apply (moves_modify shrink), allocate_shrink.
Qed.

Lemma AddBlock_all b : keeps P (AddBlock b).
Proof.
  unfold AddBlock, add_known, add_new. keeps_tac;
    first [apply addCanonical_all | apply addFork_all | apply addOrphan_all].
Qed.
End kept_all.

(** ** The block that follows the tip *)
Definition filed b c : Chain S := set_blocksByHash (<[hexhash b := b]> (blocksByHash c)) c.

Lemma AddBlock_new b c :
  orphanTimestamps c = ∅ -> validateBlockConsensusLocked b c = Ok tt ->
  blocksByHash c !! hexhash b = None -> AddBlock b c = add_new b (hexhash b) (filed b c).
Proof.
  intros Ht Hv Hn. unfold AddBlock. rewrite bind_modify, bind_get.
  unfold cleanupExpiredOrphansLocked. rewrite Ht, map_size_empty. cbn [Nat.eqb].
  rewrite Hv, Hn, bind_modify. unfold ensure_known. by rewrite Hn.
Qed.

Lemma add_new_next b (tip : BlockRef) c :
  last (blocks c) = Some tip -> GetHeight b = len (blocks c) ->
  h_PrevHash (b_Header b) = b_Hash tip ->
  add_new b (hexhash b) (filed b c) = addCanonical b (hexhash b) (filed b c).
Proof.
  intros Hl Hh Hp. unfold add_new. rewrite bind_get.
  change (blocks (filed b c)) with (blocks c). rewrite Hh, Z.eqb_refl. unfold wrong_prev.
  change (blocks (filed b c)) with (blocks c). rewrite Hl, Hp.
  by rewrite (proj2 (bytes_eqb_spec _ _) eq_refl).
Qed.

(** The chain with the block appended and its work counted, before it is stored and applied. *)
Definition appended b c : Chain S :=
  let c1 := index_in_store b
    (updateIndexesForBlock b (len (blocks c)) (set_blocks (blocks c ++ [b]) c)) in
  let c2 := set_canonicalWork (canonicalWork c1 + block_work b) c1 in
  set_total_work b (canonicalWork c2) c2.

Lemma appended_core b c :
  core (appended b c)
  = (blocks c ++ [b], state c, bestTipHash c, canonicalWork c + block_work b,
     (consensus c, monetaryPolicy c, genesisAddress c)).
Proof.
  unfold appended. pose proof (updateIndexes_core b (len (blocks c)) (set_blocks (blocks c ++ [b]) c)) as E.
  unfold core in E |- *. injection E as E1 E2 E3 E4 E5 E6 E7.
  cbn in E1, E2, E3, E4, E5, E6, E7 |- *. by rewrite E1, E2, E3, E4, E5, E6, E7.
Qed.

Definition appends : Prop := forall (x : Block) (s : S), snd (AppendCanonical x s) = Ok tt.

(** What [addCanonicalBlockLocked] comes to when the store takes the block. *)
Lemma addCanonical_stored d b h c :
  appends -> exists s,
  addCanonicalBlockLocked d b h c
  = (let* applied := apply_to_state ed25519_verify b in
     match applied with
     | Err e => modify (undo_append h) ;;* ret (wrap "apply block to state" (Err e))
     | Ok _ =>
         modify (remove_confirmed (extractTransactionIDs (b_Transactions b))) ;;*
         log_prefix 16 h ;;*
         emit (EvNewBlock (GetHeight b) h (hexprev b) (h_DifficultyBits (b_Header b))
                 (len (b_Transactions b))) ;;*
         emit (EvBlockAdded b) ;;*
         d h ;;*
         autoReorg ;;*
         ret (Ok true)
     end) (set_store s (appended b c)).
Proof.
  intros Ha. unfold addCanonicalBlockLocked. rewrite bind_get, !bind_modify, bind_get.
  change (set_total_work b _ _) with (appended b c).
  destruct (store_op_run (AppendCanonical (deref (appended b c) b)) (appended b c)) as [s Es].
  exists s. rewrite (bind_run _ _ _ _ _ Es), Ha. done.
Qed.

Lemma apply_run b c st r :
  applyBlockToState ed25519_verify (consensus c) (monetaryPolicy c) b (genesisAddress c) (state c)
  = (st, r) -> apply_to_state ed25519_verify b c = Val (set_state st c, r).
Proof. unfold apply_to_state. by intros ->. Qed.

Lemma apply_appended b c s st r :
  applyBlockToState ed25519_verify (consensus c) (monetaryPolicy c) b (genesisAddress c) (state c)
  = (st, r) ->
  apply_to_state ed25519_verify b (set_store s (appended b c))
  = Val (set_state st (set_store s (appended b c)), r).
Proof.
  intros E. apply apply_run. pose proof (appended_core b c) as Ec. unfold core in Ec.
  injection Ec as _ Es _ _ Ep Em Eg. cbn. by rewrite Es, Ep, Em, Eg.
Qed.

(** A block the state refuses is taken off the chain again, but its work and what it did to
    the state stay. *)
Lemma addCanonical_refused d b h c st e :
  appends ->
  applyBlockToState ed25519_verify (consensus c) (monetaryPolicy c) b (genesisAddress c) (state c)
  = (st, Err e) ->
  exists c' e', addCanonicalBlockLocked d b h c = Val (c', Err e') /\
    blocks c' = blocks c /\ state c' = st /\ canonicalWork c' = canonicalWork c + block_work b.
Proof.
  intros Ha E. destruct (addCanonical_stored d b h c Ha) as [s ->].
  rewrite (bind_run _ _ _ _ _ (apply_appended b c s st _ E)), bind_modify.
  eexists _, _. split; [reflexivity|]. pose proof (appended_core b c) as Ec. unfold core in Ec.
  injection Ec as Eb Es _ Ew _ _ _. cbn. rewrite Eb, Ew.
  split_and!; [|done|done]. by rewrite removelast_last.
Qed.

(** The index updates touch the two indexes only. *)
Lemma updateIndexes_fields b h c : exists t a,
  updateIndexesForBlock b h c = set_addressIndex a (set_txIndex t c).
Proof.
  unfold updateIndexesForBlock. generalize (imap pair (b_Transactions b)). intros l. revert c.
  induction l as [|[i tx] l IH]; intros c; cbn [foldl].
  - exists (txIndex c), (addressIndex c). by destruct c.
  - unfold update_tx_index at 2. case_match.
    + match goal with |- exists _ _, foldl _ ?x _ = _ => destruct (IH x) as (ti & ai & ->) end.
      by exists ti, ai.
    + match goal with |- exists _ _, foldl _ ?x _ = _ => destruct (IH x) as (ti & ai & ->) end.
      by exists ti, ai.
Qed.

Lemma remove_confirmed_fields ids c : exists m, remove_confirmed ids c = set_mempool m c.
Proof.
  unfold remove_confirmed. destruct (mempool c) as [m|] eqn:E.
  - case_match; [exists (Some m)|by eexists]. destruct c; cbn in *; by subst.
  - exists None. destruct c; cbn in *; by subst.
Qed.

Lemma best_without_forks c (tip : BlockRef) :
  visits_all_forks range_forks -> forkBlocks c = ∅ -> last (blocks c) = Some tip ->
  findBest c = Val (c, Some tip).
Proof.
  unfold visits_all_forks. intros Hr Hf Hl. unfold findBestChainTipLocked. rewrite bind_get.
  unfold canonicalTipLocked. rewrite Hl.
  assert (Ef : all_forks range_forks c = []).
  { unfold all_forks. rewrite Hf. specialize (Hr ∅). rewrite map_to_list_empty in Hr.
    apply Permutation_nil_r in Hr. by rewrite Hr. }
  rewrite Ef. cbn [best_loop]. reflexivity.
Qed.

Lemma auto_without_forks c (tip : BlockRef) :
  visits_all_forks range_forks -> forkBlocks c = ∅ -> last (blocks c) = Some tip ->
  autoReorg c = Val (c, tt).
Proof.
  intros Hr Hf Hl. unfold autoReorgIfNeededLocked.
  rewrite (bind_run _ _ _ _ _ (best_without_forks c tip Hr Hf Hl)), bind_get.
  unfold canonicalTipLocked. rewrite Hl. by rewrite str_eqb_refl.
Qed.

(** What fork choice reads besides the canonical chain, and the orphans' index. *)
Definition fork_side c :=
  (blocksByHash c, forkBlocks c, forkBlocksByHash c, workCache c, orphanByParent c, orphanTimestamps c).

Lemma addCanonical_run b h c st :
  appends -> visits_all_forks range_forks -> forkBlocks c = ∅ -> orphanByParent c = ∅ ->
  16 <= strlen h ->
  applyBlockToState ed25519_verify (consensus c) (monetaryPolicy c) b (genesisAddress c) (state c)
  = (st, Ok tt) ->
  exists c', addCanonical b h c = Val (c', Ok true) /\
    core c' = (blocks c ++ [b], st, bestTipHash c, canonicalWork c + block_work b,
               (consensus c, monetaryPolicy c, genesisAddress c)) /\
    fork_side c' = fork_side c.
Proof.
  intros Ha Hr Hf Ho Hlen E. destruct (addCanonical_stored processOrphanDescendantsLocked b h c Ha)
    as [s ->].
  rewrite (bind_run _ _ _ _ _ (apply_appended b c s st _ E)), bind_modify.
  destruct (remove_confirmed_fields (extractTransactionIDs (b_Transactions b))
              (set_state st (set_store s (appended b c)))) as [m ->].
  unfold log_prefix at 1. replace (strlen h <? 16) with false by lia. rewrite bind_ret.
  unfold emit. rewrite !bind_modify. set (c2 := set_trace _ _).
  assert (E2 : core c2 = (blocks c ++ [b], st, bestTipHash c, canonicalWork c + block_work b,
                          (consensus c, monetaryPolicy c, genesisAddress c))).
  { pose proof (appended_core b c) as Ec. unfold core in Ec |- *.
    injection Ec as E1 E2 E3 E4 E5 E6 E7. cbn. by rewrite E1, E3, E4, E5, E6, E7. }
  assert (H2 : fork_side c2 = fork_side c).
  { unfold c2, appended. destruct (updateIndexes_fields b (len (blocks c)) (set_blocks (blocks c ++ [b]) c))
      as (t & a & ->). done. }
  clearbody c2. pose proof H2 as H3. injection H3 as _ Hf2 _ _ Ho2 _. rewrite Hf in Hf2. rewrite Ho in Ho2.
  assert (Ed : processOrphanDescendantsLocked h c2 = Val (c2, tt)).
  { unfold processOrphanDescendantsLocked, descendants. rewrite !bind_get, Ho2.
    rewrite lookup_empty. by destruct (orphanReady c2). }
  rewrite (bind_run _ _ _ _ _ Ed).
  assert (Hl : last (blocks c2) = Some b) by (injection E2 as -> _; apply last_snoc).
  rewrite (bind_run _ _ _ _ _ (auto_without_forks c2 b Hr Hf2 Hl)).
  by exists c2.
Qed.

Lemma addCanonical_accepted b h c st :
  appends -> visits_all_forks range_forks -> forkBlocks c = ∅ -> orphanByParent c = ∅ ->
  16 <= strlen h ->
  applyBlockToState ed25519_verify (consensus c) (monetaryPolicy c) b (genesisAddress c) (state c)
  = (st, Ok tt) ->
  exists c', addCanonical b h c = Val (c', Ok true) /\
    core c' = (blocks c ++ [b], st, bestTipHash c, canonicalWork c + block_work b,
               (consensus c, monetaryPolicy c, genesisAddress c)).
Proof.
  intros Ha Hr Hf Ho Hlen E. destruct (addCanonical_run b h c st) as (c' & Er & Ec & _); try done. by exists c'.
Qed.

Lemma consensus_coinbase b c : validateBlockConsensusLocked b c = Ok tt -> first_coinbase b.
Proof.
  unfold validateBlockConsensusLocked, first_coinbase.
  destruct (b_Transactions b) as [|cb txs]; [done|]. intros Hv. inv_result. bool_to_prop. eauto.
Qed.

Lemma next_audited b (tip : BlockRef) c c' st :
  AuditChain ed25519_verify c = Ok tt -> last (blocks c) = Some tip -> len (blocks c) <= max_u64 ->
  first_coinbase b -> GetHeight b = len (blocks c) -> h_PrevHash (b_Header b) = b_Hash tip ->
  applyBlockToState ed25519_verify (consensus c) (monetaryPolicy c) b (genesisAddress c) (state c)
  = (st, Ok tt) ->
  core c' = (blocks c ++ [b], st, bestTipHash c, canonicalWork c + block_work b,
             (consensus c, monetaryPolicy c, genesisAddress c)) ->
  AuditChain ed25519_verify c' = Ok tt.
Proof.
  intros Ha Hl Hn Hcb Hh Hp E Ec. apply audit_iff in Ha as [Hlk Hr].
  unfold core in Ec. injection Ec as Eb Es _ _ Ep Em Eg. apply audit_iff. rewrite Eb, Es. split.
  - apply (chain_linked_app _ _ tip Hl). split; [done|]. split; [|done].
    assert (Ht : GetHeight tip = len (blocks c) - 1).
    { rewrite last_lookup in Hl. rewrite (linked_height _ _ _ Hlk Hn Hl). unfold len.
      apply lookup_lt_Some in Hl. lia. }
    split_and!; [|done|done]. rewrite Hh, Ht. unfold len in *.
    assert (0 < Z.of_nat (length (blocks c))) by (destruct (blocks c); [done|cbn; lia]).
    rewrite add64_small by (unfold_u64; lia). lia.
  - unfold recomputed. rewrite Ep, Em, Eg. by apply (recomputed_snoc _ c (blocks c) b (state c)).
Qed.
End add_block.

(** * Properties *)
Section properties.
Context {S : Type} `{ChainStore S}.
Variable ed25519_verify : list Z -> list Z -> list Z -> bool.
Variable seal_valid : PowHeader -> bool.
Variable now : Z.
Variable range_blocks : Blocks -> list (string * BlockRef).
Variable range_forks : Forks -> list (Z * list BlockRef).
Variable range_times : gmap string Z -> list (string * Z).
Variable range_cache : gmap string Z -> list (string * Z).
Variable grow : nat -> nat.
Variable capacity : list Z -> Z.

Abbreviation add := (AddBlock ed25519_verify seal_valid now range_blocks range_forks range_times
                       range_cache grow capacity).
Abbreviation casc := (cascade ed25519_verify seal_valid now range_blocks range_forks range_cache grow).

(** C7. Reconnecting orphans ends: with one level of recursion more than there are orphans, the
    bottom of the recursion is never reached, whatever is put there, so
    [processOrphanDescendantsLocked] computes what the unbounded recursion does. *)
Theorem reconnect_terminates (bottom : Slice -> Z -> M (Chain S) (Z * Z)) (fuel : nat)
  (parentHash : string) (c : Chain S) (Hf : (size (orphanPool c) < fuel)%nat) :
  descendants (casc bottom fuel) parentHash c
  = processOrphanDescendantsLocked ed25519_verify seal_valid now range_blocks range_forks
      range_cache grow parentHash c.
Proof.
  unfold processOrphanDescendantsLocked. rewrite bind_get. unfold descendants. rewrite !bind_get.
  repeat case_match; try done. symmetry. apply bind_same; [|done].
  apply (cascade_enough _ _ _ _ _ _ _ _ _ _ (size (orphanPool c))); [lia|done|]. unfold pool_le. lia.
Qed.

(** C6. [AddBlock] keeps the fork store within its limits, at most 16 blocks of one height and
    50000 in all, whatever block it is given and whatever it sets off. *)
Theorem add_block_forks_bounded (b : BlockRef) (c c' : Chain S) (r : result bool)
  (Hb : forks_bounded c) (E : add b c = Val (c', r)) : forks_bounded c'.
Proof.
  revert E. apply (AddBlock_all ed25519_verify seal_valid now range_blocks range_forks range_times
                     range_cache grow capacity forks_bounded); [..|done].
  - apply shrink_bounded.
  - apply store_fork_bounded.
  - intros x h c0. unfold forks_bounded, requeue, append_child. by repeat case_match.
Qed.

(** A valid block on the tip is accepted: on an audited chain without forks and orphans,
    [AddBlock] of the next block, whose transactions apply, returns true and leaves an audited
    chain with the block at its end and its work counted.  The recorded best tip is
    not moved. *)
Theorem add_block_extends (b tip : BlockRef) (c : Chain S) (st : State)
  (Hst : appends) (Hr : visits_all_forks range_forks)
  (Ha : AuditChain ed25519_verify c = Ok tt) (Hn : len (blocks c) <= max_u64)
  (Hf : forkBlocks c = ∅) (Ho : orphanByParent c = ∅) (Hts : orphanTimestamps c = ∅)
  (Hl : last (blocks c) = Some tip) (Hv : validateBlockConsensusLocked b c = Ok tt)
  (Hk : blocksByHash c !! hexhash b = None) (Hlen : 16 <= strlen (hexhash b))
  (Hh : GetHeight b = len (blocks c)) (Hp : h_PrevHash (b_Header b) = b_Hash tip)
  (E : applyBlockToState ed25519_verify (consensus c) (monetaryPolicy c) b (genesisAddress c)
         (state c) = (st, Ok tt)) :
  exists c', add b c = Val (c', Ok true) /\ AuditChain ed25519_verify c' = Ok tt /\
    blocks c' = blocks c ++ [b] /\ state c' = st /\
    canonicalWork c' = canonicalWork c + block_work b /\ bestTipHash c' = bestTipHash c.
Proof.
  rewrite AddBlock_new, (add_new_next _ _ _ _ _ _ _ _ _ b tip) by done.
  destruct (addCanonical_accepted ed25519_verify seal_valid now range_blocks range_forks range_cache
              grow b (hexhash b) (filed b c) st Hst Hr Hf Ho Hlen E) as (c' & -> & Ec).
  exists c'. pose proof (consensus_coinbase b c Hv) as Hcb.
  split; [done|]. split; [exact (next_audited _ b tip c c' st Ha Hl Hn Hcb Hh Hp E Ec)|].
  unfold core in Ec. by injection Ec as -> -> -> -> _ _ _.
Qed.

(** A block that fails to apply leaves the chain heavier: [AddBlock] of a block on the tip
    that the state refuses returns an error and takes the block off again, but the work of
    the block stays in the canonical work that fork choice compares, as do the changes the
    block made to the accounts. *)
Theorem rejected_block_keeps_work (b tip : BlockRef) (c : Chain S) (st : State) (e : error)
  (Hst : appends) (Hts : orphanTimestamps c = ∅) (Hl : last (blocks c) = Some tip)
  (Hv : validateBlockConsensusLocked b c = Ok tt) (Hk : blocksByHash c !! hexhash b = None)
  (Hh : GetHeight b = len (blocks c)) (Hp : h_PrevHash (b_Header b) = b_Hash tip)
  (E : applyBlockToState ed25519_verify (consensus c) (monetaryPolicy c) b (genesisAddress c)
         (state c) = (st, Err e)) :
  exists c' e', add b c = Val (c', Err e') /\ blocks c' = blocks c /\ state c' = st /\
    canonicalWork c' = canonicalWork c + block_work b.
Proof.
  rewrite AddBlock_new, (add_new_next _ _ _ _ _ _ _ _ _ b tip) by done.
  destruct (addCanonical_refused ed25519_verify seal_valid now range_blocks range_forks range_cache
              grow (processOrphanDescendantsLocked ed25519_verify seal_valid now range_blocks
                      range_forks range_cache grow) b (hexhash b) (filed b c) st e Hst E)
    as (c' & e' & -> & Hb & Hs & Hw).
  by exists c', e'.
Qed.

(** A block two heights above the tip that names a parent of fewer than 8 bytes, unknown
    to the node, ends the process: the log line of the orphan branch slices the parent's
    hash beyond its end. *)
Theorem short_parent_panics (b : BlockRef) (c : Chain S)
  (Hts : orphanTimestamps c = ∅) (Hv : validateBlockConsensusLocked b c = Ok tt)
  (Hk : blocksByHash c !! hexhash b = None) (Hne : hexprev b <> hexhash b)
  (Hu : blocksByHash c !! hexprev b = None) (Hfk : forkBlocksByHash c !! hexprev b = None)
  (Hh : GetHeight b = len (blocks c) + 1) (Hs : strlen (hexprev b) < 16) :
  add b c = Halt (Panic "slice bounds out of range").
Proof.
  rewrite AddBlock_new by done. unfold add_new. rewrite bind_get.
  change (blocks (filed b c)) with (blocks c). rewrite Hh.
  replace (len (blocks c) + 1 =? len (blocks c)) with false by lia.
  replace (len (blocks c) + 1 <? len (blocks c)) with false by lia. rewrite Z.eqb_refl.
  assert (Eb : blocksByHash (filed b c) !! hexprev b = None)
    by (cbn; by rewrite lookup_insert_ne).
  assert (Ef : isParentInForkBlocksLocked (hexprev b) (filed b c) = false).
  { unfold isParentInForkBlocksLocked. case_match; [done|].
    change (forkBlocksByHash (filed b c)) with (forkBlocksByHash c). by rewrite Hfk. }
  rewrite Eb, Ef. cbn [negb andb]. unfold bind, log_prefix.
  by replace (strlen (hexprev b) <? 16) with true by lia.
Qed.

End properties.
