(* ===== verification/ChainSample.v ===== *)
(** * A small chain with a fork

    The chain on which the properties of [ForkChoice], [Reorg] and [AddBlock] are exercised: a genesis
    block, a canonical block on it, and a heavier fork of two blocks that also starts at the
    genesis block.  The store accepts everything, and every seal and signature holds. *)

From S2P Require Import Prelude Bytes Sha256 Config Merkle Json Transaction Ledger Float Difficulty FeeChecker Mempool Chain ForkChoice Reorg AddBlock.
From stdpp Require Import base list gmap strings numbers sorting.
From Stdlib Require Import ZArith Lia.

Open Scope Z_scope.
Open Scope go_scope.
Open Scope chain_scope.

#[export] Instance null_store : ChainStore unit := {|
  AppendCanonical _ s := (s, Ok tt);
  PutBlock _ s := (s, Ok tt);
  RewriteCanonical _ s := (s, Ok tt);
  PutAccount _ _ s := (s, Ok tt);
  CalculateStateRoot _ _ := Ok [];
  Snapshot _ _ _ s := (s, Ok tt);
  PutCheckpointEntry _ _ s := (s, Ok tt)
|}.

Definition miner_addr : string := Eval vm_compute in GenerateAddress [7].
Definition fund_addr : string := Eval vm_compute in GenerateAddress [5].

Definition sample_block (tag height time bits prev amount : Z) : Block :=
  let prevHash := if height =? 0 then [] else replicate 32 prev in
  mkBlock (replicate 32 tag) height
    (mkBlockHeader 1 prevHash time bits bits 0 [] [] height miner_addr)
    [coinbase_tx miner_addr amount] None miner_addr "".

Definition reward : Z := Eval vm_compute in coinbase_expected main_policy 1 0.

Definition g0 : BlockRef := mkRef 0 (sample_block 1 0 1700000000 100 0 1000000).
Definition a1 : BlockRef := mkRef 1 (sample_block 2 1 1700000030 100 1 reward).
Definition f1 : BlockRef := mkRef 2 (sample_block 3 1 1700000020 110 1 reward).
Definition f2 : BlockRef := mkRef 3 (sample_block 4 2 1700000050 110 3 reward).
Definition a2 : BlockRef := mkRef 4 (sample_block 5 2 1700000060 100 2 reward).
(** Its coinbase pays too much. *)
Definition bad2 : BlockRef := mkRef 5 (sample_block 6 2 1700000050 110 3 (reward + 1)).

Definition sample_state : State :=
  Eval vm_compute in fst (recomputeState accept_all main_params main_policy fund_addr
                            [ref_blk g0; ref_blk a1]).

Definition by_hash (bs : list BlockRef) : Blocks :=
  list_to_map (map (fun b : BlockRef => (hexhash b, b)) bs).

Definition chain_with (forks : list BlockRef) (byHeight : Forks) : Chain unit :=
  mkChain 1 fund_addr main_params main_policy tt [g0; a1] (by_hash (g0 :: a1 :: forks)) sample_state
    (hexhash a1) 200 byHeight (by_hash forks) ∅ ∅ ∅ ∅ ∅ [] true ∅ ∅ ∅ ∅ None 0 0 (0, 0) [].

Definition sample : Chain unit := chain_with [f1; f2] {[1 := [f1]; 2 := [f2]]}.
Definition broken : Chain unit := chain_with [f1; bad2] {[1 := [f1]; 2 := [bad2]]}.
(** Capacities double. *)
Definition dup (n : nat) : nat := (2 * n)%nat.
Definition all_sealed (h : PowHeader) : bool := true.

Definition ran_ok (r : res (Chain unit * result unit)) : bool :=
  match r with Val (_, Ok _) => true | _ => false end.

Lemma ran_ok_spec r : ran_ok r = true -> exists c, r = Val (c, Ok tt).
Proof. destruct r as [[c [[]|]]|]; [by exists c|done..]. Qed.

Lemma sample_recomputed :
  recomputeState accept_all main_params main_policy fund_addr [ref_blk g0; ref_blk a1]
  = (sample_state, Ok tt).
Proof.
  refine (run_ok _ tt _). vm_cast_no_check (eq_refl (@Ok unit tt)).
Qed.

(** ** The hypotheses hold on it *)
Lemma sample_known_ok : known_ok sample.
Proof. apply known_ok_check. apply (bool_decide_unpack _). vm_compute. exact I. Qed.

Lemma sample_indexed : indexed sample.
Proof. apply indexed_check; apply (bool_decide_unpack _); vm_compute; exact I. Qed.

Lemma sample_cache_ok : cache_ok sample.
Proof. by intros b v _ E. Qed.

Lemma chain_with_consistent forks byHeight : consistent accept_all (chain_with forks byHeight).
Proof.
  split; [|reflexivity|reflexivity]. apply audit_iff. split; [|exact sample_recomputed].
  cbn [chain_with blocks chain_linked links]. split_and!; [reflexivity|reflexivity| |exact I].
  split; [reflexivity|]. split; [reflexivity|]. by eexists _, _.
Qed.

Lemma f2_known : known sample f2.
Proof. left. by exists (hexhash f2). Qed.

Lemma f2_rooted : rooted sample f2 2 320.
Proof.
  change 320 with (100 + block_work f1 + block_work f2).
  apply (rooted_step sample f2 f1 1 (100 + block_work f1)); [reflexivity|].
  apply (rooted_step sample f1 g0 0 100); [reflexivity|]. by apply (rooted_last sample g0).
Qed.

Lemma g0_canonical forks byHeight : canonical (chain_with forks byHeight) g0.
Proof. split; [done|]. by exists g0. Qed.

Lemma sample_branch : branch sample g0 f2 [f1; f2].
Proof.
  apply (branch_step sample g0 f2 f1 [f1]); [reflexivity| |reflexivity|done|reflexivity].
  apply (branch_step sample g0 f1 g0 []); [reflexivity| |reflexivity|done|reflexivity].
  by constructor.
Qed.

Lemma broken_branch : branch broken g0 bad2 [f1; bad2].
Proof.
  apply (branch_step broken g0 bad2 f1 [f1]); [reflexivity| |reflexivity|done|reflexivity].
  apply (branch_step broken g0 f1 g0 []); [reflexivity| |reflexivity|done|reflexivity].
  by constructor.
Qed.

Lemma sample_seals : Forall (sealed all_sealed sample) [f1; f2].
Proof.
  repeat constructor; unfold sealed; [exists g0|exists f1]; (split; [reflexivity|]); vm_compute;
    reflexivity.
Qed.

Lemma broken_seals : Forall (sealed all_sealed broken) [f1; bad2].
Proof.
  repeat constructor; unfold sealed; [exists g0|exists f1]; (split; [reflexivity|]); vm_compute;
    reflexivity.
Qed.

Definition fork_state : State :=
  Eval vm_compute in fst (recomputeState accept_all main_params main_policy fund_addr
                            [ref_blk g0; ref_blk f1; ref_blk f2]).
Definition broken_state : State :=
  Eval vm_compute in fst (recomputeState accept_all main_params main_policy fund_addr
                            [ref_blk g0; ref_blk f1; ref_blk bad2]).

Lemma fork_recomputed :
  recomputeState accept_all main_params main_policy fund_addr [ref_blk g0; ref_blk f1; ref_blk f2]
  = (fork_state, Ok tt).
Proof. vm_cast_no_check (eq_refl (fork_state, @Ok unit tt)). Qed.

Lemma broken_recomputed :
  recomputeState accept_all main_params main_policy fund_addr [ref_blk g0; ref_blk f1; ref_blk bad2]
  = (broken_state, Err "apply block: bad coinbase amount").
Proof.
  vm_cast_no_check (eq_refl (broken_state, @Err unit "apply block: bad coinbase amount")).
Qed.

(** ** Witnesses *)
Lemma cumulative_work_exact_witness :
  exists m, calculateCumulativeWorkLocked map_to_list f2 sample = Val (set_workCache m sample, 320) /\
    cache_ok (set_workCache m sample).
Proof.
  exact (cumulative_work_exact map_to_list sample f2 2 320 sample_known_ok sample_cache_ok f2_known
           f2_rooted).
Defined.

Lemma best_tip_heaviest_witness :
  exists m x, findBestChainTipLocked map_to_list map_to_list sample
              = Val (set_workCache m sample, Some (cand_block x)) /\ ~ preferred (a1, 1, 200) x.
Proof.
  destruct (best_tip_heaviest map_to_list map_to_list sample a1) as (m & x & E & _ & Hx & _).
  - by intros m.
  - exact sample_known_ok.
  - exact sample_cache_ok.
  - reflexivity.
  - exists m, x. by split.
Defined.

Lemma best_tip_deterministic_witness :
  exists c1 c2 b1 b2, findBestChainTipLocked map_to_list map_to_list sample = Val (c1, Some b1) /\
    findBestChainTipLocked (fun m => rev (map_to_list m)) map_to_list sample = Val (c2, Some b2) /\
    b_Hash b1 = b_Hash b2.
Proof.
  apply (best_tip_deterministic map_to_list (fun m => rev (map_to_list m)) map_to_list map_to_list
           sample a1).
  - by intros m.
  - intros m. symmetry. apply Permutation_rev.
  - exact sample_known_ok.
  - exact sample_cache_ok.
  - reflexivity.
Defined.

Lemma connect_runs :
  ran_ok (connectBlockLocked accept_all all_sealed 1700000100 map_to_list map_to_list a2 sample) = true.
Proof. vm_cast_no_check (eq_refl true). Qed.

Lemma connect_block_consistent_witness :
  exists c', connectBlockLocked accept_all all_sealed 1700000100 map_to_list map_to_list a2 sample
             = Val (c', Ok tt) /\ consistent accept_all c' /\ blocks c' = [g0; a1; a2] /\
    canonicalWork c' = 300.
Proof.
  destruct (ran_ok_spec _ connect_runs) as [c' E]. exists c'. split; [exact E|].
  apply (connect_block_consistent accept_all all_sealed 1700000100 map_to_list map_to_list a2 a1
           sample c' (chain_with_consistent _ _) eq_refl eq_refl); [done|exact E].
Defined.

Lemma null_rewrites : @rewrites unit _.
Proof. by intros bs s. Qed.

Lemma reorganize_succeeds_witness :
  exists c', reorganizeChainLocked accept_all all_sealed 0 map_to_list map_to_list dup g0 f2 sample
             = Val (c', Ok tt).
Proof.
  exact (reorganize_succeeds accept_all all_sealed 0 map_to_list map_to_list dup sample g0 f2 [f1; f2]
           fork_state null_rewrites eq_refl (g0_canonical _ _) sample_branch sample_seals
           fork_recomputed).
Defined.

Lemma reorganize_runs_sample :
  exists c', reorganizeChainLocked accept_all all_sealed 0 map_to_list map_to_list dup g0 f2 sample
             = Val (c', Ok tt).
Proof.
  exact (reorganize_runs accept_all all_sealed 0 map_to_list map_to_list dup sample g0 f2 [f1; f2]
           fork_state null_rewrites eq_refl (g0_canonical _ _) sample_branch sample_seals
           fork_recomputed).
Qed.

Lemma reorganize_consistent_witness :
  exists c', reorganizeChainLocked accept_all all_sealed 0 map_to_list map_to_list dup g0 f2 sample
             = Val (c', Ok tt) /\ consistent accept_all c' /\ blocks c' = [g0; f1; f2].
Proof.
  destruct reorganize_runs_sample as [c' E]. exists c'. split; [exact E|].
  destruct (reorganize_consistent accept_all all_sealed 0 map_to_list map_to_list dup sample c' g0 f2
              [f1; f2] (chain_with_consistent _ _) eq_refl (g0_canonical _ _) sample_branch E)
    as (H1 & H2 & _).
  by split.
Defined.

Lemma reorganize_failure_keeps_branch_witness :
  exists c' e', reorganizeChainLocked accept_all all_sealed 0 map_to_list map_to_list dup g0 bad2 broken
                = Val (c', Err e') /\ blocks c' = [g0; f1; bad2] /\
    AuditChain accept_all c' <> Ok tt.
Proof.
  exact (reorganize_failure_keeps_branch accept_all all_sealed 0 map_to_list map_to_list dup broken g0
           bad2 [f1; bad2] broken_state _ eq_refl (g0_canonical _ _) broken_branch broken_seals
           broken_recomputed).
Defined.

Lemma try_runs :
  ran_ok (tryReorganizeLocked accept_all all_sealed 0 map_to_list map_to_list dup f2 sample) = true.
Proof.
  unfold tryReorganizeLocked. rewrite bind_get.
  rewrite (bind_run _ _ _ _ _ (lift_res_run _ _ (Some g0) ltac:(vm_compute; reflexivity))).
  rewrite (bind_run _ _ _ _ _ (lift_res_run _ _ 220 ltac:(vm_compute; reflexivity))).
  replace (220 <=? _) with false by (vm_compute; reflexivity).
  destruct reorganize_runs_sample as [c' ->]. done.
Qed.

Lemma try_reorganize_heavier_witness :
  exists c', tryReorganizeLocked accept_all all_sealed 0 map_to_list map_to_list dup f2 sample
             = Val (c', Ok tt) /\
    (c' = sample \/ (consistent accept_all c' /\ 200 < canonicalWork c')).
Proof.
  destruct (ran_ok_spec _ try_runs) as [c' E]. exists c'. split; [exact E|].
  exact (try_reorganize_heavier accept_all all_sealed 0 map_to_list map_to_list dup sample c' f2
           sample_known_ok sample_indexed (chain_with_consistent _ _) eq_refl f2_known E).
Defined.

Lemma rollback_consistent_witness :
  exists c', RollbackToHeight accept_all map_to_list dup 0 sample = Val (c', Ok tt) /\
    consistent accept_all c' /\ blocks c' = [g0].
Proof.
  apply (rollback_consistent accept_all map_to_list dup sample 0 (chain_with_consistent _ _)).
  split; [lia|reflexivity].
Defined.

Lemma fresh_difficulty_zero_witness :
  Chain_CalcNextDifficulty (Some g0) 1700000030 sample = Val (sample, Ok 0).
Proof. apply (fresh_difficulty_zero sample g0 1700000030); reflexivity. Defined.

(** ** [AddBlock] *)
Definition plain : Chain unit := chain_with [] ∅.
Definition version2 (b : Block) : Block :=
  let h := b_Header b in
  mkBlock (b_Hash b) (b_Height b)
    (mkBlockHeader 2 (h_PrevHash h) (h_TimestampUnix h) (h_DifficultyBits h) (h_Difficulty h)
       (h_Nonce h) (h_StateRoot h) (h_MerkleRoot h) (h_Height h) (h_MinerAddress h))
    (b_Transactions b) (b_CoinbaseTx b) (b_MinerAddress b) (b_TotalWork b).
Definition n2 : BlockRef := mkRef 4 (version2 a2).
(** It pays too much as well. *)
Definition bad_next : BlockRef := mkRef 6 (version2 (sample_block 7 2 1700000060 100 2 (reward + 1))).
(** Its parent's hash has a single byte. *)
Definition short_orphan : BlockRef :=
  mkRef 7 (mkBlock (replicate 32 8) 3 (mkBlockHeader 2 [9] 1700000090 100 100 0 [] [] 3 miner_addr)
             [coinbase_tx miner_addr reward] None miner_addr "").

Abbreviation add_to := (AddBlock accept_all all_sealed 0 map_to_list map_to_list map_to_list
                          map_to_list dup (fun l => len l)).

Definition next_state : State :=
  Eval vm_compute in fst (applyBlockToState accept_all main_params main_policy n2 fund_addr
                            sample_state).
Definition bad_next_state : State :=
  Eval vm_compute in fst (applyBlockToState accept_all main_params main_policy bad_next fund_addr
                            sample_state).

Lemma next_applies :
  applyBlockToState accept_all main_params main_policy n2 fund_addr sample_state
  = (next_state, Ok tt).
Proof. vm_cast_no_check (eq_refl (next_state, @Ok unit tt)). Qed.

Lemma bad_next_fails :
  applyBlockToState accept_all main_params main_policy bad_next fund_addr sample_state
  = (bad_next_state, Err "bad coinbase amount").
Proof. vm_cast_no_check (eq_refl (bad_next_state, @Err unit "bad coinbase amount")). Qed.

Lemma null_appends : @appends unit _.
Proof. by intros x s. Qed.

Lemma add_block_extends_witness :
  exists c', add_to n2 plain = Val (c', Ok true) /\ AuditChain accept_all c' = Ok tt /\
    blocks c' = [g0; a1; n2] /\ state c' = next_state /\ canonicalWork c' = 300 /\
    bestTipHash c' = hexhash a1.
Proof.
  refine (add_block_extends accept_all all_sealed 0 map_to_list map_to_list map_to_list map_to_list
    dup (fun l => len l) n2 a1 plain next_state null_appends _ (cs_audit _ _ (chain_with_consistent _ _))
    _ eq_refl eq_refl eq_refl eq_refl _ _ _ eq_refl eq_refl next_applies).
  - by intros m.
  - vm_compute. discriminate.
  - vm_compute. reflexivity.
  - vm_compute. reflexivity.
  - vm_compute. discriminate.
Defined.

Lemma rejected_block_keeps_work_witness :
  exists c' e', add_to bad_next plain = Val (c', Err e') /\ blocks c' = [g0; a1] /\
    state c' = bad_next_state /\ canonicalWork c' = 300.
Proof.
  refine (rejected_block_keeps_work accept_all all_sealed 0 map_to_list map_to_list map_to_list
    map_to_list dup (fun l => len l) bad_next a1 plain bad_next_state _ null_appends eq_refl eq_refl
    _ _ eq_refl eq_refl bad_next_fails); vm_compute; reflexivity.
Defined.

Lemma short_parent_panics_witness :
  add_to short_orphan plain = Halt (Panic "slice bounds out of range").
Proof.
  refine (short_parent_panics accept_all all_sealed 0 map_to_list map_to_list map_to_list
    map_to_list dup (fun l => len l) short_orphan plain eq_refl _ _ _ _ _ _ _);
    try (vm_compute; reflexivity); vm_compute; discriminate.
Defined.

Lemma sample_bounded : forks_bounded sample.
Proof.
  split.
  - assert (Hall : map_Forall (fun _ l => len l <= MaxForkBlocksPerHeight) (forkBlocks sample))
      by (apply (bool_decide_unpack _); vm_compute; exact I).
    exact Hall.
  - vm_compute. discriminate.
Qed.

Lemma add_runs : exists c' r, add_to n2 sample = Val (c', r).
Proof.
  assert (E : match add_to n2 sample with Val _ => true | Halt _ => false end = true)
    by vm_cast_no_check (eq_refl true).
  destruct (add_to n2 sample) as [[c' r]|]; [by eexists _, _|discriminate E].
Qed.

Lemma add_block_forks_bounded_witness :
  exists c' r, add_to n2 sample = Val (c', r) /\ forks_bounded c'.
Proof.
  destruct add_runs as (c' & r & E). exists c', r. split; [exact E|].
  exact (add_block_forks_bounded accept_all all_sealed 0 map_to_list map_to_list map_to_list
           map_to_list dup (fun l => len l) n2 sample c' r sample_bounded E).
Defined.

Lemma reconnect_terminates_witness :
  descendants (cascade accept_all all_sealed 0 map_to_list map_to_list map_to_list dup
                 (fun _ _ => ret (0, 0)) 1) "00" plain
  = processOrphanDescendantsLocked accept_all all_sealed 0 map_to_list map_to_list map_to_list dup
      "00" plain.
Proof.
  apply (reconnect_terminates accept_all all_sealed 0 map_to_list map_to_list map_to_list dup
           (fun _ _ => ret (0, 0)) 1 "00" plain). vm_compute. lia.
Defined.

(** Three orphans wait for [n2].  Taking the first out of the index shifts the others down
    in the array the loop ranges over, so the second one is never tried; the third is stored
    as a fork block and put back into the pool. *)
Definition orphan_child (tag : Z) : BlockRef :=
  mkRef tag (version2 (sample_block tag 3 1700000100 100 5 reward)).
Definition waiting : Chain unit :=
  let os := map orphan_child [11; 12; 13] in
  let hs := map (fun b : BlockRef => hexhash b) os in
  set_orphanPool (by_hash os)
    (set_orphanArrays {[0%nat := hs ++ [""%string]]}
       (set_orphanByParent {[hexhash n2 := mkSlice 0 3]} plain)).

Definition sibling_outcome : bool :=
  match add_to n2 waiting with
  | Val (c, Ok true) =>
      (len (blocks c) =? 4) &&
      bool_decide (is_Some (orphanPool c !! hexhash (orphan_child 12))) &&
      bool_decide (forkBlocksByHash c !! hexhash (orphan_child 12) = None) &&
      bool_decide (is_Some (orphanPool c !! hexhash (orphan_child 13))) &&
      bool_decide (is_Some (forkBlocksByHash c !! hexhash (orphan_child 13)))
  | _ => false
  end.

Lemma orphan_sibling_skipped : sibling_outcome = true.
Proof. vm_cast_no_check (eq_refl true). Qed.
