(* ===== verification/Siblings.v ===== *)
(** * Blocks beside the tip

    Not code of its own, but what [AddBlock] ([blockchain/core/chain.go]) does with a block that has
    the parent of the current tip.  The candidates of one height that lose a selection of the
    candidate pool are such blocks.  As long as fork choice prefers none of them to the tip, [AddBlock]
    stores each of them, or refuses it, and the canonical chain stays what it was: the invariant
    [beside] describes the fork store, the index and the work cache in between. *)

From S2P Require Import Prelude Bytes Sha256 Config Merkle Json Transaction Ledger Float Difficulty FeeChecker Mempool Chain ForkChoice Reorg AddBlock.
From stdpp Require Import base list gmap strings numbers sorting.
From Stdlib Require Import ZArith Lia.

Open Scope Z_scope.
Open Scope go_scope.
Open Scope chain_scope.

Section siblings.
Context {S : Type} `{ChainStore S}.
Variable ed25519_verify : list Z -> list Z -> list Z -> bool.
Variable seal_valid : PowHeader -> bool.
Variable now : Z.
Variable range_blocks : Blocks -> list (string * BlockRef).
Variable range_forks : Forks -> list (Z * list BlockRef).
Variable range_times : gmap string Z -> list (string * Z).
Variable range_cache : gmap string Z -> list (string * Z).
Variable grow : nat -> nat.
Variable capacity : list Z -> Z.

Implicit Types c : Chain S.
Implicit Types x y : BlockRef.

(** ** What the work cache gains

    Fork choice files sums under the hashes of known blocks only. *)
Definition cache_grows c c' : Prop :=
  same_but_cache c c' /\
  forall k v, workCache c' !! k = Some v ->
    workCache c !! k = Some v \/ exists x, known c x /\ k = hexhash x.

Lemma cache_grows_refl c : cache_grows c c.
Proof. split; [exists (workCache c); by destruct c|auto]. Qed.

Lemma cache_grows_trans c1 c2 c3 : cache_grows c1 c2 -> cache_grows c2 c3 -> cache_grows c1 c3.
Proof.
  intros [E1 H1] [E2 H2]. split; [by eapply same_but_cache_trans|]. intros k v Hv.
  destruct (H2 k v Hv) as [Hv'|(x & Hx & ->)]; [by apply H1|]. right. exists x. split; [|done].
  destruct E1 as [m ->]. exact Hx.
Qed.

Lemma walk_known c fuel : forall x path path' base,
  known c x -> (forall y, y ∈ path -> known c y) ->
  work_walk fuel x path c = Val (path', base) -> forall y, y ∈ path' -> known c y.
Proof.
  induction fuel as [|fuel IH]; intros x path path' base Hx Hp E; cbn [work_walk] in E;
    (destruct (workCache c !! hexhash x); [by injection E as <- _|]);
    (destruct (work_parent x c) as [p|] eqn:Ep;
      [|injection E as <- _; intros y [->|Hy]%elem_of_cons; auto]); [done|].
  refine (IH p (x :: path) path' base (work_parent_known c x p Ep) _ E).
  intros y [->|Hy]%elem_of_cons; auto.
Qed.

Lemma accumulate_keys path : forall acc cache total cache' k v,
  accumulate path acc cache = (total, cache') -> cache' !! k = Some v ->
  cache !! k = Some v \/ exists x, x ∈ path /\ k = hexhash x.
Proof.
  induction path as [|x path IH]; intros acc cache total cache' k v E Hv; cbn [accumulate] in E.
  - injection E as _ <-. by left.
  - destruct (IH _ _ _ _ k v E Hv) as [Hk|(y & Hy & ->)].
    + apply lookup_insert_Some in Hk as [[<- _]|[_ Hk]]; [|by left]. right. exists x. set_solver.
    + right. exists y. set_solver.
Qed.

Lemma cumulative_grows c x c' w :
  known c x -> calculateCumulativeWorkLocked range_cache x c = Val (c', w) -> cache_grows c c'.
Proof.
  intros Hx E. unfold calculateCumulativeWorkLocked in E. rewrite bind_get in E.
  destruct (workCache c !! hexhash x); [injection E as <- _; apply cache_grows_refl|].
  unfold lift_res in E. destruct (work_walk _ _ _ _) as [[path base]|] eqn:Ew; [|done].
  unfold bind at 1 in E. cbn [res_bind] in E.
  destruct (accumulate path base (workCache c)) as [total cache] eqn:Ea.
  rewrite !bind_modify in E. injection E as <- _.
  destruct (enforce_cache range_cache (set_workCache cache c)) as (m & -> & Hm).
  split; [by exists m|]. intros k v Hv. apply Hm in Hv.
  destruct (accumulate_keys _ _ _ _ _ _ _ Ea Hv) as [?|(y & Hy & ->)]; [by left|right].
  exists y. split; [|done]. eapply walk_known; [exact Hx| |exact Ew|exact Hy]. set_solver.
Qed.

Lemma best_loop_grows ch forks cands : forall best c c' best',
  (forall x, x ∈ cands -> known c x) ->
  best_loop range_cache ch forks cands best c = Val (c', best') -> cache_grows c c'.
Proof.
  induction cands as [|x cands IH]; intros best c c' best' Hk E; cbn [best_loop] in E.
  { injection E as <- _. apply cache_grows_refl. }
  assert (Hk' : forall y, y ∈ cands -> known c y) by set_solver.
  destruct (_ || _); [by eapply IH|]. rewrite bind_get in E. unfold lift_res in E.
  destruct (isForkChainCompleteLocked x c) as [[]|]; [| |done];
    unfold bind at 1 in E; cbn [res_bind negb] in E; [|by eapply IH].
  apply bind_val in E as (c1 & w & E1 & E2). apply cumulative_grows in E1 as [[m ->] Hg]; [|set_solver].
  eapply cache_grows_trans; [|eapply IH; [|exact E2]; exact Hk']. split; [by exists m|done].
Qed.

Lemma find_best_grows c c' t :
  visits_all_forks range_forks -> findBestChainTipLocked range_forks range_cache c = Val (c', t) -> cache_grows c c'.
Proof.
  intros Hr E. unfold findBestChainTipLocked in E. rewrite bind_get in E.
  destruct (canonicalTipLocked c); [|injection E as <- _; apply cache_grows_refl].
  apply bind_val in E as (c1 & best & E1 & E2). injection E2 as <- _.
  eapply best_loop_grows; [|exact E1]. intros x. by apply all_forks_known.
Qed.

(** ** The family: a chain, its tip [b], and the blocks beside the tip *)
Variables (base : list BlockRef) (parent b : BlockRef) (sibs : list BlockRef).
(** The state of the chain, and its parameters. *)
Variable rest : State * ConsensusParams * MonetaryPolicy * string.

Definition family : list BlockRef := base ++ b :: sibs.

(** What the chain with its tip is worth, and a block beside the tip. *)
Definition base_work : Z := calculateChainWorkLocked base.

Record family_ok : Prop := {
  fo_linked : chain_linked (base ++ [b]);
  fo_len : len base < max_u64;
  fo_parent : last base = Some parent;
  fo_sibs : forall x, x ∈ sibs -> GetHeight x = len base /\ h_PrevHash (b_Header x) = b_Hash parent;
  fo_bytes : forall x, x ∈ family -> length (b_Hash x) = 32%nat /\ Forall is_byte (b_Hash x);
  fo_nodup : NoDup (map (fun x : BlockRef => b_Hash x) family);
  fo_best : forall x, x ∈ sibs ->
    ~ preferred (x, GetHeight x, base_work + block_work x) (b, GetHeight b, base_work + block_work b) }.

(** The chain ends with [b]; of the others, the node knows blocks of [seen] at most. *)
Record beside (seen : list BlockRef) c : Prop := {
  be_blocks : blocks c = base ++ [b];
  be_work : canonicalWork c = calculateChainWorkLocked (base ++ [b]);
  be_index : forall k x, blocksByHash c !! k = Some x -> k = hexhash x /\ x ∈ base ++ b :: seen;
  be_indexed : forall x, x ∈ base ++ [b] -> blocksByHash c !! hexhash x = Some x;
  be_hashes : forall k x, forkBlocksByHash c !! k = Some x -> k = hexhash x /\ x ∈ seen;
  be_forks : forall h l x, forkBlocks c !! h = Some l -> x ∈ l -> x ∈ seen;
  be_cache : forall x v, x ∈ family -> workCache c !! hexhash x = Some v ->
    (exists i, (base ++ [b]) !! i = Some x /\ v = calculateChainWorkLocked (take (Datatypes.S i) (base ++ [b]))) \/
    (x ∈ sibs /\ v = base_work + block_work x);
  be_orphans : orphanByParent c = ∅;
  be_times : orphanTimestamps c = ∅;
  be_rest : (state c, consensus c, monetaryPolicy c, genesisAddress c) = rest }.

Context (Hfam : family_ok).

Lemma family_elem x : x ∈ family <-> x ∈ base \/ x = b \/ x ∈ sibs.
Proof. unfold family. rewrite elem_of_app, elem_of_cons. done. Qed.

Lemma hash_inj x y : x ∈ family -> y ∈ family -> b_Hash x = b_Hash y -> x = y.
Proof.
  pose proof (fo_nodup Hfam) as Hn. revert Hn. generalize family. intros l.
  induction l as [|z l IH]; cbn; [set_solver|]. intros [Hz Hn]%NoDup_cons Hx Hy E.
  assert (Hi : forall u : BlockRef, u ∈ l -> b_Hash u ∈ map (fun x : BlockRef => b_Hash x) l)
    by (intros u Hu; apply (list_elem_of_fmap_2 (fun x : BlockRef => b_Hash x)); done).
  apply elem_of_cons in Hx as [->|Hx], Hy as [->|Hy]; [done| | |by apply IH].
  - destruct Hz. rewrite E. by apply Hi.
  - destruct Hz. rewrite <- E. by apply Hi.
Qed.

Lemma key_inj x y : x ∈ family -> y ∈ family -> hexhash x = hexhash y -> x = y.
Proof.
  intros Hx Hy E. apply hash_inj; [done..|]. unfold hexhash in E.
  apply hex_encode_inj in E; [done|by apply (fo_bytes Hfam)..].
Qed.

Lemma chain_family x : x ∈ base ++ [b] -> x ∈ family.
Proof. rewrite family_elem, elem_of_app, list_elem_of_singleton. tauto. Qed.

Lemma chain_not_sib x : x ∈ base ++ [b] -> x ∈ sibs -> False.
Proof.
  intros Hx Hs. pose proof (fo_nodup Hfam) as Hn. unfold family in Hn.
  replace (base ++ b :: sibs) with ((base ++ [b]) ++ sibs) in Hn by by rewrite <- app_assoc.
  rewrite map_app in Hn. apply NoDup_app in Hn as (_ & Hd & _).
  apply (Hd (b_Hash x)); by apply (list_elem_of_fmap_2 (fun x : BlockRef => b_Hash x)).
Qed.

Lemma parent_elem : parent ∈ base.
Proof. apply last_Some_elem_of, (fo_parent Hfam). Qed.

Lemma base_nonempty : 0 < len base.
Proof. pose proof parent_elem. unfold len. destruct base; [set_solver|cbn; lia]. Qed.

Lemma chain_height i x : (base ++ [b]) !! i = Some x -> GetHeight x = Z.of_nat i.
Proof.
  intros Hi. eapply linked_height; [apply (fo_linked Hfam)| |exact Hi].
  pose proof (fo_len Hfam). unfold len in *. rewrite length_app. cbn. lia.
Qed.

Lemma tip_height : GetHeight b = len base.
Proof. rewrite (chain_height (length base) b); [done|]. by rewrite lookup_app_r, Nat.sub_diag by lia. Qed.

Lemma parent_lookup : (base ++ [b]) !! (length base - 1)%nat = Some parent.
Proof.
  pose proof base_nonempty. unfold len in *. rewrite lookup_app_l by lia.
  pose proof (fo_parent Hfam) as Hp. rewrite last_lookup in Hp. by replace (length base - 1)%nat with (pred (length base)) by lia.
Qed.

Lemma parent_height : GetHeight parent = len base - 1.
Proof. rewrite (chain_height _ _ parent_lookup). pose proof base_nonempty. unfold len in *. lia. Qed.

Lemma links_prev (l : list BlockRef) : forall (p : Block) i x,
  links p l -> l !! Datatypes.S i = Some x -> exists y, l !! i = Some y /\ h_PrevHash (b_Header x) = b_Hash y.
Proof.
  induction l as [|z l IH]; intros p i x Hl Hi; [done|]. destruct Hl as [_ Hl]. cbn in Hi.
  destruct i as [|i].
  - destruct l as [|u l]; [done|]. cbn in Hi. injection Hi as ->. destruct Hl as [(_ & Hp & _) _]. by exists z.
  - destruct (IH z i x Hl Hi) as (y & Hy & Hp). by exists y.
Qed.

Lemma chain_prev i x : (base ++ [b]) !! Datatypes.S i = Some x ->
  exists y, (base ++ [b]) !! i = Some y /\ h_PrevHash (b_Header x) = b_Hash y.
Proof.
  pose proof (fo_linked Hfam) as Hl. destruct (base ++ [b]) as [|g l]; [done|]. destruct Hl as (_ & _ & Hl).
  cbn. destruct i as [|i]; intros Hi; cbn.
  - destruct l as [|z l]; [done|]. cbn in Hi. injection Hi as ->. destruct Hl as [(_ & Hp & _) _]. by exists g.
  - exact (links_prev l g i x Hl Hi).
Qed.

(** ** Walks *)
Section invariant.
Variable seen : list BlockRef.
Context (Hseen : seen ⊆ sibs).

Lemma known_family c x : beside seen c -> known c x -> x ∈ family.
Proof.
  intros J. rewrite family_elem. intros [(h & Hx)|[(h & Hx)|[Hx|(h & l & Hl & Hx)]]].
  - apply (be_hashes _ _ J) in Hx as [_ Hx]. auto.
  - apply (be_index _ _ J) in Hx as [_ Hx]. rewrite elem_of_app, elem_of_cons in Hx. naive_solver.
  - rewrite (be_blocks _ _ J), elem_of_app, list_elem_of_singleton in Hx. tauto.
  - right; right. apply Hseen. by eapply (be_forks _ _ J).
Qed.

Lemma fork_lookup c y : beside seen c -> y ∈ base ++ [b] -> forkBlocksByHash c !! hexhash y = None.
Proof.
  intros J Hy. destruct (forkBlocksByHash c !! hexhash y) as [x|] eqn:E; [|done].
  apply (be_hashes _ _ J) in E as [Hk Hx]. apply key_inj in Hk as ->.
  - destruct (chain_not_sib x Hy). by apply Hseen.
  - by apply chain_family.
  - apply family_elem. auto.
Qed.

Lemma parent_of c x y : beside seen c -> y ∈ base ++ [b] -> h_PrevHash (b_Header x) = b_Hash y ->
  GetHeight x <> 0 -> work_parent x c = Some y.
Proof.
  intros J Hy Hp Hh. unfold work_parent, hexprev. rewrite Hp. fold (hexhash y).
  destruct (fo_bytes Hfam y (chain_family y Hy)) as [Hl _].
  destruct (Z.eqb_spec (len (b_Hash y)) 0) as [E|_]; [unfold len in E; lia|].
  destruct (Z.eqb_spec (GetHeight x) 0); [done|]. cbn [orb].
  unfold lookupBlockInForkBlocksLocked. rewrite (fork_lookup c y J Hy), (be_indexed _ _ J y Hy).
  apply list_elem_of_lookup in Hy as [i Hi]. rewrite (chain_height i y Hi), (be_blocks _ _ J).
  apply lookup_lt_Some in Hi. unfold len. by rewrite (proj2 (Z.ltb_lt _ _)) by lia.
Qed.

Lemma parent_chain c i x : beside seen c -> (base ++ [b]) !! Datatypes.S i = Some x ->
  exists y, (base ++ [b]) !! i = Some y /\ work_parent x c = Some y.
Proof.
  intros J Hi. destruct (chain_prev i x Hi) as (y & Hy & Hp). exists y. split; [done|].
  apply parent_of; [done|by eapply list_elem_of_lookup_2|done|]. rewrite (chain_height _ _ Hi). lia.
Qed.

Lemma parent_sib c x : beside seen c -> x ∈ sibs -> work_parent x c = Some parent.
Proof.
  intros J Hx. destruct (fo_sibs Hfam x Hx) as [Hh Hp].
  apply parent_of; [done|by eapply list_elem_of_lookup_2, parent_lookup|done|].
  rewrite Hh. pose proof base_nonempty. lia.
Qed.

Lemma rooted_chain c i : forall x, beside seen c -> (base ++ [b]) !! i = Some x ->
  rooted c x i (calculateChainWorkLocked (take (Datatypes.S i) (base ++ [b]))).
Proof.
  induction i as [|i IH]; intros x J Hi.
  - rewrite (take_S_r _ 0 x Hi), take_0. cbn [app]. unfold calculateChainWorkLocked. cbn [foldl].
    apply rooted_last. unfold work_parent. rewrite (chain_height _ _ Hi). by rewrite orb_true_r.
  - destruct (parent_chain c i x J Hi) as (y & Hy & Ep).
    rewrite (take_S_r _ _ x Hi), chain_work_app.
    replace (calculateChainWorkLocked [x]) with (block_work x) by reflexivity.
    by apply (rooted_step c x y); [|apply IH].
Qed.

Lemma rooted_sib c x : beside seen c -> x ∈ sibs -> rooted c x (length base) (base_work + block_work x).
Proof.
  intros J Hx. pose proof (rooted_chain c _ parent J parent_lookup) as R. pose proof base_nonempty as Hb. unfold len in Hb.
  replace (Datatypes.S (length base - 1)) with (length base) in R by lia. rewrite take_app_length in R.
  replace (length base) with (Datatypes.S (length base - 1)) by lia.
  apply (rooted_step c x parent); [by apply parent_sib|exact R].
Qed.

(** What a block of the family is worth, as [be_cache] says it. *)
Lemma rooted_worth c x n v : beside seen c -> x ∈ family -> rooted c x n v ->
  (exists i, (base ++ [b]) !! i = Some x /\ v = calculateChainWorkLocked (take (Datatypes.S i) (base ++ [b]))) \/
  (x ∈ sibs /\ v = base_work + block_work x).
Proof.
  intros J Hx R.
  assert (Hcase : x ∈ base ++ [b] \/ x ∈ sibs)
    by (rewrite elem_of_app, list_elem_of_singleton; apply family_elem in Hx; tauto).
  destruct Hcase as [Hc|Hc].
  - left. apply list_elem_of_lookup in Hc as [i Hi]. exists i. split; [done|].
    by destruct (rooted_det _ _ _ _ _ _ R (rooted_chain c i x J Hi)).
  - right. split; [done|]. by destruct (rooted_det _ _ _ _ _ _ R (rooted_sib c x J Hc)).
Qed.

Lemma beside_known_ok c : beside seen c -> known_ok c.
Proof.
  intros J. assert (Hlow : forall x, x ∈ family -> 0 <= GetHeight x /\
    forall p, work_parent x c = Some p -> GetHeight p < GetHeight x).
  { intros x Hx. apply family_elem in Hx.
    assert (Hcase : (exists i, (base ++ [b]) !! i = Some x) \/ x ∈ sibs).
    { rewrite <- list_elem_of_lookup, elem_of_app, list_elem_of_singleton. tauto. }
    destruct Hcase as [[i Hi]|Hs].
    - rewrite (chain_height i x Hi). split; [lia|]. intros p Ep. destruct i as [|i].
      + unfold work_parent in Ep. rewrite (chain_height _ _ Hi), orb_true_r in Ep. done.
      + destruct (parent_chain c i x J Hi) as (y & Hy & Ey). rewrite Ey in Ep. injection Ep as <-.
        rewrite (chain_height _ _ Hy). lia.
    - destruct (fo_sibs Hfam x Hs) as [-> _]. pose proof base_nonempty. split; [lia|]. intros p Ep.
      rewrite (parent_sib c x J Hs) in Ep. injection Ep as <-. rewrite parent_height. lia. }
  split.
  - intros x Hx. apply (fo_bytes Hfam). by apply (known_family c).
  - intros x y Hx Hy E. f_equal. apply hash_inj; [by apply (known_family c)..|done].
  - intros x Hx. by apply Hlow, (known_family c).
  - intros x p Hx. by apply Hlow, (known_family c).
Qed.

Lemma beside_cache_ok c : beside seen c -> cache_ok c.
Proof.
  intros J x v Hx Hv. pose proof (known_family c x J Hx) as Hf.
  destruct (be_cache _ _ J x v Hf Hv) as [(i & Hi & ->)|[Hs ->]].
  - exists i. by apply rooted_chain.
  - exists (length base). by apply rooted_sib.
Qed.

(** ** Fork choice keeps the tip *)
Lemma beside_cache c c' : beside seen c -> cache_grows c c' -> cache_ok c' -> beside seen c'.
Proof.
  intros J [[m ->] Hg] Hok. pose proof J as [J1 J2 J3 J4 J5 J6 J7 J8 J9 J10]. split; try done.
  intros x v Hx Hv. destruct (Hg _ _ Hv) as [Hv'|(y & Hy & E)]; [by apply J7|].
  apply key_inj in E as ->; [|done|by apply (known_family c)].
  destruct (Hok y v) as [n R]; [done|done|]. apply rooted_set_cache in R. by apply (rooted_worth c y n).
Qed.

Lemma tip_wins c : visits_all_forks range_forks -> beside seen c ->
  exists c', findBestChainTipLocked range_forks range_cache c = Val (c', Some b) /\ beside seen c'.
Proof.
  intros Hr J. pose proof (beside_known_ok c J) as Hk. pose proof (beside_cache_ok c J) as Hc.
  assert (Ht : canonicalTipLocked c = Some b) by (unfold canonicalTipLocked; by rewrite (be_blocks _ _ J), last_snoc).
  destruct (find_best_spec range_forks range_cache c b Hk Hc Ht) as (m & x & E & Hok & [Hfrom Hold _]).
  { intros y. by apply all_forks_known. }
  assert (Hh : len (blocks c) - 1 = GetHeight b).
  { rewrite (be_blocks _ _ J), tip_height. unfold len. rewrite length_app. cbn. lia. }
  assert (Hw : canonicalWork c = base_work + block_work b).
  { rewrite (be_work _ _ J), chain_work_app. done. }
  rewrite Hh, Hw in Hfrom, Hold. assert (cand_block x = b) as Ex.
  { destruct Hfrom as [->|(y & Hy & _ & (n & w & R & ->))]; [done|]. cbn [cand_block fst].
    apply all_forks_elem in Hy as (h & l & Hl & Hy); [|done]. apply (be_forks _ _ J _ _ _ Hl), Hseen in Hy.
    destruct (rooted_det _ _ _ _ _ _ R (rooted_sib c y J Hy)) as [_ ->].
    assert (Hyf : y ∈ family) by (apply family_elem; auto). assert (Hbf : b ∈ family) by (apply family_elem; auto).
    destruct (preferred_total (y, GetHeight y, base_work + block_work y) (b, GetHeight b, base_work + block_work b))
      as (E1 & _); cbn [cand_block fst]; try (by apply (fo_bytes Hfam)); [by apply (fo_best Hfam)|done|].
    by apply hash_inj. }
  rewrite Ex in E. eexists. split; [exact E|]. eapply beside_cache; [exact J| |exact Hok]. by eapply find_best_grows.
Qed.

Lemma tip_kept c : visits_all_forks range_forks -> beside seen c ->
  exists c', shouldReorgToHeaviestLocked range_forks range_cache c = Val (c', false) /\ beside seen c'.
Proof.
  intros Hr J. unfold shouldReorgToHeaviestLocked. rewrite bind_get. unfold canonicalTipLocked. rewrite (be_blocks _ _ J), last_snoc.
  destruct (_ =? _)%nat; [by exists c|]. destruct (tip_wins c Hr J) as (c' & E & J').
  rewrite (bind_run _ _ _ _ _ E). exists c'. by rewrite str_eqb_refl.
Qed.

Lemma auto_kept c : visits_all_forks range_forks -> beside seen c ->
  exists c', autoReorgIfNeededLocked ed25519_verify seal_valid now range_blocks range_forks range_cache grow c = Val (c', tt) /\
    beside seen c'.
Proof.
  intros Hr J. unfold autoReorgIfNeededLocked. destruct (tip_wins c Hr J) as (c' & E & J').
  rewrite (bind_run _ _ _ _ _ E), bind_get. unfold canonicalTipLocked. rewrite (be_blocks _ _ J'), last_snoc, str_eqb_refl.
  by exists c'.
Qed.

Lemma debounced_kept c : visits_all_forks range_forks -> beside seen c ->
  exists c', debouncedAutoReorgLocked ed25519_verify seal_valid now range_blocks range_forks range_cache grow c = Val (c', tt) /\
    beside seen c'.
Proof.
  intros Hr J. unfold debouncedAutoReorgLocked. rewrite bind_get. destruct (_ <? _); [by exists c|].
  rewrite bind_modify. apply auto_kept; [done|]. by destruct J.
Qed.
End invariant.

(** ** Storing a block beside the tip *)
Lemma beside_mono seen seen' c : seen ⊆ seen' -> beside seen c -> beside seen' c.
Proof.
  intros Hs [J1 J2 J3 J4 J5 J6 J7 J8 J9 J10]. split; try done.
  - intros k x Hk. destruct (J3 k x Hk) as [-> Hx]. split; [done|].
    rewrite !elem_of_app, !elem_of_cons in *. naive_solver.
  - intros k x Hk. destruct (J5 k x Hk) as [-> Hx]. auto.
  - intros h l x Hl Hx. eauto.
Qed.

Lemma not_indexed seen c x : seen ⊆ sibs -> x ∈ sibs -> x ∉ seen -> beside seen c -> blocksByHash c !! hexhash x = None.
Proof.
  intros Hs Hx Hn J. destruct (blocksByHash c !! hexhash x) as [y|] eqn:E; [|done].
  apply (be_index _ _ J) in E as [Hk Hy].
  assert (Hyf : y ∈ family) by (apply family_elem; rewrite elem_of_app, elem_of_cons in Hy; naive_solver).
  apply key_inj in Hk as ->; [|apply family_elem; auto|done].
  destruct (chain_not_sib y); [|done]. rewrite elem_of_app, elem_of_cons in Hy. rewrite elem_of_app, list_elem_of_singleton.
  naive_solver.
Qed.

Lemma chain_key seen x y : seen ⊆ sibs -> y ∈ base ++ [b] -> x ∈ seen -> hexhash y <> hexhash x.
Proof.
  intros Hs Hy Hx E. apply key_inj in E as ->; [|by apply chain_family|apply family_elem; auto].
  destruct (chain_not_sib x); auto.
Qed.

Lemma file_beside seen c x : seen ⊆ sibs -> x ∈ seen -> beside seen c ->
  beside seen (set_blocksByHash (<[hexhash x := x]> (blocksByHash c)) c).
Proof.
  intros Hs Hx [J1 J2 J3 J4 J5 J6 J7 J8 J9 J10]. split; try done.
  - intros k y Hk. cbn in Hk. apply lookup_insert_Some in Hk as [[<- <-]|[_ Hk]]; [|by apply J3].
    split; [done|]. rewrite elem_of_app, elem_of_cons. auto.
  - intros y Hy. cbn. rewrite lookup_insert_ne by (intros E; by apply (chain_key seen x y Hs Hy Hx)). by apply J4.
Qed.

Lemma drop_beside seen c x : seen ⊆ sibs -> x ∈ seen -> beside seen c -> beside seen (drop_fork_hash x c).
Proof.
  intros Hs Hx [J1 J2 J3 J4 J5 J6 J7 J8 J9 J10]. split; try done.
  - intros k y Hk. cbn in Hk. apply lookup_delete_Some in Hk as [_ Hk]. by apply J3.
  - intros y Hy. cbn. rewrite lookup_delete_ne by (intros E; by apply (chain_key seen x y Hs Hy Hx)). by apply J4.
  - intros k y Hk. cbn in Hk. apply lookup_delete_Some in Hk as [_ Hk]. by apply J5.
Qed.

Lemma drops_beside seen l : forall c, seen ⊆ sibs -> l ⊆ seen -> beside seen c -> beside seen (drop_fork_hashes l c).
Proof.
  induction l as [|x l IH]; intros c Hs Hl J; [done|].
  apply IH; [done|set_solver|]. apply drop_beside; [done|set_solver|done].
Qed.

Lemma forks_beside seen c m : (forall h l x, m !! h = Some l -> x ∈ l -> x ∈ seen) -> beside seen c ->
  beside seen (set_forkBlocks m c).
Proof. intros Hm []. by split. Qed.

Lemma at_beside seen c h : beside seen c -> fork_blocks_at h c ⊆ seen.
Proof.
  intros J x. unfold fork_blocks_at. destruct (forkBlocks c !! h) as [l|] eqn:E; cbn; [|set_solver].
  intros Hx. by apply (be_forks _ _ J h l x).
Qed.

Lemma trim_height_beside seen h c : seen ⊆ sibs -> beside seen c -> beside seen (trim_height h c).
Proof.
  intros Hs J. unfold trim_height. destruct (_ >? _); [|done]. pose proof (at_beside seen c h J) as Hh.
  assert (J' : beside seen (drop_fork_hashes (take (Z.to_nat (len (fork_blocks_at h c) - MaxForkBlocksPerHeight)) (fork_blocks_at h c)) c)).
  { apply drops_beside; [done| |done]. intros x Hx. apply Hh. eapply subseteq_take, Hx. }
  apply forks_beside; [|done]. intros k l x Hl Hx. apply lookup_insert_Some in Hl as [[_ <-]|[_ Hl]].
  - apply Hh. eapply subseteq_drop, Hx.
  - by apply (be_forks _ _ J' k l x).
Qed.

Lemma trim_whole_beside seen hs : forall total c, seen ⊆ sibs -> beside seen c -> beside seen (trim_whole hs total c).
Proof.
  induction hs as [|h hs IH]; intros total c Hs J; cbn [trim_whole]; [done|]. destruct (_ <=? _); [done|].
  apply IH; [done|].
  assert (J' : beside seen (drop_fork_hashes (fork_blocks_at h c) c)) by (apply drops_beside; [done|by apply at_beside|done]).
  apply forks_beside; [|done]. intros k l x Hl Hx. apply lookup_delete_Some in Hl as [_ Hl].
  by apply (be_forks _ _ J' k l x).
Qed.

Lemma store_beside seen c x : seen ⊆ sibs -> x ∈ seen -> beside seen c -> beside seen (store_fork x (hexhash x) c).
Proof.
  intros Hs Hx J. unfold store_fork, trim_total.
  set (c1 := set_forkBlocks (<[GetHeight x := fork_blocks_at (GetHeight x) c ++ [x]]> (forkBlocks c)) c).
  assert (J1 : beside seen c1).
  { apply forks_beside; [|done]. intros h l y Hl Hy. apply lookup_insert_Some in Hl as [[_ <-]|[_ Hl]].
    - apply elem_of_app in Hy as [Hy|Hy%list_elem_of_singleton]; [by eapply at_beside|by subst].
    - by apply (be_forks _ _ J h l y). }
  set (c2 := set_blocksByHash _ _).
  assert (J2 : beside seen c2).
  { unfold c2. apply (file_beside seen (set_forkBlocksByHash (<[hexhash x:=x]> (forkBlocksByHash c1)) c1)); [done|done|].
    destruct J1 as [? ? ? ? J5 ? ? ? ? ?]. split; try done. intros k y Hk. cbn in Hk.
    apply lookup_insert_Some in Hk as [[<- <-]|[_ Hk]]; [done|by apply J5]. }
  pose proof (trim_height_beside seen (GetHeight x) c2 Hs J2) as J3.
  destruct (_ >? _); [|done]. by apply trim_whole_beside.
Qed.

(** ** Adding a block beside the tip *)
Abbreviation descend_orphans := (processOrphanDescendantsLocked ed25519_verify seal_valid now range_blocks range_forks range_cache grow).

Lemma no_descendants seen c h : beside seen c -> descend_orphans h c = Val (c, tt).
Proof.
  intros J. unfold processOrphanDescendantsLocked, descendants. rewrite !bind_get, (be_orphans _ _ J), lookup_empty.
  by destruct (orphanReady c).
Qed.

Lemma long_hash (h : list Z) : length h = 32%nat -> forall c, log_prefix 16 (hex_encode h) c = Val (c, tt).
Proof. intros Hl c. unfold log_prefix, strlen. rewrite hex_encode_length, Hl. done. Qed.

Lemma new_fork_beside seen c x : visits_all_forks range_forks -> seen ⊆ sibs -> x ∈ seen -> beside seen c ->
  exists c' r, new_fork ed25519_verify seal_valid now range_blocks range_forks range_cache grow descend_orphans x (hexhash x) c = Val (c', r) /\
    beside seen c'.
Proof.
  intros Hr Hs Hx J. unfold new_fork. rewrite bind_modify.
  pose proof (store_beside seen c x Hs Hx J) as J1. set (c1 := store_fork x (hexhash x) c) in *. clearbody c1.
  rewrite bind_get. destruct (fo_sibs Hfam x (Hs _ Hx)) as [Hh Hp]. pose proof (fo_len Hfam) as Hlen. pose proof base_nonempty as Hne.
  assert (Hl1 : len (blocks c1) = len base + 1) by (rewrite (be_blocks _ _ J1); unfold len; rewrite length_app; cbn; lia).
  rewrite Hh, Hl1. rewrite (Z.geb_leb (len base)).
  destruct (Z.leb_spec (len base + 1) (len base)); [lia|]. rewrite andb_false_r, bind_ret.
  assert (Hxf : x ∈ family) by (apply family_elem; auto).
  rewrite (bind_run _ _ _ _ _ (long_hash (b_Hash x) (proj1 (fo_bytes Hfam x Hxf)) c1)).
  assert (Hm : ask_if_missing now x c1 = Val (c1, false)).
  { unfold ask_if_missing. rewrite bind_get. unfold parent_missing, hexprev. rewrite Hp. fold (hexhash parent).
    rewrite (be_indexed _ _ J1) by (eapply list_elem_of_lookup_2, parent_lookup). by rewrite bind_ret. }
  rewrite (bind_run _ _ _ _ _ Hm), bind_get. unfold lift_res.
  assert (Hxk : exists r, isForkChainCompleteLocked x c1 = Val r).
  { unfold isForkChainCompleteLocked. change maxSteps with (Datatypes.S (pred maxSteps)). cbn [complete_loop existsb].
    rewrite Hh. destruct (Z.eqb_spec (len base) 0); [lia|]. unfold isParentOnActiveChainLocked, hexprev. rewrite Hp. fold (hexhash parent).
    rewrite (be_indexed _ _ J1) by (eapply list_elem_of_lookup_2, parent_lookup).
    unfold block_at. rewrite parent_height, Hl1. rewrite (proj2 (Z.leb_le _ _)), (proj2 (Z.ltb_lt _ _)) by lia. cbn [andb].
    rewrite (be_blocks _ _ J1). replace (Z.to_nat (len base - 1)) with (length base - 1)%nat by (unfold len; lia).
    rewrite parent_lookup, str_eqb_refl. by exists true. }
  destruct Hxk as [r Er]. rewrite Er. unfold bind at 1. cbn [res_bind].
  assert (Hb : exists c2, (if r then shouldReorgToHeaviestLocked range_forks range_cache else ret false) c1 = Val (c2, false) /\ beside seen c2).
  { destruct r; [by apply tip_kept|by exists c1]. }
  destruct Hb as (c2 & E2 & J2). rewrite (bind_run _ _ _ _ _ E2), (bind_run _ _ _ _ _ (no_descendants seen c2 _ J2)).
  destruct (debounced_kept seen Hs c2 Hr J2) as (c3 & E3 & J3). rewrite (bind_run _ _ _ _ _ E3). by exists c3, (Ok false).
Qed.

Lemma add_fork_beside seen c x : visits_all_forks range_forks -> seen ⊆ sibs -> x ∈ seen -> beside seen c ->
  (forall y, y ∈ fork_blocks_at (GetHeight x) c -> y <> x) ->
  exists c' r, addForkBlockLocked ed25519_verify seal_valid now range_blocks range_forks range_cache grow descend_orphans x (hexhash x) c = Val (c', r) /\
    beside seen c'.
Proof.
  intros Hr Hs Hx J Hn. unfold addForkBlockLocked.
  assert (Hxf : x ∈ family) by (apply family_elem; auto).
  assert (Hc : exists r, check_fork_seal seal_valid x (hexhash x) c = Val (c, r)).
  { unfold check_fork_seal. rewrite bind_get. destruct (_ && _); [|by eexists].
    rewrite (bind_run _ _ _ _ _ (long_hash (b_Hash x) (proj1 (fo_bytes Hfam x Hxf)) c)). case_match; by eexists. }
  destruct Hc as [r Ec]. unfold try at 1. rewrite (bind_run _ _ _ _ _ Ec). destruct r as [[]|e]; [|by exists c, (Err e)].
  rewrite bind_get. replace (existsb _ _) with false; [by apply new_fork_beside|].
  symmetry. apply not_true_is_false. intros He. apply existsb_exists in He as (y & Hy & E).
  apply list_elem_of_In in Hy. apply str_eqb_spec in E. apply (Hn y Hy). apply key_inj; [|done|done].
  apply family_elem. right; right. apply Hs. by eapply at_beside.
Qed.

(** [AddBlock] of a block beside the tip returns, and the chain still ends with the tip. *)
Lemma AddBlock_beside seen c x : visits_all_forks range_forks -> seen ⊆ sibs -> x ∈ sibs -> x ∉ seen -> beside seen c ->
  exists c' r, AddBlock ed25519_verify seal_valid now range_blocks range_forks range_times range_cache grow capacity x c = Val (c', r) /\
    beside (x :: seen) c'.
Proof.
  intros Hr Hs Hx Hn J. unfold AddBlock. rewrite bind_modify, bind_get.
  assert (Ecl : cleanupExpiredOrphansLocked now range_times c = c)
    by (unfold cleanupExpiredOrphansLocked; by rewrite (be_times _ _ J), map_size_empty).
  rewrite Ecl. assert (Hs' : x :: seen ⊆ sibs) by set_solver. assert (Hxs : x ∈ x :: seen) by set_solver.
  assert (J' : beside (x :: seen) c) by (apply (beside_mono seen); [set_solver|done]).
  destruct (validateBlockConsensusLocked x c) as [[]|e]; [|by eexists _, _].
  rewrite (not_indexed seen c x Hs Hx Hn J), bind_modify. unfold ensure_known. rewrite (not_indexed seen c x Hs Hx Hn J).
  pose proof (file_beside (x :: seen) c x Hs' Hxs J') as J1. set (c1 := set_blocksByHash _ c) in *.
  assert (Hat : forall y, y ∈ fork_blocks_at (GetHeight x) c1 -> y <> x).
  { intros y Hy ->. apply Hn. by apply (at_beside seen c (GetHeight x) J). }
  clearbody c1. unfold add_new. rewrite bind_get. destruct (fo_sibs Hfam x Hx) as [Hh Hp].
  assert (Hl1 : len (blocks c1) = len base + 1) by (rewrite (be_blocks _ _ J1); unfold len; rewrite length_app; cbn; lia).
  rewrite Hl1. replace (GetHeight x =? len base + 1) with false by lia. replace (GetHeight x <? len base + 1) with true by lia.
  assert (Hlog : forall u : bool, (if u then log_prefix 16 (hexprev x) else ret tt) c1 = Val (c1, tt)).
  { intros []; [|done]. unfold hexprev. rewrite Hp. apply long_hash, (fo_bytes Hfam), chain_family.
    eapply list_elem_of_lookup_2, parent_lookup. }
  rewrite (bind_run _ _ _ _ _ (Hlog _)). by apply add_fork_beside.
Qed.

(** ** Where it starts *)

(** A node that knows its canonical chain and nothing else. *)
Record alone c : Prop := {
  al_work : canonicalWork c = calculateChainWorkLocked (blocks c);
  al_index : forall k x, blocksByHash c !! k = Some x <-> x ∈ blocks c /\ k = hexhash x;
  al_hashes : forkBlocksByHash c = ∅;
  al_forks : forkBlocks c = ∅;
  al_cache : forall k v, workCache c !! k = Some v ->
    exists i x, blocks c !! i = Some x /\ k = hexhash x /\
      v = calculateChainWorkLocked (take (Datatypes.S i) (blocks c));
  al_orphans : orphanByParent c = ∅;
  al_times : orphanTimestamps c = ∅ }.

Lemma beside_start c c1 best : alone c -> blocks c = base ->
  core c1 = (base ++ [b], fst (fst (fst rest)), best, canonicalWork c + block_work b,
             (snd (fst (fst rest)), snd (fst rest), snd rest)) ->
  fork_side c1 = fork_side (filed b c) -> beside [] c1.
Proof.
  intros [A1 A2 A3 A4 A5 A6 A7] Hb Ec Ef.
  rewrite Hb in A1. setoid_rewrite Hb in A2. setoid_rewrite Hb in A5. unfold core in Ec. injection Ec as E1 E2 _ E4 E5 E6 E7.
  unfold fork_side in Ef. injection Ef as F1 F2 F3 F4 F5 F6. cbn in F1, F2, F3, F4, F5, F6. split.
  - done.
  - rewrite E4, A1, chain_work_app. done.
  - intros k x Hk. rewrite F1 in Hk. rewrite elem_of_app, list_elem_of_singleton.
    apply lookup_insert_Some in Hk as [[<- <-]|[_ Hk]]; [by split; [|right]|]. apply A2 in Hk as [? ->]. by split; [|left].
  - intros x Hx. rewrite F1. apply lookup_insert_Some. destruct (decide (hexhash b = hexhash x)) as [E|Hne].
    + left. split; [done|]. apply key_inj; [|by apply chain_family|done]. apply family_elem. auto.
    + right. split; [done|]. apply A2. split; [|done]. apply elem_of_app in Hx as [?|Hx%list_elem_of_singleton]; congruence.
  - intros k x. by rewrite F3, A3, lookup_empty.
  - intros h l x. by rewrite F2, A4, lookup_empty.
  - intros x v Hx. rewrite F4. intros Hv. left. apply A5 in Hv as (i & y & Hi & Ek & ->).
    apply key_inj in Ek as ->; [|done|apply family_elem; left; by eapply list_elem_of_lookup_2].
    exists i. apply lookup_lt_Some in Hi as Hlt. split; [by rewrite lookup_app_l by lia|].
    by rewrite take_app_le by lia.
  - by rewrite F5.
  - by rewrite F6.
  - destruct rest as [[[? ?] ?] ?]. cbn in *. congruence.
Qed.
End siblings.
