(* ===== verification/CandidatePool.v ===== *)
(** * The candidate pool ([core/candidate_pool.go])

    Blocks near the tip are not added at once: for each height a window is opened in which
    blocks of several sources compete, and when its timer fires the block with the least
    selection key is added to the chain, the others after it.  [GetBlockProof] of
    [core/work.go] is here too.

    Each reading of the clock is an argument, as is the result of [sort.Slice], which is
    bound only by its specification.  The chain is a client behind the class [Acceptor],
    which [AddBlock] implements.  The two mutexes are in the last part: there submission and
    selection are sequences of lock operations that interleave. *)

From S2P Require Import Prelude Bytes Sha256 Config Merkle Json Transaction Ledger Float Difficulty FeeChecker Mempool Chain ForkChoice Reorg AddBlock ChainSample Siblings.
From stdpp Require Import base list gmap strings numbers sorting.
From Stdlib Require Import ZArith Lia.

Open Scope Z_scope.
Open Scope go_scope.
Open Scope chain_scope.

(** ** Data *)
Definition second : Z := 1000000000.
Definition defaultTotalInterval : Z := 30 * second.
Definition defaultMinWindowDuration : Z := 10 * second.
Definition defaultMaxLateness : Z := 120 * second.
Definition defaultMaxCandidates : Z := 50.
Definition defaultMaxExtensionWindow : Z := 30 * second.
Definition poolHeightTolerance : Z := 2.

Record Candidate := mkCandidate {
  ca_Block : option BlockRef; ca_SourceID : string; ca_SubmittedAt : Z; ca_MinedAt : Z;
  ca_Work : Z; ca_Validated : bool }.

(** [hp_timer]: whether the timer that ends the window is running. *)
Record HeightPool := mkHeightPool {
  hp_Height : Z; hp_FirstArrival : Z; hp_Deadline : Z; hp_Candidates : list Candidate;
  hp_timer : bool; hp_Closed : bool }.

Record CandidatePool := mkPool {
  pools : gmap Z HeightPool;
  TotalInterval : Z; MinWindowDuration : Z; MaxLateness : Z; MaxCandidates : Z;
  MaxExtensionWindow : Z;
  has_chain : bool; has_workCalc : bool; stopped : bool;
  has_callback : bool; selected : list BlockRef (* calls of [OnBlockSelected] *) }.

Definition set_pools (x : gmap Z HeightPool) (p : CandidatePool) : CandidatePool :=
  mkPool x (TotalInterval p) (MinWindowDuration p) (MaxLateness p) (MaxCandidates p) (MaxExtensionWindow p)
    (has_chain p) (has_workCalc p) (stopped p) (has_callback p) (selected p).
Definition set_selected (x : list BlockRef) (p : CandidatePool) : CandidatePool :=
  mkPool (pools p) (TotalInterval p) (MinWindowDuration p) (MaxLateness p) (MaxCandidates p) (MaxExtensionWindow p)
    (has_chain p) (has_workCalc p) (stopped p) (has_callback p) x.

Definition NewCandidatePool : CandidatePool :=
  mkPool ∅ defaultTotalInterval defaultMinWindowDuration defaultMaxLateness defaultMaxCandidates
    defaultMaxExtensionWindow false false false false [].

Definition SetChainReference (wc : bool) (p : CandidatePool) : CandidatePool :=
  if stopped p then p
  else mkPool (pools p) (TotalInterval p) (MinWindowDuration p) (MaxLateness p) (MaxCandidates p)
         (MaxExtensionWindow p) true wc (stopped p) (has_callback p) (selected p).

(** [work.go]: the work of a block is its difficulty. *)
Definition GetBlockProof (difficultyBits : Z) : Z := if difficultyBits =? 0 then 0 else difficultyBits.

(** The readings of the clock during one submission, in the order of the code. *)
Record Clock := mkClock { t_delay : Z; t_check : Z; t_open : Z; t_mining : Z; t_submit : Z }.

(** ** Selection keys *)
Definition computeSourceMask (sourceID : string) : list Z :=
  if strlen sourceID =? 0 then [0; 0; 0; 0] else take 4 (sha256 (bytes_of_string sourceID)).

Definition xor_mask (hash mask : list Z) : list Z :=
  imap (fun i x => Z.lxor x (mask !!! (i `mod` length mask)%nat)) hash.

Definition weightedSelectKey (c : Candidate) : list Z :=
  match ca_Block c with
  | None => []
  | Some b => if len (b_Hash b) =? 0 then [] else xor_mask (b_Hash b) (computeSourceMask (ca_SourceID c))
  end.

(** The comparison loop; [None] when one key ends. *)
Fixpoint key_cmp (a b : list Z) : option bool :=
  match a, b with
  | x :: a', y :: b' =>
      if x <? y then Some true else if y <? x then Some false else key_cmp a' b'
  | _, _ => None
  end.

Definition block_time (c : Candidate) : Z :=
  match ca_Block c with Some b => h_TimestampUnix (b_Header b) | None => 0 end.

(** The [less] function of [sort.Slice]. *)
Definition less (ci cj : Candidate) : bool :=
  match ca_Block ci, ca_Block cj with
  | None, None => ca_SubmittedAt ci <? ca_SubmittedAt cj
  | None, Some _ => false
  | Some _, None => true
  | Some _, Some _ =>
      match key_cmp (weightedSelectKey ci) (weightedSelectKey cj) with
      | Some b => b
      | None => block_time ci <? block_time cj
      end
  end.

(** ** Submitting *)
Definition candidate_height (b : Block) : Z :=
  let height := h_Height (b_Header b) in
  if (height =? 0) && negb (b_Height b =? 0) then b_Height b else height.

Definition candidate_hash (c : Candidate) : string :=
  match ca_Block c with Some b => hexhash b | None => "" end.

(** The loop over the candidates of the height; [blockHash[:16]] in the message panics for a
    hash of fewer than 8 bytes. *)
Fixpoint check_candidates (blockHash sourceID : string) (cs : list Candidate) : res (result unit) :=
  match cs with
  | [] => Val (Ok tt)
  | c :: cs' =>
      if bool_decide (is_Some (ca_Block c)) && str_eqb (candidate_hash c) blockHash
      then res_bind (slice16 blockHash) (fun _ => Val (Err "candidate pool: duplicate candidate"))
      else if str_eqb (ca_SourceID c) sourceID
      then Val (Err "candidate pool: source already submitted")
      else check_candidates blockHash sourceID cs'
  end.

Definition clamp_window (p : CandidatePool) (remainingWindow : Z) : Z :=
  let w := if remainingWindow <? MinWindowDuration p then MinWindowDuration p else remainingWindow in
  if MaxExtensionWindow p <? w then MaxExtensionWindow p else w.

Definition mining_duration (clk : Clock) (minedAt : Z) : Z :=
  let d := since (t_mining clk) minedAt in if d <? 0 then 0 else d.

(** The deadline of a window opened by [SubmitCandidate]. *)
Definition local_deadline (p : CandidatePool) (clk : Clock) (minedAt : Z) : Z :=
  let miningDuration := mining_duration clk minedAt in
  let remainingWindow :=
    if miningDuration <=? TotalInterval p then TotalInterval p - miningDuration else MinWindowDuration p in
  t_open clk + clamp_window p remainingWindow.

(** The deadline of a window opened by [SubmitCandidateWithDeadline]: the sender's, unless it
    is absent or past. *)
Definition synced_deadline (deadline : Z) (p : CandidatePool) (clk : Clock) (minedAt : Z) : Z :=
  if (deadline =? zero_time) || (deadline <? t_open clk)
  then t_open clk + clamp_window p (TotalInterval p - mining_duration clk minedAt)
  else deadline.

(** The pool a candidate goes into: the one of its height, or a new one. *)
Definition target_pool (deadline : Z) (clk : Clock) (height : Z) (blockHash sourceID : string) (p : CandidatePool)
    : res (result HeightPool) :=
  match pools p !! height with
  | Some pool =>
      if hp_Closed pool || (hp_Deadline pool <? t_check clk)
      then Val (Err "candidate pool: window closed")
      else res_bind (check_candidates blockHash sourceID (hp_Candidates pool)) (fun r =>
           match r with
           | Err e => Val (Err e)
           | Ok _ => if MaxCandidates p <=? len (hp_Candidates pool)
                     then Val (Err "candidate pool: pool full") else Val (Ok pool)
           end)
  | None => Val (Ok (mkHeightPool height (t_open clk) deadline [] true false))
  end.

Definition submit_with (deadline_of : CandidatePool -> Clock -> Z -> Z) (clk : Clock) (block : option BlockRef)
    (sourceID : string) (minedAt : Z) : P CandidatePool (result unit) :=
  let# p := p_get in
  if stopped p then p_ret (Err "candidate pool: pool is stopped")
  else match block with
  | None => p_ret (Err "candidate pool: nil block")
  | Some b =>
      if len (b_Hash b) =? 0 then p_ret (Err "candidate pool: block hash is empty")
      else
        let height := candidate_height b in
        if MaxLateness p <? since (t_delay clk) minedAt then p_ret (Err "candidate pool: late submission")
        else
          let# r := p_lift (target_pool (deadline_of p clk minedAt) clk height (hexhash b) sourceID p) in
          match r with
          | Err e => p_ret (Err e)
          | Ok pool =>
              let work := if has_workCalc p then GetBlockProof (h_DifficultyBits (b_Header b)) else 0 in
              let candidate := mkCandidate (Some b) sourceID (t_submit clk) minedAt work false in
              p_modify (set_pools (<[height :=
                mkHeightPool (hp_Height pool) (hp_FirstArrival pool) (hp_Deadline pool)
                  (hp_Candidates pool ++ [candidate]) (hp_timer pool) (hp_Closed pool)]> (pools p))) ;;#
              p_ret (Ok tt)
          end
  end.

Definition SubmitCandidate : Clock -> option BlockRef -> string -> Z -> P CandidatePool (result unit) :=
  submit_with local_deadline.

Definition SubmitCandidateWithDeadline (clk : Clock) (block : option BlockRef) (sourceID : string)
    (minedAt deadline : Z) : P CandidatePool (result unit) :=
  submit_with (synced_deadline deadline) clk block sourceID minedAt.

(** [handleMiningCandidate] of [network/reactor/sync_reactor.go], after the message is parsed;
    the times of the message are in seconds. *)
Definition handleMiningCandidate (clk : Clock) (b : BlockRef) (sourceID : string) (minedAt windowDeadline : Z)
    : P CandidatePool (result unit) :=
  if h_Height (b_Header b) =? 0 then p_ret (Err "invalid height")
  else if 0 <? windowDeadline
  then SubmitCandidateWithDeadline clk (Some b) sourceID (minedAt * second) (windowDeadline * second)
  else SubmitCandidate clk (Some b) sourceID (minedAt * second).

(** ** Queries *)
Definition window_state (now : Z) (pool : HeightPool) : string :=
  if hp_Closed pool then "closed" else if hp_Deadline pool <? now then "expired" else "open".

Record PoolStats := mkPoolStats {
  ps_CandidateCount : Z; ps_WindowState : string; ps_FirstArrival : Z; ps_Deadline : Z }.

Definition GetPoolStats (now : Z) (p : CandidatePool) : gmap Z PoolStats :=
  (fun pool => mkPoolStats (len (hp_Candidates pool)) (window_state now pool) (hp_FirstArrival pool) (hp_Deadline pool))
    <$> pools p.

Definition GetWindowDeadline (height : Z) (p : CandidatePool) : option Z :=
  match pools p !! height with
  | None => None
  | Some pool => if hp_Closed pool then None else Some (hp_Deadline pool)
  end.

Definition Stop (p : CandidatePool) : CandidatePool :=
  if stopped p then p
  else mkPool
         ((fun pool => mkHeightPool (hp_Height pool) (hp_FirstArrival pool) (hp_Deadline pool)
                         (hp_Candidates pool) false true) <$> pools p)
         (TotalInterval p) (MinWindowDuration p) (MaxLateness p) (MaxCandidates p) (MaxExtensionWindow p)
         (has_chain p) (has_workCalc p) true (has_callback p) (selected p).

(** ** Selecting

    What the pool asks of the chain: [accept i] is its [i]-th call of [AddBlock]. *)
Class Acceptor (C : Type) := {
  accept : nat -> BlockRef -> M C (result bool);
  chain_tip : C -> option BlockRef }.

Section select.
Context {C : Type} `{Acceptor C}.
Context (order : list Candidate -> list Candidate).

Definition ShouldPool (height : Z) (p : CandidatePool) (c : C) : bool :=
  if stopped p then false
  else if negb (has_chain p) then false
  else match chain_tip c with
       | None => false
       | Some tip =>
           let tipHeight := GetHeight tip in
           (tipHeight <=? height) && (height <=? (tipHeight + poolHeightTolerance)%u64)
       end.

(** The chain's part of a step. *)
Definition on_chain {A : Type} (m : M C A) : M (CandidatePool * C) A :=
  fun s => res_bind (m (snd s)) (fun '(c, a) => Val ((fst s, c), a)).
Definition on_pool (f : CandidatePool -> CandidatePool) : M (CandidatePool * C) unit :=
  modify (fun s => (f (fst s), snd s)).

Fixpoint add_others (i : nat) (cs : list Candidate) : M (CandidatePool * C) unit :=
  match cs with
  | [] => ret tt
  | c :: cs' =>
      (match ca_Block c with
       | None => ret tt
       | Some b => on_chain (accept i b) ;;* ret tt
       end) ;;*
      add_others (Datatypes.S i) cs'
  end.

Definition notify (b : BlockRef) (p : CandidatePool) : CandidatePool :=
  if has_callback p then set_selected (selected p ++ [b]) p else p.

Definition selectBest (height : Z) : M (CandidatePool * C) unit :=
  let* s := get in
  match pools (fst s) !! height with
  | None => ret tt
  | Some pool =>
      match order (hp_Candidates pool) with
      | [] =>
          on_pool (fun p => set_pools (<[height :=
            mkHeightPool (hp_Height pool) (hp_FirstArrival pool) (hp_Deadline pool) [] false true]> (pools p)) p)
      | best :: others =>
          on_pool (fun p => set_pools (delete height (pools p)) p) ;;*
          match ca_Block best with
          | None => ret tt
          | Some b =>
              if has_chain (fst s)
              then let* r := on_chain (accept 0 b) in
                   (match r with Ok true => on_pool (notify b) | _ => ret tt end) ;;*
                   add_others 1 others
              else ret tt
          end
      end
  end.
End select.

(** * Lemmas *)

(** ** The order of keys *)
Lemma key_cmp_refl (a : list Z) : key_cmp a a = None.
Proof. induction a as [|x a IH]; cbn; [done|]. by rewrite Z.ltb_irrefl. Qed.

Lemma key_cmp_none (a b : list Z) : length a = length b -> key_cmp a b = None -> a = b.
Proof.
  revert b. induction a as [|x a IH]; intros [|y b] Hl E; try done. cbn in *.
  destruct (Z.ltb_spec x y); [done|]. destruct (Z.ltb_spec y x); [done|].
  f_equal; [lia|]. apply IH; [lia|done].
Qed.

Lemma key_cmp_flip (a b : list Z) : key_cmp b a = option_map negb (key_cmp a b).
Proof.
  revert b. induction a as [|x a IH]; intros [|y b]; cbn; try done.
  destruct (Z.ltb_spec x y), (Z.ltb_spec y x); try done; lia.
Qed.

Lemma key_cmp_trans (a b c : list Z) :
  key_cmp a b = Some true -> key_cmp b c = Some true -> key_cmp a c = Some true.
Proof.
  revert b c. induction a as [|x a IH]; intros [|y b] [|z c]; cbn; try done.
  destruct (Z.ltb_spec x y); destruct (Z.ltb_spec y z); destruct (Z.ltb_spec x z); try done; try lia;
    destruct (Z.ltb_spec y x); destruct (Z.ltb_spec z y); destruct (Z.ltb_spec z x); try done; try lia.
  apply IH.
Qed.

(** What decides between candidates with blocks. *)
Definition ballot (c : Candidate) : option (Block * string) :=
  (fun b => (ref_blk b, ca_SourceID c)) <$> ca_Block c.
Definition ballot_key (x : Block * string) : list Z :=
  xor_mask (b_Hash (fst x)) (computeSourceMask (snd x)).

Lemma xor_mask_length (h m : list Z) : length (xor_mask h m) = length h.
Proof. apply length_imap. Qed.

Lemma key_of_ballot (c : Candidate) (x : Block * string) :
  ballot c = Some x -> weightedSelectKey c = ballot_key x.
Proof.
  unfold ballot, weightedSelectKey. destruct (ca_Block c) as [b|]; [|done]. intros E. injection E as <-.
  unfold ballot_key. cbn. destruct (b_Hash b) as [|h hs] eqn:E; [done|].
  destruct (Z.eqb_spec (len (h :: hs)) 0); [unfold len in *; cbn in *; lia|done].
Qed.

(** Candidates that can be compared: all have a block with a hash of [n] bytes. *)
Definition comparable (n : nat) (l : list Candidate) : Prop :=
  Forall (fun c => exists x, ballot c = Some x /\ length (b_Hash (fst x)) = n) l.

Lemma less_ballots (c d : Candidate) (x y : Block * string) :
  ballot c = Some x -> ballot d = Some y ->
  less c d = match key_cmp (ballot_key x) (ballot_key y) with
             | Some b => b
             | None => h_TimestampUnix (b_Header (fst x)) <? h_TimestampUnix (b_Header (fst y))
             end.
Proof.
  intros Hc Hd. unfold less. rewrite (key_of_ballot c x Hc), (key_of_ballot d y Hd).
  unfold ballot, block_time in *. destruct (ca_Block c) as [b|]; [|done]. destruct (ca_Block d) as [b'|]; [|done].
  injection Hc as <-. injection Hd as <-. done.
Qed.

(** What [sort.Slice] promises: a permutation, which is sorted when the comparison is a strict
    weak order on the elements. *)
Definition weak_order (l : list Candidate) : Prop :=
  (forall a b, a ∈ l -> b ∈ l -> less a b = true -> less b a = false) /\
  (forall a b c, a ∈ l -> b ∈ l -> c ∈ l -> less b a = false -> less c b = false -> less c a = false).
Definition sort_ok (order : list Candidate -> list Candidate) : Prop :=
  forall l, order l ≡ₚ l /\ (weak_order l -> StronglySorted (fun a b => less b a = false) (order l)).

Lemma comparable_weak_order (n : nat) (l : list Candidate) : comparable n l -> weak_order l.
Proof.
  intros Hc. unfold comparable in Hc. rewrite list.Forall_forall in Hc.
  assert (Hk : forall x y, length (b_Hash (fst x)) = n -> length (b_Hash (fst y)) = n ->
                 key_cmp (ballot_key x) (ballot_key y) = None -> ballot_key x = ballot_key y).
  { intros x y Hx Hy. apply key_cmp_none. unfold ballot_key. rewrite !xor_mask_length. congruence. }
  split.
  - intros a b Ha Hb. destruct (Hc a Ha) as (x & Ea & Lx), (Hc b Hb) as (y & Eb & Ly).
    rewrite (less_ballots a b x y), (less_ballots b a y x) by done. rewrite (key_cmp_flip (ballot_key x)).
    destruct (key_cmp (ballot_key x) (ballot_key y)) as [[]|]; cbn; [done|done|lia].
  - intros a b c Ha Hb Hc'. destruct (Hc a Ha) as (x & Ea & Lx), (Hc b Hb) as (y & Eb & Ly), (Hc c Hc') as (z & Ec & Lz).
    rewrite (less_ballots b a y x), (less_ballots c b z y), (less_ballots c a z x) by done.
    rewrite (key_cmp_flip (ballot_key x) (ballot_key y)), (key_cmp_flip (ballot_key y) (ballot_key z)), (key_cmp_flip (ballot_key x) (ballot_key z)).
    destruct (key_cmp (ballot_key x) (ballot_key y)) as [[]|] eqn:E1; cbn; [| |];
      destruct (key_cmp (ballot_key y) (ballot_key z)) as [[]|] eqn:E2; cbn; try done.
    + by rewrite (key_cmp_trans _ _ _ E1 E2).
    + by rewrite <- (Hk y z Ly Lz E2), E1.
    + by rewrite (Hk x y Lx Ly E1), E2.
    + rewrite (Hk x y Lx Ly E1), E2. cbn. lia.
Qed.

Lemma map_inj_on {A B : Type} (f : A -> B) (l : list A) (x y : A) :
  NoDup (map f l) -> x ∈ l -> y ∈ l -> f x = f y -> x = y.
Proof.
  induction l as [|z l IH]; cbn; [set_solver|]. rewrite list.NoDup_cons. intros [Hz Hn] Hx Hy E.
  assert (Hi : forall u, u ∈ l -> f u ∈ map f l) by (intros u Hu; apply list_elem_of_fmap; eauto).
  apply elem_of_cons in Hx as [->|Hx], Hy as [->|Hy]; [done| | |by apply IH].
  - destruct Hz. rewrite E. by apply Hi.
  - destruct Hz. rewrite <- E. by apply Hi.
Qed.

(** The ballots of a list whose candidates all have one. *)
Lemma ballots_some (n : nat) (l : list Candidate) :
  comparable n l -> map Some (omap ballot l) = map ballot l.
Proof.
  induction l as [|c l IH]; [done|]. intros Hc. apply list.Forall_cons in Hc as [(x & E & _) Hc].
  cbn. rewrite E. cbn. by rewrite IH.
Qed.

Lemma sorted_ballots (l : list Candidate) (n : nat) :
  comparable n l -> StronglySorted (fun a b => less b a = false) l ->
  StronglySorted (fun x y => key_cmp (ballot_key y) (ballot_key x) <> Some true) (omap ballot l).
Proof.
  induction l as [|c l IH]; intros Hc Hs; cbn; [constructor|].
  apply list.Forall_cons in Hc as [(x & E & _) Hc]. apply StronglySorted_inv in Hs as [Hs Hf].
  rewrite E. cbn. constructor; [by apply IH|]. apply list.Forall_forall. intros y Hy.
  apply list_elem_of_omap in Hy as (d & Hd & Ey). rewrite list.Forall_forall in Hf. specialize (Hf d Hd).
  rewrite (less_ballots d c y x) in Hf by done. intros Hk. by rewrite Hk in Hf.
Qed.

(** ** Submitting *)
Definition pool_ok (max : Z) (h : Z) (pool : HeightPool) : Prop :=
  hp_Height pool = h /\ 1 <= len (hp_Candidates pool) <= max /\
  NoDup (map ca_SourceID (hp_Candidates pool)) /\ NoDup (map candidate_hash (hp_Candidates pool)) /\
  Forall (fun c => exists b, ca_Block c = Some b /\ candidate_height b = h /\ b_Hash b <> []) (hp_Candidates pool).

Definition pool_inv (p : CandidatePool) : Prop :=
  1 <= MaxCandidates p /\ map_Forall (pool_ok (MaxCandidates p)) (pools p).

Lemma check_candidates_ok (bh src : string) (cs : list Candidate) :
  Forall (fun c => is_Some (ca_Block c)) cs -> check_candidates bh src cs = Val (Ok tt) ->
  (src ∉ map ca_SourceID cs) /\ (bh ∉ map candidate_hash cs).
Proof.
  induction 1 as [|c cs [b Hb] Hc IH]; cbn; [set_solver|]. rewrite Hb.
  rewrite bool_decide_eq_true_2 by done. cbn [andb]. unfold str_eqb, slice16.
  destruct (bool_decide_reflect (candidate_hash c = bh)); [destruct (strlen bh <? 16); cbn; intros E; discriminate E|].
  destruct (bool_decide_reflect (ca_SourceID c = src)); [done|]. intros E. apply IH in E. set_solver.
Qed.

Lemma target_pool_ok (d : Z) clk h bh src (p : CandidatePool) (pool : HeightPool) (b : BlockRef) t m w :
  pool_inv p -> target_pool d clk h bh src p = Val (Ok pool) ->
  candidate_height b = h -> b_Hash b <> [] -> hexhash b = bh ->
  pool_ok (MaxCandidates p) h
    (mkHeightPool (hp_Height pool) (hp_FirstArrival pool) (hp_Deadline pool)
       (hp_Candidates pool ++ [mkCandidate (Some b) src t m w false]) (hp_timer pool) (hp_Closed pool)).
Proof.
  intros [Hm Hi] E Hb Hne Hh. unfold target_pool in E. destruct (pools p !! h) as [q|] eqn:Eq.
  - destruct (hp_Closed q || _); [done|].
    destruct (Hi h q Eq) as (H1 & H2 & H3 & H4 & H5).
    destruct (check_candidates bh src (hp_Candidates q)) as [[[]|]|] eqn:Ec; cbn in E; try done.
    destruct (Z.leb_spec (MaxCandidates p) (len (hp_Candidates q))); [done|]. injection E as <-.
    apply check_candidates_ok in Ec as [Hs Hd].
    2: { eapply list.Forall_impl; [exact H5|]. intros c (b' & -> & _). done. }
    unfold pool_ok. cbn [hp_Height hp_Candidates]. rewrite !map_app. cbn [map]. unfold len in *. rewrite length_app. cbn [length].
    split_and!; [done|lia|lia| | |].
    + apply NoDup_app. split_and!; [done|set_solver|apply NoDup_singleton].
    + apply NoDup_app. split_and!; [done| |apply NoDup_singleton]. cbn. rewrite Hh. set_solver.
    + apply Forall_app. split; [done|]. constructor; [|constructor]. by exists b.
  - injection E as <-. unfold pool_ok. cbn. split_and!; [done|done|unfold len; cbn; lia|apply NoDup_singleton|apply NoDup_singleton|].
    constructor; [|constructor]. by exists b.
Qed.

Lemma submit_with_inv df clk block src minedAt (p : CandidatePool) :
  pool_inv p -> pool_inv (fst (submit_with df clk block src minedAt p)).
Proof.
  intros Hi. unfold submit_with, p_bind, p_get, p_lift, p_modify, p_ret.
  destruct (stopped p); [done|]. destruct block as [b|]; [|done].
  destruct (Z.eqb_spec (len (b_Hash b)) 0) as [|Hne]; [done|]. destruct (_ <? _); [done|].
  destruct (target_pool _ _ _ _ _ _) as [[pool|e]|hl] eqn:E; cbn; try done.
  destruct Hi as [Hm Hi]. split; [done|]. cbn. apply map_Forall_insert_2; [|done].
  eapply target_pool_ok; [by split|exact E|done| |done]. intros E'. by rewrite E' in Hne.
Qed.

Lemma Stop_inv (p : CandidatePool) : pool_inv p -> pool_inv (Stop p).
Proof.
  intros [Hm Hi]. unfold Stop. destruct (stopped p); [done|]. split; [done|]. cbn.
  intros h pool E. rewrite lookup_fmap in E. destruct (pools p !! h) as [q|] eqn:Eq; [|done].
  injection E as <-. by destruct (Hi h q Eq).
Qed.

(** ** Selecting *)
Section selecting.
Context {C : Type} `{Acceptor C}.
Context (order : list Candidate -> list Candidate) (Hord : sort_ok order).
Implicit Types s : CandidatePool * C.

Lemma order_nil (l : list Candidate) : order l = [] -> l = [].
Proof. intros E. destruct (Hord l) as [Hp _]. rewrite E in Hp. by apply Permutation_nil_l in Hp. Qed.

Lemma on_chain_pool {A : Type} (m : M C A) s s' a : on_chain m s = Val (s', a) -> fst s' = fst s.
Proof. unfold on_chain. destruct (m (snd s)) as [[c x]|]; cbn; [|done]. intros E. by injection E as <- _. Qed.

Lemma add_others_pool (cs : list Candidate) (i : nat) s s' u :
  add_others i cs s = Val (s', u) -> fst s' = fst s.
Proof.
  revert i s. induction cs as [|c cs IH]; intros i s E; cbn [add_others] in E.
  { unfold ret in E. by injection E as <- _. }
  apply bind_val in E as (s1 & a & E1 & E2). rewrite (IH _ _ E2).
  destruct (ca_Block c) as [b|]; [|by injection E1 as <- _].
  apply bind_val in E1 as (s2 & r & E1 & E3). injection E3 as <- _. by apply on_chain_pool in E1.
Qed.

Lemma notify_pools b p : pools (notify b p) = pools p.
Proof. unfold notify. by destruct (has_callback p). Qed.
Lemma notify_max b p : MaxCandidates (notify b p) = MaxCandidates p.
Proof. unfold notify. by destruct (has_callback p). Qed.

(** A selection takes the window of its height away and leaves the others. *)
Lemma selectBest_pools (h : Z) s s' u :
  pool_inv (fst s) -> selectBest order h s = Val (s', u) ->
  pools (fst s') = delete h (pools (fst s)) /\ MaxCandidates (fst s') = MaxCandidates (fst s).
Proof.
  intros Hi E. unfold selectBest in E. unfold bind at 1, get in E. cbn [res_bind] in E.
  destruct (pools (fst s) !! h) as [pool|] eqn:Ep.
  2: { injection E as <- _. by rewrite delete_id. }
  destruct (order (hp_Candidates pool)) as [|best others] eqn:Eo.
  { apply order_nil in Eo. destruct Hi as [_ Hi]. destruct (Hi h pool Ep) as (_ & Hl & _). rewrite Eo in Hl. unfold len in Hl. cbn in Hl. lia. }
  apply bind_val in E as (s1 & x & E1 & E). injection E1 as <- _. cbn [fst snd] in *.
  destruct (ca_Block best) as [b|]; [|by injection E as <- _].
  destruct (has_chain (fst s)); [|by injection E as <- _].
  apply bind_val in E as (s2 & r & E2 & E). apply on_chain_pool in E2.
  apply bind_val in E as (s3 & y & E3 & E). apply add_others_pool in E. rewrite E.
  assert (Hs3 : fst s3 = fst s2 \/ fst s3 = notify b (fst s2)).
  { destruct r as [[]|]; injection E3 as <- _; auto. }
  destruct Hs3 as [-> | ->]; rewrite ?notify_pools, ?notify_max, E2; done.
Qed.

(** ** Runs of a pool *)
Inductive step : CandidatePool * C -> CandidatePool * C -> Prop :=
| step_submit clk b src t s : step s (fst (SubmitCandidate clk b src t (fst s)), snd s)
| step_submit_deadline clk b src t d s :
    step s (fst (SubmitCandidateWithDeadline clk b src t d (fst s)), snd s)
| step_select h s s' u : selectBest order h s = Val (s', u) -> step s s'
| step_chain wc s : step s (SetChainReference wc (fst s), snd s)
| step_extend c s : step s (fst s, c)
| step_stop s : step s (Stop (fst s), snd s).

Lemma step_pool_inv s s' : step s s' -> pool_inv (fst s) -> pool_inv (fst s').
Proof.
  intros Hs Hi. destruct Hs as [clk b src t s|clk b src t d s|h s s' u E|wc s|c s|s]; cbn.
  - by apply submit_with_inv.
  - by apply submit_with_inv.
  - destruct (selectBest_pools h s s' u Hi E) as [E1 E2]. destruct Hi as [Hm Hi]. unfold pool_inv. rewrite E1, E2.
    split; [done|]. by apply map_Forall_delete.
  - unfold SetChainReference. by destruct (stopped (fst s)).
  - done.
  - by apply Stop_inv.
Qed.

Lemma reachable_pool_inv (c0 : C) s : rtc step (NewCandidatePool, c0) s -> pool_inv (fst s).
Proof.
  intros Hr. remember (NewCandidatePool, c0) as s0 eqn:E.
  assert (Hi : pool_inv (fst s0)) by (subst; split; [done|apply map_Forall_empty]).
  clear E. induction Hr; [done|]. eauto using step_pool_inv.
Qed.
End selecting.

(** ** The chain as an acceptor *)
Section chain_acceptor.
Context {S : Type} `{ChainStore S}.
Context (ed25519_verify : list Z -> list Z -> list Z -> bool) (seal_valid : PowHeader -> bool)
  (now : nat -> Z) (range_blocks : Blocks -> list (string * BlockRef))
  (range_forks : Forks -> list (Z * list BlockRef)) (range_times : gmap string Z -> list (string * Z))
  (range_cache : gmap string Z -> list (string * Z)) (grow : nat -> nat) (capacity : list Z -> Z).

Definition chain_accepts : Acceptor (Chain S) := {|
  accept := fun i b => AddBlock ed25519_verify seal_valid (now i) range_blocks range_forks range_times
                         range_cache grow capacity b;
  chain_tip := fun c => canonicalTipLocked c |}.

(** A block that is valid on the tip of the chain. *)
Record next_block (c : Chain S) (b : BlockRef) : Prop := {
  nb_valid : validateBlockConsensusLocked b c = Ok tt;
  nb_new : (blocksByHash c !! hexhash b : option BlockRef) = None;
  nb_long : 16 <= strlen (hexhash b);
  nb_height : GetHeight b = len (blocks c);
  nb_parent : exists tip, list.last (blocks c) = Some tip /\ h_PrevHash (b_Header b) = b_Hash tip;
  nb_applies : exists st, applyBlockToState ed25519_verify (consensus c) (monetaryPolicy c) b (genesisAddress c)
                 (Chain.state c) = (st, Ok tt) }.

(** The chain is ready for the next block: audited, with neither forks nor orphans waiting. *)
Record ready_chain (c : Chain S) : Prop := {
  rc_audit : AuditChain ed25519_verify c = Ok tt;
  rc_len : len (blocks c) <= max_u64;
  rc_forks : forkBlocks c = ∅;
  rc_orphans : orphanByParent c = ∅;
  rc_times : orphanTimestamps c = ∅ }.

Lemma accept_next (i : nat) (c : Chain S) (b : BlockRef) :
  @appends S _ -> visits_all_forks range_forks -> ready_chain c -> next_block c b ->
  exists c' st, accept (Acceptor := chain_accepts) i b c = Val (c', Ok true) /\
    AuditChain ed25519_verify c' = Ok tt /\
    core c' = (blocks c ++ [b], st, bestTipHash c, canonicalWork c + block_work b,
               (consensus c, monetaryPolicy c, genesisAddress c)) /\
    fork_side c' = fork_side (filed b c).
Proof.
  intros Ha Hr [Hau Hlen Hf Ho Hts] [Hv Hnew Hlong Hh (tip & Hl & Hp) (st & E)].
  destruct (addCanonical_run ed25519_verify seal_valid (now i) range_blocks range_forks range_cache grow b (hexhash b)
    (filed b c) st Ha Hr Hf Ho Hlong E) as (c' & Er & Ec & Ef).
  exists c', st. split; [|split; [|done]].
  - cbn [accept chain_accepts]. by rewrite AddBlock_new, (add_new_next _ _ _ _ _ _ _ _ _ b tip).
  - apply consensus_coinbase in Hv as Hcb. exact (next_audited _ b tip c c' st Hau Hl Hlen Hcb Hh Hp E Ec).
Qed.

(** The losers of a selection, one after the other, beside the winner. *)
Lemma losers_added (p : CandidatePool) (base : list BlockRef) (parent b : BlockRef) (sibs : list BlockRef)
    (rest : State * ConsensusParams * MonetaryPolicy * string) (others : list Candidate) :
  visits_all_forks range_forks -> family_ok base parent b sibs ->
  forall i seen (c : Chain S), seen ++ omap ca_Block others ≡ₚ sibs -> NoDup sibs ->
  beside base b sibs rest seen c ->
  exists c' seen', add_others (H := chain_accepts) i others (p, c) = Val ((p, c'), tt) /\ beside base b sibs rest seen' c'.
Proof.
  intros Hr Hf. induction others as [|d others IH]; intros i seen c Hp Hn J; cbn [add_others].
  { by exists c, seen. }
  cbn in Hp. destruct (ca_Block d) as [x|] eqn:Ex; cbn in Hp.
  - assert (Hx : x ∈ sibs /\ x ∉ seen /\ seen ⊆ sibs).
    { split_and!; [rewrite <- Hp; set_solver| |intros y; rewrite <- Hp; set_solver].
      rewrite <- Hp in Hn. apply NoDup_app in Hn as (_ & Hd & _). intros Hs. apply (Hd x Hs). set_solver. }
    destruct Hx as (Hx & Hns & Hsub).
    destruct (AddBlock_beside ed25519_verify seal_valid (now i) range_blocks range_forks range_times range_cache grow capacity
      base parent b sibs rest Hf seen c x) as (c1 & r & E & J1); try done.
    destruct (IH (Datatypes.S i) (x :: seen) c1) as (c' & seen' & E' & J'); [|done|done|].
    { rewrite <- Hp. cbn. by rewrite Permutation_middle. }
    exists c', seen'. split; [|done]. unfold bind at 1. unfold bind at 1, on_chain. cbn [accept chain_accepts snd fst].
    rewrite E. cbn [res_bind]. unfold ret at 1. cbn [res_bind]. exact E'.
  - destruct (IH (Datatypes.S i) seen c Hp Hn J) as (c' & seen' & E' & J'). by exists c', seen'.
Qed.
End chain_acceptor.

(** * Theorems *)

(** The invariant of the pool: in every state reached by submissions of any blocks, sources,
    times and deadlines, selections, and [Stop], the window of a height holds between one and 50
    candidates, all of that height, with different sources and different hashes. *)
Theorem candidate_pool_invariant {C : Type} `{Acceptor C} (order : list Candidate -> list Candidate)
    (c0 : C) (s : CandidatePool * C) :
  sort_ok order -> rtc (step order) (NewCandidatePool, c0) s ->
  map_Forall (pool_ok (MaxCandidates (fst s))) (pools (fst s)).
Proof. intros Ho Hr. by destruct (reachable_pool_inv order Ho c0 s Hr). Qed.

(** C30. Nodes with the same candidates choose the same block: whatever the order of arrival,
    the clocks and the sorting algorithms of two nodes, if their windows hold the same pairs of block
    and source, with hashes of one length and different selection keys, both rank them alike, so
    that the winner is the same. *)
Theorem selection_converges (order1 order2 : list Candidate -> list Candidate) (n : nat) (l1 l2 : list Candidate) :
  sort_ok order1 -> sort_ok order2 -> comparable n l1 -> comparable n l2 ->
  omap ballot l1 ≡ₚ omap ballot l2 -> NoDup (map ballot_key (omap ballot l1)) ->
  map ballot (order1 l1) = map ballot (order2 l2).
Proof.
  intros Ho1 Ho2 Hc1 Hc2 Hp Hn.
  assert (Hcomp : forall order l, sort_ok order -> comparable n l ->
    comparable n (order l) /\ omap ballot (order l) ≡ₚ omap ballot l /\
    StronglySorted (fun x y => key_cmp (ballot_key y) (ballot_key x) <> Some true) (omap ballot (order l))).
  { intros order l Ho Hc. destruct (Ho l) as [Hpl Hs].
    assert (Hc' : comparable n (order l)) by (unfold comparable; by rewrite Hpl).
    split_and!; [done|by rewrite Hpl|]. eapply sorted_ballots; [done|]. apply Hs. by eapply comparable_weak_order. }
  destruct (Hcomp order1 l1 Ho1 Hc1) as (C1 & P1 & S1), (Hcomp order2 l2 Ho2 Hc2) as (C2 & P2 & S2).
  rewrite <- (ballots_some n (order1 l1)), <- (ballots_some n (order2 l2)) by done. f_equal.
  eapply StronglySorted_unique_strong; [|exact S1|exact S2|by rewrite P1, P2].
  intros x y Hx Hy Hxy Hyx. rewrite P1 in Hx. rewrite P2, <- Hp in Hy.
  apply (map_inj_on ballot_key (omap ballot l1)); [done..|]. apply key_cmp_none.
  - assert (Hl : forall z, z ∈ omap ballot l1 -> length (ballot_key z) = n).
    { intros z Hz. apply list_elem_of_omap in Hz as (d & Hd & Ez). unfold comparable in Hc1. rewrite list.Forall_forall in Hc1.
      destruct (Hc1 d Hd) as (z' & Ez' & Hz'). simplify_eq. unfold ballot_key. by rewrite xor_mask_length. }
    by rewrite !Hl.
  - pose proof (key_cmp_flip (ballot_key y) (ballot_key x)) as Hfl.
    destruct (key_cmp (ballot_key y) (ballot_key x)) as [[]|] eqn:E; [by destruct Hxy|by destruct Hyx|exact Hfl].
Qed.

(** The preference of fork choice between two blocks on one parent does not depend on the work
    below them. *)
Lemma preferred_shift (x y : BlockRef) (hx hy wx wy k : Z) :
  preferred (x, hx, k + wx) (y, hy, k + wy) -> preferred (x, hx, wx) (y, hy, wy).
Proof. cbn. intros [?|(? & Hr)]; [left; lia|right; split; [lia|exact Hr]]. Qed.

(** C31. A selection extends the chain by the winner.  Take an audited chain of a node that knows
    no other blocks and whose store takes what it is given, and a window of blocks on its tip,
    with 32-byte hashes that are all different and different from those of the chain.  If the
    candidate with the least selection key is valid and fork choice prefers no other candidate
    to it, the timer's selection, which adds the winner and then hands every other candidate
    to [AddBlock] too, ends: the chain has grown by the winner's block and is audited again,
    the callback has been called with that block, and the window is gone.  The other candidates
    need not be valid.  When fork choice does prefer one of them the winner can be displaced
    ([winner_displaced]). *)
Theorem selection_extends_chain {S : Type} `{ChainStore S} ed25519_verify seal_valid now range_blocks range_forks
    range_times range_cache grow capacity (order : list Candidate -> list Candidate) (h : Z)
    (p : CandidatePool) (pool : HeightPool) (c : Chain S) (tip : BlockRef)
  (Ha : @appends S _) (Hr : visits_all_forks range_forks) (Hord : sort_ok order)
  (Haudit : AuditChain ed25519_verify c = Ok tt) (Halone : alone c) (Hlen : len (blocks c) < max_u64)
  (Htip : list.last (blocks c) = Some tip)
  (Hp : pools p !! h = Some pool) (Hne : hp_Candidates pool <> []) (Hch : has_chain p = true)
  (Hon : Forall (fun d => exists x, ca_Block d = Some x /\ GetHeight x = len (blocks c) /\
           h_PrevHash (b_Header x) = b_Hash tip) (hp_Candidates pool))
  (Hbytes : Forall (fun x : BlockRef => length (b_Hash x) = 32%nat /\ Forall is_byte (b_Hash x))
              (blocks c ++ omap ca_Block (hp_Candidates pool)))
  (Hdiff : NoDup (map (fun x : BlockRef => b_Hash x) (blocks c ++ omap ca_Block (hp_Candidates pool))))
  (Hbest : forall d b, d ∈ hp_Candidates pool -> ca_Block d = Some b ->
     Forall (fun e => less e d = false) (hp_Candidates pool) ->
     next_block ed25519_verify c b /\
     forall x : BlockRef, x ∈ omap ca_Block (hp_Candidates pool) ->
       ~ preferred (x, GetHeight x, block_work x) (b, GetHeight b, block_work b)) :
  let A := chain_accepts ed25519_verify seal_valid now range_blocks range_forks range_times range_cache grow capacity in
  exists best b c',
    best ∈ hp_Candidates pool /\ Forall (fun d => less d best = false) (hp_Candidates pool) /\ ca_Block best = Some b /\
    @selectBest _ A order h (p, c) = Val ((notify b (set_pools (delete h (pools p)) p), c'), tt) /\
    blocks c' = blocks c ++ [b] /\ AuditChain ed25519_verify c' = Ok tt.
Proof.
  intros A. set (cands := hp_Candidates pool) in *. destruct (Hord cands) as [Hperm Hsort].
  destruct (order cands) as [|best others] eqn:Eo; [by apply Permutation_nil_l in Hperm|].
  assert (Hcmp : comparable 32 cands).
  { unfold comparable. apply list.Forall_forall. intros d Hd. rewrite list.Forall_forall in Hon. destruct (Hon d Hd) as (x & Ex & _).
    exists (ref_blk x, ca_SourceID d). unfold ballot. rewrite Ex. split; [done|]. rewrite list.Forall_forall in Hbytes.
    apply Hbytes. rewrite elem_of_app. right. apply list_elem_of_omap. eauto. }
  specialize (Hsort (comparable_weak_order 32 cands Hcmp)). apply StronglySorted_inv in Hsort as [_ Hmin].
  assert (Hin : best ∈ cands) by (rewrite <- Hperm; set_solver).
  assert (Hirr : less best best = false).
  { destruct (less best best) eqn:E; [|done]. by rewrite (proj1 (comparable_weak_order 32 cands Hcmp) best best) in E. }
  assert (Hleast : Forall (fun e => less e best = false) cands) by (rewrite <- Hperm; by constructor).
  rewrite list.Forall_forall in Hon. destruct (Hon best Hin) as (b & Eb & Hbh & Hbp).
  destruct (Hbest best b Hin Eb Hleast) as [Hnext Hpref]. set (sibs := omap ca_Block others).
  assert (Ho : omap ca_Block cands ≡ₚ b :: sibs) by (rewrite <- Hperm; cbn; by rewrite Eb).
  rewrite Ho in Hbytes, Hdiff. destruct Halone as [L1 L2 L3 L4 L5 L6 L7] eqn:EL.
  assert (Hrc : ready_chain ed25519_verify c) by (split; (done || lia)).
  destruct (accept_next ed25519_verify seal_valid now range_blocks range_forks range_times range_cache grow capacity 0 c b Ha Hr Hrc Hnext)
    as (c1 & st & E1 & Hau1 & Ec1 & Ef1).
  pose proof Ec1 as Eb1. unfold core in Eb1. injection Eb1 as Eb1 Est1 _ _ Ep1 Em1 Eg1.
  assert (Hfam : family_ok (blocks c) tip b sibs).
  { split; [|done|done| |by rewrite list.Forall_forall in Hbytes|done|].
    - rewrite <- Eb1. by apply audit_iff in Hau1 as [? _].
    - intros x Hx. apply list_elem_of_omap in Hx as (d & Hd & Ex). destruct (Hon d) as (x' & Ex' & ? & ?); [rewrite <- Hperm; set_solver|].
      rewrite Ex in Ex'. by injection Ex' as <-.
    - intros x Hx Hpr. apply (Hpref x); [rewrite Ho; set_solver|]. by eapply preferred_shift. }
  set (rest := (st, consensus c, monetaryPolicy c, genesisAddress c)).
  assert (J1 : beside (blocks c) b sibs rest [] c1) by (by eapply beside_start; [exact Hfam|exact Halone|done|exact Ec1|exact Ef1]).
  destruct (losers_added ed25519_verify seal_valid now range_blocks range_forks range_times range_cache grow capacity
    (notify b (set_pools (delete h (pools p)) p)) (blocks c) tip b sibs rest others Hr Hfam 1 [] c1) as (c' & seen & E2 & J2); [done| |done|].
  { rewrite map_app in Hdiff. apply NoDup_app in Hdiff as (_ & _ & Hd). cbn in Hd. apply NoDup_cons in Hd as [_ Hd].
    by apply NoDup_fmap_1 in Hd. }
  exists best, b, c'. do 3 (split; [done|]). split; [|split].
  - unfold selectBest, bind at 1, get. cbn [res_bind fst]. rewrite Hp. fold cands. rewrite Eo. unfold bind, on_pool, modify, on_chain.
    cbn [res_bind fst snd]. rewrite Eb, Hch. cbn [res_bind fst snd]. unfold A in *. rewrite E1. cbn [res_bind fst snd]. exact E2.
  - exact (be_blocks _ _ _ _ _ _ J2).
  - apply audit_iff. apply audit_iff in Hau1 as [Hl1 Hr1]. rewrite (be_blocks _ _ _ _ _ _ J2), <- Eb1. split; [done|].
    pose proof (be_rest _ _ _ _ _ _ J2) as Er. injection Er as Es Ec Em Eg. unfold recomputed in *.
    rewrite Es, Ec, Em, Eg. by rewrite <- Ep1, <- Em1, <- Eg1, <- Est1.
Qed.

(** ** What a window opens with *)

(** A window opened by a local submission lasts at least the minimum and at most the maximum. *)
Theorem window_bounds (p : CandidatePool) clk minedAt :
  MinWindowDuration p <= MaxExtensionWindow p ->
  t_open clk + MinWindowDuration p <= local_deadline p clk minedAt <= t_open clk + MaxExtensionWindow p.
Proof.
  intros Hm. unfold local_deadline, clamp_window.
  repeat match goal with |- context [?a <? ?b] => destruct (Z.ltb_spec a b) end; lia.
Qed.

(** A window opened by a peer's message lasts as long as the message says. *)
Theorem peer_deadline_kept (p : CandidatePool) clk (b : BlockRef) src minedAt d :
  stopped p = false -> b_Hash b <> [] -> h_Height (b_Header b) <> 0 -> 0 < d -> t_open clk <= d * second ->
  since (t_delay clk) (minedAt * second) <= MaxLateness p -> pools p !! h_Height (b_Header b) = None ->
  GetWindowDeadline (h_Height (b_Header b)) (fst (handleMiningCandidate clk b src minedAt d p)) = Some (d * second).
Proof.
  intros Hs Hb Hh Hd Ho Hl Hp. unfold handleMiningCandidate.
  destruct (Z.eqb_spec (h_Height (b_Header b)) 0); [done|]. destruct (Z.ltb_spec 0 d); [|lia].
  unfold SubmitCandidateWithDeadline, submit_with, p_bind, p_get, p_lift, p_modify, p_ret. rewrite Hs.
  destruct (Z.eqb_spec (len (b_Hash b)) 0) as [E|]; [destruct (b_Hash b); [done|unfold len in E; cbn in E; lia]|].
  destruct (Z.ltb_spec (MaxLateness p) (since (t_delay clk) (minedAt * second))); [lia|].
  unfold target_pool, candidate_height. destruct (Z.eqb_spec (h_Height (b_Header b)) 0); [done|]. cbn [andb]. rewrite Hp.
  cbn. unfold GetWindowDeadline. cbn. rewrite lookup_insert_eq. cbn. unfold synced_deadline, zero_time, second in *.
  destruct (Z.eqb_spec (d * 1000000000) (-62135596800 * 1000000000)); [lia|].
  destruct (Z.ltb_spec (d * 1000000000) (t_open clk)); [lia|done].
Qed.

(** A source submits once per height: every further submission under its name is refused and
    changes nothing.  The synchronisation loop submits the blocks of all peers as [sync-peer]. *)
Theorem second_submission_refused (p : CandidatePool) (pool : HeightPool) clk (b : BlockRef) src minedAt :
  pools p !! candidate_height b = Some pool -> src ∈ map ca_SourceID (hp_Candidates pool) ->
  fst (SubmitCandidate clk (Some b) src minedAt p) = p /\
  snd (SubmitCandidate clk (Some b) src minedAt p) <> Val (Ok tt).
Proof.
  intros Hp Hs. unfold SubmitCandidate, submit_with, p_bind, p_get, p_lift, p_modify, p_ret.
  destruct (stopped p); [done|]. destruct (_ =? 0); [done|]. destruct (_ <? _); [done|].
  unfold target_pool. rewrite Hp. destruct (hp_Closed pool || _); [done|].
  assert (Hc : check_candidates (hexhash b) src (hp_Candidates pool) <> Val (Ok tt)).
  { revert Hs. generalize (hp_Candidates pool). intros l. induction l as [|c l IH]; cbn; [set_solver|]. intros Hs.
    unfold slice16. destruct (bool_decide _ && _); [by destruct (_ <? _)|]. unfold str_eqb.
    destruct (bool_decide_reflect (ca_SourceID c = src)) as [|Hne]; [done|]. apply IH. set_solver. }
  destruct (check_candidates _ _ _) as [[[]|]|]; cbn; [by destruct Hc|done|done].
Qed.

(** ** The source decides

    The first four bytes of the key are those of the hash under the source's mask.  A source whose
    mask is the beginning of its block's hash has a key that begins with zeros and precedes every key that
    does not, whatever the hash. *)
Lemma xor_mask_self (h m : list Z) :
  length m = 4%nat -> take 4 h = m -> take 4 (xor_mask h m) = [0; 0; 0; 0].
Proof.
  intros Hl Ht. destruct h as [|a [|b [|c [|d h]]]]; cbn in Ht; subst m; try done.
  unfold xor_mask. cbn. by rewrite !Z.lxor_nilpotent.
Qed.

Theorem chosen_source_wins (c d : Candidate) (b b' : BlockRef) :
  ca_Block c = Some b -> ca_Block d = Some b' -> ca_SourceID c <> ""%string ->
  computeSourceMask (ca_SourceID c) = take 4 (b_Hash b) ->
  Forall (fun x => 0 <= x) (weightedSelectKey d) -> (4 <= length (weightedSelectKey d))%nat ->
  take 4 (weightedSelectKey d) <> [0; 0; 0; 0] -> less c d = true.
Proof.
  intros Hb Hb' Hs Hm Hpos Hlen Hd.
  assert (Hml : length (take 4 (b_Hash b)) = 4%nat).
  { rewrite <- Hm. unfold computeSourceMask. destruct (Z.eqb_spec (strlen (ca_SourceID c)) 0) as [E|_].
    - destruct (ca_SourceID c); [done|unfold strlen in E; cbn in E; lia].
    - rewrite length_take, sha256_length. done. }
  assert (Hk : take 4 (weightedSelectKey c) = [0; 0; 0; 0]).
  { rewrite (key_of_ballot c (ref_blk b, ca_SourceID c)) by (unfold ballot; by rewrite Hb).
    unfold ballot_key. cbn. rewrite Hm. by apply xor_mask_self. }
  unfold less. rewrite Hb, Hb'. destruct (weightedSelectKey c) as [|k0 [|k1 [|k2 [|k3 k]]]]; try done.
  destruct (weightedSelectKey d) as [|x0 [|x1 [|x2 [|x3 x]]]]; try (cbn in Hlen; lia).
  cbn in Hk. injection Hk as -> -> -> ->.
  rewrite !list.Forall_cons in Hpos. destruct Hpos as (? & ? & ? & ? & _). cbn in Hd. cbn [key_cmp].
  repeat match goal with |- context [?a <? ?b] => destruct (Z.ltb_spec a b); [try done; lia|] end.
  destruct Hd. repeat f_equal; lia.
Qed.

(** ** The locks

    [p.mu] is a readers-writer lock, [pool.mu] a mutex.  Each operation is the sequence of its
    lock operations on the window of one height; a schedule is the list of the threads that move. *)
Inductive lock_op : Type := RLockP | RUnlockP | LockP | UnlockP | LockPool | UnlockPool.

(** [SubmitCandidate] for a height with a window. *)
Definition submit_locks : list lock_op := [RLockP; RUnlockP; LockP; LockPool; UnlockPool; UnlockP].
Definition select_locks : list lock_op := [LockP; UnlockP; LockPool; LockP; UnlockP; UnlockPool].
Definition stats_locks : list lock_op := [RLockP; LockPool; UnlockPool; RUnlockP].

Record Locks := mkLocks { readers : nat; writer : bool; pool_held : bool }.

Definition lock_step (o : lock_op) (l : Locks) : option Locks :=
  match o with
  | RLockP => if writer l then None else Some (mkLocks (Datatypes.S (readers l)) false (pool_held l))
  | RUnlockP => Some (mkLocks (pred (readers l)) (writer l) (pool_held l))
  | LockP => if writer l || negb (readers l =? 0)%nat then None else Some (mkLocks 0 true (pool_held l))
  | UnlockP => Some (mkLocks (readers l) false (pool_held l))
  | LockPool => if pool_held l then None else Some (mkLocks (readers l) (writer l) true)
  | UnlockPool => Some (mkLocks (readers l) (writer l) false)
  end.

Definition thread_step (i : nat) (s : Locks * list (list lock_op)) : option (Locks * list (list lock_op)) :=
  match snd s !! i with
  | Some (o :: os) => l ← lock_step o (fst s); Some (l, <[i := os]> (snd s))
  | _ => None
  end.

Fixpoint run_schedule (is_ : list nat) (s : Locks * list (list lock_op)) : option (Locks * list (list lock_op)) :=
  match is_ with
  | [] => Some s
  | i :: is' => s' ← thread_step i s; run_schedule is' s'
  end.

Definition no_locks : Locks := mkLocks 0 false false.

(** A submission and a selection for the same height can wait for each other, each holding
    the lock the other needs; no other operation of the pool can start then. *)
Theorem submit_select_deadlock (others : list (list lock_op)) :
  Forall (fun t => exists os, t = RLockP :: os \/ t = LockP :: os) others ->
  exists schedule s, run_schedule schedule (no_locks, submit_locks :: select_locks :: others) = Some s /\
    length (snd s) = (2 + length others)%nat /\ Forall (fun t => t <> []) (snd s) /\
    forall i, thread_step i s = None.
Proof.
  intros Ho. exists [1; 1; 0; 0; 0; 1]%nat.
  eexists (mkLocks 0 true true, [LockPool; UnlockPool; UnlockP] :: [LockP; UnlockP; UnlockPool] :: others).
  split; [reflexivity|]. split; [done|]. split.
  { repeat constructor; try done. eapply list.Forall_impl; [exact Ho|]. by intros t (os & [->| ->]). }
  intros [|[|i]]; [done|done|]. unfold thread_step. cbn [snd lookup list_lookup].
  destruct (others !! i) as [t|] eqn:E; [|done]. rewrite list.Forall_lookup in Ho.
  destruct (Ho i t E) as (os & [->| ->]); done.
Qed.

(** * On concrete candidates *)

(** Insertion sort keeps the promise of [sort.Slice]. *)
Fixpoint insert_candidate (c : Candidate) (l : list Candidate) : list Candidate :=
  match l with
  | [] => [c]
  | d :: l' => if less d c then d :: insert_candidate c l' else c :: l
  end.
Definition insertion_sort (l : list Candidate) : list Candidate := foldr insert_candidate [] l.

Lemma insert_candidate_perm (c : Candidate) (l : list Candidate) : insert_candidate c l ≡ₚ c :: l.
Proof.
  induction l as [|d l IH]; cbn; [done|]. destruct (less d c); [|done]. rewrite IH. by apply Permutation_swap.
Qed.

Lemma insertion_sort_perm (l : list Candidate) : insertion_sort l ≡ₚ l.
Proof. induction l as [|c l IH]; cbn; [done|]. by rewrite insert_candidate_perm, IH. Qed.

Lemma weak_order_sub (l l' : list Candidate) : l' ⊆ l -> weak_order l -> weak_order l'.
Proof.
  intros Hs [H1 H2]. split; [intros a b Ha Hb; apply H1; by apply Hs|].
  intros a b c Ha Hb Hc. apply H2; by apply Hs.
Qed.

Lemma insert_candidate_sorted (c : Candidate) (l : list Candidate) :
  weak_order (c :: l) -> StronglySorted (fun a b => less b a = false) l ->
  StronglySorted (fun a b => less b a = false) (insert_candidate c l).
Proof.
  intros Hw Hs. induction Hs as [|d l Hs IH Hf]; cbn; [repeat constructor|].
  destruct (less d c) eqn:E.
  - constructor; [apply IH; eapply weak_order_sub; [|exact Hw]; set_solver|].
    rewrite insert_candidate_perm. constructor; [|done]. apply (proj1 Hw); [set_solver|set_solver|done].
  - constructor; [by constructor|]. constructor; [done|]. rewrite list.Forall_forall in *. intros e He.
    apply (proj2 Hw c d e); [set_solver|set_solver|set_solver|done|by apply Hf].
Qed.

Lemma insertion_sort_ok : sort_ok insertion_sort.
Proof.
  intros l. split; [apply insertion_sort_perm|]. induction l as [|c l IH]; intros Hw; cbn; [constructor|].
  apply insert_candidate_sorted.
  - eapply weak_order_sub; [|exact Hw]. rewrite insertion_sort_perm. done.
  - apply IH. eapply weak_order_sub; [|exact Hw]. set_solver.
Qed.

Definition sample_clock : Clock := mkClock 5 5 5 5 5.
Definition sample_acceptor : Acceptor (Chain unit) :=
  chain_accepts accept_all all_sealed (fun _ => 0) map_to_list map_to_list map_to_list map_to_list dup (fun l => len l).
Definition sample_pool : CandidatePool :=
  fst (SubmitCandidate sample_clock (Some n2) "miner" 0 (SetChainReference true NewCandidatePool)).

Lemma candidate_pool_invariant_witness :
  map_Forall (pool_ok (MaxCandidates sample_pool)) (pools sample_pool).
Proof.
  apply (candidate_pool_invariant (H := sample_acceptor) insertion_sort plain (sample_pool, plain)).
  - exact insertion_sort_ok.
  - eapply rtc_l; [exact (@step_chain _ sample_acceptor insertion_sort true (NewCandidatePool, plain))|].
    apply rtc_once.
    exact (@step_submit _ sample_acceptor insertion_sort sample_clock (Some n2) "miner" 0 (SetChainReference true NewCandidatePool, plain)).
Defined.

Definition ballot_of (b : BlockRef) (src : string) (t : Z) : Candidate := mkCandidate (Some b) src t t 0 false.

Lemma sample_keys_differ : NoDup (map ballot_key [(ref_blk n2, "miner"); (ref_blk bad_next, "peer")]%string).
Proof. apply (bool_decide_unpack _). by vm_compute. Qed.

Lemma selection_converges_witness :
  map ballot (insertion_sort [ballot_of n2 "miner" 1; ballot_of bad_next "peer" 2]) =
  map ballot (insertion_sort [ballot_of bad_next "peer" 8; ballot_of (mkRef 77 n2) "miner" 9]).
Proof.
  apply (selection_converges insertion_sort insertion_sort 32).
  - exact insertion_sort_ok.
  - exact insertion_sort_ok.
  - repeat constructor; eexists; (split; [reflexivity|reflexivity]).
  - repeat constructor; eexists; (split; [reflexivity|reflexivity]).
  - apply Permutation_swap.
  - exact sample_keys_differ.
Defined.

Lemma n2_next : next_block accept_all plain n2.
Proof.
  split; [vm_compute; reflexivity|vm_compute; reflexivity|vm_compute; discriminate|reflexivity|
          exists a1; split; reflexivity|exists next_state; exact next_applies].
Qed.

Lemma plain_ready : ready_chain accept_all plain.
Proof.
  split; [exact (cs_audit _ _ (chain_with_consistent _ _))|vm_compute; discriminate|reflexivity..].
Qed.

(** A second block on the tip of the sample chain, with the same work and a higher hash. *)
Definition n3 : BlockRef := mkRef 8 (version2 (sample_block 8 2 1700000060 100 2 reward)).

Lemma plain_alone : alone plain.
Proof.
  split; try done. intros k x. change (blocksByHash plain) with (by_hash [g0; a1]). unfold by_hash.
  rewrite <- elem_of_list_to_map by (apply (bool_decide_unpack _); by vm_compute).
  change (blocks plain) with [g0; a1]. cbn [map]. rewrite !elem_of_cons. split.
  - intros [E|[E|E]]; [| |by apply not_elem_of_nil in E]; injection E as -> ->; auto.
  - intros [[->|[->|E]] ->]; [by left|by right; left|by apply not_elem_of_nil in E].
Qed.

Definition pool_of (cands : list Candidate) : CandidatePool :=
  mkPool {[2 := mkHeightPool 2 5 35 cands true false]} defaultTotalInterval defaultMinWindowDuration defaultMaxLateness
    defaultMaxCandidates defaultMaxExtensionWindow true true false true [].

(** The candidate with the least key has the lower hash as well: it wins and stays. *)
Definition two_candidates : list Candidate := [ballot_of n3 "miner" 5; ballot_of n2 "peer" 6].

Lemma selection_extends_chain_witness :
  exists best b (c' : Chain unit),
    best ∈ two_candidates /\ ca_Block best = Some b /\
    selectBest (H := sample_acceptor) insertion_sort 2 (pool_of two_candidates, plain)
    = Val ((notify b (set_pools (delete 2 (pools (pool_of two_candidates))) (pool_of two_candidates)), c'), tt) /\
    blocks c' = [g0; a1; b] /\ AuditChain accept_all c' = Ok tt.
Proof.
  destruct (selection_extends_chain accept_all all_sealed (fun _ => 0) map_to_list map_to_list map_to_list map_to_list
    dup (fun l => len l) insertion_sort 2 (pool_of two_candidates) (mkHeightPool 2 5 35 two_candidates true false) plain a1 null_appends)
    as (best & b & c' & H1 & _ & H3 & H4 & H5 & H6).
  - by intros m.
  - exact insertion_sort_ok.
  - exact (cs_audit _ _ (chain_with_consistent _ _)).
  - exact plain_alone.
  - vm_compute. reflexivity.
  - reflexivity.
  - reflexivity.
  - discriminate.
  - reflexivity.
  - repeat constructor; eexists; (split; [reflexivity|split; reflexivity]).
  - apply (bool_decide_unpack _). vm_compute. exact I.
  - apply (bool_decide_unpack _). vm_compute. exact I.
  - intros d b Hd Eb Hl. cbn [hp_Candidates] in *. unfold two_candidates in *.
    apply list.Forall_cons in Hl as [_ Hl]. apply list.Forall_cons in Hl as [Hl _].
    apply elem_of_cons in Hd as [->|Hd%list_elem_of_singleton].
    + vm_compute in Hl. discriminate Hl.
    + subst d. injection Eb as <-. split; [exact n2_next|]. intros x Hx Hp.
      change (omap ca_Block _) with [n3; n2] in Hx.
      apply elem_of_cons in Hx as [->|Hx%list_elem_of_singleton]; [|subst x]; vm_compute in Hp;
        (destruct Hp as [Hp|[_ [Hp|[_ Hp]]]]; discriminate Hp).
  - exists best, b, c'. split; [exact H1|]. split; [exact H3|]. split; [exact H4|]. split; [exact H5|exact H6].
Defined.

(** The selection does not have the last word: of two valid candidates with the same work, the one
    with the least key is selected and announced, and [AddBlock] of the other, whose hash is
    lower, takes it off the chain again. *)
Example winner_displaced :
  match selectBest (H := sample_acceptor) insertion_sort 2
          (pool_of [ballot_of n3 "peer" 5; ballot_of n2 "miner" 6], plain) with
  | Val ((p, c), _) => selected p = [n3] /\ map hexhash (map ref_blk (blocks c)) = map hexhash (map ref_blk [g0; a1; n2])
  | Halt _ => False
  end.
Proof. vm_compute. split; reflexivity. Qed.
