(* ===== verification/Matrix.v ===== *)
(** * The matrices of the proof of work

    [blockchain/nogopow/matrix.go]: fixed-point numbers, dense matrices in row-major slices
    and the three products, the plain loop nest [mulMatrixInto], the cache-blocked
    [mulMatrixBlocked] the hash uses and the parallel method [Mul].

    The theorems: the blocked product computes what the plain loop nest computes, on all
    inputs; so does the parallel one for every order in which its workers write; and on
    matrices of 8-bit entries the fixed-point product followed by the rounding of
    [fromFixed] is the integer matrix product clamped to 8 bits, with no overflow. *)

From S2P Require Import Prelude Float.
From stdpp Require Import base sets list strings numbers.
From Stdlib Require Import ZArith Lia SpecFloat.

Open Scope Z_scope.

(** ** Fixed point *)
Definition FixedPointFactor : Z := Z.shiftl 1 24.
Definition FixedPointHalf : Z := Z.shiftl 1 23.
Definition FixedPointShift : Z := 24.
Definition MaxInt8 : Z := 127.
Definition MinInt8 : Z := -128.

Definition toFixed (val : float64) : Z := f64_trunc (f64_mul val (f64_of_Z FixedPointFactor)).

Definition fromFixed (val : Z) : Z :=
  let rounded := Z.shiftr (i64 (val + FixedPointHalf)) FixedPointShift in
  if MaxInt8 <? rounded then MaxInt8
  else if rounded <? MinInt8 then MinInt8
  else rounded.

Definition toFixedShift (v : Z) : Z := i64 (Z.shiftl v FixedPointShift).

(** [(a * b + FixedPointHalf) >> FixedPointShift] in [int64] *)
Definition fixmul (a b : Z) : Z := Z.shiftr (i64 (i64 (a * b) + FixedPointHalf)) FixedPointShift.

(** ** Matrices *)
Record denseMatrix : Type := mkMatrix { data : list Z; rows : nat; cols : nat }.

Definition At (m : denseMatrix) (row col : nat) : Z := data m !!! (row * cols m + col)%nat.
Definition Set_ (row col : nat) (v : Z) (m : denseMatrix) : denseMatrix :=
  mkMatrix (<[(row * cols m + col)%nat := v]> (data m)) (rows m) (cols m).

(** [for i := lo; i < hi; i++ { x = f(i, x) }] *)
Definition for_range {A : Type} (lo hi : nat) (f : nat -> A -> A) (x : A) : A :=
  foldl (fun x i => f i x) x (seq lo (hi - lo)).

(** [clear(m.data[:rows*cols])] *)
Definition clear_prefix (n : nat) (l : list Z) : list Z := replicate n 0 ++ drop n l.

(** [Reset] keeps the larger slice when the matrix shrinks. *)
Definition Reset (r c : nat) (m : denseMatrix) : denseMatrix :=
  if (rows m <? r)%nat || (cols m <? c)%nat then mkMatrix (replicate (r * c) 0) r c
  else mkMatrix (clear_prefix (r * c) (data m)) r c.

(** [newDenseMatrix(rows, cols, nil)]: an identity matrix. *)
Definition identity_data (r c : nat) : list Z :=
  for_range 0 r (fun i d => <[(i * c + i)%nat := FixedPointFactor]> d) (replicate (r * c) 0).
Definition newDenseMatrix (r c : nat) (d : option (list Z)) : denseMatrix :=
  mkMatrix (default (identity_data r c) d) r c.

Definition transpose_data (m : denseMatrix) : list Z :=
  for_range 0 (rows m) (fun i t =>
    for_range 0 (cols m) (fun j t =>
      <[(j * rows m + i)%nat := data m !!! (i * cols m + j)%nat]> t) t)
    (replicate (rows m * cols m) 0).
Definition T (m : denseMatrix) : denseMatrix := mkMatrix (transpose_data m) (cols m) (rows m).

(** ** Products *)

(** The inner loop of [mulMatrixInto] and [Mul]. *)
Definition dot (a b : denseMatrix) (size i j : nat) : Z :=
  for_range 0 size (fun k sum => i64 (sum + fixmul (At a i k) (At b k j))) 0.

Definition mulMatrixInto (dst a b : denseMatrix) (size : nat) : denseMatrix :=
  for_range 0 size (fun i dst =>
    for_range 0 size (fun j dst => Set_ i j (dot a b size i j) dst) dst) dst.

Definition blockSize : nat := 32.

(** [for x0 := 0; x0 < size; x0 += blockSize] *)
Definition for_blocks {A : Type} (size : nat) (f : nat -> A -> A) (x : A) : A :=
  foldl (fun x n => f (n * blockSize)%nat x) x (seq 0 ((size + blockSize - 1) / blockSize)).

(** [x1 := x0 + blockSize; if x1 > size { x1 = size }] *)
Definition block_end (size x0 : nat) : nat :=
  if (size <? x0 + blockSize)%nat then size else (x0 + blockSize)%nat.

Definition mulMatrixBlocked (dst a b : list Z) (size : nat) : list Z :=
  let dst := for_range 0 (size * size) (fun i dst => <[i := 0]> dst) dst in
  for_blocks size (fun i0 dst =>
    let i1 := block_end size i0 in
    for_blocks size (fun k0 dst =>
      let k1 := block_end size k0 in
      for_blocks size (fun j0 dst =>
        let j1 := block_end size j0 in
        for_range i0 i1 (fun i dst =>
          let rowA := (i * size)%nat in
          let rowDst := (i * size)%nat in
          for_range k0 k1 (fun k dst =>
            let valA := a !!! (rowA + k)%nat in
            if valA =? 0 then dst
            else
              let rowB := (k * size)%nat in
              for_range j0 j1 (fun j dst =>
                let prod := i64 (valA * b !!! (rowB + j)%nat) in
                <[(rowDst + j)%nat :=
                    i64 (dst !!! (rowDst + j)%nat
                         + Z.shiftr (i64 (prod + FixedPointHalf)) FixedPointShift)]> dst)
                dst)
            dst)
          dst)
        dst)
      dst)
    dst.

(** [Mul] starts [numWorkers] goroutines, each of which writes the cells of its rows, and
    waits for them.  A cell is written once, from [a] and [b] alone, so a run is the order in
    which the cells are written: the argument [schedule]. *)
Definition rowsPerWorker (m_rows numWorkers : nat) : nat :=
  ((m_rows + numWorkers - 1) / numWorkers)%nat.
Definition worker_cells (m_rows b_cols numWorkers w : nat) : list (nat * nat) :=
  let startRow := (w * rowsPerWorker m_rows numWorkers)%nat in
  let endRow := Nat.min (startRow + rowsPerWorker m_rows numWorkers) m_rows in
  flat_map (fun i => map (fun j => (i, j)) (seq 0 b_cols)) (seq startRow (endRow - startRow)).
Definition all_cells (m_rows b_cols numWorkers : nat) : list (nat * nat) :=
  flat_map (worker_cells m_rows b_cols numWorkers) (seq 0 numWorkers).

(** [None]: a matrix without rows gets no workers, and the division by their number panics. *)
Definition Mul (schedule : list (nat * nat)) (m a b : denseMatrix) : option (result denseMatrix) :=
  if negb (cols a =? rows b)%nat then Some (Err "matrix dimensions mismatch")
  else if (rows m =? 0)%nat then None
  else Some (Ok (foldl (fun m ij => Set_ ij.1 ij.2 (dot a b (cols a) ij.1 ij.2) m) m schedule)).

(** ** Wrapped sums *)

(** The terms of the product that the blocked loop skips contribute nothing. *)
Lemma fixmul_0_l (b : Z) : fixmul 0 b = 0.
Proof. done. Qed.

Lemma dot_sum (a b : denseMatrix) (size i j : nat) :
  dot a b size i j = i64 (sumZ (map (fun k => fixmul (At a i k) (At b k j)) (seq 0 size))).
Proof.
  unfold dot, for_range. rewrite Nat.sub_0_r.
  assert (H : forall l z, foldl (fun s k => i64 (s + fixmul (At a i k) (At b k j))) (i64 z) l
    = i64 (z + sumZ (map (fun k => fixmul (At a i k) (At b k j)) l))).
  { induction l as [|k l IH]; intros z; cbn; [by rewrite Z.add_0_r|].
    rewrite i64_add_l, IH. f_equal. unfold sumZ. lia. }
  exact (H (seq 0 size) 0).
Qed.

(** ** Sums over ranges and blocks *)
Lemma sum_ext {A : Type} (f g : A -> Z) (l : list A) :
  (forall x, x ∈ l -> f x = g x) -> sumZ (map f l) = sumZ (map g l).
Proof.
  induction l as [|x l IH]; intros H; cbn; [done|]. rewrite (H x) by set_solver.
  f_equal. apply IH. set_solver.
Qed.

Lemma sum_zero {A : Type} (l : list A) : sumZ (map (fun _ => 0) l) = 0.
Proof. unfold sumZ. induction l; cbn; lia. Qed.

Lemma sum_zero_on {A : Type} (f : A -> Z) (l : list A) :
  (forall x, x ∈ l -> f x = 0) -> sumZ (map f l) = 0.
Proof. intros H. rewrite (sum_ext _ (fun _ => 0)) by done. apply sum_zero. Qed.

Lemma sum_plus {A : Type} (f g : A -> Z) (l : list A) :
  sumZ (map (fun x => f x + g x) l) = sumZ (map f l) + sumZ (map g l).
Proof. unfold sumZ. induction l; cbn in *; lia. Qed.

Lemma sum_exchange {A B : Type} (f : A -> B -> Z) (l : list A) (m : list B) :
  sumZ (map (fun a => sumZ (map (f a) m)) l) = sumZ (map (fun b => sumZ (map (fun a => f a b) l)) m).
Proof.
  induction l as [|a l IH]; cbn; [by rewrite sum_zero|].
  rewrite sum_plus. unfold sumZ in *. lia.
Qed.

Definition blocks_of (size : nat) : list nat :=
  map (fun n => n * blockSize)%nat (seq 0 ((size + blockSize - 1) / blockSize)).
Definition block (size x0 : nat) : list nat := seq x0 (block_end size x0 - x0).

(** The blocks are a partition of the range. *)
Lemma blocks_concat (size : nat) : concat (map (block size) (blocks_of size)) = seq 0 size.
Proof.
  unfold blocks_of. rewrite map_map. set (n := ((size + blockSize - 1) / blockSize)%nat).
  assert (Hn : (size <= n * blockSize)%nat /\ (n * blockSize < size + blockSize)%nat).
  { unfold n, blockSize. pose proof (Nat.div_mod (size + 32 - 1) 32).
    pose proof (Nat.mod_upper_bound (size + 32 - 1) 32). lia. }
  assert (H : forall m, (m <= n)%nat ->
    concat (map (fun x => block size (x * blockSize)) (seq 0 m)) = seq 0 (Nat.min (m * blockSize) size)).
  { induction m as [|m IH]; intros Hm; [done|].
    rewrite seq_S, map_app, concat_app, IH by lia. cbn [map concat]. rewrite app_nil_r, Nat.add_0_l.
    unfold block, block_end, blockSize in *.
    rewrite (Nat.min_l (m * 32)) by lia.
    destruct (Nat.ltb_spec size (m * 32 + 32)).
    - rewrite Nat.min_r by lia. rewrite <- seq_app. f_equal. lia.
    - rewrite Nat.min_l by lia. rewrite <- seq_app. f_equal. lia. }
  rewrite H by lia. f_equal. lia.
Qed.

Lemma sum_blocks (f : nat -> Z) (size : nat) :
  sumZ (map (fun x0 => sumZ (map f (block size x0))) (blocks_of size)) = sumZ (map f (seq 0 size)).
Proof.
  rewrite <- (blocks_concat size). generalize (blocks_of size) as l.
  induction l as [|x l IH]; cbn; [done|]. rewrite map_app, sumZ_app. unfold sumZ in *. lia.
Qed.

(** ** Loops that add

    [adds T g]: [T] adds [g x], wrapped, to each cell [x] of a slice of length [L]. *)
Section adds.
Variable L : nat.

Definition int64s (d : list Z) : Prop := length d = L /\ Forall (fun z => i64 z = z) d.
Definition adds (f : list Z -> list Z) (g : nat -> Z) : Prop :=
  forall d, int64s d ->
    int64s (f d) /\ forall x, (x < L)%nat -> f d !!! x = i64 (d !!! x + g x).

Lemma int64s_lookup (d : list Z) (x : nat) : int64s d -> (x < L)%nat -> i64 (d !!! x) = d !!! x.
Proof.
  intros [Hl Hd] Hx. rewrite list.Forall_lookup in Hd. apply (Hd x).
  apply list_lookup_lookup_total_lt. lia.
Qed.

Lemma adds_id : adds (fun d => d) (fun _ => 0).
Proof.
  intros d Hd. split; [done|]. intros x Hx. by rewrite Z.add_0_r, int64s_lookup.
Qed.

Lemma adds_ext (f f' : list Z -> list Z) (g g' : nat -> Z) :
  (forall d, f d = f' d) -> (forall x, (x < L)%nat -> g x = g' x) -> adds f g -> adds f' g'.
Proof.
  intros Hf Hg H d Hd. destruct (H d Hd) as [Hc Hx]. rewrite <- Hf. split; [done|].
  intros x Hl. by rewrite <- Hg, Hx.
Qed.

Lemma adds_fold {A : Type} (f : A -> list Z -> list Z) (g : A -> nat -> Z) (l : list A) :
  (forall i, i ∈ l -> adds (f i) (g i)) ->
  adds (fun d => foldl (fun d i => f i d) d l) (fun x => sumZ (map (fun i => g i x) l)).
Proof.
  induction l as [|i l IH]; intros H; [apply adds_id|].
  intros d Hd. destruct (H i ltac:(set_solver) d Hd) as [Hc1 Hx1].
  destruct (IH ltac:(set_solver) (f i d) Hc1) as [Hc2 Hx2]. split; [done|].
  intros x Hx. cbn. rewrite Hx2, Hx1, i64_add_l by done. f_equal. unfold sumZ. lia.
Qed.

Lemma adds_cell (y : nat) (v : Z) :
  (y < L)%nat ->
  adds (fun d => <[y := i64 (d !!! y + v)]> d) (fun x => if (x =? y)%nat then v else 0).
Proof.
  intros Hy d Hd. split.
  - destruct Hd as [Hl Hf]. split; [by rewrite length_insert|].
    apply Forall_insert; [done|]. apply i64_idem.
  - intros x Hx. destruct (Nat.eqb_spec x y) as [->|Hne].
    + rewrite list_lookup_total_insert_eq; [done|]. destruct Hd. lia.
    + rewrite list_lookup_total_insert_ne by done. by rewrite Z.add_0_r, int64s_lookup.
Qed.

Lemma adds_range (lo hi : nat) (f : nat -> list Z -> list Z) (g : nat -> nat -> Z) :
  (forall i, (lo <= i < hi)%nat -> adds (f i) (g i)) ->
  adds (for_range lo hi f) (fun x => sumZ (map (fun i => g i x) (seq lo (hi - lo)))).
Proof.
  intros H. apply adds_fold. intros i Hi. apply elem_of_seq in Hi. apply H. lia.
Qed.

Lemma adds_blocks (size : nat) (f : nat -> list Z -> list Z) (g : nat -> nat -> Z) :
  (forall i, adds (f i) (g i)) ->
  adds (for_blocks size f) (fun x => sumZ (map (fun i => g i x) (blocks_of size))).
Proof.
  intros H. unfold for_blocks, blocks_of.
  eapply adds_ext; [done| |apply (adds_fold (fun n => f (n * blockSize)%nat))].
  - intros x _. rewrite map_map. done.
  - done.
Qed.
End adds.

Lemma block_end_le (size x0 i : nat) : (x0 <= i < block_end size x0)%nat -> (i < size)%nat.
Proof. unfold block_end. destruct (Nat.ltb_spec size (x0 + blockSize)); lia. Qed.

(** The sum of a function that vanishes off one point of the range. *)
Lemma sum_single (n x : nat) (f : nat -> Z) :
  (x < n)%nat -> sumZ (map (fun i => if (i =? x)%nat then f i else 0) (seq 0 n)) = f x.
Proof.
  intros Hx. replace n with (x + (1 + (n - x - 1)))%nat by lia.
  rewrite !seq_app, !map_app, !sumZ_app. cbn [map seq].
  rewrite !sum_zero_on.
  - unfold sumZ. cbn. rewrite Nat.eqb_refl. lia.
  - intros i Hi. apply elem_of_seq in Hi. destruct (Nat.eqb_spec i x); [lia|done].
  - intros i Hi. apply elem_of_seq in Hi. destruct (Nat.eqb_spec i x); [lia|done].
Qed.

(** One step of the blocked loop nest: the terms of [k] that go to the cells of row [i]. *)
Definition term (a b : list Z) (size i k j : nat) : Z :=
  fixmul (a !!! (i * size + k)%nat) (b !!! (k * size + j)%nat).

Lemma cell_lt (size i j : nat) : (i < size)%nat -> (j < size)%nat -> (i * size + j < size * size)%nat.
Proof. nia. Qed.

Lemma cell_eqb (size i j i' j' : nat) : (j < size)%nat -> (j' < size)%nat ->
  (i' * size + j' =? i * size + j)%nat = (i' =? i)%nat && (j' =? j)%nat.
Proof.
  intros Hj Hj'. destruct (Nat.eqb_spec (i' * size + j') (i * size + j)) as [E|E].
  - assert (i' = i) as -> by nia. assert (j' = j) as -> by lia. by rewrite !Nat.eqb_refl.
  - destruct (Nat.eqb_spec i' i) as [->|]; [|done]. destruct (Nat.eqb_spec j' j) as [->|]; done.
Qed.

Section blocked.
Variables (a b : list Z) (size : nat).
Let L : nat := (size * size)%nat.

(** What the loop over [j] of the source adds, with the test that skips zeros. *)
Definition gain (i k j x : nat) : Z :=
  if (x =? i * size + j)%nat then term a b size i k j else 0.

Lemma inner_adds (i k j0 : nat) : (i < size)%nat ->
  adds L (fun dst =>
    if a !!! (i * size + k)%nat =? 0 then dst
    else for_range j0 (block_end size j0) (fun j dst =>
      <[(i * size + j)%nat := i64 (dst !!! (i * size + j)%nat
          + Z.shiftr (i64 (i64 (a !!! (i * size + k)%nat * b !!! (k * size + j)%nat) + FixedPointHalf))
              FixedPointShift)]> dst) dst)
    (fun x => sumZ (map (fun j => gain i k j x) (block size j0))).
Proof.
  intros Hi. destruct (Z.eqb_spec (a !!! (i * size + k)%nat) 0) as [E|E].
  - eapply adds_ext; [done| |apply adds_id]. intros x _. symmetry. apply sum_zero_on. intros j _.
    unfold gain, term. rewrite E, fixmul_0_l. by case_match.
  - apply (adds_range L j0 (block_end size j0) _ (fun j => gain i k j)).
    intros j Hj. apply block_end_le in Hj. by apply adds_cell, cell_lt.
Qed.

Lemma loops_add :
  adds L (fun dst =>
    for_blocks size (fun i0 dst =>
      for_blocks size (fun k0 dst =>
        for_blocks size (fun j0 dst =>
          for_range i0 (block_end size i0) (fun i dst =>
            for_range k0 (block_end size k0) (fun k dst =>
              if a !!! (i * size + k)%nat =? 0 then dst
              else for_range j0 (block_end size j0) (fun j dst =>
                <[(i * size + j)%nat := i64 (dst !!! (i * size + j)%nat
                    + Z.shiftr (i64 (i64 (a !!! (i * size + k)%nat * b !!! (k * size + j)%nat)
                        + FixedPointHalf)) FixedPointShift)]> dst) dst) dst) dst) dst) dst) dst)
    (fun x => sumZ (map (fun i0 => sumZ (map (fun k0 => sumZ (map (fun j0 =>
      sumZ (map (fun i => sumZ (map (fun k => sumZ (map (fun j => gain i k j x) (block size j0)))
        (block size k0))) (block size i0))) (blocks_of size))) (blocks_of size))) (blocks_of size))).
Proof.
  apply adds_blocks. intros i0. apply adds_blocks. intros k0. apply adds_blocks. intros j0.
  apply adds_range. intros i Hi. apply block_end_le in Hi. apply adds_range. intros k Hk.
  by apply inner_adds.
Qed.

(** The nested sums are the sum over all triples. *)
Lemma blocked_sum (g : nat -> nat -> nat -> Z) :
  sumZ (map (fun i0 => sumZ (map (fun k0 => sumZ (map (fun j0 =>
      sumZ (map (fun i => sumZ (map (fun k => sumZ (map (fun j => g i k j) (block size j0)))
        (block size k0))) (block size i0))) (blocks_of size))) (blocks_of size))) (blocks_of size))
  = sumZ (map (fun i => sumZ (map (fun k => sumZ (map (fun j => g i k j) (seq 0 size)))
      (seq 0 size))) (seq 0 size)).
Proof.
  rewrite <- (sum_blocks _ size). apply sum_ext. intros i0 _.
  rewrite (sum_ext _ (fun k0 => sumZ (map (fun i => sumZ (map (fun j0 =>
    sumZ (map (fun k => sumZ (map (fun j => g i k j) (block size j0))) (block size k0)))
    (blocks_of size))) (block size i0)))) by (intros; apply sum_exchange).
  rewrite sum_exchange. apply sum_ext. intros i _.
  rewrite <- (sum_blocks _ size). apply sum_ext. intros k0 _.
  rewrite sum_exchange. apply sum_ext. intros k _. apply sum_blocks.
Qed.

Lemma gains_at (i j : nat) : (i < size)%nat -> (j < size)%nat ->
  sumZ (map (fun i' => sumZ (map (fun k => sumZ (map (fun j' =>
    gain i' k j' (i * size + j)) (seq 0 size))) (seq 0 size))) (seq 0 size))
  = sumZ (map (fun k => term a b size i k j) (seq 0 size)).
Proof.
  intros Hi Hj.
  rewrite <- (sum_single size i (fun i => sumZ (map (fun k => term a b size i k j) (seq 0 size)))) by done.
  apply sum_ext. intros i' _. destruct (Nat.eqb_spec i' i) as [->|Hne].
  - apply sum_ext. intros k _.
    rewrite <- (sum_single size j (fun j => term a b size i k j)) by done.
    apply sum_ext. intros j' Hj'. apply elem_of_seq in Hj'. unfold gain.
    rewrite cell_eqb, Nat.eqb_refl, Nat.eqb_sym by lia. by destruct (Nat.eqb_spec j j') as [->|].
  - apply sum_zero_on. intros k _. apply sum_zero_on. intros j' Hj'. apply elem_of_seq in Hj'.
    unfold gain. rewrite cell_eqb by lia. by destruct (Nat.eqb_spec i i') as [->|].
Qed.
End blocked.

(** ** Loops that overwrite

    Every write to cell [x] writes [v x], so the order of the writes does not matter. *)
Lemma writes_at {A : Type} (idx : A -> nat) (v : nat -> Z) (l : list A) (d : list Z) :
  length (foldl (fun d c => <[idx c := v (idx c)]> d) d l) = length d /\
  forall x, (x < length d)%nat ->
    foldl (fun d c => <[idx c := v (idx c)]> d) d l !!! x
    = if decide (x ∈ map idx l) then v x else d !!! x.
Proof.
  revert d. induction l as [|c l IH]; intros d; cbn; [done|].
  destruct (IH (<[idx c := v (idx c)]> d)) as [Hl Hx]. rewrite length_insert in *.
  split; [done|]. intros x Hlt. rewrite (Hx x Hlt). clear IH Hl Hx.
  destruct (decide (x = idx c)) as [->|Hne].
  - rewrite list_lookup_total_insert_eq by done.
    rewrite (decide_True (P := idx c ∈ idx c :: map idx l)) by (apply elem_of_cons; auto).
    by case_decide.
  - rewrite list_lookup_total_insert_ne by done.
    destruct (decide (x ∈ map idx l)).
    + by rewrite decide_True by (apply elem_of_cons; auto).
    + by rewrite decide_False by (rewrite elem_of_cons; tauto).
Qed.

Lemma zeroed (n : nat) (d : list Z) : length d = n ->
  for_range 0 n (fun i d => <[i := 0]> d) d = replicate n 0.
Proof.
  intros Hl. unfold for_range. rewrite Nat.sub_0_r. cbv beta.
  destruct (writes_at (fun i => i) (fun _ => 0) (seq 0 n) d) as [Hlen Hx].
  apply list_eq_same_length with (n := n); [by rewrite length_replicate|by rewrite Hlen|].
  intros i x y Hi Hi' Hy. apply lookup_replicate in Hy as [-> _].
  apply list_lookup_total_correct in Hi'. rewrite <- Hi', Hx by lia. rewrite map_id.
  rewrite decide_True; [done|]. apply elem_of_seq. lia.
Qed.

Lemma mulMatrixBlocked_cells (dst a b : list Z) (size i j : nat) :
  length dst = (size * size)%nat -> (i < size)%nat -> (j < size)%nat ->
  length (mulMatrixBlocked dst a b size) = (size * size)%nat /\
  mulMatrixBlocked dst a b size !!! (i * size + j)%nat
    = i64 (sumZ (map (fun k => term a b size i k j) (seq 0 size))).
Proof.
  intros Hl Hi Hj. unfold mulMatrixBlocked. rewrite zeroed by done.
  destruct (loops_add a b size (replicate (size * size) 0)) as [[Hlen _] Hx].
  { split; [by rewrite length_replicate|]. by apply Forall_replicate. }
  split; [exact Hlen|]. etrans; [apply Hx; by apply cell_lt|].
  rewrite (blocked_sum size (fun i' k j' => gain a b size i' k j' (i * size + j))).
  rewrite gains_at by done. f_equal.
  rewrite lookup_total_replicate_2 by (by apply cell_lt). done.
Qed.

Lemma mulMatrixBlocked_length (dst a b : list Z) (size : nat) :
  length dst = (size * size)%nat -> length (mulMatrixBlocked dst a b size) = (size * size)%nat.
Proof.
  intros Hl. destruct size as [|n]; [by destruct dst|].
  apply (mulMatrixBlocked_cells dst a b (S n) 0 0); lia.
Qed.

(** Writing a list of cells. *)
Definition set_cells (v : nat -> nat -> Z) (l : list (nat * nat)) (m : denseMatrix) : denseMatrix :=
  foldl (fun m ij => Set_ ij.1 ij.2 (v ij.1 ij.2) m) m l.

(** A value by cell as a value by index. *)
Definition by_index (v : nat -> nat -> Z) (c x : nat) : Z := v (x / c)%nat (x mod c)%nat.

Lemma by_index_at (v : nat -> nat -> Z) (c i j : nat) :
  (j < c)%nat -> by_index v c (i * c + j) = v i j.
Proof.
  intros Hj. unfold by_index. rewrite Nat.div_add_l, Nat.div_small, Nat.add_0_r by lia.
  by rewrite Nat.add_comm, Nat.Div0.mod_add, Nat.mod_small by lia.
Qed.

Lemma set_cells_data (v : nat -> nat -> Z) (l : list (nat * nat)) (d : list Z) (r c : nat) :
  Forall (fun ij => (ij.2 < c)%nat) l ->
  set_cells v l (mkMatrix d r c) = mkMatrix (foldl (fun d ij =>
    <[(ij.1 * c + ij.2)%nat := by_index v c (ij.1 * c + ij.2)]> d) d l) r c.
Proof.
  intros Hl. revert d. induction Hl as [|[i j] l Hj _ IH]; intros d; [done|].
  cbn [foldl fst snd] in *. rewrite by_index_at by done. apply IH.
Qed.

Lemma set_cells_at (v : nat -> nat -> Z) (l : list (nat * nat)) (m : denseMatrix) :
  Forall (fun ij => (ij.2 < cols m)%nat) l -> length (data m) = (rows m * cols m)%nat ->
  rows (set_cells v l m) = rows m /\ cols (set_cells v l m) = cols m /\
  length (data (set_cells v l m)) = (rows m * cols m)%nat /\
  forall i j, (i < rows m)%nat -> (j < cols m)%nat ->
    At (set_cells v l m) i j = if decide ((i, j) ∈ l) then v i j else At m i j.
Proof.
  intros Hl Hd. destruct m as [d r c]. cbn [data rows cols] in *.
  rewrite set_cells_data by done. cbn [data rows cols].
  set (idx := fun ij : nat * nat => (ij.1 * c + ij.2)%nat).
  destruct (writes_at idx (by_index v c) l d) as [Hlen Hx].
  split_and!; [done|done|by rewrite <- Hd|]. intros i j Hi Hj. unfold At. cbn [data cols].
  etrans; [apply Hx; rewrite Hd; nia|].
  assert (Hin : (i * c + j)%nat ∈ map idx l <-> (i, j) ∈ l).
  { split.
    - intros Hin. apply list_elem_of_fmap in Hin as ([i' j'] & Hij & Hin). unfold idx in Hij. cbn in Hij.
      rewrite list.Forall_forall in Hl. specialize (Hl _ Hin). cbn in Hl.
      assert (i = i') as -> by nia. assert (j = j') as -> by lia. done.
    - intros Hin. apply list_elem_of_fmap. by exists (i, j). }
  destruct (decide ((i, j) ∈ l)); [rewrite decide_True by tauto|by rewrite decide_False by tauto].
  by apply by_index_at.
Qed.

(** All cells of some rows, and loops over them. *)
Definition cells (rows : list nat) (c : nat) : list (nat * nat) :=
  flat_map (fun i => map (fun j => (i, j)) (seq 0 c)) rows.

Lemma elem_of_cells (rs : list nat) (c i j : nat) : (i, j) ∈ cells rs c <-> i ∈ rs /\ (j < c)%nat.
Proof.
  unfold cells. rewrite list_elem_of_In, in_flat_map. split.
  - intros (i' & Hi & Hj). apply in_map_iff in Hj as (j' & [= -> ->] & Hj%in_seq).
    rewrite list_elem_of_In. split; [done|lia].
  - intros [Hi Hj]. exists i. split; [by apply list_elem_of_In|]. apply in_map, in_seq. lia.
Qed.

Lemma cells_cols (rs : list nat) (c : nat) : Forall (fun ij => (ij.2 < c)%nat) (cells rs c).
Proof. apply list.Forall_forall. intros [i j] H. by apply elem_of_cells in H as [_ H]. Qed.

Lemma mulMatrixInto_cells (dst a b : denseMatrix) (size : nat) :
  mulMatrixInto dst a b size = set_cells (dot a b size) (cells (seq 0 size) size) dst.
Proof.
  unfold mulMatrixInto, for_range, cells, set_cells. rewrite Nat.sub_0_r.
  revert dst. induction (seq 0 size) as [|i l IH] at 2 4; intros dst; cbn [foldl flat_map]; [done|].
  rewrite foldl_app, IH. f_equal. clear IH. revert dst.
  induction (seq 0 size) as [|j l' IH]; intros dst; cbn; [done|]. by rewrite IH.
Qed.

Lemma mulMatrixInto_at (dst a b : denseMatrix) (n : nat) :
  rows dst = n -> cols dst = n -> length (data dst) = (n * n)%nat ->
  rows (mulMatrixInto dst a b n) = n /\ cols (mulMatrixInto dst a b n) = n /\
  length (data (mulMatrixInto dst a b n)) = (n * n)%nat /\
  forall i j, (i < n)%nat -> (j < n)%nat -> At (mulMatrixInto dst a b n) i j = dot a b n i j.
Proof.
  intros Hr Hc Hl. rewrite mulMatrixInto_cells.
  destruct (set_cells_at (dot a b n) (cells (seq 0 n) n) dst) as (H1 & H2 & H3 & H4).
  { rewrite Hc. apply cells_cols. }
  { by rewrite Hr, Hc. }
  rewrite Hr, Hc in *. split_and!; [done..|]. intros i j Hi Hj. rewrite H4 by done.
  rewrite decide_True; [done|]. apply elem_of_cells. rewrite elem_of_seq. lia.
Qed.

(** Two slices that agree on every cell are equal. *)
Lemma square_ext (l1 l2 : list Z) (n : nat) :
  length l1 = (n * n)%nat -> length l2 = (n * n)%nat ->
  (forall i j, (i < n)%nat -> (j < n)%nat -> l1 !!! (i * n + j)%nat = l2 !!! (i * n + j)%nat) ->
  l1 = l2.
Proof.
  intros H1 H2 H. apply list_eq_same_length with (n := (n * n)%nat); [done..|].
  intros x y z Hx Hy Hz. apply list_lookup_total_correct in Hy, Hz. subst.
  destruct n as [|m]; [lia|]. set (n := S m) in *.
  rewrite (Nat.div_mod x n) by done. rewrite (Nat.mul_comm n).
  apply H; [apply Nat.Div0.div_lt_upper_bound; nia|by apply Nat.mod_upper_bound].
Qed.

(** C17. The cache-blocked product of the proof of work is the plain triple loop: for all
    matrices of one size the two write the same numbers, wrap-around included. *)
Theorem blocked_is_plain (dst a b : list Z) (n : nat) :
  length dst = (n * n)%nat ->
  mulMatrixBlocked dst a b n
  = data (mulMatrixInto (mkMatrix dst n n) (mkMatrix a n n) (mkMatrix b n n) n).
Proof.
  intros Hl. destruct (mulMatrixInto_at (mkMatrix dst n n) (mkMatrix a n n) (mkMatrix b n n) n)
    as (_ & Hc & Hlen & Hat); [done..|].
  apply (square_ext _ _ n); [by apply mulMatrixBlocked_length|done|]. intros i j Hi Hj.
  destruct (mulMatrixBlocked_cells dst a b n i j Hl Hi Hj) as [_ ->].
  specialize (Hat i j Hi Hj). unfold At in Hat at 1. rewrite Hc in Hat. rewrite Hat, dot_sum. done.
Qed.

Lemma all_cells_complete (r c w i j : nat) : (0 < w)%nat ->
  (i, j) ∈ all_cells r c w <-> (i < r)%nat /\ (j < c)%nat.
Proof.
  intros Hw. unfold all_cells. rewrite list_elem_of_In, in_flat_map. unfold worker_cells.
  set (p := rowsPerWorker r w). assert (Hp : (r <= w * p)%nat).
  { unfold p, rowsPerWorker. pose proof (Nat.div_mod (r + w - 1) w).
    pose proof (Nat.mod_upper_bound (r + w - 1) w). nia. }
  split.
  - intros (x & Hx & H). apply list_elem_of_In in H. apply elem_of_cells in H as [Hi Hj].
    apply elem_of_seq in Hi. lia.
  - intros [Hi Hj]. assert (Hp0 : (0 < p)%nat) by (destruct p; lia). exists (i / p)%nat. split.
    + apply in_seq. pose proof (Nat.Div0.div_lt_upper_bound i p w). lia.
    + apply list_elem_of_In. apply elem_of_cells. split; [|done]. apply elem_of_seq.
      pose proof (Nat.div_mod i p). pose proof (Nat.mod_upper_bound i p). nia.
Qed.

(** The parallel product is deterministic: whatever the number of workers and whatever
    order their writes come in, every cell holds the dot product of its row and column. *)
Theorem parallel_is_sequential (m a b : denseMatrix) (workers : nat) (schedule : list (nat * nat)) :
  cols a = rows b -> cols m = cols b -> (0 < workers <= rows m)%nat ->
  length (data m) = (rows m * cols m)%nat -> schedule ≡ₚ all_cells (rows m) (cols b) workers ->
  exists m', Mul schedule m a b = Some (Ok m') /\ rows m' = rows m /\ cols m' = cols m /\
    forall i j, (i < rows m)%nat -> (j < cols m)%nat -> At m' i j = dot a b (cols a) i j.
Proof.
  intros Hab Hm Hw Hl Hs. unfold Mul. rewrite Hab, Nat.eqb_refl. cbn [negb].
  destruct (Nat.eqb_spec (rows m) 0); [lia|]. eexists. split; [done|].
  destruct (set_cells_at (dot a b (rows b)) schedule m) as (H1 & H2 & _ & H4); [|done|].
  { rewrite Hs. apply list.Forall_forall. intros [i j] H. apply all_cells_complete in H; [|lia].
    rewrite Hm. apply H. }
  split_and!; [done|done|]. intros i j Hi Hj. etrans; [by apply H4|].
  rewrite decide_True; [done|]. rewrite Hs. apply all_cells_complete; [lia|]. by rewrite <- Hm.
Qed.

(** ** Rounding back to 8 bits *)

(** The loop of the hash that rounds each product: [Set(row, col,
    toFixedShift(fromFixed(At(row, col))))] for all cells, in place. *)
Definition requantize (size : nat) (m : denseMatrix) : denseMatrix :=
  for_range 0 size (fun row m =>
    for_range 0 size (fun col m =>
      let i8v := fromFixed (At m row col) in Set_ row col (toFixedShift i8v) m) m) m.

(** Updating each index of a list once. *)
Lemma updates_at (f : Z -> Z) (l : list nat) (d : list Z) :
  NoDup l ->
  length (foldl (fun d x => <[x := f (d !!! x)]> d) d l) = length d /\
  forall x, (x < length d)%nat ->
    foldl (fun d x => <[x := f (d !!! x)]> d) d l !!! x
    = if decide (x ∈ l) then f (d !!! x) else d !!! x.
Proof.
  intros Hn. revert d. induction Hn as [|y l Hy _ IH]; intros d; cbn; [done|].
  destruct (IH (<[y := f (d !!! y)]> d)) as [Hl Hx]. rewrite length_insert in *.
  split; [done|]. intros x Hlt. rewrite (Hx x Hlt). destruct (decide (x = y)) as [->|Hne].
  - rewrite decide_False by done. rewrite list_lookup_total_insert_eq by done.
    by rewrite decide_True by (apply elem_of_cons; auto).
  - rewrite list_lookup_total_insert_ne by done. destruct (decide (x ∈ l)).
    + by rewrite decide_True by (apply elem_of_cons; auto).
    + by rewrite decide_False by (rewrite elem_of_cons; tauto).
Qed.

Lemma updates_all (f : Z -> Z) (d : list Z) :
  foldl (fun d x => <[x := f (d !!! x)]> d) d (seq 0 (length d)) = map f d.
Proof.
  destruct (updates_at f (seq 0 (length d)) d (NoDup_seq _ _)) as [Hl Hx].
  apply list_eq_same_length with (n := length d); [by rewrite length_map|done|].
  intros i y z Hi Hy Hz. apply list_lookup_total_correct in Hy. subst y.
  apply list_lookup_fmap_Some in Hz as (v & -> & Hv). rewrite Hx by done.
  rewrite decide_True by (apply elem_of_seq; lia). by rewrite (list_lookup_total_correct _ _ _ Hv).
Qed.

(** Row by row is index by index. *)
Lemma row_major (r c : nat) :
  flat_map (fun i => map (fun j => i * c + j)%nat (seq 0 c)) (seq 0 r) = seq 0 (r * c).
Proof.
  induction r as [|r IH]; [done|]. rewrite seq_S, flat_map_app, IH. cbn [flat_map Nat.add].
  rewrite app_nil_r, Nat.mul_succ_l, seq_app. f_equal.
  etrans; [apply (fmap_add_seq (r * c) 0 c)|]. by rewrite Nat.add_0_r.
Qed.

Lemma foldl_flat_map {A B C : Type} (f : C -> B -> C) (g : A -> list B) (l : list A) (c : C) :
  foldl f c (flat_map g l) = foldl (fun c a => foldl f c (g a)) c l.
Proof. revert c. induction l as [|a l IH]; intros c; cbn; [done|]. by rewrite foldl_app, IH. Qed.

Lemma requantize_map (n : nat) (d : list Z) :
  length d = (n * n)%nat ->
  requantize n (mkMatrix d n n) = mkMatrix (map (fun v => toFixedShift (fromFixed v)) d) n n.
Proof.
  intros Hl. rewrite <- (updates_all (fun v => toFixedShift (fromFixed v)) d), Hl, <- row_major.
  rewrite foldl_flat_map. unfold requantize, for_range. rewrite Nat.sub_0_r. clear Hl.
  revert d. induction (seq 0 n) as [|i l IH] at 2 4; intros d; cbn [foldl]; [done|].
  rewrite <- IH. f_equal. clear IH. revert d.
  induction (seq 0 n) as [|j l' IH]; intros d; cbn [foldl map]; [done|]. apply IH.
Qed.

(** ** Exactness on 8-bit matrices *)
Definition is_int8 (x : Z) : Prop := -128 <= x <= 127.
Definition clamp8 (z : Z) : Z := if 127 <? z then 127 else if z <? -128 then -128 else z.

(** The clamped integer product. *)
Definition int8_product (a b : list Z) (n : nat) : list Z :=
  map (fun x => clamp8 (sumZ (map (fun k => a !!! (x / n * n + k)%nat * b !!! (k * n + x mod n)%nat)
    (seq 0 n)))) (seq 0 (n * n)).

Lemma clamp8_range (z : Z) : is_int8 (clamp8 z).
Proof. unfold clamp8, is_int8. repeat case_match; bool_to_prop; lia. Qed.

Lemma toFixedShift_exact (x : Z) : is_int8 x -> toFixedShift x = 16777216 * x.
Proof.
  intros Hx. unfold toFixedShift, is_int8, FixedPointShift in *. rewrite Z.shiftl_mul_pow2 by done.
  rewrite i64_small; lia.
Qed.

Lemma fixmul_exact (x y : Z) :
  is_int8 x -> is_int8 y -> fixmul (16777216 * x) (16777216 * y) = 16777216 * (x * y).
Proof.
  intros Hx Hy. unfold fixmul, FixedPointShift, FixedPointHalf, is_int8 in *.
  assert (-16384 <= x * y <= 16384) by nia.
  replace (16777216 * x * (16777216 * y)) with (281474976710656 * (x * y)) by ring.
  change (Z.shiftl 1 23) with 8388608. rewrite !i64_small by (rewrite ?i64_small; lia).
  rewrite Z.shiftr_div_pow2 by done. change (2 ^ 24) with 16777216.
  symmetry. apply (Z.div_unique_pos _ _ _ 8388608); lia.
Qed.

Lemma fromFixed_exact (z : Z) :
  -274877906944 <= z <= 274877906944 -> fromFixed (16777216 * z) = clamp8 z.
Proof.
  intros Hz. unfold fromFixed, FixedPointShift, FixedPointHalf. change (Z.shiftl 1 23) with 8388608.
  rewrite i64_small by lia. rewrite Z.shiftr_div_pow2 by done. change (2 ^ 24) with 16777216.
  replace ((16777216 * z + 8388608) / 16777216) with z
    by (apply (Z.div_unique_pos _ _ _ 8388608); lia).
  done.
Qed.

Lemma sum_bound {A : Type} (f : A -> Z) (B : Z) (l : list A) :
  (forall x, x ∈ l -> - B <= f x <= B) ->
  - (B * Z.of_nat (length l)) <= sumZ (map f l) <= B * Z.of_nat (length l).
Proof.
  induction l as [|x l IH]; intros H; unfold sumZ in *; cbn [map foldr length]; [lia|].
  pose proof (H x ltac:(apply elem_of_cons; auto)).
  specialize (IH ltac:(intros y Hy; apply H, elem_of_cons; auto)). lia.
Qed.

Lemma sum_scale {A : Type} (c : Z) (f : A -> Z) (l : list A) :
  sumZ (map (fun x => c * f x) l) = c * sumZ (map f l).
Proof. unfold sumZ. induction l; cbn in *; lia. Qed.

Lemma int8_lookup (l : list Z) (x : nat) : Forall is_int8 l -> is_int8 (l !!! x).
Proof.
  intros H. rewrite list_lookup_total_alt. destruct (l !! x) as [v|] eqn:Hv; [|done].
  by eapply list.Forall_lookup_1.
Qed.

Lemma fixed_lookup (l : list Z) (x : nat) :
  Forall is_int8 l -> (x < length l)%nat -> map toFixedShift l !!! x = 16777216 * (l !!! x).
Proof.
  intros H Hx. etrans; [by apply list_lookup_total_fmap|]. by apply toFixedShift_exact, int8_lookup.
Qed.

(** The arithmetic of the proof of work is exact: on matrices of 8-bit entries, at most 256
    by 256, one round of the hash (the fixed-point product and the rounding to 8 bits) is the
    integer matrix product clamped to 8 bits; no 64-bit operation overflows. *)
Theorem fixed_point_exact (dst a b : list Z) (n : nat) :
  (n <= 256)%nat -> length dst = (n * n)%nat ->
  length a = (n * n)%nat -> length b = (n * n)%nat -> Forall is_int8 a -> Forall is_int8 b ->
  requantize n (mkMatrix (mulMatrixBlocked dst (map toFixedShift a) (map toFixedShift b) n) n n)
  = mkMatrix (map toFixedShift (int8_product a b n)) n n.
Proof.
  intros Hn Hl Hla Hlb Ha Hb. pose proof (mulMatrixBlocked_length dst (map toFixedShift a)
    (map toFixedShift b) n Hl) as Hlen.
  rewrite requantize_map by done. f_equal. unfold int8_product.
  apply (square_ext _ _ n); [by rewrite length_map|by rewrite !length_map, length_seq|].
  intros i j Hi Hj. assert (i * n + j < n * n)%nat by by apply cell_lt.
  etrans; [apply list_lookup_total_fmap; lia|]. symmetry.
  etrans; [apply list_lookup_total_fmap; by rewrite length_map, length_seq|]. f_equal.
  etrans; [apply list_lookup_total_fmap; by rewrite length_seq|].
  rewrite lookup_total_seq_lt by done. cbn [Nat.add]. symmetry.
  destruct (mulMatrixBlocked_cells dst (map toFixedShift a) (map toFixedShift b) n i j Hl Hi Hj)
    as [_ ->].
  rewrite Nat.div_add_l, Nat.div_small, Nat.add_0_r by lia.
  rewrite (Nat.add_comm _ j), Nat.Div0.mod_add, Nat.mod_small by lia.
  set (f := fun k => a !!! (i * n + k)%nat * b !!! (k * n + j)%nat).
  assert (Hf : forall k, -16384 <= f k <= 16384).
  { intros k. unfold f. pose proof (int8_lookup a (i * n + k) Ha). pose proof (int8_lookup b (k * n + j) Hb).
    unfold is_int8 in *. nia. }
  rewrite (sum_ext _ (fun k => 16777216 * f k)).
  - rewrite sum_scale. pose proof (sum_bound f 16384 (seq 0 n) ltac:(auto)) as Hs.
    rewrite length_seq in Hs. rewrite i64_small by lia. apply fromFixed_exact. lia.
  - intros k Hk. apply elem_of_seq in Hk. unfold term.
    rewrite !fixed_lookup by (done || rewrite ?Hla, ?Hlb; apply cell_lt; lia).
    by apply fixmul_exact; apply int8_lookup.
Qed.

(** ** Samples: 2 by 2 matrices, 8-bit entries 1 2 3 4 and 5 6 7 100 *)
Definition sample_a : list Z := [1; 2; 3; 4].
Definition sample_b : list Z := [5; 6; 7; 100].

Lemma blocked_is_plain_witness :
  mulMatrixBlocked [9; 9; 9; 9] (map toFixedShift sample_a) (map toFixedShift sample_b) 2
  = map (fun x => 16777216 * x) [19; 206; 43; 418].
Proof.
  etrans; [apply (blocked_is_plain [9; 9; 9; 9] (map toFixedShift sample_a)
    (map toFixedShift sample_b) 2); reflexivity|]. reflexivity.
Defined.

(** Two workers, the second first. *)
Lemma parallel_is_sequential_witness :
  exists m', Mul [(1, 1); (1, 0); (0, 0); (0, 1)]%nat (mkMatrix [0; 0; 0; 0] 2 2)
    (mkMatrix (map toFixedShift sample_a) 2 2) (mkMatrix (map toFixedShift sample_b) 2 2)
    = Some (Ok m') /\ At m' 0 1 = 16777216 * 206.
Proof.
  destruct (parallel_is_sequential (mkMatrix [0; 0; 0; 0] 2 2) (mkMatrix (map toFixedShift sample_a) 2 2)
    (mkMatrix (map toFixedShift sample_b) 2 2) 2 [(1, 1); (1, 0); (0, 0); (0, 1)]%nat)
    as (m' & E & _ & _ & H); [reflexivity..|cbn; lia|reflexivity| |].
  - cbn. rewrite (Permutation_app_comm [(1, 1); (1, 0)]%nat [(0, 0); (0, 1)]%nat : [_; _; _; _] ≡ₚ _).
    cbn. do 2 constructor. apply Permutation_swap.
  - exists m'. split; [exact E|]. rewrite (H 0%nat 1%nat) by (cbn; lia). reflexivity.
Defined.

(** The cell at the lower right is clamped. *)
Lemma fixed_point_exact_witness :
  requantize 2 (mkMatrix (mulMatrixBlocked [9; 9; 9; 9] (map toFixedShift sample_a)
    (map toFixedShift sample_b) 2) 2 2) = mkMatrix (map toFixedShift [19; 127; 43; 127]) 2 2.
Proof.
  etrans; [apply (fixed_point_exact [9; 9; 9; 9] sample_a sample_b 2)|reflexivity].
  1: lia. 1-3: reflexivity. all: repeat constructor; unfold is_int8; lia.
Defined.
