(* ===== verification/PowHash.v ===== *)
(** * The proof-of-work hash

    [blockchain/nogopow/ai_hash.go] and the hash functions of [nogopow/matrix.go]: the seed is
    stretched to 4 Mi words by a scrypt-like mix, the words are read as 256 matrices of 8-bit
    entries, four chains of 64 products are selected by the header hash, and their sum is
    folded to 32 bytes.  Keccak-256 comes from [golang.org/x/crypto] and is an argument.

    The theorems: both implementations of the matrix stage, the one with fresh matrices and
    the one with matrices from a pool, whatever was left in them, compute the same bytes, and
    these are the clamped integer products of 8-bit matrices. *)

From S2P Require Import Prelude Bytes Sha256 Float Matrix.
From stdpp Require Import base sets list strings numbers.
From Stdlib Require Import ZArith Lia.

Open Scope Z_scope.

(** ** Words and bytes *)
Definition matSize : nat := 256.
Definition matNum : nat := 256.

(** [binary.LittleEndian.Uint32(b[i:])] *)
Definition word_at (b : list Z) (i : nat) : Z := le_val (take 4 (drop i b)).
(** [copy(dst[at:], src)] *)
Definition copy_at (at_ : nat) (src dst : list Z) : list Z :=
  take at_ dst ++ take (length dst - at_) src ++ drop (at_ + length src) dst.
(** [binary.LittleEndian.PutUint32(b[i:], v)] *)
Definition put_word (i : nat) (v : Z) (b : list Z) : list Z := copy_at i (le_bytes 4 v) b.
(** [s[lo:hi]] *)
Definition slice {A : Type} (lo hi : nat) (l : list A) : list A := take (hi - lo) (drop lo l).

Definition rotl (a b : Z) : Z := Z.lor (u32 (Z.shiftl a b)) (Z.shiftr a (32 - b)).

(** ** The mix of the seed *)

(** [y[t] ^= rotl(y[a]+y[b], s)] *)
Definition salsa_step (y : list Z) (q : nat * nat * nat * nat) : list Z :=
  let '(t, a, b, s) := q in
  <[t := Z.lxor (y !!! t) (rotl (u32 (y !!! a + y !!! b)) (Z.of_nat s))]> y.

(** The statements of the loop body of [salsa20_8], in order. *)
Definition salsa_round : list (nat * nat * nat * nat) :=
  [ (12, 8, 4, 7); (0, 12, 8, 9); (4, 0, 12, 13); (8, 4, 0, 18);
    (13, 9, 5, 7); (1, 13, 9, 9); (5, 1, 13, 13); (9, 5, 1, 18);
    (14, 10, 6, 7); (2, 14, 10, 9); (6, 2, 14, 13); (10, 6, 2, 18);
    (15, 11, 7, 7); (3, 15, 11, 9); (7, 3, 15, 13); (11, 7, 3, 18);
    (1, 0, 3, 7); (2, 1, 0, 9); (3, 2, 1, 13); (0, 3, 2, 18);
    (6, 5, 4, 7); (7, 6, 5, 9); (4, 7, 6, 13); (5, 4, 7, 18);
    (11, 10, 9, 7); (8, 11, 10, 9); (9, 8, 11, 13); (10, 9, 8, 18);
    (12, 15, 14, 7); (13, 12, 15, 9); (14, 13, 12, 13); (15, 14, 13, 18) ]%nat.

Definition salsa20_8 (x : list Z) : list Z :=
  let y := for_range 0 4 (fun _ y => foldl salsa_step y salsa_round) x in
  for_range 0 (length x) (fun i x => <[i := u32 (x !!! i + y !!! i)]> x) x.

Definition blockMix (x : list Z) (r : nat) : list Z :=
  let size := 16%nat in
  let y := take size (drop ((2 * r - 1) * size) x) in
  (for_range 0 (2 * r) (fun i '(y, result) =>
    let t := map (fun j => Z.lxor (x !!! (i * size + j)%nat) (y !!! j)) (seq 0 size) in
    let y := salsa20_8 t in
    (y, for_range 0 size (fun j result =>
          <[((i mod 2) * r * size + (i / 2) * size + j)%nat := y !!! j]> result) result))
    (y, replicate (2 * r * size) 0)).2.

(** [Smix] reads and writes the block [b] and the table [v]; [r] is 1 and [N] is 1024. *)
Definition Smix_N : nat := 1024.
Definition Smix (b v : list Z) : list Z * list Z :=
  let r := 1%nat in
  let w := (16 * 2 * r)%nat in
  let x := map (fun i => word_at b (i * 4)) (seq 0 w) in
  let '(x, v) := for_range 0 Smix_N (fun i '(x, v) => (blockMix x r, copy_at (i * w) x v)) (x, v) in
  let x := for_range 0 Smix_N (fun _ x =>
    let j := Z.to_nat (x !!! (16 * (2 * r - 1))%nat mod Z.of_nat Smix_N) in
    let x := for_range 0 w (fun k x => <[k := Z.lxor (x !!! k) (v !!! (j * w + k)%nat)]> x) x in
    blockMix x r) x in
  (for_range 0 w (fun i b => put_word (i * 4) (x !!! i) b) b, v).

(** [isLittleEndian] looks at what [PutUint32] of the big-endian order wrote. *)
Definition isLittleEndian : bool := (rev (le_bytes 4 16909060)) !!! 3%nat =? 4.

Definition swap (buffer : list Z) : list Z :=
  for_range 0 (length buffer / 4) (fun n b =>
    put_word (n * 4) (le_val (rev (take 4 (drop (n * 4) b)))) b) buffer.

Definition safeBytesToUint32 (b : list Z) (offset : Z) : Z :=
  if (offset <? 0) || (len b <? offset + 4) then 0 else word_at b (Z.to_nat offset).
Definition safeUint32ToBytes (val : Z) (dst : list Z) (offset : Z) : list Z :=
  if (offset <? 0) || (len dst <? offset + 4) then dst else put_word (Z.to_nat offset) val dst.

Section hash.
(** [sha3.NewLegacyKeccak256] *)
Variable keccak256 : list Z -> list Z.

Definition extendBytes (seed : list Z) (round : nat) : list Z :=
  for_range 0 round (fun i ext =>
    let start := (i * 32)%nat in
    let h := copy_into 32 (keccak256 (slice start (start + 32) ext)) in
    copy_at ((i + 1) * 32) h ext)
    (copy_at 0 seed (replicate (length seed * (round + 1)) 0)).

Definition calcSeedCache (seed : list Z) : list Z :=
  let extSeed := extendBytes seed 3 in
  let v := replicate (32 * 1024) 0 in
  let extSeed := if negb isLittleEndian then swap extSeed else extSeed in
  (for_range 0 128 (fun _ '(ext, v, cache) =>
    let '(ext, v) := Smix ext v in (ext, v, cache ++ v)) (extSeed, v, [])).2.
Definition CalcSeedCache (seed : list Z) : list Z := calcSeedCache seed.

(** ** The matrix stage *)

(** The words of each group of 32 Ki are dealt to two halves. *)
Definition deal (cache : list Z) : list Z :=
  for_range 0 128 (fun i ui32 =>
    let start := (i * 1024 * 32)%nat in
    for_range 0 512 (fun j ui32 =>
      let lo := (start + j * 64)%nat in
      let ui32 := copy_at (start + j * 32) (slice lo (lo + 32) cache) ui32 in
      copy_at (start + 512 * 32 + j * 32) (slice (lo + 32) (lo + 64) cache) ui32) ui32)
    (replicate (matNum * matSize * matSize / 4) 0).

(** [int8(b)] *)
Definition int8 (b : Z) : Z := if b <? 128 then b else b - 256.

Definition fixed_data (cache : list Z) : list Z :=
  map (fun b => toFixed (f64_of_Z (int8 b))) (flat_map (le_bytes 4) (deal cache)).

Definition data_identity : list Z :=
  for_range 0 matSize (fun i d => <[(i * 257)%nat := FixedPointFactor]> d)
    (replicate (matSize * matSize) 0).

(** The matrices a key selects. *)
Definition sequence (hashBytes : list Z) (i : nat) : list Z :=
  copy_into 32 (keccak256 (slice (i * 8) ((i + 1) * 8) hashBytes)).
Definition matrix_slice (fixedData : list Z) (index : nat) : list Z :=
  slice (index * matSize * matSize) ((index + 1) * matSize * matSize) fixedData.

(** One product of a chain: the two matrices change places. *)
Definition chain_step (fixedData : list Z) (s : Z) (ab : denseMatrix * denseMatrix)
    : denseMatrix * denseMatrix :=
  let '(localMatA, localMatB) := ab in
  let mb := newDenseMatrix matSize matSize (Some (matrix_slice fixedData (Z.to_nat s))) in
  let localMatB := mkMatrix (mulMatrixBlocked (data localMatB) (data localMatA) (data mb) matSize)
    (rows localMatB) (cols localMatB) in
  let localMatB := requantize matSize localMatB in
  (localMatB, localMatA).

(** The body of a goroutine, on the two matrices it starts with. *)
Definition chain_run (fixedData hashBytes : list Z) (i : nat) (ab : denseMatrix * denseMatrix)
    : denseMatrix :=
  let '(a, b) := ab in
  let a := mkMatrix (copy_at 0 data_identity (data a)) (rows a) (cols a) in
  let seq_ := sequence hashBytes i in
  (for_range 0 2 (fun _ ab =>
    for_range 0 32 (fun k ab => chain_step fixedData (seq_ !!! k) ab) ab) (a, b)).1.

(** The four results are added and rounded, row by row. *)
Definition sum_chains (ms : list denseMatrix) : list Z :=
  let tmp := foldl (fun tmp m =>
      map (fun x => i64 (tmp !!! x + At m (x / matSize) (x mod matSize))) (seq 0 (matSize * matSize)))
    (replicate (matSize * matSize) 0) ms in
  map (fun v => u8 (fromFixed v)) tmp.

(** [mulMatrixPooled]: fresh matrices. *)
Definition mulMatrixPooled (hashBytes cache : list Z) : list Z :=
  let fixedData := fixed_data cache in
  sum_chains (map (fun i => chain_run fixedData hashBytes i
    (newDenseMatrix matSize matSize None, newDenseMatrix matSize matSize None)) (seq 0 4)).

(** [mulMatrix]: each goroutine takes its two matrices from the pool, as [pool] says, and
    [GetMatrix] resets them. *)
Definition GetMatrix (pooled : denseMatrix) (r c : nat) : denseMatrix := Reset r c pooled.
Definition mulMatrix (pool : nat -> denseMatrix * denseMatrix) (headerHash cache : list Z) : list Z :=
  let fixedData := fixed_data cache in
  sum_chains (map (fun i => chain_run fixedData headerHash i
    (GetMatrix (pool i).1 matSize matSize, GetMatrix (pool i).2 matSize matSize)) (seq 0 4)).

(** ** The final hash *)
Definition fnv (a b : Z) : Z := Z.lxor (u32 (a * 16777619)) b.

(** [for k := matSize; k > 1; k = k / 2] *)
Fixpoint halvings (fuel k : nat) : list nat :=
  match fuel with
  | O => []
  | S fuel' => if (1 <? k)%nat then k :: halvings fuel' (k / 2) else []
  end.

Definition hashMatrix (result : list Z) : list Z :=
  let q := (matSize / 4)%nat in
  let mat8 i j := result !!! (i * matSize + j)%nat in
  let word i j :=
    Z.lor (Z.lor (Z.lor (u32 (Z.shiftl (mat8 i (j + 192)%nat) 24)) (Z.shiftl (mat8 i (j + 128)%nat) 16))
      (Z.shiftl (mat8 i (j + 64)%nat) 8)) (mat8 i j) in
  let mat32 := flat_map (fun i => map (word i) (seq 0 q)) (seq 0 matSize) in
  let mat32 := foldl (fun m k =>
      for_range 0 (k / 2) (fun j m =>
        for_range 0 q (fun i m =>
          <[(j * q + i)%nat := fnv (m !!! (j * q + i)%nat) (m !!! ((j + k / 2) * q + i)%nat)]> m) m) m)
    mat32 (halvings matSize matSize) in
  copy_into 32 (keccak256 (flat_map (le_bytes 4) (take q mat32))).

Definition legacyAlgorithm (pool : nat -> denseMatrix * denseMatrix) (headerHash seed : list Z) : list Z :=
  hashMatrix (mulMatrix pool headerHash (calcSeedCache seed)).

(** ** The same in integers *)
Definition identity8 : list Z :=
  map (fun x => if (x / matSize =? x mod matSize)%nat then 1 else 0) (seq 0 (matSize * matSize)).

(** The matrices as 8-bit numbers. *)
Definition int8_data (cache : list Z) : list Z := map int8 (flat_map (le_bytes 4) (deal cache)).

Definition int8_chain (bytes hashBytes : list Z) (i : nat) : list Z :=
  foldl (fun a k => int8_product a (matrix_slice bytes (Z.to_nat (sequence hashBytes i !!! k))) matSize)
    identity8 (seq 0 32 ++ seq 0 32).

Definition pow_matrix (hashBytes cache : list Z) : list Z :=
  let chains := map (int8_chain (int8_data cache) hashBytes) (seq 0 4) in
  map (fun x => u8 (clamp8 (sumZ (map (fun c => c !!! x) chains)))) (seq 0 (matSize * matSize)).
End hash.

Lemma matSize_eq : matSize = 256%nat.
Proof. done. Qed.
Lemma matNum_eq : matNum = 256%nat.
Proof. done. Qed.
#[global] Opaque matSize matNum.

(** *** Lists *)
Lemma map_slice {A B : Type} (f : A -> B) (lo hi : nat) (l : list A) :
  slice lo hi (map f l) = map f (slice lo hi l).
Proof. unfold slice. by rewrite skipn_map, firstn_map. Qed.

Lemma length_slice {A : Type} (lo hi : nat) (l : list A) :
  (hi <= length l)%nat -> length (slice lo hi l) = (hi - lo)%nat.
Proof. intros H. unfold slice. rewrite length_take, length_drop. lia. Qed.

Lemma Forall_slice {A : Type} (P : A -> Prop) (lo hi : nat) (l : list A) :
  Forall P l -> Forall P (slice lo hi l).
Proof. intros H. unfold slice. by apply Forall_take, Forall_drop. Qed.

Lemma length_copy_at (n : nat) (src dst : list Z) :
  (n <= length dst)%nat -> length (copy_at n src dst) = length dst.
Proof. intros H. unfold copy_at. rewrite !length_app, !length_take, length_drop. lia. Qed.

Lemma lookup_map {A B : Type} `{Inhabited A} `{Inhabited B} (f : A -> B) (l : list A) (x : nat) :
  (x < length l)%nat -> map f l !!! x = f (l !!! x).
Proof. apply list_lookup_total_fmap. Qed.

Lemma lookup_map_seq {B : Type} `{Inhabited B} (f : nat -> B) (n x : nat) :
  (x < n)%nat -> map f (seq 0 n) !!! x = f x.
Proof. intros Hx. rewrite lookup_map by by rewrite length_seq. by rewrite lookup_total_seq_lt. Qed.

Lemma for_range_inv {A : Type} (I : A -> Prop) (lo hi : nat) (f : nat -> A -> A) (x : A) :
  (forall i x, (lo <= i < hi)%nat -> I x -> I (f i x)) -> I x -> I (for_range lo hi f x).
Proof.
  unfold for_range. intros Hf. assert (Hl : Forall (fun i => (lo <= i < hi)%nat) (seq lo (hi - lo))).
  { apply list.Forall_forall. intros i Hi. apply elem_of_seq in Hi. lia. }
  revert x. induction Hl as [|i l Hi _ IH]; intros x Hx; cbn; auto.
Qed.

Lemma copy_at_all (src dst : list Z) : length src = length dst -> copy_at 0 src dst = src.
Proof.
  intros H. unfold copy_at. rewrite Nat.sub_0_r, <- H. cbn [take app Nat.add].
  by rewrite firstn_all, skipn_all2, app_nil_r by lia.
Qed.

(** The conversion through [float64] is exact on the 256 bytes. *)
Lemma toFixed_int8 (b : Z) : is_byte b -> toFixed (f64_of_Z (int8 b)) = toFixedShift (int8 b).
Proof.
  assert (H : forallb (fun b => toFixed (f64_of_Z (int8 b)) =? toFixedShift (int8 b))
    (map Z.of_nat (seq 0 256)) = true) by (vm_compute; reflexivity).
  intros Hb. rewrite forallb_forall in H. apply Z.eqb_eq, H, in_map_iff.
  exists (Z.to_nat b). unfold is_byte in Hb. rewrite in_seq. lia.
Qed.

Lemma int8_range (b : Z) : is_byte b -> is_int8 (int8 b).
Proof. unfold is_byte, is_int8, int8. intros H. case_match; bool_to_prop; lia. Qed.

(** The statement is for any size: the kernel never unfolds 256 * 256. *)
Lemma diagonal_exact (n : nat) :
  for_range 0 n (fun i d => <[(i * S n)%nat := FixedPointFactor]> d) (replicate (n * n) 0)
  = map toFixedShift (map (fun x => if (x / n =? x mod n)%nat then 1 else 0) (seq 0 (n * n))).
Proof.
  unfold for_range. rewrite Nat.sub_0_r.
  destruct (writes_at (fun i => i * S n)%nat (fun _ => FixedPointFactor) (seq 0 n)
    (replicate (n * n) 0)) as [Hl Hx]. rewrite length_replicate in *. cbv beta in *.
  apply (square_ext _ _ n); [done|by rewrite !length_map, length_seq|].
  intros i j Hi Hj. assert (Hij := cell_lt n i j Hi Hj). rewrite Hx by done.
  rewrite lookup_map, lookup_map_seq by (rewrite ?length_map, ?length_seq; done).
  rewrite lookup_total_replicate_2 by done.
  rewrite Nat.div_add_l, Nat.div_small, Nat.add_0_r by lia.
  rewrite (Nat.add_comm _ j), Nat.Div0.mod_add, Nat.mod_small by lia.
  destruct (Nat.eqb_spec i j) as [->|Hne].
  - rewrite decide_True; [done|]. apply list_elem_of_fmap. exists j. rewrite elem_of_seq. lia.
  - rewrite decide_False; [done|]. intros H. apply list_elem_of_fmap in H as (k & Hk & Hks).
    apply elem_of_seq in Hks. assert (i = k) by nia. lia.
Qed.

Lemma identity_exact : data_identity = map toFixedShift identity8.
Proof. exact (diagonal_exact matSize). Qed.

Lemma identity8_ok : Forall is_int8 identity8 /\ length identity8 = (matSize * matSize)%nat.
Proof.
  unfold identity8. rewrite length_map, length_seq. split; [|done].
  apply Forall_map, list.Forall_forall. intros x _. unfold is_int8. case_match; lia.
Qed.

Lemma int8_product_ok (a b : list Z) (n : nat) :
  Forall is_int8 (int8_product a b n) /\ length (int8_product a b n) = (n * n)%nat.
Proof.
  unfold int8_product. rewrite length_map, length_seq. split; [|done].
  apply Forall_map, list.Forall_forall. intros x _. apply clamp8_range.
Qed.

Lemma deal_length (cache : list Z) : length (deal cache) = (64 * matSize * matSize)%nat.
Proof.
  unfold deal. rewrite matNum_eq.
  replace (256 * matSize * matSize / 4)%nat with (64 * matSize * matSize)%nat.
  2:{ replace (256 * matSize * matSize)%nat with (64 * matSize * matSize * 4)%nat by lia.
      by rewrite Nat.div_mul. }
  apply (for_range_inv (fun d => length d = (64 * matSize * matSize)%nat));
    [intros i d Hi Hd|apply length_replicate].
  apply (for_range_inv (fun d => length d = (64 * matSize * matSize)%nat)); [|done].
  clear d Hd. intros j d Hj Hd. rewrite matSize_eq in *.
  rewrite !length_copy_at; rewrite ?length_copy_at, ?Hd; lia.
Qed.

Lemma int8_data_ok (cache : list Z) :
  Forall is_int8 (int8_data cache) /\ length (int8_data cache) = (matNum * matSize * matSize)%nat.
Proof.
  unfold int8_data. rewrite length_map. split.
  - apply Forall_map, List.Forall_flat_map, list.Forall_forall. intros w _.
    eapply List.Forall_impl; [apply int8_range|apply le_bytes_range].
  - assert (H : forall l, length (flat_map (le_bytes 4) l) = (4 * length l)%nat).
    { induction l as [|w l IH]; [done|]. cbn [flat_map]. rewrite length_app, le_bytes_length, IH.
      cbn [length]. lia. }
    rewrite H, deal_length, matNum_eq. lia.
Qed.

Lemma fixed_data_exact (cache : list Z) : fixed_data cache = map toFixedShift (int8_data cache).
Proof.
  unfold fixed_data, int8_data. rewrite map_map. apply map_ext_Forall.
  apply List.Forall_flat_map, list.Forall_forall. intros w _.
  eapply List.Forall_impl; [apply toFixed_int8|apply le_bytes_range].
Qed.

Lemma matrix_slice_ok (bytes : list Z) (s : Z) :
  Forall is_int8 bytes -> length bytes = (matNum * matSize * matSize)%nat -> is_byte s ->
  Forall is_int8 (matrix_slice bytes (Z.to_nat s)) /\
  length (matrix_slice bytes (Z.to_nat s)) = (matSize * matSize)%nat.
Proof.
  intros Hb Hl Hs. unfold matrix_slice. split; [by apply Forall_slice|].
  unfold is_byte in Hs. rewrite length_slice; [lia|]. rewrite Hl, matNum_eq.
  apply Nat.mul_le_mono_r, Nat.mul_le_mono_r. lia.
Qed.

(** The matrices a chain works on. *)
Definition square (m : denseMatrix) : Prop :=
  rows m = matSize /\ cols m = matSize /\ length (data m) = (matSize * matSize)%nat.
Definition fixed8 (a : list Z) : denseMatrix := mkMatrix (map toFixedShift a) matSize matSize.

Lemma fixed8_square (a : list Z) : length a = (matSize * matSize)%nat -> square (fixed8 a).
Proof.
  intros H. split_and!; [reflexivity..|]. unfold fixed8. cbn [data]. rewrite length_map. exact H.
Qed.

Lemma chain_step_exact (bytes a : list Z) (s : Z) (m : denseMatrix) :
  Forall is_int8 bytes -> length bytes = (matNum * matSize * matSize)%nat -> is_byte s ->
  Forall is_int8 a -> length a = (matSize * matSize)%nat -> square m ->
  chain_step (map toFixedShift bytes) s (fixed8 a, m)
  = (fixed8 (int8_product a (matrix_slice bytes (Z.to_nat s)) matSize), fixed8 a).
Proof.
  intros Hb Hlb Hs Ha Hla (Hr & Hc & Hlm). destruct (matrix_slice_ok bytes s Hb Hlb Hs) as [Hm Hlm'].
  unfold chain_step, fixed8. cbn [data rows cols newDenseMatrix default].
  unfold matrix_slice at 1. rewrite map_slice. fold (matrix_slice bytes (Z.to_nat s)). rewrite Hr, Hc.
  unfold newDenseMatrix, default, from_option, id. cbn [data].
  rewrite fixed_point_exact; [reflexivity|by rewrite matSize_eq|assumption..].
Qed.

Section keccak.
Variable keccak256 : list Z -> list Z.
(** Keccak returns bytes. *)
Hypothesis keccak_bytes : forall x, Forall is_byte (keccak256 x).

Lemma sequence_byte (h : list Z) (i k : nat) : is_byte (sequence keccak256 h i !!! k).
Proof.
  unfold sequence, copy_into.
  assert (H : Forall is_byte (take 32 (keccak256 (slice (i * 8) ((i + 1) * 8) h))
    ++ replicate (32 - length (keccak256 (slice (i * 8) ((i + 1) * 8) h))) 0)).
  { apply Forall_app. split; [by apply Forall_take|by apply Forall_replicate]. }
  rewrite list_lookup_total_alt.
  destruct (_ !! k) as [v|] eqn:Hv; [by eapply list.Forall_lookup_1|done].
Qed.

Lemma chain_steps_exact (bytes : list Z) (f : nat -> Z) (ks : list nat) (a : list Z) (m : denseMatrix) :
  Forall is_int8 bytes -> length bytes = (matNum * matSize * matSize)%nat ->
  (forall k, is_byte (f k)) -> Forall is_int8 a -> length a = (matSize * matSize)%nat -> square m ->
  exists m', square m' /\
    foldl (fun ab k => chain_step (map toFixedShift bytes) (f k) ab) (fixed8 a, m) ks
    = (fixed8 (foldl (fun a k => int8_product a (matrix_slice bytes (Z.to_nat (f k))) matSize) a ks), m').
Proof.
  intros Hb Hlb Hf. revert a m. induction ks as [|k ks IH]; intros a m Ha Hla Hm; cbn [foldl].
  { by exists m. }
  rewrite chain_step_exact by auto.
  destruct (int8_product_ok a (matrix_slice bytes (Z.to_nat (f k))) matSize) as [Hp Hlp].
  apply IH; [exact Hp|exact Hlp|by apply fixed8_square].
Qed.

Lemma chain_run_exact (bytes h : list Z) (i : nat) (m1 m2 : denseMatrix) :
  Forall is_int8 bytes -> length bytes = (matNum * matSize * matSize)%nat -> square m1 -> square m2 ->
  chain_run keccak256 (map toFixedShift bytes) h i (m1, m2)
  = fixed8 (int8_chain keccak256 bytes h i).
Proof.
  intros Hb Hlb (Hr & Hc & Hl) Hm2. destruct identity8_ok as [Hi Hli].
  unfold chain_run. rewrite identity_exact.
  rewrite copy_at_all by (rewrite length_map; congruence). rewrite Hr, Hc. fold (fixed8 identity8).
  set (f := fun k => sequence keccak256 h i !!! k).
  assert (Hf : forall k, is_byte (f k)) by (intros; apply sequence_byte).
  destruct (chain_steps_exact bytes f (seq 0 32 ++ seq 0 32) identity8 m2 Hb Hlb Hf Hi Hli Hm2)
    as (m' & _ & E).
  rewrite foldl_app in E. unfold int8_chain. fold f. unfold for_range at 1. cbn [seq foldl Nat.sub].
  unfold for_range. etrans; [|exact (f_equal fst E)]. done.
Qed.
End keccak.

(** ** The sum of the chains *)
Lemma fixed8_at (c : list Z) (x : nat) :
  Forall is_int8 c -> length c = (matSize * matSize)%nat -> (x < matSize * matSize)%nat ->
  At (fixed8 c) (x / matSize) (x mod matSize) = 16777216 * (c !!! x).
Proof.
  intros Hc Hl Hx. unfold At, fixed8. cbn [data cols].
  rewrite (Nat.mul_comm (x / matSize)), <- Nat.div_mod by (rewrite matSize_eq; discriminate).
  apply fixed_lookup; [exact Hc|]. rewrite Hl. exact Hx.
Qed.

Lemma add_chains (cs : list (list Z)) (s : nat -> Z) (B : Z) :
  Forall (fun c => Forall is_int8 c /\ length c = (matSize * matSize)%nat) cs ->
  (forall x, - B <= s x <= B) -> B + 128 * Z.of_nat (length cs) <= 1000000 ->
  foldl (fun tmp m => map (fun x => i64 (tmp !!! x + At m (x / matSize) (x mod matSize)))
      (seq 0 (matSize * matSize)))
    (map (fun x => 16777216 * s x) (seq 0 (matSize * matSize))) (map fixed8 cs)
  = map (fun x => 16777216 * (s x + sumZ (map (fun c => c !!! x) cs))) (seq 0 (matSize * matSize)).
Proof.
  intros Hcs. revert s B. induction Hcs as [|c cs [Hc Hl] _ IH]; intros s B Hs HB.
  { cbn. apply map_ext. intros x. unfold sumZ. cbn. by rewrite Z.add_0_r. }
  cbn [map foldl]. cbn [length] in HB.
  transitivity (foldl (fun tmp m => map (fun x => i64 (tmp !!! x + At m (x / matSize) (x mod matSize)))
      (seq 0 (matSize * matSize)))
    (map (fun x => 16777216 * (s x + c !!! x)) (seq 0 (matSize * matSize))) (map fixed8 cs)).
  - apply (f_equal (fun t => foldl _ t (map fixed8 cs))). apply map_ext_in. intros x Hx%in_seq. cbv beta. rewrite lookup_map_seq by apply Hx.
    rewrite fixed8_at; [|exact Hc|exact Hl|apply Hx]. pose proof (int8_lookup c x Hc) as Hcx.
    specialize (Hs x). unfold is_int8 in Hcx. rewrite i64_small; lia.
  - rewrite (IH _ (B + 128)); [|intros x; specialize (Hs x); pose proof (int8_lookup c x Hc) as Hcx;
      unfold is_int8 in Hcx; lia|lia].
    apply map_ext. intros x. unfold sumZ. cbn [map foldr]. lia.
Qed.

Lemma sum_chains_exact (cs : list (list Z)) :
  Forall (fun c => Forall is_int8 c /\ length c = (matSize * matSize)%nat) cs ->
  (length cs <= 1000)%nat ->
  sum_chains (map fixed8 cs)
  = map (fun x => u8 (clamp8 (sumZ (map (fun c => c !!! x) cs)))) (seq 0 (matSize * matSize)).
Proof.
  intros Hcs Hn. unfold sum_chains.
  assert (Hz : forall n, replicate n 0 = map (fun x => 16777216 * (fun _ : nat => 0) x) (seq 0 n)).
  { intros n. generalize 0%nat as o. induction n as [|n IH]; intros o; [done|]. cbn. by f_equal. }
  rewrite Hz, (add_chains cs _ 0) by (done || lia). rewrite map_map. apply map_ext. intros x.
  rewrite Z.add_0_l, fromFixed_exact; [done|].
  pose proof (sum_bound (fun c : list Z => c !!! x) 128 cs) as Hs. rewrite list.Forall_forall in Hcs.
  assert (forall c, c ∈ cs -> -128 <= c !!! x <= 128).
  { intros c Hc. destruct (Hcs c Hc) as [H8 _]. pose proof (int8_lookup c x H8). unfold is_int8 in *. lia. }
  specialize (Hs ltac:(assumption)). lia.
Qed.

Section theorems.
Variable keccak256 : list Z -> list Z.
Hypothesis keccak_bytes : forall x, Forall is_byte (keccak256 x).

Lemma int8_chain_ok (bytes h : list Z) (i : nat) :
  Forall is_int8 (int8_chain keccak256 bytes h i) /\
  length (int8_chain keccak256 bytes h i) = (matSize * matSize)%nat.
Proof.
  unfold int8_chain. generalize (seq 0 32 ++ seq 0 32) as ks. intros ks.
  induction ks as [|k ks _] using rev_ind; [apply identity8_ok|].
  rewrite foldl_snoc. apply int8_product_ok.
Qed.

(** Any four pairs of square matrices give the chains of integers. *)
Lemma chains_exact (pairs : nat -> denseMatrix * denseMatrix) (h cache : list Z) :
  (forall i, square (pairs i).1 /\ square (pairs i).2) ->
  sum_chains (map (fun i => chain_run keccak256 (fixed_data cache) h i (pairs i)) (seq 0 4))
  = pow_matrix keccak256 h cache.
Proof.
  intros Hp. destruct (int8_data_ok cache) as [Hb Hlb]. rewrite fixed_data_exact.
  unfold pow_matrix. rewrite <- sum_chains_exact.
  - rewrite map_map. apply (f_equal sum_chains). apply map_ext. intros i. destruct (Hp i) as [H1 H2].
    rewrite (surjective_pairing (pairs i)). by apply chain_run_exact.
  - apply Forall_map, list.Forall_forall. intros i _. apply int8_chain_ok.
  - rewrite length_map, length_seq. lia.
Qed.

Lemma identity_square : square (newDenseMatrix matSize matSize None).
Proof.
  split_and!; [reflexivity..|]. unfold newDenseMatrix. cbn [data default]. unfold identity_data.
  apply (for_range_inv (fun d => length d = (matSize * matSize)%nat)).
  - intros i d _ Hd. rewrite length_insert. exact Hd.
  - apply length_replicate.
Qed.

Lemma Reset_square (m : denseMatrix) : square m -> square (Reset matSize matSize m).
Proof.
  intros (Hr & Hc & Hl). unfold Reset. rewrite Hr, Hc, Nat.ltb_irrefl. cbn [orb].
  split_and!; [reflexivity..|]. cbn [data]. unfold clear_prefix.
  rewrite length_app, length_replicate, length_drop, Hl. lia.
Qed.

(** The matrix stage of the proof of work computes, on every input, the bytes of four
    chains of 64 clamped products of 8-bit integer matrices, summed and clamped: the
    fixed-point and [float64] arithmetic loses nothing. *)
Theorem pow_matrix_exact (hashBytes cache : list Z) :
  mulMatrixPooled keccak256 hashBytes cache = pow_matrix keccak256 hashBytes cache.
Proof.
  unfold mulMatrixPooled.
  exact (chains_exact (fun _ => (newDenseMatrix matSize matSize None, newDenseMatrix matSize matSize None))
    hashBytes cache (fun _ => conj identity_square identity_square)).
Qed.

(** Matrices from the pool change nothing: whatever earlier hashes left in them, the pooled
    implementation of the legacy algorithm computes the hash of the one with fresh matrices. *)
Theorem legacy_agrees (pool : nat -> denseMatrix * denseMatrix) (headerHash seed : list Z) :
  (forall i, square (pool i).1 /\ square (pool i).2) ->
  legacyAlgorithm keccak256 pool headerHash seed
  = hashMatrix keccak256 (mulMatrixPooled keccak256 headerHash (calcSeedCache keccak256 seed)).
Proof.
  intros Hp. unfold legacyAlgorithm. apply (f_equal (hashMatrix keccak256)). unfold mulMatrix, mulMatrixPooled, GetMatrix.
  rewrite (chains_exact (fun _ => (newDenseMatrix matSize matSize None, newDenseMatrix matSize matSize None)))
    by (intros; split; apply identity_square).
  apply (chains_exact (fun i => (Reset matSize matSize (pool i).1, Reset matSize matSize (pool i).2))).
  intros i. destruct (Hp i). split; by apply Reset_square.
Qed.
End theorems.

(** With SHA-256 in the place of Keccak-256: the hash of a header hash and a seed of zeros. *)
Lemma pow_matrix_exact_witness :
  mulMatrixPooled sha256 (replicate 32 0) (calcSeedCache sha256 (replicate 32 0))
  = pow_matrix sha256 (replicate 32 0) (calcSeedCache sha256 (replicate 32 0)).
Proof. exact (pow_matrix_exact sha256 sha256_range _ _). Defined.

Lemma legacy_agrees_witness :
  legacyAlgorithm sha256 (fun _ => (fixed8 identity8, fixed8 identity8)) (replicate 32 0) (replicate 32 0)
  = hashMatrix sha256 (mulMatrixPooled sha256 (replicate 32 0) (calcSeedCache sha256 (replicate 32 0))).
Proof.
  apply (legacy_agrees sha256 sha256_range). intros _. cbn [fst snd].
  split; apply fixed8_square; exact (proj2 identity8_ok).
Defined.

(** ** Two notes on the mix *)

(** [isLittleEndian] never asks the machine: [swap] is not called on any platform. *)
Lemma always_little_endian : isLittleEndian = true.
Proof. reflexivity. Qed.

(** The columns of the Salsa20 core, as its specification gives them. *)
Definition salsa20_column_round : list (nat * nat * nat * nat) :=
  [ (4, 0, 12, 7); (8, 4, 0, 9); (12, 8, 4, 13); (0, 12, 8, 18);
    (9, 5, 1, 7); (13, 9, 5, 9); (1, 13, 9, 13); (5, 1, 13, 18);
    (14, 10, 6, 7); (2, 14, 10, 9); (6, 2, 14, 13); (10, 6, 2, 18);
    (3, 15, 11, 7); (7, 3, 15, 9); (11, 7, 3, 13); (15, 11, 7, 18) ]%nat.

(** The mix is not Salsa20: it starts three of the four columns at another word, and one
    round already differs. *)
Lemma not_salsa20 :
  let x := 1 :: replicate 15 0 in
  foldl salsa_step x (take 16 salsa_round) <> foldl salsa_step x salsa20_column_round.
Proof. intros x H. vm_compute in H. discriminate H. Qed.
