(* ===== verification/PowCache.v ===== *)
(** * The cache of the proof-of-work engine

    [blockchain/nogopow/cache.go]: [Cache] keeps the 16 MB tables of recent seeds in
    [simpleLRU], a hash map into a doubly linked list.  The list is modelled with its pointers:
    a heap of [listItem]s with [prev] and [next].  An operation of the cache takes the lock,
    so it is one step; [singleflight] runs one generation per key.

    The theorems: the pointers always form a list, and each operation does to that list what
    its name says; [GetData] returns the table of its seed in every reachable state; but
    [moveToFront] takes the entry it moves out of the map, so a hit forgets its entry, asking
    for two seeds in turn leaks a table for every second request, and [Stats] empties the
    cache. *)

From S2P Require Import Prelude Bytes.
From stdpp Require Import base list gmap strings numbers.
From Stdlib Require Import ZArith Lia.

Open Scope Z_scope.

(** A key is [string(seed)]: its bytes. *)
Definition key : Type := list Z.
Definition loc : Type := nat.

Section cache.
(** The value of an item, a table of words. *)
Context {V : Type}.

Record listItem : Type := mkItem {
  i_key : key;
  i_value : V;
  i_prev : option loc;
  i_next : option loc;
}.

(** [heap] and [brk] are Go's memory: the items made so far and the next address.  [evicted]
    records the calls of [onEvict]. *)
Record simpleLRU : Type := mkLRU {
  size : Z;
  capacity : Z;
  items : gmap key loc;
  head : option loc;
  tail : option loc;
  heap : gmap loc listItem;
  brk : loc;
  evicted : list key;
}.

Definition set_size (n : Z) (l : simpleLRU) : simpleLRU :=
  mkLRU n (capacity l) (items l) (head l) (tail l) (heap l) (brk l) (evicted l).
Definition set_items (m : gmap key loc) (l : simpleLRU) : simpleLRU :=
  mkLRU (size l) (capacity l) m (head l) (tail l) (heap l) (brk l) (evicted l).
Definition set_head (p : option loc) (l : simpleLRU) : simpleLRU :=
  mkLRU (size l) (capacity l) (items l) p (tail l) (heap l) (brk l) (evicted l).
Definition set_tail (p : option loc) (l : simpleLRU) : simpleLRU :=
  mkLRU (size l) (capacity l) (items l) (head l) p (heap l) (brk l) (evicted l).
Definition set_heap (h : gmap loc listItem) (l : simpleLRU) : simpleLRU :=
  mkLRU (size l) (capacity l) (items l) (head l) (tail l) h (brk l) (evicted l).
Definition set_brk (b : loc) (l : simpleLRU) : simpleLRU :=
  mkLRU (size l) (capacity l) (items l) (head l) (tail l) (heap l) b (evicted l).
Definition set_evicted (e : list key) (l : simpleLRU) : simpleLRU :=
  mkLRU (size l) (capacity l) (items l) (head l) (tail l) (heap l) (brk l) e.

(** [p.next = n] and [p.prev = n] through a pointer that is not nil. *)
Definition with_next (n : option loc) (it : listItem) : listItem :=
  mkItem (i_key it) (i_value it) (i_prev it) n.
Definition with_prev (n : option loc) (it : listItem) : listItem :=
  mkItem (i_key it) (i_value it) n (i_next it).
Definition with_value (v : V) (it : listItem) : listItem :=
  mkItem (i_key it) v (i_prev it) (i_next it).
Definition store (f : listItem -> listItem) (p : loc) (l : simpleLRU) : simpleLRU :=
  set_heap (alter f p (heap l)) l.

Definition newSimpleLRU (cap : Z) : simpleLRU := mkLRU 0 cap ∅ None None ∅ 0%nat [].

(** ** Operations of the list; [ent] points to an item *)
Definition removeElement (ent : loc) (l : simpleLRU) : simpleLRU :=
  match heap l !! ent with
  | None => l
  | Some it =>
      let l := set_items (delete (i_key it) (items l)) l in
      let l := set_size (size l - 1) l in
      let l := match i_prev it with
               | Some p => store (with_next (i_next it)) p l
               | None => set_head (i_next it) l
               end in
      let l := match i_next it with
               | Some n => store (with_prev (i_prev it)) n l
               | None => set_tail (i_prev it) l
               end in
      set_evicted (evicted l ++ [i_key it]) l
  end.

Definition moveToFront (ent : loc) (l : simpleLRU) : simpleLRU :=
  if decide (head l = Some ent) then l
  else
    let l := removeElement ent l in
    let l := store (with_next (head l)) ent l in
    let l := store (with_prev None) ent l in
    let l := match head l with
             | Some h => store (with_prev (Some ent)) h l
             | None => l
             end in
    let l := set_head (Some ent) l in
    match tail l with
    | None => set_tail (Some ent) l
    | Some _ => l
    end.

Definition removeOldest (l : simpleLRU) : simpleLRU :=
  match tail l with
  | Some t => removeElement t l
  | None => l
  end.

Definition Add (k : key) (v : V) (l : simpleLRU) : simpleLRU :=
  match items l !! k with
  | Some ent => store (with_value v) ent (moveToFront ent l)
  | None =>
      let ent := brk l in
      let l := set_brk (S ent) l in
      let l := set_items (<[k := ent]> (items l)) l in
      let l := match head l with
               | None =>
                   set_tail (Some ent) (set_head (Some ent)
                     (set_heap (<[ent := mkItem k v None None]> (heap l)) l))
               | Some h =>
                   let l := set_heap (<[ent := mkItem k v None (Some h)]> (heap l)) l in
                   set_head (Some ent) (store (with_prev (Some ent)) h l)
               end in
      let l := set_size (size l + 1) l in
      if capacity l <? size l then removeOldest l else l
  end.

Definition Get (k : key) (l : simpleLRU) : simpleLRU * option V :=
  match items l !! k with
  | Some ent => let l := moveToFront ent l in (l, i_value <$> heap l !! ent)
  | None => (l, None)
  end.

Definition Remove (k : key) (l : simpleLRU) : simpleLRU * bool :=
  match items l !! k with
  | Some ent => (removeElement ent l, true)
  | None => (l, false)
  end.

Definition Len (l : simpleLRU) : Z := size l.

(** [Keys] follows [next] from the head; the fuel is the number of items ever made. *)
Fixpoint keys_from (fuel : nat) (ent : option loc) (h : gmap loc listItem) : list key :=
  match fuel, ent with
  | S fuel', Some e =>
      match h !! e with
      | Some it => i_key it :: keys_from fuel' (i_next it) h
      | None => []
      end
  | _, _ => []
  end.
Definition Keys (l : simpleLRU) : list key := keys_from (brk l) (head l) (heap l).
End cache.
Arguments listItem V : clear implicits.
Arguments simpleLRU V : clear implicits.

(** ** The cache *)
Definition maxCacheItems : Z := 64.

Section engine_cache.
(** [calcSeedCache] of the engine. *)
Variable calcSeedCache : list Z -> list Z.

Definition Cache : Type := simpleLRU (list Z).
Definition NewCache : Cache := newSimpleLRU maxCacheItems.

Definition generate (seed : key) : list Z := calcSeedCache (copy_into 32 seed).

(** The second look inside [singleflight] sees what the first one saw. *)
Definition GetData (seed : key) (c : Cache) : Cache * list Z :=
  match Get seed c with
  | (c, Some d) => (c, d)
  | (c, None) =>
      match Get seed c with
      | (c, Some d) => (c, d)
      | (c, None) => let d := generate seed in (Add seed d c, d)
      end
  end.

Definition CacheRemove (seed : key) (c : Cache) : Cache := (Remove seed c).1.

(** [Stats]: the count, the bytes, and what looking at every key does to the cache. *)
Definition Stats (c : Cache) : Cache * (Z * Z) :=
  let count := Len c in
  let '(c', totalSize) :=
    foldl (fun '(c, total) k =>
      match Get k c with
      | (c, Some d) => (c, total + len d * 4)
      | (c, None) => (c, total)
      end) (c, 0) (Keys c) in
  (c', (count, totalSize)).
End engine_cache.

(** ** The pointers form a list *)
Section list.
Context {V : Type}.
Implicit Types c : simpleLRU V.
Implicit Types h : gmap loc (listItem V).

(** The items of [l], linked both ways: [p] points to the first and [q] to the last, the
    first points back to [pp] and the last on to [qn]. *)
Fixpoint seg h (pp p : option loc) (l : list loc) (q qn : option loc) : Prop :=
  match l with
  | [] => p = qn /\ pp = q
  | x :: l' => p = Some x /\ exists it, h !! x = Some it /\ i_prev it = pp /\
      seg h (Some x) (i_next it) l' q qn
  end.

Lemma seg_app h pp p l1 l2 q qn :
  seg h pp p (l1 ++ l2) q qn <-> exists j jn, seg h pp p l1 j jn /\ seg h j jn l2 q qn.
Proof.
  revert pp p. induction l1 as [|x l1 IH]; intros pp p; cbn.
  - split; [eauto|]. by intros (j & jn & [-> ->] & H).
  - split.
    + intros (-> & it & Hx & Hp & (j & jn & H1 & H2)%IH). eauto 10.
    + intros (j & jn & (-> & it & Hx & Hp & H1) & H2). split; [done|].
      exists it. rewrite IH. eauto 10.
Qed.

Lemma seg_frame h pp p l q qn f (y : loc) :
  y ∉ l -> seg h pp p l q qn -> seg (alter f y h) pp p l q qn.
Proof.
  revert pp p. induction l as [|x l IH]; intros pp p Hy; cbn; [done|].
  apply not_elem_of_cons in Hy as [Hne Hy]. intros (-> & it & Hx & Hp & H).
  split; [done|]. exists it. rewrite lookup_alter_ne by done. auto.
Qed.

Lemma seg_insert_frame h pp p l q qn it (y : loc) :
  y ∉ l -> seg h pp p l q qn -> seg (<[y := it]> h) pp p l q qn.
Proof.
  revert pp p. induction l as [|x l IH]; intros pp p Hy; cbn; [done|].
  apply not_elem_of_cons in Hy as [Hne Hy]. intros (-> & it' & Hx & Hp & H).
  split; [done|]. exists it'. rewrite lookup_insert_ne by done. auto.
Qed.

(** Redirecting the last item, and the first. *)
Lemma seg_set_next h pp p l (a : loc) j qn qn' :
  NoDup (l ++ [a]) -> seg h pp p (l ++ [a]) j qn ->
  seg (alter (with_next qn') a h) pp p (l ++ [a]) j qn'.
Proof.
  intros Hnd (j1 & jn & H1 & H2)%seg_app.
  apply list.NoDup_app in Hnd as (_ & Hd & _).
  apply seg_app. exists j1, jn. split.
  - apply seg_frame; [|done]. intros Ha. apply (Hd a Ha). by apply list_elem_of_singleton.
  - cbn in *. destruct H2 as (-> & it & Ha & Hp & _ & Hq). split; [done|].
    exists (with_next qn' it). rewrite lookup_alter_eq, Ha. auto.
Qed.

Lemma seg_set_prev h pp pp' (b : loc) l q qn :
  b ∉ l -> seg h pp (Some b) (b :: l) q qn ->
  seg (alter (with_prev pp') b h) pp' (Some b) (b :: l) q qn.
Proof.
  intros Hb (_ & it & Hx & Hp & H). split; [done|]. exists (with_prev pp' it).
  rewrite lookup_alter_eq, Hx. split_and!; [done|done|]. by apply seg_frame.
Qed.

Lemma seg_last h pp p l q qn :
  seg h pp p l q qn -> l = [] /\ q = pp \/ exists l' a, l = l' ++ [a] /\ q = Some a.
Proof.
  destruct l as [|a l' _] using rev_ind; [intros [_ ->]; auto|].
  intros (j & jn & _ & H2)%seg_app. cbn in H2. destruct H2 as (_ & it & _ & _ & _ & <-). eauto.
Qed.

Lemma seg_first h pp p l q :
  seg h pp p l q None -> l = [] /\ p = None \/ exists b l', l = b :: l' /\ p = Some b.
Proof. destruct l as [|b l]; cbn; [intros [-> _]; auto|]. intros [-> _]. eauto. Qed.

Definition dll c (l : list loc) : Prop :=
  NoDup l /\ seg (heap c) None (head c) l (tail c) None.

(** What an item holds, apart from its links. *)
Definition payload c (x : loc) : option (key * V) :=
  (fun it => (i_key it, i_value it)) <$> heap c !! x.

Lemma payload_store c f (y x : loc) :
  (forall it, i_key (f it) = i_key it /\ i_value (f it) = i_value it) ->
  payload (store f y c) x = payload c x.
Proof.
  intros Hf. unfold payload, store. cbn. destruct (decide (y = x)) as [->|Hne].
  - rewrite lookup_alter_eq. destruct (heap c !! x) as [it|]; [|done]. cbn.
    by destruct (Hf it) as [-> ->].
  - by rewrite lookup_alter_ne.
Qed.

Lemma dll_remove c (l1 l2 : list loc) (x : loc) :
  dll c (l1 ++ x :: l2) ->
  dll (removeElement x c) (l1 ++ l2) /\ heap (removeElement x c) !! x = heap c !! x /\
  (forall y, payload (removeElement x c) y = payload c y).
Proof.
  intros [Hnd Hs]. pose proof Hnd as (Hn1 & Hd & Hn2)%list.NoDup_app.
  apply list.NoDup_cons in Hn2 as [Hx2 Hn2].
  assert (Hx1 : x ∉ l1) by (intros H; apply (Hd x H), elem_of_cons; auto).
  assert (Hd12 : forall y, y ∈ l1 -> y ∉ l2)
    by (intros y H1 H2; apply (Hd y H1), elem_of_cons; auto).
  apply seg_app in Hs as (j & jn & H1 & -> & it & Hx & Hp & H2).
  unfold removeElement. rewrite Hx. subst j.
  set (c1 := set_size _ _). set (c2 := match i_prev it with Some _ => _ | None => _ end).
  assert (S1 : seg (heap c2) None (head c2) l1 (i_prev it) (i_next it) /\
    seg (heap c2) (Some x) (i_next it) l2 (tail c2) None /\ heap c2 !! x = heap c !! x /\
    tail c2 = tail c /\ (forall y, payload c2 y = payload c y)).
  { unfold c2. destruct (seg_last _ _ _ _ _ _ H1) as [[-> E]|(l1' & a & -> & E)]; rewrite E.
    - cbn in H1. split_and!; try done.
    - assert (a ∉ l2) by (apply Hd12, elem_of_app; right; by apply list_elem_of_singleton).
      assert (a <> x) by (intros ->; apply Hx1, elem_of_app; right; by apply list_elem_of_singleton).
      cbn. rewrite E in H1. split_and!; try done.
      + by eapply seg_set_next.
      + by apply seg_frame.
      + by rewrite lookup_alter_ne.
      + intros y. by apply (payload_store c1). }
  destruct S1 as (S1 & S2 & Ex & Et & Py). clearbody c2. clear c1 H1 H2.
  assert (Hnd' : NoDup (l1 ++ l2)) by (apply list.NoDup_app; auto).
  destruct (seg_first _ _ _ _ _ S2) as [[-> E]|(b & l2' & -> & E)]; rewrite E in *.
  - split_and!; [split; [done|]|by cbn; rewrite Ex|exact Py]. cbn. apply seg_app. eexists _, _. split; [exact S1|].
    by split.
  - assert (b ∉ l1) by (intros H; apply (Hd12 b H), elem_of_cons; auto).
    assert (b <> x) by (intros ->; apply Hx2, elem_of_cons; auto).
    apply list.NoDup_cons in Hn2 as [Hb2 _].
    split_and!; [split; [done|]| |].
    + cbn. apply seg_app. eexists _, _. split; [by apply seg_frame|].
      eapply seg_set_prev; done.
    + cbn. by rewrite lookup_alter_ne, Ex.
    + intros y. rewrite <- Py. by apply (payload_store c2).
Qed.

Lemma removeElement_fields c (x : loc) (it : listItem V) :
  heap c !! x = Some it ->
  items (removeElement x c) = delete (i_key it) (items c) /\
  size (removeElement x c) = size c - 1 /\ brk (removeElement x c) = brk c /\
  capacity (removeElement x c) = capacity c.
Proof. intros Hx. unfold removeElement. rewrite Hx. repeat case_match; done. Qed.

Lemma dll_front c (l1 l2 : list loc) (x : loc) :
  l1 <> [] -> dll c (l1 ++ x :: l2) ->
  dll (moveToFront x c) (x :: l1 ++ l2) /\
  (forall y, payload (moveToFront x c) y = payload c y) /\
  items (moveToFront x c) = items (removeElement x c) /\
  size (moveToFront x c) = size c - 1 /\ brk (moveToFront x c) = brk c /\
  capacity (moveToFront x c) = capacity c.
Proof.
  intros Hl Hd. pose proof Hd as [Hnd Hs].
  assert (Hx : x ∉ l1 ++ l2).
  { rewrite <- Permutation_middle in Hnd. by apply list.NoDup_cons in Hnd as [? _]. }
  destruct (dll_remove c l1 l2 x Hd) as ([Hnd' Hs'] & Ex & Py).
  assert (exists it, heap c !! x = Some it) as [it Hit].
  { apply seg_app in Hs as (j & jn & _ & _ & it & Hit & _). eauto. }
  destruct (removeElement_fields c x it Hit) as (_ & Esz & Ebr & Ecap).
  destruct l1 as [|b l1]; [done|]. cbn [app] in *.
  assert (Hh : head c = Some b) by (apply Hs).
  apply not_elem_of_cons in Hx as [Hxb Hx].
  unfold moveToFront. rewrite decide_False by congruence.
  set (c1 := removeElement x c) in *. clearbody c1. clear Hs Hd Hnd Hl.
  assert (Hh1 : head c1 = Some b) by apply Hs'.
  destruct (seg_last _ _ _ _ _ _ Hs') as [[? _]|(l' & a & _ & Et)]; [done|].
  assert (Hb : b ∉ l1 ++ l2) by (by apply list.NoDup_cons in Hnd' as [? _]).
  cbn -[store]. unfold store. cbn. rewrite Hh1. cbn. rewrite Et. split_and!.
  - split.
    + apply list.NoDup_cons. split; [|done]. apply not_elem_of_cons. done.
    + cbn [heap head tail set_head set_heap]. rewrite Et. rewrite Hh1, Et in Hs'.
      split; [done|]. exists (with_prev None (with_next (Some b) it)). split_and!; [|done|].
      * rewrite lookup_alter_ne by congruence. by rewrite !lookup_alter_eq, Ex, Hit.
      * apply (seg_set_prev _ None (Some x)); [done|].
        apply seg_frame; [|apply seg_frame; [|exact Hs']]; apply not_elem_of_cons; done.
  - intros y. rewrite <- Py.
    etrans; [apply (payload_store (store (with_prev None) x (store (with_next (Some b)) x c1))); done|].
    etrans; [apply (payload_store (store (with_next (Some b)) x c1)); done|].
    by apply payload_store.
  - done.
  - done.
  - done.
  - done.
Qed.

(** ** The invariant of the cache *)

(** [good k v]: what may be stored under [k]. *)
Variable good : key -> V -> Prop.

Record wf c (l : list loc) : Prop := {
  wf_dll : dll c l;
  wf_brk : Forall (fun x => (x < brk c)%nat) l;
  wf_items : forall k x, items c !! k = Some x -> x ∈ l /\ exists v, payload c x = Some (k, v);
  wf_good : forall x k v, payload c x = Some (k, v) -> good k v;
}.

Lemma wf_new (cap : Z) : wf (newSimpleLRU cap) [].
Proof. split; [by repeat split; constructor|constructor|done|done]. Qed.

Lemma wf_item c l (x : loc) : wf c l -> x ∈ l -> exists it, heap c !! x = Some it.
Proof.
  intros [[_ Hs] _ _ _] Hx. apply list_elem_of_split in Hx as (l1 & l2 & ->).
  apply seg_app in Hs as (j & jn & _ & _ & it & Hit & _). eauto.
Qed.

Lemma wf_remove c (l1 l2 : list loc) (x : loc) :
  wf c (l1 ++ x :: l2) -> wf (removeElement x c) (l1 ++ l2).
Proof.
  intros Hwf. destruct (wf_item c _ x Hwf) as [it Hit]; [apply elem_of_app; right; by left|].
  destruct Hwf as [Hd Hb Hi Hg]. destruct (dll_remove c l1 l2 x Hd) as (Hd' & _ & Py).
  destruct (removeElement_fields c x it Hit) as (Ei & _ & Eb & _).
  split; [done| | |].
  - rewrite Eb. apply Forall_app in Hb as [Hb1 [_ Hb2]%list.Forall_cons]. by apply Forall_app.
  - intros k y. rewrite Ei, lookup_delete_Some, Py. intros [Hk Hy].
    destruct (Hi k y Hy) as [Hin [v Hv]]. split; [|by exists v].
    apply elem_of_app in Hin. rewrite elem_of_cons in Hin. apply elem_of_app.
    destruct Hin as [?|[->|?]]; [by left| |by right].
    unfold payload in Hv. rewrite Hit in Hv. cbn in Hv. congruence.
  - intros y k v. rewrite Py. apply Hg.
Qed.

Lemma wf_front c l (x : loc) :
  wf c l -> x ∈ l -> exists l', l' ≡ₚ l /\ wf (moveToFront x c) l'.
Proof.
  intros Hwf Hx. destruct (wf_item c l x Hwf Hx) as [it Hit].
  apply list_elem_of_split in Hx as (l1 & l2 & ->). destruct l1 as [|b l1].
  { exists (x :: l2). split; [done|]. destruct Hwf as [Hd]. unfold moveToFront.
    assert (head c = Some x) by apply Hd. by rewrite decide_True. }
  exists (x :: (b :: l1) ++ l2). split; [by rewrite Permutation_middle|].
  destruct Hwf as [Hd Hb Hi Hg].
  destruct (dll_front c (b :: l1) l2 x ltac:(done) Hd) as (Hd' & Py & Ei & _ & Eb & _).
  destruct (removeElement_fields c x it Hit) as (Ei' & _). split; [done| | |].
  - rewrite Eb. apply Forall_app in Hb as [Hb1 [Hx Hb2]%list.Forall_cons].
    apply list.Forall_cons. split; [done|]. by apply Forall_app.
  - intros k y. rewrite Ei, Ei', lookup_delete_Some, Py. intros [Hk Hy].
    destruct (Hi k y Hy) as [Hin Hv]. split; [|done]. revert Hin. cbn.
    rewrite !elem_of_cons, !elem_of_app, !elem_of_cons. tauto.
  - intros y k v. rewrite Py. apply Hg.
Qed.

(** The item [Add] makes, before an old one is evicted. *)
Definition push (k : key) (v : V) c : simpleLRU V :=
  let ent := brk c in
  let l := set_items (<[k := ent]> (items c)) (set_brk (S ent) c) in
  let l := match head l with
           | None =>
               set_tail (Some ent) (set_head (Some ent)
                 (set_heap (<[ent := mkItem k v None None]> (heap l)) l))
           | Some h =>
               let l := set_heap (<[ent := mkItem k v None (Some h)]> (heap l)) l in
               set_head (Some ent) (store (with_prev (Some ent)) h l)
           end in
  set_size (size l + 1) l.

Lemma Add_push (k : key) (v : V) c :
  items c !! k = None ->
  Add k v c = if capacity c <? size c + 1 then removeOldest (push k v c) else push k v c.
Proof. intros Hk. unfold Add, push. rewrite Hk. cbn. by destruct (head c). Qed.

Lemma push_fields (k : key) (v : V) c :
  items (push k v c) = <[k := brk c]> (items c) /\ size (push k v c) = size c + 1 /\
  capacity (push k v c) = capacity c /\ brk (push k v c) = S (brk c) /\
  head (push k v c) = Some (brk c).
Proof. unfold push. cbn. by destruct (head c). Qed.

Lemma push_payload (k : key) (v : V) c (y : loc) :
  payload (push k v c) y = if decide (y = brk c) then Some (k, v) else payload c y.
Proof.
  unfold push. cbn. destruct (head c) as [h|]; cbn.
  - etrans; [apply (payload_store (set_heap (<[brk c := mkItem k v None (Some h)]> (heap c)) c)); done|].
    unfold payload. cbn. case_decide as E; [subst; by rewrite lookup_insert_eq|].
    by rewrite lookup_insert_ne.
  - unfold payload. cbn. case_decide as E; [subst; by rewrite lookup_insert_eq|].
    by rewrite lookup_insert_ne.
Qed.

Lemma wf_push c l (k : key) (v : V) :
  wf c l -> good k v -> wf (push k v c) (brk c :: l).
Proof.
  intros [[Hnd Hs] Hb Hi Hg] Hkv. rewrite list.Forall_forall in Hb.
  assert (Hfresh : brk c ∉ l) by (intros H; specialize (Hb _ H); lia).
  destruct (push_fields k v c) as (Ei & _ & _ & Eb & _). split.
  - split; [by apply list.NoDup_cons|]. unfold push. cbn [head set_items set_brk set_size].
    destruct (seg_first _ _ _ _ _ Hs) as [[-> E]|(b & l' & -> & E)]; rewrite E in *.
    + cbn. rewrite lookup_insert_eq. eauto 10.
    + apply list.NoDup_cons in Hnd as [Hb' _]. apply not_elem_of_cons in Hfresh as [Hne Hf].
      split; [done|]. exists (mkItem k v None (Some b)). split_and!; [|done|].
      * cbn. rewrite lookup_alter_ne by done. by rewrite lookup_insert_eq.
      * apply (seg_set_prev _ None (Some (brk c))); [done|].
        apply seg_insert_frame; [|done]. by apply not_elem_of_cons.
  - rewrite Eb. constructor; [lia|]. apply list.Forall_forall. intros x Hx. specialize (Hb x Hx). lia.
  - intros k' y. rewrite Ei, push_payload, lookup_insert_Some.
    intros [[<- <-]|[Hne Hy]].
    + rewrite decide_True by done. split; [by left|by exists v].
    + destruct (Hi k' y Hy) as [Hin Hv]. split; [by right|].
      rewrite decide_False; [done|]. intros ->. by apply Hfresh.
  - intros y k' v'. rewrite push_payload. case_decide; [intros [= <- <-]; done|apply Hg].
Qed.

Lemma wf_removeOldest c l : wf c l -> exists l', wf (removeOldest c) l'.
Proof.
  intros Hwf. unfold removeOldest. destruct (tail c) as [t|] eqn:Et; [|eauto].
  pose proof (wf_dll _ _ Hwf) as [_ Hs].
  destruct (seg_last _ _ _ _ _ _ Hs) as [[_ E]|(l' & a & -> & E)]; [congruence|].
  assert (a = t) as -> by congruence. exists (l' ++ []). by apply wf_remove.
Qed.

Lemma wf_Add c l (k : key) (v : V) :
  wf c l -> good k v -> items c !! k = None -> exists l', wf (Add k v c) l'.
Proof.
  intros Hwf Hg Hk. rewrite Add_push by done. pose proof (wf_push c l k v Hwf Hg).
  case_match; [by eapply wf_removeOldest|eauto].
Qed.

Lemma wf_Get c l (k : key) :
  wf c l -> exists l', l' ≡ₚ l /\ wf (Get k c).1 l' /\
    match (Get k c).2 with
    | Some v => good k v
    | None => (Get k c).1 = c /\ items c !! k = None
    end.
Proof.
  intros Hwf. unfold Get. destruct (items c !! k) as [x|] eqn:Hk; [|by exists l].
  destruct (wf_items _ _ Hwf k x Hk) as [Hx [v Hv]].
  destruct (wf_front c l x Hwf Hx) as (l' & Hp & Hwf'). exists l'. cbn.
  split_and!; [done|done|].
  assert (Hv' : payload (moveToFront x c) x = Some (k, v)).
  { apply list_elem_of_split in Hx as (l1 & l2 & ->). destruct l1 as [|b l1].
    - assert (head c = Some x) by apply (wf_dll _ _ Hwf). unfold moveToFront. by rewrite decide_True.
    - destruct (dll_front c (b :: l1) l2 x ltac:(done) (wf_dll _ _ Hwf)) as (_ & -> & _). done. }
  pose proof (wf_good _ _ Hwf' _ _ _ Hv'). unfold payload in Hv'.
  destruct (heap (moveToFront x c) !! x) as [it|]; [|done]. cbn in *. congruence.
Qed.

Lemma wf_Remove c l (k : key) : wf c l -> exists l', wf (Remove k c).1 l'.
Proof.
  intros Hwf. unfold Remove. destruct (items c !! k) as [x|] eqn:Hk; [|eauto].
  destruct (wf_items _ _ Hwf k x Hk) as [(l1 & l2 & ->)%list_elem_of_split _].
  eexists. by apply wf_remove.
Qed.

(** [Keys] lists the keys of the items in order. *)
Lemma keys_from_seg h (fuel : nat) pp p (l : list loc) q :
  (length l <= fuel)%nat -> seg h pp p l q None ->
  keys_from fuel p h = omap (fun x => i_key <$> h !! x) l.
Proof.
  revert fuel pp p. induction l as [|x l IH]; intros fuel pp p Hl Hs; cbn in *.
  - destruct Hs as [-> _]. by destruct fuel.
  - destruct Hs as (-> & it & Hx & _ & Hs). destruct fuel as [|fuel]; [lia|]. cbn. rewrite Hx. cbn.
    f_equal. eapply IH; [lia|done].
Qed.

Lemma wf_length c l : wf c l -> (length l <= brk c)%nat.
Proof.
  intros [[Hnd _] Hb _ _]. rewrite <- (length_seq (brk c) 0). apply submseteq_length, NoDup_submseteq; [done|].
  intros x Hx. rewrite list.Forall_forall in Hb. apply elem_of_seq. specialize (Hb x Hx). lia.
Qed.

Lemma wf_Keys c l : wf c l -> Keys c = omap (fun x => fst <$> payload c x) l.
Proof.
  intros Hwf. unfold Keys. rewrite (keys_from_seg _ _ None _ l (tail c)).
  - clear Hwf. induction l as [|x l IH]; [done|]. cbn. unfold payload at 1.
    destruct (heap c !! x); cbn; [by rewrite IH|done].
  - by apply wf_length.
  - apply (wf_dll _ _ Hwf).
Qed.

(** A hit on an item that is not the first takes it out of the map. *)
Lemma Get_moves c l1 l2 (k : key) (v : V) (x : loc) :
  wf c (l1 ++ x :: l2) -> l1 <> [] -> items c !! k = Some x -> payload c x = Some (k, v) ->
  wf (Get k c).1 (x :: l1 ++ l2) /\ items (Get k c).1 = delete k (items c) /\
  size (Get k c).1 = size c - 1 /\ capacity (Get k c).1 = capacity c /\
  (forall y, payload (Get k c).1 y = payload c y) /\ (Get k c).2 = Some v.
Proof.
  intros Hwf Hl Hk Hx. unfold Get. rewrite Hk. cbn.
  destruct (dll_front c l1 l2 x Hl (wf_dll _ _ Hwf)) as (Hd & Py & Ei & Es & Eb & Ec).
  destruct (wf_item c _ x Hwf) as [it Hit]; [apply elem_of_app; right; by left|].
  destruct (removeElement_fields c x it Hit) as (Ei' & _).
  assert (Ek : i_key it = k) by (unfold payload in Hx; rewrite Hit in Hx; cbn in Hx; congruence).
  rewrite Ek in Ei'. split_and!; [|by rewrite Ei|done|done|done|].
  - destruct Hwf as [_ Hb Hi Hg]. split; [done| | |].
    + rewrite Eb. apply Forall_app in Hb as [Hb1 [Hx' Hb2]%list.Forall_cons].
      apply list.Forall_cons. split; [done|]. by apply Forall_app.
    + intros k' y. rewrite Ei, Ei', lookup_delete_Some, Py. intros [_ Hy].
      destruct (Hi k' y Hy) as [Hin Hv]. split; [|done]. revert Hin.
      rewrite elem_of_cons, !elem_of_app, elem_of_cons. tauto.
    + intros y k' v'. rewrite Py. apply Hg.
  - specialize (Py x). rewrite Hx in Py. unfold payload in Py.
    destruct (heap (moveToFront x c) !! x) as [it'|]; [|done]. cbn in *. congruence.
Qed.
End list.

(** ** The cache of the engine *)
Section theorems.
Variable calcSeedCache : list Z -> list Z.

Inductive cache_reachable : Cache -> Prop :=
| cache_new : cache_reachable NewCache
| cache_get (c : Cache) (seed : key) :
    cache_reachable c -> cache_reachable (GetData calcSeedCache seed c).1
| cache_remove (c : Cache) (seed : key) : cache_reachable c -> cache_reachable (CacheRemove seed c)
| cache_stats (c : Cache) : cache_reachable c -> cache_reachable (Stats c).1.

Definition table_of (k : key) (v : list Z) : Prop := v = generate calcSeedCache k.

Lemma wf_GetData (c : Cache) (l : list loc) (seed : key) :
  wf table_of c l ->
  (exists l', wf table_of (GetData calcSeedCache seed c).1 l') /\
  (GetData calcSeedCache seed c).2 = generate calcSeedCache seed.
Proof.
  intros Hwf. unfold GetData.
  destruct (wf_Get table_of c l seed Hwf) as (l' & _ & Hwf' & Hv).
  destruct (Get seed c) as [c' [d|]]; cbn in *; [split; [eauto|done]|]. destruct Hv as [-> Hn].
  unfold Get. rewrite Hn. cbn. split; [|done]. by eapply wf_Add.
Qed.

Lemma wf_Stats (c : Cache) (l : list loc) : wf table_of c l -> exists l', wf table_of (Stats c).1 l'.
Proof.
  intros Hwf. unfold Stats.
  assert (H : forall ks c l t, wf table_of c l -> exists l', wf table_of
    (foldl (fun '(c, total) k => match Get k c with
      | (c, Some d) => (c, total + len d * 4) | (c, None) => (c, total) end) (c, t) ks).1 l').
  { clear. induction ks as [|k ks IH]; intros c l t Hwf; [eauto|]. cbn [foldl].
    destruct (wf_Get table_of c l k Hwf) as (l' & _ & Hwf' & _).
    destruct (Get k c) as [c' [d|]]; by eapply IH. }
  destruct (H (Keys c) c l 0 Hwf) as [l' Hl']. destruct (foldl _ _ _) as [c' t]. by exists l'.
Qed.

Lemma reachable_wf (c : Cache) : cache_reachable c -> exists l, wf table_of c l.
Proof.
  induction 1 as [|c seed _ [l Hl]|c seed _ [l Hl]|c _ [l Hl]].
  - exists []. apply wf_new.
  - by destruct (wf_GetData c l seed Hl).
  - by eapply wf_Remove.
  - by eapply wf_Stats.
Qed.

(** The cache is transparent: in every state that requests, removals and calls of [Stats]
    can lead to, [GetData] returns the table of the seed it is asked for. *)
Theorem cache_transparent (c : Cache) (seed : key) :
  cache_reachable c -> (GetData calcSeedCache seed c).2 = calcSeedCache (copy_into 32 seed).
Proof. intros [l Hl]%reachable_wf. by destruct (wf_GetData c l seed Hl). Qed.

(** The pointers are always in order: in every reachable state the items reachable from
    the head form a doubly linked list without repetition that ends at the tail, every entry
    of the map is one of them, stored under its own key, and [Keys] walks exactly this list. *)
Theorem lru_well_linked (c : Cache) :
  cache_reachable c ->
  exists l, NoDup l /\ seg (heap c) None (head c) l (tail c) None /\
    (forall k x, items c !! k = Some x -> x ∈ l /\ exists v, payload c x = Some (k, v)) /\
    Keys c = omap (fun x => fst <$> payload c x) l /\ length (Keys c) = length l.
Proof.
  intros [l Hwf]%reachable_wf. exists l. pose proof (wf_dll _ _ _ Hwf) as [Hnd Hs].
  split_and!; [done|done|apply (wf_items _ _ _ Hwf)|by eapply wf_Keys|].
  rewrite (wf_Keys _ _ _ Hwf). assert (Hin : forall x, x ∈ l -> is_Some (payload c x)).
  { intros x Hx. destruct (wf_item _ _ _ x Hwf Hx) as [it Hit]. unfold payload. rewrite Hit. by eexists. }
  clear - Hin. induction l as [|x l IH]; [done|]. cbn.
  destruct (Hin x) as [[k v] ->]; [by left|]. cbn. rewrite IH; [done|]. intros y Hy. apply Hin. by right.
Qed.

(** ** What a hit does to the map *)

(** A request for a seed that is not in the map of a cache with room. *)
Lemma GetData_miss (c : Cache) (l : list loc) (seed : key) :
  wf table_of c l -> items c !! seed = None -> size c + 1 <= capacity c ->
  let c' := (GetData calcSeedCache seed c).1 in
  c' = push seed (generate calcSeedCache seed) c /\ wf table_of c' (brk c :: l).
Proof.
  intros Hwf Hk Hs. unfold GetData, Get. rewrite Hk. cbn. rewrite Hk. cbn. rewrite Add_push by done.
  destruct (Z.ltb_spec (capacity c) (size c + 1)); [lia|]. split; [done|]. by apply wf_push.
Qed.

Lemma GetData_hit (c : Cache) l1 l2 (seed : key) v (x : loc) :
  wf table_of c (l1 ++ x :: l2) -> l1 <> [] -> items c !! seed = Some x ->
  payload c x = Some (seed, v) ->
  let c' := (GetData calcSeedCache seed c).1 in
  wf table_of c' (x :: l1 ++ l2) /\ items c' = delete seed (items c) /\
  size c' = size c - 1 /\ capacity c' = capacity c /\ (forall y, payload c' y = payload c y).
Proof.
  intros Hwf Hl Hk Hx. destruct (Get_moves _ c l1 l2 seed v x Hwf Hl Hk Hx) as (H1 & H2 & H3 & H4 & H5 & H6).
  unfold GetData. destruct (Get seed c) as [c' o]. cbn in *. by rewrite H6.
Qed.

(** Four requests: two seeds in turn, twice. *)
Definition alternate (s1 s2 : key) (c : Cache) : Cache :=
  let ask s c := (GetData calcSeedCache s c).1 in ask s2 (ask s1 (ask s2 (ask s1 c))).

Lemma alternate_grows (s1 s2 : key) (c : Cache) (l : list loc) :
  s1 <> s2 -> wf table_of c l -> items c = ∅ -> size c = 0 -> 2 <= capacity c ->
  let c' := alternate s1 s2 c in
  exists l', wf table_of c' l' /\ items c' = ∅ /\ size c' = 0 /\ capacity c' = capacity c /\
    omap (fun x => fst <$> payload c' x) l' = s2 :: s1 :: omap (fun x => fst <$> payload c x) l.
Proof.
  intros Hne Hwf Hi Hs Hc. unfold alternate.
  destruct (GetData_miss c l s1 Hwf) as [E1 W1]; [by rewrite Hi|lia|]. rewrite E1 in *.
  set (v1 := generate calcSeedCache s1) in *. set (c1 := push s1 v1 c) in *.
  destruct (push_fields s1 v1 c) as (I1 & Z1 & C1 & B1 & _). fold c1 in I1, Z1, C1, B1. rewrite Hi in I1.
  destruct (GetData_miss c1 _ s2 W1) as [E2 W2]; [by rewrite I1, lookup_insert_ne|lia|]. rewrite E2 in *.
  set (v2 := generate calcSeedCache s2) in *. set (c2 := push s2 v2 c1) in *.
  destruct (push_fields s2 v2 c1) as (I2 & Z2 & C2 & B2 & _). fold c2 in I2, Z2, C2, B2.
  set (a := brk c) in *. set (b := brk c1) in *.
  assert (P2 : forall y, payload c2 y = if decide (y = b) then Some (s2, v2)
    else if decide (y = a) then Some (s1, v1) else payload c y).
  { intros y. unfold c2. rewrite push_payload. fold b. case_decide; [done|].
    unfold c1. by rewrite push_payload. }
  assert (Hab : a <> b) by lia.
  destruct (GetData_hit c2 [b] l s1 v1 a W2) as (W3 & I3 & Z3 & C3 & P3); [done| | |].
  { by rewrite I2, lookup_insert_ne, I1, lookup_insert_eq. }
  { rewrite P2. by rewrite decide_False, decide_True. }
  destruct (GetData_hit _ [a] l s2 v2 b W3) as (W4 & I4 & Z4 & C4 & P4); [done| | |].
  { rewrite I3, I2, lookup_delete_ne by done. by rewrite lookup_insert_eq. }
  { by rewrite P3, P2, decide_True. }
  exists (b :: a :: l). split_and!; [exact W4| |lia|congruence|].
  - rewrite I4, I3, I2, I1. apply map_eq. intros k.
    destruct (decide (k = s1)) as [->|]; [rewrite lookup_delete_ne by done; by rewrite lookup_delete_eq|].
    destruct (decide (k = s2)) as [->|]; [by rewrite lookup_delete_eq|].
    by rewrite !lookup_delete_ne, !lookup_insert_ne.
  - assert (P : forall y, y ∈ l -> payload c2 y = payload c y).
    { intros y Hy. pose proof (wf_brk _ _ _ Hwf) as Hb. rewrite list.Forall_forall in Hb.
      specialize (Hb y Hy). rewrite P2, !decide_False; [done|lia..]. }
    cbn. rewrite !P4, !P3, !P2. rewrite (decide_True (P := b = b)), (decide_False (P := a = b)),
      (decide_True (P := a = a)) by done. cbn. do 2 f_equal.
    revert P. clear - P4 P3. induction l as [|y l IH]; intros P; [done|]. cbn.
    rewrite P4, P3, P by by left. rewrite IH; [done|]. intros z Hz. apply P. by right.
Qed.

(** Asking for two seeds in turn leaks: after [4 n] requests the map is empty and [Len]
    is 0, but [2 n] tables hang in the list, two for each round, for every [n]; the limit of
    64 tables never applies. *)
Theorem alternating_leak (s1 s2 : key) (n : nat) :
  s1 <> s2 ->
  let c := iterate n (alternate s1 s2) NewCache in
  items c = ∅ /\ Len c = 0 /\ Keys c = concat (replicate n [s2; s1]).
Proof.
  intros Hne. assert (H : exists l, let c := iterate n (alternate s1 s2) NewCache in
    wf table_of c l /\ items c = ∅ /\ size c = 0 /\ capacity c = 64 /\
    omap (fun x => fst <$> payload c x) l = concat (replicate n [s2; s1])).
  { induction n as [|n (l & Hwf & Hi & Hs & Hc & Hk)]; cbn [iterate].
    - exists []. split_and!; try done. apply wf_new.
    - destruct (alternate_grows s1 s2 _ l Hne Hwf Hi Hs ltac:(lia)) as (l' & H1 & H2 & H3 & H4 & H5).
      exists l'. split_and!; [done|done|done|congruence|]. rewrite H5, Hk. done. }
  destruct H as (l & Hwf & Hi & Hs & _ & Hk). cbn. split_and!; [done|done|].
  by rewrite (wf_Keys _ _ _ Hwf).
Qed.

(** [Stats] asks for every key, so it forgets all but the first. *)
Definition first_or_gone (k0 : key) (c : Cache) : Prop :=
  forall x k v, head c = Some x -> payload c x = Some (k, v) -> k = k0 \/ items c !! k = None.

Lemma Get_forgets (k0 k : key) (c : Cache) (l : list loc) :
  wf table_of c l -> first_or_gone k0 c ->
  first_or_gone k0 (Get k c).1 /\ items (Get k c).1 ⊆ items c /\
  (k <> k0 -> items (Get k c).1 !! k = None).
Proof.
  intros Hwf Hf. destruct (items c !! k) as [x|] eqn:Hk; [|unfold Get; by rewrite Hk].
  destruct (wf_items _ _ _ Hwf k x Hk) as [(l1 & l2 & ->)%list_elem_of_split [v Hv]].
  destruct l1 as [|b l1].
  - assert (Hh : head c = Some x) by apply (wf_dll _ _ _ Hwf). unfold Get, moveToFront. rewrite Hk. cbn.
    rewrite decide_True by done. split_and!; [done|done|]. intros Hne.
    destruct (Hf x k v Hh Hv) as [->|E]; [done|done].
  - destruct (Get_moves _ c (b :: l1) l2 k v x Hwf ltac:(done) Hk Hv) as (Hwf' & Ei & _ & _ & Py & _).
    split_and!.
    + intros y k' v' Hh Hy. assert (Hx : head (Get k c).1 = Some x) by apply (wf_dll _ _ _ Hwf').
      assert (y = x) as -> by congruence. rewrite Py, Hv in Hy. injection Hy as <- <-.
      right. by rewrite Ei, lookup_delete_eq.
    + rewrite Ei. apply delete_subseteq.
    + intros _. by rewrite Ei, lookup_delete_eq.
Qed.

Lemma gets_forget (k0 : key) (ks : list key) (c : Cache) (l : list loc) (t : Z) :
  wf table_of c l -> first_or_gone k0 c ->
  let c' := (foldl (fun '(c, total) k => match Get k c with
      | (c, Some d) => (c, total + len d * 4) | (c, None) => (c, total) end) (c, t) ks).1 in
  items c' ⊆ items c /\ forall k, k ∈ ks -> k <> k0 -> items c' !! k = None.
Proof.
  revert c l t. induction ks as [|k ks IH]; intros c l t Hwf Hf; cbn [foldl].
  { split; [done|]. intros k Hk. by apply not_elem_of_nil in Hk. }
  destruct (Get_forgets k0 k c l Hwf Hf) as (Hf' & Hsub & Hgone).
  destruct (wf_Get table_of c l k Hwf) as (l' & _ & Hwf' & _).
  destruct (Get k c) as [c1 o]. cbn in *.
  assert (H : forall t', let c' := (foldl (fun '(c, total) k => match Get k c with
      | (c, Some d) => (c, total + len d * 4) | (c, None) => (c, total) end) (c1, t') ks).1 in
    items c' ⊆ items c /\ forall k', k' ∈ k :: ks -> k' <> k0 -> items c' !! k' = None).
  { intros t'. destruct (IH c1 l' t' Hwf' Hf') as [H1 H2]. split; [by etrans|].
    intros k' [->|Hin]%elem_of_cons Hne; [|by apply H2].
    apply (lookup_weaken_None _ (items c1)); [by apply Hgone|done]. }
  destruct o; apply H.
Qed.

Lemma stats_forgets (c : Cache) (k0 : key) (rest : list key) :
  cache_reachable c -> Keys c = k0 :: rest ->
  forall k, k <> k0 -> items (Stats c).1 !! k = None.
Proof.
  intros [l Hwf]%reachable_wf HK k Hne. pose proof (wf_Keys _ _ _ Hwf) as HK'.
  assert (Hf : first_or_gone k0 c).
  { intros x k' v Hh Hx. left. destruct l as [|y l]; [by rewrite HK in HK'|].
    assert (head c = Some y) by apply (wf_dll _ _ _ Hwf). assert (x = y) as -> by congruence.
    cbn in HK'. rewrite Hx in HK'. cbn in HK'. congruence. }
  destruct (gets_forget k0 (Keys c) c l 0 Hwf Hf) as [Hsub Hgone]. unfold Stats.
  destruct (foldl _ _ _) as [c' t]. cbn in *.
  destruct (items c !! k) as [x|] eqn:Hk; [|by eapply lookup_weaken_None].
  apply Hgone; [|done]. destruct (wf_items _ _ _ Hwf k x Hk) as [Hx [v Hv]].
  rewrite HK'. apply list_elem_of_omap. exists x. by rewrite Hv.
Qed.
End theorems.

(** ** Samples, with the seed itself as its table *)
Definition sample_cache : Cache :=
  (GetData (fun s => s) [1] (GetData (fun s => s) [2] (GetData (fun s => s) [1] NewCache).1).1).1.

Lemma sample_cache_reachable : cache_reachable (fun s => s) sample_cache.
Proof. apply cache_get, cache_get, cache_get, cache_new. Qed.

Lemma cache_transparent_witness :
  (GetData (fun s => s) [1] sample_cache).2 = 1 :: replicate 31 0.
Proof. exact (cache_transparent (fun s => s) sample_cache [1] sample_cache_reachable). Defined.

Lemma lru_well_linked_witness : exists l : list loc, NoDup l /\ length (Keys sample_cache) = length l.
Proof.
  destruct (lru_well_linked (fun s => s) sample_cache sample_cache_reachable) as (l & H1 & _ & _ & _ & H2).
  by exists l.
Defined.

Lemma alternating_leak_witness :
  Keys (iterate 3 (alternate (fun s => s) [1] [2]) NewCache) = [[2]; [1]; [2]; [1]; [2]; [1]].
Proof. apply (alternating_leak (fun s => s) [1] [2] 3). discriminate. Defined.
