(* ===== verification/Seal.v ===== *)
(** * The proof-of-work engine

    [blockchain/nogopow/nogopow.go] and [nogopow/types.go]: headers and their encoding, the
    target of a difficulty, the checks of a seal and the search for one.  The hash is that of
    [PowHash], through the cache of [PowCache].  Keccak-256 is an argument.

    The theorems: a seal is accepted exactly when the hash times the difficulty fits in 256
    bits, through the cache and whatever its history; the search returns the first nonce that
    verifies, and returns one whenever there is one; and the encoding that is hashed loses
    nothing of the headers the chain makes. *)

From S2P Require Import Prelude Bytes Sha256 Float Matrix PowHash PowCache.
From stdpp Require Import base list gmap strings numbers.
From Stdlib Require Import ZArith Lia.

Open Scope Z_scope.
Open Scope go_scope.

(** ** Headers *)
Definition Hash : Type := list Z.
Definition Address : Type := list Z.
Definition BlockNonce : Type := list Z.
Definition zero_hash : Hash := replicate 32 0.

(** A [*big.Int] can be nil. *)
Record Header : Type := mkHeader {
  ParentHash : Hash;
  Coinbase : Address;
  Root : Hash;
  TxHash : Hash;
  Number : option Z;
  GasLimit : Z;
  Time : Z;
  Extra : list Z;
  Nonce : BlockNonce;
  Difficulty : option Z;
}.

Definition set_nonce (n : BlockNonce) (h : Header) : Header :=
  mkHeader (ParentHash h) (Coinbase h) (Root h) (TxHash h) (Number h) (GasLimit h) (Time h)
    (Extra h) n (Difficulty h).
Definition set_difficulty (d : option Z) (h : Header) : Header :=
  mkHeader (ParentHash h) (Coinbase h) (Root h) (TxHash h) (Number h) (GasLimit h) (Time h)
    (Extra h) (Nonce h) d.

(** [x.Bytes()]: the absolute value, big endian, without leading zeros. *)
Definition big_length (x : Z) : nat := if x =? 0 then 0 else S (Z.to_nat (Z.log2 (Z.abs x) / 8)).
Definition big_bytes (x : Z) : list Z := rev (le_bytes (big_length x) (Z.abs x)).
(** [new(big.Int).SetBytes(b)] *)
Definition big_of_bytes (b : list Z) : Z := le_val (rev b).
(** [x.Uint64()]; nil panics. *)
Definition big_uint64 (x : option Z) : res Z :=
  match x with
  | Some x => Val (u64 (Z.abs x))
  | None => Halt (Panic "nil pointer dereference")
  end.
(** [binary.BigEndian.PutUint64] *)
Definition be8 (x : Z) : list Z := rev (le_bytes 8 x).

Definition rlpEncode (h : Header) : list Z :=
  ParentHash h ++ Coinbase h ++ Root h ++ TxHash h
  ++ from_option big_bytes [] (Number h)
  ++ be8 (GasLimit h) ++ be8 (Time h) ++ Extra h ++ Nonce h
  ++ from_option big_bytes [] (Difficulty h).

Definition BytesToHash (b : list Z) : Hash :=
  let b := if 32 <? len b then drop (length b - 32) b else b in
  replicate (32 - length b) 0 ++ b.
Definition BigToHash (b : option Z) : Hash := from_option (fun b => BytesToHash (big_bytes b)) zero_hash b.

(** The engine's own parser of addresses: bad input is the zero address. *)
Definition StringToAddress (s : string) : Address :=
  let encoded := if (4 <=? strlen s) && String.eqb (String.substring 0 4 s) "NOGO"
                 then String.substring 4 (String.length s - 4) s else s in
  match hex_decode encoded with
  | Ok decoded => if len decoded <? 20 then replicate 20 0 else take 20 decoded
  | Err _ => replicate 20 0
  end.

(** ** Targets *)
Definition maxTarget : Z := Z.shiftl 1 256 - 1.

(** [big.Int.Div] rounds so that the remainder is not negative; by zero it panics. *)
Definition euclid_div (a b : Z) : Z := Z.sgn b * (a / Z.abs b).
Definition difficultyToTarget (difficulty : option Z) : res Z :=
  match difficulty with
  | None => Halt (Panic "nil pointer dereference")
  | Some d => if d =? 0 then Halt (Panic "division by zero") else Val (euclid_div maxTarget d)
  end.
Definition DifficultyToTarget (difficulty : option Z) : res Z := difficultyToTarget difficulty.

Definition checkPow (hash : Hash) (difficulty : option Z) : res bool :=
  res_bind (difficultyToTarget difficulty) (fun target => Val (big_of_bytes hash <=? target)).

(** [calcSeed]: the parent's hash; zero for the genesis block. *)
Definition calcSeed (h : Header) : res Hash :=
  res_bind (big_uint64 (Number h)) (fun n => Val (if n =? 0 then zero_hash else ParentHash h)).

Inductive Mode : Type := ModeNormal | ModeFake | ModeTest.
#[global] Instance Mode_eq_dec : EqDecision Mode.
Proof. solve_decision. Defined.

(** ** The engine *)
Section engine.
Variable keccak256 : list Z -> list Z.

Record NogopowEngine : Type := mkEngine { PowMode : Mode; cache : Cache; hashrate : Z }.
Definition New (mode : Mode) : NogopowEngine := mkEngine mode NewCache 0.

(** A call on the engine may fill its cache, so it returns the engine. *)
Definition E (A : Type) : Type := NogopowEngine -> res (NogopowEngine * A).

Definition HeaderHash (h : Header) : Hash := BytesToHash (keccak256 (rlpEncode h)).
Definition SealHash (h : Header) : Hash := BytesToHash (keccak256 (rlpEncode h)).

Definition computePoW (blockHash seed : Hash) (t : NogopowEngine) : NogopowEngine * Hash :=
  let '(c, cacheData) := GetData (calcSeedCache keccak256) seed (cache t) in
  let result := mulMatrixPooled keccak256 blockHash cacheData in
  (mkEngine (PowMode t) c (hashrate t), hashMatrix keccak256 result).
Definition ComputePoW := computePoW.

(** The same with a table the caller provides. *)
Definition ComputePoWWithCache (blockHash seed : Hash) (cacheData : list Z) : Hash :=
  hashMatrix keccak256 (mulMatrixPooled keccak256 blockHash cacheData).

Definition checkSolution (h : Header) (seed : Hash) : E bool := fun t =>
  let '(t, powHash) := computePoW (SealHash h) seed t in
  res_bind (checkPow powHash (Difficulty h)) (fun b => Val (t, b)).

Definition ErrInvalidSeal : error := "invalid seal".

Definition verify_hash (h : Header) (blockHash : Hash) : E (result unit) := fun t =>
  res_bind (calcSeed h) (fun seed =>
  let '(t, powHash) := computePoW blockHash seed t in
  res_bind (checkPow powHash (Difficulty h)) (fun b =>
  Val (t, if b then Ok tt else Err ErrInvalidSeal))).

Definition verifySeal (h : Header) : E (result unit) := verify_hash h (SealHash h).

Definition VerifySealWithBlockHash (h : Header) (blockHash : Hash) : E (result unit) := fun t =>
  if decide (PowMode t = ModeFake) then Val (t, Ok tt)
  else res_bind (big_uint64 (Number h)) (fun n =>
    if n =? 0 then Val (t, Ok tt) else verify_hash h blockHash t).

Definition VerifySealOnly (h : Header) : E (result unit) := fun t =>
  if decide (PowMode t = ModeFake) then Val (t, Ok tt)
  else res_bind (big_uint64 (Number h)) (fun n =>
    if n =? 0 then Val (t, Ok tt) else verifySeal h t).

Definition VerifyHeader (h : Header) (seal : bool) : E (result unit) := fun t =>
  if decide (PowMode t = ModeFake) then Val (t, Ok tt)
  else res_bind (big_uint64 (Number h)) (fun n =>
    if n =? 0 then Val (t, Ok tt) else if seal then verifySeal h t else Val (t, Ok tt)).

(** [VerifyUncles]: at most two, at the height of the block, each sealed. *)
Fixpoint verify_uncles (number : option Z) (uncles : list Header) : E (result unit) := fun t =>
  match uncles with
  | [] => Val (t, Ok tt)
  | u :: us =>
      match Number u, number with
      | Some a, Some b =>
          if negb (a =? b) then Val (t, Err ErrInvalidSeal)
          else if decide (PowMode t = ModeFake) then verify_uncles number us t
          else res_bind (verifySeal u t) (fun '(t, r) =>
            match r with
            | Ok _ => verify_uncles number us t
            | Err e => Val (t, Err e)
            end)
      | _, _ => Halt (Panic "nil pointer dereference")
      end
  end.
Definition VerifyUncles (number : option Z) (uncles : list Header) : E (result unit) := fun t =>
  if 2 <? len uncles then Val (t, Err "too many uncles") else verify_uncles number uncles t.

(** ** Batches *)
(** [VerifyHeaders]: one goroutine starts a worker per header, waits on the engine's wait group
    and closes the channel of results; it is itself counted by that wait group.  The state:
    the count, the workers started and running, the results sent and what the goroutine does;
    [outside] are the other goroutines of the engine. *)
Inductive spawner : Type := Spawning | Waiting | Closed.
Record verification : Type := mkVerification {
  wg : Z;
  outside : Z;
  started : Z;
  running : Z;
  sent : Z;
  spawner_at : spawner;
}.

Definition verify_start (others : Z) : verification := mkVerification (others + 1) others 0 0 0 Spawning.

Inductive verify_step (headers : Z) : verification -> verification -> Prop :=
| step_spawn (w x s r n : Z) : s < headers ->
    verify_step headers (mkVerification w x s r n Spawning)
      (mkVerification (w + 1) x (s + 1) (r + 1) n Spawning)
| step_worker (w x s r n : Z) (o : spawner) : 0 < r ->
    verify_step headers (mkVerification w x s r n o) (mkVerification (w - 1) x s (r - 1) (n + 1) o)
| step_wait (w x s r n : Z) : s = headers ->
    verify_step headers (mkVerification w x s r n Spawning) (mkVerification w x s r n Waiting)
| step_close (w x s r n : Z) : w = 0 ->
    verify_step headers (mkVerification w x s r n Waiting) (mkVerification (w - 1) x s r n Closed)
| step_outside_add (w x s r n : Z) (o : spawner) :
    verify_step headers (mkVerification w x s r n o) (mkVerification (w + 1) (x + 1) s r n o)
| step_outside_done (w x s r n : Z) (o : spawner) : 0 < x ->
    verify_step headers (mkVerification w x s r n o) (mkVerification (w - 1) (x - 1) s r n o).

(** ** Mining *)

(** [header.Nonce = BlockNonce{}; PutUint64(header.Nonce[:8], nonce)] *)
Definition nonce_bytes (nonce : Z) : list Z := le_bytes 8 nonce ++ replicate 24 0.

(** [mineBlock] tries the nonces from 0; [stopped n] is whether one of the two channels is
    closed when nonce [n] is tried.  [None]: stopped.  The loop has no end of its own. *)
Fixpoint mine_loop (fuel : nat) (h : Header) (seed : Hash) (stopped : Z -> bool) (nonce : Z)
    : E (option Header) := fun t =>
  match fuel with
  | O => Halt Diverge
  | S fuel' =>
      if stopped nonce then Val (t, None)
      else
        let h := set_nonce (nonce_bytes nonce) h in
        res_bind (checkSolution h seed t) (fun '(t, found) =>
          if found then Val (t, Some h)
          else
            let t := mkEngine (PowMode t) (cache t) (u64 (hashrate t + 1)) in
            mine_loop fuel' h seed stopped (u64 (nonce + 1)) t)
  end.
Definition mineBlock (fuel : nat) (h : Header) (stopped : Z -> bool) : E (option Header) := fun t =>
  res_bind (calcSeed h) (fun seed => mine_loop fuel h seed stopped 0 t).

(** [Seal] hands the block back at once in the fake and test modes, unless it is stopped. *)
Definition Seal (fuel : nat) (h : Header) (stopped : Z -> bool) : E (option Header) := fun t =>
  match PowMode t with
  | ModeFake | ModeTest => Val (t, if stopped 0 then None else Some h)
  | ModeNormal => mineBlock fuel h stopped t
  end.

(** [initAncestorFuncWithGetter]: the headers by height, from the parent back to a height
    already seen, the genesis block or an unknown hash. *)
Fixpoint ancestor_cache (fuel : nat) (getHeader : Hash -> option Header) (current : option Header)
    (m : gmap Z Header) : option (gmap Z Header) :=
  match current with
  | None => Some m
  | Some h =>
      match Number h with
      | None => Some m
      | Some n =>
          let n := u64 (Z.abs n) in
          if decide (is_Some (m !! n)) then Some m
          else
            let m := <[n := h]> m in
            if n =? 0 then Some m
            else match fuel with
                 | O => None
                 | S fuel' => ancestor_cache fuel' getHeader (getHeader (ParentHash h)) m
                 end
      end
  end.

(** ** What the engine computes *)

(** The hash of a header hash and a seed, without the cache. *)
Definition pow_of (blockHash seed : Hash) : Hash :=
  hashMatrix keccak256 (mulMatrixPooled keccak256 blockHash
    (calcSeedCache keccak256 (copy_into 32 seed))).

Definition engine_ok (t : NogopowEngine) : Prop :=
  cache_reachable (calcSeedCache keccak256) (cache t).

(** A header the engine checks: it has a number that is not 0 and a positive difficulty. *)
Definition checkable (h : Header) (d : Z) : Prop :=
  (exists n, Number h = Some n /\ u64 (Z.abs n) <> 0) /\ Difficulty h = Some d /\ 0 < d.

(** The work a seal proves: the hash times the difficulty fits in 256 bits. *)
Definition sealed (h : Header) (blockHash : Hash) (d : Z) : Prop :=
  big_of_bytes (pow_of blockHash (ParentHash h)) * d <= maxTarget.
#[global] Instance sealed_dec (h : Header) (blockHash : Hash) (d : Z) : Decision (sealed h blockHash d).
Proof. unfold sealed. apply _. Defined.

Lemma computePoW_value (blockHash seed : Hash) (t : NogopowEngine) :
  engine_ok t ->
  (computePoW blockHash seed t).2 = pow_of blockHash seed /\
  engine_ok (computePoW blockHash seed t).1 /\
  PowMode (computePoW blockHash seed t).1 = PowMode t.
Proof.
  intros Ht. unfold computePoW, engine_ok in *.
  destruct (reachable_wf _ _ Ht) as [l Hl].
  destruct (wf_GetData _ _ l seed Hl) as [_ Hv].
  pose proof (cache_get _ _ seed Ht) as Hr.
  destruct (GetData _ seed (cache t)) as [c d]. cbn [fst snd cache PowMode] in *.
  rewrite Hv. split_and!; [reflexivity|exact Hr|reflexivity].
Qed.

(** The target of a positive difficulty. *)
Lemma checkPow_iff (hash : Hash) (d : Z) :
  0 < d -> checkPow hash (Some d) = Val (bool_decide (big_of_bytes hash * d <= maxTarget)).
Proof.
  intros Hd. unfold checkPow, difficultyToTarget. destruct (Z.eqb_spec d 0); [lia|].
  cbn [res_bind]. f_equal. unfold euclid_div. rewrite Z.sgn_pos, Z.mul_1_l, Z.abs_eq by lia.
  set (x := big_of_bytes hash). apply eq_bool_prop_intro. rewrite bool_decide_spec.
  rewrite Is_true_true, Z.leb_le. pose proof (Z.mul_div_le maxTarget d).
  split; [intros; nia|intros]. apply Z.div_le_lower_bound; lia.
Qed.

Lemma calcSeed_checkable (h : Header) (d : Z) : checkable h d -> calcSeed h = Val (ParentHash h).
Proof.
  intros [(n & En & Hn) _]. unfold calcSeed, big_uint64. rewrite En. cbn.
  by destruct (Z.eqb_spec (u64 (Z.abs n)) 0).
Qed.

Lemma verify_hash_run (h : Header) (blockHash : Hash) (d : Z) (t : NogopowEngine) :
  engine_ok t -> checkable h d ->
  exists t', verify_hash h blockHash t
    = Val (t', if decide (sealed h blockHash d) then Ok tt else Err ErrInvalidSeal) /\
    engine_ok t' /\ PowMode t' = PowMode t.
Proof.
  intros Ht Hc. unfold verify_hash. rewrite (calcSeed_checkable h d Hc). cbn [res_bind].
  destruct (computePoW_value blockHash (ParentHash h) t Ht) as (Hv & Ho & Hm).
  destruct (computePoW _ _ t) as [t' p]. cbn [fst snd] in Hv, Ho, Hm. subst p. destruct Hc as (_ & Ed & Hd).
  rewrite Ed, checkPow_iff by done. exists t'. split; [|by split]. cbn [res_bind]. fold (sealed h blockHash d).
  destruct (decide (sealed h blockHash d)) as [H|H].
  - rewrite bool_decide_true by exact H. reflexivity.
  - rewrite bool_decide_false by exact H. reflexivity.
Qed.
End engine.

(** ** The bytes of a number *)
Lemma le_bytes_snoc (n : nat) (x : Z) :
  le_bytes (S n) x = le_bytes n x ++ [x / 256 ^ Z.of_nat n mod 256].
Proof.
  revert x. induction n as [|n IH]; intros x.
  - cbn. by rewrite Z.div_1_r.
  - change (le_bytes (S (S n)) x) with (x mod 256 :: le_bytes (S n) (x / 256)).
    rewrite IH. change (le_bytes (S n) x) with (x mod 256 :: le_bytes n (x / 256)). cbn [app].
    do 3 f_equal. rewrite Z.div_div by lia. f_equal. f_equal.
    rewrite Nat2Z.inj_succ, Z.pow_succ_r by lia. done.
Qed.

Lemma big_length_bounds (x : Z) : 0 < x ->
  exists n, big_length x = S n /\ 256 ^ Z.of_nat n <= x < 256 ^ Z.of_nat (S n).
Proof.
  intros Hx. unfold big_length. destruct (Z.eqb_spec x 0); [lia|]. rewrite Z.abs_eq by lia.
  exists (Z.to_nat (Z.log2 x / 8)). split; [done|]. pose proof (Z.log2_nonneg x).
  assert (0 <= Z.log2 x / 8) by (apply Z.div_pos; lia).
  rewrite Nat2Z.inj_succ, Z2Nat.id by done. change 256 with (2 ^ 8).
  rewrite <- !Z.pow_mul_r by lia. destruct (Z.log2_spec x Hx) as [Hl Hu].
  pose proof (Z.div_mod (Z.log2 x) 8). pose proof (Z.mod_pos_bound (Z.log2 x) 8). split.
  - etrans; [|exact Hl]. apply Z.pow_le_mono_r; lia.
  - eapply Z.lt_le_trans; [exact Hu|]. apply Z.pow_le_mono_r; lia.
Qed.

Lemma big_bytes_value (x : Z) : 0 <= x -> big_of_bytes (big_bytes x) = x.
Proof.
  intros Hx. unfold big_of_bytes, big_bytes. rewrite rev_involutive, Z.abs_eq by done.
  destruct (Z.eq_dec x 0) as [->|Hne]; [done|].
  destruct (big_length_bounds x) as (n & -> & Hb); [lia|]. apply le_val_bytes. lia.
Qed.

(** No leading zero. *)
Lemma big_bytes_head (x : Z) : 0 < x -> exists b l, big_bytes x = b :: l /\ b <> 0.
Proof.
  intros Hx. destruct (big_length_bounds x Hx) as (n & E & Hb). unfold big_bytes.
  rewrite E, le_bytes_snoc, rev_app_distr, Z.abs_eq by lia. cbn [rev app]. eexists _, _. split; [done|].
  set (p := 256 ^ Z.of_nat n) in *. assert (0 < p) by (apply Z.pow_pos_nonneg; lia).
  rewrite Nat2Z.inj_succ, Z.pow_succ_r in Hb by lia. fold p in Hb.
  assert (1 <= x / p) by (apply Z.div_le_lower_bound; lia).
  assert (x / p < 256) by (apply Z.div_lt_upper_bound; lia).
  rewrite Z.mod_small; lia.
Qed.

Lemma big_bytes_length (x B : Z) : 0 <= x < 256 ^ B -> 0 <= B -> Z.of_nat (length (big_bytes x)) <= B.
Proof.
  intros Hx HB. unfold big_bytes. rewrite length_rev, le_bytes_length.
  destruct (Z.eq_dec x 0) as [->|Hne]; [done|].
  destruct (big_length_bounds x) as (n & -> & Hb); [lia|].
  assert (256 ^ Z.of_nat n < 256 ^ B) as Hp by lia. apply Z.pow_lt_mono_r_iff in Hp; lia.
Qed.

(** ** The headers the chain makes *)

(** No gas limit and no extra data, hashes and nonce of their sizes, a nonce in the first
    eight bytes, a height and a difficulty that is not 0. *)
Record chain_header (h : Header) (number difficulty : Z) : Prop := {
  ch_parent : length (ParentHash h) = 32%nat;
  ch_coinbase : length (Coinbase h) = 20%nat;
  ch_root : length (Root h) = 32%nat;
  ch_txs : length (TxHash h) = 32%nat;
  ch_number : Number h = Some number /\ is_u64 number;
  ch_gas : GasLimit h = 0;
  ch_time : is_u64 (Time h);
  ch_extra : Extra h = [];
  ch_nonce : exists n, is_u64 n /\ Nonce h = nonce_bytes n;
  ch_difficulty : Difficulty h = Some difficulty /\ 0 < difficulty;
}.

(** The four hashes of fixed size come first. *)
Lemma rlpEncode_split (h : Header) (number difficulty : Z) :
  chain_header h number difficulty ->
  exists fixed, rlpEncode h = fixed ++ big_bytes number ++ be8 0 ++ be8 (Time h) ++ Nonce h
      ++ big_bytes difficulty /\
    fixed = ParentHash h ++ Coinbase h ++ Root h ++ TxHash h /\ length fixed = 116%nat.
Proof.
  intros [H1 H2 H3 H4 [H5 _] H6 _ H8 _ [H10 _]]. eexists. split_and!; [|reflexivity|].
  - unfold rlpEncode. rewrite H5, H6, H8, H10. cbn [from_option]. by rewrite <- !app_assoc.
  - rewrite !length_app, H1, H2, H3, H4. done.
Qed.

Lemma be8_length (x : Z) : length (be8 x) = 8%nat.
Proof. unfold be8. by rewrite length_rev, le_bytes_length. Qed.

Lemma nonce_bytes_length (n : Z) : length (nonce_bytes n) = 32%nat.
Proof. unfold nonce_bytes. by rewrite length_app, le_bytes_length, length_replicate. Qed.

Lemma nonce_tail (n : Z) (i : nat) : (8 <= i < 32)%nat -> nonce_bytes n !! i = Some 0.
Proof.
  intros Hi. unfold nonce_bytes. rewrite lookup_app_r by (rewrite le_bytes_length; lia).
  rewrite le_bytes_length. apply lookup_replicate_2. lia.
Qed.

(** The number of bytes of the height can be told from the whole: a longer one would push a
    zero of the nonce to the place of the first byte of the difficulty. *)
Lemma number_length (n1 n2 : list Z) (z1 z2 : list Z) (nonce : Z) (d1 d2 : list Z) (b : Z) (l : list Z) :
  length z1 = 16%nat -> length z2 = 48%nat -> d1 = b :: l -> b <> 0 -> (length n2 <= 8)%nat ->
  n1 ++ z2 ++ d1 = n2 ++ z1 ++ nonce_bytes nonce ++ d2 -> (length n1 < length n2)%nat -> False.
Proof.
  intros Hz1 Hz2 -> Hb Hn2 E Hlt.
  assert (Hl : (n1 ++ z2 ++ b :: l) !! (length n1 + 48)%nat = Some b).
  { rewrite lookup_app_r, lookup_app_r by lia.
    replace (length n1 + 48 - length n1 - length z2)%nat with 0%nat by lia. done. }
  rewrite E in Hl. rewrite lookup_app_r, lookup_app_r in Hl by lia.
  rewrite lookup_app_l in Hl by (rewrite nonce_bytes_length; lia).
  rewrite nonce_tail in Hl by lia. congruence.
Qed.

(** The encoding that is hashed for the seal loses nothing: two headers of the chain with the
    same encoding are equal, although the height and the difficulty are written without
    their lengths.  A seal therefore binds every field, up to a collision of the hash. *)
Theorem rlpEncode_injective (h1 h2 : Header) (n1 n2 d1 d2 : Z) :
  chain_header h1 n1 d1 -> chain_header h2 n2 d2 -> rlpEncode h1 = rlpEncode h2 -> h1 = h2.
Proof.
  intros H1 H2 E. destruct (rlpEncode_split _ _ _ H1) as (f1 & E1 & F1 & L1).
  destruct (rlpEncode_split _ _ _ H2) as (f2 & E2 & F2 & L2). rewrite E1, E2 in E.
  apply app_inj_1 in E as [Ef E]; [|congruence].
  destruct H1 as [P1 C1 R1 X1 [N1 B1] G1 T1 W1 (o1 & O1 & S1) [D1 Z1]].
  destruct H2 as [P2 C2 R2 X2 [N2 B2] G2 T2 W2 (o2 & O2 & S2) [D2 Z2]].
  rewrite S1, S2 in E.
  assert (Hlen : forall n, is_u64 n -> (length (big_bytes n) <= 8)%nat).
  { intros n Hn. pose proof (big_bytes_length n 8). unfold is_u64, max_u64 in Hn. lia. }
  destruct (big_bytes_head d1 Z1) as (b1 & l1 & Hd1 & Hb1).
  destruct (big_bytes_head d2 Z2) as (b2 & l2 & Hd2 & Hb2).
  assert (Hn : length (big_bytes n1) = length (big_bytes n2)).
  { destruct (Nat.lt_trichotomy (length (big_bytes n1)) (length (big_bytes n2))) as [Hlt|[Heq|Hlt]]; [|done|].
    - exfalso. eapply (number_length (big_bytes n1) (big_bytes n2) (be8 0 ++ be8 (Time h2))
        (be8 0 ++ be8 (Time h1) ++ nonce_bytes o1) o2 (big_bytes d1) (big_bytes d2)); eauto.
    - exfalso. eapply (number_length (big_bytes n2) (big_bytes n1) (be8 0 ++ be8 (Time h1))
        (be8 0 ++ be8 (Time h2) ++ nonce_bytes o2) o1 (big_bytes d2) (big_bytes d1)); eauto.
    }
  apply app_inj_1 in E as [En E]; [|done]. apply app_inj_1 in E as [_ E]; [|done].
  apply app_inj_1 in E as [Et E]; [|by rewrite !be8_length].
  apply app_inj_1 in E as [Eo Ed]; [|by rewrite !nonce_bytes_length].
  rewrite F1, F2 in Ef. apply app_inj_1 in Ef as [EP Ef]; [|congruence].
  apply app_inj_1 in Ef as [EC Ef]; [|congruence]. apply app_inj_1 in Ef as [ER EX]; [|congruence].
  assert (n1 = n2) by (rewrite <- (big_bytes_value n1), <- (big_bytes_value n2), En; unfold is_u64 in *; lia).
  assert (d1 = d2) by (rewrite <- (big_bytes_value d1), <- (big_bytes_value d2), Ed; lia).
  assert (Time h1 = Time h2).
  { apply le_bytes_u64_inj; [done..|]. unfold be8 in Et. by apply rev_inj in Et. }
  destruct h1, h2. cbn in *. congruence.
Qed.

(** The wait never ends: as long as the channel is open the count holds at least the goroutine
    that waits, so the channel of results is never closed. *)
Lemma verify_headers_never_closes (headers others : Z) (v : verification) :
  0 <= others -> rtc (verify_step headers) (verify_start others) v -> spawner_at v <> Closed.
Proof.
  intros Ho Hr.
  set (I := fun v => spawner_at v <> Closed /\ 0 <= running v /\ 0 <= outside v /\
    wg v = outside v + running v + 1).
  assert (H0 : I (verify_start others)) by (split_and!; cbn; [discriminate|lia..]).
  assert (H : I v); [|apply H]. revert H0. induction Hr as [v|v1 v2 v3 Hs _ IH]; [done|].
  intros H1. apply IH. clear IH. destruct Hs; destruct H1 as (? & ? & ? & ?); cbn in *; split_and!; cbn;
    try done; try lia.
Qed.

Section theorems.
Variable keccak256 : list Z -> list Z.

(** C16. What a seal proves: for a header with a number and a positive difficulty, and whatever
    the engine's cache has been through, [VerifySealOnly] accepts exactly when the
    proof-of-work hash of the header times the difficulty fits in 256 bits; otherwise it
    returns the error of an invalid seal.  It always returns. *)
Theorem seal_decides (h : Header) (d : Z) (t : NogopowEngine) :
  engine_ok keccak256 t -> PowMode t <> ModeFake -> checkable h d ->
  exists t', engine_ok keccak256 t' /\
    VerifySealOnly keccak256 h t = Val (t',
      if decide (big_of_bytes (pow_of keccak256 (SealHash keccak256 h) (ParentHash h)) * d <= maxTarget)
      then Ok tt else Err ErrInvalidSeal).
Proof.
  intros Ht Hm Hc. destruct (verify_hash_run keccak256 h (SealHash keccak256 h) d t Ht Hc) as (t' & E & Ht' & _).
  exists t'. split; [exact Ht'|]. unfold VerifySealOnly. rewrite decide_False by exact Hm.
  destruct Hc as [(n & En & Hn) _]. rewrite En. cbn [big_uint64 res_bind].
  destruct (Z.eqb_spec (u64 (Z.abs n)) 0); [contradiction|]. exact E.
Qed.

(** ** Mining *)
Lemma set_nonce_twice (a b : BlockNonce) (h : Header) : set_nonce a (set_nonce b h) = set_nonce a h.
Proof. done. Qed.

Lemma checkable_nonce (h : Header) (d : Z) (n : BlockNonce) : checkable h d -> checkable (set_nonce n h) d.
Proof. done. Qed.

(** The nonces that seal a header. *)
Definition solves (h : Header) (d nonce : Z) : Prop :=
  let h := set_nonce (nonce_bytes nonce) h in sealed keccak256 h (SealHash keccak256 h) d.

Lemma checkSolution_run (h : Header) (d : Z) (t : NogopowEngine) :
  engine_ok keccak256 t -> checkable h d ->
  exists t', checkSolution keccak256 h (ParentHash h) t
    = Val (t', bool_decide (sealed keccak256 h (SealHash keccak256 h) d)) /\ engine_ok keccak256 t' /\
    PowMode t' = PowMode t.
Proof.
  intros Ht (_ & Ed & Hd). unfold checkSolution.
  destruct (computePoW_value keccak256 (SealHash keccak256 h) (ParentHash h) t Ht) as (Hv & Ho & Hm).
  destruct (computePoW _ _ _ t) as [t' p]. cbn [fst snd] in Hv, Ho, Hm. subst p.
  rewrite Ed, checkPow_iff by exact Hd. exists t'. split; [reflexivity|by split].
Qed.

Lemma mine_loop_finds (h : Header) (d : Z) (stopped : Z -> bool) (n : Z) (k fuel : nat)
    (nonce : Z) (h' : Header) (t : NogopowEngine) :
  checkable h d -> is_u64 n -> solves h d n -> nonce = n - Z.of_nat k -> 0 <= nonce -> (k < fuel)%nat ->
  (forall m, nonce <= m < n -> ~ solves h d m) -> (forall m, nonce <= m <= n -> stopped m = false) ->
  (exists b, h' = set_nonce b h) -> engine_ok keccak256 t ->
  exists t', mine_loop keccak256 fuel h' (ParentHash h) stopped nonce t
    = Val (t', Some (set_nonce (nonce_bytes n) h)) /\ engine_ok keccak256 t' /\ PowMode t' = PowMode t.
Proof.
  intros Hc Hn Hs. revert fuel nonce h' t. induction k as [|k IH]; intros fuel nonce h' t Ek Hp Hf Hno Hst [b ->] Ht;
    (destruct fuel as [|fuel]; [lia|]); cbn [mine_loop]; rewrite (Hst nonce) by lia; rewrite set_nonce_twice;
    set (hn := set_nonce (nonce_bytes nonce) h);
    destruct (checkSolution_run hn d t Ht (checkable_nonce h d _ Hc)) as (t' & E & Ht' & Hm);
    change (ParentHash hn) with (ParentHash h) in E; rewrite E; cbn [res_bind].
  - assert (nonce = n) as -> by lia. rewrite bool_decide_true by exact Hs. by exists t'.
  - rewrite bool_decide_false by (apply Hno; lia).
    assert (En : u64 (nonce + 1) = nonce + 1) by (apply u64_small; unfold is_u64 in Hn; lia). rewrite En.
    destruct (IH fuel (nonce + 1) hn (mkEngine (PowMode t') (cache t') (u64 (hashrate t' + 1))))
      as (t2 & E2 & H2 & M2); try lia; [intros; apply Hno; lia|intros; apply Hst; lia|by eexists|exact Ht'|].
    exists t2. split; [exact E2|]. split; [exact H2|]. rewrite M2. exact Hm.
Qed.

(** Mining: if some nonce seals the header and nobody stops the search before the least one,
    [mineBlock] returns the header with that nonce, given at least as many rounds, and
    [VerifySealOnly] accepts what it returns. *)
Theorem mining_finds_first (h : Header) (d n : Z) (fuel : nat) (stopped : Z -> bool) (t : NogopowEngine) :
  engine_ok keccak256 t -> PowMode t = ModeNormal -> checkable h d ->
  is_u64 n -> solves h d n -> (forall m, 0 <= m < n -> ~ solves h d m) ->
  (forall m, 0 <= m <= n -> stopped m = false) -> (Z.to_nat n < fuel)%nat ->
  let sealed_header := set_nonce (nonce_bytes n) h in
  exists t' t'', Seal keccak256 fuel h stopped t = Val (t', Some sealed_header) /\
    VerifySealOnly keccak256 sealed_header t' = Val (t'', Ok tt).
Proof.
  intros Ht Hm Hc Hn Hs Hno Hst Hf sh. unfold Seal. rewrite Hm. unfold mineBlock.
  rewrite (calcSeed_checkable h d Hc). cbn [res_bind].
  destruct (mine_loop_finds h d stopped n (Z.to_nat n) fuel 0 h t Hc Hn Hs) as (t' & E & Ht' & M');
    try (unfold is_u64 in Hn; lia); [intros; apply Hno; lia|intros; apply Hst; lia| |exact Ht|].
  { exists (Nonce h). by destruct h. }
  destruct (verify_hash_run keccak256 sh (SealHash keccak256 sh) d t' Ht' (checkable_nonce h d _ Hc))
    as (t'' & E' & _ & _).
  exists t', t''. split; [exact E|]. unfold VerifySealOnly.
  rewrite decide_False by (rewrite M', Hm; discriminate).
  destruct Hc as [(x & Ex & Hx) _]. change (Number sh) with (Number h). rewrite Ex. cbn [big_uint64 res_bind].
  destruct (Z.eqb_spec (u64 (Z.abs x)) 0); [contradiction|]. unfold verifySeal. rewrite E'.
  rewrite decide_True by exact Hs. reflexivity.
Qed.

(** A difficulty of 0 stops the process: the target is a division by it. *)
Lemma zero_difficulty_panics (h : Header) (n : Z) (t : NogopowEngine) :
  PowMode t <> ModeFake -> Number h = Some n -> u64 (Z.abs n) <> 0 -> Difficulty h = Some 0 ->
  VerifySealOnly keccak256 h t = Halt (Panic "division by zero").
Proof.
  intros Hm En Hn Ed. unfold VerifySealOnly. rewrite decide_False by exact Hm. rewrite En.
  cbn [big_uint64 res_bind]. destruct (Z.eqb_spec (u64 (Z.abs n)) 0); [contradiction|].
  unfold verifySeal, verify_hash, calcSeed. rewrite En. cbn [big_uint64 res_bind].
  destruct (computePoW _ _ _ _) as [t' p]. by rewrite Ed.
Qed.

(** An easier target accepts every seal of a harder one. *)
Lemma seal_monotone (h : Header) (blockHash : Hash) (d d' : Z) :
  0 < d' <= d -> sealed keccak256 h blockHash d -> sealed keccak256 h blockHash d'.
Proof.
  unfold sealed, big_of_bytes. intros Hd. set (x := le_val _). destruct (Z.leb_spec 0 x); [nia|].
  intros _. unfold maxTarget. assert (x * d' <= 0) by nia. change (Z.shiftl 1 256 - 1) with
    115792089237316195423570985008687907853269984665640564039457584007913129639935. lia.
Qed.
End theorems.

(** ** Samples: difficulty 1, which every hash meets, with SHA-256 for Keccak-256 *)
Lemma le_val_bound (l : list Z) : Forall is_byte l -> 0 <= le_val l < 256 ^ Z.of_nat (length l).
Proof.
  induction 1 as [|b l Hb _ IH]; cbn [le_val length]; [done|].
  rewrite Nat2Z.inj_succ, Z.pow_succ_r by lia. unfold is_byte in Hb. lia.
Qed.

Lemma copy_into_bytes (n : nat) (l : list Z) :
  Forall is_byte l -> Forall is_byte (copy_into n l) /\ length (copy_into n l) = n.
Proof.
  intros Hl. unfold copy_into. split.
  - apply Forall_app. split; [by apply Forall_take|by apply Forall_replicate].
  - rewrite length_app, length_take, length_replicate. lia.
Qed.

Lemma difficulty_one (keccak256 : list Z -> list Z) (h : Header) (blockHash : Hash) :
  (forall x, Forall is_byte (keccak256 x)) -> sealed keccak256 h blockHash 1.
Proof.
  intros Hk. unfold sealed, pow_of, hashMatrix, big_of_bytes. rewrite Z.mul_1_r.
  match goal with |- le_val (rev (copy_into 32 (keccak256 ?x))) <= _ =>
    destruct (copy_into_bytes 32 (keccak256 x) (Hk x)) as [Hb Hl] end.
  apply Forall_rev in Hb. apply le_val_bound in Hb. rewrite length_rev, Hl in Hb.
  unfold maxTarget. change (Z.shiftl 1 256) with (256 ^ Z.of_nat 32). lia.
Qed.

Definition sample_header : Header :=
  mkHeader (replicate 32 7) (replicate 20 9) zero_hash zero_hash (Some 5) 0 1000 []
    (nonce_bytes 0) (Some 1).

Lemma sample_checkable : checkable sample_header 1.
Proof. split; [by exists 5|done]. Qed.

Lemma seal_decides_witness :
  exists t', VerifySealOnly sha256 sample_header (New ModeNormal) = Val (t', Ok tt).
Proof.
  destruct (seal_decides sha256 sample_header 1 (New ModeNormal)) as (t' & _ & E);
    [apply cache_new|discriminate|apply sample_checkable|].
  exists t'. rewrite E. rewrite decide_True; [reflexivity|].
  exact (difficulty_one sha256 sample_header _ sha256_range).
Defined.

Lemma mining_finds_first_witness :
  exists t', Seal sha256 1 sample_header (fun _ => false) (New ModeNormal)
    = Val (t', Some (set_nonce (nonce_bytes 0) sample_header)).
Proof.
  destruct (mining_finds_first sha256 sample_header 1 0 1 (fun _ => false) (New ModeNormal))
    as (t' & _ & E & _);
    [apply cache_new|reflexivity|apply sample_checkable|done| |lia|done|cbn; lia|by exists t'].
  exact (difficulty_one sha256 _ _ sha256_range).
Defined.

Lemma rlpEncode_injective_witness :
  rlpEncode sample_header <> rlpEncode (set_nonce (nonce_bytes 1) sample_header).
Proof.
  intros E. apply (rlpEncode_injective _ _ 5 5 1 1) in E; [discriminate E| |].
  all: split; try reflexivity; try (split; [reflexivity|done]); try done.
Defined.
