(* ===== verification/Mining.v ===== *)
(** * Mining a block

    [blockchain/core/mining.go]: [MineTransfers], which puts a block together on the tip and
    has the engine seal it, with the engine's difficulty and ancestor cache of
    [nogopow/nogopow.go].  The seal the chain's validators check is here that of [Seal].

    The theorems: a block [MineTransfers] returns passes the validation of the chain and its
    proof-of-work check, and adding it extends the chain; the difficulty it claims, although
    computed by another rule than the validators', lies within the core's tolerance, but not
    within that of the validator used for synchronisation. *)

From S2P Require Import Prelude Bytes Sha256 Config Merkle Json Transaction Ledger FeeChecker Float Difficulty Mempool Chain ForkChoice Reorg AddBlock ChainSample PowCache Seal.
From stdpp Require Import base list gmap strings numbers sorting.
From Stdlib Require Import ZArith Lia SpecFloat.

Open Scope Z_scope.
Open Scope go_scope.

(** ** The engine a chain mines with *)

(** The part of the engine [Seal] models, its parameters (nil for the fake engine) and the
    adjuster with its ancestor function. *)
Record PowEngine := mkPowEngine {
  pe_engine : NogopowEngine;
  pe_params : option ConsensusParams;
  pe_adjuster : DifficultyAdjuster
}.

Definition set_engine (t : NogopowEngine) (e : PowEngine) : PowEngine :=
  mkPowEngine t (pe_params e) (pe_adjuster e).

(** The parameters [NewDifficultyAdjuster] makes up when it gets none. *)
Definition no_policy : MonetaryPolicy := mkMonetaryPolicy 0 0 0 false 0 0 0 0 0 0 0 0 0.
Definition no_params : ConsensusParams :=
  mkConsensusParams 0 false 30 0 0 0 0 0 0 100 0 false 0 false 0 0 0 0 no_policy.

Definition New_engine (mode : Mode) (params : option ConsensusParams) : PowEngine :=
  mkPowEngine (New mode) params (NewDifficultyAdjuster (default no_params params)).
Definition NewFaker : PowEngine := New_engine ModeFake None.

(** [getPowEngine]: made on first use. *)
Definition getPowEngine (powMode : string) (p : ConsensusParams) (e : option PowEngine) : PowEngine :=
  match e with
  | Some e => e
  | None => if str_eqb powMode "fake" then NewFaker else New_engine ModeNormal (Some p)
  end.

Definition zero_nonce : BlockNonce := replicate 32 0.

(** What the adjuster reads of a header. *)
Definition adjuster_header (h : Seal.Header) : Difficulty.Header :=
  Difficulty.mkHeader (Number h) (Time h) (Seal.Difficulty h).

(** [initAncestorFuncWithGetter]: once; the function it sets reads the map it has built. *)
Definition initAncestorFuncWithGetter (fuel : nat) (getHeader : Hash -> option Seal.Header)
    (parent : Seal.Header) (e : PowEngine) : res PowEngine :=
  match getAncestor (pe_adjuster e) with
  | Some _ => Val e
  | None =>
      match ancestor_cache fuel getHeader (Some parent) ∅ with
      | None => Halt Diverge
      | Some m =>
          res_bind (big_uint64 (Number parent)) (fun _ =>
          Val (mkPowEngine (pe_engine e) (pe_params e)
                 (SetAncestorFunc (fun height => adjuster_header <$> m !! height) (pe_adjuster e))))
      end
  end.
Definition InitAncestorFuncLocked := initAncestorFuncWithGetter.

(** [NogopowEngine.CalcDifficulty]; the panic of the adjuster on a NaN ends the run. *)
Definition engine_CalcDifficulty (fuel : nat) (getHeader : Hash -> option Seal.Header) (time : Z)
    (parent : option Seal.Header) (e : PowEngine) : res (PowEngine * Z) :=
  let minDifficulty := from_option MinDifficulty 1 (pe_params e) in
  match parent with
  | None => Val (e, i64 minDifficulty)
  | Some parent =>
      match Seal.Difficulty parent with
      | None => Val (e, i64 minDifficulty)
      | Some _ =>
          res_bind (match getAncestor (pe_adjuster e), Number parent with
                    | None, Some _ => initAncestorFuncWithGetter fuel getHeader parent e
                    | _, _ => Val e
                    end) (fun e =>
          match CalcDifficulty (pe_adjuster e) time (Some (adjuster_header parent)) with
          | Err why => Halt (Panic why)
          | Ok d => res_bind (big_uint64 (Number parent)) (fun _ => Val (e, d))
          end)
      end
  end.

(** [Prepare]: the difficulty of a header from its parent's. *)
Definition Prepare (fuel : nat) (getHeader : Hash -> option Seal.Header) (h : Seal.Header)
    (e : PowEngine) : res (PowEngine * result Seal.Header) :=
  match getHeader (ParentHash h) with
  | None => Val (e, Err "parent not found")
  | Some parent =>
      res_bind (engine_CalcDifficulty fuel getHeader (Time h) (Some parent) e) (fun '(e, d) =>
      Val (e, Ok (set_difficulty (Some d) h)))
  end.

(** ** The chain *)
Section mining.
Context {S : Type} `{ChainStore S}.
Variable ed25519_verify : list Z -> list Z -> list Z -> bool.
Variable keccak256 : list Z -> list Z.
Variable network_now now : Z.
Variable range_blocks : Blocks -> list (string * BlockRef).
Variable range_forks : Forks -> list (Z * list BlockRef).
Variable range_cache : gmap string Z -> list (string * Z).
Variable grow : nat -> nat.

Implicit Types c : Chain S.

(** The engine's header of the chain's. *)
Definition engine_header (ph : PowHeader) : Seal.Header :=
  Seal.mkHeader (ph_ParentHash ph) (ph_Coinbase ph) (ph_Root ph) (ph_TxHash ph)
    (Some (ph_Number ph)) 0 (ph_Time ph) [] (ph_Nonce ph) (Some (ph_Difficulty ph)).

(** [verifyBlockPoWSeal]'s call of the engine: no error. *)
Definition engine_seal (t : NogopowEngine) (ph : PowHeader) : bool :=
  let h := engine_header ph in
  match VerifySealWithBlockHash keccak256 h (HeaderHash keccak256 h) t with
  | Val (_, Ok _) => true
  | _ => false
  end.

Definition getHeaderByHashLocked c (hash : Hash) : option Seal.Header :=
  match find_hash (hex_encode hash) (blocks c) with
  | None => None
  | Some b =>
      Some (Seal.mkHeader (BytesToHash (h_PrevHash (b_Header b)))
              (match Transaction.StringToAddress (b_MinerAddress b) with
               | Ok a => a
               | Err _ => replicate 20 0
               end)
              zero_hash zero_hash (Some (i64 (GetHeight b))) 0 (u64 (h_TimestampUnix (b_Header b)))
              [] zero_nonce (Some (h_DifficultyBits (b_Header b))))
  end.

(** The loop over the transfers: each is checked as a copy that has the chain's id when it has
    none; the sum of the fees is not used. *)
Definition with_chain_id (id : Z) (tx : Transaction) : Transaction :=
  mkTransaction (tx_Type tx) id (tx_FromPubKey tx) (tx_ToAddress tx) (tx_Amount tx) (tx_Fee tx)
    (tx_Nonce tx) (tx_Data tx) (tx_Signature tx).

Fixpoint check_transfers (id : Z) (p : ConsensusParams) (height : Z) (transfers : list Transaction)
    (fees : Z) : result Z :=
  match transfers with
  | [] => Ok fees
  | tx :: rest =>
      fail_if (negb (is_type tx TxTransfer)) "only transfer txs can be mined" ;;?
      let tx := if tx_ChainID tx =? 0 then with_chain_id id tx else tx in
      fail_if (negb (tx_ChainID tx =? id)) "wrong chainId" ;;?
      VerifyForConsensus ed25519_verify tx p height ;;?
      ValidateFee (NewFeeChecker (M:=unit) MinFee MinFeePerByte) tx ;;?
      check_transfers id p height rest (fees + tx_Fee tx)%u64
  end.

Definition coinbase_data (height minerReward genesisReward : Z) : string :=
  if height =? 1 then "Memphis"
  else "block reward (height=" +:+ dec_string height +:+ ", miner=" +:+ dec_string minerReward
       +:+ ", genesis=" +:+ dec_string genesisReward +:+ ")".

Definition mined_coinbase (minerAddress : string) (height : Z) c : Transaction :=
  let baseReward := BlockReward (monetaryPolicy c) height in
  let minerReward := (baseReward * MinerRewardShare (monetaryPolicy c) / 100)%u64 in
  let genesisReward := (baseReward * GenesisShare (monetaryPolicy c) / 100)%u64 in
  mkTransaction TxCoinbase (chainID c) None minerAddress minerReward 0 0
    (coinbase_data height minerReward genesisReward) None.

(** The header of the tip the difficulty is computed from: without its parent's hash. *)
Definition mining_parent (latest : Block) : Seal.Header :=
  Seal.mkHeader zero_hash (replicate 20 0) zero_hash zero_hash (Some (i64 (GetHeight latest))) 0
    (u64 (h_TimestampUnix (b_Header latest))) [] zero_nonce
    (Some (h_DifficultyBits (b_Header latest))).

Definition mining_time (latest : Block) : Z :=
  let t := h_TimestampUnix (b_Header latest) in
  if network_now <=? t then i64 (t + 1) else network_now.

(** The unsealed block and the header the engine gets, on the tip [latest]. *)
Definition mine_template (minerAddress : string) (transfers : list Transaction) (latest : Block) c
    (e : PowEngine) : res (PowEngine * result (Block * Seal.Header)) :=
  let prevHash := b_Hash latest in
  let height := (GetHeight latest + 1)%u64 in
  let ts := mining_time latest in
  match check_transfers (chainID c) (consensus c) height transfers 0 with
  | Err why => Val (e, Err why)
  | Ok _ =>
  if (MinerRewardShare (monetaryPolicy c) =? 0) || (InitialBlockReward (monetaryPolicy c) =? 0)
  then Val (e, Err "monetary policy not loaded correctly")
  else
  let txs := mined_coinbase minerAddress height c :: transfers in
  let fuel := Datatypes.S (length (blocks c)) in
  res_bind (InitAncestorFuncLocked fuel (getHeaderByHashLocked c) (mining_parent latest) e) (fun e =>
  res_bind (engine_CalcDifficulty fuel (getHeaderByHashLocked c) (u64 ts) (Some (mining_parent latest)) e)
    (fun '(e, nextDifficulty) =>
  Val (e,
    let? leaves := wrap "compute tx hash" (tx_hashes txs (consensus c) height) in
    let? merkleRoot := wrap "compute merkle root" (MerkleRoot leaves) in
    let? powCoinbase := wrap "invalid miner address" (Transaction.StringToAddress minerAddress) in
    let? stateRootBytes := wrap "calculate state root" (CalculateStateRoot (Chain.state c) (Chain.store c)) in
    let header := Seal.mkHeader (copy_into 32 prevHash) powCoinbase (copy_into 32 stateRootBytes)
                    (copy_into 32 merkleRoot) (Some (i64 height)) 0 (u64 ts) [] zero_nonce
                    (Some nextDifficulty) in
    Ok (mkBlock [] height
          (mkBlockHeader (blockVersionForHeight height c) prevHash ts
             (u32 (u64 (Z.abs nextDifficulty))) 0 0 stateRootBytes merkleRoot height "")
          txs None minerAddress "", header))))
  end.

(** The nonce and the hash of the sealed header. *)
Definition seal_block (b : Block) (h : Seal.Header) : Block :=
  let bh := b_Header b in
  mkBlock (HeaderHash keccak256 h) (b_Height b)
    (mkBlockHeader (h_Version bh) (h_PrevHash bh) (h_TimestampUnix bh) (h_DifficultyBits bh)
       (h_Difficulty bh) (le_val (take 8 (Nonce h))) (h_StateRoot bh) (h_MerkleRoot bh)
       (h_Height bh) (h_MinerAddress bh))
    (b_Transactions b) (b_CoinbaseTx b) (b_MinerAddress b) (b_TotalWork b).

Abbreviation should_reorg := (shouldReorgToHeaviestLocked range_forks range_cache).
Abbreviation reorganize e := (reorganizeToHeaviestLocked ed25519_verify (engine_seal (pe_engine e)) now
  range_blocks range_forks range_cache grow).

(** A heavier branch is tried first; a failure is only logged. *)
Definition reorg_first (e : PowEngine) : M (Chain S) bool :=
  let* better := should_reorg in
  if better : bool then let* _ := reorganize e in ret true else ret false.

(** The tip to mine on. *)
Definition mining_tip (reorgInProgress : bool) (e : PowEngine) : M (Chain S) (result BlockRef) :=
  let* c := get in
  match (last (blocks c) : option BlockRef) with
  | None => ret (Err "no genesis block")
  | Some latest =>
      if reorgInProgress then ret (Err "reorganization in progress (internal), cannot mine")
      else
        let* moved := reorg_first e in
        if moved : bool then
          let* c := get in
          match (last (blocks c) : option BlockRef) with
          | None => ret (Err "no genesis block after reorg")
          | Some latest => ret (Ok latest)
          end
        else ret (Ok latest)
  end.

(** After the seal: when the tip has changed, a heavier branch is tried; the block is returned
    all the same. *)
Definition finish_mining (latest : BlockRef) (newBlock : Block) (e : PowEngine)
    : M (Chain S) (result Block) :=
  let* c := get in
  match (last (blocks c) : option BlockRef) with
  | None => ret (Err "no parent block")
  | Some currentTip =>
      if negb (GetHeight currentTip =? GetHeight latest)
         || negb (str_eqb (hexhash currentTip) (hexhash latest)) then
        let* _ := reorg_first e in
        let* c := get in
        match (last (blocks c) : option BlockRef) with
        | None => halt_with (Panic "index out of range")
        | Some _ => ret (Ok newBlock)
        end
      else ret (Ok newBlock)
  end.

(** [MineTransfers].  The lock is released while the engine seals: [others] is what the rest
    of the node does to the chain meanwhile, [stopped] when the engine is told to stop and
    [cancelled] whether the wait ends by the context.  Without that, an engine that stops
    leaves the caller waiting. *)
Definition MineTransfers (minerAddress : string) (reorgInProgress : bool) (fuel : nat)
    (stopped : Z -> bool) (cancelled : bool) (others : Chain S -> Chain S)
    (transfers : list Transaction) (e : PowEngine) : M (Chain S) (PowEngine * result Block) :=
  let* r := mining_tip reorgInProgress e in
  match r with
  | Err why => ret (e, Err why)
  | Ok latest =>
      let* c := get in
      let* t := lift_res (mine_template minerAddress transfers latest c e) in
      match t with
      | (e, Err why) => ret (e, Err why)
      | (e, Ok (newBlock, header)) =>
          let* s := lift_res (Seal keccak256 fuel header stopped (pe_engine e)) in
          let e := set_engine (fst s) e in
          if cancelled then ret (e, Err "context canceled")
          else
            match snd s with
            | None => halt_with Diverge
            | Some sealedHeader =>
                modify others ;;*
                let* r := finish_mining latest (seal_block newBlock sealedHeader) e in
                ret (e, r)
            end
      end
  end.

Definition GetCurrentStateRoot c : result (list Z) := CalculateStateRoot (Chain.state c) (Chain.store c).

(** [addressesForBlock]: senders and receivers, as a set. *)
Definition tx_addresses (tx : Transaction) : list string :=
  match FromAddress tx with
  | Ok from => if str_eqb from "" then [] else [from]
  | Err _ => []
  end ++ (if str_eqb (tx_ToAddress tx) "" then [] else [tx_ToAddress tx]).
Definition addressesForBlock (b : Block) : gset string :=
  list_to_set (concat (map tx_addresses (b_Transactions b))).

End mining.

(** ** The walk over the ancestors ends

    Every step files a height that has not been seen, and the headers come from the blocks of the
    chain: one step more than there are blocks is enough. *)
Section ancestors.
Context (getHeader : Hash -> option Seal.Header) (heights : list Z).
Context (Hget : forall hash h n, getHeader hash = Some h -> Number h = Some n -> u64 (Z.abs n) ∈ heights).

Definition unseen (m : gmap Z Seal.Header) : list Z := filter (fun h => m !! h = None) heights.

Lemma unseen_insert (m : gmap Z Seal.Header) (n : Z) (h : Seal.Header) :
  n ∈ heights -> m !! n = None -> (length (unseen (<[n := h]> m)) < length (unseen m))%nat.
Proof.
  unfold unseen. intros Hin Hm.
  assert (Hle : forall l, (length (filter (fun x => <[n := h]> m !! x = None) l)
                           <= length (filter (fun x => m !! x = None) l))%nat).
  { induction l as [|x l IH]; [done|]. rewrite !filter_cons.
    repeat case_decide; cbn [length]; try lia.
    match goal with Hx : <[_ := _]> _ !! _ = None |- _ => apply lookup_insert_None in Hx as [] end. done. }
  clear Hget. induction heights as [|x l IH]; [by apply not_elem_of_nil in Hin|]. rewrite !filter_cons.
  apply elem_of_cons in Hin as [<-|Hin].
  - rewrite (decide_True (P := m !! n = None)) by done. rewrite decide_False by (by rewrite lookup_insert_eq).
    cbn [length]. specialize (Hle l). lia.
  - specialize (IH Hin). repeat case_decide; cbn [length]; try lia.
    match goal with Hx : <[_ := _]> _ !! _ = None |- _ => apply lookup_insert_None in Hx as [] end. done.
Qed.

Lemma ancestor_cache_known (fuel : nat) (current : option Seal.Header) (m : gmap Z Seal.Header) :
  (forall h n, current = Some h -> Number h = Some n -> u64 (Z.abs n) ∈ heights) ->
  (length (unseen m) <= fuel)%nat -> ancestor_cache fuel getHeader current m <> None.
Proof.
  revert current m. induction fuel as [|fuel IH]; intros [h|] m Hc Hf; try done; cbn [ancestor_cache];
    (destruct (Number h) as [n|] eqn:En; [|done]); (case_decide as Hs; [done|]);
    assert (Hm : m !! u64 (Z.abs n) = None) by (by apply eq_None_not_Some);
    pose proof (unseen_insert m (u64 (Z.abs n)) h (Hc h n eq_refl En) Hm) as Hlt; (case_match; [done|]).
  - lia.
  - apply IH; [|lia]. intros h' n' E En'. exact (Hget _ _ _ E En').
Qed.

Lemma ancestor_cache_enough (fuel : nat) (parent : Seal.Header) :
  (length heights <= fuel)%nat -> ancestor_cache (S fuel) getHeader (Some parent) ∅ <> None.
Proof.
  intros Hf. cbn [ancestor_cache]. destruct (Number parent) as [n|]; [|done]. case_decide; [done|].
  case_match; [done|]. apply ancestor_cache_known; [intros h' n' E En'; exact (Hget _ _ _ E En')|].
  etrans; [apply length_filter|exact Hf].
Qed.
End ancestors.

Lemma mining_ancestors_enough {S : Type} (c : Chain S) (parent : Seal.Header) :
  ancestor_cache (Datatypes.S (length (blocks c))) (getHeaderByHashLocked c) (Some parent) ∅ <> None.
Proof.
  apply (ancestor_cache_enough _ (map (fun b : BlockRef => u64 (Z.abs (i64 (GetHeight b)))) (blocks c)));
    [|by rewrite length_map].
  intros hash h n E En. unfold getHeaderByHashLocked, find_hash in E.
  destruct (List.find _ _) as [b|] eqn:Ef; [|done]. injection E as <-. injection En as <-.
  apply List.find_some in Ef as [Hin _]. apply list_elem_of_In, in_map_iff. by exists b.
Qed.

(** ** The miner's difficulty

    The parent header the miner hands over has no parent hash, so the ancestor cache it is
    built from holds one height. *)

(** [lia] with divisions by constants. *)
Ltac div_lia := Z.to_euclidean_division_equations; lia.

(** *** Rounding is monotone *)
Lemma rne_mono (m m' s : Z) : 0 <= s -> m <= m' -> rne m s <= rne m' s.
Proof.
  intros Hs H. unfold rne. destruct (Z.eqb_spec s 0) as [|Hn]; [done|].
  assert (Hp : 0 < 2 ^ s) by (apply Z.pow_pos_nonneg; lia).
  pose proof (Z.div_mod m (2 ^ s) ltac:(lia)). pose proof (Z.div_mod m' (2 ^ s) ltac:(lia)).
  pose proof (Z.div_le_mono m m' (2 ^ s) Hp H).
  destruct (Z.eq_dec (m / 2 ^ s) (m' / 2 ^ s)) as [E|E].
  - rewrite <- E in *. assert (m mod 2 ^ s <= m' mod 2 ^ s) by lia.
    destruct (Z.compare_spec (m mod 2 ^ s) (2 ^ (s - 1))), (Z.compare_spec (m' mod 2 ^ s) (2 ^ (s - 1)));
      try destruct (Z.even _); lia.
  - assert (m / 2 ^ s + 1 <= m' / 2 ^ s) by lia.
    destruct (Z.compare (m mod _) _), (Z.compare (m' mod _) _);
      destruct (Z.even (m / 2 ^ s)), (Z.even (m' / 2 ^ s)); lia.
Qed.

Lemma bitlen_pow (m : Z) : 0 < m -> 2 ^ (bitlen m - 1) <= m < 2 ^ bitlen m.
Proof.
  intros Hm. unfold bitlen. destruct (Z.eqb_spec m 0); [lia|].
  replace (Z.log2 m + 1 - 1) with (Z.log2 m) by lia. by apply Z.log2_spec.
Qed.

Lemma bitlen_mono (m m' : Z) : 0 <= m <= m' -> bitlen m <= bitlen m'.
Proof.
  intros H. unfold bitlen. destruct (Z.eqb_spec m 0), (Z.eqb_spec m' 0); try lia.
  - pose proof (Z.log2_nonneg m'). lia.
  - pose proof (Z.log2_le_mono m m'). lia.
Qed.

(** The value of a rounded mantissa, at the exponent before rounding. *)
Definition rounded (prec m : Z) : Z :=
  let s := Z.max 0 (bitlen m - prec) in rne m s * 2 ^ s.

Lemma rounded_mono (prec m m' : Z) : 0 < prec -> 0 <= m <= m' -> rounded prec m <= rounded prec m'.
Proof.
  intros Hp H. pose proof (bitlen_mono m m' H). unfold rounded. cbv zeta.
  set (s := Z.max 0 (bitlen m - prec)). set (s' := Z.max 0 (bitlen m' - prec)).
  assert (0 < 2 ^ s) by (apply Z.pow_pos_nonneg; lia).
  destruct (Z.eq_dec s s') as [<-|Hne]; [apply Z.mul_le_mono_nonneg_r; [lia|apply rne_mono; lia]|].
  assert (Hm' : 0 < m') by (destruct (Z.eq_dec m' 0) as [->|]; [cbn in *; lia|lia]).
  pose proof (bitlen_pow m' Hm') as [Hb _].
  assert (rne m s <= 2 ^ prec) as Hlo.
  { apply rne_le; [lia|]. rewrite <- Z.pow_add_r by lia.
    destruct (Z.eq_dec m 0) as [->|]; [apply Z.pow_nonneg; lia|].
    pose proof (bitlen_pow m ltac:(lia)) as [_ Hu]. etrans; [apply Z.lt_le_incl, Hu|].
    apply Z.pow_le_mono_r; lia. }
  assert (2 ^ (prec - 1) <= rne m' s') as Hhi.
  { apply rne_ge; [lia|]. rewrite <- Z.pow_add_r by lia. etrans; [|exact Hb].
    apply Z.pow_le_mono_r; lia. }
  transitivity (2 ^ prec * 2 ^ s); [nia|]. transitivity (2 ^ (prec - 1) * 2 ^ s').
  - rewrite <- !Z.pow_add_r by lia. apply Z.pow_le_mono_r; lia.
  - apply Z.mul_le_mono_nonneg_r; [apply Z.pow_nonneg|]; lia.
Qed.

(** The scaled difficulty in terms of rounded mantissas, and that it grows with the factor. *)
Lemma ceiling_rounded (pd mm e : Z) :
  0 <= pd < 2 ^ 32 -> 0 <= mm < 2 ^ 53 -> -53 <= e <= -52 ->
  ceiling pd mm e = rounded 64 (rounded 64 (pd * mm) * 2 ^ (e + 53) + 9007190247541737) / 2 ^ 53.
Proof.
  intros Hpd Hmm He. pose proof (product_exp pd mm e Hpd Hmm He) as Hx. unfold ceiling.
  rewrite bf_add_offset by (try (rewrite product_eq by done; cbn); lia).
  assert (Es : offset_sum (bf_m (product pd mm e)) (bf_e (product pd mm e))
               = rounded 64 (pd * mm) * 2 ^ (e + 53) + 9007190247541737).
  { unfold offset_sum, rounded. rewrite product_eq by done. cbn [bf_round bf_m bf_e].
    rewrite <- Z.mul_assoc, <- Z.pow_add_r by lia. do 3 f_equal. lia. }
  pose proof (offset_exponent (product pd mm e) (product_nonneg pd mm e Hpd Hmm He) ltac:(lia)
    ltac:(by rewrite product_eq) (product_small pd mm e Hpd Hmm He)) as Ho.
  rewrite Es in *. assert (Ep : bf_prec (product pd mm e) = 64) by by rewrite product_eq.
  rewrite Ep in *. set (n := _ + _) in *. unfold bf_int, bf_round, rounded. cbn [bf_m bf_e].
  set (s := Z.max 0 (bitlen n - 64)) in *. replace (0 <=? -53 + s) with false by lia.
  replace (2 ^ 53) with (2 ^ (- (-53 + s)) * 2 ^ s) by (rewrite <- Z.pow_add_r by lia; f_equal; lia).
  assert (0 < 2 ^ s) by (apply Z.pow_pos_nonneg; lia).
  assert (0 < 2 ^ (- (-53 + s))) by (apply Z.pow_pos_nonneg; lia).
  rewrite Z.div_mul_cancel_r by lia. done.
Qed.

Lemma ceiling_mono (pd mm mm' e : Z) :
  0 <= pd < 2 ^ 32 -> 0 <= mm <= mm' -> mm' < 2 ^ 53 -> -53 <= e <= -52 ->
  ceiling pd mm e <= ceiling pd mm' e.
Proof.
  intros Hpd Hm Hm' He. rewrite !ceiling_rounded by lia. apply Z.div_le_mono; [lia|].
  assert (0 < 2 ^ (e + 53)) by (apply Z.pow_pos_nonneg; lia).
  assert (0 <= rounded 64 (pd * mm)).
  { pose proof (rounded_mono 64 0 (pd * mm)) as Hr. change (rounded 64 0) with 0 in Hr. apply Hr; nia. }
  pose proof (rounded_mono 64 (pd * mm) (pd * mm') ltac:(lia) ltac:(nia)).
  apply rounded_mono; [lia|]. split; [nia|]. nia.
Qed.

(** *** An ancestor function that knows one height *)
Definition lonely (anc : Z -> option Difficulty.Header) : Prop :=
  exists h0, forall h, is_Some (anc h) -> h = h0.

Lemma u64_pred (x : Z) : u64 (x - 1) <> u64 x.
Proof.
  unfold u64. intros E. assert ((x - (x - 1)) mod 18446744073709551616 = 0) as Hz.
  { rewrite Zminus_mod, E, Z.sub_diag. done. }
  replace (x - (x - 1)) with 1 in Hz by lia. discriminate Hz.
Qed.

Lemma lonely_apart (anc : Z -> option Difficulty.Header) (x : Z) a b :
  lonely anc -> anc (u64 x) = Some a -> anc (u64 (x - 1)) = Some b -> False.
Proof.
  intros [h0 Hl] Ha Hb. apply (u64_pred x). transitivity h0; [|symmetry]; apply Hl; eauto.
Qed.

Section lonely.
Context (anc : Z -> option Difficulty.Header) (Hl : lonely anc).

Lemma lonely_window (height : Z) (n : nat) (i : Z) : window_diffs anc height n i = [].
Proof.
  revert i. induction n as [|n IH]; intros i; cbn [window_diffs]; [done|].
  destruct (height <? i); [done|]. rewrite IH.
  destruct (anc (u64 (height - i + 1))) eqn:Ea; [|done]. destruct (anc (u64 (height - i))) eqn:Eb; [|done].
  exfalso. eapply (lonely_apart anc (height - i + 1)); [done|exact Ea|].
  by replace (height - i + 1 - 1) with (height - i) by lia.
Qed.

Lemma lonely_integral (target height : Z) (n : nat) (i : Z) (x : float64) (count : nat) :
  integral_loop anc target height n i x count = x.
Proof.
  revert i. induction n as [|n IH]; intros i; cbn [integral_loop]; [done|].
  destruct (negb _); [done|]. destruct (anc (u64 (height - i))) eqn:Ea; [|done].
  destruct (i + 1 <? height); [|apply IH]. destruct (anc (u64 (height - i - 1))) eqn:Eb; [|apply IH].
  destruct (lonely_apart anc (height - i) _ _ Hl Ea Eb).
Qed.

Lemma lonely_smoothing (target height : Z) (n : nat) (i : Z) :
  smoothing_errors anc target height n i = [].
Proof.
  revert i. induction n as [|n IH]; intros i; cbn [smoothing_errors]; [done|].
  destruct (negb _); [done|]. destruct (anc (u64 (height - i))) eqn:Ea; [|done].
  destruct (i + 1 <? height); [|apply IH]. destruct (anc (u64 (height - i - 1))) eqn:Eb; [|apply IH].
  destruct (lonely_apart anc (height - i) _ _ Hl Ea Eb).
Qed.

(** The miner's adjuster. *)
Context (p : ConsensusParams) (Ht : BlockTimeTargetSeconds p = DefaultTargetBlockTime).
Abbreviation miner := (SetAncestorFunc anc (NewDifficultyAdjuster p)).

Definition miner_multiplier (avg : Z) : float64 :=
  clampFloat64
    (f64_add (f64_add (f64_of_Z 1)
       (f64_mul (f64_const 7 10)
          (f64_add (f64_mul defaultKp (time_error DefaultTargetBlockTime avg))
             (f64_mul defaultKi (f64_of_Z 0)))))
       (f64_mul (f64_const 3 10) (f64_of_Z 0))) minAdjust maxAdjust.

Lemma miner_time (t : Z) (parent : Difficulty.Header) :
  computeAverageBlockTime miner t parent = computeAverageBlockTime (NewDifficultyAdjuster p) t parent.
Proof.
  unfold computeAverageBlockTime. cbn [SetAncestorFunc NewDifficultyAdjuster getAncestor].
  destruct (hd_Number parent); [|done]. by rewrite lonely_window.
Qed.

Lemma miner_controller (avg n : Z) (parent : Difficulty.Header) :
  hd_Number parent = Some n -> 0 < avg ->
  controller_multiplier miner avg DefaultTargetBlockTime parent = miner_multiplier avg.
Proof.
  intros En Ha. unfold controller_multiplier, miner_multiplier, computeChainIntegral,
    calculateDoubleExponentialSmoothing, time_error.
  cbn [SetAncestorFunc NewDifficultyAdjuster getAncestor proportionalGain integralGain]. rewrite En.
  replace (avg >? 0) with true by lia. rewrite lonely_integral, lonely_smoothing.
  by destruct (u64 n =? 0).
Qed.
End lonely.

(** *** Side by side with the validators' rule *)

(** Both factors are ordinary numbers of one exponent; the miner's is the closer to one. *)
Definition factors_ok (avg : Z) : bool :=
  match bf_of_f64 (plain_multiplier avg), bf_of_f64 (miner_multiplier avg) with
  | Ok v, Ok m =>
      (0 <=? bf_m v) && (bf_m v <? 2 ^ 53) && (0 <=? bf_m m) && (bf_m m <? 2 ^ 53) &&
      (-53 <=? bf_e v) && (bf_e v <=? -52) && (bf_e m =? bf_e v) && (bf_prec v =? 53) &&
      (bf_prec m =? 53) &&
      (if avg <=? DefaultTargetBlockTime
       then (2 ^ (- bf_e v) <=? bf_m m) && (bf_m m <=? bf_m v) else true) &&
      (if DefaultTargetBlockTime <=? avg
       then (bf_m v <=? bf_m m) && (bf_m m <=? 2 ^ (- bf_e v)) else true) &&
      (if 60 <=? avg then (bf_m v =? 3 * 2 ^ 51) && (92 * 2 ^ 53 <=? 100 * bf_m m) else true)
  | _, _ => false
  end.

Lemma factors_checked : forallb factors_ok (seqZ 1 60) = true.
Proof. vm_compute. reflexivity. Qed.

Lemma factors_at (avg : Z) : 0 < avg < maxReasonableTimeDiff -> factors_ok avg = true.
Proof.
  intros H.
  assert (Hs : forall a, 1 <= a <= 60 -> factors_ok a = true).
  { intros a Ha. apply (proj1 (forallb_forall _ _) factors_checked), list_elem_of_In, elem_of_seqZ. lia. }
  destruct (Z.le_gt_cases avg 60) as [Hle|Hgt]; [apply Hs; lia|].
  pose proof (Hs 60 ltac:(lia)) as H60. unfold factors_ok, plain_multiplier, miner_multiplier in *.
  rewrite error_at in H60 |- * by lia. unfold DefaultTargetBlockTime in *.
  replace (avg <=? 30) with false by lia. replace (30 <=? avg) with true by lia.
  replace (60 <=? avg) with true by lia. exact H60.
Qed.

(** The two outcomes of the tolerance check, without divisions. *)
Lemma tolerance_ok (expected actual tol : Z) :
  expected * (100 - tol) <= 100 * actual -> 100 * actual <= expected * (100 + tol) ->
  within_tolerance expected actual tol = Ok tt.
Proof.
  intros H1 H2. unfold within_tolerance, fail_if.
  assert (expected * (100 - tol) / 100 <= actual) by (apply Z.div_le_upper_bound; lia).
  assert (actual <= expected * (100 + tol) / 100) by (apply Z.div_le_lower_bound; lia).
  replace (actual <? _) with false by lia. cbn [result_bind]. by replace (actual >? _) with false by lia.
Qed.
Lemma tolerance_high (expected actual tol : Z) :
  expected * (100 - tol) <= 100 * actual -> expected * (100 + tol) < 100 * actual ->
  within_tolerance expected actual tol = Err "difficulty too high".
Proof.
  intros H1 H2. unfold within_tolerance, fail_if.
  assert (expected * (100 - tol) / 100 <= actual) by (apply Z.div_le_upper_bound; lia).
  assert (expected * (100 + tol) / 100 < actual) by (apply Z.div_lt_upper_bound; lia).
  replace (actual <? _) with false by lia. cbn [result_bind]. by replace (actual >? _) with true by lia.
Qed.

Section side_by_side.
Context (anc : Z -> option Difficulty.Header) (Hl : lonely anc).
Context (p : ConsensusParams) (Ht : BlockTimeTargetSeconds p = DefaultTargetBlockTime).
Context (Hmin : 0 <= MinDifficulty p < 2 ^ 32).
Abbreviation miner := (SetAncestorFunc anc (NewDifficultyAdjuster p)).
Abbreviation validator := (NewDifficultyAdjuster p).

(** What the two controllers propose, before the bounds. *)
Lemma both_steps (pd avg n : Z) (parent : Difficulty.Header) :
  0 <= pd < 2 ^ 32 -> 0 < avg < maxReasonableTimeDiff -> hd_Number parent = Some n ->
  exists d d', calculateDeterministicDifficulty miner avg DefaultTargetBlockTime pd parent = Ok d /\
    calculateDeterministicDifficulty validator avg DefaultTargetBlockTime pd parent = Ok d' /\
    (avg <= 30 -> pd <= d <= d') /\ (30 <= avg -> d' <= d <= pd) /\
    (60 <= avg -> d' = (3 * pd + 3) / 4 /\ pd * 92 / 100 <= d).
Proof.
  intros Hpd Ha En. pose proof (factors_at avg Ha) as Hok. unfold factors_ok in Hok.
  unfold calculateDeterministicDifficulty.
  rewrite (miner_controller anc Hl p avg n parent En), plain_controller by lia.
  destruct (bf_of_f64 (plain_multiplier avg)) as [[mv e pr]|] eqn:Ev; [|done].
  destruct (bf_of_f64 (miner_multiplier avg)) as [[mm e' pr']|] eqn:Em; [|done].
  cbn [bf_m bf_e bf_prec] in Hok. rewrite !andb_true_iff in Hok.
  destruct Hok as [[[Hok Hfast] Hslow] H60]. destruct_and! Hok. bool_to_prop. subst pr pr' e'.
  rewrite (scaled_ceiling_eq pd mm e _ Em), (scaled_ceiling_eq pd mv e _ Ev). cbn [result_bind].
  assert (Hq : 2 ^ (- e) = 4 * 2 ^ (- e - 2)) by (apply quarter_pow; lia).
  assert (Hlo : forall m, 0 <= m < 2 ^ 53 -> 2 ^ (- e) <= m -> pd <= ceiling pd m e)
    by (intros; apply ceiling_ge; [lia..|nia]).
  assert (Hhi : forall m, 0 <= m < 2 ^ 53 -> m <= 2 ^ (- e) -> ceiling pd m e <= pd)
    by (intros; apply ceiling_le; [lia..|nia]).
  assert (Hpos : forall m, 0 <= m < 2 ^ 53 -> 0 <= ceiling pd m e)
    by (intros; apply ceiling_ge; [lia..|nia]).
  pose proof (Hpos mm ltac:(lia)). pose proof (Hpos mv ltac:(lia)).
  replace (ceiling pd mm e <? 0) with false by lia. replace (ceiling pd mv e <? 0) with false by lia.
  exists (ceiling pd mm e), (ceiling pd mv e). unfold DefaultTargetBlockTime in *.
  split_and!; [done..| | |].
  - intros. replace (avg <=? 30) with true in Hfast by lia. bool_to_prop.
    split; [apply Hlo; lia|apply ceiling_mono; lia].
  - intros. replace (30 <=? avg) with true in Hslow by lia. bool_to_prop.
    split; [apply ceiling_mono; lia|apply Hhi; lia].
  - intros. replace (60 <=? avg) with true in H60 by lia. replace (30 <=? avg) with true in Hslow by lia.
    bool_to_prop. assert (e = -53) as ->.
    { destruct (Z.eq_dec e (-52)) as [->|]; [|lia]. change (2 ^ (- -52)) with (2 ^ 52) in *. lia. }
    change (- -53 - 2) with 51 in *. change (- -53) with 53 in *. split.
    + apply ceiling_quarters; [lia..|]. change (- -53 - 2) with 51. nia.
    + apply ceiling_ge; [lia..|]. change (- -53 - 2) with 51.
      assert (100 * (pd * 92 / 100) <= pd * 92) by (apply Z.mul_div_le; lia).
      change (2 ^ 53) with (4 * 2 ^ 51) in *. nia.
Qed.

(** What they return, and how the two validators judge the miner's. *)
Lemma both_difficulties (t pd n : Z) (parent : Difficulty.Header) :
  0 <= pd < 2 ^ 32 -> hd_Number parent = Some n -> hd_Difficulty parent = Some pd ->
  exists d d', CalcDifficulty miner t (Some parent) = Ok d /\
    CalcDifficulty validator t (Some parent) = Ok d' /\
    MinDifficulty p <= d <= Z.max (MinDifficulty p) ((5 * pd + 3) / 4) /\
    within_tolerance d' d core_tolerance = Ok tt /\
    (60 <= computeAverageBlockTime validator t parent -> 40 <= pd -> MinDifficulty p <= (3 * pd + 3) / 4 ->
     within_tolerance d' d consensus_tolerance = Err "difficulty too high").
Proof.
  intros Hpd En Ed. pose proof (plain_block_time p t parent Ht) as Ha.
  destruct (both_steps pd (computeAverageBlockTime validator t parent) n parent Hpd Ha En)
    as (r & r' & Er & Er' & Hfast & Hslow & H60).
  unfold CalcDifficulty. rewrite Ed, (miner_time anc Hl p). unfold targetTime.
  change (consensusParams miner) with p. change (consensusParams validator) with p. rewrite Ht, Er, Er'.
  cbn [result_bind]. rewrite !enforceBoundary_eq by done.
  change (consensusParams miner) with p. change (consensusParams validator) with p.
  set (mn := MinDifficulty p) in *. set (avg := computeAverageBlockTime _ _ _) in *.
  set (lo := (3 * pd + 3) / 4) in *. set (hi := (5 * pd + 3) / 4) in *.
  assert (4 * lo <= 3 * pd + 3 < 4 * lo + 4) by (unfold lo; div_lia).
  assert (4 * hi <= 5 * pd + 3 < 4 * hi + 4) by (unfold hi; div_lia). clearbody lo hi mn avg.
  eexists _, _. split_and!; [reflexivity..| | | |]; [lia..| |].
  - unfold core_tolerance.
    destruct (Z.le_ge_cases avg 30) as [Hc|Hc]; [specialize (Hfast Hc)|specialize (Hslow Hc)];
      apply tolerance_ok; lia.
  - intros Hs Hpd40 Hmn. destruct (H60 Hs) as [-> H92]. specialize (Hslow ltac:(lia)).
    assert (92 * pd < 100 * r + 100) by div_lia. unfold consensus_tolerance.
    apply tolerance_high; lia.
Qed.
End side_by_side.

(** ** What the engine hands back *)
Section sealing.
Variable keccak256 : list Z -> list Z.

(** Whatever the search returns is the header with a nonce that seals it. *)
Lemma mine_loop_sound (h : Seal.Header) (d : Z) (stopped : Z -> bool) (fuel : nat) :
  checkable h d -> forall (nonce : Z) (h' : Seal.Header) (t t' : NogopowEngine) (sh : Seal.Header),
  is_u64 nonce -> (exists b, h' = set_nonce b h) -> engine_ok keccak256 t ->
  mine_loop keccak256 fuel h' (ParentHash h) stopped nonce t = Val (t', Some sh) ->
  exists n, is_u64 n /\ sh = set_nonce (nonce_bytes n) h /\ solves keccak256 h d n /\
    engine_ok keccak256 t' /\ PowMode t' = PowMode t.
Proof.
  intros Hc. induction fuel as [|fuel IH]; intros nonce h' t t' sh Hn [b ->] Ht; cbn [mine_loop]; [done|].
  destruct (stopped nonce); [discriminate|]. rewrite set_nonce_twice.
  set (hn := set_nonce (nonce_bytes nonce) h).
  destruct (checkSolution_run keccak256 hn d t Ht (checkable_nonce h d _ Hc)) as (t1 & E & Ht1 & Hm).
  change (ParentHash hn) with (ParentHash h) in E. rewrite E. cbn [res_bind]. clear E.
  case_bool_decide as Hs; intros E.
  - injection E as <- <-. exists nonce. by split_and!.
  - apply IH in E as (n & Hn' & -> & Hsn & Ht' & Hm'); [|apply u64_range|by eexists|exact Ht1].
    exists n. split_and!; [done..|]. by rewrite Hm', <- Hm.
Qed.

Lemma Seal_sound (h : Seal.Header) (d : Z) (stopped : Z -> bool) (fuel : nat) (t t' : NogopowEngine)
    (sh : Seal.Header) :
  checkable h d -> engine_ok keccak256 t -> PowMode t = ModeNormal ->
  Seal keccak256 fuel h stopped t = Val (t', Some sh) ->
  exists n, is_u64 n /\ sh = set_nonce (nonce_bytes n) h /\ solves keccak256 h d n /\
    engine_ok keccak256 t' /\ PowMode t' = ModeNormal.
Proof.
  intros Hc Ht Hm. unfold Seal. rewrite Hm. unfold mineBlock. rewrite (calcSeed_checkable h d Hc).
  cbn [res_bind]. rewrite <- Hm. apply mine_loop_sound; [done|done| |done].
  exists (Nonce h). by destruct h.
Qed.

(** The chain's check of a header with such a nonce. *)
Lemma engine_seal_ok (ph : PowHeader) (t : NogopowEngine) :
  engine_ok keccak256 t -> checkable (engine_header ph) (ph_Difficulty ph) ->
  sealed keccak256 (engine_header ph) (HeaderHash keccak256 (engine_header ph)) (ph_Difficulty ph) ->
  engine_seal keccak256 t ph = true.
Proof.
  intros Ht Hc Hs. unfold engine_seal, VerifySealWithBlockHash.
  destruct (decide (PowMode t = ModeFake)); [done|]. cbn [engine_header Number big_uint64 res_bind].
  destruct (u64 (Z.abs (ph_Number ph)) =? 0); [done|].
  destruct (verify_hash_run keccak256 _ (HeaderHash keccak256 (engine_header ph)) _ t Ht Hc) as (t' & -> & _).
  by rewrite decide_True.
Qed.
End sealing.

(** ** The engine a chain has mined with *)
Definition mining_engine (keccak256 : list Z -> list Z) (p : ConsensusParams) (e : PowEngine) : Prop :=
  engine_ok keccak256 (pe_engine e) /\ PowMode (pe_engine e) = ModeNormal /\
  (pe_adjuster e = NewDifficultyAdjuster p \/
   exists anc, lonely anc /\ pe_adjuster e = SetAncestorFunc anc (NewDifficultyAdjuster p)).

Lemma new_mining_engine (keccak256 : list Z -> list Z) (p : ConsensusParams) :
  mining_engine keccak256 p (getPowEngine "production" p None).
Proof. split_and!; [apply cache_new|done|by left]. Qed.

(** ** The template *)
Section template.
Context {S : Type} `{ChainStore S}.
Variable ed25519_verify : list Z -> list Z -> list Z -> bool.
Variable keccak256 : list Z -> list Z.
Variable network_now : Z.
Implicit Types c : Chain S.

(** The miner asks for the parent of the zero hash; no block has it. *)
Definition no_zero_hash c : Prop := find_hash (hex_encode zero_hash) (blocks c) = None.

Lemma init_ancestor_lonely c (latest : Block) (e : PowEngine) (fuel : nat) :
  no_zero_hash c -> mining_engine keccak256 (consensus c) e ->
  exists anc, lonely anc /\
    InitAncestorFuncLocked (Datatypes.S fuel) (getHeaderByHashLocked c) (mining_parent latest) e
    = Val (mkPowEngine (pe_engine e) (pe_params e)
             (SetAncestorFunc anc (NewDifficultyAdjuster (consensus c)))).
Proof.
  intros Hz (_ & _ & [Ha|(anc & Hl & Ha)]); unfold InitAncestorFuncLocked, initAncestorFuncWithGetter;
    rewrite Ha; cbn [NewDifficultyAdjuster SetAncestorFunc getAncestor].
  - assert (Hg : getHeaderByHashLocked c zero_hash = None).
    { unfold getHeaderByHashLocked, no_zero_hash in *. by rewrite Hz. }
    set (n := u64 (Z.abs (i64 (GetHeight latest)))).
    set (anc := fun height : Z => adjuster_header <$> (<[n := mining_parent latest]> ∅ : gmap Z Seal.Header) !! height).
    assert (Hl : lonely anc).
    { exists n. intros h [x Hx]. unfold anc in Hx. destruct (decide (h = n)) as [->|Hne]; [done|].
      by rewrite lookup_insert_ne, lookup_empty in Hx by done. }
    exists anc. split; [done|]. cbn [ancestor_cache mining_parent Number ParentHash]. rewrite Hg.
    change (u64 (Z.abs (i64 (GetHeight latest)))) with n.
    rewrite lookup_empty. rewrite decide_False by (intros []; done).
    destruct (n =? 0); destruct fuel; done.
  - exists anc. split; [done|]. destruct e. cbn in Ha. by subst.
Qed.

(** The difficulty of the template, next to the validators'. *)
Lemma mining_difficulty c (latest : Block) (e : PowEngine) (fuel : nat) (t : Z) :
  no_zero_hash c -> mining_engine keccak256 (consensus c) e ->
  BlockTimeTargetSeconds (consensus c) = DefaultTargetBlockTime ->
  0 <= MinDifficulty (consensus c) < 2 ^ 32 -> 0 <= h_DifficultyBits (b_Header latest) < 2 ^ 32 ->
  exists e' d d',
    res_bind (InitAncestorFuncLocked (Datatypes.S fuel) (getHeaderByHashLocked c) (mining_parent latest) e)
      (engine_CalcDifficulty (Datatypes.S fuel) (getHeaderByHashLocked c) t (Some (mining_parent latest)))
    = Val (e', d) /\
    mining_engine keccak256 (consensus c) e' /\ pe_engine e' = pe_engine e /\
    CalcDifficulty (NewDifficultyAdjuster (consensus c)) t (Some (parent_header latest)) = Ok d' /\
    MinDifficulty (consensus c) <= d
      <= Z.max (MinDifficulty (consensus c)) ((5 * h_DifficultyBits (b_Header latest) + 3) / 4) /\
    within_tolerance d' d core_tolerance = Ok tt /\
    (60 <= computeAverageBlockTime (NewDifficultyAdjuster (consensus c)) t (parent_header latest) ->
     40 <= h_DifficultyBits (b_Header latest) ->
     MinDifficulty (consensus c) <= (3 * h_DifficultyBits (b_Header latest) + 3) / 4 ->
     within_tolerance d' d consensus_tolerance = Err "difficulty too high").
Proof.
  intros Hz He Ht Hmin Hpd.
  destruct (init_ancestor_lonely c latest e fuel Hz He) as (anc & Hl & ->). cbn [res_bind].
  destruct (both_difficulties anc Hl (consensus c) Ht Hmin t _ _ (parent_header latest) Hpd eq_refl eq_refl)
    as (d & d' & Ed & Ed' & Hb & Hc & Hs).
  set (e' := mkPowEngine _ _ _). exists e', d, d'. split_and!; [| |reflexivity|exact Ed'|apply Hb|apply Hb|exact Hc|exact Hs].
  - unfold engine_CalcDifficulty. cbn [mining_parent Seal.Difficulty Number].
    change (getAncestor (pe_adjuster e')) with (Some anc). cbv beta iota. cbn [res_bind].
    change (adjuster_header _) with (parent_header latest). change (pe_adjuster e') with
      (SetAncestorFunc anc (NewDifficultyAdjuster (consensus c))). by rewrite Ed.
  - destruct He as (He1 & He2 & _). split; [exact He1|]. split; [exact He2|]. right. exists anc. split; [exact Hl|reflexivity].
Qed.

(** What the chain and the tip must be like for the validators' rules to fit the miner's. *)
Record minable (c : Chain S) (latest : Block) : Prop := {
  mn_zero : no_zero_hash c;
  mn_target : BlockTimeTargetSeconds (consensus c) = DefaultTargetBlockTime;
  mn_min : 0 < MinDifficulty (consensus c) < 2 ^ 32;
  mn_bits : 0 <= h_DifficultyBits (b_Header latest) < 2 ^ 32;
  mn_low : MinDifficultyBits (consensus c) <= MinDifficulty (consensus c);
  mn_high : Z.max (MinDifficulty (consensus c)) ((5 * h_DifficultyBits (b_Header latest) + 3) / 4)
              <= MaxDifficultyBits (consensus c) < 2 ^ 32;
  mn_height : 0 <= GetHeight latest < max_i64;
  mn_time : 0 <= h_TimestampUnix (b_Header latest) < max_i64;
  mn_now : 0 <= network_now <= max_i64;
  mn_fee : MinerFeeShare (monetaryPolicy c) = 0;
  mn_root : forall root, CalculateStateRoot (Chain.state c) (Chain.store c) = Ok root -> length root = 32%nat
}.

Lemma check_transfers_sound (id : Z) (p : ConsensusParams) (height : Z) (txs : list Transaction)
    (fees fees' : Z) :
  Forall (fun tx => tx_ChainID tx <> 0) txs ->
  check_transfers ed25519_verify id p height txs fees = Ok fees' ->
  Forall (fun tx => tx_ChainID tx = id /\ VerifyForConsensus ed25519_verify tx p height = Ok tt) txs.
Proof.
  intros Hn. revert fees. induction Hn as [|tx txs Hc _ IH]; intros fees E; [constructor|].
  cbn [check_transfers] in E. replace (tx_ChainID tx =? 0) with false in E by lia.
  inv_result. bool_to_prop. repeat match goal with v : unit |- _ => destruct v end.
  constructor; [by split|]. by eapply IH.
Qed.

(** The block and the header of the template. *)
Definition template_block (minerAddress : string) (transfers : list Transaction) (latest : Block) c
    (d : Z) (sroot root : list Z) : Block :=
  let height := (GetHeight latest + 1)%u64 in
  mkBlock [] height
    (mkBlockHeader (blockVersionForHeight height c) (b_Hash latest) (mining_time network_now latest)
       (u32 (u64 (Z.abs d))) 0 0 sroot root height "")
    (mined_coinbase minerAddress height c :: transfers) None minerAddress "".
Definition template_header (latest : Block) (d : Z) (addr sroot root : list Z) : Seal.Header :=
  Seal.mkHeader (copy_into 32 (b_Hash latest)) addr (copy_into 32 sroot) (copy_into 32 root)
    (Some (i64 (GetHeight latest + 1)%u64)) 0 (u64 (mining_time network_now latest)) [] zero_nonce (Some d).

Lemma template_inv (minerAddress : string) (transfers : list Transaction) (latest : Block) c
    (e e' : PowEngine) (nb : Block) (h : Seal.Header) :
  minable c latest -> mining_engine keccak256 (consensus c) e ->
  mine_template ed25519_verify network_now minerAddress transfers latest c e = Val (e', Ok (nb, h)) ->
  mining_engine keccak256 (consensus c) e' /\ pe_engine e' = pe_engine e /\
  exists d d' fees leaves root addr sroot,
    nb = template_block minerAddress transfers latest c d sroot root /\
    h = template_header latest d addr sroot root /\
    check_transfers ed25519_verify (chainID c) (consensus c) (GetHeight latest + 1)%u64 transfers 0 = Ok fees /\
    tx_hashes (b_Transactions nb) (consensus c) (GetHeight latest + 1)%u64 = Ok leaves /\
    MerkleRoot leaves = Ok root /\ Transaction.StringToAddress minerAddress = Ok addr /\
    CalculateStateRoot (Chain.state c) (Chain.store c) = Ok sroot /\
    CalcDifficulty (NewDifficultyAdjuster (consensus c)) (u64 (mining_time network_now latest))
      (Some (parent_header latest)) = Ok d' /\
    MinDifficulty (consensus c) <= d <= MaxDifficultyBits (consensus c) /\
    within_tolerance d' d core_tolerance = Ok tt /\
    (60 <= computeAverageBlockTime (NewDifficultyAdjuster (consensus c))
             (u64 (mining_time network_now latest)) (parent_header latest) ->
     40 <= h_DifficultyBits (b_Header latest) ->
     MinDifficulty (consensus c) <= (3 * h_DifficultyBits (b_Header latest) + 3) / 4 ->
     within_tolerance d' d consensus_tolerance = Err "difficulty too high").
Proof.
  intros Hm He. unfold mine_template. set (txs := mined_coinbase _ _ _ :: _).
  destruct (check_transfers _ _ _ _ _ _) as [fees|why] eqn:Ec; [|discriminate].
  destruct ((_ =? 0) || _); [discriminate|].
  destruct (mining_difficulty c latest e (length (blocks c)) (u64 (mining_time network_now latest)))
    as (e1 & d & d' & Er & He1 & Ee1 & Ed' & Hb & Ht & Hslow); try apply Hm; [exact He|pose proof (mn_min _ _ Hm); lia|].
  destruct (InitAncestorFuncLocked _ _ _ e) as [e0|]; [|discriminate Er]. cbn [res_bind] in Er |- *.
  rewrite Er. cbn [res_bind]. 
  destruct (tx_hashes txs _ _) as [leaves|] eqn:El; cbn [wrap result_bind]; [|discriminate].
  destruct (MerkleRoot leaves) as [root|] eqn:Em; cbn [wrap result_bind]; [|discriminate].
  destruct (Transaction.StringToAddress _) as [addr|] eqn:Ea; cbn [wrap result_bind]; [|discriminate].
  destruct (CalculateStateRoot _ _) as [sroot|] eqn:Es; cbn [wrap result_bind]; [|discriminate].
  intros E. injection E as <- <- <-. split; [exact He1|]. split; [exact Ee1|]. exists d, d', fees, leaves, root, addr, sroot. pose proof (mn_high _ _ Hm).
  split_and!; try reflexivity; try assumption; lia.
Qed.

Lemma BytesToHash_length (l : list Z) : length (BytesToHash l) = 32%nat.
Proof.
  unfold BytesToHash. rewrite length_app, length_replicate.
  case_match; [rewrite length_drop|]; bool_to_prop; unfold len in *; lia.
Qed.

Lemma mined_amount (minerAddress : string) (height : Z) c :
  is_u64 (tx_Amount (mined_coinbase minerAddress height c)).
Proof.
  cbn. unfold mul64, div64. pose proof (u64_range (BlockReward (monetaryPolicy c) height
    * MinerRewardShare (monetaryPolicy c))) as Hr. unfold is_u64 in *. split; [apply Z.div_pos; lia|].
  apply Z.div_le_upper_bound; lia.
Qed.

(** *** The sealed block, check by check *)
Section sealed_block.
Context (minerAddress : string) (transfers : list Transaction) (latest : BlockRef) (c : Chain S).
Context (Hm : minable c latest) (Hids : Forall (fun tx => tx_ChainID tx <> 0) transfers).
Context (d d' fees n : Z) (leaves : list (list Z)) (root addr sroot : list Z).
Let nb := template_block minerAddress transfers latest c d sroot root.
Let h := template_header latest d addr sroot root.
Let b := seal_block keccak256 nb (set_nonce (nonce_bytes n) h).
Context (Hn : is_u64 n).
Context (Hf : check_transfers ed25519_verify (chainID c) (consensus c) (GetHeight latest + 1)%u64 transfers 0
              = Ok fees).
Context (Hleaves : tx_hashes (b_Transactions nb) (consensus c) (GetHeight latest + 1)%u64 = Ok leaves).
Context (Hroot : MerkleRoot leaves = Ok root) (Haddr : Transaction.StringToAddress minerAddress = Ok addr).
Context (Hsroot : CalculateStateRoot (Chain.state c) (Chain.store c) = Ok sroot).
Context (Hd' : CalcDifficulty (NewDifficultyAdjuster (consensus c)) (u64 (mining_time network_now latest))
                 (Some (parent_header latest)) = Ok d').
Context (Hd : MinDifficulty (consensus c) <= d <= MaxDifficultyBits (consensus c)).
Context (Htol : within_tolerance d' d core_tolerance = Ok tt).

Lemma mined_height : GetHeight b = GetHeight latest + 1.
Proof.
  pose proof (mn_height _ _ Hm). change (GetHeight b) with (GetHeight latest + 1)%u64. apply u64_small.
  unfold is_u64, max_u64, max_i64 in *. lia.
Qed.

Lemma mined_bits : h_DifficultyBits (b_Header b) = d.
Proof.
  pose proof (mn_high _ _ Hm). pose proof (mn_min _ _ Hm). cbn. unfold u32, u64.
  rewrite Z.abs_eq, (Z.mod_small d), Z.mod_small by lia. done.
Qed.

Lemma mined_hash : length (b_Hash b) = 32%nat.
Proof. apply BytesToHash_length. Qed.

Lemma mined_header : pow_header b latest = Ok (mkPowHeader (ParentHash h) addr (Root h) (TxHash h)
  (i64 (GetHeight b)) (u64 (mining_time network_now latest)) d (nonce_bytes n)).
Proof.
  unfold pow_header. change (b_MinerAddress b) with minerAddress. rewrite Haddr, mined_bits. cbn [wrap result_bind].
  change (h_StateRoot (b_Header b)) with sroot. pose proof (mn_root _ _ Hm _ Hsroot) as Hl.
  unfold len. rewrite Hl. change (Z.of_nat 32 =? 32) with true. cbv beta iota.
  change (h_Nonce (b_Header b)) with (le_val (take 8 (nonce_bytes n))).
  unfold nonce_bytes at 1. rewrite take_app_length' by (by rewrite le_bytes_length).
  rewrite le_val_bytes by (unfold is_u64, max_u64 in Hn; cbn; lia). reflexivity.
Qed.

Lemma mined_sealed (t : NogopowEngine) :
  engine_ok keccak256 t -> solves keccak256 h d n ->
  verifyBlockPoWSeal (engine_seal keccak256 t) b (Some (latest : Block)) = Ok tt.
Proof.
  intros Ht Hs. pose proof mined_height as Hh. pose proof (mn_height _ _ Hm) as Hr.
  unfold verifyBlockPoWSeal, len. rewrite mined_hash. change (Z.of_nat 32 =? 0) with false. cbv beta iota.
  rewrite Hh. replace (GetHeight latest + 1 =? 0) with false by lia. rewrite mined_header, Hh. cbn [result_bind].
  rewrite engine_seal_ok; [done|exact Ht| |].
  - split; [|split; [done|pose proof (mn_min _ _ Hm); cbn; lia]].
    exists (i64 (GetHeight latest + 1)). split; [done|]. unfold max_i64 in Hr. rewrite i64_small by (unfold max_i64; lia).
    rewrite Z.abs_eq, u64_small by (unfold max_u64; lia). lia.
  - cbn [ph_Difficulty]. unfold solves in Hs. cbv zeta in Hs. unfold SealHash in Hs. unfold HeaderHash.
    assert (E : engine_header (mkPowHeader (ParentHash h) addr (Root h) (TxHash h) (i64 (GetHeight latest + 1))
              (u64 (mining_time network_now latest)) d (nonce_bytes n)) = set_nonce (nonce_bytes n) h).
    { unfold engine_header, h, template_header, set_nonce. cbn. do 2 f_equal. f_equal. symmetry. exact Hh. }
    rewrite E. exact Hs.
Qed.

Lemma mined_timestamp (later : Z) :
  network_now <= later -> later + MaxBlockTimeDriftSec <= max_i64 ->
  h_TimestampUnix (b_Header latest) < later + MaxBlockTimeDriftSec ->
  validateBlockTimestampLocked later b latest = Ok tt.
Proof.
  intros H1 H2 H3. pose proof (mn_time _ _ Hm) as Ht. pose proof (mn_now _ _ Hm) as Hw.
  unfold validateBlockTimestampLocked. change (h_TimestampUnix (b_Header b)) with (mining_time network_now latest).
  unfold MaxBlockTimeDriftSec, max_i64 in *. rewrite (i64_small (later + 900)) by lia.
  assert (E : h_TimestampUnix (b_Header latest) < mining_time network_now latest <= later + 900).
  { unfold mining_time. rewrite i64_small by lia. case_match; bool_to_prop; lia. }
  clearbody b nb. unfold fail_if. replace (_ <=? _) with false by lia. cbn [result_bind].
  by replace (_ >? _) with false by lia.
Qed.

Lemma mined_difficulty : validateBlockDifficultyLocked (consensus c) b latest = Ok tt.
Proof.
  pose proof (mn_low _ _ Hm). unfold validateBlockDifficultyLocked, difficulty_check. rewrite mined_bits.
  unfold fail_if. replace (d <? _) with false by lia. replace (d >? _) with false by lia. cbn [result_bind].
  destruct (negb _); [done|].
  change (h_TimestampUnix (b_Header b)) with (mining_time network_now latest). by rewrite Hd'.
Qed.

Lemma mined_merkle : validateMerkleRootLocked b c = Ok tt.
Proof.
  unfold validateMerkleRootLocked. change (GetHeight b) with (GetHeight latest + 1)%u64.
  change (b_Transactions b) with (b_Transactions nb). rewrite Hleaves. cbn [wrap result_bind]. rewrite Hroot.
  cbn [wrap result_bind]. change (h_MerkleRoot (b_Header b)) with root.
  assert (length root = 32%nat) as Hl.
  { unfold MerkleRoot, ComputeMerkleRoot in Hroot. destruct (fail_if _ _); [|discriminate Hroot]. cbn [result_bind] in Hroot.
    destruct (hash_leaves leaves); [|discriminate Hroot]. injection Hroot as <-. apply copy_into_length. }
  unfold len. rewrite Hl. cbn [fail_if result_bind]. change (Z.of_nat 32 =? 0) with false. cbn [fail_if result_bind].
  assert (bytes_eqb root root = true) as -> by by apply bytes_eqb_spec. done.
Qed.

Lemma validate_transfers (p : ConsensusParams) (height : Z) (txs : list Transaction) (i : nat) :
  Forall (fun tx => VerifyForConsensus ed25519_verify tx p height = Ok tt) txs ->
  validate_txs ed25519_verify p height i txs = Ok tt.
Proof.
  intros Hv. revert i. induction Hv as [|tx txs Hx _ IH]; intros i; cbn [validate_txs]; [done|].
  rewrite Hx. cbn [wrap]. destruct (_ && _); cbn [result_bind]; apply IH.
Qed.

Lemma mined_transactions : validateTransactionsLocked ed25519_verify b c = Ok tt.
Proof.
  unfold validateTransactionsLocked. change (GetHeight b) with (GetHeight latest + 1)%u64. cbn [validate_txs].
  change (b_Transactions b) with (mined_coinbase minerAddress (GetHeight latest + 1)%u64 c :: transfers).
  cbn [validate_txs]. change (is_type (mined_coinbase _ _ _) TxCoinbase) with true. cbn [Nat.eqb andb result_bind].
  apply validate_transfers. eapply Forall_impl; [eapply check_transfers_sound; [exact Hids|exact Hf]|].
  by intros tx [_ Hx].
Qed.

Lemma mined_reward : validateCoinbaseLocked b c = Ok tt.
Proof.
  pose proof mined_height as Hh. pose proof (mn_height _ _ Hm). unfold validateCoinbaseLocked.
  change (b_Transactions b) with (mined_coinbase minerAddress (GetHeight latest + 1)%u64 c :: transfers).
  cbv beta iota. change (is_type (mined_coinbase _ _ _) TxCoinbase) with true. cbn [negb fail_if result_bind].
  replace (GetHeight b >? 0) with true by lia. change (b_MinerAddress b) with minerAddress.
  change (tx_ToAddress (mined_coinbase _ _ _)) with minerAddress. rewrite str_eqb_refl.
  cbn [negb fail_if result_bind]. unfold coinbase_expected, MinerFeeAmount. rewrite (mn_fee _ _ Hm). cbn [Z.eqb orb].
  change (GetHeight b) with (GetHeight latest + 1)%u64. cbn [tx_Amount mined_coinbase].
  set (x := (BlockReward _ _ * _ / 100)%u64).
  assert (Hx : is_u64 x) by exact (mined_amount minerAddress (GetHeight latest + 1)%u64 c). unfold add64. rewrite Z.add_0_r, u64_small by exact Hx. by rewrite Z.eqb_refl.
Qed.

(** The rules of a connected block and those of [AddBlock]. *)
Lemma mined_validated (later : Z) (seal_valid : PowHeader -> bool) :
  network_now <= later -> later + MaxBlockTimeDriftSec <= max_i64 ->
  h_TimestampUnix (b_Header latest) < later + MaxBlockTimeDriftSec ->
  blocksByHash c !! hexhash latest = Some latest ->
  validateBlockLocked ed25519_verify seal_valid later b c = Ok tt.
Proof.
  intros H1 H2 H3 Hi. pose proof (mn_height _ _ Hm). pose proof mined_height as Hh.
  unfold validateBlockLocked. unfold len at 1. rewrite mined_hash. change (Z.of_nat 32 =? 0) with false.
  cbn [fail_if result_bind].
  change (len (b_Transactions b) =? 0) with false.
  cbn [fail_if result_bind]. replace (GetHeight b =? 0) with false by lia.
  change (hexprev b) with (hexhash latest). rewrite Hi. change (h_PrevHash (b_Header b)) with (b_Hash latest).
  assert (bytes_eqb (b_Hash latest) (b_Hash latest) = true) as -> by by apply bytes_eqb_spec.
  change (GetHeight b) with (GetHeight latest + 1)%u64. rewrite Z.eqb_refl. cbn [negb fail_if result_bind].
  rewrite mined_timestamp, mined_difficulty by done. cbn [wrap result_bind].
  rewrite mined_merkle, mined_transactions, mined_reward. cbn [wrap result_bind]. by destruct (_ >=? 2).
Qed.

Lemma mined_consensus : validateBlockConsensusLocked b c = Ok tt.
Proof.
  pose proof (mn_min _ _ Hm). unfold validateBlockConsensusLocked.
  change (b_Transactions b) with (mined_coinbase minerAddress (GetHeight latest + 1)%u64 c :: transfers).
  cbv beta iota. change (is_type (mined_coinbase _ _ _) TxCoinbase) with true. cbn [negb fail_if result_bind].
  unfold len. rewrite mined_hash, mined_bits. change (Z.of_nat 32 =? 0) with false.
  replace (d =? 0) with false by lia. cbn [fail_if result_bind].
  change (h_Version (b_Header b)) with (blockVersionForHeight (GetHeight b) c). rewrite Z.eqb_refl.
  cbn [negb fail_if result_bind existsb]. change (tx_ChainID (mined_coinbase _ _ _)) with (chainID c).
  rewrite Z.eqb_refl. cbn [negb orb]. assert (existsb (fun tx => negb (tx_ChainID tx =? chainID c)) transfers = false) as ->.
  { pose proof (check_transfers_sound _ _ _ _ _ _ Hids Hf) as Hall. apply not_true_iff_false.
    rewrite existsb_exists. intros (tx & Hin & Hx). apply (proj1 (List.Forall_forall _ _) Hall) in Hin as [E _].
    rewrite E, Z.eqb_refl in Hx. done. }
  done.
Qed.
End sealed_block.
End template.

(** ** What a mined block is worth *)
Section properties.
Context {S : Type} `{ChainStore S}.
Variable ed25519_verify : list Z -> list Z -> list Z -> bool.
Variable keccak256 : list Z -> list Z.
Variable network_now now : Z.
Variable range_blocks : Blocks -> list (string * BlockRef).
Variable range_forks : Forks -> list (Z * list BlockRef).
Variable range_times : gmap string Z -> list (string * Z).
Variable range_cache : gmap string Z -> list (string * Z).
Variable grow : nat -> nat.
Variable capacity : list Z -> Z.
Implicit Types c : Chain S.

Abbreviation tip_of := (mining_tip ed25519_verify keccak256 now range_blocks range_forks range_cache grow).
Abbreviation mine := (MineTransfers ed25519_verify keccak256 network_now now range_blocks range_forks
                        range_cache grow).
Abbreviation template := (mine_template ed25519_verify network_now).

(** A block that is returned is the sealed template of the chain at the start. *)
Lemma MineTransfers_inv (minerAddress : string) (reorging : bool) (fuel : nat) (stopped : Z -> bool)
    (cancelled : bool) (others : Chain S -> Chain S) (transfers : list Transaction) (e e' : PowEngine)
    c c1 c2 (latest : BlockRef) (b : Block) :
  tip_of reorging e c = Val (c1, Ok latest) ->
  mine minerAddress reorging fuel stopped cancelled others transfers e c = Val (c2, (e', Ok b)) ->
  exists e1 nb h t sh, template minerAddress transfers latest c1 e = Val (e1, Ok (nb, h)) /\
    Seal keccak256 fuel h stopped (pe_engine e1) = Val (t, Some sh) /\
    b = seal_block keccak256 nb sh /\ e' = set_engine t e1.
Proof.
  intros Et. unfold MineTransfers. unfold bind at 1. rewrite Et. cbn [res_bind]. rewrite bind_get. unfold bind at 1, lift_res at 1.
  destruct (template _ _ _ _ _) as [[e1 [[nb h]|why]]|] eqn:Em; cbn [res_bind]; [|discriminate..].
  unfold bind at 1, lift_res.
  destruct (Seal _ _ _ _ _) as [[t [sh|]]|] eqn:Es; cbn [res_bind fst snd]; [|destruct cancelled; discriminate|discriminate].
  destruct cancelled; [discriminate|]. unfold bind, modify, finish_mining. cbn [res_bind].
  intros E. exists e1, nb, h, t, sh. split; [done|]. split; [done|].
  unfold bind, get, ret, halt_with in E. cbn [res_bind] in E. revert E.
  destruct (last (blocks (others c1))); [|discriminate]. destruct (_ || _).
  - destruct (reorg_first _ _ _ _ _ _ _ _ _) as [[c3 x]|]; [|discriminate]. cbn [res_bind].
    destruct (last (blocks c3)); [|discriminate]. cbn [res_bind]. intros E. by injection E.
  - cbn [res_bind]. intros E. by injection E.
Qed.

Lemma template_checkable (latest : Block) c (d : Z) (addr sroot root : list Z) :
  minable network_now c latest -> 0 < d -> checkable (template_header network_now latest d addr sroot root) d.
Proof.
  intros Hm Hd. pose proof (mn_height _ _ _ Hm) as Hh. split; [|by split].
  exists (i64 (GetHeight latest + 1)%u64). split; [done|]. unfold max_i64 in Hh.
  unfold add64. rewrite (u64_small (GetHeight latest + 1)), i64_small by (unfold max_u64; lia).
  rewrite Z.abs_eq, u64_small by (unfold max_u64; lia). lia.
Qed.

(** C4. What [MineTransfers] returns is valid: whatever the chain did before settling on the tip it
    mines on and whatever it does while the engine works, the block passes the full
    validation of a connected block, the consensus check of [AddBlock] and, by any engine,
    the proof-of-work check.  The conditions: the block
    times and difficulties are in range, miners get no fees, state roots are hashes, and no
    transfer comes without a chain id. *)
Theorem mined_block_valid (minerAddress : string) (reorging : bool) (fuel : nat) (stopped : Z -> bool)
    (cancelled : bool) (others : Chain S -> Chain S) (transfers : list Transaction) (e e' : PowEngine)
    c c1 c2 (latest : BlockRef) (b : Block) (later : Z) (t : NogopowEngine)
  (Htip : tip_of reorging e c = Val (c1, Ok latest))
  (Hmine : mine minerAddress reorging fuel stopped cancelled others transfers e c = Val (c2, (e', Ok b)))
  (Hm : minable network_now c1 latest) (He : mining_engine keccak256 (consensus c1) e)
  (Hids : Forall (fun tx => tx_ChainID tx <> 0) transfers)
  (Hidx : blocksByHash c1 !! hexhash latest = Some latest)
  (Hlater : network_now <= later /\ later + MaxBlockTimeDriftSec <= max_i64 /\
            h_TimestampUnix (b_Header latest) < later + MaxBlockTimeDriftSec)
  (Ht : engine_ok keccak256 t) :
  validateBlockLocked ed25519_verify (engine_seal keccak256 t) later b c1 = Ok tt /\
  validateBlockConsensusLocked b c1 = Ok tt /\
  verifyBlockPoWSeal (engine_seal keccak256 t) b (Some (latest : Block)) = Ok tt /\
  mining_engine keccak256 (consensus c1) e'.
Proof.
  destruct (MineTransfers_inv _ _ _ _ _ _ _ _ _ _ _ _ _ _ Htip Hmine) as (e1 & nb & h & t' & sh & Em & Es & -> & ->).
  destruct (template_inv ed25519_verify keccak256 network_now _ _ _ _ _ _ _ _ Hm He Em)
    as (He1 & _ & d & d' & fees & leaves & root & addr & sroot & -> & -> & Hf & Hl & Hr & Ha & Hs & Hd' & Hd & Htol & _).
  pose proof (mn_min _ _ _ Hm) as Hpos. pose proof (mn_high _ _ _ Hm) as Hmax.
  destruct (Seal_sound keccak256 _ d _ _ _ _ _ (template_checkable latest c1 d addr sroot root Hm ltac:(lia))
              (proj1 He1) (proj1 (proj2 He1)) Es) as (n & Hn & -> & Hsolve & Ht' & Hm').
  destruct Hlater as (? & ? & ?). split_and!.
  - by eapply mined_validated.
  - by eapply mined_consensus.
  - by eapply mined_sealed.
  - split; [exact Ht'|]. split; [exact Hm'|apply He1].
Qed.

(** The tip of a chain without branches. *)
Lemma mining_tip_plain (e : PowEngine) c (tip : BlockRef) :
  last (blocks c) = Some tip -> forkBlocks c = ∅ -> tip_of false e c = Val (c, Ok tip).
Proof.
  intros Hl Hf. unfold mining_tip. rewrite bind_get, Hl. unfold reorg_first, shouldReorgToHeaviestLocked.
  unfold bind at 1 2 3, get. cbn [res_bind]. unfold canonicalTipLocked. rewrite Hl, Hf, map_size_empty. done.
Qed.

Lemma Seal_finds (h : Seal.Header) (d n : Z) (fuel : nat) (stopped : Z -> bool) (t : NogopowEngine) :
  engine_ok keccak256 t -> PowMode t = ModeNormal -> checkable h d ->
  is_u64 n -> solves keccak256 h d n -> (forall m, 0 <= m < n -> ~ solves keccak256 h d m) ->
  (forall m, 0 <= m <= n -> stopped m = false) -> (Z.to_nat n < fuel)%nat ->
  exists t', Seal keccak256 fuel h stopped t = Val (t', Some (set_nonce (nonce_bytes n) h)).
Proof.
  intros Ht Hm Hc Hn Hs Hno Hst Hf. unfold Seal. rewrite Hm. unfold mineBlock.
  rewrite (calcSeed_checkable h d Hc). cbn [res_bind].
  destruct (mine_loop_finds keccak256 h d stopped n (Z.to_nat n) fuel 0 h t Hc Hn Hs) as (t' & E & _);
    try (unfold is_u64 in Hn; lia); [intros; apply Hno; lia|intros; apply Hst; lia| |exact Ht|by exists t'].
  exists (Nonce h). by destruct h.
Qed.

Lemma MineTransfers_runs (minerAddress : string) (fuel : nat) (stopped : Z -> bool)
    (transfers : list Transaction) (e e1 : PowEngine) c (tip : BlockRef) (nb : Block) (h sh : Seal.Header)
    (t : NogopowEngine) :
  last (blocks c) = Some tip -> forkBlocks c = ∅ ->
  template minerAddress transfers tip c e = Val (e1, Ok (nb, h)) ->
  Seal keccak256 fuel h stopped (pe_engine e1) = Val (t, Some sh) ->
  mine minerAddress false fuel stopped false id transfers e c
  = Val (c, (set_engine t e1, Ok (seal_block keccak256 nb sh))).
Proof.
  intros Hl Hf Et Es. unfold MineTransfers. unfold bind at 1. rewrite (mining_tip_plain e c tip Hl Hf).
  cbn [res_bind]. rewrite bind_get. unfold bind at 1, lift_res at 1. rewrite Et. cbn [res_bind].
  unfold bind at 1, lift_res at 1. rewrite Es. cbn [res_bind fst snd].
  unfold bind, modify, finish_mining, get, ret. unfold bind. cbn [res_bind]. change (id c) with c.
  rewrite Hl, Z.eqb_refl, str_eqb_refl. reflexivity.
Qed.

(** The difficulty of a header the engine gets. *)
Definition header_difficulty (h : Seal.Header) : Z := default 0 (Seal.Difficulty h).

(** The least nonce that seals the header. *)
Definition first_solution (h : Seal.Header) (n : Z) : Prop :=
  is_u64 n /\ solves keccak256 h (header_difficulty h) n /\
  (forall m, 0 <= m < n -> ~ solves keccak256 h (header_difficulty h) m).

Lemma MineTransfers_finds (minerAddress : string) (fuel : nat) (stopped : Z -> bool)
    (transfers : list Transaction) (e e1 : PowEngine) c (tip : BlockRef) (nb : Block) (h : Seal.Header) (n : Z) :
  last (blocks c) = Some tip -> forkBlocks c = ∅ ->
  minable network_now c tip -> mining_engine keccak256 (consensus c) e ->
  template minerAddress transfers tip c e = Val (e1, Ok (nb, h)) -> first_solution h n ->
  (forall m, 0 <= m <= n -> stopped m = false) -> (Z.to_nat n < fuel)%nat ->
  exists t, mine minerAddress false fuel stopped false id transfers e c
    = Val (c, (set_engine t e1, Ok (seal_block keccak256 nb (set_nonce (nonce_bytes n) h)))).
Proof.
  intros Hl Hf Hm He Et (Hn1 & Hn2 & Hn3) Hstop Hfuel. pose proof (mn_min _ _ _ Hm) as Hpos.
  destruct (template_inv ed25519_verify keccak256 network_now _ _ _ _ _ _ _ _ Hm He Et)
    as (He1 & _ & d & _ & _ & _ & root & addr & sroot & _ & -> & _ & _ & _ & _ & _ & _ & Hd & _).
  destruct (Seal_finds _ d n fuel stopped (pe_engine e1) (proj1 He1) (proj1 (proj2 He1))
    (template_checkable tip c d addr sroot root Hm ltac:(lia)) Hn1 Hn2 Hn3 Hstop Hfuel) as [t Es].
  exists t. by apply (MineTransfers_runs _ _ _ _ _ _ _ tip _ (template_header network_now tip d addr sroot root)).
Qed.

(** C5. Mining makes progress: on an audited chain without branches and orphans, when the
    transfers can be put into a block, some nonce seals it and nobody interrupts,
    [MineTransfers] returns the block with the first such nonce and leaves the chain alone, and
    [AddBlock] of a new block whose transactions apply accepts it: the chain is longer by
    it, its work is counted and the chain is audited again. *)
Theorem mined_block_extends (minerAddress : string) (fuel : nat) (stopped : Z -> bool)
    (transfers : list Transaction) (e e1 : PowEngine) c (tip : BlockRef) (nb : Block) (h : Seal.Header)
    (n ptr : Z) (st : State)
  (b := mkRef ptr (seal_block keccak256 nb (set_nonce (nonce_bytes n) h)))
  (Hst : appends) (Hr : visits_all_forks range_forks)
  (Ha : AuditChain ed25519_verify c = Ok tt) (Hn : len (blocks c) <= max_u64)
  (Hf : forkBlocks c = ∅) (Ho : orphanByParent c = ∅) (Hts : orphanTimestamps c = ∅)
  (Hl : last (blocks c) = Some tip)
  (Hm : minable network_now c tip) (He : mining_engine keccak256 (consensus c) e)
  (Hids : Forall (fun tx => tx_ChainID tx <> 0) transfers)
  (Et : template minerAddress transfers tip c e = Val (e1, Ok (nb, h)))
  (Hnonce : first_solution h n)
  (Hstop : forall m, 0 <= m <= n -> stopped m = false) (Hfuel : (Z.to_nat n < fuel)%nat)
  (Hk : blocksByHash c !! hexhash b = None)
  (E : applyBlockToState ed25519_verify (consensus c) (monetaryPolicy c) b (genesisAddress c)
         (Chain.state c) = (st, Ok tt)) :
  exists e2 c', mine minerAddress false fuel stopped false id transfers e c = Val (c, (e2, Ok (b : Block))) /\
    AddBlock ed25519_verify (engine_seal keccak256 (pe_engine e2)) now range_blocks range_forks range_times
      range_cache grow capacity b c = Val (c', Ok true) /\
    AuditChain ed25519_verify c' = Ok tt /\ blocks c' = blocks c ++ [b] /\ Chain.state c' = st /\
    canonicalWork c' = canonicalWork c + block_work b.
Proof.
  destruct (MineTransfers_finds _ _ _ _ _ _ _ _ _ _ _ Hl Hf Hm He Et Hnonce Hstop Hfuel) as [t Erun].
  destruct (template_inv ed25519_verify keccak256 network_now _ _ _ _ _ _ _ _ Hm He Et)
    as (He1 & _ & d & d' & fees & leaves & root & addr & sroot & -> & -> & Hc & Hl' & Hr' & Ha' & Hs & Hd' & Hd & Htol & _).
  assert (Hv : validateBlockConsensusLocked b c = Ok tt) by (by eapply mined_consensus).
  assert (Hheight : GetHeight b = len (blocks c)).
  { etrans; [by apply (mined_height keccak256 network_now minerAddress transfers tip c Hm)|].
    apply audit_iff in Ha as [Hlk _]. destruct (last_Some (blocks c) tip) as [H1 _].
    destruct (H1 Hl) as [pre Epre]. rewrite (linked_height (blocks c) (length pre) tip Hlk Hn);
      rewrite Epre; [unfold len; rewrite length_app; cbn [length]; lia|]. by rewrite lookup_app_r, Nat.sub_diag. }
  exists (set_engine t e1).
  destruct (addCanonical_accepted ed25519_verify (engine_seal keccak256 t) now range_blocks range_forks range_cache
              grow b (hexhash b) (filed b c) st Hst Hr Hf Ho) as (c' & Eadd & Ec).
  { unfold strlen, hexhash. rewrite hex_encode_length. unfold b. cbn [ref_blk]. rewrite (mined_hash keccak256 network_now). lia. }
  { exact E. }
  exists c'. split; [|split; [|split]].
  - exact Erun.
  - rewrite AddBlock_new, (add_new_next _ _ _ _ _ _ _ _ _ b tip) by done. exact Eadd.
  - exact (next_audited _ b tip c c' st Ha Hl Hn (consensus_coinbase b c Hv) Hheight eq_refl E Ec).
  - unfold core in Ec. injection Ec as E1 E2 _ E3 _ _ _. split; [exact E1|]. split; [exact E2|exact E3].
Qed.

Lemma mining_time_bound (latest : Block) c :
  minable network_now c latest -> mining_time network_now latest <= max_i64.
Proof.
  intros Hm. pose proof (mn_now _ _ _ Hm) as Hn. pose proof (mn_time _ _ _ Hm) as Ht.
  unfold mining_time, max_i64 in *. rewrite i64_small by lia. case_match; lia.
Qed.

(** Without ancestors the block time is the time since the parent. *)
Lemma plain_elapsed (p : ConsensusParams) (latest : Block) (t : Z) :
  0 < h_TimestampUnix (b_Header latest) -> 0 < t - h_TimestampUnix (b_Header latest) < 3600 -> t <= max_i64 ->
  computeAverageBlockTime (NewDifficultyAdjuster p) (u64 t) (parent_header latest)
  = t - h_TimestampUnix (b_Header latest).
Proof.
  intros Hts Hd Ht. unfold computeAverageBlockTime, fallback_block_time. cbn [NewDifficultyAdjuster getAncestor].
  cbn [parent_header hd_Time hd_Number]. set (ts := h_TimestampUnix (b_Header latest)) in *. clearbody ts.
  unfold max_i64 in Ht. rewrite !u64_small, i64_small by (unfold max_u64; lia).
  unfold maxReasonableTimeDiff. replace (0 <? ts) with true by lia. replace (ts <? t) with true by lia.
  replace (0 <? t - ts) with true by lia. by replace (t - ts <? 3600) with true by lia.
Qed.

(** The validator used for synchronisation refuses honest blocks: it computes the expected
    difficulty without the ancestors, as the core does, but tolerates only 15 percent, and the miner's rule follows
    the block time less closely.  A block [MineTransfers] makes between one minute and one hour
    after its parent, at a difficulty of at least 40 that is not near the minimum, is too difficult
    for [BlockValidator.validateDifficulty]. *)
Theorem slow_block_refused (minerAddress : string) (reorging : bool) (fuel : nat) (stopped : Z -> bool)
    (cancelled : bool) (others : Chain S -> Chain S) (transfers : list Transaction) (e e' : PowEngine)
    c c1 c2 (latest : BlockRef) (b : Block)
  (Htip : tip_of reorging e c = Val (c1, Ok latest))
  (Hmine : mine minerAddress reorging fuel stopped cancelled others transfers e c = Val (c2, (e', Ok b)))
  (Hm : minable network_now c1 latest) (He : mining_engine keccak256 (consensus c1) e)
  (Hen : DifficultyEnable (consensus c1) = true) (Hts : 0 < h_TimestampUnix (b_Header latest))
  (Hslow : 60 <= mining_time network_now latest - h_TimestampUnix (b_Header latest) < 3600)
  (Hbits : 40 <= h_DifficultyBits (b_Header latest))
  (Hmn : MinDifficulty (consensus c1) <= (3 * h_DifficultyBits (b_Header latest) + 3) / 4) :
  BlockValidator_validateDifficulty (consensus c1) b (Some (latest : Block)) = Err "difficulty too high".
Proof.
  destruct (MineTransfers_inv _ _ _ _ _ _ _ _ _ _ _ _ _ _ Htip Hmine) as (e1 & nb & h & t' & sh & Em & _ & -> & _).
  destruct (template_inv ed25519_verify keccak256 network_now _ _ _ _ _ _ _ _ Hm He Em)
    as (_ & _ & d & d' & _ & _ & root & _ & sroot & -> & _ & _ & _ & _ & _ & _ & Hd' & Hd & _ & Hsl).
  pose proof (mn_height _ _ _ Hm). pose proof (mn_time _ _ _ Hm). pose proof (mn_low _ _ _ Hm).
  set (b := seal_block _ _ sh).
  assert (Hh : GetHeight b = GetHeight latest + 1)
    by exact (mined_height keccak256 network_now minerAddress transfers latest c1 Hm d 0 root [] sroot).
  assert (Eb : h_DifficultyBits (b_Header b) = d)
    by exact (mined_bits keccak256 network_now minerAddress transfers latest c1 Hm d 0 root [] sroot Hd).
  unfold BlockValidator_validateDifficulty, difficulty_check. rewrite Hh, Eb.
  replace (GetHeight latest + 1 =? 0) with false by lia. unfold fail_if.
  replace (d <? _) with false by lia. replace (d >? _) with false by lia. cbn [result_bind].
  rewrite Hen. cbn [negb]. change (h_TimestampUnix (b_Header b)) with (mining_time network_now latest). rewrite Hd'.
  cbn [result_bind]. apply Hsl; [|exact Hbits|exact Hmn].
  rewrite plain_elapsed; [lia|lia|lia|]. exact (mining_time_bound latest c1 Hm).
Qed.

(** A transfer without a chain id is checked as if it had the chain's, but the block gets it as it
    was: such a block is refused by [AddBlock]. *)
Lemma zero_chain_id_refused (minerAddress : string) (reorging : bool) (fuel : nat) (stopped : Z -> bool)
    (cancelled : bool) (others : Chain S -> Chain S) (transfers : list Transaction) (e e' : PowEngine)
    c c1 c2 (latest : BlockRef) (b : Block) (tx : Transaction) :
  tip_of reorging e c = Val (c1, Ok latest) ->
  mine minerAddress reorging fuel stopped cancelled others transfers e c = Val (c2, (e', Ok b)) ->
  minable network_now c1 latest -> mining_engine keccak256 (consensus c1) e ->
  tx ∈ transfers -> tx_ChainID tx = 0 -> chainID c1 <> 0 ->
  validateBlockConsensusLocked b c1 = Err "transaction has wrong chainId".
Proof.
  intros Htip Hmine Hm He Hin H0 Hid.
  destruct (MineTransfers_inv _ _ _ _ _ _ _ _ _ _ _ _ _ _ Htip Hmine) as (e1 & nb & h & t' & sh & Em & _ & -> & _).
  destruct (template_inv ed25519_verify keccak256 network_now _ _ _ _ _ _ _ _ Hm He Em)
    as (_ & _ & d & d' & _ & _ & root & _ & sroot & -> & _ & _ & _ & _ & _ & _ & _ & Hd & _ & _).
  pose proof (mn_min _ _ _ Hm). unfold validateBlockConsensusLocked. set (b := seal_block _ _ sh).
  assert (Eb : h_DifficultyBits (b_Header b) = d)
    by exact (mined_bits keccak256 network_now minerAddress transfers latest c1 Hm d 0 root [] sroot Hd).
  assert (Hl : (len (b_Hash b) =? 0) = false).
  { unfold len. change (b_Hash b) with (BytesToHash (keccak256 (rlpEncode sh))). by rewrite BytesToHash_length. }
  change (b_Transactions b) with (mined_coinbase minerAddress (GetHeight latest + 1)%u64 c1 :: transfers).
  cbv beta iota. change (is_type (mined_coinbase _ _ _) TxCoinbase) with true. rewrite Hl, Eb.
  replace (d =? 0) with false by lia. cbn [negb fail_if result_bind].
  change (h_Version (b_Header b)) with (blockVersionForHeight (GetHeight b) c1). rewrite Z.eqb_refl.
  cbn [negb fail_if result_bind existsb]. replace (existsb _ transfers) with true; [by rewrite orb_true_r|].
  symmetry. apply existsb_exists. exists tx. split; [by apply list_elem_of_In|]. rewrite H0. lia.
Qed.

(** The miner's share of the fees, which the validators ask for, is not in the coinbase. *)
Lemma fee_share_refused (minerAddress : string) (transfers : list Transaction) (latest : Block) c
    (d : Z) (sroot root : list Z) (sh : Seal.Header) :
  0 <= GetHeight latest < max_i64 ->
  0 < MinerFeeAmount (monetaryPolicy c) (sum_fees transfers) <= max_u64 ->
  validateCoinbaseLocked (seal_block keccak256 (template_block network_now minerAddress transfers latest c d sroot root) sh) c
  = Err "bad coinbase amount".
Proof.
  intros Hr Hfee. set (b := seal_block _ _ _). assert (Eh : (GetHeight b >? 0) = true).
  { change (GetHeight b) with (u64 (GetHeight latest + 1)). unfold max_i64 in Hr.
    rewrite u64_small by (unfold max_u64; lia). lia. }
  unfold validateCoinbaseLocked.
  change (b_Transactions b) with (mined_coinbase minerAddress (GetHeight latest + 1)%u64 c :: transfers).
  cbv beta iota. change (is_type (mined_coinbase _ _ _) TxCoinbase) with true. cbn [negb fail_if result_bind].
  rewrite Eh. change (b_MinerAddress b) with minerAddress.
  change (tx_ToAddress (mined_coinbase _ _ _)) with minerAddress. rewrite str_eqb_refl.
  cbn [negb fail_if result_bind]. unfold coinbase_expected. change (GetHeight b) with (GetHeight latest + 1)%u64.
  cbn [tx_Amount mined_coinbase]. set (f := MinerFeeAmount _ _) in *.
  set (x := (BlockReward _ _ * _ / 100)%u64).
  assert (Hx : is_u64 x) by exact (mined_amount minerAddress (GetHeight latest + 1)%u64 c).
  clearbody x f. unfold add64, u64, is_u64, max_u64 in *.
  assert (E : (x =? (x + f) mod 18446744073709551616) = false); [|by rewrite E].
  apply Z.eqb_neq. intros E. pose proof (Z.mod_eq (x + f) 18446744073709551616 ltac:(lia)). lia.
Qed.
End properties.

(** ** Samples: a chain of a genesis block, with a store whose state roots are hashes *)
#[local] Instance rooted_store : ChainStore bool := {|
  AppendCanonical _ s := (s, Ok tt);
  PutBlock _ s := (s, Ok tt);
  RewriteCanonical _ s := (s, Ok tt);
  PutAccount _ _ s := (s, Ok tt);
  CalculateStateRoot _ _ := Ok (replicate 32 9);
  Snapshot _ _ _ s := (s, Ok tt);
  PutCheckpointEntry _ _ s := (s, Ok tt)
|}.

Definition start (bits : Z) : BlockRef := mkRef 0 (sample_block 1 0 1700000000 bits 0 1000000).
Definition start_state : State :=
  Eval vm_compute in fst (recomputeState accept_all main_params main_policy fund_addr [ref_blk (start 1)]).
Definition young (bits : Z) : Chain bool :=
  mkChain 1 fund_addr main_params main_policy true [start bits] (by_hash [start bits]) start_state
    (hexhash (start bits)) bits ∅ ∅ ∅ ∅ ∅ ∅ ∅ [] true ∅ ∅ ∅ ∅ None 0 0 (0, 0) [].
Definition fresh_engine : PowEngine := getPowEngine "production" main_params None.
Definition a_minute_later : Z := 1700000060.

Definition young_template (bits : Z) : res (PowEngine * result (Block * Seal.Header)) :=
  mine_template accept_all a_minute_later miner_addr [] (start bits) (young bits) fresh_engine.
Definition first_nonce (keccak256 : list Z -> list Z) (nb : Block) (h : Seal.Header) : Block :=
  seal_block keccak256 nb (set_nonce (nonce_bytes 0) h).

(** A hash function whose every value is 1 as a number: any nonce seals. *)
Definition tiny_digest (_ : list Z) : list Z := replicate 31 0 ++ [1].

Lemma tiny_sealed (h : Seal.Header) (blockHash : Hash) (d : Z) : d < 2 ^ 32 -> sealed tiny_digest h blockHash d.
Proof.
  intros Hd. unfold sealed, pow_of, PowHash.hashMatrix. unfold tiny_digest at 1.
  change (big_of_bytes (copy_into 32 (replicate 31 0 ++ [1]))) with 1. rewrite Z.mul_1_l.
  change maxTarget with (2 ^ 256 - 1). assert (2 ^ 32 <= 2 ^ 256 - 1) by done. lia.
Qed.

Lemma tiny_solves (h : Seal.Header) (d n : Z) : d < 2 ^ 32 -> solves tiny_digest h d n.
Proof. apply tiny_sealed. Qed.

Definition young_applies : bool :=
  match young_template 100 with
  | Val (_, Ok (nb, h)) =>
      let b := first_nonce tiny_digest nb h in
      (header_difficulty h <? 2 ^ 32) &&
      is_ok (snd (applyBlockToState accept_all main_params main_policy b fund_addr start_state)) &&
      bool_decide (by_hash [start 100] !! hexhash b = None)
  | _ => false
  end.
Lemma young_applies_ok : young_applies = true.
Proof. vm_cast_no_check (eq_refl true). Qed.

(** The template of the sample, and the run of [MineTransfers] on it. *)
Lemma young_mined :
  exists e1 nb h st, young_template 100 = Val (e1, Ok (nb, h)) /\ header_difficulty h < 2 ^ 32 /\
    applyBlockToState accept_all main_params main_policy (first_nonce tiny_digest nb h) fund_addr start_state
      = (st, Ok tt) /\
    by_hash [start 100] !! hexhash (first_nonce tiny_digest nb h) = None.
Proof.
  pose proof young_applies_ok as H. unfold young_applies in H.
  destruct (young_template 100) as [[e1 [[nb h]|]]|]; [|discriminate H..].
  apply andb_prop in H as [H Hk]. apply andb_prop in H as [Hd Hs]. apply bool_decide_eq_true in Hk.
  exists e1, nb, h. destruct (applyBlockToState _ _ _ _ _ _) as [st [[]|why]]; [|discriminate Hs].
  exists st. split; [reflexivity|]. split; [lia|]. split; [reflexivity|exact Hk].
Qed.

Lemma young_minable : minable a_minute_later (young 100) (start 100).
Proof.
  split; try reflexivity; try (vm_compute; split; congruence); try (vm_compute; congruence).
  intros root E. injection E as <-. reflexivity.
Qed.

Lemma young_audited : AuditChain accept_all (young 100) = Ok tt.
Proof.
  apply audit_iff. split; [by split_and!|]. vm_cast_no_check (eq_refl (start_state, @Ok unit tt)).
Qed.

Abbreviation young_mine := (MineTransfers accept_all tiny_digest a_minute_later 0 map_to_list map_to_list
  map_to_list dup miner_addr false 1 (fun _ => false) false id [] fresh_engine (young 100)).

Lemma young_engine : mining_engine tiny_digest (consensus (young 100)) fresh_engine.
Proof. exact (new_mining_engine tiny_digest main_params). Qed.

Lemma rooted_appends : @appends bool _.
Proof. by intros x s. Qed.

Lemma tiny_first (h : Seal.Header) : header_difficulty h < 2 ^ 32 -> first_solution tiny_digest h 0.
Proof. intros Hd. split; [done|]. split; [by apply tiny_solves|lia]. Qed.

Lemma young_runs : exists e2 b, young_mine = Val (young 100, (e2, Ok b)).
Proof.
  destruct young_mined as (e1 & nb & h & st & Et & Hd & _).
  destruct (MineTransfers_finds accept_all tiny_digest a_minute_later 0 map_to_list map_to_list map_to_list dup
    miner_addr 1 (fun _ => false) [] fresh_engine e1 (young 100) (start 100) nb h 0 eq_refl eq_refl young_minable
    young_engine Et (tiny_first h Hd) (fun _ _ => eq_refl) (le_n 1)) as [t E].
  eexists _, _. exact E.
Qed.

Lemma young_tip :
  mining_tip accept_all tiny_digest 0 map_to_list map_to_list map_to_list dup false fresh_engine (young 100)
  = Val (young 100, Ok (start 100)).
Proof. by apply mining_tip_plain. Qed.

Lemma mined_block_valid_witness :
  exists e2 b, young_mine = Val (young 100, (e2, Ok b)) /\
    validateBlockLocked accept_all (engine_seal tiny_digest (New ModeNormal)) a_minute_later b (young 100) = Ok tt.
Proof.
  destruct young_runs as (e2 & b & E). exists e2, b. split; [exact E|].
  apply (mined_block_valid accept_all tiny_digest a_minute_later 0 map_to_list map_to_list map_to_list dup
    miner_addr false 1 (fun _ => false) false id [] fresh_engine e2 (young 100) (young 100) (young 100) (start 100) b
    a_minute_later (New ModeNormal) young_tip E young_minable young_engine
    (Forall_nil_2 _) eq_refl); [|apply cache_new].
  split_and!; vm_compute; congruence.
Defined.

Lemma mined_block_extends_witness :
  exists b e2 c', young_mine = Val (young 100, (e2, Ok (ref_blk b))) /\
    AddBlock accept_all (engine_seal tiny_digest (pe_engine e2)) 0 map_to_list map_to_list map_to_list map_to_list
      dup (fun l => len l) b (young 100) = Val (c', Ok true) /\ blocks c' = [start 100; b].
Proof.
  destruct young_mined as (e1 & nb & h & st & Et & Hd & Ea & Hk). eexists (mkRef 1 (first_nonce tiny_digest nb h)).
  destruct (mined_block_extends accept_all tiny_digest a_minute_later 0 map_to_list map_to_list map_to_list map_to_list
    dup (fun l => len l) miner_addr 1 (fun _ => false) [] fresh_engine e1 (young 100) (start 100) nb h 0 1 st
    rooted_appends (fun m => reflexivity (map_to_list m)) young_audited ltac:(vm_compute; congruence)
    eq_refl eq_refl eq_refl eq_refl young_minable young_engine (Forall_nil_2 _) Et (tiny_first h Hd)
    (fun _ _ => eq_refl) (le_n 1) Hk Ea) as (e2 & c' & E1 & E2 & _ & E3 & _).
  exists e2, c'. split; [exact E1|]. split; [exact E2|exact E3].
Defined.

Lemma slow_block_refused_witness :
  exists e2 b, young_mine = Val (young 100, (e2, Ok b)) /\
    BlockValidator_validateDifficulty main_params b (Some (ref_blk (start 100))) = Err "difficulty too high".
Proof.
  destruct young_runs as (e2 & b & E). exists e2, b. split; [exact E|].
  apply (slow_block_refused accept_all tiny_digest a_minute_later 0 map_to_list map_to_list map_to_list dup
    miner_addr false 1 (fun _ => false) false id [] fresh_engine e2 (young 100) (young 100) (young 100) (start 100) b
    young_tip E young_minable young_engine); try reflexivity.
  all: try (split; [|]); vm_compute; congruence.
Defined.
