(* ===== verification/Validator.v ===== *)
(** * The block validator of the synchronisation loop

    [blockchain/consensus/validator.go] and [consensus/forks.go]: [BlockValidator], which checks
    the blocks peers send before they reach the chain, with its own signing hashes, version rule
    and proof-of-work header, and the batch verification of signatures of
    [internal/crypto/crypto.go].  The difficulty rule is in [Difficulty], the state transition in
    [Ledger].

    The theorems: the batch verification is the sequential one, its internal routine in whatever
    order its workers write ([VerifyBatch] itself never reaches them); a
    block the validator accepts passes the chain's own validation exactly when its link, its height
    and its merkle root, which the validator does not look at, are right; and
    where the binary encoding is active no block of more than ten transactions with a transfer
    is ever accepted. *)

From S2P Require Import Prelude Bytes Sha256 Config Merkle Json Transaction Ledger FeeChecker Float Difficulty Mempool Chain ForkChoice Reorg AddBlock ChainSample PowCache Seal Mining.
From stdpp Require Import base list gmap strings numbers sorting.
From Stdlib Require Import ZArith Lia.

Open Scope Z_scope.
Open Scope go_scope.

Definition BATCH_VERIFY_THRESHOLD : nat := 10.
Definition BATCH_VERIFY_MAX_SIZE : nat := 1000.
Definition BlockTimeMaxDrift : Z := 900.
Definition maxDifficultyBits : Z := 4294967295.

(** ** Batches of signatures *)
Section batch.
Variable ed25519_verify : list Z -> list Z -> list Z -> bool.
(** The order in which the workers write, given the indices of each. *)
Variable interleave : list (list nat) -> list nat.

Definition Verify (pubKey message signature : list Z) : bool :=
  if negb (len pubKey =? PubKeySize) then false else ed25519_verify pubKey message signature.

Section items.
Variables pubKeys messages signatures : list (list Z).

(** The check of item [i], which is in range. *)
Definition verify_at (i : nat) : bool :=
  Verify (nth i pubKeys []) (nth i messages []) (nth i signatures []).

(** [for i := ... { results[i] = Verify(...) }] *)
Definition write_results (idx : list nat) (results : list bool) : list bool :=
  foldl (fun results i => <[i := verify_at i]> results) results idx.

Definition VerifyBatchSimple : list bool :=
  write_results (seq 0 (length pubKeys)) (replicate (length pubKeys) false).

(** The indices of worker [w]. *)
Definition worker_indices (batchSize chunkSize w : nat) : list nat :=
  let start := (w * chunkSize)%nat in
  let stop := Nat.min (start + chunkSize) batchSize in
  seq start (stop - start).

Definition verifyBatchInternal : list bool :=
  let batchSize := length pubKeys in
  let results := replicate batchSize false in
  if (batchSize <=? BATCH_VERIFY_THRESHOLD)%nat then write_results (seq 0 batchSize) results
  else
    let numWorkers := Nat.min batchSize 4 in
    let chunkSize := ((batchSize + numWorkers - 1) / numWorkers)%nat in
    write_results (interleave (map (worker_indices batchSize chunkSize) (seq 0 numWorkers))) results.
End items.

(** Copy a batch's results to their place. *)
Definition copy_results (batchStart : nat) (batch results : list bool) : list bool :=
  foldl (fun results '(i, r) => <[(batchStart + i)%nat := r]> results) results (imap pair batch).

Fixpoint batch_loop (fuel : nat) (pubKeys messages signatures : list (list Z)) (batchStart : nat)
    (results : list bool) : list bool :=
  match fuel with
  | O => results
  | Datatypes.S fuel' =>
      if (batchStart <? length pubKeys)%nat then
        let batchEnd := Nat.min (batchStart + BATCH_VERIFY_THRESHOLD) (length pubKeys) in
        let batchSize := (batchEnd - batchStart)%nat in
        let results :=
          if (batchSize <? BATCH_VERIFY_THRESHOLD)%nat
          then write_results pubKeys messages signatures (seq batchStart batchSize) results
          else
            let batchEnd := if (BATCH_VERIFY_MAX_SIZE <? batchSize)%nat
                            then (batchStart + BATCH_VERIFY_MAX_SIZE)%nat else batchEnd in
            let sub l := take (batchEnd - batchStart) (drop batchStart l) in
            copy_results batchStart
              (verifyBatchInternal (sub pubKeys) (sub messages) (sub signatures)) results in
        batch_loop fuel' pubKeys messages signatures (batchStart + BATCH_VERIFY_THRESHOLD) results
      else results
  end.

Definition VerifyBatch (pubKeys messages signatures : list (list Z)) : result (list bool) :=
  fail_if (negb (length pubKeys =? length messages)%nat || negb (length messages =? length signatures)%nat)
    "batch size mismatch" ;;?
  Ok (batch_loop (length pubKeys) pubKeys messages signatures 0 (replicate (length pubKeys) false)).

(** *** The writes *)
Lemma write_results_length pks ms ss idx r : length (write_results pks ms ss idx r) = length r.
Proof.
  revert r. induction idx as [|i idx IH]; intros r; [done|]. cbn. unfold write_results in IH. rewrite IH.
  apply length_insert.
Qed.

(** What is written, and what is left alone. *)
Lemma write_results_lookup pks ms ss idx r j :
  write_results pks ms ss idx r !! j
  = if decide (j ∈ idx /\ (j < length r)%nat) then Some (verify_at pks ms ss j) else r !! j.
Proof.
  revert r. induction idx as [|i idx IH]; intros r.
  - rewrite decide_False; [done|]. intros [Hj _]. by apply not_elem_of_nil in Hj.
  - cbn [write_results foldl]. change (foldl _ ?x idx) with (write_results pks ms ss idx x).
    rewrite IH, length_insert. destruct (decide (j ∈ idx /\ (j < length r)%nat)) as [Hj|Hj].
    + rewrite decide_True; [done|]. split; [|apply Hj]. apply elem_of_cons. right. apply Hj.
    + destruct (decide (j = i /\ (j < length r)%nat)) as [[-> Hl]|Hn].
      * rewrite list_lookup_insert_eq by done. rewrite decide_True; [done|]. split; [apply elem_of_cons; by left|done].
      * rewrite decide_False.
        -- destruct (decide (j = i)) as [->|]; [|by rewrite list_lookup_insert_ne].
           assert (length r <= i)%nat by (destruct (decide (i < length r)%nat); [exfalso; apply Hn; by split|lia]).
           rewrite !lookup_ge_None_2; [done|lia|rewrite length_insert; lia].
        -- intros [[->|Hin]%elem_of_cons Hl]; [by apply Hn|by apply Hj].
Qed.

(** Writing every index gives the checks in order. *)
Lemma write_results_all pks ms ss idx n :
  (forall j, (j < n)%nat -> j ∈ idx) ->
  write_results pks ms ss idx (replicate n false) = map (verify_at pks ms ss) (seq 0 n).
Proof.
  intros Hall. apply list_eq. intros j. rewrite write_results_lookup, length_replicate.
  destruct (decide (j < n)%nat) as [Hj|Hj].
  - rewrite decide_True by auto. rewrite list_lookup_fmap, lookup_seq_lt by done. done.
  - rewrite decide_False by (intros [_ ?]; lia).
    rewrite !lookup_ge_None_2; [done|rewrite length_map, length_seq; lia|rewrite length_replicate; lia].
Qed.

Lemma simple_results pks ms ss :
  VerifyBatchSimple pks ms ss = map (verify_at pks ms ss) (seq 0 (length pks)).
Proof. apply write_results_all. intros j Hj. apply elem_of_seq. lia. Qed.

(** The workers write every index once, whatever the order. *)
Context (Hil : forall ls, interleave ls ≡ₚ concat ls).

Lemma internal_results pks ms ss :
  verifyBatchInternal pks ms ss = map (verify_at pks ms ss) (seq 0 (length pks)).
Proof.
  unfold verifyBatchInternal. set (n := length pks). destruct (Nat.leb_spec n BATCH_VERIFY_THRESHOLD) as [Hn|Hn].
  - apply write_results_all. intros j Hj. apply elem_of_seq. lia.
  - unfold BATCH_VERIFY_THRESHOLD in Hn. rewrite Nat.min_r by lia. set (c := ((n + 4 - 1) / 4)%nat).
    assert (n <= 4 * c)%nat by (unfold c; pose proof (Nat.div_mod (n + 4 - 1) 4);
      pose proof (Nat.mod_upper_bound (n + 4 - 1) 4); lia).
    apply write_results_all. intros j Hj. rewrite Hil. apply list_elem_of_In, in_concat.
    pose proof (Nat.div_mod j c ltac:(lia)). pose proof (Nat.mod_upper_bound j c ltac:(lia)).
    exists (worker_indices n c (j / c)). split.
    + apply in_map, in_seq. assert (j / c < 4)%nat by (apply Nat.Div0.div_lt_upper_bound; lia). lia.
    + unfold worker_indices. apply in_seq. lia.
Qed.

Lemma copy_results_length s batch r : length (copy_results s batch r) = length r.
Proof.
  unfold copy_results. induction batch as [|x batch IH] using rev_ind; [done|].
  rewrite imap_app, foldl_app. cbn. by rewrite length_insert.
Qed.

Lemma copy_results_lookup s batch r j :
  (s + length batch <= length r)%nat ->
  copy_results s batch r !! j
  = if decide (s <= j < s + length batch)%nat then batch !! (j - s)%nat else r !! j.
Proof.
  induction batch as [|x batch IH] using rev_ind; intros Hl.
  - cbn. rewrite decide_False by (cbn; lia). done.
  - rewrite length_app in Hl |- *. cbn [length] in Hl |- *. unfold copy_results. rewrite imap_app, foldl_app.
    cbn [imap foldl]. change (foldl _ r (imap pair batch)) with (copy_results s batch r). cbn.
    rewrite Nat.add_0_r. destruct (decide (j = (s + length batch)%nat)) as [->|Hj].
    + rewrite list_lookup_insert_eq by (rewrite copy_results_length; lia). rewrite decide_True by lia.
      rewrite lookup_app_r by lia. by replace (s + length batch - s - length batch)%nat with 0%nat by lia.
    + rewrite list_lookup_insert_ne by done. rewrite IH by lia.
      destruct (decide (s <= j < s + length batch)%nat) as [Hi|Hi].
      * rewrite decide_True by lia. by rewrite lookup_app_l by lia.
      * rewrite decide_False by lia. done.
Qed.

Lemma verify_at_sub pks ms ss s k i :
  (i < k)%nat ->
  verify_at (take k (drop s pks)) (take k (drop s ms)) (take k (drop s ss)) i = verify_at pks ms ss (s + i).
Proof.
  assert (Hn : forall l : list (list Z), (i < k)%nat -> nth i (take k (drop s l)) [] = nth (s + i) l []).
  { intros l Hi. rewrite !nth_lookup. by rewrite lookup_take_lt, lookup_drop by done. }
  intros Hi. unfold verify_at. by rewrite !Hn by done.
Qed.

(** One batch of the loop. *)
Lemma batch_loop_lookup pks ms ss fuel start r j :
  length r = length pks -> (length pks <= start + fuel)%nat -> (j < length pks)%nat ->
  batch_loop fuel pks ms ss start r !! j
  = if (j <? start)%nat then r !! j else Some (verify_at pks ms ss j).
Proof.
  revert start r. induction fuel as [|fuel IH]; intros start r Hr Hf Hj; cbn [batch_loop].
  { destruct (Nat.ltb_spec j start); [done|lia]. }
  destruct (Nat.ltb_spec start (length pks)) as [Hs|Hs]; [|by destruct (Nat.ltb_spec j start); [|lia]].
  unfold BATCH_VERIFY_THRESHOLD, BATCH_VERIFY_MAX_SIZE in *.
  set (stop := Nat.min (start + 10) (length pks)). set (size := (stop - start)%nat).
  assert (Hsize : (size <= 10)%nat) by lia. replace (1000 <? size)%nat with false by (symmetry; apply Nat.ltb_ge; lia).
  cbv zeta. set (r' := if (size <? 10)%nat then _ else _).
  assert (Hr' : length r' = length r /\ r' !! j =
    if (start <=? j)%nat && (j <? stop)%nat then Some (verify_at pks ms ss j) else r !! j).
  { unfold r'. destruct (Nat.ltb_spec size 10) as [Hlt|Hge].
    - split; [apply write_results_length|]. rewrite write_results_lookup.
      destruct (decide _) as [[Hin _]|Hn]; [|rewrite elem_of_seq in Hn]; [apply elem_of_seq in Hin|];
        destruct (Nat.leb_spec start j), (Nat.ltb_spec j stop); cbn [andb]; try done; exfalso; subst size stop; lia.
    - split; [apply copy_results_length|]. rewrite internal_results, length_take, length_drop.
      rewrite copy_results_lookup by (rewrite length_map, length_seq; lia). rewrite length_map, length_seq.
      destruct (decide _) as [Hi|Hi]; destruct (Nat.leb_spec start j), (Nat.ltb_spec j stop); cbn [andb]; try done;
        try (exfalso; subst size stop; lia).
      rewrite list_lookup_fmap, lookup_seq_lt by (subst size stop; lia). cbn.
      rewrite verify_at_sub by (subst size stop; lia). do 2 f_equal. lia. }
  destruct Hr' as [Hl' Hv]. rewrite IH by lia. rewrite Hv.
  destruct (Nat.ltb_spec j (start + 10)), (Nat.leb_spec start j), (Nat.ltb_spec j stop), (Nat.ltb_spec j start);
    cbn [andb]; try done; lia.
Qed.

Lemma batch_loop_length pks ms ss fuel start r :
  length r = length pks -> length (batch_loop fuel pks ms ss start r) = length r.
Proof.
  revert start r. induction fuel as [|fuel IH]; intros start r Hr; cbn [batch_loop]; [done|].
  case_match; [|done]. rewrite IH.
  - case_match; [apply write_results_length|apply copy_results_length].
  - rewrite <- Hr. case_match; [apply write_results_length|apply copy_results_length].
Qed.

(** C9. Batch verification of signatures is the sequential one.  The internal routine, called on a
    batch of any size, gives every signature its own check, in whatever order the four workers of a
    batch of more than ten write their results; and [VerifyBatch], which cuts its input into pieces
    of ten, so that it checks each of them without workers, gives every signature its own check
    too, at its place, and refuses slices of different lengths. *)
Theorem batch_is_sequential (pubKeys messages signatures : list (list Z)) :
  verifyBatchInternal pubKeys messages signatures = VerifyBatchSimple pubKeys messages signatures /\
  VerifyBatch pubKeys messages signatures
  = if decide (length pubKeys = length messages /\ length messages = length signatures)
    then Ok (VerifyBatchSimple pubKeys messages signatures) else Err "batch size mismatch".
Proof.
  split; [by rewrite internal_results, simple_results|].
  unfold VerifyBatch. destruct (decide _) as [[H1 H2]|Hn].
  - rewrite H1, H2, !Nat.eqb_refl. cbn [negb orb fail_if result_bind]. f_equal. rewrite simple_results, <- H2, <- H1.
    apply list_eq. intros j. destruct (decide (j < length pubKeys)%nat) as [Hj|Hj].
    + rewrite batch_loop_lookup by (rewrite ?length_replicate; lia). cbn [Nat.ltb Nat.leb].
      by rewrite list_lookup_fmap, lookup_seq_lt.
    + rewrite (lookup_ge_None_2 (map _ _)) by (rewrite length_map, length_seq; lia). apply lookup_ge_None_2.
      rewrite batch_loop_length, length_replicate by (by rewrite length_replicate). lia.
  - destruct (Nat.eqb_spec (length pubKeys) (length messages)), (Nat.eqb_spec (length messages) (length signatures));
      try done. by destruct Hn.
Qed.
End batch.

(** ** The validator's own signing hashes *)

(** [binary.Write]: a value without a fixed size, such as a string, is refused. *)
Inductive bin_value : Type := BU8 (z : Z) | BU16 (z : Z) | BU64 (z : Z) | BString (s : string).
Definition binary_Write (v : bin_value) : result (list Z) :=
  match v with
  | BU8 z => Ok [u8 z]
  | BU16 z => Ok (le_bytes 2 z)
  | BU64 z => Ok (le_bytes 8 z)
  | BString _ => Err "binary.Write: some values are not fixed-sized"
  end.

Definition validator_txSigningHashBinary (tx : Transaction) (height : Z) : result (list Z) :=
  let? txType := wrap "write type" (binary_Write (BString (tx_Type tx))) in
  let? chainId := wrap "write chainId" (binary_Write (BU64 (tx_ChainID tx))) in
  let fromPubKey := slice (tx_FromPubKey tx) in
  let? from := (if is_type tx TxTransfer && (0 <? len fromPubKey)
                then let? l := wrap "write fromPubKey length" (binary_Write (BU8 (len fromPubKey))) in
                     Ok (l ++ fromPubKey)
                else Ok []) in
  let toBytes := bytes_of_string (tx_ToAddress tx) in
  let? toLen := wrap "write toAddress length" (binary_Write (BU8 (len toBytes))) in
  let? amount := wrap "write amount" (binary_Write (BU64 (tx_Amount tx))) in
  let? fee := wrap "write fee" (binary_Write (BU64 (tx_Fee tx))) in
  let? nonce := wrap "write nonce" (binary_Write (BU64 (tx_Nonce tx))) in
  let dataBytes := bytes_of_string (tx_Data tx) in
  let? dataLen := wrap "write data length" (binary_Write (BU16 (len dataBytes))) in
  let? h := wrap "write height" (binary_Write (BU64 height)) in
  Ok (sha256 ([1] ++ txType ++ chainId ++ from ++ toLen ++ toBytes ++ amount ++ fee ++ nonce
              ++ dataLen ++ dataBytes ++ h)).

Definition validator_txSigningHashJSON (t : Transaction) (height : Z) : result (list Z) :=
  let? fromAddr := (if is_type t TxTransfer then FromAddress t else Ok ""%string) in
  let v := JObj ([("type"%string, JStr (tx_Type t)); ("chainId"%string, JNum (tx_ChainID t))]
                 ++ omit_str "fromAddr" fromAddr
                 ++ [("toAddress"%string, JStr (tx_ToAddress t));
                     ("amount"%string, JNum (tx_Amount t)); ("fee"%string, JNum (tx_Fee t))]
                 ++ omit_num "nonce" (tx_Nonce t) ++ omit_str "data" (tx_Data t)
                 ++ [("height"%string, JNum height)]) in
  Ok (sha256 (json_bytes v)).

Definition validator_txSigningHash (tx : Transaction) (p : ConsensusParams) (height : Z)
    : result (list Z) :=
  if BinaryEncodingActive p height then validator_txSigningHashBinary tx height
  else validator_txSigningHashJSON tx height.

Definition validator_TxIDHex (tx : Transaction) (p : ConsensusParams) (height : Z) : result string :=
  let? h := validator_txSigningHash tx p height in Ok (hex_encode h).

(** The version rule of [consensus/forks.go]. *)
Definition validator_blockVersion (p : ConsensusParams) (height : Z) : Z :=
  if MerkleRootActive p height || BinaryEncodingActive p height then 2 else 1.

(** [addressesForBlock] of [consensus/forks.go], as a set. *)
Definition validator_tx_addresses (tx : Transaction) : list string :=
  if is_type tx TxTransfer then
    match FromAddress tx with Ok from => [from] | Err _ => [] end ++ [tx_ToAddress tx]
  else if is_type tx TxCoinbase then [tx_ToAddress tx] else [].
Definition validator_addressesForBlock (b : Block) : gset string :=
  list_to_set (concat (map validator_tx_addresses (b_Transactions b))).

(** [GetKnownTipsFromBlocks]: the known hashes that are nobody's parent, sorted. *)
Definition is_parent_of_some (bs : list (string * BlockRef)) (h : string) : bool :=
  existsb (fun '(_, b) => (0 <? len (h_PrevHash (b_Header (ref_blk b)))) && str_eqb (hexprev (ref_blk b)) h) bs.
Definition GetKnownTipsFromBlocks (blocksByHash : Blocks) : list string :=
  merge_sort (fun a b : string => String.leb a b)
    (filter (fun h => is_parent_of_some (map_to_list blocksByHash) h = false) (map fst (map_to_list blocksByHash))).

(** ** The validator *)
Record BlockValidator := mkBlockValidator { bv_consensus : ConsensusParams; bv_chainID : Z }.
Definition NewBlockValidator (p : ConsensusParams) (chainID : Z) : BlockValidator :=
  mkBlockValidator p chainID.
Definition UpdateConsensus (p : ConsensusParams) (v : BlockValidator) : BlockValidator :=
  mkBlockValidator p (bv_chainID v).

Definition ErrNilBlock : error := "block is nil".
Definition ErrEmptyBlockHash : error := "block hash is empty".
Definition ErrZeroDifficultyBits : error := "difficulty bits is zero".
Definition ErrInvalidVersion : error := "invalid block version".
Definition ErrNoTransactions : error := "block has no transactions".
Definition ErrInvalidCoinbasePos : error := "first transaction must be coinbase".
Definition ErrWrongChainID : error := "transaction has wrong chainId".
Definition ErrInvalidSignature : error := "transaction signature verification failed".
Definition ErrInvalidCoinbaseAmt : error := "invalid coinbase amount".
Definition ErrInvalidMinerAddress : error := "invalid miner address".
Definition ErrTimestampNotIncreasing : error := "block timestamp not greater than parent".
Definition ErrTimestampTooFarFuture : error := "block timestamp too far in future".

Definition validateBlockStructure (v : BlockValidator) (block : Block) : result unit :=
  fail_if (len (b_Hash block) =? 0) ErrEmptyBlockHash ;;?
  fail_if (h_DifficultyBits (b_Header block) =? 0) ErrZeroDifficultyBits ;;?
  fail_if (h_DifficultyBits (b_Header block) >? maxDifficultyBits) "difficulty bits exceeds maximum" ;;?
  fail_if (negb (h_Version (b_Header block) =? validator_blockVersion (bv_consensus v) (GetHeight block)))
    ErrInvalidVersion.

Definition ValidateBlockFast (block : option Block) : result unit :=
  match block with
  | None => Err ErrNilBlock
  | Some block =>
      fail_if (len (b_Hash block) =? 0) ErrEmptyBlockHash ;;?
      fail_if (h_DifficultyBits (b_Header block) =? 0) ErrZeroDifficultyBits ;;?
      fail_if (len (b_Transactions block) =? 0) ErrNoTransactions
  end.

(** The chain ids of the block's own transactions are filled in, up to the first wrong one. *)
Fixpoint fill_chain_ids (id : Z) (txs : list Transaction) : list Transaction * result unit :=
  match txs with
  | [] => ([], Ok tt)
  | tx :: rest =>
      let tx := if tx_ChainID tx =? 0 then with_chain_id id tx else tx in
      if negb (tx_ChainID tx =? id) then (tx :: rest, Err ErrWrongChainID)
      else let '(rest, r) := fill_chain_ids id rest in (tx :: rest, r)
  end.

Definition set_transactions (txs : list Transaction) (b : Block) : Block :=
  mkBlock (b_Hash b) (b_Height b) (b_Header b) txs (b_CoinbaseTx b) (b_MinerAddress b) (b_TotalWork b).

(** The fees, with an overflow check. *)
Fixpoint total_fees (txs : list Transaction) (totalFees : Z) : result Z :=
  match txs with
  | [] => Ok totalFees
  | tx :: rest =>
      if is_type tx TxTransfer then
        fail_if (totalFees >? (max_u64 - tx_Fee tx)%u64) "total fee overflow" ;;?
        total_fees rest (totalFees + tx_Fee tx)%u64
      else total_fees rest totalFees
  end.

Definition validateCoinbaseEconomics (v : BlockValidator) (block : Block) : result unit :=
  match consensus_validateAddress (b_MinerAddress block) with
  | Err e => Err (ErrInvalidMinerAddress +:+ ": " +:+ e)
  | Ok _ =>
      let? totalFees := total_fees (tail (b_Transactions block)) 0 in
      let expectedAmount := coinbase_expected (cp_MonetaryPolicy (bv_consensus v)) (GetHeight block) totalFees in
      match b_Transactions block with
      | [] => Err "index out of range"
      | coinbase :: _ =>
          fail_if (negb (str_eqb (tx_ToAddress coinbase) (b_MinerAddress block)))
            "coinbase toAddress does not match minerAddress" ;;?
          fail_if (negb (tx_Amount coinbase =? expectedAmount)) ErrInvalidCoinbaseAmt
      end
  end.

Section validator.
Variable ed25519_verify : list Z -> list Z -> list Z -> bool.
Variable interleave : list (list nat) -> list nat.
Variable keccak256 : list Z -> list Z.
Variable network_now : Z.

(** A transaction of a small block: anything but a transfer passes. *)
Definition small_result (p : ConsensusParams) (height : Z) (tx : Transaction) : bool :=
  if negb (is_type tx TxTransfer) then true else is_ok (VerifyForConsensus ed25519_verify tx p height).

(** A transaction of a large block: its result so far, and what is left for the batch. *)
Definition large_item (p : ConsensusParams) (height : Z) (tx : Transaction)
    : bool * option (list Z * list Z * list Z) :=
  if negb (is_type tx TxTransfer) then (true, None)
  else if negb (len (slice (tx_FromPubKey tx)) =? PubKeySize)
          || negb (len (slice (tx_Signature tx)) =? SignatureSize) then (false, None)
  else match validator_txSigningHash tx p height with
       | Err _ => (false, None)
       | Ok h => (false, Some (slice (tx_FromPubKey tx), h, slice (tx_Signature tx)))
       end.

(** The items for the batch with their indices, the first transaction being skipped. *)
Definition batch_items (items : list (bool * option (list Z * list Z * list Z)))
    : list (nat * (list Z * list Z * list Z)) :=
  omap (fun '(i, it) => match snd it with Some x => Some (i, x) | None => None end) (imap (fun i it => (Datatypes.S i, it)) items).

Definition large_results (p : ConsensusParams) (height : Z) (rest : list Transaction) : list bool :=
  let items := map (large_item p height) rest in
  let results := true :: map fst items in
  let batch := batch_items items in
  let indices := map fst batch in
  if (0 <? length batch)%nat then
    match VerifyBatch ed25519_verify interleave (map (fun x => fst (fst (snd x))) batch)
            (map (fun x => snd (fst (snd x))) batch) (map (fun x => snd (snd x)) batch) with
    | Err _ => foldl (fun results i => <[i := false]> results) results indices
    | Ok rs => foldl (fun results '(i, r) => <[i := r]> results) results (zip indices rs)
    end
  else results.

Definition verifyTransactionsBatch (block : Block) (p : ConsensusParams) : result unit :=
  let n := length (b_Transactions block) in
  let rest := tail (b_Transactions block) in
  let results := if (n <=? BATCH_VERIFY_THRESHOLD)%nat
                 then true :: map (small_result p (GetHeight block)) rest
                 else large_results p (GetHeight block) rest in
  fail_if (negb (forallb id results)) ErrInvalidSignature.

Definition validator_validateTransactions (v : BlockValidator) (block : Block) (p : ConsensusParams)
    : Block * result unit :=
  match b_Transactions block with
  | [] => (block, Err ErrNoTransactions)
  | first :: _ =>
      if negb (is_type first TxCoinbase) then (block, Err ErrInvalidCoinbasePos)
      else
        let '(txs, r) := fill_chain_ids (bv_chainID v) (b_Transactions block) in
        let block := set_transactions txs block in
        (block,
          r ;;?
          verifyTransactionsBatch block p ;;?
          if GetHeight block >? 0
          then wrap "coinbase economics validation failed" (validateCoinbaseEconomics v block)
          else Ok tt)
  end.

Definition validateTimestamp (block parent : Block) : result unit :=
  fail_if (h_TimestampUnix (b_Header block) <=? h_TimestampUnix (b_Header parent)) ErrTimestampNotIncreasing ;;?
  fail_if (h_TimestampUnix (b_Header block) >? i64 (network_now + BlockTimeMaxDrift)) ErrTimestampTooFarFuture.

(** The header [validateBlockPoWNogoPow] builds: from the block alone. *)
Definition validator_pow_header (block : Block) : result PowHeader :=
  let? addr := wrap "invalid miner address" (Transaction.StringToAddress (b_MinerAddress block)) in
  let h := b_Header block in
  Ok (mkPowHeader (copy_into 32 (h_PrevHash h)) addr (copy_into 32 (h_StateRoot h))
        (copy_into 32 (h_MerkleRoot h)) (i64 (GetHeight block)) (u64 (h_TimestampUnix h))
        (h_DifficultyBits h) (copy_into 32 (le_bytes 8 (h_Nonce h)))).

Definition validateBlockPoWNogoPow (block : Block) (parent : option Block) : res (result unit) :=
  if GetHeight block =? 0 then Val (Ok tt)
  else match parent with
       | None => Val (Err "parent block is nil for POW verification")
       | Some _ =>
           match validator_pow_header block with
           | Err e => Val (Err e)
           | Ok ph =>
               let header := engine_header ph in
               res_bind (VerifySealWithBlockHash keccak256 header (HeaderHash keccak256 header) (New ModeNormal))
                 (fun '(_, r) => Val (wrap "NogoPow seal verification failed" r))
           end
       end.

(** [ValidateBlock]; the block may have changed.  A nil state skips the state transition. *)
Definition ValidateBlock (v : BlockValidator) (block : option Block) (parent : option Block)
    (state : option State) : res (option Block * result unit) :=
  match block with
  | None => Val (None, wrap "structural validation failed" (Err ErrNilBlock))
  | Some block =>
      let p := bv_consensus v in
      match wrap "structural validation failed" (validateBlockStructure v block) with
      | Err e => Val (Some block, Err e)
      | Ok _ =>
      res_bind (validateBlockPoWNogoPow block parent) (fun r =>
      match wrap "POW validation failed" r with
      | Err e => Val (Some block, Err e)
      | Ok _ =>
      match wrap "difficulty validation failed" (BlockValidator_validateDifficulty p block parent) with
      | Err e => Val (Some block, Err e)
      | Ok _ =>
      match wrap "timestamp validation failed"
              (match parent with Some parent => validateTimestamp block parent | None => Ok tt end) with
      | Err e => Val (Some block, Err e)
      | Ok _ =>
      let '(block, r) := validator_validateTransactions v block p in
      match wrap "transaction validation failed" r with
      | Err e => Val (Some block, Err e)
      | Ok _ =>
      Val (Some block,
        match state with
        | Some st => if GetHeight block >? 0
                     then wrap "state transition validation failed"
                            (snd (consensus_applyBlockToState ed25519_verify p block st))
                     else Ok tt
        | None => Ok tt
        end)
      end end end end)
      end
  end.
End validator.

(** ** Lemmas *)
Lemma fill_types (id : Z) (txs : list Transaction) :
  map tx_Type (fst (fill_chain_ids id txs)) = map tx_Type txs.
Proof.
  induction txs as [|tx txs IH]; [done|]. cbn [fill_chain_ids].
  set (tx' := if tx_ChainID tx =? 0 then with_chain_id id tx else tx).
  assert (Et : tx_Type tx' = tx_Type tx) by (unfold tx'; by destruct (tx_ChainID tx =? 0)).
  destruct (negb _); [cbn; by rewrite Et|]. destruct (fill_chain_ids id txs) as [rest r]. cbn in *. by rewrite Et, IH.
Qed.

(** Filled in without an error, every transaction has the chain's id. *)
Lemma fill_ids (id : Z) (txs txs' : list Transaction) :
  fill_chain_ids id txs = (txs', Ok tt) -> Forall (fun tx => tx_ChainID tx = id) txs'.
Proof.
  revert txs'. induction txs as [|tx txs IH]; intros txs' E; cbn [fill_chain_ids] in E.
  - injection E as <-. constructor.
  - set (tx' := if tx_ChainID tx =? 0 then with_chain_id id tx else tx) in *.
    destruct (Z.eqb_spec (tx_ChainID tx') id) as [Hi|]; cbn [negb] in E; [|discriminate E].
    destruct (fill_chain_ids id txs) as [rest r]. injection E as <- ->. constructor; [exact Hi|by apply IH].
Qed.

Lemma filled_shape (id : Z) (cb : Transaction) (rest txs : list Transaction) :
  fill_chain_ids id (cb :: rest) = (txs, Ok tt) -> is_type cb TxCoinbase = true ->
  exists cb' rest', txs = cb' :: rest' /\ is_type cb' TxCoinbase = true /\ length rest' = length rest /\
    (Forall (fun tx => is_type tx TxTransfer = true) rest -> Forall (fun tx => is_type tx TxTransfer = true) rest').
Proof.
  intros E Hcb. pose proof (fill_types id (cb :: rest)) as Et. rewrite E in Et. cbn [fst] in Et.
  destruct txs as [|cb' rest']; [discriminate Et|]. injection Et as Ec Er. exists cb', rest'.
  unfold is_type in *. split; [done|]. split; [by rewrite Ec|].
  split; [by rewrite <- (length_map tx_Type rest'), Er, length_map|].
  intros Hall. assert (Hm : Forall (fun t => str_eqb t TxTransfer = true) (map tx_Type rest)) by (by apply Forall_fmap).
  rewrite <- Er in Hm. by apply Forall_fmap in Hm.
Qed.

Lemma transfers_kept (id : Z) (txs : list Transaction) :
  (exists tx, tx ∈ tail txs /\ is_type tx TxTransfer = true) ->
  exists tx, tx ∈ tail (fst (fill_chain_ids id txs)) /\ is_type tx TxTransfer = true.
Proof.
  intros (tx & Hin & Ht). pose proof (fill_types id txs) as E.
  assert (Hm : tx_Type tx ∈ map tx_Type (tail (fst (fill_chain_ids id txs)))).
  { assert (Et : forall l : list Transaction, map tx_Type (tail l) = tail (map tx_Type l)) by (by intros []).
    rewrite Et, E, <- Et. apply list_elem_of_fmap. by exists tx. }
  apply list_elem_of_fmap in Hm as (tx' & Et & Hin'). exists tx'. split; [done|]. unfold is_type in *. by rewrite <- Et.
Qed.

Section properties.
Variable ed25519_verify : list Z -> list Z -> list Z -> bool.
Variable interleave : list (list nat) -> list nat.
Variable keccak256 : list Z -> list Z.
Variable network_now : Z.

(** The binary signing hash cannot be computed: the type of a transaction is a string. *)
Lemma binary_hash_fails (tx : Transaction) (height : Z) : is_ok (validator_txSigningHashBinary tx height) = false.
Proof. done. Qed.

Lemma large_batch_fails (block : Block) (p : ConsensusParams) :
  BinaryEncodingActive p (GetHeight block) = true ->
  (BATCH_VERIFY_THRESHOLD < length (b_Transactions block))%nat ->
  (exists tx, tx ∈ tail (b_Transactions block) /\ is_type tx TxTransfer = true) ->
  verifyTransactionsBatch ed25519_verify interleave block p = Err ErrInvalidSignature.
Proof.
  intros Hb Hn (tx & Hin & Ht). unfold verifyTransactionsBatch.
  destruct (Nat.leb_spec (length (b_Transactions block)) BATCH_VERIFY_THRESHOLD); [lia|].
  set (rest := tail (b_Transactions block)) in *. set (height := GetHeight block) in *.
  assert (Hitem : forall t, large_item p height t = (negb (is_type t TxTransfer), None)).
  { intros t. unfold large_item, validator_txSigningHash. rewrite Hb.
    destruct (is_type t TxTransfer); cbn [negb]; [|done]. by destruct (_ || _). }
  assert (Hbatch : batch_items (map (large_item p height) rest) = []).
  { destruct (batch_items _) as [|x l] eqn:E; [done|]. exfalso.
    assert (Hx : x ∈ batch_items (map (large_item p height) rest)) by (rewrite E; apply elem_of_cons; by left).
    apply list_elem_of_omap in Hx as ([i it] & Hi & Hs). apply elem_of_lookup_imap_1 in Hi as (k & y & Ek & Hy).
    injection Ek as -> ->. rewrite list_lookup_fmap in Hy. destruct (rest !! k) as [t|]; [|discriminate Hy].
    injection Hy as <-. rewrite Hitem in Hs. discriminate Hs. }
  unfold large_results. rewrite Hbatch. cbn [length Nat.ltb Nat.leb].
  replace (forallb id _) with false; [done|]. symmetry. apply not_true_iff_false. rewrite forallb_forall. intros Hall.
  specialize (Hall false). assert (Hf : In false (true :: map fst (map (large_item p height) rest))); [|by apply Hall in Hf].
  right. rewrite map_map. apply in_map_iff. exists tx. rewrite Hitem, Ht. split; [done|by apply list_elem_of_In].
Qed.

Lemma ValidateBlock_inv (v : BlockValidator) (block : Block) (parent : option Block) (state : option State)
    (b' : option Block) :
  ValidateBlock ed25519_verify interleave keccak256 network_now v (Some block) parent state = Val (b', Ok tt) ->
  validateBlockStructure v block = Ok tt /\
  validateBlockPoWNogoPow keccak256 block parent = Val (Ok tt) /\
  BlockValidator_validateDifficulty (bv_consensus v) block parent = Ok tt /\
  (forall q, parent = Some q -> validateTimestamp network_now block q = Ok tt) /\
  exists block', b' = Some block' /\
    validator_validateTransactions ed25519_verify interleave v block (bv_consensus v) = (block', Ok tt).
Proof.
  unfold ValidateBlock. destruct (validateBlockStructure v block) as [[]|]; cbn [wrap]; [|discriminate].
  destruct (validateBlockPoWNogoPow _ _ _) as [[[]|]|]; cbn [res_bind wrap]; [|discriminate..].
  destruct (BlockValidator_validateDifficulty _ _ _) as [[]|]; cbn [wrap]; [|discriminate].
  intros E. split; [done|]. split; [done|]. split; [done|]. revert E.
  destruct (match parent with Some q => _ | None => _ end) as [[]|] eqn:Et; cbn [wrap]; [|discriminate].
  intros E. split; [intros q ->; exact Et|]. revert E.
  destruct (validator_validateTransactions _ _ _ _ _) as [block' [[]|]]; cbn [wrap]; [|discriminate].
  intros E. injection E as <- _. by exists block'.
Qed.

(** The validator refuses every large block: where the binary encoding is active, a block with
    more than ten transactions, one of them a transfer after the first, fails the check of the
    signatures whatever they are, and [ValidateBlock] never accepts it. *)
Theorem large_block_refused (v : BlockValidator) (block : Block) (parent : option Block) (state : option State)
  (Hb : BinaryEncodingActive (bv_consensus v) (GetHeight block) = true)
  (Hn : (10 < length (b_Transactions block))%nat)
  (Ht : exists tx, tx ∈ tail (b_Transactions block) /\ is_type tx TxTransfer = true) :
  verifyTransactionsBatch ed25519_verify interleave block (bv_consensus v) = Err ErrInvalidSignature /\
  forall b', ValidateBlock ed25519_verify interleave keccak256 network_now v (Some block) parent state
             <> Val (b', Ok tt).
Proof.
  split; [by apply large_batch_fails|]. intros b' E.
  apply ValidateBlock_inv in E as (_ & _ & _ & _ & block' & _ & E). unfold validator_validateTransactions in E.
  destruct (b_Transactions block) as [|first rest] eqn:Etxs; [discriminate E|].
  destruct (negb _); [discriminate E|]. pose proof (transfers_kept (bv_chainID v) (first :: rest) Ht) as Hk.
  pose proof (f_equal length (fill_types (bv_chainID v) (first :: rest))) as Hl. rewrite !length_map in Hl.
  destruct (fill_chain_ids _ _) as [txs r]. cbn [fst] in *. injection E as _ E.
  destruct r as [[]|]; [|discriminate E]. cbn [result_bind] in E. rewrite large_batch_fails in E; [discriminate E|done| |done].
  cbn [set_transactions b_Transactions]. rewrite Hl. exact Hn.
Qed.
End properties.

(** ** Against the chain's own validation *)
Lemma total_fees_sum (txs : list Transaction) (acc t : Z) :
  total_fees txs acc = Ok t ->
  fold_left (fun fees tx => if is_type tx TxTransfer then (fees + tx_Fee tx)%u64 else fees) txs acc = t.
Proof.
  revert acc. induction txs as [|tx txs IH]; intros acc E; cbn [total_fees fold_left] in *; [by injection E|].
  destruct (is_type tx TxTransfer); [|by apply IH]. unfold fail_if in E. destruct (_ >? _); [discriminate E|].
  cbn [result_bind] in E. by apply IH.
Qed.

Lemma narrow_tolerance (expected actual : Z) :
  0 <= expected -> within_tolerance expected actual consensus_tolerance = Ok tt ->
  within_tolerance expected actual core_tolerance = Ok tt.
Proof.
  unfold within_tolerance, consensus_tolerance, core_tolerance, fail_if. intros He.
  assert (expected * (100 - 50) / 100 <= expected * (100 - 15) / 100) by (apply Z.div_le_mono; lia).
  assert (expected * (100 + 15) / 100 <= expected * (100 + 50) / 100) by (apply Z.div_le_mono; lia).
  destruct (Z.ltb_spec actual (expected * (100 - 15) / 100)); cbn [result_bind]; [discriminate|].
  destruct (Z.gtb_spec actual (expected * (100 + 15) / 100)); [discriminate|]. intros _.
  replace (actual <? _) with false by lia. cbn [result_bind]. by replace (actual >? _) with false by lia.
Qed.

(** The tighter of the two difficulty rules implies the other. *)
Lemma validator_difficulty (p : ConsensusParams) (block parent : Block) :
  GetHeight block <> 0 -> 0 <= MinDifficulty p < 2 ^ 32 -> 0 <= h_DifficultyBits (b_Header parent) < 2 ^ 32 ->
  BlockValidator_validateDifficulty p block (Some parent) = Ok tt ->
  validateBlockDifficultyLocked p block parent = Ok tt.
Proof.
  intros Hh Hmin Hpd. unfold BlockValidator_validateDifficulty, validateBlockDifficultyLocked, difficulty_check.
  replace (GetHeight block =? 0) with false by lia. unfold fail_if. destruct (_ <? _); [done|]. destruct (_ >? _); [done|].
  cbn [result_bind]. destruct (negb _); [done|].
  destruct (CalcDifficulty _ _ _) as [d|] eqn:Ed; cbn [result_bind]; [|intros E; discriminate E].
  apply narrow_tolerance. destruct (calc_difficulty_clamped (NewDifficultyAdjuster p) _ (parent_header parent) _ d Hpd Hmin eq_refl Ed)
    as [raw ->]. cbn [NewDifficultyAdjuster consensusParams]. lia.
Qed.

Lemma small_batch_verified (ed : list Z -> list Z -> list Z -> bool) (il : list (list nat) -> list nat)
    (block : Block) (p : ConsensusParams) :
  (length (b_Transactions block) <= 10)%nat -> Forall (fun tx => is_type tx TxTransfer = true) (tail (b_Transactions block)) ->
  verifyTransactionsBatch ed il block p = Ok tt ->
  Forall (fun tx => VerifyForConsensus ed tx p (GetHeight block) = Ok tt) (tail (b_Transactions block)).
Proof.
  intros Hn Ht. unfold verifyTransactionsBatch.
  destruct (Nat.leb_spec (length (b_Transactions block)) BATCH_VERIFY_THRESHOLD); [|unfold BATCH_VERIFY_THRESHOLD in *; lia].
  unfold fail_if. destruct (forallb id _) eqn:Ef; cbn [negb]; [|discriminate]. intros _. cbn [forallb] in Ef.
  apply andb_prop in Ef as [_ Ef]. rewrite forallb_forall in Ef. apply list.Forall_forall. intros tx Hin.
  apply (proj1 (list.Forall_forall _ _)) with (x := tx) in Ht; [|done].
  assert (Hs : small_result ed p (GetHeight block) tx = true).
  { apply (Ef (small_result ed p (GetHeight block) tx)), in_map. by apply list_elem_of_In. }
  unfold small_result in Hs. rewrite Ht in Hs. cbn [negb] in Hs. by destruct (VerifyForConsensus _ _ _ _) as [[]|].
Qed.

Section against_the_chain.
Context {S : Type}.
Variable ed25519_verify : list Z -> list Z -> list Z -> bool.
Variable interleave : list (list nat) -> list nat.
Variable keccak256 : list Z -> list Z.
Variable network_now : Z.

(** The two proof-of-work headers agree. *)
Lemma pow_headers_agree (block parent : Block) :
  h_PrevHash (b_Header block) = b_Hash parent ->
  h_StateRoot (b_Header block) = [] \/ length (h_StateRoot (b_Header block)) = 32%nat ->
  forall ph, validator_pow_header block = Ok ph -> pow_header block parent = Ok ph.
Proof.
  intros Hp Hr ph. unfold validator_pow_header, pow_header. rewrite Hp.
  destruct (Transaction.StringToAddress _); cbn [wrap result_bind]; [|discriminate]. intros E. injection E as <-.
  f_equal. f_equal. destruct Hr as [->|Hl]; [done|]. unfold len. by rewrite Hl.
Qed.

Lemma validator_sealed (block parent : Block) :
  h_PrevHash (b_Header block) = b_Hash parent -> len (b_Hash block) <> 0 ->
  h_StateRoot (b_Header block) = [] \/ length (h_StateRoot (b_Header block)) = 32%nat ->
  validateBlockPoWNogoPow keccak256 block (Some parent) = Val (Ok tt) ->
  verifyBlockPoWSeal (engine_seal keccak256 (New ModeNormal)) block (Some parent) = Ok tt.
Proof.
  intros Hp Hh Hr. unfold validateBlockPoWNogoPow, verifyBlockPoWSeal.
  replace (len (b_Hash block) =? 0) with false by lia. destruct (GetHeight block =? 0); [done|].
  destruct (validator_pow_header block) as [ph|] eqn:Eph; [|discriminate].
  rewrite (pow_headers_agree block parent Hp Hr ph Eph). cbn [result_bind]. unfold engine_seal.
  destruct (VerifySealWithBlockHash _ _ _ _) as [[t [[]|]]|]; cbn [res_bind wrap]; [done|discriminate..].
Qed.

Lemma structure_hash (v : BlockValidator) (block : Block) :
  validateBlockStructure v block = Ok tt -> len (b_Hash block) <> 0.
Proof. unfold validateBlockStructure, fail_if. destruct (Z.eqb_spec (len (b_Hash block)) 0); [discriminate|done]. Qed.

Lemma validateTransactions_inv (v : BlockValidator) (block b' : Block) (p : ConsensusParams) :
  validator_validateTransactions ed25519_verify interleave v block p = (b', Ok tt) ->
  exists cb rest txs, b_Transactions block = cb :: rest /\ is_type cb TxCoinbase = true /\
    fill_chain_ids (bv_chainID v) (cb :: rest) = (txs, Ok tt) /\ b' = set_transactions txs block /\
    verifyTransactionsBatch ed25519_verify interleave b' p = Ok tt /\
    (0 < GetHeight block -> validateCoinbaseEconomics v b' = Ok tt).
Proof.
  unfold validator_validateTransactions. destruct (b_Transactions block) as [|cb rest]; [discriminate|].
  destruct (is_type cb TxCoinbase) eqn:Hcb; cbn [negb]; [|discriminate].
  destruct (fill_chain_ids _ _) as [txs r] eqn:Ef. intros E. injection E as <- E. exists cb, rest, txs.
  destruct r as [[]|]; cbn [result_bind] in E; [|discriminate E].
  destruct (verifyTransactionsBatch _ _ _ _) as [[]|] eqn:Ev; cbn [result_bind] in E; [|discriminate E].
  split_and!; try done. intros Hpos. unfold GetHeight in Hpos.
  replace (b_Height block >? 0) with true in E by lia.
  by destruct (validateCoinbaseEconomics v (set_transactions txs block)) as [[]|].
Qed.

Lemma validator_timestamp (block parent : Block) (txs : list Transaction) :
  validateTimestamp network_now block parent = Ok tt ->
  validateBlockTimestampLocked network_now (set_transactions txs block) parent = Ok tt.
Proof.
  unfold validateTimestamp, validateBlockTimestampLocked, BlockTimeMaxDrift, MaxBlockTimeDriftSec, fail_if.
  cbn [b_Header set_transactions]. destruct (_ <=? _); cbn [result_bind]; [discriminate|].
  destruct (_ >? _); [discriminate|done].
Qed.

Lemma validator_economics (v : BlockValidator) (b : Block) (c : Chain S) :
  cp_MonetaryPolicy (bv_consensus v) = monetaryPolicy c -> 0 < GetHeight b ->
  first_is_coinbase b = true -> validateCoinbaseEconomics v b = Ok tt -> validateCoinbaseLocked b c = Ok tt.
Proof.
  intros Hmp Hpos Hf. unfold validateCoinbaseEconomics, validateCoinbaseLocked, first_is_coinbase in *.
  destruct (consensus_validateAddress _); [|discriminate]. destruct (b_Transactions b) as [|cb rest]; [discriminate Hf|].
  cbn [tail]. destruct (total_fees rest 0) as [fees|] eqn:Ef; cbn [result_bind]; [|discriminate].
  rewrite Hf, Hmp. cbn [negb fail_if result_bind]. replace (GetHeight b >? 0) with true by lia.
  unfold sum_fees. rewrite (total_fees_sum rest 0 fees Ef). intros E. inv_result. bool_to_prop. done.
Qed.

(** What is left of the chain's validation when the other checks pass. *)
Lemma links_decide (h1 h2 : list Z) (n m ver : Z) (r : result unit) :
  ((fail_if (negb (bytes_eqb h1 h2)) "invalid previous hash" ;;?
    fail_if (negb (n =? m)) "invalid block height" ;;?
    wrap "invalid timestamp" (Ok tt) ;;? wrap "invalid difficulty" (Ok tt) ;;?
    (if ver >=? 2 then wrap "invalid merkle root" r else Ok tt) ;;?
    wrap "invalid transactions" (Ok tt) ;;? wrap "invalid coinbase" (Ok tt)) = Ok tt)
  <-> h1 = h2 /\ n = m /\ (2 <= ver -> r = Ok tt).
Proof.
  rewrite <- bytes_eqb_spec, <- (Z.eqb_eq n m). destruct (bytes_eqb h1 h2); [|by split; [|intros [? _]]].
  destruct (n =? m); [|by split; [|intros (_ & ? & _)]]. cbn [negb fail_if wrap result_bind].
  rewrite Z.geb_leb. destruct (Z.leb_spec 2 ver) as [Hv|Hv].
  - destruct r as [[]|]; cbn; [done|]. split; [done|]. intros (_ & _ & E). discriminate (E Hv).
  - split; [|done]. intros _. split_and!; try done. lia.
Qed.

(** C8. What an acceptance by the validator leaves to the chain, exactly.  Take a block of at most ten
    transactions, transfers after the coinbase, that passes [ValidateBlock] on the block indexed
    under its previous hash.  The validation of [connectBlockLocked] passes, once the chain ids
    the validator fills in are there, exactly when the three things the validator never looks at hold: the previous hash
    is the parent's hash, the height is the one after the parent's, and from version 2 on the merkle
    root is right.  If the link holds and the state root is empty or has 32 bytes (one
    of another length enters the two proof-of-work headers differently), the check of the seal
    in a reorganization passes as well. *)
Theorem accepted_is_valid (v : BlockValidator) (block b' : Block) (parent : BlockRef) (state : option State)
    (c : Chain S)
  (E : ValidateBlock ed25519_verify interleave keccak256 network_now v (Some block) (Some (ref_blk parent)) state
       = Val (Some b', Ok tt))
  (Hp : bv_consensus v = consensus c) (Hmp : cp_MonetaryPolicy (consensus c) = monetaryPolicy c)
  (Hidx : blocksByHash c !! hexprev block = Some parent) (Hpos : 0 < GetHeight block)
  (Hsmall : (length (b_Transactions block) <= 10)%nat)
  (Htypes : Forall (fun tx => is_type tx TxTransfer = true) (tail (b_Transactions block)))
  (Hmin : 0 <= MinDifficulty (consensus c) < 2 ^ 32) (Hbits : 0 <= h_DifficultyBits (b_Header parent) < 2 ^ 32) :
  (validateBlockLocked ed25519_verify (engine_seal keccak256 (New ModeNormal)) network_now b' c = Ok tt <->
   h_PrevHash (b_Header block) = b_Hash parent /\ GetHeight block = (GetHeight parent + 1)%u64 /\
   (2 <= h_Version (b_Header block) -> validateMerkleRootLocked b' c = Ok tt)) /\
  (h_PrevHash (b_Header block) = b_Hash parent ->
   h_StateRoot (b_Header block) = [] \/ length (h_StateRoot (b_Header block)) = 32%nat ->
   verifyBlockPoWSeal (engine_seal keccak256 (New ModeNormal)) b' (Some (parent : Block)) = Ok tt) /\
  Forall (fun tx => tx_ChainID tx = bv_chainID v) (b_Transactions b').
Proof.
  apply ValidateBlock_inv in E as (Hs & Hpow & Hd & Ht & block' & Eb & Htx). injection Eb as <-.
  assert (Hhash : len (b_Hash block) <> 0) by (by apply structure_hash in Hs).
  apply validateTransactions_inv in Htx as (cb0 & rest0 & txs & Etxs & Hcb0 & Efill & -> & Hv & Hec).
  destruct (filled_shape (bv_chainID v) cb0 rest0 txs Efill Hcb0) as (cb & rest & -> & Hcb & Hlen & Hty).
  rewrite Etxs in Htypes, Hsmall. cbn [tail length] in Htypes, Hsmall. apply Hty in Htypes.
  assert (Hv' : Forall (fun tx => VerifyForConsensus ed25519_verify tx (consensus c) (GetHeight block) = Ok tt) rest).
  { rewrite <- Hp. apply small_batch_verified in Hv; [exact Hv| |exact Htypes]. cbn. lia. }
  rewrite Hp in Hd. split; [|split; [|by apply (fill_ids _ (cb0 :: rest0))]].
  - unfold validateBlockLocked. change (b_Hash (set_transactions _ _)) with (b_Hash block).
    change (GetHeight (set_transactions _ _)) with (GetHeight block). change (hexprev (set_transactions _ _)) with (hexprev block).
    change (b_Header (set_transactions _ _)) with (b_Header block). cbn [b_Transactions set_transactions].
    replace (len (b_Hash block) =? 0) with false by lia. change (len (cb :: rest) =? 0) with false.
    cbn [fail_if result_bind]. replace (GetHeight block =? 0) with false by lia. rewrite Hidx.
    rewrite (validator_timestamp block parent (cb :: rest) (Ht _ eq_refl)).
    assert (validateBlockDifficultyLocked (consensus c) (set_transactions (cb :: rest) block) parent = Ok tt) as ->
      by (by apply validator_difficulty in Hd; [|lia|..]).
    assert (validateTransactionsLocked ed25519_verify (set_transactions (cb :: rest) block) c = Ok tt) as ->.
    { unfold validateTransactionsLocked. cbn [b_Transactions set_transactions validate_txs Nat.eqb andb]. rewrite Hcb.
      cbn [result_bind]. by apply validate_transfers. }
    assert (validateCoinbaseLocked (set_transactions (cb :: rest) block) c = Ok tt) as ->.
    { apply (validator_economics v); [by rewrite Hp|exact Hpos|exact Hcb|exact (Hec Hpos)]. }
    apply links_decide.
  - intros Hprev Hroot. by apply validator_sealed.
Qed.
End against_the_chain.

(** ** Samples *)
(** The workers write last index first; only signatures equal to their message are good. *)
Definition last_first (ls : list (list nat)) : list nat := rev (concat ls).
Definition echo_verify (_ m s : list Z) : bool := bytes_eqb m s.
Definition twelve_messages : list (list Z) := map (fun i => [Z.of_nat i]) (seq 0 12).
Definition twelve_signatures : list (list Z) := <[3%nat := [0]]> (<[11%nat := [0]]> twelve_messages).

Lemma batch_is_sequential_witness :
  let expected := <[3%nat := false]> (<[11%nat := false]> (replicate 12 true)) in
  verifyBatchInternal echo_verify last_first (replicate 12 zero_key) twelve_messages twelve_signatures = expected /\
  VerifyBatch echo_verify last_first (replicate 12 zero_key) twelve_messages twelve_signatures = Ok expected.
Proof.
  destruct (batch_is_sequential echo_verify last_first
    (fun ls => symmetry (Permutation.Permutation_rev (concat ls)))
    (replicate 12 zero_key) twelve_messages twelve_signatures) as [-> ->].
  split; vm_compute; reflexivity.
Defined.

(** Ten transfers after the coinbase. *)
Definition large_block : Block :=
  set_transactions (coinbase_tx miner_addr reward :: replicate 10 sample_tx) (ref_blk n2).

Lemma large_block_refused_witness :
  verifyTransactionsBatch accept_all (@concat nat) large_block main_params = Err ErrInvalidSignature /\
  forall b', ValidateBlock accept_all (@concat nat) sha256 1700000060 (NewBlockValidator main_params 1)
    (Some large_block) (Some (ref_blk a1)) None <> Val (b', Ok tt).
Proof.
  apply (large_block_refused accept_all (@concat nat) sha256 1700000060 (NewBlockValidator main_params 1)
    large_block (Some (ref_blk a1)) None); [reflexivity|cbn; lia|].
  exists sample_tx. split; [apply elem_of_cons; by left|reflexivity].
Defined.

(** A block on the sample chain of [Mining], half a minute after its parent. *)
Definition half_minute_root : list Z :=
  Eval vm_compute in
    match tx_hashes [coinbase_tx miner_addr reward] main_params 1 with
    | Ok leaves => match MerkleRoot leaves with Ok r => r | Err _ => [] end
    | Err _ => []
    end.
Definition half_minute_at (height : Z) : Block :=
  mkBlock (replicate 32 2) height
    (mkBlockHeader 2 (replicate 32 1) 1700000030 100 0 0 (replicate 32 9) half_minute_root 1 "")
    [coinbase_tx miner_addr reward] None miner_addr "".
Definition half_minute : Block := half_minute_at 1.

Lemma half_minute_pow (height : Z) :
  height = 1 \/ height = 7 ->
  validateBlockPoWNogoPow tiny_digest (half_minute_at height) (Some (ref_blk (start 100))) = Val (Ok tt).
Proof.
  intros Hh. unfold validateBlockPoWNogoPow.
  assert (exists ph, validator_pow_header (half_minute_at height) = Ok ph /\ ph_Number ph = height /\ ph_Difficulty ph = 100)
    as (ph & Eph & Hn & Hd).
  { unfold validator_pow_header.
    destruct (Transaction.StringToAddress _) as [addr|] eqn:Ea; [|destruct Hh as [-> | ->]; vm_compute in Ea; discriminate Ea].
    eexists. split; [reflexivity|]. by destruct Hh as [-> | ->]. }
  rewrite Eph. clear Eph. unfold VerifySealWithBlockHash. rewrite decide_False by discriminate.
  cbn [engine_header Number big_uint64 res_bind]. rewrite Hn.
  assert (Hc : checkable (engine_header ph) 100).
  { split; [exists height; split; [cbn; by rewrite Hn|by destruct Hh as [-> | ->]]|]. split; [by cbn; rewrite Hd|done]. }
  destruct (verify_hash_run tiny_digest (engine_header ph) (HeaderHash tiny_digest (engine_header ph)) 100 (New ModeNormal))
    as (t & Ev & _); [apply cache_new|exact Hc|].
  rewrite decide_True in Ev by (by apply tiny_sealed).
  destruct Hh as [-> | ->]; cbv beta iota; rewrite Ev; reflexivity.
Qed.

Definition sync_validator : BlockValidator := NewBlockValidator main_params 1.

(** The validator takes the block at its height, and at a height far from its parent's. *)
Lemma half_minute_accepted (height : Z) :
  height = 1 \/ height = 7 ->
  ValidateBlock accept_all (@concat nat) tiny_digest 1700000030 sync_validator (Some (half_minute_at height))
    (Some (ref_blk (start 100))) None = Val (Some (half_minute_at height), Ok tt).
Proof.
  intros Hh. unfold ValidateBlock. rewrite half_minute_pow by done.
  assert (validateBlockStructure sync_validator (half_minute_at height) = Ok tt) as -> by (by destruct Hh as [-> | ->]).
  cbn [wrap res_bind bv_consensus sync_validator NewBlockValidator].
  assert (BlockValidator_validateDifficulty main_params (half_minute_at height) (Some (ref_blk (start 100))) = Ok tt) as ->
    by (destruct Hh as [-> | ->]; vm_compute; reflexivity).
  cbn [wrap].
  assert (validateTimestamp 1700000030 (half_minute_at height) (ref_blk (start 100)) = Ok tt) as ->
    by (vm_compute; reflexivity).
  cbn [wrap].
  assert (validator_validateTransactions accept_all (@concat nat) sync_validator (half_minute_at height) main_params
          = (half_minute_at height, Ok tt)) as -> by (destruct Hh as [-> | ->]; vm_compute; reflexivity).
  reflexivity.
Qed.

(** The chain takes the first and refuses the second, which the validator accepts as well. *)
Lemma accepted_is_valid_witness :
  validateBlockLocked accept_all (engine_seal tiny_digest (New ModeNormal)) 1700000030 half_minute (young 100) = Ok tt /\
  validateBlockLocked accept_all (engine_seal tiny_digest (New ModeNormal)) 1700000030 (half_minute_at 7) (young 100) <> Ok tt.
Proof.
  split.
  - apply (accepted_is_valid accept_all (@concat nat) tiny_digest 1700000030 sync_validator half_minute half_minute
      (start 100) None (young 100) (half_minute_accepted 1 (or_introl eq_refl))); try reflexivity.
    all: try (cbn; lia); try (by constructor).
    all: vm_compute; split; congruence.
  - intros H.
    apply (accepted_is_valid accept_all (@concat nat) tiny_digest 1700000030 sync_validator (half_minute_at 7) (half_minute_at 7)
      (start 100) None (young 100) (half_minute_accepted 7 (or_intror eq_refl))) in H; try reflexivity.
    all: try (cbn; lia); try (by constructor).
    all: vm_compute; try (split; congruence). destruct H as (_ & H & _). vm_compute in H. discriminate H.
Defined.
