(* ===== verification/Checkpoint.v ===== *)
(** * Checkpoint voting ([core/checkpoint_voting.go])

    Every 1000 blocks a node signs the hash of its block and sends the vote to its peers;
    the votes that agree become a checkpoint record, which is stored and served to new
    nodes.  The handlers of [network/reactor/reactor_handlers.go] and the parts of
    [network/sync.go] that feed the voter and take records from peers are included.

    ed25519 and the JSON form of a list of records are arguments.  Go ranges over the maps
    of votes in no particular order: the orders are arguments too.  The goroutine that
    receives messages recovers from a panic and the mutex is released by [defer], so a
    step that panics keeps the state it had reached. *)

From S2P Require Import Prelude Bytes Sha256 Json Float Chain.
From stdpp Require Import base list gmap strings numbers.
From Stdlib Require Import ZArith Lia.

Open Scope Z_scope.
Open Scope go_scope.

(** ** Data *)
Definition CheckpointMinVotes : Z := 2.
Definition CheckpointThreshold : float64 := f64_const 67 100.
Definition MaxPendingCheckpoints : Z := 5.

Record ValidatorSignature := mkValidatorSignature {
  vs_ValidatorID : string; vs_PubKey : list Z; vs_Signature : list Z; vs_Timestamp : Z }.

Record CheckpointRecord := mkCheckpointRecord {
  cr_Height : Z; cr_BlockHash : string; cr_Timestamp : Z; cr_PrevCheckpointHash : string;
  cr_Signatures : list ValidatorSignature; cr_ActiveValidatorCount : Z }.

Record CheckpointVote := mkCheckpointVote {
  cv_Height : Z; cv_BlockHash : string; cv_ValidatorID : string;
  cv_PubKey : list Z; cv_Signature : list Z; cv_Timestamp : Z }.

(** What the voter asks of [ChainStore]: the bytes under the checkpoint key (with [found] and
    an error), their replacement, and the newest entry of the height index. *)
Class CheckpointStore (S : Type) := {
  GetCheckpoints : S -> list Z * bool * result unit;
  PutCheckpoints : list Z -> S -> S * result unit;
  LatestCheckpoint : S -> result (Z * string) }.

Abbreviation Votes := (gmap string CheckpointVote).

Record CheckpointVoter (S : Type) := mkVoter {
  privateKey : list Z;
  publicKey : list Z;
  validatorID : string;
  votes : gmap Z Votes;
  pendingRecords : gmap Z CheckpointRecord;
  latestCheckpoint : option CheckpointRecord;
  store : option S;
  onCheckpointFinalized : bool;     (* whether a callback is set *)
  callbacks : list CheckpointRecord (* the goroutines started for it, newest last *) }.
Arguments mkVoter {S}. Arguments privateKey {S}. Arguments publicKey {S}.
Arguments validatorID {S}. Arguments votes {S}. Arguments pendingRecords {S}.
Arguments latestCheckpoint {S}. Arguments store {S}. Arguments onCheckpointFinalized {S}.
Arguments callbacks {S}.

(** The orders of one run of [checkQuorumLocked]: over the votes, over the counts, and over
    the votes again when the signatures are collected. *)
Record Ranges := mkRanges {
  range_votes : Votes -> list CheckpointVote;
  range_counts : gmap string Z -> list (string * Z);
  range_sigs : Votes -> list CheckpointVote }.

Definition values (m : Votes) : list CheckpointVote := map snd (map_to_list m).

Definition ranges_ok (rg : Ranges) : Prop :=
  (forall m, range_votes rg m ≡ₚ values m) /\
  (forall m, range_counts rg m ≡ₚ map_to_list m) /\
  (forall m, range_sigs rg m ≡ₚ values m).

(** The order of the keys, which is one of the possible ones. *)
Definition key_order : Ranges := mkRanges values map_to_list values.

(** ** Hashes *)
Definition buildVotePayload (height : Z) (blockHash : string) : list Z :=
  sha256 (bytes_of_string ("NOGO_CHECKPOINT:" +:+ dec_string height +:+ ":" +:+ blockHash)).

Definition sha256Hash (data : string) : string := hex_encode (sha256 (bytes_of_string data)).

(** [fmt.Sprintf("%x", sha256(pubKey)[:8])] *)
Definition vote_id (pubKey : list Z) : string := hex_encode (take 8 (sha256 pubKey)).

Section Voter.
Context {S : Type} `{CheckpointStore S}.
Context (ed_sign : list Z -> list Z -> list Z)
        (ed_verify : list Z -> list Z -> list Z -> bool)
        (marshal : list CheckpointRecord -> list Z)
        (unmarshal : list Z -> list CheckpointRecord * bool).

Abbreviation Voter := (CheckpointVoter S).
Implicit Types v : Voter.

(** [ed25519.Sign] and [ed25519.Verify] panic on keys of the wrong length. *)
Definition Sign (priv msg : list Z) : res (list Z) :=
  if len priv =? 64 then Val (ed_sign priv msg) else Halt (Panic "ed25519: bad private key length").
Definition Verify (pub msg sig : list Z) : res bool :=
  if len pub =? 32 then Val (ed_verify pub msg sig) else Halt (Panic "ed25519: bad public key length").

(** ** Assignments *)
Definition set_votes (x : gmap Z Votes) v : Voter :=
  mkVoter (privateKey v) (publicKey v) (validatorID v) x (pendingRecords v) (latestCheckpoint v)
    (store v) (onCheckpointFinalized v) (callbacks v).
Definition set_pending (x : gmap Z CheckpointRecord) v : Voter :=
  mkVoter (privateKey v) (publicKey v) (validatorID v) (votes v) x (latestCheckpoint v)
    (store v) (onCheckpointFinalized v) (callbacks v).
Definition set_latest (x : option CheckpointRecord) v : Voter :=
  mkVoter (privateKey v) (publicKey v) (validatorID v) (votes v) (pendingRecords v) x
    (store v) (onCheckpointFinalized v) (callbacks v).
Definition set_voter_store (x : option S) v : Voter :=
  mkVoter (privateKey v) (publicKey v) (validatorID v) (votes v) (pendingRecords v)
    (latestCheckpoint v) x (onCheckpointFinalized v) (callbacks v).
Definition set_callbacks (x : list CheckpointRecord) v : Voter :=
  mkVoter (privateKey v) (publicKey v) (validatorID v) (votes v) (pendingRecords v)
    (latestCheckpoint v) (store v) (onCheckpointFinalized v) x.

(** ** Operations *)
Definition NewCheckpointVoter (privKey pubKey : list Z) (id : string) (st : option S) : Voter :=
  mkVoter privKey pubKey id ∅ ∅ None st false [].

Definition SetOnCheckpointFinalized (cb : bool) v : Voter :=
  mkVoter (privateKey v) (publicKey v) (validatorID v) (votes v) (pendingRecords v)
    (latestCheckpoint v) (store v) cb (callbacks v).

(** The first vote at a height makes room: when more than five heights wait, those below
    [height - 5000] go, and the subtraction of [uint64]s wraps. *)
Definition prune_heights (height : Z) v : Voter :=
  let old h := h <? (height - MaxPendingCheckpoints * CheckpointInterval)%u64 in
  set_pending (filter (fun kv => old (fst kv) && bool_decide (is_Some (votes v !! fst kv)) = false) (pendingRecords v))
    (set_votes (filter (fun kv => old (fst kv) = false) (votes v)) v).

Definition SignCheckpoint (now height : Z) (blockHash : string) : P Voter (result CheckpointVote) :=
  let# v := p_get in
  let# sig := p_lift (Sign (privateKey v) (buildVotePayload height blockHash)) in
  let vote := mkCheckpointVote height blockHash (validatorID v) (publicKey v) sig now in
  match votes v !! height with
  | Some _ => p_ret tt
  | None =>
      p_modify (set_votes (<[height := ∅]> (votes v))) ;;#
      p_modify (fun v => if MaxPendingCheckpoints <? Z.of_nat (size (votes v))
                         then prune_heights height v else v)
  end ;;#
  let# v := p_get in
  match votes v !! height with
  | None => p_lift (Halt (Panic "assignment to entry in nil map"))
  | Some m => p_modify (set_votes (<[height := <[validatorID v := vote]> m]> (votes v)))
  end ;;#
  p_lift (slice16 blockHash) ;;#
  p_ret (Ok vote).

(** The record replaces the stored one of the same height. *)
Fixpoint put_record (r : CheckpointRecord) (rs : list CheckpointRecord) : list CheckpointRecord :=
  match rs with
  | [] => [r]
  | x :: rs' => if cr_Height x =? cr_Height r then r :: rs' else x :: put_record r rs'
  end.

Definition persist (r : CheckpointRecord) (s : S) : S :=
  let '(existingBytes, found, _) := GetCheckpoints s in
  let allRecords := if (found : bool) then fst (unmarshal existingBytes) else [] in
  fst (PutCheckpoints (marshal (put_record r allRecords)) s).

Definition vote_signature (x : CheckpointVote) : ValidatorSignature :=
  mkValidatorSignature (cv_ValidatorID x) (cv_PubKey x) (cv_Signature x) (cv_Timestamp x).

Definition collect_signatures (blockHash : string) (vs : list CheckpointVote) : list ValidatorSignature :=
  map vote_signature (filter (fun x => cv_BlockHash x = blockHash) vs).

Definition make_record (rg : Ranges) (now height : Z) (blockHash : string) v : CheckpointRecord :=
  let m := default ∅ (votes v !! height) in
  let prevHash :=
    match latestCheckpoint v with
    | Some l => sha256Hash (dec_string (cr_Height l) +:+ ":" +:+ cr_BlockHash l)
    | None => ""%string
    end in
  mkCheckpointRecord height blockHash now prevHash
    (collect_signatures blockHash (range_sigs rg m)) (Z.of_nat (size m)).

Definition finalizeLocked (rg : Ranges) (now height : Z) (blockHash : string) : P Voter bool :=
  let# v := p_get in
  let record := make_record rg now height blockHash v in
  p_modify (set_latest (Some record)) ;;#
  p_modify (set_pending (<[height := record]> (pendingRecords v))) ;;#
  p_modify (set_voter_store (persist record <$> store v)) ;;#
  p_lift (slice16 blockHash) ;;#
  p_modify (fun v => set_votes (delete height (votes v)) v) ;;#
  p_modify (fun v => if onCheckpointFinalized v then set_callbacks (callbacks v ++ [record]) v else v) ;;#
  p_ret true.

(** The first loop: it stops at the first hash that reaches two votes. *)
Fixpoint count_loop (vs : list CheckpointVote) (hashCounts : gmap string Z) : gmap string Z + string :=
  match vs with
  | [] => inl hashCounts
  | x :: vs' =>
      let c := default 0 (hashCounts !! cv_BlockHash x) + 1 in
      if CheckpointMinVotes <=? c then inr (cv_BlockHash x)
      else count_loop vs' (<[cv_BlockHash x := c]> hashCounts)
  end.

Fixpoint best_loop (hcs : list (string * Z)) (bestHash : string) (bestCount : Z) : string * Z :=
  match hcs with
  | [] => (bestHash, bestCount)
  | (h, c) :: hcs' =>
      if bestCount <? c then best_loop hcs' h c else best_loop hcs' bestHash bestCount
  end.

Definition reaches_threshold (bestCount n : Z) : bool :=
  f64_leb (f64_mul (f64_of_Z n) CheckpointThreshold) (f64_of_Z bestCount).

Definition checkQuorumLocked (rg : Ranges) (now height : Z)
    : P Voter (result (bool * option CheckpointRecord)) :=
  let# v := p_get in
  let m := default ∅ (votes v !! height) in
  if Z.of_nat (size m) <? CheckpointMinVotes then p_ret (Ok (false, None))
  else match count_loop (range_votes rg m) ∅ with
       | inr h => let# b := finalizeLocked rg now height h in p_ret (Ok (b, None))
       | inl hashCounts =>
           let '(bestHash, bestCount) := best_loop (range_counts rg hashCounts) "" 0 in
           if reaches_threshold bestCount (Z.of_nat (size m))
           then let# b := finalizeLocked rg now height bestHash in p_ret (Ok (b, None))
           else p_ret (Ok (false, None))
       end.

Definition ReceiveVote (rg : Ranges) (now : Z) (vote : option CheckpointVote)
    : P Voter (result (bool * option CheckpointRecord)) :=
  match vote with
  | None => p_ret (Err "receive vote: invalid vote data")
  | Some x =>
      if (cv_Height x =? 0) || bool_decide (cv_BlockHash x = ""%string)
      then p_ret (Err "receive vote: invalid vote data")
      else
        let# ok := p_lift (Verify (cv_PubKey x) (buildVotePayload (cv_Height x) (cv_BlockHash x))
                             (cv_Signature x)) in
        if negb ok
        then p_lift (slice16 (cv_ValidatorID x)) ;;#
             p_ret (Err "receive vote: signature verification failed for validator")
        else
          p_modify (fun v =>
            set_votes (<[cv_Height x :=
              <[vote_id (cv_PubKey x) := x]> (default ∅ (votes v !! cv_Height x))]> (votes v)) v) ;;#
          checkQuorumLocked rg now (cv_Height x)
  end.

Definition GetLatestCheckpoint v : option CheckpointRecord := latestCheckpoint v.

Definition LoadLatestCheckpoint : P Voter (option CheckpointRecord) :=
  let# v := p_get in
  match store v with
  | None => p_ret None
  | Some s =>
      match LatestCheckpoint s with
      | Err _ => p_ret None
      | Ok (_, hash) =>
          if bool_decide (hash = ""%string) then p_ret None
          else
            let '(cpBytes, found, cpErr) := GetCheckpoints s in
            if negb (is_ok cpErr) || negb found then p_ret None
            else
              let '(records, parsed) := unmarshal cpBytes in
              if negb parsed then p_ret None
              else match list.last records with
                   | None => p_ret None
                   | Some r => p_modify (set_latest (Some r)) ;;# p_ret (Some r)
                   end
      end
  end.

Definition GetPendingVotes (rg : Ranges) (height : Z) v : option (list CheckpointVote) :=
  range_votes rg <$> votes v !! height.

Definition VerifyCheckpointSignature (sig : ValidatorSignature) (height : Z) (blockHash : string) : res bool :=
  Verify (vs_PubKey sig) (buildVotePayload height blockHash) (vs_Signature sig).

(** ** Records from peers *)
Fixpoint verify_signatures (height : Z) (blockHash : string) (sigs : list ValidatorSignature)
    (seenValidators : gset string) : res (result unit) :=
  match sigs with
  | [] => Val (Ok tt)
  | s :: sigs' =>
      if bool_decide (vs_ValidatorID s ∈ seenValidators)
      then res_bind (slice16 (vs_ValidatorID s)) (fun _ =>
           Val (Err "verify checkpoint: duplicate validator"))
      else
        res_bind (Verify (vs_PubKey s) (buildVotePayload height blockHash) (vs_Signature s)) (fun ok =>
        if negb ok
        then res_bind (slice16 (vs_ValidatorID s)) (fun _ =>
             Val (Err "verify checkpoint: invalid signature from validator"))
        else verify_signatures height blockHash sigs' ({[vs_ValidatorID s]} ∪ seenValidators))
  end.

Definition min_required (count : Z) : Z :=
  if 0 <? count
  then let requiredByRatio := f64_trunc (f64_mul (f64_of_Z count) CheckpointThreshold) in
       if requiredByRatio <? CheckpointMinVotes then CheckpointMinVotes else requiredByRatio
  else 2.

Definition VerifyCheckpointRecord (record : option CheckpointRecord) : res (result unit) :=
  match record with
  | None => Val (Err "verify checkpoint: nil record")
  | Some r =>
      if cr_Height r =? 0 then Val (Err "verify checkpoint: invalid height")
      else if bool_decide (cr_BlockHash r = ""%string) then Val (Err "verify checkpoint: empty block hash")
      else if len (cr_Signatures r) <? min_required (cr_ActiveValidatorCount r)
      then Val (Err "verify checkpoint: insufficient signatures")
      else
        res_bind (verify_signatures (cr_Height r) (cr_BlockHash r) (cr_Signatures r) ∅) (fun e =>
        match e with
        | Err e => Val (Err e)
        | Ok _ =>
            if negb (bool_decide (cr_PrevCheckpointHash r = ""%string)) && (strlen (cr_PrevCheckpointHash r) <? 8)
            then Val (Err "verify checkpoint: invalid previous checkpoint hash")
            else Val (Ok tt)
        end)
  end.

(** ** The handlers

    [OnCheckpointVote] with a voter present; [peerID[:16]] is logged when a quorum is
    reached. *)
Definition OnCheckpointVote (rg : Ranges) (now : Z) (peerID : string) (height : Z) (blockHash valID : string)
    (pubKey signature : list Z) (timestamp : Z) : P Voter (result unit) :=
  let# r := ReceiveVote rg now
              (Some (mkCheckpointVote height blockHash valID pubKey signature timestamp)) in
  match r with
  | Err e => p_ret (Err ("receive checkpoint vote from: " +:+ e))
  | Ok (finalized, _) =>
      (if (finalized : bool) then p_lift (slice16 peerID) else p_ret tt) ;;# p_ret (Ok tt)
  end.

(** [DeliverCheckpoint]: the record that fast synchronisation aims at. *)
Definition DeliverCheckpoint (record : CheckpointRecord) (received : option CheckpointRecord)
    : option CheckpointRecord :=
  match received with
  | None => Some record
  | Some r => if cr_Height r <? cr_Height record then Some record else received
  end.

Definition OnCheckpointResponse (peerID : string) (record : CheckpointRecord)
    : P (option CheckpointRecord) (result unit) :=
  let# e := p_lift (VerifyCheckpointRecord (Some record)) in
  match e with
  | Err e => p_ret (Err ("verify checkpoint from: " +:+ e))
  | Ok _ =>
      p_modify (DeliverCheckpoint record) ;;#
      p_lift (slice16 peerID) ;;#
      p_ret (Ok tt)
  end.

(** [BroadcastCheckpointVote] of the synchronisation loop, and the same step of the chain
    when it appends a block: what is sent. *)
Definition BroadcastCheckpointVote (now height : Z) (blockHash : string) : P Voter (option CheckpointVote) :=
  let# r := SignCheckpoint now height blockHash in
  match r with
  | Err _ => p_ret None
  | Ok vote => p_ret (Some vote)
  end.
End Voter.

(** * Lemmas *)

(** ** The counts *)

(** How many votes of a list are for a hash. *)
Definition votes_for (bh : string) (vs : list CheckpointVote) : Z :=
  Z.of_nat (length (filter (fun x => cv_BlockHash x = bh) vs)).

#[export] Instance votes_for_proper (bh : string) :
  Proper ((≡ₚ) ==> eq) (votes_for bh).
Proof. intros l1 l2 Hp. unfold votes_for. by rewrite Hp. Qed.

Lemma votes_for_cons (bh : string) (x : CheckpointVote) (vs : list CheckpointVote) :
  votes_for bh (x :: vs) = (if decide (cv_BlockHash x = bh) then 1 else 0) + votes_for bh vs.
Proof. unfold votes_for. rewrite filter_cons. case_decide; cbn; lia. Qed.

Lemma votes_for_nonneg (bh : string) (vs : list CheckpointVote) : 0 <= votes_for bh vs.
Proof. unfold votes_for. lia. Qed.

(** Counting a list on top of counts that are all below two. *)
Lemma count_loop_spec (vs : list CheckpointVote) (hc : gmap string Z) :
  (forall bh, 0 <= default 0 (hc !! bh) < 2) ->
  match count_loop vs hc with
  | inr bh => 2 <= default 0 (hc !! bh) + votes_for bh vs
  | inl hc' =>
      (forall bh, default 0 (hc' !! bh) = default 0 (hc !! bh) + votes_for bh vs) /\
      (forall bh, 0 <= default 0 (hc' !! bh) < 2)
  end.
Proof.
  revert hc. induction vs as [|x vs IH]; intros hc Hc; cbn [count_loop].
  { split; [|done]. intros bh. unfold votes_for. cbn. lia. }
  set (c := default 0 (hc !! cv_BlockHash x) + 1).
  pose proof (Hc (cv_BlockHash x)) as Hx. unfold CheckpointMinVotes.
  destruct (Z.leb_spec 2 c) as [H2|H2].
  { rewrite votes_for_cons, decide_True by done. pose proof (votes_for_nonneg (cv_BlockHash x) vs). lia. }
  specialize (IH (<[cv_BlockHash x := c]> hc)).
  assert (Hc' : forall bh, default 0 (<[cv_BlockHash x := c]> hc !! bh) =
    default 0 (hc !! bh) + (if decide (cv_BlockHash x = bh) then 1 else 0)).
  { intros bh. case_decide as E; [subst bh; by rewrite lookup_insert_eq|].
    rewrite lookup_insert_ne by done. lia. }
  destruct (count_loop vs _) as [hc'|bh].
  - destruct IH as [H3 H4]; [intros bh; rewrite Hc'; specialize (Hc bh); case_decide; [subst bh|]; lia|].
    split; [|done]. intros bh. rewrite H3, Hc', votes_for_cons. lia.
  - rewrite votes_for_cons. rewrite Hc' in IH.
    enough (2 <= default 0 (hc !! bh) + (if decide (cv_BlockHash x = bh) then 1 else 0) + votes_for bh vs) by lia.
    apply IH. intros bh'. rewrite Hc'. specialize (Hc bh'). destruct (decide (cv_BlockHash x = bh')) as [<-|]; lia.
Qed.

Lemma best_loop_bound (hcs : list (string * Z)) (bh : string) (c b : Z) :
  0 <= c <= b -> Forall (fun hc => snd hc <= b) hcs -> 0 <= snd (best_loop hcs bh c) <= b.
Proof.
  intros Hc Hf. revert bh c Hc. induction Hf as [|[h k] hcs Hk Hf IH]; intros bh c Hc; cbn; [done|].
  cbn in Hk. destruct (Z.ltb_spec c k); apply IH; lia.
Qed.

(** One vote of two or more is never two thirds of them: the second test never passes. *)
Lemma threshold_needs_two (c n : Z) : 0 <= c <= 1 -> 2 <= n -> reaches_threshold c n = false.
Proof.
  intros Hc Hn. unfold reaches_threshold.
  assert (Ht : exists m, CheckpointThreshold = SpecFloat.S754_finite false m (-53)
                         /\ SpecFloat.Zdigits2 (Z.pos m) = 53) by (eexists; split; by vm_compute).
  destruct (Z_lt_le_dec n 4) as [H4|H4].
  - assert (n = 2 \/ n = 3) as [->| ->] by lia; assert (c = 0 \/ c = 1) as [->| ->] by lia; by vm_compute.
  - destruct Ht as (m & -> & Hm). by apply f64_share_gt_one.
Qed.

Section Facts.
Context {S : Type} `{CheckpointStore S}.
Context (ed_sign : list Z -> list Z -> list Z)
        (ed_verify : list Z -> list Z -> list Z -> bool)
        (marshal : list CheckpointRecord -> list Z)
        (unmarshal : list Z -> list CheckpointRecord * bool).

Abbreviation Voter := (CheckpointVoter S).
Abbreviation finalizeLocked := (finalizeLocked marshal unmarshal).
Abbreviation checkQuorumLocked := (checkQuorumLocked marshal unmarshal).
Abbreviation ReceiveVote := (ReceiveVote ed_verify marshal unmarshal).
Abbreviation SignCheckpoint := (SignCheckpoint ed_sign).
Implicit Types v : Voter.

(** ** Finalizing *)

(** The voter after the record is stored, and after the votes are dropped. *)
Definition recorded (r : CheckpointRecord) v : Voter :=
  set_voter_store (persist marshal unmarshal r <$> store v)
    (set_pending (<[cr_Height r := r]> (pendingRecords v)) (set_latest (Some r) v)).
Definition closed (r : CheckpointRecord) v : Voter :=
  let v1 := set_votes (delete (cr_Height r) (votes v)) (recorded r v) in
  if onCheckpointFinalized v then set_callbacks (callbacks v ++ [r]) v1 else v1.

Lemma finalize_eq rg now h bh v :
  finalizeLocked rg now h bh v =
  let r := make_record rg now h bh v in
  if strlen bh <? 16 then (recorded r v, Halt (Panic "slice bounds out of range"))
  else (closed r v, Val true).
Proof.
  unfold Checkpoint.finalizeLocked, p_bind, p_get, p_modify, p_lift, slice16, p_ret.
  cbn zeta. cbv beta iota. destruct (strlen bh <? 16); [done|].
  unfold closed, recorded.  cbn.
  reflexivity.
Qed.

Lemma votes_for_size (bh : string) (m : Votes) : votes_for bh (values m) <= Z.of_nat (size m).
Proof.
  unfold votes_for, values. pose proof (length_filter (fun x => cv_BlockHash x = bh) (map snd (map_to_list m))).
  rewrite length_map, length_map_to_list in *. lia.
Qed.

Lemma quorum_eq rg now h v :
  let m := default ∅ (votes v !! h) in
  checkQuorumLocked rg now h v =
  (if Z.of_nat (size m) <? 2 then p_ret (Ok (false, None))
   else match count_loop (range_votes rg m) ∅ with
        | inr bh => p_bind (finalizeLocked rg now h bh) (fun b => p_ret (Ok (b, None)))
        | inl hc =>
            let '(bh, c) := best_loop (range_counts rg hc) "" 0 in
            if reaches_threshold c (Z.of_nat (size m))
            then p_bind (finalizeLocked rg now h bh) (fun b => p_ret (Ok (b, None)))
            else p_ret (Ok (false, None))
        end) v.
Proof. reflexivity. Qed.

(** A height is finalized when two of its votes agree, and only then. *)
Lemma quorum_cases rg now h v :
  ranges_ok rg ->
  let m := default ∅ (votes v !! h) in
  ((forall bh, votes_for bh (values m) < 2) /\
   checkQuorumLocked rg now h v = (v, Val (Ok (false, None)))) \/
  (exists bh, 2 <= votes_for bh (values m) /\
   checkQuorumLocked rg now h v =
     p_bind (finalizeLocked rg now h bh) (fun b => p_ret (Ok (b, None))) v).
Proof.
  intros (Hv & Hc & _) m. rewrite quorum_eq. cbv zeta. fold m. destruct (Z.ltb_spec (Z.of_nat (size m)) 2) as [Hs|Hs].
  { left. split; [|done]. intros bh. pose proof (votes_for_size bh m). lia. }
  pose proof (count_loop_spec (range_votes rg m) ∅) as Hl.
  destruct (count_loop _ _) as [hc|bh].
  - left. destruct Hl as [H1 H2]; [intros bh; rewrite lookup_empty; cbn; lia|].
    split. { intros bh. specialize (H1 bh). specialize (H2 bh). rewrite lookup_empty, Hv in H1. cbn in H1. lia. }
    pose proof (best_loop_bound (range_counts rg hc) "" 0 1 ltac:(lia)) as Hb.
    destruct (best_loop _ _ _) as [bb bc]. cbn in Hb.
    rewrite threshold_needs_two; [done| |lia]. apply Hb. rewrite Hc.
    apply list.Forall_forall. intros [k c] Hin. apply elem_of_map_to_list in Hin.
    specialize (H2 k). rewrite Hin in H2. cbn in *. lia.
  - right. exists bh. split; [|reflexivity]. rewrite lookup_empty, Hv in Hl. cbn in Hl.
    apply Hl. intros bh'. rewrite lookup_empty. cbn. lia.
Qed.

(** ** The invariant: every vote and every record is signed *)

Definition signed_for (h : Z) (bh : string) (pub sig : list Z) : Prop :=
  ed_verify pub (buildVotePayload h bh) sig = true.

Definition record_signed (r : CheckpointRecord) : Prop :=
  2 <= len (cr_Signatures r) /\
  Forall (fun s => signed_for (cr_Height r) (cr_BlockHash r) (vs_PubKey s) (vs_Signature s)) (cr_Signatures r).

Record voter_inv (priv pub : list Z) v : Prop := {
  inv_priv : privateKey v = priv;
  inv_pub : publicKey v = pub;
  inv_votes : map_Forall (fun h m =>
    map_Forall (fun _ x => signed_for h (cv_BlockHash x) (cv_PubKey x) (cv_Signature x)) m) (votes v);
  inv_pending : map_Forall (fun h r => cr_Height r = h /\ record_signed r) (pendingRecords v);
  inv_callbacks : Forall record_signed (callbacks v) }.

Lemma make_record_signed priv pub rg now h bh v :
  ranges_ok rg -> voter_inv priv pub v ->
  2 <= votes_for bh (values (default ∅ (votes v !! h))) ->
  record_signed (make_record rg now h bh v).
Proof.
  intros (_ & _ & Hs) Hi Hc. unfold record_signed, make_record. cbn. unfold collect_signatures.
  set (m := default ∅ (votes v !! h)) in *. split.
  - unfold len. rewrite length_map, Hs. unfold votes_for in Hc. done.
  - apply Forall_map, list.Forall_forall. intros x. rewrite list_elem_of_filter, Hs.
    intros [<- Hin]. unfold values in Hin. apply list_elem_of_fmap in Hin as ([k y] & -> & Hin).
    apply elem_of_map_to_list in Hin. cbn. unfold m in Hin.
    destruct (votes v !! h) as [m'|] eqn:E; [|cbn [default from_option id] in Hin; by rewrite lookup_empty in Hin].
    exact (inv_votes _ _ _ Hi h m' E k y Hin).
Qed.

Lemma recorded_inv priv pub r v :
  record_signed r -> voter_inv priv pub v -> voter_inv priv pub (recorded r v).
Proof. intros Hr []. split; cbn; [done..|by apply map_Forall_insert_2|done]. Qed.

Lemma closed_inv priv pub r v :
  record_signed r -> voter_inv priv pub v -> voter_inv priv pub (closed r v).
Proof.
  intros Hr Hi. destruct (recorded_inv _ _ r v Hr Hi) as [? ? ? ? Hcb]. unfold closed.
  destruct (onCheckpointFinalized v); split; cbn in *; try done;
    [by apply map_Forall_delete|apply Forall_app; by rewrite Forall_singleton|by apply map_Forall_delete].
Qed.

Lemma quorum_inv priv pub rg now h v :
  ranges_ok rg -> voter_inv priv pub v -> voter_inv priv pub (fst (checkQuorumLocked rg now h v)).
Proof.
  intros Hrg Hi. destruct (quorum_cases rg now h v Hrg) as [[_ ->]|(bh & Hc & ->)]; [done|].
  pose proof (make_record_signed _ _ rg now h bh v Hrg Hi Hc).
  unfold p_bind. rewrite finalize_eq. cbn zeta. destruct (strlen bh <? 16); cbn; [by apply recorded_inv|by apply closed_inv].
Qed.

Lemma insert_vote_signed (vs : gmap Z Votes) (x : CheckpointVote) (h : Z) (id : string) :
  map_Forall (fun h m =>
    map_Forall (fun _ x => signed_for h (cv_BlockHash x) (cv_PubKey x) (cv_Signature x)) m) vs ->
  signed_for h (cv_BlockHash x) (cv_PubKey x) (cv_Signature x) ->
  map_Forall (fun h m =>
    map_Forall (fun _ x => signed_for h (cv_BlockHash x) (cv_PubKey x) (cv_Signature x)) m)
    (<[h := <[id := x]> (default ∅ (vs !! h))]> vs).
Proof.
  intros Hv Hx. apply map_Forall_insert_2; [|done]. apply map_Forall_insert_2; [done|].
  destruct (vs !! h) as [m|] eqn:E; cbn; [exact (Hv h m E)|apply map_Forall_empty].
Qed.

Lemma ReceiveVote_inv priv pub rg now x v :
  ranges_ok rg -> voter_inv priv pub v -> voter_inv priv pub (fst (ReceiveVote rg now x v)).
Proof.
  intros Hrg Hi. destruct x as [x|]; [|done]. unfold Checkpoint.ReceiveVote. case_match; [done|].
  unfold p_bind, p_lift, Verify. destruct (len (cv_PubKey x) =? 32); [|done]. cbv beta iota.
  destruct (ed_verify _ _ _) eqn:E; cbn [negb].
  - unfold p_modify. apply quorum_inv; [done|]. destruct Hi. split; cbn; try done.
    by apply insert_vote_signed.
  - unfold slice16, p_ret. by case_match.
Qed.

Lemma map_Forall_filtered {K A : Type} `{Countable K} (Q : K -> A -> Prop) (T : K * A -> Prop)
    `{forall x, Decision (T x)} (m : gmap K A) :
  map_Forall Q m -> map_Forall Q (filter T m).
Proof. intros Hm k x Hx. apply map_lookup_filter_Some in Hx as [Hx _]. exact (Hm k x Hx). Qed.

Lemma prune_inv priv pub h v : voter_inv priv pub v -> voter_inv priv pub (prune_heights h v).
Proof. intros []. split; cbn; try done; by apply map_Forall_filtered. Qed.

(** Making room for a height. *)
Definition make_room (h : Z) v : Voter :=
  match votes v !! h with
  | Some _ => v
  | None =>
      let v1 := set_votes (<[h := ∅]> (votes v)) v in
      if 5 <? Z.of_nat (size (votes v1)) then prune_heights h v1 else v1
  end.

(** The vote of the node, and the two panics on the way. *)
Lemma sign_eq now h bh v :
  len (privateKey v) = 64 ->
  let vote := mkCheckpointVote h bh (validatorID v) (publicKey v)
                (ed_sign (privateKey v) (buildVotePayload h bh)) now in
  SignCheckpoint now h bh v =
  let v1 := make_room h v in
  match votes v1 !! h with
  | None => (v1, Halt (Panic "assignment to entry in nil map"))
  | Some m =>
      (set_votes (<[h := <[validatorID v := vote]> m]> (votes v1)) v1,
       if strlen bh <? 16 then Halt (Panic "slice bounds out of range") else Val (Ok vote))
  end.
Proof.
  intros Hk. unfold Checkpoint.SignCheckpoint, p_bind, p_get, p_modify, p_lift, p_ret, Sign, slice16, make_room.
  rewrite Hk. change (64 =? 64) with true. cbv beta iota zeta. unfold MaxPendingCheckpoints.
  destruct (votes v !! h) as [m|] eqn:E.
  - rewrite E. by destruct (strlen bh <? 16).
  - destruct (5 <? _); [|cbn; rewrite lookup_insert_eq; by destruct (strlen bh <? 16)].
    destruct (votes (prune_heights _ _) !! h) as [m|]; [|reflexivity]. by destruct (strlen bh <? 16).
Qed.

Lemma make_room_inv priv pub h v : voter_inv priv pub v -> voter_inv priv pub (make_room h v).
Proof.
  intros Hi. unfold make_room. destruct (votes v !! h); [done|]. cbv zeta.
  assert (Hi' : voter_inv priv pub (set_votes (<[h := ∅]> (votes v)) v)).
  { destruct Hi. split; cbn; try done. apply map_Forall_insert_2; [apply map_Forall_empty|done]. }
  destruct (5 <? _); [by apply prune_inv|done].
Qed.

(** What [ed25519] promises about a key pair. *)
Definition key_pair (priv pub : list Z) : Prop :=
  len priv = 64 /\ len pub = 32 /\ forall msg, ed_verify pub msg (ed_sign priv msg) = true.

Lemma SignCheckpoint_inv priv pub now h bh v :
  key_pair priv pub -> voter_inv priv pub v -> voter_inv priv pub (fst (SignCheckpoint now h bh v)).
Proof.
  intros (Hl & _ & Hk) Hi. rewrite sign_eq by (by rewrite (inv_priv _ _ _ Hi)). cbv zeta.
  pose proof (make_room_inv _ _ h v Hi) as Hr. destruct (votes (make_room h v) !! h) as [m|] eqn:E; [|done].
  cbn [fst]. pose proof (inv_priv _ _ _ Hi) as E1. pose proof (inv_pub _ _ _ Hi) as E2. destruct Hr. split; cbn; try done.
  apply map_Forall_insert_2; [|done]. apply map_Forall_insert_2; [|by eapply inv_votes0].
  cbn. rewrite E1, E2. apply Hk.
Qed.

(** ** Runs of a voter

    Steps that panic are steps too: the state they leave is the one the next message finds. *)
Inductive step : Voter -> Voter -> Prop :=
| step_sign now h bh v : step v (fst (SignCheckpoint now h bh v))
| step_receive rg now x v : ranges_ok rg -> step v (fst (ReceiveVote rg now x v))
| step_load v : step v (fst (LoadLatestCheckpoint unmarshal v))
| step_callback cb v : step v (SetOnCheckpointFinalized cb v).

Definition reachable (priv pub : list Z) (id : string) (st : option S) v : Prop :=
  rtc step (NewCheckpointVoter priv pub id st) v.

Lemma load_inv priv pub v :
  voter_inv priv pub v -> voter_inv priv pub (fst (LoadLatestCheckpoint unmarshal v)).
Proof.
  intros Hi. unfold LoadLatestCheckpoint, p_bind, p_get, p_modify, p_ret.
  repeat case_match; try done. simplify_eq. cbn. destruct Hi. by split.
Qed.

Lemma step_inv priv pub v v' :
  key_pair priv pub -> step v v' -> voter_inv priv pub v -> voter_inv priv pub v'.
Proof.
  intros Hk Hs Hi. destruct Hs.
  - by apply SignCheckpoint_inv.
  - by apply ReceiveVote_inv.
  - by apply load_inv.
  - destruct Hi. by split.
Qed.

Lemma voter_reachable_inv priv pub id st v :
  key_pair priv pub -> reachable priv pub id st v -> voter_inv priv pub v.
Proof.
  intros Hk Hr. unfold reachable in Hr. remember (NewCheckpointVoter priv pub id st) as v0 eqn:E.
  assert (voter_inv priv pub v0) as Hi by (subst; by split).
  clear E. induction Hr; [done|]. eauto using step_inv.
Qed.

(** ** Verifying a record *)
Definition valid_record (r : CheckpointRecord) : Prop :=
  cr_Height r <> 0 /\ cr_BlockHash r <> ""%string /\
  min_required (cr_ActiveValidatorCount r) <= len (cr_Signatures r) /\
  NoDup (map vs_ValidatorID (cr_Signatures r)) /\
  Forall (fun s => len (vs_PubKey s) = 32 /\
                   signed_for (cr_Height r) (cr_BlockHash r) (vs_PubKey s) (vs_Signature s)) (cr_Signatures r) /\
  (cr_PrevCheckpointHash r = ""%string \/ 8 <= strlen (cr_PrevCheckpointHash r)).

Lemma verify_signatures_iff (h : Z) (bh : string) (sigs : list ValidatorSignature) (seen : gset string) :
  verify_signatures ed_verify h bh sigs seen = Val (Ok tt) <->
  NoDup (map vs_ValidatorID sigs) /\ (forall s, s ∈ sigs -> vs_ValidatorID s ∉ seen) /\
  Forall (fun s => len (vs_PubKey s) = 32 /\ signed_for h bh (vs_PubKey s) (vs_Signature s)) sigs.
Proof.
  revert seen. induction sigs as [|s sigs IH]; intros seen; cbn [verify_signatures map].
  { split; [|done]. intros _. split_and!; [constructor|set_solver|constructor]. }
  rewrite list.NoDup_cons, list.Forall_cons. unfold Verify, signed_for, slice16.
  destruct (bool_decide_reflect (vs_ValidatorID s ∈ seen)) as [Hin|Hin].
  { destruct (strlen _ <? 16); cbn; (split; [done|]); intros (_ & Hs & _); destruct (Hs s); set_solver. }
  destruct (Z.eqb_spec (len (vs_PubKey s)) 32) as [Hl|Hl]; cbn [res_bind]; [|split; [done|tauto]].
  destruct (ed_verify _ _ _); cbn [negb].
  2: { destruct (strlen _ <? 16); (split; [done|]); intros (_ & _ & [_ Hf] & _); discriminate Hf. }
  rewrite IH. split.
  - intros (H1 & H2 & H3). split_and!; try done; [|set_solver].
    intros Hm. apply list_elem_of_fmap in Hm as (y & Hy & Hm). apply (H2 y Hm). set_solver.
  - intros ((H1 & H2) & H3 & _ & H4). split_and!; try done. intros y Hy.
    assert (vs_ValidatorID y ∉ seen) by (apply H3; set_solver).
    assert (vs_ValidatorID y <> vs_ValidatorID s); [|set_solver].
    intros E. apply H1. apply list_elem_of_fmap. eauto.
Qed.

Lemma verify_record_iff (r : CheckpointRecord) :
  VerifyCheckpointRecord ed_verify (Some r) = Val (Ok tt) <-> valid_record r.
Proof.
  unfold VerifyCheckpointRecord, valid_record.
  destruct (Z.eqb_spec (cr_Height r) 0); [split; [done|tauto]|].
  destruct (bool_decide_reflect (cr_BlockHash r = ""%string)); [split; [done|tauto]|].
  destruct (Z.ltb_spec (len (cr_Signatures r)) (min_required (cr_ActiveValidatorCount r))); [split; [done|lia]|].
  trans (verify_signatures ed_verify (cr_Height r) (cr_BlockHash r) (cr_Signatures r) ∅ = Val (Ok tt) /\
         (cr_PrevCheckpointHash r = ""%string \/ 8 <= strlen (cr_PrevCheckpointHash r))).
  - destruct (verify_signatures _ _ _ _ _) as [[[]|e]|]; cbn [res_bind]; [|naive_solver..].
    destruct (bool_decide_reflect (cr_PrevCheckpointHash r = ""%string)); [naive_solver|].
    destruct (Z.ltb_spec (strlen (cr_PrevCheckpointHash r)) 8); cbn; [|naive_solver].
    split; [done|]. intros [_ [?|?]]; [done|lia].
  - rewrite verify_signatures_iff. set_solver.
Qed.

(** ** Receiving valid votes *)
Definition add_vote (x : CheckpointVote) v : Voter :=
  set_votes (<[cv_Height x :=
    <[vote_id (cv_PubKey x) := x]> (default ∅ (votes v !! cv_Height x))]> (votes v)) v.

(** A vote a peer can send: for a block of a positive height, signed by its own key. *)
Record valid_vote (h : Z) (bh : string) (x : CheckpointVote) : Prop := {
  vv_height : cv_Height x = h;
  vv_hash : cv_BlockHash x = bh;
  vv_positive : h <> 0;
  vv_long : 16 <= strlen bh;
  vv_key : len (cv_PubKey x) = 32;
  vv_signed : signed_for h bh (cv_PubKey x) (cv_Signature x) }.

Lemma receive_valid rg now h bh x v :
  valid_vote h bh x -> ReceiveVote rg now (Some x) v = checkQuorumLocked rg now h (add_vote x v).
Proof.
  intros [Hh Hb Hp Hl Hk Hs]. unfold Checkpoint.ReceiveVote. rewrite Hb, Hh.
  destruct (Z.eqb_spec h 0); [done|].
  rewrite bool_decide_eq_false_2 by (intros E; subst; by rewrite E in Hl). cbn [orb].
  unfold p_bind, p_lift, Verify. rewrite Hk. change (32 =? 32) with true. cbv beta iota.
  unfold signed_for in Hs. rewrite Hs. cbn [negb]. unfold p_modify, add_vote. by rewrite Hh.
Qed.

Lemma values_insert (k : string) (x : CheckpointVote) (m : Votes) :
  m !! k = None -> values (<[k := x]> m) ≡ₚ x :: values m.
Proof. intros Hm. unfold values. by rewrite map_to_list_insert. Qed.

(** A vote alone decides nothing. *)
Lemma lone_vote_waits rg now h bh x v :
  ranges_ok rg -> valid_vote h bh x -> votes v !! h = None ->
  ReceiveVote rg now (Some x) v =
    (set_votes (<[h := {[vote_id (cv_PubKey x) := x]}]> (votes v)) v, Val (Ok (false, None))).
Proof.
  intros Hrg Hx Hn. rewrite (receive_valid _ _ h bh) by done. unfold add_vote.
  rewrite (vv_height _ _ _ Hx), Hn. cbn [default from_option id].
  rewrite quorum_eq. cbn [votes set_votes]. rewrite lookup_insert_eq. cbv zeta. cbn [default from_option id].
  by rewrite insert_empty, map_size_singleton.
Qed.

(** Two agreeing votes are all the votes for their height. *)
Lemma agreeing_pair rg now h bh k x y v :
  ranges_ok rg -> cv_BlockHash x = bh -> valid_vote h bh y -> k <> vote_id (cv_PubKey y) ->
  votes v !! h = Some {[k := x]} ->
  exists rec, ReceiveVote rg now (Some y) v = (closed rec (add_vote y v), Val (Ok (true, None))) /\
    cr_Height rec = h /\ cr_BlockHash rec = bh /\ cr_ActiveValidatorCount rec = 2 /\
    cr_Signatures rec ≡ₚ [vote_signature y; vote_signature x] /\
    (cr_PrevCheckpointHash rec = ""%string \/ strlen (cr_PrevCheckpointHash rec) = 64).
Proof.
  intros Hrg Bx Hy Hid Hv. rewrite (receive_valid _ _ h bh) by done.
  set (m := <[vote_id (cv_PubKey y) := y]> {[k := x]} : Votes).
  assert (Hm : votes (add_vote y v) !! h = Some m).
  { unfold add_vote. rewrite (vv_height _ _ _ Hy), Hv. cbn. by rewrite lookup_insert_eq. }
  assert (Hp : values m ≡ₚ [y; x]).
  { unfold m. rewrite values_insert by (by rewrite lookup_singleton_ne).
    unfold values. by rewrite map_to_list_singleton. }
  pose proof (vv_hash _ _ _ Hy) as By.
  assert (Hc : forall b, votes_for b (values m) = if decide (bh = b) then 2 else 0).
  { intros b. rewrite Hp, !votes_for_cons, Bx, By. unfold votes_for. by case_decide. }
  destruct (quorum_cases rg now h (add_vote y v) Hrg) as [[Hlow _]|(b & Hb & ->)]; rewrite Hm in *; cbn [default from_option id] in *.
  { specialize (Hlow bh). rewrite Hc, decide_True in Hlow by done. lia. }
  rewrite Hc in Hb. destruct (decide (bh = b)) as [<-|]; [|lia].
  unfold p_bind. rewrite finalize_eq. cbv zeta.
  destruct (Z.ltb_spec (strlen bh) 16) as [Hl|_]; [pose proof (vv_long _ _ _ Hy); lia|].
  eexists. split; [done|]. unfold make_record. rewrite Hm. cbn [cr_Height cr_BlockHash cr_ActiveValidatorCount cr_Signatures cr_PrevCheckpointHash default from_option id].
  split_and!; [done|done| | |].
  - unfold m. by rewrite map_size_insert_None, map_size_singleton by (by rewrite lookup_singleton_ne).
  - destruct Hrg as (_ & _ & Hs). unfold collect_signatures. rewrite Hs, Hp.
    by rewrite filter_cons_True, filter_cons_True.
  - destruct (latestCheckpoint _); [right|by left]. unfold sha256Hash, strlen.
    by rewrite hex_encode_length, sha256_length.
Qed.

(** * Theorems *)

(** C32. What decides a checkpoint.  Whatever order the votes are visited in and however
    many nodes voted, the voter finalizes a height exactly when two of the votes it holds name
    the same block: then the record of one such block becomes the latest checkpoint, replaces the
    record of that height, and the votes are dropped.  Otherwise nothing changes: the second
    test, for two thirds of the votes, never passes.  The only panic is the log line of a hash
    shorter than 16 characters. *)
Theorem checkpoint_quorum rg now h v :
  ranges_ok rg ->
  let vs := values (default ∅ (votes v !! h)) in
  let '(v', r) := checkQuorumLocked rg now h v in
  match r with
  | Val (Ok (true, _)) =>
      exists bh, 2 <= votes_for bh vs /\ latestCheckpoint v' = Some (make_record rg now h bh v) /\
        pendingRecords v' = <[h := make_record rg now h bh v]> (pendingRecords v) /\
        votes v' = delete h (votes v)
  | Val (Ok (false, _)) => (forall bh, votes_for bh vs < 2) /\ v' = v
  | Val (Err _) => False
  | Halt _ => exists bh, 2 <= votes_for bh vs /\ strlen bh < 16
  end.
Proof.
  intros Hrg vs. destruct (quorum_cases rg now h v Hrg) as [[Hlow ->]|(bh & Hb & ->)]; [done|].
  unfold p_bind. rewrite finalize_eq. cbv zeta. destruct (Z.ltb_spec (strlen bh) 16); [by exists bh|].
  cbn. exists bh. unfold closed. by destruct (onCheckpointFinalized v).
Qed.

(** Every checkpoint record a voter ever makes is signed: in every state reached by
    signing, receiving votes (valid or not, also through a step that panicked), loading and
    setting the callback, each record kept and each record given to the callback has at least two
    signatures, all of which verify for its own height and hash. *)
Theorem finalized_records_signed priv pub id st v :
  key_pair priv pub -> reachable priv pub id st v ->
  map_Forall (fun h r => cr_Height r = h /\ record_signed r) (pendingRecords v) /\
  Forall record_signed (callbacks v).
Proof. intros Hk Hr. by destruct (voter_reachable_inv _ _ _ _ _ Hk Hr). Qed.

(** C33. Two agreeing votes make a checkpoint that peers accept: from any voter that holds no
    vote for the height (also one that has already finalized another block there), two valid votes
    of validators with different names and keys are received, the second one finalizes, and the
    record it makes passes [VerifyCheckpointRecord] in the handler of any peer, which takes it as
    its target when it has none. *)
Theorem agreed_checkpoint_accepted rg1 rg2 t1 t2 h bh x y v peer :
  ranges_ok rg1 -> ranges_ok rg2 -> valid_vote h bh x -> valid_vote h bh y ->
  vote_id (cv_PubKey x) <> vote_id (cv_PubKey y) -> cv_ValidatorID x <> cv_ValidatorID y ->
  votes v !! h = None -> 16 <= strlen peer ->
  exists v1 v2 rec,
    ReceiveVote rg1 t1 (Some x) v = (v1, Val (Ok (false, None))) /\
    ReceiveVote rg2 t2 (Some y) v1 = (v2, Val (Ok (true, None))) /\
    latestCheckpoint v2 = Some rec /\ pendingRecords v2 !! h = Some rec /\
    cr_Height rec = h /\ cr_BlockHash rec = bh /\
    OnCheckpointResponse ed_verify peer rec None = (Some rec, Val (Ok tt)).
Proof.
  intros Hr1 Hr2 Hx Hy Hk Hid Hn Hp. pose proof (lone_vote_waits rg1 t1 h bh x v Hr1 Hx Hn) as H1.
  destruct (agreeing_pair rg2 t2 h bh _ x y
    (set_votes (<[h := {[vote_id (cv_PubKey x) := x]}]> (votes v)) v) Hr2 (vv_hash _ _ _ Hx) Hy Hk)
    as (rec & H2 & Hh & Hb & Hc & Hs & Hprev); [by cbn; rewrite lookup_insert_eq|].
  eexists _, _, rec. split; [exact H1|]. split; [exact H2|].
  unfold closed. rewrite Hh. split_and!; [by destruct (onCheckpointFinalized _)| |done|done|].
  { destruct (onCheckpointFinalized _); cbn; by rewrite Hh, lookup_insert_eq. }
  assert (Hv : VerifyCheckpointRecord ed_verify (Some rec) = Val (Ok tt)).
  { apply verify_record_iff. unfold valid_record, len. rewrite Hh, Hb, Hc, Hs.
    split_and!; [by destruct Hx|intros E; destruct Hx as [_ _ _ Hl _ _]; by rewrite E in Hl|by vm_compute| | |].
    - cbn. apply list.NoDup_cons. split; [set_solver|apply NoDup_singleton].
    - repeat constructor; cbn; by destruct Hx, Hy.
    - destruct Hprev; [by left|right; lia]. }
  unfold OnCheckpointResponse, p_bind, p_lift, p_modify. rewrite Hv. cbn. unfold slice16.
  destruct (Z.ltb_spec (strlen peer) 16); [lia|done].
Qed.

(** A checkpoint is not final: whatever record a height has, two votes for another block of
    it, from any two keys, replace the record. *)
Theorem checkpoint_replaced rg1 rg2 t1 t2 h bh x y v :
  ranges_ok rg1 -> ranges_ok rg2 -> valid_vote h bh x -> valid_vote h bh y ->
  vote_id (cv_PubKey x) <> vote_id (cv_PubKey y) -> votes v !! h = None ->
  exists rec, pendingRecords (fst (ReceiveVote rg2 t2 (Some y) (fst (ReceiveVote rg1 t1 (Some x) v)))) !! h = Some rec /\
    cr_BlockHash rec = bh.
Proof.
  intros Hr1 Hr2 Hx Hy Hk Hn. rewrite (lone_vote_waits rg1 t1 h bh x v Hr1 Hx Hn). cbn [fst].
  destruct (agreeing_pair rg2 t2 h bh _ x y
    (set_votes (<[h := {[vote_id (cv_PubKey x) := x]}]> (votes v)) v) Hr2 (vv_hash _ _ _ Hx) Hy Hk)
    as (rec & -> & Hh & Hb & _); [by cbn; rewrite lookup_insert_eq|].
  exists rec. split; [|done]. unfold closed. destruct (onCheckpointFinalized _); cbn; by rewrite Hh, lookup_insert_eq.
Qed.

(** The node's own vote is kept under its name and a received one under the hash of its key:
    when the node's vote comes back to it, it is counted twice, and the record it makes alone is
    refused by every peer. *)
Theorem own_vote_counted_twice priv pub rg t1 t2 h bh v :
  key_pair priv pub -> privateKey v = priv -> publicKey v = pub -> ranges_ok rg ->
  h <> 0 -> 16 <= strlen bh -> 16 <= strlen (validatorID v) -> validatorID v <> vote_id pub ->
  votes v !! h = None -> Z.of_nat (size (votes v)) < 5 ->
  exists v1 vote v2 rec,
    SignCheckpoint t1 h bh v = (v1, Val (Ok vote)) /\
    ReceiveVote rg t2 (Some vote) v1 = (v2, Val (Ok (true, None))) /\
    latestCheckpoint v2 = Some rec /\
    VerifyCheckpointRecord ed_verify (Some rec) = Val (Err "verify checkpoint: duplicate validator").
Proof.
  intros (Hl & Hp & Hk) E1 E2 Hrg Hh Hb Hid Hne Hn Hsz. rewrite sign_eq by (by rewrite E1). cbv zeta.
  unfold make_room. rewrite Hn. cbn [votes set_votes].
  rewrite map_size_insert_None by done. destruct (Z.ltb_spec 5 (Z.of_nat (Datatypes.S (size (votes v))))); [lia|].
  cbn [votes set_votes]. rewrite lookup_insert_eq.
  destruct (Z.ltb_spec (strlen bh) 16); [lia|]. rewrite insert_insert_eq.
  set (vote := mkCheckpointVote _ _ _ _ _ _).
  assert (Hv : valid_vote h bh vote).
  { split; try done; cbn; rewrite E2; [done|]. unfold signed_for. rewrite E1. apply Hk. }
  destruct (agreeing_pair rg t2 h bh (validatorID v) vote vote
    (set_votes (<[h := <[validatorID v := vote]> ∅]> (votes v)) (set_votes (<[h := ∅]> (votes v)) v)) Hrg eq_refl Hv)
    as (rec & HR & Eh & Eb & Ec & Es & _); [cbn; by rewrite E2|cbn; by rewrite lookup_insert_eq|].
  eexists _, vote, _, rec. split; [done|]. split; [exact HR|].
  split; [unfold closed; by destruct (onCheckpointFinalized _)|].
  assert (Es' : cr_Signatures rec = [vote_signature vote; vote_signature vote]).
  { symmetry in Es. apply Permutation_length_2_inv in Es. by destruct Es. }
  unfold VerifyCheckpointRecord. rewrite Eh, Eb, Ec, Es'. destruct (Z.eqb_spec h 0); [done|].
  rewrite bool_decide_eq_false_2 by (intros E; by rewrite E in Hb).
  change (len _ <? min_required 2) with false. cbn [verify_signatures].
  rewrite bool_decide_eq_false_2 by set_solver. unfold Verify. cbn [vs_PubKey vote_signature vote cv_PubKey].
  rewrite E2, Hp. change (32 =? 32) with true. cbn [res_bind vs_Signature vote_signature vote cv_Signature].
  rewrite E1, Hk. cbn [negb]. rewrite bool_decide_eq_true_2 by set_solver. cbn [vs_ValidatorID vote_signature vote cv_ValidatorID].
  unfold slice16. destruct (Z.ltb_spec (strlen (validatorID v)) 16); [lia|done].
Qed.

(** One key is enough to make a record that every node accepts: the names are not signed and
    no set of validators is consulted. *)
Theorem one_key_makes_a_record priv pub h bh :
  key_pair priv pub -> h <> 0 -> bh <> ""%string ->
  let sig name := mkValidatorSignature name pub (ed_sign priv (buildVotePayload h bh)) 0 in
  VerifyCheckpointRecord ed_verify (Some (mkCheckpointRecord h bh 0 "" [sig "a"; sig "b"]%string 2)) = Val (Ok tt).
Proof.
  intros (_ & Hp & Hk) Hh Hb sig. apply verify_record_iff. unfold valid_record. cbn.
  split_and!; [done|done|by vm_compute| | |by left].
  - apply list.NoDup_cons. split; [set_solver|apply NoDup_singleton].
  - repeat constructor; cbn; [done|apply Hk|done|apply Hk].
Qed.

(** A vote whose key is not 32 bytes long makes [ed25519.Verify] panic. *)
Theorem short_key_panics rg now x v :
  cv_Height x <> 0 -> cv_BlockHash x <> ""%string -> len (cv_PubKey x) <> 32 ->
  ReceiveVote rg now (Some x) v = (v, Halt (Panic "ed25519: bad public key length")).
Proof.
  intros Hh Hb Hk. unfold Checkpoint.ReceiveVote. destruct (Z.eqb_spec (cv_Height x) 0); [done|].
  rewrite bool_decide_eq_false_2 by done. cbn [orb]. unfold p_bind, p_lift, Verify.
  destruct (Z.eqb_spec (len (cv_PubKey x)) 32); done.
Qed.

(** ** Signing with many heights pending *)
Definition receive_all (rg : Ranges) (now : Z) (xs : list CheckpointVote) v : Voter :=
  foldl (fun v x => fst (ReceiveVote rg now (Some x) v)) v xs.

(** Votes for heights without votes fill the table. *)
Lemma receive_all_votes rg now xs v :
  ranges_ok rg -> NoDup (map cv_Height xs) ->
  Forall (fun x => valid_vote (cv_Height x) (cv_BlockHash x) x /\ votes v !! cv_Height x = None) xs ->
  let v' := receive_all rg now xs v in
  privateKey v' = privateKey v /\
  size (votes v') = (length xs + size (votes v))%nat /\
  (forall h, h ∉ map cv_Height xs -> votes v' !! h = votes v !! h).
Proof.
  intros Hrg. revert v. induction xs as [|x xs IH]; intros v Hd Hf; [done|].
  apply list.NoDup_cons in Hd as [Hx Hd]. apply list.Forall_cons in Hf as [[Hv Hn] Hf].
  cbn [receive_all foldl]. rewrite (lone_vote_waits rg now _ _ x v Hrg Hv Hn). cbn [fst].
  edestruct (IH (set_votes (<[cv_Height x := {[vote_id (cv_PubKey x) := x]}]> (votes v)) v) Hd) as (I1 & I2 & I3).
  { apply list.Forall_forall. intros y Hy. rewrite list.Forall_forall in Hf. destruct (Hf y Hy). split; [done|].
    cbn. rewrite lookup_insert_ne; [done|]. intros E. apply Hx. rewrite E. apply list_elem_of_fmap. eauto. }
  unfold receive_all in *. split_and!; [done| |].
  - rewrite I2. cbn. rewrite map_size_insert_None by done. lia.
  - intros h Hh. cbn in Hh. rewrite I3 by set_solver. cbn. rewrite lookup_insert_ne; [done|set_solver].
Qed.

(** Five stray votes stop the node from signing its first checkpoints: after valid votes
    for any five or more other heights (each made with a key of the sender's choice), signing
    at a height below 5000 panics, because the subtraction of the pruning bound wraps around and
    the pruning drops the entry just made for the height itself. *)
Theorem stray_votes_stop_signing rg now xs t h bh priv pub id st :
  ranges_ok rg -> key_pair priv pub -> 0 <= h < 5000 ->
  NoDup (map cv_Height xs) -> 5 <= len xs -> h ∉ map cv_Height xs ->
  Forall (fun x => valid_vote (cv_Height x) (cv_BlockHash x) x) xs ->
  snd (SignCheckpoint t h bh (receive_all rg now xs (NewCheckpointVoter priv pub id st))) =
    Halt (Panic "assignment to entry in nil map").
Proof.
  intros Hrg (Hp & _) Hh Hd Hl Hni Hf.
  destruct (receive_all_votes rg now xs (NewCheckpointVoter priv pub id st) Hrg Hd) as (E1 & E2 & E3).
  { eapply list.Forall_impl; [exact Hf|]. intros x Hx. split; [exact Hx|apply lookup_empty]. }
  set (v := receive_all _ _ _ _) in *. rewrite sign_eq by (by rewrite E1). cbv zeta.
  specialize (E3 h Hni). cbn in E3. rewrite lookup_empty in E3. unfold make_room. rewrite E3. cbn [votes set_votes].
  rewrite map_size_insert_None, E2 by done. destruct (Z.ltb_spec 5 (Z.of_nat (Datatypes.S (length xs + size (votes (NewCheckpointVoter priv pub id st)))))) as [_|Hlt];
    [|unfold len in Hl; lia].
  assert (Hold : votes (prune_heights h (set_votes (<[h := ∅]> (votes v)) v)) !! h = None); [|by rewrite Hold].
  cbn. apply map_lookup_filter_None. right. intros m _. cbn [fst].
  change (MaxPendingCheckpoints * CheckpointInterval)%u64 with 5000. unfold sub64, u64.
  rewrite <- (Z.mod_add (h - 5000) 1), Z.mod_small by lia.
  destruct (Z.ltb_spec h (h - 5000 + 1 * 18446744073709551616)); [done|lia].
Qed.
End Facts.

(** * The theorems on a concrete voter

    A toy signature scheme (the signature is the key followed by the message) and a node
    without storage. *)
#[export] Instance no_store : CheckpointStore unit := {
  GetCheckpoints := fun _ => ([], false, Ok tt);
  PutCheckpoints := fun _ s => (s, Ok tt);
  LatestCheckpoint := fun _ => Err "no checkpoints" }.

Definition toy_sign (priv msg : list Z) : list Z := take 32 priv ++ msg.
Definition toy_verify (pub msg sig : list Z) : bool := bool_decide (sig = pub ++ msg).
Definition toy_pub (n : Z) : list Z := replicate 32 n.
Definition toy_priv (n : Z) : list Z := replicate 64 n.
Definition toy_marshal (rs : list CheckpointRecord) : list Z := [].
Definition toy_unmarshal (bs : list Z) : list CheckpointRecord * bool := ([], false).
Definition toy_hash : string := "00000000000000000000000000000000".
Definition toy_vote (n : Z) (name : string) (h : Z) : CheckpointVote :=
  mkCheckpointVote h toy_hash name (toy_pub n) (toy_sign (toy_priv n) (buildVotePayload h toy_hash)) 0.
Definition toy_node : CheckpointVoter unit :=
  NewCheckpointVoter (toy_priv 7) (toy_pub 7) "0707070707070707" None.

Lemma toy_keys (n : Z) : key_pair toy_sign toy_verify (toy_priv n) (toy_pub n).
Proof. split_and!; [done|done|]. intros msg. by apply bool_decide_eq_true_2. Qed.

Lemma toy_valid (n : Z) (name : string) (h : Z) :
  h <> 0 -> valid_vote toy_verify h toy_hash (toy_vote n name h).
Proof. intros Hh. split; try done. by apply toy_keys. Qed.

Lemma toy_ids_differ : vote_id (toy_pub 1) <> vote_id (toy_pub 2).
Proof. by vm_compute. Qed.

Lemma key_order_ok : ranges_ok key_order.
Proof. by split_and!. Qed.

Lemma checkpoint_quorum_witness :
  let v := set_votes {[1000 := {["a"%string := toy_vote 1 "a" 1000; "b"%string := toy_vote 2 "b" 1000]}]} toy_node in
  match snd (checkQuorumLocked toy_marshal toy_unmarshal key_order 5 1000 v) with
  | Val (Ok (true, _)) => True
  | _ => False
  end /\
  exists bh, 2 <= votes_for bh (values (default ∅ (votes v !! 1000))).
Proof.
  intros v. pose proof (checkpoint_quorum toy_marshal toy_unmarshal key_order 5 1000 v key_order_ok) as Hq.
  assert (Hr : snd (checkQuorumLocked toy_marshal toy_unmarshal key_order 5 1000 v) = Val (Ok (true, None)))
    by reflexivity.
  destruct (checkQuorumLocked _ _ _ _ _ _) as [v' r]. cbn [snd] in Hr. subst r.
  split; [done|]. destruct Hq as (bh & Hb & _). by exists bh.
Defined.

Lemma finalized_records_signed_witness :
  let v := fst (ReceiveVote toy_verify toy_marshal toy_unmarshal key_order 5 (Some (toy_vote 1 "a" 1000)) toy_node) in
  Forall (record_signed toy_verify) (callbacks v).
Proof.
  intros v. apply (finalized_records_signed toy_sign toy_verify toy_marshal toy_unmarshal
    (toy_priv 7) (toy_pub 7) "0707070707070707" None v).
  - apply toy_keys.
  - apply rtc_once. apply step_receive. exact key_order_ok.
Defined.

Lemma agreed_checkpoint_accepted_witness :
  exists v2 rec, latestCheckpoint (S := unit) v2 = Some rec /\ cr_Height rec = 1000 /\
    OnCheckpointResponse toy_verify toy_hash rec None = (Some rec, Val (Ok tt)).
Proof.
  destruct (agreed_checkpoint_accepted toy_verify toy_marshal toy_unmarshal key_order key_order 5 6 1000 toy_hash
    (toy_vote 1 "a" 1000) (toy_vote 2 "b" 1000) toy_node toy_hash)
    as (v1 & v2 & rec & _ & _ & H1 & _ & H2 & _ & H3);
    [exact key_order_ok|exact key_order_ok|by apply toy_valid|by apply toy_valid|exact toy_ids_differ|done|done|done|].
  by exists v2, rec.
Defined.

Lemma stray_votes_stop_signing_witness :
  snd (SignCheckpoint toy_sign 9 1000 toy_hash
    (receive_all toy_verify toy_marshal toy_unmarshal key_order 5
       (toy_vote 1 "a" <$> [2000; 3000; 4000; 5000; 6000]) toy_node)) =
  Halt (Panic "assignment to entry in nil map").
Proof.
  apply (stray_votes_stop_signing toy_sign toy_verify toy_marshal toy_unmarshal key_order 5
    (toy_vote 1 "a" <$> [2000; 3000; 4000; 5000; 6000]) 9 1000 toy_hash (toy_priv 7) (toy_pub 7)).
  - exact key_order_ok.
  - apply toy_keys.
  - lia.
  - apply (bool_decide_unpack _). by vm_compute.
  - by vm_compute.
  - apply (bool_decide_unpack _). by vm_compute.
  - cbn. repeat (apply list.Forall_cons; split; [by apply toy_valid|]). constructor.
Defined.
