(* ===== verification/CheckpointIndex.v ===== *)
(** * The index of checkpoints ([storage/checkpoint.go])

    [CheckpointSystem] keeps one checkpoint per height, checks new ones against the earlier
    ones, and is written to the store in a binary form.  [time.Now] is an argument, as is the
    order in which Go ranges over the map; the JSON form is not modelled. *)

From S2P Require Import Prelude Bytes Sha256 Merkle Transaction.
From stdpp Require Import base list gmap strings numbers.
From Stdlib Require Import ZArith Lia.

Open Scope Z_scope.
Open Scope go_scope.

(** ** Big-endian numbers ([encoding/binary]) *)
Definition be_bytes (n : nat) (z : Z) : list Z := rev (le_bytes n z).
Definition be_val (l : list Z) : Z := le_val (rev l).

(** ** Data *)
Definition checkpointIntervalDefault : Z := 100.
Definition signatureLength : Z := 64.
Definition hashLength : Z := 32.
Definition stateRootLenMax : Z := 65535.

(** A time is its number of nanoseconds since 1970. *)
Record Checkpoint := mkCheckpoint {
  cp_Height : Z; cp_BlockHash : string; cp_BlockHashRaw : list Z; cp_Timestamp : Z;
  cp_StateRoot : string; cp_Signature : list Z; cp_Validator : string }.

Record CheckpointSystem := mkSystem {
  checkpoints : gmap Z Checkpoint; latest : Z; interval : Z; trustedKeys : gset string }.

Definition set_checkpoints (m : gmap Z Checkpoint) (cs : CheckpointSystem) : CheckpointSystem :=
  mkSystem m (latest cs) (interval cs) (trustedKeys cs).
Definition set_latest_height (h : Z) (cs : CheckpointSystem) : CheckpointSystem :=
  mkSystem (checkpoints cs) h (interval cs) (trustedKeys cs).

(** ** Operations *)
Definition NewCheckpointSystem (iv : Z) : CheckpointSystem :=
  mkSystem ∅ 0 (if iv =? 0 then checkpointIntervalDefault else iv) ∅.

Definition AddTrustedValidator (pubKey : string) (cs : CheckpointSystem) : CheckpointSystem :=
  mkSystem (checkpoints cs) (latest cs) (interval cs) ({[pubKey]} ∪ trustedKeys cs).

(** [if height > cs.latest { cs.latest = height }] *)
Definition raise_latest (h : Z) (cs : CheckpointSystem) : CheckpointSystem :=
  if latest cs <? h then set_latest_height h cs else cs.

Definition CreateCheckpoint (now height : Z) (blockHash : list Z) (stateRoot : string)
    (cs : CheckpointSystem) : CheckpointSystem * Checkpoint :=
  let cp := mkCheckpoint height (hex_encode blockHash) blockHash now stateRoot [] "" in
  (raise_latest height (set_checkpoints (<[height := cp]> (checkpoints cs)) cs), cp).

Definition AddCheckpoint (cp : Checkpoint) (cs : CheckpointSystem) : CheckpointSystem :=
  let cs1 :=
    match checkpoints cs !! cp_Height cp with
    | Some existing =>
        if cp_Timestamp existing <? cp_Timestamp cp
        then set_checkpoints (<[cp_Height cp := cp]> (checkpoints cs)) cs else cs
    | None => set_checkpoints (<[cp_Height cp := cp]> (checkpoints cs)) cs
    end in
  raise_latest (cp_Height cp) cs1.

Definition GetCheckpoint (height : Z) (cs : CheckpointSystem) : option Checkpoint :=
  checkpoints cs !! height.

Definition GetLatestCheckpoint (cs : CheckpointSystem) : option Checkpoint * Z :=
  match checkpoints cs !! latest cs with
  | Some cp => (Some cp, latest cs)
  | None => (None, 0)
  end.

(** [cp.Timestamp.Unix()] rounds towards the past. *)
Definition computeCheckpointHash (cp : Checkpoint) : list Z :=
  sha256 (be_bytes 8 (cp_Height cp) ++ cp_BlockHashRaw cp ++ bytes_of_string (cp_StateRoot cp) ++
          be_bytes 8 (u64 (cp_Timestamp cp / 1000000000))).

Definition verifySignature (cp : Checkpoint) (cs : CheckpointSystem) : result unit :=
  fail_if (strlen (cp_Validator cp) =? 0) "validator not specified" ;;?
  fail_if (len (cp_Signature cp) =? 0) "signature not provided" ;;?
  let data := computeCheckpointHash cp in
  fail_if (negb (bool_decide (cp_Validator cp ∈ trustedKeys cs))) "untrusted validator" ;;?
  fail_if (len data =? 0) "failed to compute checkpoint hash".

(** The subtractions are of [uint64]s. *)
Definition VerifyCheckpoint (cp : option Checkpoint) (cs : CheckpointSystem) : result unit :=
  match cp with
  | None => Err "checkpoint is nil"
  | Some cp =>
      if cp_Height cp =? 0 then Ok tt
      else
        fail_if (negb (len (cp_BlockHashRaw cp) =? hashLength)) "invalid block hash length" ;;?
        (if negb (bool_decide (trustedKeys cs = ∅)) && (0 <? len (cp_Signature cp))
         then fail_if (negb (len (cp_Signature cp) =? signatureLength)) "invalid signature length" ;;?
              wrap "signature verification failed" (verifySignature cp cs)
         else Ok tt) ;;?
        let prevCheckpointHeight := (cp_Height cp - interval cs)%u64 in
        fail_if ((0 <? prevCheckpointHeight) && bool_decide (checkpoints cs !! prevCheckpointHeight = None))
          "missing previous checkpoint" ;;?
        let expectedHeight := ((cp_Height cp - 1) / interval cs * interval cs)%u64 in
        fail_if ((0 <? expectedHeight) && bool_decide (checkpoints cs !! expectedHeight = None))
          "missing expected checkpoint"
  end.

Definition IsFinalized (height : Z) (cs : CheckpointSystem) : bool :=
  if latest cs <? height then false
  else
    let requiredCheckpoint := (height / interval cs * interval cs)%u64 in
    if requiredCheckpoint =? 0 then true
    else bool_decide (is_Some (checkpoints cs !! requiredCheckpoint)).

Definition GetFinalizedHeight (cs : CheckpointSystem) : Z :=
  if latest cs =? 0 then 0 else (latest cs / interval cs * interval cs)%u64.

(** [heights] are the keys in the order they were ranged over.  A negative [keepCount] asks
    for more heights than there are and panics. *)
Definition PruneOldCheckpoints (heights : list Z) (keepCount : Z) (cs : CheckpointSystem) : res CheckpointSystem :=
  if len heights <=? keepCount then Val cs
  else if keepCount <? 0 then Halt (Panic "slice bounds out of range")
  else Val (set_checkpoints
              (foldl (fun m h => delete h m) (checkpoints cs) (take (Z.to_nat (len heights - keepCount)) heights)) cs).

(** ** The binary form *)
Definition encode_checkpoint (h : Z) (cp : Checkpoint) : result (list Z) :=
  fail_if (negb (len (cp_BlockHashRaw cp) =? hashLength)) "invalid block hash length" ;;?
  let stateRootBytes := bytes_of_string (cp_StateRoot cp) in
  fail_if (stateRootLenMax <? len stateRootBytes) "state root too long" ;;?
  Ok (be_bytes 8 h ++ cp_BlockHashRaw cp ++ be_bytes 2 (u16 (len stateRootBytes)) ++ stateRootBytes).

Fixpoint encode_loop (hs : list Z) (m : gmap Z Checkpoint) (data : list Z) : result (list Z) :=
  match hs with
  | [] => Ok data
  | h :: hs' =>
      match m !! h with
      | None => encode_loop hs' m data
      | Some cp => let? rec := encode_checkpoint h cp in encode_loop hs' m (data ++ rec)
      end
  end.

(** [for h := uint64(0); h <= cs.latest; h++] never ends for the largest [uint64] (an error
    of an earlier height apart). *)
Definition BinaryEncode (cs : CheckpointSystem) : res (result (list Z)) :=
  match encode_loop (seqZ 0 (latest cs + 1)) (checkpoints cs) (be_bytes 8 (latest cs)) with
  | Err e => Val (Err e)
  | Ok data => if latest cs =? max_u64 then Halt Diverge else Val (Ok data)
  end.

(** One pass of the decoding loop over the bytes that are left; [None] leaves the loop. *)
Definition decode_checkpoint (data : list Z) : option (result (Checkpoint * list Z)) :=
  if len data <? 8 + hashLength + 2 then None
  else Some (
    let height := be_val (take 8 data) in
    let data := drop 8 data in
    fail_if (len data <? hashLength) "data truncated: missing block hash" ;;?
    let blockHash := take (Z.to_nat hashLength) data in
    let data := drop (Z.to_nat hashLength) data in
    fail_if (len data <? 2) "data truncated: missing state root length" ;;?
    let stateLen := be_val (take 2 data) in
    let data := drop 2 data in
    fail_if (len data <? stateLen) "data truncated: missing state root" ;;?
    let stateRoot := string_of_bytes (take (Z.to_nat stateLen) data) in
    Ok (mkCheckpoint height (hex_encode blockHash) blockHash zero_time stateRoot [] "",
        drop (Z.to_nat stateLen) data)).

(** Every pass consumes at least 42 bytes: the number of bytes is enough fuel. *)
Fixpoint decode_loop (fuel : nat) (data : list Z) (m : gmap Z Checkpoint) : gmap Z Checkpoint * result unit :=
  match fuel with
  | O => (m, Ok tt)
  | S fuel' =>
      match decode_checkpoint data with
      | None => (m, Ok tt)
      | Some (Err e) => (m, Err e)
      | Some (Ok (cp, data')) => decode_loop fuel' data' (<[cp_Height cp := cp]> m)
      end
  end.

Definition BinaryDecode (data : list Z) : St CheckpointSystem unit := fun cs =>
  if len data <? 8 then (cs, Err "data too short for checkpoint header")
  else
    let '(m, r) := decode_loop (length data) (drop 8 data) (checkpoints cs) in
    (set_checkpoints m (set_latest_height (be_val (take 8 data)) cs), r).

(** [SaveToStore] and [LoadFromStore] over the store's checkpoint bytes: the answers of the
    store are arguments. *)
Definition SaveToStore (put_err : result unit) (cs : CheckpointSystem) (stored : list Z)
    : res (list Z * result unit) :=
  match BinaryEncode cs with
  | Halt h => Halt h
  | Val (Err e) => Val (stored, Err ("encode checkpoints: " +:+ e))
  | Val (Ok data) =>
      match put_err with
      | Err e => Val (stored, Err ("persist checkpoints: " +:+ e))
      | Ok _ => Val (data, Ok tt)
      end
  end.

Definition LoadFromStore (got : result (option (list Z))) : St CheckpointSystem unit := fun cs =>
  match got with
  | Err e => (cs, Err ("load checkpoints: " +:+ e))
  | Ok None => (cs, Ok tt)
  | Ok (Some data) =>
      if len data <? 8 then (cs, Ok tt)
      else let '(cs', r) := BinaryDecode data cs in (cs', wrap "decode checkpoints" r)
  end.

Definition CheckpointFromBlock (block : option Block) (stateRoot : string) : option Checkpoint :=
  match block with
  | None => None
  | Some b =>
      Some (mkCheckpoint (GetHeight b) (hex_encode (b_Hash b)) (b_Hash b)
              (h_TimestampUnix (b_Header b) * 1000000000) stateRoot [] "")
  end.

(** ** Lists of checkpoints *)
Fixpoint verify_chain_from (prev : option Checkpoint) (cps : list (option Checkpoint)) (iv : Z) : result unit :=
  match cps with
  | [] => Ok tt
  | None :: _ => Err "nil checkpoint"
  | Some cp :: cps' =>
      fail_if (negb (len (cp_BlockHashRaw cp) =? hashLength)) "invalid hash" ;;?
      match prev with
      | None => Ok tt
      | Some p =>
          fail_if (cp_Height cp <=? cp_Height p) "non-monotonic heights" ;;?
          fail_if ((cp_Height cp - cp_Height p)%u64 <? iv) "checkpoint gap too small"
      end ;;?
      verify_chain_from (Some cp) cps' iv
  end.
Definition VerifyCheckpointChain (cps : list (option Checkpoint)) (iv : Z) : result unit :=
  verify_chain_from None cps iv.

Definition checkpoint_leaf (cp : Checkpoint) : list Z :=
  sha256 (be_bytes 8 (cp_Height cp) ++ cp_BlockHashRaw cp).
Definition ComputeCheckpointMerkleRoot (cps : list Checkpoint) : option (list Z) :=
  match map checkpoint_leaf cps with
  | [] => None
  | h :: hs => Some (foldl (fun root h => sha256 (root ++ h)) h hs)
  end.

(** * Lemmas *)

Lemma be_bytes_length (n : nat) (z : Z) : length (be_bytes n z) = n.
Proof. unfold be_bytes. by rewrite length_rev, le_bytes_length. Qed.

Lemma be_val_bytes (n : nat) (z : Z) : 0 <= z < 256 ^ Z.of_nat n -> be_val (be_bytes n z) = z.
Proof. unfold be_val, be_bytes. rewrite rev_involutive. apply le_val_bytes. Qed.

(** ** The binary form *)

(** What is left of a checkpoint after a trip through the store: the time, the signature and
    the validator are not written. *)
Definition stored_form (h : Z) (cp : Checkpoint) : Checkpoint :=
  mkCheckpoint h (hex_encode (cp_BlockHashRaw cp)) (cp_BlockHashRaw cp) zero_time (cp_StateRoot cp) [] "".

Definition encodable (cp : Checkpoint) : Prop :=
  len (cp_BlockHashRaw cp) = 32 /\ strlen (cp_StateRoot cp) <= 65535.

Lemma bytes_of_string_len (s : string) : len (bytes_of_string s) = strlen s.
Proof. unfold len, strlen. f_equal. induction s; cbn; congruence. Qed.

Lemma encode_checkpoint_ok (h : Z) (cp : Checkpoint) :
  encodable cp ->
  encode_checkpoint h cp =
    Ok (be_bytes 8 h ++ cp_BlockHashRaw cp ++ be_bytes 2 (strlen (cp_StateRoot cp)) ++ bytes_of_string (cp_StateRoot cp)).
Proof.
  intros [Hl Hr]. unfold encode_checkpoint, hashLength, stateRootLenMax. rewrite Hl, bytes_of_string_len.
  destruct (Z.ltb_spec 65535 (strlen (cp_StateRoot cp))); [lia|]. cbn.
  unfold u16. rewrite Z.mod_small; [done|]. unfold strlen in *. lia.
Qed.

Lemma decode_encoded (h : Z) (cp : Checkpoint) (rest : list Z) :
  is_u64 h -> encodable cp ->
  exists rec, encode_checkpoint h cp = Ok rec /\ (42 <= length rec)%nat /\
    decode_checkpoint (rec ++ rest) = Some (Ok (stored_form h cp, rest)).
Proof.
  intros Hh He. eexists. split; [by apply encode_checkpoint_ok|]. destruct He as [Hl Hr].
  set (root := bytes_of_string (cp_StateRoot cp)).
  assert (Hroot : length root = Z.to_nat (strlen (cp_StateRoot cp))).
  { pose proof (bytes_of_string_len (cp_StateRoot cp)). unfold len in *. fold root in H. lia. }
  assert (Hraw : length (cp_BlockHashRaw cp) = 32%nat) by (unfold len in Hl; lia).
  split; [rewrite !length_app, !be_bytes_length; lia|].
  unfold decode_checkpoint, hashLength. change (Z.to_nat 32) with 32%nat. rewrite <- !app_assoc.
  destruct (Z.ltb_spec (len (be_bytes 8 h ++ cp_BlockHashRaw cp ++ be_bytes 2 (strlen (cp_StateRoot cp)) ++ root ++ rest)) (8 + 32 + 2)) as [Hs|_].
  { unfold len in Hs. rewrite !length_app, !be_bytes_length in Hs. lia. }
  rewrite take_app_length', drop_app_length' by (by rewrite be_bytes_length).
  rewrite (take_app_length' (cp_BlockHashRaw cp)), (drop_app_length' (cp_BlockHashRaw cp)) by done.
  rewrite (take_app_length' (be_bytes 2 _)), (drop_app_length' (be_bytes 2 _)) by (by rewrite be_bytes_length).
  rewrite !be_val_bytes by (unfold is_u64, max_u64, strlen in *; cbn; lia).
  rewrite (take_app_length' root), (drop_app_length' root) by done.
  unfold len. rewrite !length_app, Hroot, Hraw, be_bytes_length.
  repeat (match goal with |- context [?a <? ?b] => destruct (Z.ltb_spec a b); [unfold strlen in *; lia|] end).
  cbn. unfold root. by rewrite string_of_bytes_of_string.
Qed.

(** What decoding the records of the listed heights does to a map. *)
Definition insert_stored (m : gmap Z Checkpoint) (acc : gmap Z Checkpoint) (hs : list Z) : gmap Z Checkpoint :=
  foldl (fun acc h => match m !! h with Some cp => <[h := stored_form h cp]> acc | None => acc end) acc hs.

Lemma decode_loop_encoded (m : gmap Z Checkpoint) (hs : list Z) (data : list Z) :
  Forall is_u64 hs -> map_Forall (fun _ cp => encodable cp) m ->
  exists body, encode_loop hs m data = Ok (data ++ body) /\
    forall fuel acc, (length body <= fuel)%nat -> decode_loop fuel body acc = (insert_stored m acc hs, Ok tt).
Proof.
  intros Hh Hm. revert data. induction Hh as [|h hs Hh Hhs IH]; intros data; cbn [encode_loop].
  { exists []. rewrite app_nil_r. split; [done|]. intros fuel acc _. by destruct fuel. }
  unfold insert_stored. cbn [foldl]. destruct (m !! h) as [cp|] eqn:E; [|exact (IH data)].
  pose proof (Hm h cp E) as He. destruct (decode_encoded h cp [] Hh He) as (rec & Hr & Hlen & _).
  rewrite Hr. cbn [result_bind]. destruct (IH (data ++ rec)) as (body & Hb & Hd).
  exists (rec ++ body). split; [by rewrite Hb, app_assoc|]. intros fuel acc Hf. rewrite length_app in Hf.
  destruct fuel as [|fuel]; [lia|]. cbn [decode_loop].
  destruct (decode_encoded h cp body Hh He) as (rec' & Hr' & _ & Hdec).
  rewrite Hr in Hr'. injection Hr' as <-. rewrite Hdec. apply Hd. lia.
Qed.

Lemma insert_stored_lookup (m acc : gmap Z Checkpoint) (hs : list Z) (k : Z) :
  insert_stored m acc hs !! k =
  if decide (k ∈ hs) then from_option (fun cp => Some (stored_form k cp)) (acc !! k) (m !! k) else acc !! k.
Proof.
  unfold insert_stored. revert acc. induction hs as [|h hs IH]; intros acc; cbn [foldl]; [by rewrite decide_False by set_solver|].
  rewrite IH. destruct (decide (k = h)) as [->|Hne].
  - rewrite (decide_True (P := h ∈ h :: hs)) by set_solver.
    destruct (m !! h) as [cp|]; cbn; [|by case_decide]. rewrite lookup_insert_eq. by case_decide.
  - assert (Hk : match m !! h with Some cp => <[h := stored_form h cp]> acc | None => acc end !! k = acc !! k)
      by (destruct (m !! h); [by rewrite lookup_insert_ne|done]).
    rewrite Hk. destruct (decide (k ∈ hs)); [rewrite decide_True by set_solver|rewrite decide_False by set_solver]; done.
Qed.

(** ** The invariant of the index *)
Definition index_inv (cs : CheckpointSystem) : Prop :=
  is_u64 (latest cs) /\ map_Forall (fun h cp => cp_Height cp = h /\ 0 <= h <= latest cs) (checkpoints cs).

Lemma index_inv_weaken (cs : CheckpointSystem) (h : Z) (m : gmap Z Checkpoint) :
  is_u64 h -> index_inv cs ->
  map_Forall (fun k cp => cp_Height cp = k /\ (0 <= k <= latest cs \/ k = h)) m ->
  index_inv (raise_latest h (set_checkpoints m cs)).
Proof.
  intros Hh [Hl _] Hm. unfold raise_latest. cbn [latest set_checkpoints].
  destruct (Z.ltb_spec (latest cs) h); split; try done; intros k cp E; destruct (Hm k cp E) as [? [?|?]];
    cbn in *; unfold is_u64 in *; split; lia.
Qed.

Lemma CreateCheckpoint_inv now h bh root (cs : CheckpointSystem) :
  is_u64 h -> index_inv cs -> index_inv (fst (CreateCheckpoint now h bh root cs)).
Proof.
  intros Hh Hi. apply index_inv_weaken; [done..|]. destruct Hi as [_ Hm].
  apply map_Forall_insert_2; [split; [done|by right]|]. intros k cp E. destruct (Hm k cp E). auto.
Qed.

Lemma AddCheckpoint_inv (cp : Checkpoint) (cs : CheckpointSystem) :
  is_u64 (cp_Height cp) -> index_inv cs -> index_inv (AddCheckpoint cp cs).
Proof.
  intros Hh Hi. unfold AddCheckpoint.
  assert (Hs : index_inv (raise_latest (cp_Height cp) (set_checkpoints (<[cp_Height cp := cp]> (checkpoints cs)) cs))).
  { apply index_inv_weaken; [done..|]. destruct Hi as [_ Hm].
    apply map_Forall_insert_2; [split; [done|by right]|]. intros k c E. destruct (Hm k c E). auto. }
  destruct (checkpoints cs !! cp_Height cp) as [old|] eqn:E; [|done].
  destruct (_ <? _); [done|]. destruct cs as [m l iv tk].
  apply (index_inv_weaken (mkSystem m l iv tk) (cp_Height cp) m); [done..|].
  destruct Hi as [_ Hm]. intros k c E'. destruct (Hm k c E'). auto.
Qed.

Lemma foldl_delete_subseteq (hs : list Z) (m : gmap Z Checkpoint) : foldl (fun m h => delete h m) m hs ⊆ m.
Proof.
  revert m. induction hs as [|h hs IH]; intros m; cbn; [done|]. etrans; [apply IH|apply delete_subseteq].
Qed.

Lemma PruneOldCheckpoints_inv hs n (cs cs' : CheckpointSystem) :
  index_inv cs -> PruneOldCheckpoints hs n cs = Val cs' -> index_inv cs'.
Proof.
  intros [Hl Hm] E. unfold PruneOldCheckpoints in E. destruct (_ <=? _); [by injection E as <-|].
  destruct (_ <? 0); [done|]. injection E as <-. split; [done|]. cbn. intros k cp Ek. apply Hm.
  eapply lookup_weaken; [exact Ek|apply foldl_delete_subseteq].
Qed.

(** ** The root of a list *)
Definition root_key (cp : Checkpoint) : Z * list Z := (cp_Height cp, cp_BlockHashRaw cp).
Definition rootable (cp : Checkpoint) : Prop := is_u64 (cp_Height cp) /\ len (cp_BlockHashRaw cp) = 32.

(** The inputs of SHA-256 in the computation of a root: each checkpoint's, then each step's. *)
Definition key_input (cp : Checkpoint) : list Z := be_bytes 8 (cp_Height cp) ++ cp_BlockHashRaw cp.
Fixpoint run_inputs (root : list Z) (hs : list (list Z)) : list (list Z) :=
  match hs with
  | [] => []
  | h :: hs' => (root ++ h) :: run_inputs (sha256 (root ++ h)) hs'
  end.
Definition root_inputs (cps : list Checkpoint) : list (list Z) :=
  map key_input cps ++
  match map checkpoint_leaf cps with
  | [] => []
  | h :: hs => run_inputs h hs
  end.

Lemma run_inputs_snoc (hs : list (list Z)) (root h : list Z) :
  run_inputs root (hs ++ [h]) = run_inputs root hs ++ [foldl (fun root h => sha256 (root ++ h)) root hs ++ h].
Proof. revert root. induction hs as [|x hs IH]; intros root; cbn; [done|]. by rewrite IH. Qed.

Lemma key_input_root (l : list Checkpoint) (x : Checkpoint) : x ∈ l -> key_input x ∈ root_inputs l.
Proof. intros H. apply elem_of_app. left. by apply list_elem_of_fmap_2. Qed.

Lemma root_inputs_snoc (l : list Checkpoint) (x : Checkpoint) : root_inputs l ⊆ root_inputs (l ++ [x]).
Proof.
  unfold root_inputs. rewrite !map_app. intros i [Hi|Hi]%elem_of_app; rewrite !elem_of_app; [by left; left|right].
  destruct (map checkpoint_leaf l); cbn [app] in *; [by apply not_elem_of_nil in Hi|].
  cbn [map]. rewrite run_inputs_snoc. apply elem_of_app. by left.
Qed.

Lemma leaf_inj (xs ys : list Checkpoint) (x y : Checkpoint) :
  rootable x -> rootable y -> x ∈ xs -> y ∈ ys -> checkpoint_leaf x = checkpoint_leaf y ->
  root_key x = root_key y \/ collides (root_inputs xs) (root_inputs ys).
Proof.
  intros [Hx _] [Hy _] Ex Ey E.
  destruct (sha256_meets _ _ _ _ (key_input_root xs x Ex) (key_input_root ys y Ey) E) as [E'|]; [left|by right].
  apply app_inj_1 in E' as [E1 E2]; [|by rewrite !be_bytes_length]. unfold root_key. f_equal; [|done].
  rewrite <- (be_val_bytes 8 (cp_Height x)), <- (be_val_bytes 8 (cp_Height y)), E1; try done;
    unfold is_u64, max_u64 in *; cbn; lia.
Qed.

(** The root of a longer list hashes 64 bytes, that of a single checkpoint 40. *)
Lemma root_snoc (l : list Checkpoint) (x : Checkpoint) :
  rootable x ->
  exists pre, ComputeCheckpointMerkleRoot (l ++ [x]) = Some (sha256 pre) /\ pre ∈ root_inputs (l ++ [x]) /\
    ((l = [] /\ length pre = 40%nat /\ sha256 pre = checkpoint_leaf x) \/
     (exists r, ComputeCheckpointMerkleRoot l = Some r /\ pre = r ++ checkpoint_leaf x /\ length r = 32%nat)).
Proof.
  intros [_ Hx]. unfold ComputeCheckpointMerkleRoot, root_inputs. rewrite !map_app. destruct (map checkpoint_leaf l) as [|h hs] eqn:E; cbn.
  - exists (key_input x). apply map_eq_nil in E as ->. split; [done|]. split; [apply list_elem_of_here|]. left. split_and!; [done| |done].
    unfold key_input. rewrite length_app, be_bytes_length. unfold len in Hx. lia.
  - rewrite foldl_app, run_inputs_snoc. cbn. eexists. split; [done|]. split; [rewrite !elem_of_app, !list_elem_of_singleton; by right; right|].
    right. eexists. split_and!; [done|done|].
    destruct hs as [|h' hs] using rev_ind; cbn.
    + assert (Hh : h ∈ map checkpoint_leaf l) by (rewrite E; set_solver).
      apply list_elem_of_fmap in Hh as (y & -> & _). apply sha256_length.
    + rewrite foldl_app. apply sha256_length.
Qed.

Lemma root_binds (a b : list Checkpoint) :
  Forall rootable a -> Forall rootable b ->
  ComputeCheckpointMerkleRoot a = ComputeCheckpointMerkleRoot b ->
  map root_key a = map root_key b \/ collides (root_inputs a) (root_inputs b).
Proof.
  revert b. induction a as [|x a IH] using rev_ind; intros b Ha Hb E.
  { left. destruct b as [|y b]; [done|discriminate E]. }
  apply Forall_app in Ha as [Ha Hx]. rewrite list.Forall_singleton in Hx.
  destruct (root_snoc a x Hx) as (pa & Ea & Ia & Ca). rewrite Ea in E.
  destruct b as [|y b _] using rev_ind; [discriminate E|].
  apply Forall_app in Hb as [Hb Hy]. rewrite list.Forall_singleton in Hy.
  destruct (root_snoc b y Hy) as (pb & Eb & Ib & Cb). rewrite Eb in E. apply (inj Some) in E.
  assert (Hxa : x ∈ a ++ [x]) by (apply elem_of_app; right; apply list_elem_of_here).
  assert (Hyb : y ∈ b ++ [y]) by (apply elem_of_app; right; apply list_elem_of_here).
  pose proof (leaf_inj _ _ x y Hx Hy Hxa Hyb) as Hleaf.
  destruct (sha256_meets _ _ _ _ Ia Ib E) as [E'|]; [|by right].
  destruct Ca as [(-> & La & Xa)|(ra & Ra & -> & La)], Cb as [(-> & Lb & Xb)|(rb & Rb & -> & Lb)].
  - rewrite Xa, Xb in E. destruct (Hleaf E) as [Hk|]; [left|by right]. cbn. by rewrite Hk.
  - subst pa. unfold checkpoint_leaf in La. rewrite length_app, sha256_length in La. lia.
  - subst pb. unfold checkpoint_leaf in Lb. rewrite length_app, sha256_length in Lb. lia.
  - apply app_inj_1 in E' as [-> El]; [|congruence]. destruct (IH b Ha Hb) as [Hm|Hc]; [congruence| |right].
    + destruct (Hleaf El) as [Hk|]; [left|by right]. by rewrite !map_app, Hm; cbn; rewrite Hk.
    + eapply collides_mono; [apply root_inputs_snoc|apply root_inputs_snoc|exact Hc].
Qed.

(** * Theorems *)

(** C36. The binary form of the index is complete and read back: for every index that
    files its checkpoints under their heights, up to a latest height below the largest [uint64], and whose
    checkpoints have 32-byte hashes and state roots of at most 65535 bytes, encoding succeeds, and
    decoding the bytes into any other index gives every checkpoint back (its time, signature and
    validator excepted, which the form does not hold), keeps the other index's checkpoints of
    other heights, and sets the latest height. *)
Theorem checkpoints_roundtrip (cs cs0 : CheckpointSystem) :
  index_inv cs -> latest cs < max_u64 -> map_Forall (fun _ cp => encodable cp) (checkpoints cs) ->
  exists data, BinaryEncode cs = Val (Ok data) /\
    BinaryDecode data cs0 =
      (mkSystem (map_imap (fun h cp => Some (stored_form h cp)) (checkpoints cs) ∪ checkpoints cs0)
         (latest cs) (interval cs0) (trustedKeys cs0), Ok tt).
Proof.
  intros [Hl Hk] Hmax He. unfold BinaryEncode.
  assert (Hhs : Forall is_u64 (seqZ 0 (latest cs + 1))).
  { apply list.Forall_forall. intros h Hh. apply elem_of_seqZ in Hh. unfold is_u64 in *. lia. }
  destruct (decode_loop_encoded (checkpoints cs) _ (be_bytes 8 (latest cs)) Hhs He) as (body & -> & Hd).
  destruct (Z.eqb_spec (latest cs) max_u64); [lia|]. eexists. split; [done|].
  unfold BinaryDecode. unfold len. rewrite length_app, be_bytes_length.
  destruct (Z.ltb_spec (Z.of_nat (8 + length body)) 8); [lia|].
  rewrite drop_app_length', take_app_length' by (by rewrite be_bytes_length).
  rewrite be_val_bytes by (unfold is_u64, max_u64 in *; cbn; lia). rewrite Hd by lia.
  unfold set_checkpoints, set_latest_height. cbn. do 2 f_equal. apply map_eq. intros k.
  rewrite insert_stored_lookup, lookup_union, map_lookup_imap.
  destruct (checkpoints cs !! k) as [cp|] eqn:E; cbn.
  - destruct (Hk k cp E) as [_ ?]. rewrite decide_True by (apply elem_of_seqZ; lia).
    by destruct (checkpoints cs0 !! k).
  - destruct (checkpoints cs0 !! k); by case_decide.
Qed.

(** The root of a list of checkpoints binds the list: two lists with the same root
    have the same heights and block hashes in the same order, or an input hashed for the one
    root and an input hashed for the other are different and have the same digest. *)
Theorem checkpoint_root_binds (a b : list Checkpoint) :
  Forall rootable a -> Forall rootable b ->
  ComputeCheckpointMerkleRoot a = ComputeCheckpointMerkleRoot b ->
  map root_key a = map root_key b \/ collides (root_inputs a) (root_inputs b).
Proof. apply root_binds. Qed.

(** The signature of a checkpoint is not checked: any other bytes of the same length do as
    well. *)
Theorem signature_unchecked (cp : Checkpoint) (sig : list Z) (cs : CheckpointSystem) :
  VerifyCheckpoint (Some cp) cs = Ok tt -> len sig = len (cp_Signature cp) ->
  VerifyCheckpoint (Some (mkCheckpoint (cp_Height cp) (cp_BlockHash cp) (cp_BlockHashRaw cp) (cp_Timestamp cp)
    (cp_StateRoot cp) sig (cp_Validator cp))) cs = Ok tt.
Proof. intros <- Hl. unfold VerifyCheckpoint, verifySignature. cbn. by rewrite Hl. Qed.

(** An aligned checkpoint without a signature is accepted exactly when its hash has 32 bytes
    and it is the first one or the one before it is known. *)
Theorem aligned_checkpoint_iff (cp : Checkpoint) (cs : CheckpointSystem) (k : Z) :
  0 < interval cs -> 1 <= k -> cp_Height cp = k * interval cs -> is_u64 (cp_Height cp) -> cp_Signature cp = [] ->
  VerifyCheckpoint (Some cp) cs = Ok tt <->
  len (cp_BlockHashRaw cp) = 32 /\ (k = 1 \/ is_Some (checkpoints cs !! ((k - 1) * interval cs))).
Proof.
  intros Hi Hk Hh Hu Hs. unfold VerifyCheckpoint. rewrite Hs. cbn [len length Z.of_nat].
  destruct (Z.eqb_spec (cp_Height cp) 0); [nia|].
  assert (E1 : (cp_Height cp - interval cs)%u64 = (k - 1) * interval cs).
  { rewrite sub64_small; [lia|]. unfold is_u64 in Hu. nia. }
  assert (E2 : ((cp_Height cp - 1) / interval cs * interval cs)%u64 = (k - 1) * interval cs).
  { unfold div64. rewrite sub64_small by (unfold is_u64 in Hu; nia).
    assert ((cp_Height cp - 1) / interval cs = k - 1) as -> by (symmetry; apply (Z.div_unique _ _ _ (interval cs - 1)); [lia|nia]).
    rewrite mul64_small; [done|]. unfold is_u64 in Hu. nia. }
  rewrite E1, E2. unfold hashLength. change (0 <? 0) with false. rewrite andb_false_r.
  destruct (Z.eqb_spec (len (cp_BlockHashRaw cp)) 32); cbn [fail_if negb result_bind]; [|naive_solver].
  destruct (Z.eq_dec k 1) as [->|Hk1]; [change ((1 - 1) * interval cs) with 0; cbn; naive_solver|].
  destruct (Z.ltb_spec 0 ((k - 1) * interval cs)); [|nia].
  destruct (checkpoints cs !! ((k - 1) * interval cs)) as [c|]; cbn; [naive_solver|].
  split; [done|]. intros [_ [?|[? ?]]]; done.
Qed.

(** Below the first interval the height of the previous checkpoint wraps around, so that a
    checkpoint there is refused. *)
Theorem early_checkpoint_refused (cp : Checkpoint) (cs : CheckpointSystem) :
  index_inv cs -> 0 < cp_Height cp < interval cs -> interval cs <= max_u64 ->
  latest cs < 18446744073709551616 + cp_Height cp - interval cs -> len (cp_BlockHashRaw cp) = 32 ->
  cp_Signature cp = [] ->
  VerifyCheckpoint (Some cp) cs = Err "missing previous checkpoint".
Proof.
  intros [_ Hm] Hh Hi Hl Hr Hs. unfold VerifyCheckpoint. rewrite Hs, Hr. cbn [len length Z.of_nat].
  destruct (Z.eqb_spec (cp_Height cp) 0); [lia|]. change (0 <? 0) with false. rewrite andb_false_r.
  cbn [fail_if negb result_bind Z.eqb hashLength Pos.eqb].
  assert (E : (cp_Height cp - interval cs)%u64 = 18446744073709551616 + cp_Height cp - interval cs).
  { unfold sub64, u64. rewrite <- (Z.mod_add (cp_Height cp - interval cs) 1) by lia. unfold max_u64 in Hi.
    rewrite Z.mod_small; lia. }
  rewrite E. destruct (checkpoints cs !! _) as [c|] eqn:Ec; [destruct (Hm _ _ Ec); lia|].
  unfold max_u64 in Hi. destruct (Z.ltb_spec 0 (18446744073709551616 + cp_Height cp - interval cs)); [done|lia].
Qed.

(** Pruning follows the order of the map: it may drop the newest checkpoint, and then the
    latest height has none. *)
Example prune_drops_latest :
  let cp h := mkCheckpoint h "" [] 0 "" [] "" in
  let cs := AddCheckpoint (cp 300) (AddCheckpoint (cp 200) (AddCheckpoint (cp 100) (NewCheckpointSystem 0))) in
  match PruneOldCheckpoints [300; 100; 200] 1 cs with
  | Val cs' => (GetLatestCheckpoint cs', latest cs', IsFinalized 300 cs) = ((None, 0), 300, true) /\ IsFinalized 300 cs' = false
  | Halt _ => False
  end.
Proof. by vm_compute. Qed.

(** In an accepted list the checkpoints are at least an interval apart, so that the [j]-th one
    after a checkpoint is at least [j] intervals higher. *)
Theorem chain_spacing (p : Checkpoint) (cps : list Checkpoint) (iv : Z) (j : nat) (cp : Checkpoint) :
  Forall (fun cp => is_u64 (cp_Height cp)) (p :: cps) ->
  VerifyCheckpointChain (map Some (p :: cps)) iv = Ok tt -> cps !! j = Some cp ->
  cp_Height p + Z.of_nat (S j) * iv <= cp_Height cp.
Proof.
  intros Hu E Hj. unfold VerifyCheckpointChain in E. cbn [map verify_chain_from] in E. inv_result.
  clear E1. revert p Hu j Hj E. induction cps as [|q cps IH]; intros p Hu j Hj E; [done|].
  cbn [map verify_chain_from] in E. inv_result. bool_to_prop.
  apply list.Forall_cons in Hu as [Hp Hu]. pose proof Hu as Hq. apply list.Forall_cons in Hq as [Hq _].
  rewrite sub64_small in * by (unfold is_u64 in *; lia).
  destruct j as [|j]; [injection Hj as <-; lia|].
  specialize (IH q Hu j Hj E). lia.
Qed.

(** ** On concrete checkpoints *)
Definition sample_checkpoint (h : Z) : Checkpoint :=
  mkCheckpoint h (hex_encode (replicate 32 h)) (replicate 32 h) 5 "root" [1] "v".
Definition sample_index : CheckpointSystem :=
  AddCheckpoint (sample_checkpoint 200) (AddCheckpoint (sample_checkpoint 100) (NewCheckpointSystem 100)).

Lemma checkpoints_roundtrip_witness :
  exists data, BinaryEncode sample_index = Val (Ok data) /\
    checkpoints (fst (BinaryDecode data (NewCheckpointSystem 0))) !! 200 = Some (stored_form 200 (sample_checkpoint 200)).
Proof.
  destruct (checkpoints_roundtrip sample_index (NewCheckpointSystem 0)) as (data & E1 & E2).
  - apply AddCheckpoint_inv; [by vm_compute|]. apply AddCheckpoint_inv; [by vm_compute|].
    split; [by vm_compute|apply map_Forall_empty].
  - by vm_compute.
  - repeat (apply map_Forall_insert_2; [by vm_compute|]). apply map_Forall_empty.
  - exists data. split; [exact E1|]. by rewrite E2.
Defined.

Lemma checkpoint_root_binds_witness :
  let a := [sample_checkpoint 100; sample_checkpoint 200] in
  let b := [stored_form 100 (sample_checkpoint 100); stored_form 200 (sample_checkpoint 200)] in
  map root_key a = map root_key b \/ collides (root_inputs a) (root_inputs b).
Proof.
  intros a b. apply (checkpoint_root_binds a b).
  - repeat constructor; by vm_compute.
  - repeat constructor; by vm_compute.
  - reflexivity.
Defined.
