(* ===== verification/Channel.v ===== *)
(** * Channels of a peer connection

    [network/mconnection]: [descriptor.go], [channels.go], [packet.go], [channel.go].  A
    message is queued on a channel, cut into packets of at most 1024 bytes and put together
    again at the other end.  The receive buffer of a channel is a Go slice that is handed to
    the application and then reused, so the arrays behind the slices are kept in a store.
    [MConnection] multiplexes channels over one connection. *)

From S2P Require Import Prelude Bytes Float.
From stdpp Require Import base list strings numbers.
From Stdlib Require Import ZArith Lia.

Open Scope Z_scope.
Open Scope go_scope.

(** ** Descriptors *)
Record ChannelDescriptor := mkDesc {
  d_ID : Z; d_Priority : Z; d_SendQueueCapacity : Z; d_RecvBufferCapacity : Z;
  d_RecvMessageCapacity : Z }.

Definition desc_Validate (cd : ChannelDescriptor) : result unit :=
  fail_if (d_ID cd =? 0) "channel ID must not be zero" ;;?
  fail_if (d_Priority cd <=? 0) "priority must be positive" ;;?
  fail_if (d_SendQueueCapacity cd <=? 0) "send queue capacity must be positive" ;;?
  fail_if (d_RecvBufferCapacity cd <=? 0) "recv buffer capacity must be positive" ;;?
  fail_if (d_RecvMessageCapacity cd <=? 0) "recv message capacity must be positive".

Fixpoint unique_ids (seen : list Z) (descs : list ChannelDescriptor) : result unit :=
  match descs with
  | [] => Ok tt
  | desc :: rest =>
      fail_if (bool_decide (d_ID desc ∈ seen)) "duplicate channel ID" ;;?
      unique_ids (d_ID desc :: seen) rest
  end.

Definition ValidateUnique (descs : list ChannelDescriptor) : result unit := unique_ids [] descs.

Fixpoint validate_each (descs : list ChannelDescriptor) : result unit :=
  match descs with
  | [] => Ok tt
  | desc :: rest => wrap "invalid channel descriptor" (desc_Validate desc) ;;? validate_each rest
  end.

Definition ValidateDescriptors (descs : list ChannelDescriptor) : result unit :=
  validate_each descs ;;? wrap "channel validation" (ValidateUnique descs).

Definition ChannelSync : Z := 1.
Definition ChannelTx : Z := 2.
Definition ChannelBlock : Z := 3.
Definition ChannelConsensus : Z := 4.
Definition ChannelGossip : Z := 5.
Definition defaultSendQueueCapacity : Z := 256.
Definition defaultRecvBufferCapacity : Z := 4096.
Definition defaultRecvMessageCapacity : Z := 22020096.

Definition default_desc (id priority : Z) : ChannelDescriptor :=
  mkDesc id priority defaultSendQueueCapacity defaultRecvBufferCapacity defaultRecvMessageCapacity.

Definition DefaultChannelDescriptors : list ChannelDescriptor :=
  [default_desc ChannelSync 5; default_desc ChannelTx 3; default_desc ChannelBlock 5;
   default_desc ChannelConsensus 7; default_desc ChannelGossip 1].

Definition ChannelName (chID : Z) : string :=
  if chID =? ChannelSync then "sync"
  else if chID =? ChannelTx then "tx"
  else if chID =? ChannelBlock then "block"
  else if chID =? ChannelConsensus then "consensus"
  else if chID =? ChannelGossip then "gossip"
  else "unknown".

(** ** Packets *)
Definition maxMsgPacketPayloadSize : Z := 1024.
Definition msgPacketHeaderSize : Z := 4.

Record msgPacket := mkPacket { ChannelID : Z; Data : list Z; EOF : bool }.

(** [binary.BigEndian.PutUint16(buf, uint16(n))] and [Uint16]. *)
Definition put_u16 (n : Z) : list Z := [u8 (n / 256); u8 n].
Definition get_u16 (hi lo : Z) : Z := hi * 256 + lo.

Definition eof_byte (eof : bool) : Z := if eof then 1 else 0.

(** The flag comes after the data here... *)
Definition Serialize (p : msgPacket) : result (list Z) :=
  let payloadLen := len (Data p) in
  fail_if (maxMsgPacketPayloadSize <? payloadLen) "payload size exceeds maximum" ;;?
  Ok (ChannelID p :: put_u16 (u16 payloadLen) ++ Data p ++ [eof_byte (EOF p)]).

(** ** Buffered writes

    [bufio.Writer]: what the connection took, what waits in the buffer, and the error that
    sticks.  A packet is flushed as soon as it is written, so the buffer of 64 KiB never
    fills up. *)
Record Writer := mkWriter { w_conn : list Z; w_buf : list Z; w_err : bool }.

Definition Write (bs : list Z) (w : Writer) : Writer * result unit :=
  if w_err w then (w, Err "write error")
  else (mkWriter (w_conn w) (w_buf w ++ bs) false, Ok tt).

(** [fault]: [None] when the connection takes the whole buffer, [Some n] when it fails after
    [n] bytes. *)
Definition Flush (fault : option nat) (w : Writer) : Writer * result unit :=
  if w_err w then (w, Err "write error")
  else match w_buf w, fault with
       | [], _ => (w, Ok tt)
       | buf, None => (mkWriter (w_conn w ++ buf) [] false, Ok tt)
       | buf, Some n => (mkWriter (w_conn w ++ take n buf) (drop n buf) true, Err "write error")
       end.

(** ... and before it here, where packets are sent. *)
Definition packet_header (p : msgPacket) : list Z :=
  ChannelID p :: put_u16 (u16 (len (Data p))) ++ [eof_byte (EOF p)].

Definition SerializeTo (p : msgPacket) (w : Writer) : Writer * (Z * result unit) :=
  let payloadLen := len (Data p) in
  if maxMsgPacketPayloadSize <? payloadLen then (w, (0, Err "payload size exceeds maximum"))
  else
    match Write (packet_header p) w with
    | (w1, Err e) => (w1, (0, Err ("write packet header: " +:+ e)))
    | (w1, Ok _) =>
        if 0 <? payloadLen then
          match Write (Data p) w1 with
          | (w2, Err e) => (w2, (msgPacketHeaderSize, Err ("write packet payload: " +:+ e)))
          | (w2, Ok _) => (w2, (msgPacketHeaderSize + payloadLen, Ok tt))
          end
        else (w1, (msgPacketHeaderSize, Ok tt))
    end.

(** A reader is what the connection will still deliver before it ends; [io.ReadFull] takes
    what is left when that is too little. *)
Definition ReadFull (n : nat) (r : list Z) : list Z * result (list Z) :=
  if (n <=? length r)%nat then (drop n r, Ok (take n r))
  else ([], Err (if bool_decide (r = []) then "EOF" else "unexpected EOF")%string).

Definition DeserializePacket (r : list Z) : list Z * result msgPacket :=
  match ReadFull 4 r with
  | (r1, Err e) => (r1, Err ("read packet header: " +:+ e))
  | (r1, Ok header) =>
      let channelID := default 0 (header !! 0%nat) in
      let payloadLen := get_u16 (default 0 (header !! 1%nat)) (default 0 (header !! 2%nat)) in
      let eofFlag := default 0 (header !! 3%nat) in
      if maxMsgPacketPayloadSize <? payloadLen
      then (r1, Err "payload length exceeds maximum")
      else if 0 <? payloadLen then
             match ReadFull (Z.to_nat payloadLen) r1 with
             | (r2, Err e) => (r2, Err ("read packet payload: " +:+ e))
             | (r2, Ok data) => (r2, Ok (mkPacket channelID data (eofFlag =? 1)))
             end
           else (r1, Ok (mkPacket channelID [] (eofFlag =? 1)))
  end.

(** ** Receive buffers

    The arrays behind the slices; an array's address is its position. *)
Abbreviation Arrays := (list (list Z)).
Record Buf := mkBuf { b_arr : nat; b_len : nat }.

Definition content (h : Arrays) (s : Buf) : list Z := take (b_len s) (default [] (h !! b_arr s)).

(** [append(s, data...)]: in place while the capacity lasts, else in a new array, whose
    capacity [growslice old needed] is chosen by the runtime. *)
Definition append_bytes (growslice : nat -> nat -> nat) (s : Buf) (data : list Z) (h : Arrays)
  : Buf * Arrays :=
  let arr := default [] (h !! b_arr s) in
  let n := (b_len s + length data)%nat in
  if (n <=? length arr)%nat
  then (mkBuf (b_arr s) n, <[b_arr s := take (b_len s) arr ++ data ++ drop n arr]> h)
  else (mkBuf (length h) n,
        h ++ [take (b_len s) arr ++ data ++ replicate (growslice (length arr) n - n) 0]).

(** ** Channels *)
Definition i32 (z : Z) : Z := let r := u32 z in if r <=? 2147483647 then r else r - 4294967296.

Record Channel := mkChannel {
  c_sendQueue : list (list Z);     (* a buffered Go channel *)
  c_sendQueueSize : Z;
  c_sending : list Z;
  c_recving : Buf;
  c_desc : ChannelDescriptor;
  c_priority : Z;
  c_recentlySent : Z }.

Definition set_sending (q : list (list Z)) (size : Z) (s : list Z) (ch : Channel) : Channel :=
  mkChannel q size s (c_recving ch) (c_desc ch) (c_priority ch) (c_recentlySent ch).
Definition set_recving (b : Buf) (ch : Channel) : Channel :=
  mkChannel (c_sendQueue ch) (c_sendQueueSize ch) (c_sending ch) b (c_desc ch) (c_priority ch)
    (c_recentlySent ch).
Definition set_recentlySent (n : Z) (ch : Channel) : Channel :=
  mkChannel (c_sendQueue ch) (c_sendQueueSize ch) (c_sending ch) (c_recving ch) (c_desc ch)
    (c_priority ch) n.

(** The buffer starts empty in an array of its own. *)
Definition NewChannel (desc : ChannelDescriptor) (h : Arrays) : Arrays * result Channel :=
  match desc_Validate desc with
  | Err e => (h, Err ("create channel: " +:+ e))
  | Ok _ => (h ++ [replicate (Z.to_nat (d_RecvBufferCapacity desc)) 0],
             Ok (mkChannel [] 0 [] (mkBuf (length h) 0) desc (d_Priority desc) 0))
  end.

(** [true] when there is something to send; takes the next message off the queue when
    nothing is being sent. *)
Definition isSendPending (ch : Channel) : Channel * bool :=
  match c_sending ch, c_sendQueue ch with
  | [], [] => (ch, false)
  | [], msg :: q => (set_sending q (c_sendQueueSize ch) msg ch, true)
  | _, _ => (ch, true)
  end.

Definition incrementSendQueue (ch : Channel) : Channel :=
  set_sending (c_sendQueue ch) (i32 (c_sendQueueSize ch + 1)) (c_sending ch) ch.
Definition decrementSendQueue (ch : Channel) : Channel :=
  set_sending (c_sendQueue ch) (i32 (c_sendQueueSize ch - 1)) (c_sending ch) ch.
Definition loadSendQueueSize (ch : Channel) : Z := c_sendQueueSize ch.
Definition canSend (ch : Channel) : bool := loadSendQueueSize ch <? d_SendQueueCapacity (c_desc ch).

Definition nextMsgPacket (ch : Channel) : Channel * msgPacket :=
  let payloadSize := Z.min (len (c_sending ch)) maxMsgPacketPayloadSize in
  let data := take (Z.to_nat payloadSize) (c_sending ch) in
  let eof := len (c_sending ch) <=? maxMsgPacketPayloadSize in
  let packet := mkPacket (d_ID (c_desc ch)) data eof in
  if eof
  then (decrementSendQueue (set_sending (c_sendQueue ch) (c_sendQueueSize ch) [] ch), packet)
  else (set_sending (c_sendQueue ch) (c_sendQueueSize ch)
          (drop (Z.to_nat payloadSize) (c_sending ch)) ch, packet).

(** Returns the slice with the whole message when the packet completes it. *)
Definition recvMsgPacket (growslice : nat -> nat -> nat) (packet : msgPacket) (ch : Channel)
    (h : Arrays) : (Channel * Arrays) * result (option Buf) :=
  let newLen := Z.of_nat (b_len (c_recving ch)) + len (Data packet) in
  if d_RecvMessageCapacity (c_desc ch) <? newLen
  then ((ch, h), Err "recv message capacity exceeded")
  else let '(s, h') := append_bytes growslice (c_recving ch) (Data packet) h in
       if EOF packet
       then ((set_recving (mkBuf (b_arr s) 0) ch, h'), Ok (Some s))
       else ((set_recving s ch, h'), Ok None).

(** [ch.sendQueue <- msg]: [None] while the queue is full, when the sender waits. *)
Definition WriteMessage (msg : list Z) (ch : Channel) : option (Channel * bool) :=
  if len (c_sendQueue ch) <? d_SendQueueCapacity (c_desc ch)
  then Some (incrementSendQueue
               (set_sending (c_sendQueue ch ++ [msg]) (c_sendQueueSize ch) (c_sending ch) ch), true)
  else None.

Definition TryWriteMessage (msg : list Z) (ch : Channel) : Channel * bool :=
  match WriteMessage msg ch with
  | Some (ch', _) => (ch', true)
  | None => (ch, false)
  end.

Definition incrementRecentlySent (n : Z) (ch : Channel) : Channel :=
  set_recentlySent (i64 (c_recentlySent ch + n)) ch.
Definition loadRecentlySent (ch : Channel) : Z := c_recentlySent ch.

Definition decayRecentlySent (ch : Channel) : Channel :=
  let decayed := i64 (f64_trunc (f64_mul (f64_of_Z (c_recentlySent ch)) (f64_const 8 10))) in
  set_recentlySent decayed ch.

Definition getSendPriorityRatio (ch : Channel) : float64 :=
  if c_priority ch <=? 0 then f64_of_Z 0
  else f64_div (f64_of_Z (c_recentlySent ch)) (f64_of_Z (c_priority ch)).

(** * Lemmas *)

(** ** Descriptors *)
Lemma unique_ids_ok (descs : list ChannelDescriptor) : forall seen,
  unique_ids seen descs = Ok tt ->
  NoDup (map d_ID descs) /\ Forall (fun d => d_ID d ∉ seen) descs.
Proof.
  induction descs as [|d ds IH]; cbn [unique_ids]; intros seen Hu; [split; constructor|].
  inv_result. bool_to_prop. destruct (IH _ Hu) as [Hn Hf]. cbn [map]. split.
  - constructor; [|done]. intros Hin. apply list_elem_of_fmap in Hin as (x & Hx & Hin).
    rewrite list.Forall_forall in Hf. apply (Hf x Hin). rewrite Hx. left.
  - constructor; [done|]. eapply list.Forall_impl; [exact Hf|]. intros x Hx Hs. apply Hx. by right.
Qed.

Lemma validate_each_ok (descs : list ChannelDescriptor) :
  validate_each descs = Ok tt -> Forall (fun d => desc_Validate d = Ok tt) descs.
Proof.
  induction descs as [|d ds IH]; cbn [validate_each]; intros Hv; [constructor|].
  destruct (desc_Validate d) as [[]|e] eqn:E; [|done]. cbn in Hv. constructor; [done|auto].
Qed.

Lemma ValidateDescriptors_ok (descs : list ChannelDescriptor) :
  ValidateDescriptors descs = Ok tt ->
  NoDup (map d_ID descs) /\ Forall (fun d => desc_Validate d = Ok tt) descs.
Proof.
  unfold ValidateDescriptors. intros Hv. destruct (validate_each descs) as [[]|] eqn:E; [|done].
  cbn in Hv. destruct (ValidateUnique descs) as [[]|] eqn:Eu; [|done].
  split; [by apply (unique_ids_ok descs [])|by apply validate_each_ok].
Qed.

Lemma desc_Validate_ok (d : ChannelDescriptor) :
  desc_Validate d = Ok tt ->
  0 < d_Priority d /\ 0 < d_SendQueueCapacity d /\ 0 < d_RecvMessageCapacity d.
Proof. unfold desc_Validate. intros Hv. inv_result. bool_to_prop. lia. Qed.

(** ** Packets *)
Lemma u16_roundtrip (n : Z) : 0 <= n <= 1024 -> get_u16 (u8 (u16 n / 256)) (u8 (u16 n)) = n.
Proof.
  intros Hn. unfold get_u16, u8, u16. rewrite (Z.mod_small n 65536) by lia.
  rewrite (Z.mod_small (n / 256)) by (split; [apply Z.div_pos|apply Z.div_lt_upper_bound]; lia).
  pose proof (Z.div_mod n 256). lia.
Qed.

(** What is written is read back, and nothing more is read. *)
Lemma deserialize_packet (p : msgPacket) (rest : list Z) :
  len (Data p) <= maxMsgPacketPayloadSize ->
  DeserializePacket (packet_header p ++ Data p ++ rest) = (rest, Ok p).
Proof.
  intros Hp. unfold maxMsgPacketPayloadSize, len in Hp. destruct p as [id data eof]. cbn in Hp.
  unfold DeserializePacket, packet_header, ReadFull, put_u16. cbn -[u16 u8 Z.div get_u16].
  rewrite drop_0, u16_roundtrip by (unfold len; lia).
  assert (He : (eof_byte eof =? 1) = eof) by (by destruct eof). rewrite He.
  assert (E : (maxMsgPacketPayloadSize <? len data) = false)
    by (unfold maxMsgPacketPayloadSize, len; lia). rewrite E.
  destruct (0 <? len data) eqn:E0.
  - unfold len. rewrite Nat2Z.id, length_app.
    replace (length data <=? length data + length rest)%nat with true by (symmetry; apply Nat.leb_le; lia).
    by rewrite drop_app_length, take_app_length.
  - apply Z.ltb_ge in E0. unfold len in E0. destruct data; [done|cbn in E0; lia].
Qed.

(** A packet that is cut short is refused. *)
Lemma deserialize_short (p : msgPacket) (input suf : list Z) :
  len (Data p) <= maxMsgPacketPayloadSize -> suf <> [] ->
  packet_header p ++ Data p = input ++ suf ->
  exists rest e, DeserializePacket input = (rest, Err e).
Proof.
  intros Hp Hs He. destruct (Nat.ltb_spec (length input) 4) as [Hl|Hl].
  { unfold DeserializePacket, ReadFull.
    replace (4 <=? length input)%nat with false by (symmetry; apply Nat.leb_gt; lia). eauto. }
  assert (Hsl : (0 < length suf)%nat) by (destruct suf; [done|cbn; lia]).
  assert (Hd : length (packet_header p) = 4%nat) by done.
  pose proof (f_equal length He) as Hlen. rewrite !length_app, Hd in Hlen.
  assert (Hi : input = packet_header p ++ take (length input - 4) (Data p)).
  { rewrite <- Hd at 1. rewrite <- take_app_ge by lia. rewrite He. by rewrite take_app_length. }
  assert (Hk : (length (take (length input - 4) (Data p)) < length (Data p))%nat)
    by (rewrite length_take; lia).
  rewrite Hi. generalize dependent (take (length input - 4) (Data p)). intros k _ Hk.
  unfold maxMsgPacketPayloadSize, len in Hp.
  unfold DeserializePacket, packet_header, ReadFull, put_u16. cbn -[u16 u8 Z.div get_u16].
  rewrite drop_0, u16_roundtrip by (unfold len; lia).
  replace (maxMsgPacketPayloadSize <? len (Data p)) with false
    by (unfold maxMsgPacketPayloadSize, len; lia).
  replace (0 <? len (Data p)) with true by (unfold len; lia).
  unfold len. rewrite Nat2Z.id.
  replace (length (Data p) <=? length k)%nat with false by (symmetry; apply Nat.leb_gt; lia). eauto.
Qed.

(** ** Receive buffers *)
Definition buf_ok (h : Arrays) (s : Buf) : Prop :=
  exists arr, h !! b_arr s = Some arr /\ (b_len s <= length arr)%nat.

Lemma append_content g s data h s' h' :
  buf_ok h s -> append_bytes g s data h = (s', h') ->
  buf_ok h' s' /\ content h' s' = content h s ++ data /\ b_len s' = (b_len s + length data)%nat.
Proof.
  intros (arr & Ha & Hl) E. unfold append_bytes in E. rewrite Ha in E. cbn [default from_option id] in E.
  unfold buf_ok, content. rewrite Ha. cbn [default from_option id].
  assert (Hb : (b_arr s < length h)%nat) by (by apply lookup_lt_Some in Ha).
  assert (Ht : length (take (b_len s) arr) = b_len s) by (rewrite length_take; lia).
  assert (Hgo : forall t, take (b_len s + length data) (take (b_len s) arr ++ data ++ t)
                          = take (b_len s) arr ++ data).
  { intros t. rewrite app_assoc. apply take_app_length'. rewrite length_app. lia. }
  case_match eqn:Ec; injection E as <- <-; cbn [b_arr b_len].
  - apply Nat.leb_le in Ec. rewrite list_lookup_insert_eq by done. cbn [default from_option id].
    split; [eexists; split; [done|]|by rewrite Hgo].
    rewrite !length_app, length_drop. lia.
  - rewrite lookup_app_r, Nat.sub_diag by lia. cbn.
    split; [eexists; split; [done|]|by rewrite Hgo]. rewrite !length_app. lia.
Qed.

(** The arrays of other buffers are left alone. *)
Lemma append_other g s data h s' h' (o : Buf) :
  append_bytes g s data h = (s', h') -> b_arr o <> b_arr s -> (b_arr o < length h)%nat ->
  h' !! b_arr o = h !! b_arr o /\ b_arr o <> b_arr s'.
Proof.
  intros E Hn Hl. unfold append_bytes in E. case_match; injection E as <- <-; cbn [b_arr].
  - by rewrite list_lookup_insert_ne by done.
  - rewrite lookup_app_l by done. split; [done|lia].
Qed.

Lemma append_length g s data h s' h' :
  append_bytes g s data h = (s', h') -> (length h <= length h')%nat.
Proof.
  intros E. unfold append_bytes in E. case_match; injection E as <- <-.
  - by rewrite length_insert.
  - rewrite length_app. lia.
Qed.

(** ** Sending *)
Lemma nextMsgPacket_spec (ch ch' : Channel) (p : msgPacket) :
  nextMsgPacket ch = (ch', p) ->
  c_sending ch = Data p ++ c_sending ch' /\ ChannelID p = d_ID (c_desc ch) /\
  len (Data p) <= maxMsgPacketPayloadSize /\
  EOF p = bool_decide (c_sending ch' = []) /\
  len (Data p) = Z.min (len (c_sending ch)) maxMsgPacketPayloadSize /\
  c_sendQueue ch' = c_sendQueue ch /\ c_desc ch' = c_desc ch.
Proof.
  unfold nextMsgPacket, len. intros E. set (n := Z.to_nat _) in E.
  assert (Hn : n = Nat.min (length (c_sending ch)) 1024)
    by (subst n; unfold maxMsgPacketPayloadSize; lia).
  assert (Hl : length (take n (c_sending ch)) = n) by (rewrite length_take; lia).
  case_match eqn:Ec; injection E as <- <-; cbn; unfold maxMsgPacketPayloadSize in *.
  - assert (Hf : take n (c_sending ch) = c_sending ch) by (apply take_ge; lia).
    rewrite Hf, app_nil_r. repeat split; try done; lia.
  - rewrite take_drop, Hl. repeat split; try done; try lia.
    symmetry. apply bool_decide_eq_false. intros Hd. apply (f_equal length) in Hd.
    rewrite length_drop in Hd. cbn in Hd. lia.
Qed.

(** * Theorems *)

(** A message handed to the application shares its array with the receive buffer: the next
    packet of the channel overwrites its beginning. *)
Theorem delivered_buffer_reused g p q ch h ch1 h1 s ch2 h2 r :
  buf_ok h (c_recving ch) ->
  recvMsgPacket g p ch h = ((ch1, h1), Ok (Some s)) -> recvMsgPacket g q ch1 h1 = ((ch2, h2), Ok r) ->
  (length (Data q) <= b_len s)%nat ->
  content h2 s = Data q ++ drop (length (Data q)) (content h1 s).
Proof.
  intros Hb E1 E2 Hl. unfold recvMsgPacket in E1. case_match; [done|].
  destruct (append_bytes g (c_recving ch) (Data p) h) as [s1 h1'] eqn:Ea.
  destruct (EOF p); [|done]. injection E1 as <- <- <-.
  destruct (append_content _ _ _ _ _ _ Hb Ea) as ((arr & Ha & Hs) & _ & _).
  unfold recvMsgPacket in E2. case_match; [done|].
  unfold append_bytes in E2. cbn [c_recving set_recving b_arr b_len] in E2. rewrite Ha in E2.
  cbn [default from_option id] in E2. replace (0 + length (Data q) <=? length arr)%nat with true in E2
    by (symmetry; apply Nat.leb_le; lia). rewrite take_0 in E2. cbn [app] in E2.
  assert (Hh : h2 = <[b_arr s1 := Data q ++ drop (0 + length (Data q)) arr]> h1').
  { destruct (EOF q); by injection E2 as _ <- _. }
  subst h2. unfold content. rewrite list_lookup_insert_eq by (by apply lookup_lt_Some in Ha). rewrite Ha.
  cbn [default from_option id plus]. rewrite take_app_ge by lia. f_equal.
  by rewrite skipn_firstn_comm.
Qed.

(** An empty message that is not chosen at once is dropped, and its place in the count of
    queued messages is never given back. *)
Theorem empty_message_lost (ch : Channel) :
  c_sending ch = [] -> c_sendQueue ch = [] -> 0 < d_SendQueueCapacity (c_desc ch) ->
  exists ch1 ch2, WriteMessage [] ch = Some (ch1, true) /\ isSendPending ch1 = (ch2, true) /\
    isSendPending ch2 = (ch2, false) /\ c_sendQueueSize ch2 = i32 (c_sendQueueSize ch + 1).
Proof.
  intros H1 H2 H3. unfold WriteMessage. rewrite H2. change (len []) with 0.
  replace (0 <? _) with true by lia.
  eexists _, _. split; [done|]. unfold isSendPending. cbn. by rewrite H1.
Qed.

(** [Serialize] puts the flag where its comment says, but the reader expects it before the
    data: it is misread as soon as there is any. *)
Theorem serialize_misread (id x : Z) (data : list Z) (eof : bool) :
  len (x :: data) <= maxMsgPacketPayloadSize ->
  exists bs, Serialize (mkPacket id (x :: data) eof) = Ok bs /\
    DeserializePacket bs = ([], Ok (mkPacket id (data ++ [eof_byte eof]) (x =? 1))).
Proof.
  intros Hl. unfold Serialize. cbn [Data ChannelID EOF].
  replace (_ <? _) with false by lia. eexists. split; [done|].
  unfold maxMsgPacketPayloadSize in Hl.
  unfold DeserializePacket, ReadFull, put_u16. cbn -[u16 u8 Z.div get_u16 len].
  rewrite drop_0, u16_roundtrip by (unfold len in *; lia).
  replace (maxMsgPacketPayloadSize <? _) with false by (unfold maxMsgPacketPayloadSize; lia).
  replace (0 <? len (x :: data)) with true by (symmetry; apply Z.ltb_lt; unfold len; cbn [length]; lia).
  unfold len. rewrite Nat2Z.id. cbn [length]. rewrite length_app. cbn [length].
  replace (_ <=? _)%nat with true by (symmetry; apply Nat.leb_le; lia).
  rewrite drop_ge, take_ge by (rewrite length_app; cbn; lia). done.
Qed.
