(* ===== verification/MConnection.v ===== *)
(** * Peer connections

    [network/mconnection]: [config.go], [flowrate.go], [mconnection.go].  One connection
    carries all channels: the send routine picks the next packet by priority, the receive
    routine parses the stream and delivers complete messages.  A connection is one record;
    the two routines and the callers of [Send] take turns on it.  Reads of the clock and
    failures of the connection are arguments of each turn. *)

From S2P Require Import Prelude Bytes Float Channel.
From stdpp Require Import base list strings numbers gmap.
From Stdlib Require Import ZArith Lia SpecFloat.

Open Scope Z_scope.
Open Scope go_scope.

(** ** Configuration *)
Record MConnConfig := mkConfig {
  SendRate : Z; RecvRate : Z; PingTimeout : Z; PongTimeout : Z; MaxPacketPayloadSize : Z }.

Definition second : Z := 1000000000.
Definition defaultSendRate : Z := 512000.
Definition defaultRecvRate : Z := 512000.
Definition defaultPingTimeout : Z := 30 * second.
Definition defaultMaxPacketPayloadSize : Z := 1024.
Definition defaultPongTimeout : Z := 45 * second.

Definition DefaultMConnConfig : MConnConfig :=
  mkConfig defaultSendRate defaultRecvRate defaultPingTimeout defaultPongTimeout
    defaultMaxPacketPayloadSize.

Definition config_Validate (c : MConnConfig) : result unit :=
  fail_if (SendRate c <=? 0) "send rate must be positive" ;;?
  fail_if (RecvRate c <=? 0) "recv rate must be positive" ;;?
  fail_if (PingTimeout c <=? 0) "ping timeout must be positive" ;;?
  fail_if (PongTimeout c <=? 0) "pong timeout must be positive" ;;?
  fail_if (PongTimeout c <? PingTimeout c) "pong timeout must be >= ping timeout" ;;?
  fail_if (MaxPacketPayloadSize c <=? 0) "max packet payload size must be positive" ;;?
  fail_if (65535 <? MaxPacketPayloadSize c) "max packet payload size must not exceed 65535".

(** ** Transfer rates *)
Record FlowRate := mkFlow { f_bytes : Z; f_startTime : Z; f_lastUpdate : Z; f_rate : float64 }.

Definition NewFlowRate (now : Z) : FlowRate := mkFlow 0 now now (f64_of_Z 0).

(** [d.Seconds()] *)
Definition Seconds (d : Z) : float64 :=
  f64_add (f64_of_Z (Z.quot d second)) (f64_div (f64_of_Z (Z.rem d second)) (f64_of_Z second)).

Definition calculateRateLocked (now : Z) (fr : FlowRate) : FlowRate :=
  let elapsed := since now (f_lastUpdate fr) in
  if elapsed <=? 0 then fr
  else mkFlow (f_bytes fr) (f_startTime fr) (f_lastUpdate fr)
         (f64_div (f64_of_Z (f_bytes fr)) (Seconds elapsed)).

(** The two readings of the clock in one update. *)
Record Times := mkTimes { t_update : Z; t_rate : Z }.

Definition Update (t : Times) (n : Z) (fr : FlowRate) : FlowRate :=
  calculateRateLocked (t_rate t)
    (mkFlow (i64 (f_bytes fr + n)) (f_startTime fr) (t_update t) (f_rate fr)).

Definition Rate (now : Z) (fr : FlowRate) : FlowRate * float64 :=
  let fr' := calculateRateLocked now fr in (fr', f_rate fr').

Definition TotalBytes (fr : FlowRate) : Z := f_bytes fr.
Definition flow_Reset (now : Z) (fr : FlowRate) : FlowRate := mkFlow 0 now now (f64_of_Z 0).
Definition ElapsedSinceStart (now : Z) (fr : FlowRate) : Z := since now (f_startTime fr).

(** ** The connection *)
Definition packetTypePing : Z := 1.
Definition packetTypePong : Z := 2.
Definition packetTypeMsg : Z := 3.
Definition numBatchMsgPackets : nat := 10.

(** What a connection does to the outside: a message handed to the application (the slice
    and what it holds at that time), a pause for the rate limit, a shutdown begun by
    [stopForError], the error reported by [onError]. *)
Inductive event : Type :=
| Received (chID : Z) (msg : Buf) (bytes : list Z)
| Slept (d : Z)
| StopRequested (e : error)
| Reported (e : error).

Record MConnection := mkMConn {
  m_writer : Writer;
  m_channels : list Channel;
  m_channelsIdx : gmap Z nat;      (* the position of the channel in [m_channels] *)
  m_sendMonitor : FlowRate;
  m_recvMonitor : FlowRate;
  m_send : bool;                   (* a signal is waiting in the Go channel *)
  m_pong : bool;
  m_config : MConnConfig;
  m_errored : bool;
  m_quit : bool;                   (* [quit] is closed *)
  m_running : bool;
  m_lastRecvPongTime : Z;
  m_lastRecvMsgTime : Z;
  m_arrays : Arrays;
  m_trace : list event }.

Definition set_writer (w : Writer) (m : MConnection) : MConnection :=
  mkMConn w (m_channels m) (m_channelsIdx m) (m_sendMonitor m) (m_recvMonitor m) (m_send m)
    (m_pong m) (m_config m) (m_errored m) (m_quit m) (m_running m) (m_lastRecvPongTime m)
    (m_lastRecvMsgTime m) (m_arrays m) (m_trace m).
Definition set_channels (chs : list Channel) (m : MConnection) : MConnection :=
  mkMConn (m_writer m) chs (m_channelsIdx m) (m_sendMonitor m) (m_recvMonitor m) (m_send m)
    (m_pong m) (m_config m) (m_errored m) (m_quit m) (m_running m) (m_lastRecvPongTime m)
    (m_lastRecvMsgTime m) (m_arrays m) (m_trace m).
Definition set_sendMonitor (f : FlowRate) (m : MConnection) : MConnection :=
  mkMConn (m_writer m) (m_channels m) (m_channelsIdx m) f (m_recvMonitor m) (m_send m)
    (m_pong m) (m_config m) (m_errored m) (m_quit m) (m_running m) (m_lastRecvPongTime m)
    (m_lastRecvMsgTime m) (m_arrays m) (m_trace m).
Definition set_recvMonitor (f : FlowRate) (m : MConnection) : MConnection :=
  mkMConn (m_writer m) (m_channels m) (m_channelsIdx m) (m_sendMonitor m) f (m_send m)
    (m_pong m) (m_config m) (m_errored m) (m_quit m) (m_running m) (m_lastRecvPongTime m)
    (m_lastRecvMsgTime m) (m_arrays m) (m_trace m).
Definition set_signals (send pong : bool) (m : MConnection) : MConnection :=
  mkMConn (m_writer m) (m_channels m) (m_channelsIdx m) (m_sendMonitor m) (m_recvMonitor m) send
    pong (m_config m) (m_errored m) (m_quit m) (m_running m) (m_lastRecvPongTime m)
    (m_lastRecvMsgTime m) (m_arrays m) (m_trace m).
Definition set_status (errored quit running : bool) (m : MConnection) : MConnection :=
  mkMConn (m_writer m) (m_channels m) (m_channelsIdx m) (m_sendMonitor m) (m_recvMonitor m)
    (m_send m) (m_pong m) (m_config m) errored quit running (m_lastRecvPongTime m)
    (m_lastRecvMsgTime m) (m_arrays m) (m_trace m).
Definition set_recvTimes (pong msg : Z) (m : MConnection) : MConnection :=
  mkMConn (m_writer m) (m_channels m) (m_channelsIdx m) (m_sendMonitor m) (m_recvMonitor m)
    (m_send m) (m_pong m) (m_config m) (m_errored m) (m_quit m) (m_running m) pong msg
    (m_arrays m) (m_trace m).
Definition set_arrays (h : Arrays) (m : MConnection) : MConnection :=
  mkMConn (m_writer m) (m_channels m) (m_channelsIdx m) (m_sendMonitor m) (m_recvMonitor m)
    (m_send m) (m_pong m) (m_config m) (m_errored m) (m_quit m) (m_running m)
    (m_lastRecvPongTime m) (m_lastRecvMsgTime m) h (m_trace m).
Definition emit (e : event) (m : MConnection) : MConnection :=
  mkMConn (m_writer m) (m_channels m) (m_channelsIdx m) (m_sendMonitor m) (m_recvMonitor m)
    (m_send m) (m_pong m) (m_config m) (m_errored m) (m_quit m) (m_running m)
    (m_lastRecvPongTime m) (m_lastRecvMsgTime m) (m_arrays m) (m_trace m ++ [e]).

Fixpoint new_channels (chDescs : list ChannelDescriptor) (chs : list Channel) (idx : gmap Z nat)
    (h : Arrays) : result (list Channel * gmap Z nat * Arrays) :=
  match chDescs with
  | [] => Ok (chs, idx, h)
  | desc :: rest =>
      match NewChannel desc h with
      | (_, Err e) => Err ("create channel: " +:+ e)
      | (h', Ok ch) => new_channels rest (chs ++ [ch]) (<[d_ID desc := length chs]> idx) h'
      end
  end.

Definition NewMConnection (has_conn has_onReceive : bool) (chDescs : list ChannelDescriptor)
    (config : MConnConfig) (now_send now_recv : Z) : result MConnection :=
  fail_if (negb has_conn) "nil connection" ;;?
  fail_if (negb has_onReceive) "nil onReceive callback" ;;?
  wrap "invalid config" (config_Validate config) ;;?
  wrap "invalid channel descriptors" (ValidateDescriptors chDescs) ;;?
  let? x := new_channels chDescs [] ∅ [] in
  let '(chs, idx, h) := x in
  Ok (mkMConn (mkWriter [] [] false) chs idx (NewFlowRate now_send) (NewFlowRate now_recv)
        false false config false false false 0 0 h []).

Definition Start (m : MConnection) : MConnection * result unit :=
  if m_running m then (m, Err "connection already running")
  else (set_status (m_errored m) false true m, Ok tt).

(** Closing the connection shows in the turns that follow: their reads and writes fail. *)
Definition Stop (m : MConnection) : MConnection :=
  if m_running m then set_status (m_errored m) true false m else m.

Definition IsRunning (m : MConnection) : bool := m_running m.

Definition channel_of (chID : Z) (m : MConnection) : option (nat * Channel) :=
  i ← m_channelsIdx m !! chID; ch ← m_channels m !! i; Some (i, ch).

Definition set_channel (i : nat) (ch : Channel) (m : MConnection) : MConnection :=
  set_channels (<[i := ch]> (m_channels m)) m.

(** [None]: the caller waits for room in the queue. *)
Definition Send (chID : Z) (msg : list Z) (m : MConnection) : option (MConnection * bool) :=
  if negb (IsRunning m) then Some (m, false)
  else match channel_of chID m with
       | None => Some (m, false)
       | Some (i, ch) =>
           match WriteMessage msg ch with
           | None => None
           | Some (ch', _) => Some (set_signals true (m_pong m) (set_channel i ch' m), true)
           end
       end.

Definition TrySend (chID : Z) (msg : list Z) (m : MConnection) : MConnection * bool :=
  if negb (IsRunning m) then (m, false)
  else match channel_of chID m with
       | None => (m, false)
       | Some (i, ch) =>
           match TryWriteMessage msg ch with
           | (_, false) => (m, false)
           | (ch', true) => (set_signals true (m_pong m) (set_channel i ch' m), true)
           end
       end.

Definition CanSend (chID : Z) (m : MConnection) : bool :=
  if negb (IsRunning m) then false
  else match channel_of chID m with
       | None => false
       | Some (_, ch) => canSend ch
       end.

Definition TrafficStatus (now_send now_recv : Z) (m : MConnection)
  : MConnection * (float64 * float64) :=
  let '(fs, sendRate) := Rate now_send (m_sendMonitor m) in
  let '(fr, recvRate) := Rate now_recv (m_recvMonitor m) in
  (set_recvMonitor fr (set_sendMonitor fs m), (sendRate, recvRate)).

Definition LastRecvTime (m : MConnection) : Z :=
  if m_lastRecvMsgTime m =? 0 then zero_time else m_lastRecvMsgTime m.

(** The shutdown runs in a goroutine of its own, [finish_stop]. *)
Definition stopForError (e : error) (m : MConnection) : MConnection :=
  if m_errored m then m
  else emit (StopRequested e) (set_status true (m_quit m) (m_running m) m).

Definition finish_stop (e : error) (m : MConnection) : MConnection := emit (Reported e) (Stop m).

(** [if m.IsRunning() { m.stopForError(err) }] *)
Definition fail_running (e : error) (m : MConnection) : MConnection :=
  if IsRunning m then stopForError e m else m.

(** ** Rate limits *)
Definition limit_pause (rate now : Z) (fr : FlowRate) : option Z :=
  let totalBytes := TotalBytes fr in
  if (rate <=? 0) || (totalBytes <=? 0) then None
  else
    let elapsed := ElapsedSinceStart now fr in
    let expectedTime :=
      f64_trunc (f64_mul (f64_div (f64_of_Z totalBytes) (f64_of_Z rate)) (f64_of_Z second)) in
    if elapsed <? expectedTime then
      let sleepDuration := i64 (expectedTime - elapsed) in
      if (0 <? sleepDuration) && (sleepDuration <? second) then Some sleepDuration else None
    else None.

Definition enforceSendLimit (now : Z) (m : MConnection) : MConnection :=
  match limit_pause (SendRate (m_config m)) now (m_sendMonitor m) with
  | Some d => emit (Slept d) m
  | None => m
  end.

Definition enforceRecvLimit (now : Z) (m : MConnection) : MConnection :=
  match limit_pause (RecvRate (m_config m)) now (m_recvMonitor m) with
  | Some d => emit (Slept d) m
  | None => m
  end.

(** ** The send routine *)
Definition MaxFloat64 : float64 := S754_finite false 9007199254740991 971.

(** The pending channel with the least ratio; taking messages off the queues on the way. *)
Fixpoint pick (i : nat) (chs : list Channel) (leastRatio : float64) (least : option nat)
  : list Channel * option nat :=
  match chs with
  | [] => ([], least)
  | ch :: rest =>
      let '(ch', pending) := isSendPending ch in
      let '(leastRatio', least') :=
        if pending && f64_ltb (getSendPriorityRatio ch') leastRatio
        then (getSendPriorityRatio ch', Some i) else (leastRatio, least) in
      let '(rest', r) := pick (S i) rest leastRatio' least' in
      (ch' :: rest', r)
  end.

(** What the environment does during one write: the connection's fault and the clock. *)
Record Env := mkEnv { e_fault : option nat; e_times : Times }.

(** [true]: nothing is left to send, or the write failed. *)
Definition sendMsgPacket (e : Env) (m : MConnection) : MConnection * bool :=
  let '(chs, leastChannel) := pick 0 (m_channels m) MaxFloat64 None in
  let m1 := set_channels chs m in
  match leastChannel ≫= fun i => ch ← chs !! i; Some (i, ch) with
  | None => (m1, true)
  | Some (i, ch) =>
      let '(ch1, packet) := nextMsgPacket ch in
      let m2 := set_channel i ch1 m1 in
      match Write [packetTypeMsg] (m_writer m2) with
      | (w, Err err) => (fail_running ("write packet type: " +:+ err) (set_writer w m2), true)
      | (w, Ok _) =>
          match SerializeTo packet w with
          | (w1, (_, Err err)) => (fail_running ("write msg packet: " +:+ err) (set_writer w1 m2), true)
          | (w1, (n, Ok _)) =>
              let m3 := set_channel i (incrementRecentlySent (n + 1) ch1)
                          (set_sendMonitor (Update (e_times e) (n + 1) (m_sendMonitor m2))
                             (set_writer w1 m2)) in
              match Flush (e_fault e) w1 with
              | (w2, Err err) => (fail_running ("flush after send: " +:+ err) (set_writer w2 m3), true)
              | (w2, Ok _) => (set_writer w2 m3, false)
              end
          end
      end
  end.

Fixpoint send_batch (n : nat) (e : nat -> Env) (m : MConnection) : MConnection * bool :=
  match n with
  | O => (m, false)
  | S n' => match sendMsgPacket (e n) m with
            | (m', true) => (m', true)
            | (m', false) => send_batch n' e m'
            end
  end.

Definition sendSomeMsgPackets (now : Z) (e : nat -> Env) (m : MConnection) : MConnection * bool :=
  send_batch numBatchMsgPackets e (enforceSendLimit now m).

(** [sendPing] and [sendPong] differ in the byte and in the errors. *)
Definition send_type (what : string) (typ : Z) (e : Env) (m : MConnection) : MConnection :=
  if negb (IsRunning m) then m
  else match Write [typ] (m_writer m) with
       | (w, Err err) => fail_running ("write " +:+ what +:+ " packet: " +:+ err) (set_writer w m)
       | (w, Ok _) =>
           let m1 := set_sendMonitor (Update (e_times e) 1 (m_sendMonitor m)) (set_writer w m) in
           match Flush (e_fault e) w with
           | (w1, Err err) => fail_running ("flush after " +:+ what +:+ ": " +:+ err) (set_writer w1 m1)
           | (w1, Ok _) => set_writer w1 m1
           end
       end.

Definition sendPing : Env -> MConnection -> MConnection := send_type "ping" packetTypePing.
Definition sendPong : Env -> MConnection -> MConnection := send_type "pong" packetTypePong.

(** One turn of the send routine: the case the [select] takes, with what it meets. *)
Inductive turn : Type :=
| OnQuit
| OnStats
| OnPing (e : Env)
| OnPong (e : Env)
| OnSend (now : Z) (e : nat -> Env).

(** [None]: the case is not ready.  [true]: the routine goes on. *)
Definition send_turn (t : turn) (m : MConnection) : option (MConnection * bool) :=
  let next (m' : MConnection) := Some (m', IsRunning m') in
  match t with
  | OnQuit => if m_quit m then Some (m, false) else None
  | OnStats => next (set_channels (map decayRecentlySent (m_channels m)) m)
  | OnPing e => next (sendPing e m)
  | OnPong e => if m_pong m then next (sendPong e (set_signals (m_send m) false m)) else None
  | OnSend now e =>
      if m_send m then next (fst (sendSomeMsgPackets now e (set_signals false (m_pong m) m)))
      else None
  end.

(** ** The receive routine *)
Section receive.
Variable growslice : nat -> nat -> nat.

(** The readings of the clock during one round. *)
Record Round := mkRound {
  r_limit : Z; r_type : Times; r_packet : Times; r_now : Z }.

Definition readMsgPacket (input : list Z) : list Z * result (msgPacket * Z) :=
  match DeserializePacket input with
  | (rest, Err e) => (rest, Err ("deserialize packet: " +:+ e))
  | (rest, Ok packet) => (rest, Ok (packet, msgPacketHeaderSize + len (Data packet)))
  end.

(** A packet that was read; [false]: the routine returns. *)
Definition handle_packet (r : Round) (packet : msgPacket) (n : Z) (m : MConnection)
  : MConnection * bool :=
  let m1 := set_recvMonitor (Update (r_packet r) n (m_recvMonitor m)) m in
  match channel_of (ChannelID packet) m1 with
  | None => (fail_running "unknown channel ID" m1, false)
  | Some (i, ch) =>
      match recvMsgPacket growslice packet ch (m_arrays m1) with
      | ((ch', h), Err e) => (fail_running ("recv msg packet: " +:+ e) m1, false)
      | ((ch', h), Ok msgBytes) =>
          let m2 := set_recvTimes (m_lastRecvPongTime m1) (r_now r)
                      (set_arrays h (set_channel i ch' m1)) in
          (match msgBytes with
           | Some s => emit (Received (ChannelID packet) s (content h s)) m2
           | None => m2
           end, true)
      end
  end.

(** One round of the loop: the connection, what is left of the stream, whether to go on. *)
Definition recv_round (r : Round) (input : list Z) (m : MConnection)
  : MConnection * list Z * bool :=
  let m0 := enforceRecvLimit (r_limit r) m in
  match input with
  | [] => (fail_running "read packet type: read byte: EOF" m0, [], false)
  | pktType :: rest =>
      let m1 := set_recvMonitor (Update (r_type r) 1 (m_recvMonitor m0)) m0 in
      if pktType =? packetTypePing then
        let m2 := set_signals (m_send m1) true m1 in (m2, rest, IsRunning m2)
      else if pktType =? packetTypePong then
        let m2 := set_recvTimes (r_now r) (m_lastRecvMsgTime m1) m1 in (m2, rest, IsRunning m2)
      else if pktType =? packetTypeMsg then
        match readMsgPacket rest with
        | (rest', Err e) => (fail_running ("read msg packet: " +:+ e) m1, rest', false)
        | (rest', Ok (packet, n)) =>
            let '(m2, more) := handle_packet r packet n m1 in
            (m2, rest', more && IsRunning m2)
        end
      else (fail_running "unknown packet type" m1, rest, false)
  end.

Fixpoint recv_loop (fuel : nat) (rs : nat -> Round) (input : list Z) (m : MConnection)
  : res MConnection :=
  match fuel with
  | O => Halt Diverge
  | S fuel' =>
      match recv_round (rs fuel) input m with
      | (m', _, false) => Val m'
      | (m', rest, true) => recv_loop fuel' rs rest m'
      end
  end.

(** Every round that goes on takes a byte of the stream at least. *)
Definition recvRoutine (rs : nat -> Round) (input : list Z) (m : MConnection) : res MConnection :=
  recv_loop (S (length input)) rs input m.

End receive.

(** One tick of the monitor; [false]: the routine returns. *)
Definition pongMonitor_tick (now : Z) (m : MConnection) : MConnection * bool :=
  let nanos := m_lastRecvPongTime m in
  if nanos =? 0 then (m, true)
  else if PongTimeout (m_config m) <? since now nanos then (stopForError "pong timeout" m, false)
  else (m, true).

(** * The stream

    ** Frames

    What is written to the connection is a sequence of frames. *)
Inductive frame : Type := FPing | FPong | FMsg (p : msgPacket).

Definition encode (f : frame) : list Z :=
  match f with
  | FPing => [packetTypePing]
  | FPong => [packetTypePong]
  | FMsg p => packetTypeMsg :: packet_header p ++ Data p
  end.

Definition stream (fs : list frame) : list Z := concat (map encode fs).

(** What a receiver makes of the packets of one channel: the complete messages and the
    beginning of the next one. *)
Definition asm_step (id : Z) (x : list (list Z) * list Z) (f : frame) : list (list Z) * list Z :=
  match f with
  | FMsg p =>
      if bool_decide (ChannelID p = id)
      then if EOF p then (fst x ++ [snd x ++ Data p], []) else (fst x, snd x ++ Data p)
      else x
  | _ => x
  end.

Definition asm (id : Z) (fs : list frame) : list (list Z) * list Z := foldl (asm_step id) ([], []) fs.

(** The frames fit into a connection with these channels. *)
Definition fits_next (descs : list ChannelDescriptor) (fs : list frame) (f : frame) : Prop :=
  match f with
  | FMsg p =>
      len (Data p) <= maxMsgPacketPayloadSize /\
      exists i d, descs !! i = Some d /\ d_ID d = ChannelID p /\
        len (snd (asm (ChannelID p) fs)) + len (Data p) <= d_RecvMessageCapacity d
  | _ => True
  end.

Inductive fits (descs : list ChannelDescriptor) : list frame -> Prop :=
| fits_nil : fits descs []
| fits_snoc fs f : fits descs fs -> fits_next descs fs f -> fits descs (fs ++ [f]).

Lemma asm_snoc id fs f : asm id (fs ++ [f]) = asm_step id (asm id fs) f.
Proof. unfold asm. by rewrite foldl_app. Qed.

Lemma asm_step_prefix id x f : fst x `prefix_of` fst (asm_step id x f).
Proof. destruct f as [| |p]; cbn; [done|done|]. repeat case_match; cbn; try done. by apply prefix_app_r. Qed.

Lemma asm_prefix id fs1 fs2 : fst (asm id fs1) `prefix_of` fst (asm id (fs1 ++ fs2)).
Proof.
  induction fs2 as [|f fs2 IH] using rev_ind; [by rewrite app_nil_r|].
  rewrite app_assoc, asm_snoc. etrans; [exact IH|apply asm_step_prefix].
Qed.

Lemma stream_app fs1 fs2 : stream (fs1 ++ fs2) = stream fs1 ++ stream fs2.
Proof. unfold stream. by rewrite map_app, concat_app. Qed.

Lemma stream_snoc fs f : stream (fs ++ [f]) = stream fs ++ encode f.
Proof. rewrite stream_app. unfold stream. cbn. by rewrite app_nil_r. Qed.

Lemma fits_app descs fs1 fs2 : fits descs (fs1 ++ fs2) -> fits descs fs1.
Proof.
  induction fs2 as [|f fs2 IH] using rev_ind; [by rewrite app_nil_r|].
  rewrite app_assoc. intros Hf. apply IH. inversion Hf as [E|fs' f' H1 H2 E].
  - symmetry in E. apply app_eq_nil in E as [_ E]. done.
  - apply app_inj_tail in E as [-> ->]. done.
Qed.

Lemma fits_last descs fs f : fits descs (fs ++ [f]) -> fits_next descs fs f.
Proof.
  intros Hf. inversion Hf as [E|fs' f' H1 H2 E].
  - symmetry in E. apply app_eq_nil in E as [_ E]. done.
  - apply app_inj_tail in E as [-> ->]. done.
Qed.

Lemma encode_nonempty f : encode f <> [].
Proof. by destruct f. Qed.

(** A prefix of a stream is a number of whole frames and a part of the next one. *)
Lemma stream_prefix (fs : list frame) : forall input, input `prefix_of` stream fs ->
  exists fs1 fs2 tail, fs = fs1 ++ fs2 /\ input = stream fs1 ++ tail /\
    (tail = [] \/ exists f fs3 suf, fs2 = f :: fs3 /\ encode f = tail ++ suf /\ suf <> []).
Proof.
  induction fs as [|f fs IH]; intros input Hp.
  - apply prefix_nil_inv in Hp. subst. exists [], [], []. auto.
  - change (stream (f :: fs)) with (encode f ++ stream fs) in Hp. destruct Hp as [k Hk].
    destruct (decide (length (encode f) <= length input)%nat) as [Hl|Hl].
    + assert (Hi : input = encode f ++ drop (length (encode f)) input).
      { rewrite <- (take_drop (length (encode f)) input) at 1. f_equal.
        apply (f_equal (take (length (encode f)))) in Hk.
        rewrite take_app_length, take_app_le in Hk by done. done. }
      destruct (IH (drop (length (encode f)) input)) as (fs1 & fs2 & tail & -> & Hd & Ht).
      { exists k. rewrite Hi in Hk. rewrite <- app_assoc in Hk. by apply app_inv_head in Hk. }
      exists (f :: fs1), fs2, tail. split; [done|]. split; [|done].
      rewrite Hi, Hd. change (stream (f :: fs1)) with (encode f ++ stream fs1). by rewrite app_assoc.
    + exists [], (f :: fs), input. split; [done|]. split; [done|]. right.
      exists f, fs, (drop (length input) (encode f)). split; [done|]. split.
      * rewrite <- (take_drop (length input) (encode f)) at 1. f_equal.
        apply (f_equal (take (length input))) in Hk.
        rewrite take_app_length, take_app_le in Hk by lia. done.
      * intros E. apply (f_equal length) in E. rewrite length_drop in E. cbn in E. lia.
Qed.

(** ** Receiving *)

(** The messages the application was given on a channel. *)
Definition delivered (id : Z) (m : MConnection) : list (list Z) :=
  omap (fun e => match e with
                 | Received c _ bytes => if bool_decide (c = id) then Some bytes else None
                 | _ => None
                 end) (m_trace m).

(** The channels are those of the descriptors... *)
Record shape (descs : list ChannelDescriptor) (m : MConnection) : Prop := {
  wf_descs : map c_desc (m_channels m) = descs;
  wf_idx : forall id i, m_channelsIdx m !! id = Some i <-> exists d, descs !! i = Some d /\ d_ID d = id }.

(** ... and their receive buffers are separate. *)
Record wf (descs : list ChannelDescriptor) (m : MConnection) : Prop := {
  wf_shape : shape descs m;
  wf_bufs : forall i ch, m_channels m !! i = Some ch -> buf_ok (m_arrays m) (c_recving ch);
  wf_sep : forall i j ci cj, m_channels m !! i = Some ci -> m_channels m !! j = Some cj -> i <> j ->
    b_arr (c_recving ci) <> b_arr (c_recving cj) }.

(** A connection that has received exactly these frames. *)
Record received (descs : list ChannelDescriptor) (fs : list frame) (m : MConnection) : Prop := {
  rd_wf : wf descs m;
  rd_running : m_running m = true;
  rd_delivered : forall id, delivered id m = fst (asm id fs);
  rd_part : forall i ch, m_channels m !! i = Some ch ->
    content (m_arrays m) (c_recving ch) = snd (asm (d_ID (c_desc ch)) fs) }.

Lemma received_ext descs fs (m m' : MConnection) :
  m_channels m' = m_channels m -> m_channelsIdx m' = m_channelsIdx m -> m_arrays m' = m_arrays m ->
  m_running m' = m_running m -> (forall id, delivered id m' = delivered id m) ->
  received descs fs m -> received descs fs m'.
Proof.
  intros H1 H2 H3 H4 H5 [[[W1 W2] W3 W4] R D C]. constructor; [constructor; [constructor|..]|..]; rewrite ?H1, ?H2, ?H3, ?H4; auto.
  intros id. by rewrite H5.
Qed.

Lemma channel_of_desc descs m i d :
  shape descs m -> descs !! i = Some d -> exists ch, channel_of (d_ID d) m = Some (i, ch) /\
    m_channels m !! i = Some ch /\ c_desc ch = d.
Proof.
  intros [W1 W2] Hd. assert (Hi : m_channelsIdx m !! d_ID d = Some i) by (apply W2; eauto).
  rewrite <- W1 in Hd. apply list_lookup_fmap_Some in Hd as (ch & -> & Hc).
  exists ch. unfold channel_of. rewrite Hi. cbn. rewrite Hc. done.
Qed.

Lemma channel_of_inv descs m id i ch :
  shape descs m -> channel_of id m = Some (i, ch) ->
  m_channels m !! i = Some ch /\ d_ID (c_desc ch) = id.
Proof.
  intros [W1 W2]. unfold channel_of. intros E.
  destruct (m_channelsIdx m !! id) as [j|] eqn:Ei; [|done]. cbn in E.
  destruct (m_channels m !! j) as [c|] eqn:Ec; [|done]. cbn in E. injection E as -> ->.
  split; [done|]. apply W2 in Ei as (d & Hd & Hid). rewrite <- W1 in Hd.
  apply list_lookup_fmap_Some in Hd as (c' & -> & Hc'). congruence.
Qed.

Lemma content_length h s : buf_ok h s -> length (content h s) = b_len s.
Proof. intros (arr & Ha & Hl). unfold content. rewrite Ha. cbn. rewrite length_take. lia. Qed.

Lemma delivered_snoc id m e :
  delivered id (emit e m) =
  delivered id m ++ match e with
                    | Received c _ bytes => if bool_decide (c = id) then [bytes] else []
                    | _ => []
                    end.
Proof.
  unfold delivered. cbn [emit m_trace]. rewrite omap_app. f_equal.
  destruct e; cbn; try done. by case_bool_decide.
Qed.

Lemma recv_limit_received descs fs now m :
  received descs fs m -> received descs fs (enforceRecvLimit now m).
Proof.
  intros H. unfold enforceRecvLimit. case_match; [|done].
  eapply received_ext; [..|exact H]; try done. intros id. by rewrite delivered_snoc, app_nil_r.
Qed.

Section receiving.
Context (growslice : nat -> nat -> nat) (descs : list ChannelDescriptor).
Context (Hids : NoDup (map d_ID descs)).

Lemma descs_unique i j d d' :
  descs !! i = Some d -> descs !! j = Some d' -> d_ID d = d_ID d' -> i = j.
Proof.
  intros Hi Hj E. eapply (NoDup_lookup (map d_ID descs)); [done|..];
    apply list_lookup_fmap_Some; eauto.
Qed.

Lemma wf_channel_desc m i ch : shape descs m -> m_channels m !! i = Some ch -> descs !! i = Some (c_desc ch).
Proof. intros [W _] Hc. rewrite <- W. apply list_lookup_fmap_Some. eauto. Qed.

(** Replacing one receive buffer by its extension. *)
Lemma wf_append m i ch data s h :
  wf descs m -> m_channels m !! i = Some ch ->
  append_bytes growslice (c_recving ch) data (m_arrays m) = (s, h) ->
  forall n m', (n <= b_len s)%nat ->
  m_channels m' = <[i := set_recving (mkBuf (b_arr s) n) ch]> (m_channels m) ->
  m_channelsIdx m' = m_channelsIdx m -> m_arrays m' = h ->
  wf descs m' /\
  (forall j cj, j <> i -> m_channels m !! j = Some cj ->
     content h (c_recving cj) = content (m_arrays m) (c_recving cj)).
Proof.
  intros W Hc E n m' Hn Hch Hidx Har.
  assert (Hb : buf_ok (m_arrays m) (c_recving ch)) by (by eapply wf_bufs).
  destruct (append_content _ _ _ _ _ _ Hb E) as (Hs & _ & _).
  pose proof (append_length _ _ _ _ _ _ E) as Hlen.
  assert (Hi : (i < length (m_channels m))%nat) by (by apply lookup_lt_Some in Hc).
  assert (Ho : forall j cj, j <> i -> m_channels m !! j = Some cj ->
            h !! b_arr (c_recving cj) = m_arrays m !! b_arr (c_recving cj) /\
            b_arr (c_recving cj) <> b_arr s).
  { intros j cj Hj Hcj. eapply append_other; [exact E|by eapply wf_sep|].
    destruct (wf_bufs _ _ W j cj Hcj) as (a & Ha & _). by apply lookup_lt_Some in Ha. }
  split.
  - constructor; [constructor|..].
    + rewrite Hch, list_fmap_insert. cbn. rewrite list_insert_id; [apply wf_descs, W|].
      apply list_lookup_fmap_Some. eauto.
    + rewrite Hidx. apply wf_idx, W.
    + intros j cj. rewrite Hch, Har. intros Hj. apply list_lookup_insert_Some in Hj as [(-> & <- & _)|[Hne Hj]].
      * destruct Hs as (a & Ha & Hl). exists a. cbn. split; [done|lia].
      * destruct (Ho j cj) as [Hh _]; [done..|]. destruct (wf_bufs _ _ W j cj Hj) as (a & Ha & Hl).
        exists a. by rewrite Hh.
    + intros j k cj ck. rewrite Hch. intros Hj Hk Hjk.
      apply list_lookup_insert_Some in Hj as [(-> & <- & _)|[Hne Hj]];
        apply list_lookup_insert_Some in Hk as [(-> & <- & _)|[Hne' Hk]]; cbn; [done|..].
      * intros E'. by destruct (Ho k ck) as [_ []].
      * by apply (Ho j cj).
      * by eapply wf_sep.
  - intros j cj Hj Hcj. unfold content. by destruct (Ho j cj Hj Hcj) as [-> _].
Qed.

Lemma handle_packet_received fs r p n m :
  received descs fs m -> fits_next descs fs (FMsg p) ->
  exists m', handle_packet growslice r p n m = (m', true) /\ received descs (fs ++ [FMsg p]) m'.
Proof.
  intros [W R D C] (Hp & i & d & Hd & Hid & Hcap).
  destruct (channel_of_desc descs m i d (wf_shape _ _ W) Hd) as (ch & Hof & Hch & Hdd).
  unfold handle_packet. rewrite <- Hid.
  change (channel_of (d_ID d) (set_recvMonitor _ m)) with (channel_of (d_ID d) m). rewrite Hof.
  unfold recvMsgPacket. cbn [m_arrays set_recvMonitor].
  assert (Hb : buf_ok (m_arrays m) (c_recving ch)) by (by eapply wf_bufs).
  pose proof (C i ch Hch) as Hpart. rewrite Hdd, Hid in Hpart. rewrite <- Hpart in Hcap.
  unfold len in Hcap. rewrite content_length in Hcap by done. rewrite Hdd.
  replace (_ <? _) with false by (symmetry; apply Z.ltb_ge; unfold len; lia).
  destruct (append_bytes growslice (c_recving ch) (Data p) (m_arrays m)) as [s h] eqn:Ea.
  destruct (append_content _ _ _ _ _ _ Hb Ea) as (Hs & Hcont & _). rewrite Hpart in Hcont.
  assert (Hgo : forall k m',
    (k <= b_len s)%nat ->
    m_channels m' = <[i := set_recving (mkBuf (b_arr s) k) ch]> (m_channels m) ->
    m_channelsIdx m' = m_channelsIdx m -> m_arrays m' = h -> m_running m' = true ->
    (forall id, delivered id m' = fst (asm id (fs ++ [FMsg p]))) ->
    content h (mkBuf (b_arr s) k) = snd (asm (d_ID d) (fs ++ [FMsg p])) ->
    received descs (fs ++ [FMsg p]) m').
  { intros k m' Hk H1 H2 H3 H4 H5 H6.
    destruct (wf_append m i ch (Data p) s h W Hch Ea k m') as [W' Ho]; try done.
    constructor; [done..|]. intros j cj. rewrite H1, H3. intros Hj.
    apply list_lookup_insert_Some in Hj as [(<- & <- & _)|[Hne Hj]].
    - cbn [c_recving c_desc set_recving]. by rewrite Hdd.
    - rewrite (Ho j cj) by done. rewrite (C j cj Hj), asm_snoc. cbn [asm_step].
      rewrite bool_decide_false; [done|]. intros E. apply Hne.
      eapply (descs_unique i j d); [done|exact (wf_channel_desc m j cj (wf_shape _ _ W) Hj)|congruence]. }
  destruct (EOF p) eqn:Ee; (eexists; split; [reflexivity|]).
  - apply (Hgo 0%nat); try done; [lia| |].
    + intros id. rewrite delivered_snoc, asm_snoc. cbn [asm_step].
      change (delivered id (set_recvTimes _ _ _)) with (delivered id m). rewrite D, Hid.
      case_bool_decide as Eid; [|by rewrite app_nil_r]. rewrite Ee. cbn [fst]. subst id.
      by rewrite Hcont.
    + rewrite asm_snoc. cbn [asm_step]. rewrite bool_decide_true, Ee by done.
      unfold content. by cbn.
  - apply (Hgo (b_len s)); try done.
    + by destruct s.
    + intros id. rewrite asm_snoc. cbn [asm_step].
      change (delivered id (set_recvTimes _ _ _)) with (delivered id m). rewrite D, Ee.
      by case_bool_decide.
    + rewrite asm_snoc. cbn [asm_step]. rewrite bool_decide_true, Ee by done.
      rewrite Hid. by destruct s.
Qed.

Lemma recv_frame fs f r rest m :
  received descs fs m -> fits_next descs fs f ->
  exists m', recv_round growslice r (encode f ++ rest) m = (m', rest, true) /\
    received descs (fs ++ [f]) m'.
Proof.
  intros H Hf. pose proof (recv_limit_received _ _ (r_limit r) _ H) as H0.
  set (m0 := enforceRecvLimit (r_limit r) m) in H0.
  set (m1 := set_recvMonitor (Update (r_type r) 1 (m_recvMonitor m0)) m0).
  assert (H1 : received descs fs m1) by (eapply received_ext; [..|exact H0]; done).
  assert (Hsame : forall m2 g, m_channels m2 = m_channels m1 -> m_channelsIdx m2 = m_channelsIdx m1 ->
    m_arrays m2 = m_arrays m1 -> m_running m2 = m_running m1 -> m_trace m2 = m_trace m1 ->
    (forall id x, asm_step id x g = x) -> received descs (fs ++ [g]) m2).
  { intros m2 g E1 E2 E3 E4 E5 Eg. destruct H1 as [W R D C].
    eapply received_ext; [done..| |constructor; [done..| |]].
    - intros id. unfold delivered. by rewrite E5.
    - intros id. by rewrite asm_snoc, Eg.
    - intros i ch Hc. by rewrite asm_snoc, Eg, (C i ch). }
  destruct f as [| |p]; unfold recv_round; fold m0; cbn [encode app].
  - eexists. split; [|by apply (Hsame (set_signals (m_send m1) true m1))]. cbn.
    f_equal. apply (rd_running _ _ _ H1).
  - eexists. split; [|by apply (Hsame (set_recvTimes (r_now r) (m_lastRecvMsgTime m1) m1))]. cbn.
    f_equal. apply (rd_running _ _ _ H1).
  - destruct (handle_packet_received fs r p (msgPacketHeaderSize + len (Data p)) m1 H1 Hf) as (m2 & E2 & H2).
    exists m2. split; [|done]. fold m1. cbn [Z.eqb packetTypeMsg packetTypePing packetTypePong Pos.eqb].
    unfold readMsgPacket. rewrite <- app_assoc, deserialize_packet by apply Hf.
    rewrite E2. cbn. f_equal. apply (rd_running _ _ _ H2).
Qed.

Lemma recv_stream rs fs : forall fs0 tail m fuel,
  received descs fs0 m -> fits descs (fs0 ++ fs) -> (length (stream fs ++ tail) < fuel)%nat ->
  exists m' fuel', recv_loop growslice fuel rs (stream fs ++ tail) m = recv_loop growslice fuel' rs tail m' /\
    received descs (fs0 ++ fs) m' /\ (length tail < fuel')%nat.
Proof.
  induction fs as [|f fs IH]; intros fs0 tail m fuel H Hf Hl.
  - exists m, fuel. rewrite app_nil_r. auto.
  - change (f :: fs) with ([f] ++ fs) in *. rewrite app_assoc in Hf |- *.
    change (stream ([f] ++ fs)) with (encode f ++ stream fs) in *. rewrite <- (app_assoc (encode f)) in *.
    destruct fuel as [|fuel]; [lia|]. cbn [recv_loop].
    destruct (recv_frame fs0 f (rs (S fuel)) (stream fs ++ tail) m H) as (m1 & E & H1);
      [by apply fits_last, (fits_app _ _ fs)|]. rewrite E.
    apply IH; [done..|]. rewrite length_app in Hl.
    assert (0 < length (encode f))%nat by (destruct f; cbn; lia). lia.
Qed.

Lemma fail_running_received fs e m : received descs fs m -> received descs fs (fail_running e m).
Proof.
  intros H. unfold fail_running, stopForError. repeat case_match; try done.
  eapply received_ext; [..|exact H]; try done. intros id. by rewrite delivered_snoc, app_nil_r.
Qed.

(** Nothing is delivered from a frame that is cut short. *)
Lemma recv_tail rs fs tail m fuel :
  received descs fs m -> (0 < fuel)%nat ->
  (tail = [] \/ exists f suf, encode f = tail ++ suf /\ suf <> [] /\ fits_next descs fs f) ->
  exists m', recv_loop growslice fuel rs tail m = Val m' /\ received descs fs m'.
Proof.
  intros H Hl Ht. destruct fuel as [|fuel]; [lia|]. cbn [recv_loop]. set (r := rs (S fuel)).
  pose proof (recv_limit_received _ _ (r_limit r) _ H) as H0. unfold recv_round.
  destruct Ht as [->|(f & suf & E & Hs & Hf)].
  { eexists. split; [done|by apply fail_running_received]. }
  destruct tail as [|b tail]; [eexists; split; [done|by apply fail_running_received]|].
  destruct f as [| |p].
  1,2: exfalso; apply (f_equal length) in E; rewrite length_app in E; destruct suf; [done|cbn in E; lia].
  injection E as <- E. destruct Hf as [Hp _].
  destruct (deserialize_short p tail suf Hp Hs E) as (rest & e & Ed).
  cbn [Z.eqb packetTypeMsg packetTypePing packetTypePong Pos.eqb]. unfold readMsgPacket. rewrite Ed.
  eexists. split; [done|]. apply fail_running_received. by eapply received_ext; [..|exact H0].
Qed.

(** Whatever part of the stream arrives, the routine ends, and has received whole frames. *)
Lemma recvRoutine_prefix rs fs input m :
  received descs [] m -> fits descs fs -> input `prefix_of` stream fs ->
  exists fs1 fs2 m', fs = fs1 ++ fs2 /\ recvRoutine growslice rs input m = Val m' /\
    received descs fs1 m' /\ (input = stream fs -> fs2 = []).
Proof.
  intros H Hf Hp. destruct (stream_prefix fs input Hp) as (fs1 & fs2 & tail & -> & -> & Ht).
  exists fs1, fs2. unfold recvRoutine.
  destruct (recv_stream rs fs1 [] tail m (S (length (stream fs1 ++ tail)))) as (m1 & fuel & E & H1 & Hl);
    [done|by eapply fits_app|lia|]. rewrite E.
  destruct (recv_tail rs fs1 tail m1 fuel) as (m2 & E2 & H2); [done|lia| |].
  { destruct Ht as [->|(f & fs3 & suf & -> & Ef & Hs)]; [by left|right]. exists f, suf.
    split_and!; [done..|]. apply fits_last. change (f :: fs3) with ([f] ++ fs3) in Hf.
    rewrite app_assoc in Hf. by eapply fits_app. }
  exists m2. split_and!; [done..|]. rewrite stream_app. intros Es. apply app_inv_head in Es.
  destruct Ht as [->|(f & fs3 & suf & -> & Ef & Hs)].
  - destruct fs2 as [|f fs2]; [done|]. change (stream (f :: fs2)) with (encode f ++ stream fs2) in Es.
    symmetry in Es. apply app_eq_nil in Es as [Es _]. by destruct f.
  - change (stream (f :: fs3)) with (encode f ++ stream fs3) in Es. rewrite Ef, <- app_assoc in Es.
    rewrite <- (app_nil_r tail) in Es at 1. apply app_inv_head in Es. symmetry in Es.
    by apply app_eq_nil in Es as [-> _].
Qed.

End receiving.

(** ** New connections *)
Lemma new_channels_spec (ds : list ChannelDescriptor) : forall chs idx h x,
  new_channels ds chs idx h = Ok x ->
  exists news arrs, x = (chs ++ news, fst (foldl (fun '(m, k) d => (<[d_ID d := k]> m, S k)) (idx, length chs) ds), h ++ arrs) /\
    length arrs = length news /\ map c_desc news = ds /\
    (forall i ch, news !! i = Some ch ->
       c_recving ch = mkBuf (length h + i) 0 /\ c_sending ch = [] /\ c_sendQueue ch = [] /\
       c_priority ch = d_Priority (c_desc ch) /\ c_recentlySent ch = 0).
Proof.
  induction ds as [|d ds IH]; intros chs idx h x E; cbn [new_channels] in E.
  - injection E as <-. exists [], []. rewrite !app_nil_r. split_and!; try done. 
  - unfold NewChannel in E. destruct (desc_Validate d) as [[]|e]; [|done].
    apply IH in E as (news & arrs & -> & Hl & Hd & Hn). rewrite length_app in *. cbn [length] in *.
    eexists (_ :: news), (_ :: arrs). split.
    { rewrite <- !app_assoc. cbn [app foldl]. by rewrite Nat.add_1_r. }
    split; [cbn; lia|]. split; [cbn; by rewrite Hd|].
    intros [|i] ch Hi; cbn in Hi.
    + injection Hi as <-. cbn. by rewrite Nat.add_0_r.
    + destruct (Hn i ch Hi) as (-> & Hr). split; [f_equal; lia|done].
Qed.

Lemma index_spec (ds : list ChannelDescriptor) : forall (m : gmap Z nat) k,
  NoDup (map d_ID ds) -> (forall d, d ∈ ds -> m !! d_ID d = None) ->
  forall id i,
  fst (foldl (fun '(m, k) d => (<[d_ID d := k]> m, S k)) (m, k) ds) !! id = Some i <->
  m !! id = Some i \/ exists j d, ds !! j = Some d /\ d_ID d = id /\ i = (k + j)%nat.
Proof.
  induction ds as [|d ds IH]; intros m k Hn Hm id i; cbn [foldl].
  - split; [by left|]. intros [|(j & d & Hd & _)]; done.
  - cbn [map] in Hn. apply list.NoDup_cons in Hn as [Hd Hn]. rewrite IH; [|done|].
    + split.
      * intros [Hi|(j & d' & Hj & Hid & ->)].
        -- apply lookup_insert_Some in Hi as [[<- <-]|[_ Hi]]; [|by left]. right. exists 0%nat, d.
           split_and!; [done..|lia].
        -- right. exists (S j), d'. split_and!; [done..|lia].
      * intros [Hi|([|j] & d' & Hj & Hid & ->)].
        -- left. rewrite lookup_insert_ne; [done|]. intros E. rewrite <- E, (Hm d) in Hi by left. done.
        -- injection Hj as ->. left. rewrite Hid, lookup_insert_eq. f_equal. lia.
        -- right. exists j, d'. split_and!; [done..|lia].
    + intros d' Hin. rewrite lookup_insert_ne; [by apply Hm; right|]. intros E. apply Hd.
      rewrite E. apply list_elem_of_fmap. eauto.
Qed.

(** A new connection is well-formed and idle. *)
Definition idle (ch : Channel) : Prop := c_sending ch = [] /\ c_sendQueue ch = [].

Lemma NewMConnection_spec hc hr ds cfg t1 t2 m :
  NewMConnection hc hr ds cfg t1 t2 = Ok m ->
  NoDup (map d_ID ds) /\ Forall (fun d => desc_Validate d = Ok tt) ds /\ wf ds m /\
  Forall idle (m_channels m) /\
  (forall i ch, m_channels m !! i = Some ch -> b_len (c_recving ch) = 0%nat /\
     c_priority ch = d_Priority (c_desc ch) /\ c_recentlySent ch = 0) /\
  m_writer m = mkWriter [] [] false /\ m_trace m = [] /\ m_send m = false /\ m_running m = false.
Proof.
  unfold NewMConnection. intros E. inv_result.
  match goal with H : ValidateDescriptors ds = Ok _ |- _ => rename H into Hv end.
  destruct (ValidateDescriptors ds) as [[]|] eqn:Ev; [|done].
  apply ValidateDescriptors_ok in Ev as [Hn Hd].
  match goal with H : new_channels _ _ _ _ = Ok _ |- _ =>
    apply new_channels_spec in H as (news & arrs & -> & Hl & Hds & Hc) end.
  cbn [app length] in *. injection E as <-. cbn. split_and!; try done.
  - constructor; [constructor|..]; cbn; [done|..].
    + intros id i. rewrite index_spec by done. rewrite lookup_empty. split.
      * intros [|(j & d & Hj & Hi & ->)]; [done|]. eauto.
      * intros (d & Hi & <-). right. eauto.
    + intros i ch Hi. destruct (Hc i ch Hi) as (-> & _).
      assert (Hlt : (i < length arrs)%nat) by (rewrite Hl; by apply lookup_lt_Some in Hi).
      destruct (lookup_lt_is_Some_2 arrs i Hlt) as [a Ha]. exists a. cbn. split; [done|lia].
    + intros i j ci cj Hi Hj Hne. destruct (Hc i ci Hi) as (-> & _), (Hc j cj Hj) as (-> & _). done.
  - apply list.Forall_lookup. intros i ch Hi. destruct (Hc i ch Hi) as (_ & ? & ? & _). done.
  - intros i ch Hi. destruct (Hc i ch Hi) as (-> & _ & _ & ? & ?). done.
Qed.

Lemma new_received hc hr ds cfg t1 t2 m :
  NewMConnection hc hr ds cfg t1 t2 = Ok m -> received ds [] (fst (Start m)).
Proof.
  intros E. apply NewMConnection_spec in E as (_ & _ & [[W1 W2] W3 W4] & _ & Hc & _ & Ht & _ & Hr).
  unfold Start. rewrite Hr. cbn. constructor; [by constructor; [constructor|..]|done|..].
  - intros id. unfold delivered. cbn. by rewrite Ht.
  - cbn. intros i ch Hi. destruct (Hc i ch Hi) as [Hl _]. unfold content. by rewrite Hl.
Qed.

(** ** Sending *)

(** The accepted messages of one channel. *)
Definition on_channel (id : Z) (sent : list (Z * list Z)) : list (list Z) :=
  omap (fun x => if bool_decide (fst x = id) then Some (snd x) else None) sent.

(** What a channel still has to send, after the part of a message that is on its way. *)
Definition outgoing (part : list Z) (ch : Channel) : list (list Z) :=
  match c_sending ch with [] => [] | s => [part ++ s] end ++ c_sendQueue ch.

(** The messages that fit into the receiver's buffers. *)
Definition sendable (descs : list ChannelDescriptor) (x : Z * list Z) : Prop :=
  snd x <> [] /\ exists i d, descs !! i = Some d /\ d_ID d = fst x /\
    len (snd x) <= d_RecvMessageCapacity d.

(** The connection took a part of the frames, all of them unless a write failed. *)
Definition wrote (fs : list frame) (w : Writer) : Prop :=
  w_conn w `prefix_of` stream fs /\ (w_err w = false -> w_conn w = stream fs /\ w_buf w = []).

Record sending (descs : list ChannelDescriptor) (fs : list frame) (sent : list (Z * list Z))
    (m : MConnection) : Prop := {
  sd_shape : shape descs m;
  sd_fits : fits descs fs;
  sd_wrote : wrote fs (m_writer m);
  sd_sent : forall i ch, m_channels m !! i = Some ch ->
    on_channel (d_ID (c_desc ch)) sent =
      fst (asm (d_ID (c_desc ch)) fs) ++ outgoing (snd (asm (d_ID (c_desc ch)) fs)) ch;
  sd_start : forall i ch, m_channels m !! i = Some ch ->
    c_sending ch = [] -> snd (asm (d_ID (c_desc ch)) fs) = [] }.

Definition view (ch : Channel) : list (list Z) * list Z * ChannelDescriptor :=
  (c_sendQueue ch, c_sending ch, c_desc ch).

Lemma view_lookup chs chs' i ch' :
  map view chs' = map view chs -> chs' !! i = Some ch' ->
  exists ch, chs !! i = Some ch /\ view ch' = view ch.
Proof.
  intros E Hi. assert (Hv : map view chs' !! i = Some (view ch')) by (apply list_lookup_fmap_Some; eauto).
  rewrite E in Hv. apply list_lookup_fmap_Some in Hv as (ch & -> & Hc). eauto.
Qed.

Lemma outgoing_view part ch ch' : view ch' = view ch -> outgoing part ch' = outgoing part ch.
Proof. unfold view, outgoing. intros E. by injection E as -> -> _. Qed.

(** Only the writer and the send sides of the channels matter. *)
Lemma shape_ext descs m m' :
  map c_desc (m_channels m') = map c_desc (m_channels m) -> m_channelsIdx m' = m_channelsIdx m ->
  shape descs m -> shape descs m'.
Proof. intros H1 H2 [W1 W2]. constructor; [by rewrite H1|by rewrite H2]. Qed.

Lemma views_descs chs chs' : map view chs' = map view chs -> map c_desc chs' = map c_desc chs.
Proof.
  intros E. assert (Hv : forall l, map c_desc l = map snd (map view l)).
  { intros l. by rewrite map_map. }
  by rewrite !Hv, E.
Qed.

Lemma sending_ext descs fs sent m m' :
  map view (m_channels m') = map view (m_channels m) -> m_channelsIdx m' = m_channelsIdx m ->
  wrote fs (m_writer m') -> sending descs fs sent m -> sending descs fs sent m'.
Proof.
  intros Hv Hi Hw [S F W A B]. constructor; [|done|done|..].
  - eapply shape_ext; [by apply views_descs|done..].
  - intros i ch' Hc. destruct (view_lookup _ _ _ _ Hv Hc) as (ch & Hch & E).
    rewrite (outgoing_view _ _ _ E). injection E as _ _ ->. eauto.
  - intros i ch' Hc. destruct (view_lookup _ _ _ _ Hv Hc) as (ch & Hch & E).
    injection E as _ -> ->. eauto.
Qed.

Lemma wrote_frame fs w w1 f fault :
  wrote fs w -> w_err w = false -> w1 = mkWriter (w_conn w) (w_buf w ++ encode f) false ->
  wrote (fs ++ [f]) (fst (Flush fault w1)).
Proof.
  intros [_ Hw] He ->. destruct (Hw He) as [Hc Hb]. unfold Flush. cbn. rewrite Hb, Hc. cbn [app].
  destruct (encode f) as [|x l] eqn:Ef; [by destruct f|]. unfold wrote. rewrite stream_snoc, Ef.
  destruct fault as [n|]; cbn; [|done]. split; [|done].
  apply prefix_app. apply prefix_take.
Qed.

Lemma wrote_more fs w f : wrote fs w -> w_err w = true -> wrote (fs ++ [f]) w.
Proof.
  intros [Hp _] He. split; [|congruence]. rewrite stream_snoc. by apply prefix_app_r.
Qed.

Lemma on_channel_app id s1 s2 : on_channel id (s1 ++ s2) = on_channel id s1 ++ on_channel id s2.
Proof. apply omap_app. Qed.

Lemma on_channel_elem id sent msg : msg ∈ on_channel id sent -> (id, msg) ∈ sent.
Proof.
  unfold on_channel. intros H. apply list_elem_of_omap in H as ([i x] & Hx & E). cbn in E.
  case_bool_decide; [|done]. injection E as <-. by subst.
Qed.

Section sender.
Context (descs : list ChannelDescriptor) (Hids : NoDup (map d_ID descs)).

(** A message that is queued or being sent was accepted. *)
Lemma outgoing_sendable fs sent m i ch msg :
  sending descs fs sent m -> Forall (sendable descs) sent -> m_channels m !! i = Some ch ->
  msg ∈ outgoing (snd (asm (d_ID (c_desc ch)) fs)) ch ->
  msg <> [] /\ len msg <= d_RecvMessageCapacity (c_desc ch).
Proof.
  intros S Hs Hc Hin.
  assert (Hmem : (d_ID (c_desc ch), msg) ∈ sent).
  { apply on_channel_elem. rewrite (sd_sent _ _ _ _ S i ch Hc). apply elem_of_app. by right. }
  rewrite list.Forall_forall in Hs. destruct (Hs _ Hmem) as (Hn & j & d & Hj & Hid & Hl). cbn in *.
  assert (Hd : descs !! i = Some (c_desc ch)) by (eapply wf_channel_desc; [apply S|done]).
  assert (j = i) as -> by (eapply (descs_unique descs); eauto). by simplify_eq.
Qed.

(** One packet more. *)
Lemma sending_packet fs sent m m' i ch ch1 ch2 p :
  sending descs fs sent m -> Forall (sendable descs) sent -> m_channels m !! i = Some ch ->
  c_sending ch <> [] -> nextMsgPacket ch = (ch1, p) -> view ch2 = view ch1 ->
  m_channels m' = <[i := ch2]> (m_channels m) -> m_channelsIdx m' = m_channelsIdx m ->
  wrote (fs ++ [FMsg p]) (m_writer m') ->
  sending descs (fs ++ [FMsg p]) sent m'.
Proof.
  intros S Hs Hc Hn Hp Hv Hm Hi Hw. destruct (nextMsgPacket_spec _ _ _ Hp) as (Hsd & Hid & Hl & He & _ & Hq & Hd).
  assert (Hdesc : descs !! i = Some (c_desc ch)) by (eapply wf_channel_desc; [apply S|done]).
  assert (Hmsg : len (snd (asm (d_ID (c_desc ch)) fs) ++ c_sending ch) <= d_RecvMessageCapacity (c_desc ch)).
  { eapply outgoing_sendable; [done..|]. unfold outgoing. destruct (c_sending ch); [done|]. left. }
  assert (Hv2 : c_sendQueue ch2 = c_sendQueue ch /\ c_sending ch2 = c_sending ch1 /\ c_desc ch2 = c_desc ch).
  { injection Hv as -> -> ->. done. }
  destruct Hv2 as (Hq2 & Hs2 & Hd2).
  assert (Hoth : forall j cj, i <> j -> m_channels m !! j = Some cj -> ChannelID p <> d_ID (c_desc cj)).
  { intros j cj Hne Hj E. apply Hne. eapply (descs_unique descs); [done..| |rewrite Hid in E; exact E].
    eapply wf_channel_desc; [apply S|done]. }
  constructor; [|constructor; [apply S|]|done|..].
  - eapply shape_ext; [|done|apply S]. rewrite Hm, list_fmap_insert, Hd2. apply list_insert_id.
    apply list_lookup_fmap_Some. eauto.
  - split; [done|]. exists i, (c_desc ch). split_and!; [done..|]. rewrite Hid.
    unfold len in *. rewrite Hsd, !length_app in Hmsg. lia.
  - intros j cj. rewrite Hm. intros Hj. apply list_lookup_insert_Some in Hj as [(<- & <- & _)|[Hne Hj]].
    + rewrite Hd2, (sd_sent _ _ _ _ S i ch Hc), asm_snoc. cbn [asm_step]. rewrite bool_decide_true, He by done.
      unfold outgoing. rewrite Hq2, Hs2, Hsd.
      destruct (c_sending ch1) as [|x l] eqn:E1; cbn [fst snd].
      * rewrite bool_decide_true, app_nil_r by done. cbn [fst snd]. rewrite <- app_assoc.
        rewrite Hsd, app_nil_r in Hn. by destruct (Data p).
      * rewrite bool_decide_false by done. cbn [fst snd]. rewrite <- app_assoc.
        by destruct (Data p); cbn.
    + rewrite (sd_sent _ _ _ _ S j cj Hj), asm_snoc. cbn [asm_step].
      by rewrite bool_decide_false by (by eapply Hoth).
  - intros j cj. rewrite Hm. intros Hj. apply list_lookup_insert_Some in Hj as [(<- & <- & _)|[Hne Hj]].
    + rewrite Hd2, asm_snoc, Hs2. cbn [asm_step]. rewrite bool_decide_true, He by done.
      intros ->. by rewrite bool_decide_true.
    + intros Hsj. rewrite asm_snoc. cbn [asm_step]. rewrite bool_decide_false by (by eapply Hoth).
      by eapply sd_start.
Qed.

Definition pend (ch : Channel) : Channel := fst (isSendPending ch).

Lemma pick_spec chs : forall i least li,
  fst (pick i chs least li) = map pend chs /\
  (forall k, snd (pick i chs least li) = Some k ->
     li = Some k \/ exists j ch, k = (i + j)%nat /\ chs !! j = Some ch /\ snd (isSendPending ch) = true).
Proof.
  induction chs as [|ch chs IH]; intros i least li; cbn [pick]; [by split; [|left]|].
  unfold pend at 1. cbn [map]. destruct (isSendPending ch) as [ch' b] eqn:Ep.
  set (c := (b && f64_ltb (getSendPriorityRatio ch') least)%bool).
  set (x := if c then _ else _). destruct x as [lr' li'] eqn:Ex. subst x.
  destruct (IH (S i) lr' li') as [H1 H2]. destruct (pick (S i) chs lr' li') as [rest r]. cbn in H1, H2 |- *.
  split; [by rewrite H1|]. intros k ->. destruct (H2 k eq_refl) as [->|(j & c' & -> & Hj & Hb)].
  - subst c. destruct b; cbn in Ex; [|injection Ex as _ ->; by left].
    case_match; simplify_eq; [|by left]. right. exists 0%nat, ch. rewrite Ep. split_and!; [lia|done..].
  - right. exists (S j), c'. split_and!; [lia|done..].
Qed.

Lemma isSendPending_view ch : c_desc (pend ch) = c_desc ch.
Proof. unfold pend, isSendPending. by repeat case_match. Qed.

(** Taking the next messages off the queues changes nothing for the accounts. *)
Lemma sending_pend fs sent m :
  sending descs fs sent m -> Forall (sendable descs) sent ->
  sending descs fs sent (set_channels (map pend (m_channels m)) m).
Proof.
  intros S Hs. constructor; try apply S.
  - apply (shape_ext descs m); [|done|apply S]. cbn. rewrite map_map. apply map_ext. apply isSendPending_view.
  - cbn. intros i ch' Hc. apply list_lookup_fmap_Some in Hc as (ch & -> & Hc).
    rewrite isSendPending_view, (sd_sent _ _ _ _ S i ch Hc). f_equal.
    pose proof (sd_start _ _ _ _ S i ch Hc) as Hst.
    unfold pend, isSendPending, outgoing. destruct (c_sending ch) as [|x l] eqn:E1; cbn; [|by rewrite E1].
    destruct (c_sendQueue ch) as [|msg q] eqn:E2; cbn; [by rewrite E1, E2|].
    destruct (outgoing_sendable fs sent m i ch msg) as [Hm _]; [done..| |].
    { unfold outgoing. rewrite E1, E2. left. }
    rewrite Hst by done. by destruct msg.
  - cbn. intros i ch' Hc. apply list_lookup_fmap_Some in Hc as (ch & -> & Hc).
    rewrite isSendPending_view. intros E. apply (sd_start _ _ _ _ S i ch Hc).
    unfold pend, isSendPending in E. destruct (c_sending ch) eqn:E1; [done|]. cbn in E. congruence.
Qed.

Lemma pend_pending fs sent m i ch :
  sending descs fs sent m -> Forall (sendable descs) sent -> m_channels m !! i = Some ch ->
  snd (isSendPending ch) = true -> c_sending (pend ch) <> [].
Proof.
  intros S Hs Hc Hp. unfold pend, isSendPending in *.
  destruct (c_sending ch) as [|x l] eqn:E1; cbn in *; [|by rewrite E1].
  destruct (c_sendQueue ch) as [|msg q] eqn:E2; cbn in *; [done|].
  eapply (outgoing_sendable fs sent m i ch msg); [done..|]. unfold outgoing. rewrite E1, E2. left.
Qed.

(** ** What the writes of one packet come to *)
Lemma serialize_written p w :
  len (Data p) <= maxMsgPacketPayloadSize -> w_err w = false ->
  exists n, SerializeTo p w =
    (mkWriter (w_conn w) (w_buf w ++ packet_header p ++ Data p) false, (n, Ok tt)).
Proof.
  intros Hl He. unfold SerializeTo. replace (_ <? _) with false by lia. unfold Write. rewrite He. cbn [w_err].
  destruct (0 <? len (Data p)) eqn:E0.
  - eexists. cbn. by rewrite <- app_assoc.
  - apply Z.ltb_ge in E0. unfold len in E0. destruct (Data p); [|cbn in E0; lia]. eexists. by rewrite app_nil_r.
Qed.

Lemma fail_running_channels e m : m_channels (fail_running e m) = m_channels m /\
  m_channelsIdx (fail_running e m) = m_channelsIdx m /\ m_writer (fail_running e m) = m_writer m /\
  m_send (fail_running e m) = m_send m.
Proof. unfold fail_running, stopForError. by repeat case_match. Qed.

(** The outcome of [sendMsgPacket]: nothing to send, or one packet taken off a channel. *)
Inductive packet_sent (e : Env) (m : MConnection) : MConnection -> bool -> Prop :=
| sent_none :
    snd (pick 0 (m_channels m) MaxFloat64 None) = None ->
    packet_sent e m (set_channels (map pend (m_channels m)) m) true
| sent_packet i ch ch1 ch2 p m' b :
    m_channels m !! i = Some ch -> snd (isSendPending ch) = true -> nextMsgPacket (pend ch) = (ch1, p) ->
    view ch2 = view ch1 ->
    c_priority ch2 = c_priority ch -> - 9223372036854775808 <= c_recentlySent ch2 < 9223372036854775808 \/ c_recentlySent ch2 = c_recentlySent ch ->
    m_channels m' = <[i := ch2]> (map pend (m_channels m)) -> m_channelsIdx m' = m_channelsIdx m ->
    m_send m' = m_send m ->
    (forall fs, wrote fs (m_writer m) -> wrote (fs ++ [FMsg p]) (m_writer m')) ->
    (w_err (m_writer m) = false -> e_fault e = None -> b = false /\ w_err (m_writer m') = false) ->
    packet_sent e m m' b.

Lemma sendMsgPacket_spec e m : packet_sent e m (fst (sendMsgPacket e m)) (snd (sendMsgPacket e m)).
Proof.
  unfold sendMsgPacket. destruct (pick_spec (m_channels m) 0 MaxFloat64 None) as [H1 H2].
  destruct (pick 0 (m_channels m) MaxFloat64 None) as [chs r] eqn:Epk. cbn in H1, H2. subst chs.
  destruct r as [i|]; cbn; [|apply sent_none; by rewrite Epk].
  destruct (H2 i eq_refl) as [?|(j & ch & -> & Hc & Hb)]; [done|]. cbn [plus] in *.
  assert (Hl : map pend (m_channels m) !! j = Some (pend ch)) by (apply list_lookup_fmap_Some; eauto).
  rewrite Hl. cbn. destruct (nextMsgPacket (pend ch)) as [ch1 p] eqn:En.
  destruct (nextMsgPacket_spec _ _ _ En) as (_ & _ & Hlen & _).
  assert (Hp1 : c_priority ch1 = c_priority ch /\ c_recentlySent ch1 = c_recentlySent ch).
  { unfold nextMsgPacket in En. assert (Hpd : c_priority (pend ch) = c_priority ch /\ c_recentlySent (pend ch) = c_recentlySent ch)
      by (unfold pend, isSendPending; by repeat case_match).
    case_match; injection En as <- <-; done. }
  destruct (w_err (m_writer m)) eqn:Ew.
  - unfold Write. rewrite Ew. cbn [fst snd].
    match goal with |- packet_sent _ _ (fail_running ?err ?x) _ =>
      destruct (fail_running_channels err x) as (F1 & F2 & F3 & F4) end.
    apply (sent_packet e m j ch ch1 ch1 p); rewrite ?F1, ?F2, ?F3, ?F4; try done; try tauto.
    + intros fs Hw. by apply wrote_more.
    + congruence.
  - unfold Write. rewrite Ew. cbn [fst snd].
    destruct (serialize_written p (mkWriter (w_conn (m_writer m)) (w_buf (m_writer m) ++ [packetTypeMsg]) false))
      as [n Es]; [done..|]. rewrite Es. cbn [w_conn w_buf].
    set (w1 := mkWriter _ _ false). set (ch2 := incrementRecentlySent (n + 1) ch1).
    set (m3 := set_channel j ch2 _).
    assert (Hch : m_channels m3 = <[j := ch2]> (map pend (m_channels m))).
    { subst m3. cbn. by rewrite list_insert_insert_eq. }
    assert (Hw : forall fs, wrote fs (m_writer m) -> wrote (fs ++ [FMsg p]) (fst (Flush (e_fault e) w1))).
    { intros fs Hw. eapply wrote_frame; [done..|]. subst w1. f_equal. cbn [encode]. by rewrite <- app_assoc. }
    destruct (Flush (e_fault e) w1) as [w2 [u|err]] eqn:Ef; cbn [fst snd] in *.
    + eapply (sent_packet e m j ch ch1 ch2 p); try done; [by destruct Hp1|left; cbn; pose proof (i64_range (c_recentlySent ch1 + (n + 1))); lia|].
      intros _ Hnf. rewrite Hnf in Ef. unfold Flush in Ef. cbn in Ef.
      repeat case_match; injection Ef as <- _; done.
    + destruct (fail_running_channels ("flush after send: " +:+ err) (set_writer w2 m3)) as (F1 & F2 & F3 & F4).
      eapply (sent_packet e m j ch ch1 ch2 p); try done; rewrite ?F1, ?F2, ?F3, ?F4; try done;
        [by destruct Hp1|left; cbn; pose proof (i64_range (c_recentlySent ch1 + (n + 1))); lia|].
      intros _ Hnf. rewrite Hnf in Ef. unfold Flush in Ef. cbn in Ef. repeat case_match; done.
Qed.

Lemma sendMsgPacket_sending fs sent e m :
  sending descs fs sent m -> Forall (sendable descs) sent ->
  exists fs', sending descs fs' sent (fst (sendMsgPacket e m)).
Proof.
  intros S Hs. destruct (sendMsgPacket_spec e m) as [_|i ch ch1 ch2 p m' b Hc Hb Hn Hv _ _ Hm Hi _ Hw _].
  - exists fs. by apply sending_pend.
  - exists (fs ++ [FMsg p]).
    eapply (sending_packet fs sent (set_channels (map pend (m_channels m)) m)); [by apply sending_pend|done| |..].
    + cbn. apply list_lookup_fmap_Some. eauto.
    + by eapply pend_pending.
    + done.
    + exact Hv.
    + done.
    + done.
    + apply Hw, S.
Qed.

Lemma send_batch_sending sent e n : forall fs m,
  sending descs fs sent m -> Forall (sendable descs) sent ->
  exists fs', sending descs fs' sent (fst (send_batch n e m)).
Proof.
  induction n as [|n IH]; intros fs m S Hs; cbn [send_batch]; [eauto|].
  destruct (sendMsgPacket_sending fs sent (e (Datatypes.S n)) m S Hs) as [fs' S'].
  destruct (sendMsgPacket (e (Datatypes.S n)) m) as [m' []]; cbn in *; [eauto|by eapply IH].
Qed.

(** A frame without a message. *)
Lemma sending_quiet fs sent m m' f :
  sending descs fs sent m -> (forall id x, asm_step id x f = x) -> fits_next descs fs f ->
  map view (m_channels m') = map view (m_channels m) -> m_channelsIdx m' = m_channelsIdx m ->
  wrote (fs ++ [f]) (m_writer m') -> sending descs (fs ++ [f]) sent m'.
Proof.
  intros S Hf Hn Hv Hi Hw. apply (sending_ext _ _ _ (set_writer (m_writer m') m)); [done..|].
  constructor; [|constructor; [apply S|done]|done|..].
  - apply (shape_ext descs m); [done..|apply S].
  - intros i ch Hc. rewrite !asm_snoc, !Hf. by eapply sd_sent.
  - intros i ch Hc. rewrite !asm_snoc, !Hf. by eapply sd_start.
Qed.

Lemma send_type_sending what typ f fs sent e m :
  encode f = [typ] -> (forall id x, asm_step id x f = x) -> fits_next descs fs f ->
  sending descs fs sent m -> exists fs', sending descs fs' sent (send_type what typ e m).
Proof.
  intros Ef Hf Hn S. unfold send_type. case_match; [eauto|]. unfold Write.
  destruct (w_err (m_writer m)) eqn:Ew.
  - exists fs. match goal with |- sending _ _ _ (fail_running ?err ?x) =>
      destruct (fail_running_channels err x) as (F1 & F2 & F3 & _) end.
    eapply sending_ext; [..|exact S]; rewrite ?F1, ?F2, ?F3; try done. apply S.
  - exists (fs ++ [f]). set (w1 := mkWriter _ _ false). set (m1 := set_sendMonitor _ _).
    assert (Hw : wrote (fs ++ [f]) (fst (Flush (e_fault e) w1))).
    { apply (wrote_frame fs (m_writer m)); [apply S|done|]. by rewrite Ef. }
    destruct (Flush (e_fault e) w1) as [w2 [u|err]]; cbn in Hw.
    + by apply (sending_quiet fs sent m).
    + destruct (fail_running_channels ("flush after " +:+ what +:+ ": " +:+ err) (set_writer w2 m1))
        as (F1 & F2 & F3 & _).
      apply (sending_quiet fs sent m); rewrite ?F1, ?F2, ?F3; done.
Qed.

Lemma send_turn_sending fs sent t m m' b :
  sending descs fs sent m -> Forall (sendable descs) sent -> send_turn t m = Some (m', b) ->
  exists fs', sending descs fs' sent m'.
Proof.
  intros S Hs E. destruct t as [| |e|e|now e]; cbn [send_turn] in E.
  - case_match; [|done]. injection E as <- _. eauto.
  - injection E as <- _. exists fs. eapply sending_ext; [..|exact S]; [|done|apply S].
    cbn. rewrite map_map. by apply map_ext.
  - injection E as <- _. by apply (send_type_sending _ _ FPing fs).
  - case_match; [|done]. injection E as <- _. apply (send_type_sending _ _ FPong fs); [done..|].
    eapply sending_ext; [..|exact S]; try done. apply S.
  - case_match; [|done]. injection E as <- _. apply (send_batch_sending _ _ _ fs); [|done].
    eapply sending_ext; [..|exact S]; unfold enforceSendLimit; case_match; try done; apply S.
Qed.

Lemma on_channel_one id x : on_channel id [x] = if bool_decide (fst x = id) then [snd x] else [].
Proof. unfold on_channel. cbn. by case_bool_decide. Qed.

(** A message queued on a channel. *)
Lemma queued_sending fs sent m m' i ch ch' id msg :
  sending descs fs sent m -> m_channels m !! i = Some ch -> d_ID (c_desc ch) = id ->
  WriteMessage msg ch = Some (ch', true) ->
  m_channels m' = <[i := ch']> (m_channels m) -> m_channelsIdx m' = m_channelsIdx m ->
  m_writer m' = m_writer m -> sending descs fs (sent ++ [(id, msg)]) m'.
Proof.
  intros S Hc Hid Hw Hm Hi Hwr.
  assert (Hv : c_sendQueue ch' = c_sendQueue ch ++ [msg] /\ c_sending ch' = c_sending ch /\ c_desc ch' = c_desc ch).
  { unfold WriteMessage in Hw. case_match; [|done]. by injection Hw as <-. }
  destruct Hv as (V1 & V2 & V3). constructor; [|apply S|rewrite Hwr; apply S|..].
  - apply (shape_ext descs m); [|done|apply S]. rewrite Hm, list_fmap_insert, V3. apply list_insert_id.
    apply list_lookup_fmap_Some. eauto.
  - intros j cj. rewrite Hm, on_channel_app, on_channel_one. cbn [fst snd]. intros Hj.
    apply list_lookup_insert_Some in Hj as [(<- & <- & _)|[Hne Hj]].
    + rewrite V3, bool_decide_true by done. rewrite (sd_sent _ _ _ _ S i ch Hc). unfold outgoing.
      by rewrite V1, V2, <- !app_assoc.
    + rewrite (sd_sent _ _ _ _ S j cj Hj), bool_decide_false; [by rewrite app_nil_r|].
      intros E. apply Hne. eapply (descs_unique descs); [done|..|rewrite Hid; exact E];
        (eapply wf_channel_desc; [apply S|done]).
  - intros j cj. rewrite Hm. intros Hj. apply list_lookup_insert_Some in Hj as [(<- & <- & _)|[Hne Hj]].
    + rewrite V2, V3. by eapply sd_start.
    + by eapply sd_start.
Qed.

Lemma Send_sending fs sent m m' id msg b :
  sending descs fs sent m -> Send id msg m = Some (m', b) ->
  sending descs fs (sent ++ if b then [(id, msg)] else []) m'.
Proof.
  intros S E. unfold Send in E. case_match; [injection E as <- <-; by rewrite app_nil_r|].
  destruct (channel_of id m) as [[i ch]|] eqn:Ec; [|injection E as <- <-; by rewrite app_nil_r].
  destruct (channel_of_inv _ _ _ _ _ (sd_shape _ _ _ _ S) Ec) as [Hc Hid].
  destruct (WriteMessage msg ch) as [[ch' b']|] eqn:Ew; [|done]. injection E as <- <-.
  assert (b' = true) as -> by (unfold WriteMessage in Ew; case_match; [by injection Ew|done]).
  by eapply queued_sending.
Qed.

Lemma TrySend_Send id msg m :
  TrySend id msg m = match Send id msg m with Some x => x | None => (m, false) end.
Proof.
  unfold TrySend, Send, TryWriteMessage. case_match; [done|]. case_match; [|done].
  destruct p as [i ch]. by destruct (WriteMessage msg ch) as [[ch' b]|].
Qed.

Lemma TrySend_sending fs sent m m' id msg b :
  sending descs fs sent m -> TrySend id msg m = (m', b) ->
  sending descs fs (sent ++ if b then [(id, msg)] else []) m'.
Proof.
  intros S. rewrite TrySend_Send. destruct (Send id msg m) as [[m1 b1]|] eqn:E.
  - intros Ex. injection Ex as <- <-. by eapply Send_sending.
  - intros Ex. injection Ex as <- <-. by rewrite app_nil_r.
Qed.

End sender.

(** Everything of a channel but its receive buffer. *)
Definition side (ch : Channel) : list (list Z) * Z * list Z * ChannelDescriptor * Z * Z :=
  (c_sendQueue ch, c_sendQueueSize ch, c_sending ch, c_desc ch, c_priority ch, c_recentlySent ch).

Lemma sides_map {B : Type} (f : Channel -> B) chs chs' :
  (forall ch ch', side ch = side ch' -> f ch = f ch') -> map side chs = map side chs' -> map f chs = map f chs'.
Proof.
  intros Hf. revert chs'. induction chs as [|ch chs IH]; intros [|ch' chs']; cbn; try done.
  intros E. injection E as E1 E2 E3 E4 E5 E6 E. f_equal; [|by apply IH].
  apply Hf. unfold side. congruence.
Qed.

(** What the receive routine does to the send side of its own connection: it only asks for
    pongs. *)
Lemma handle_packet_view g r p n m m' b :
  handle_packet g r p n m = (m', b) ->
  map side (m_channels m') = map side (m_channels m) /\ m_channelsIdx m' = m_channelsIdx m /\
  m_writer m' = m_writer m /\ m_send m' = m_send m.
Proof.
  unfold handle_packet. intros E. set (m1 := set_recvMonitor _ m) in E.
  destruct (channel_of (ChannelID p) m1) as [[i ch]|] eqn:Ec.
  2:{ injection E as <- <-. by destruct (fail_running_channels "unknown channel ID" m1) as (-> & -> & -> & ->). }
  assert (Hc : m_channels m !! i = Some ch).
  { unfold channel_of in Ec. destruct (m_channelsIdx m1 !! _); [|done]. cbn in Ec.
    destruct (m_channels m !! n0) eqn:En; [|done]. cbn in Ec. by simplify_eq. }
  unfold recvMsgPacket in E. destruct (d_RecvMessageCapacity (c_desc ch) <? _).
  { injection E as <- <-. by destruct (fail_running_channels ("recv msg packet: " +:+ "recv message capacity exceeded") m1)
      as (-> & -> & -> & ->). }
  destruct (append_bytes _ _ _ _) as [s h].
  assert (Hv : forall b, map side (<[i := set_recving b ch]> (m_channels m)) = map side (m_channels m)).
  { intros b0. rewrite list_fmap_insert. apply list_insert_id, list_lookup_fmap_Some. by exists ch. }
  destruct (EOF p); injection E as <- <-; cbn; by rewrite ?Hv.
Qed.

Lemma recv_round_view g r input m m' rest b :
  recv_round g r input m = (m', rest, b) ->
  map side (m_channels m') = map side (m_channels m) /\ m_channelsIdx m' = m_channelsIdx m /\
  m_writer m' = m_writer m /\ m_send m' = m_send m.
Proof.
  unfold recv_round. set (m0 := enforceRecvLimit (r_limit r) m). intros E.
  assert (H0 : m_channels m0 = m_channels m /\ m_channelsIdx m0 = m_channelsIdx m /\
               m_writer m0 = m_writer m /\ m_send m0 = m_send m).
  { subst m0. clear E. unfold enforceRecvLimit. by case_match. }
  destruct H0 as (<- & <- & <- & <-). generalize dependent m0. intros m0 E.
  assert (Hf : forall e x, m_channels x = m_channels m0 -> m_channelsIdx x = m_channelsIdx m0 ->
    m_writer x = m_writer m0 -> m_send x = m_send m0 -> fail_running e x = m' ->
    map side (m_channels m') = map side (m_channels m0) /\ m_channelsIdx m' = m_channelsIdx m0 /\
    m_writer m' = m_writer m0 /\ m_send m' = m_send m0).
  { intros e x <- <- <- <- <-. by destruct (fail_running_channels e x) as (-> & -> & -> & ->). }
  destruct input as [|t input]; [injection E as E _ _; by eapply Hf|].
  destruct (t =? packetTypePing); [by injection E as <- _ _|].
  destruct (t =? packetTypePong); [by injection E as <- _ _|].
  destruct (t =? packetTypeMsg); [|injection E as E _ _; eapply Hf; [..|exact E]; done].
  destruct (readMsgPacket input) as [rest' [[p n]|e]]; [|injection E as E _ _; eapply Hf; [..|exact E]; done].
  destruct (handle_packet _ _ _ _ _) as [m2 more] eqn:Eh. injection E as <- _ _.
  by apply handle_packet_view in Eh.
Qed.

(** ** Runs

    The callers of [Send] and [TrySend], the turns of the send routine, the rounds of the
    receive routine, the pong monitor and the shutdown, in any order.  The list holds the
    accepted messages.  Turns after a routine has returned are included. *)
Inductive run (g : nat -> nat -> nat) (m0 : MConnection) : list (Z * list Z) -> MConnection -> Prop :=
| run_start : run g m0 [] m0
| run_send sent m m' id msg b : run g m0 sent m -> Send id msg m = Some (m', b) ->
    run g m0 (sent ++ if b then [(id, msg)] else []) m'
| run_trysend sent m m' id msg b : run g m0 sent m -> TrySend id msg m = (m', b) ->
    run g m0 (sent ++ if b then [(id, msg)] else []) m'
| run_turn sent m m' t b : run g m0 sent m -> send_turn t m = Some (m', b) -> run g m0 sent m'
| run_round sent m m' r input rest b : run g m0 sent m -> recv_round g r input m = (m', rest, b) ->
    run g m0 sent m'
| run_tick sent m now : run g m0 sent m -> run g m0 sent (fst (pongMonitor_tick now m))
| run_stop sent m : run g m0 sent m -> run g m0 sent (Stop m)
| run_finish sent m e : run g m0 sent m -> run g m0 sent (finish_stop e m).

(** The last three leave the send side alone. *)
Lemma quiet_side m m' :
  (exists now, m' = fst (pongMonitor_tick now m)) \/ m' = Stop m \/ (exists e, m' = finish_stop e m) ->
  m_channels m' = m_channels m /\ m_channelsIdx m' = m_channelsIdx m /\ m_writer m' = m_writer m /\
  m_send m' = m_send m.
Proof.
  assert (Hs : m_channels (Stop m) = m_channels m /\ m_channelsIdx (Stop m) = m_channelsIdx m /\
    m_writer (Stop m) = m_writer m /\ m_send (Stop m) = m_send m) by (unfold Stop; by case_match).
  intros [[now ->]|[->|[e ->]]]; [|done|done].
  unfold pongMonitor_tick, stopForError. by repeat case_match.
Qed.

Lemma run_sending g ds m0 sent m :
  NoDup (map d_ID ds) -> sending ds [] [] m0 -> run g m0 sent m -> Forall (sendable ds) sent ->
  exists fs, sending ds fs sent m.
Proof.
  intros Hn H0 Hr. induction Hr as [|sent m m' id msg b Hr IH E|sent m m' id msg b Hr IH E|sent m m' t b Hr IH E
    |sent m m' r input rest b Hr IH E|sent m now Hr IH|sent m Hr IH|sent m e Hr IH]; intros Hs.
  - eauto.
  - apply Forall_app in Hs as [Hs _]. destruct (IH Hs) as [fs S]. exists fs. by eapply Send_sending.
  - apply Forall_app in Hs as [Hs _]. destruct (IH Hs) as [fs S]. exists fs. by eapply TrySend_sending.
  - destruct (IH Hs) as [fs S]. by eapply send_turn_sending.
  - destruct (IH Hs) as [fs S]. exists fs. apply recv_round_view in E as (E1 & E2 & E3 & _).
    eapply sending_ext; [|done|rewrite E3; apply S|exact S]. eapply sides_map; [|done].
    unfold side, view. congruence.
  - destruct (IH Hs) as [fs S]. exists fs. destruct (quiet_side m (fst (pongMonitor_tick now m))) as (E1 & E2 & E3 & _); [eauto|].
    eapply sending_ext; [by rewrite E1|done|rewrite E3; apply S|exact S].
  - destruct (IH Hs) as [fs S]. exists fs. destruct (quiet_side m (Stop m)) as (E1 & E2 & E3 & _); [eauto|].
    eapply sending_ext; [by rewrite E1|done|rewrite E3; apply S|exact S].
  - destruct (IH Hs) as [fs S]. exists fs. destruct (quiet_side m (finish_stop e m)) as (E1 & E2 & E3 & _); [eauto|].
    eapply sending_ext; [by rewrite E1|done|rewrite E3; apply S|exact S].
Qed.

Lemma new_sending hc hr ds cfg t1 t2 m :
  NewMConnection hc hr ds cfg t1 t2 = Ok m -> sending ds [] [] (fst (Start m)).
Proof.
  intros E. apply NewMConnection_spec in E as (_ & _ & [W _ _] & Hi & _ & Hw & _ & _ & Hr).
  unfold Start. rewrite Hr. cbn. rewrite list.Forall_lookup in Hi. constructor.
  - by eapply shape_ext; [..|exact W].
  - constructor.
  - cbn. rewrite Hw. split; [done|]. done.
  - cbn. intros i ch Hc. destruct (Hi i ch Hc) as [H1 H2]. unfold outgoing. by rewrite H1, H2.
  - done.
Qed.

(** A channel no descriptor names has no packets. *)
Lemma fits_foreign descs fs id :
  fits descs fs -> (forall i d, descs !! i = Some d -> d_ID d <> id) -> asm id fs = ([], []).
Proof.
  intros Hf Hd. induction Hf as [|fs f Hf IH Hn]; [done|]. rewrite asm_snoc, IH.
  destruct f as [| |p]; cbn; [done|done|]. destruct Hn as (_ & i & d & Hi & Hid & _).
  rewrite bool_decide_false; [done|]. rewrite <- Hid. by eapply Hd.
Qed.

Lemma sent_prefix descs fs sent m id :
  NoDup (map d_ID descs) -> sending descs fs sent m -> fst (asm id fs) `prefix_of` on_channel id sent.
Proof.
  intros Hn S. destruct (m_channelsIdx m !! id) as [i|] eqn:Ei.
  - apply (wf_idx _ _ (sd_shape _ _ _ _ S)) in Ei as (d & Hd & <-).
    destruct (channel_of_desc descs m i d (sd_shape _ _ _ _ S) Hd) as (ch & _ & Hc & <-).
    rewrite (sd_sent _ _ _ _ S i ch Hc). by apply prefix_app_r.
  - rewrite (fits_foreign descs fs id); [apply prefix_nil|apply S|].
    intros i d Hd E. assert (Hs : m_channelsIdx m !! id = Some i) by (apply (wf_idx _ _ (sd_shape _ _ _ _ S)); eauto).
    congruence.
Qed.

(** ** How much leaves *)
Definition chan_bytes (ch : Channel) : Z := len (c_sending ch) + sumZ (map len (c_sendQueue ch)).
Definition pending_bytes (m : MConnection) : Z := sumZ (map chan_bytes (m_channels m)).

Lemma sumZ_insert {A : Type} (f : A -> Z) (l : list A) (i : nat) (x y : A) :
  l !! i = Some x -> sumZ (map f (<[i := y]> l)) = sumZ (map f l) - f x + f y.
Proof.
  unfold sumZ. revert i. induction l as [|z l IH]; intros [|i] Hi; try done.
  - injection Hi as ->. cbn. lia.
  - change (<[S i := y]> (z :: l)) with (z :: <[i := y]> l). cbn [map foldr].
    rewrite (IH i Hi). lia.
Qed.

Lemma pend_bytes ch : chan_bytes (pend ch) = chan_bytes ch.
Proof.
  unfold chan_bytes, pend, isSendPending. destruct (c_sending ch) as [|x l] eqn:E1; cbn; [|by rewrite E1].
  destruct (c_sendQueue ch) as [|msg q] eqn:E2; cbn; [by rewrite E1, E2|]. unfold len. cbn. lia.
Qed.

Lemma views_sum (f : Channel -> Z) chs chs' :
  (forall ch ch', view ch = view ch' -> f ch = f ch') -> map view chs = map view chs' ->
  sumZ (map f chs) = sumZ (map f chs').
Proof.
  intros Hf. revert chs'. unfold sumZ. induction chs as [|ch chs IH]; intros [|ch' chs']; cbn; try done.
  intros E. injection E as E1 E2 E3 E. rewrite (IH chs' E). f_equal. apply Hf. unfold view. congruence.
Qed.

Lemma view_bytes ch ch' : view ch = view ch' -> chan_bytes ch = chan_bytes ch'.
Proof. unfold view, chan_bytes. intros E. injection E as E1 E2 _. by rewrite E1, E2. Qed.

Lemma side_view ch ch' : side ch = side ch' -> view ch = view ch'.
Proof. unfold side, view. congruence. Qed.

Lemma sendMsgPacket_bytes e m :
  pending_bytes m <= pending_bytes (fst (sendMsgPacket e m)) + 1024 /\
  m_send (fst (sendMsgPacket e m)) = m_send m.
Proof.
  assert (Hp : sumZ (map chan_bytes (map pend (m_channels m))) = pending_bytes m).
  { unfold pending_bytes. rewrite map_map. f_equal. apply map_ext, pend_bytes. }
  unfold pending_bytes at 2.
  destruct (sendMsgPacket_spec e m) as [_|i ch ch1 ch2 p m' b Hc Hb Hn Hv _ _ Hm Hi Hs Hw _].
  - cbn [m_channels set_channels]. rewrite Hp. split; [lia|done].
  - rewrite Hm, (sumZ_insert _ _ i (pend ch)), Hp by (apply list_lookup_fmap_Some; eauto).
    destruct (nextMsgPacket_spec _ _ _ Hn) as (H1 & _ & H2 & _ & _ & H3 & _).
    rewrite (view_bytes ch2 ch1 Hv). unfold chan_bytes, maxMsgPacketPayloadSize, len in *.
    rewrite H1, H3, length_app. split; [lia|done].
Qed.

Lemma send_batch_bytes e n : forall m,
  pending_bytes m <= pending_bytes (fst (send_batch n e m)) + 1024 * Z.of_nat n /\
  m_send (fst (send_batch n e m)) = m_send m.
Proof.
  induction n as [|n IH]; intros m; cbn [send_batch]; [split; [cbn; lia|done]|].
  destruct (sendMsgPacket_bytes (e (S n)) m) as [H1 H2].
  destruct (sendMsgPacket (e (S n)) m) as [m' []]; cbn [fst] in *; [split; [lia|done]|].
  destruct (IH m') as [H3 H4]. rewrite H4. split; [lia|done].
Qed.

Lemma send_type_side what typ e m :
  m_channels (send_type what typ e m) = m_channels m /\ m_send (send_type what typ e m) = m_send m.
Proof.
  unfold send_type. case_match; [done|]. destruct (Write _ _) as [w [u|err]].
  - destruct (Flush _ _) as [w1 [u1|err]]; [done|].
    match goal with |- m_channels (fail_running ?e ?x) = _ /\ _ =>
      destruct (fail_running_channels e x) as (-> & _ & _ & ->) end. done.
  - match goal with |- m_channels (fail_running ?e ?x) = _ /\ _ =>
      destruct (fail_running_channels e x) as (-> & _ & _ & ->) end. done.
Qed.

Definition batch_bytes : Z := 1024 * Z.of_nat numBatchMsgPackets.

(** A turn sends at most a batch, and only when a signal was waiting. *)
Lemma send_turn_bytes t m m' b :
  send_turn t m = Some (m', b) ->
  pending_bytes m - batch_bytes * Z.b2z (m_send m) <= pending_bytes m' - batch_bytes * Z.b2z (m_send m').
Proof.
  intros E. destruct t as [| |e|e|now e]; cbn [send_turn] in E.
  - case_match; [|done]. injection E as <- _. lia.
  - injection E as <- _. unfold pending_bytes. cbn. rewrite map_map. done.
  - injection E as <- _. unfold pending_bytes, sendPing.
    destruct (send_type_side "ping" packetTypePing e m) as [-> ->]. lia.
  - case_match; [|done]. injection E as <- _. unfold pending_bytes, sendPong.
    match goal with |- context [send_type ?a ?b ?c ?d] => destruct (send_type_side a b c d) as [-> ->] end.
    cbn [m_channels m_send set_signals]. lia.
  - destruct (m_send m) eqn:Em; [|done]. injection E as <- _. unfold sendSomeMsgPackets.
    set (m1 := enforceSendLimit now _).
    assert (H1 : pending_bytes m1 = pending_bytes m /\ m_send m1 = false).
    { subst m1. unfold enforceSendLimit. by case_match. }
    destruct H1 as [H1 H2].
    destruct (send_batch_bytes e numBatchMsgPackets m1) as [H3 H4]. rewrite H4, H2.
    unfold batch_bytes in *. cbn [Z.b2z]. lia.
Qed.

Definition sent_bytes (sent : list (Z * list Z)) : Z := sumZ (map (fun x => len (snd x)) sent).

Lemma Send_bytes m m' id msg b :
  Send id msg m = Some (m', b) ->
  if b then pending_bytes m' = pending_bytes m + len msg /\ m_send m' = true else m' = m.
Proof.
  unfold Send. intros E. case_match; [by injection E as <- <-|].
  destruct (channel_of id m) as [[i ch]|] eqn:Ec; [|by injection E as <- <-].
  assert (Hc : m_channels m !! i = Some ch).
  { unfold channel_of in Ec. destruct (m_channelsIdx m !! id) as [j|]; [|done]. cbn in Ec.
    destruct (m_channels m !! j) eqn:Ej; [|done]. cbn in Ec. by simplify_eq. }
  destruct (WriteMessage msg ch) as [[ch' b']|] eqn:Ew; [|done]. injection E as <- <-. split; [|done].
  unfold pending_bytes. cbn. rewrite (sumZ_insert _ _ i ch) by done.
  unfold WriteMessage in Ew. case_match; [|done]. injection Ew as <- _. unfold chan_bytes. cbn.
  rewrite map_app, sumZ_app. cbn. lia.
Qed.

Lemma run_budget g m0 sent m :
  pending_bytes m0 = 0 -> m_send m0 = false -> run g m0 sent m ->
  sent_bytes sent <= pending_bytes m + batch_bytes * (len sent - Z.b2z (m_send m)).
Proof.
  intros Hp Hs Hr.
  assert (Hsend : forall (sent : list (Z * list Z)) m id msg m' (b : bool),
    sent_bytes sent <= pending_bytes m + batch_bytes * (len sent - Z.b2z (m_send m)) ->
    (if b then pending_bytes m' = pending_bytes m + len msg /\ m_send m' = true else m' = m) ->
    sent_bytes (sent ++ if b then [(id, msg)] else [])
      <= pending_bytes m' + batch_bytes * (len (sent ++ if b then [(id, msg)] else []) - Z.b2z (m_send m'))).
  { intros sent' m1 id msg m' [] H1 H2.
    - destruct H2 as [-> ->]. unfold sent_bytes, len, batch_bytes in *. rewrite map_app, sumZ_app, length_app.
      cbn in *. destruct (m_send m1); cbn in *; lia.
    - subst m'. by rewrite app_nil_r. }
  induction Hr as [|sent m m' id msg b Hr IH E|sent m m' id msg b Hr IH E|sent m m' t b Hr IH E
    |sent m m' r input rest b Hr IH E|sent m now Hr IH|sent m Hr IH|sent m e Hr IH].
  - rewrite Hp, Hs. unfold sent_bytes, len. cbn. lia.
  - eapply Hsend; [exact IH|]. by eapply Send_bytes.
  - rewrite TrySend_Send in E. destruct (Send id msg m) as [[m1 b1]|] eqn:Es; injection E as <- <-.
    + eapply Hsend; [exact IH|]. by eapply Send_bytes.
    + by apply (Hsend sent m id msg m false).
  - apply send_turn_bytes in E. lia.
  - apply recv_round_view in E as (E1 & _ & _ & ->). unfold pending_bytes in *.
    rewrite (views_sum chan_bytes (m_channels m') (m_channels m)); [done|apply view_bytes|].
    by eapply sides_map; [apply side_view|].
  - destruct (quiet_side m (fst (pongMonitor_tick now m))) as (E1 & _ & _ & E4); [eauto|].
    unfold pending_bytes in *. by rewrite E1, E4.
  - destruct (quiet_side m (Stop m)) as (E1 & _ & _ & E4); [eauto|]. unfold pending_bytes in *. by rewrite E1, E4.
  - destruct (quiet_side m (finish_stop e m)) as (E1 & _ & _ & E4); [eauto|].
    unfold pending_bytes in *. by rewrite E1, E4.
Qed.

(** ** When everything leaves *)
Definition packets (msg : list Z) : Z := (len msg + 1023) / 1024.
Definition chan_packets (ch : Channel) : Z := packets (c_sending ch) + sumZ (map packets (c_sendQueue ch)).
Definition pending_packets (m : MConnection) : Z := sumZ (map chan_packets (m_channels m)).

(** The scheduler can compare the channel: its ratio is a number below the greatest. *)
Definition rated (ch : Channel) : Prop :=
  0 < c_priority ch < 2 ^ 63 /\ - 2 ^ 63 <= c_recentlySent ch < 2 ^ 63.

Lemma packets_nonneg msg : 0 <= packets msg.
Proof. unfold packets, len. apply Z.div_pos; lia. Qed.

Lemma packets_zero msg : packets msg = 0 -> msg = [].
Proof.
  unfold packets, len. intros E. destruct msg as [|x l]; [done|]. cbn [length] in E.
  pose proof (Z.div_le_lower_bound (Z.of_nat (S (length l)) + 1023) 1024 1). lia.
Qed.

Lemma sum_packets_nonneg q : 0 <= sumZ (map packets q).
Proof. induction q as [|x q IH]; cbn; [lia|]. pose proof (packets_nonneg x). unfold sumZ in *. lia. Qed.

Lemma chan_packets_nonneg ch : 0 <= chan_packets ch.
Proof.
  unfold chan_packets. pose proof (packets_nonneg (c_sending ch)). pose proof (sum_packets_nonneg (c_sendQueue ch)). lia.
Qed.

Lemma pending_zero (chs : list Channel) :
  sumZ (map chan_packets chs) <= 0 -> Forall (fun ch => chan_packets ch = 0) chs.
Proof.
  assert (Hn : forall l, 0 <= sumZ (map chan_packets l)).
  { intros l. induction l as [|c l IH]; cbn; [lia|]. pose proof (chan_packets_nonneg c). unfold sumZ in *. lia. }
  induction chs as [|ch chs IH]; intros H; [constructor|]. pose proof (chan_packets_nonneg ch).
  pose proof (Hn chs). change (sumZ (map chan_packets (ch :: chs))) with (chan_packets ch + sumZ (map chan_packets chs)) in H.
  constructor; [lia|apply IH; lia].
Qed.

Lemma pend_packets ch : chan_packets (pend ch) = chan_packets ch.
Proof.
  unfold chan_packets, pend, isSendPending. destruct (c_sending ch) as [|x l] eqn:E1; cbn [fst]; [|by rewrite E1].
  destruct (c_sendQueue ch) as [|msg q] eqn:E2; cbn [fst]; [by rewrite E1, E2|].
  cbn [c_sending c_sendQueue set_sending map]. change (packets []) with 0. unfold sumZ. cbn [foldr]. lia.
Qed.

Lemma next_packets ch ch1 p :
  nextMsgPacket ch = (ch1, p) -> c_sending ch <> [] -> chan_packets ch1 = chan_packets ch - 1.
Proof.
  intros En Hn. destruct (nextMsgPacket_spec _ _ _ En) as (H1 & _ & _ & He & H2 & H3 & _).
  unfold chan_packets. rewrite H3. enough (packets (c_sending ch1) = packets (c_sending ch) - 1) by lia.
  unfold packets, len, maxMsgPacketPayloadSize in *.
  pose proof (f_equal length H1) as Hl. rewrite length_app in Hl.
  assert (Hp : (0 < length (c_sending ch))%nat) by (destruct (c_sending ch); [done|cbn; lia]).
  destruct (decide (length (c_sending ch) <= 1024)%nat) as [Hd|Hd].
  - replace (length (c_sending ch1)) with 0%nat by lia. change ((Z.of_nat 0 + 1023) / 1024) with 0.
    rewrite <- (Z.div_unique (Z.of_nat (length (c_sending ch)) + 1023) 1024 1 (Z.of_nat (length (c_sending ch)) - 1)); lia.
  - replace (Z.of_nat (length (c_sending ch)) + 1023) with (Z.of_nat (length (c_sending ch1)) + 1023 + 1 * 1024) by lia.
    rewrite Z.div_add; lia.
Qed.

Lemma rated_pend ch : rated ch -> rated (pend ch).
Proof. unfold rated, pend, isSendPending. by repeat case_match. Qed.

Lemma rated_ratio ch : rated ch -> f64_ltb (getSendPriorityRatio ch) MaxFloat64 = true.
Proof.
  intros [Hp Hr]. unfold getSendPriorityRatio. replace (_ <=? 0) with false by lia. by apply f64_ratio_below.
Qed.

Lemma pick_keeps chs : forall i least k, snd (pick i chs least (Some k)) <> None.
Proof.
  induction chs as [|ch chs IH]; intros i least k; cbn [pick]; [done|].
  destruct (isSendPending ch) as [ch' b]. case_match; case_match; simplify_eq;
    match goal with |- context [pick ?a ?b ?c (Some ?d)] =>
      pose proof (IH a c d) as H'; destruct (pick a b c (Some d)) end; done.
Qed.

(** Nothing is picked only when nothing is pending. *)
Lemma pick_none chs : forall i,
  Forall rated chs -> snd (pick i chs MaxFloat64 None) = None ->
  Forall (fun ch => snd (isSendPending ch) = false) chs.
Proof.
  induction chs as [|ch chs IH]; intros i Hr; cbn [pick]; [constructor|].
  apply list.Forall_cons in Hr as [Hc Hr]. pose proof (rated_ratio _ (rated_pend _ Hc)) as Hf. unfold pend in Hf.
  destruct (isSendPending ch) as [ch' b] eqn:Ep. cbn [fst] in Hf. rewrite Hf.
  destruct b; cbn [andb].
  - pose proof (pick_keeps chs (S i) (getSendPriorityRatio ch') i) as Hk.
    destruct (pick (S i) chs _ (Some i)). cbn in *. done.
  - destruct (pick (S i) chs MaxFloat64 None) as [rest r] eqn:Er. cbn. intros ->.
    constructor; [by rewrite Ep|]. apply (IH (S i) Hr). by rewrite Er.
Qed.

Lemma not_pending_packets ch : snd (isSendPending ch) = false -> chan_packets ch = 0.
Proof.
  unfold isSendPending, chan_packets. destruct (c_sending ch) eqn:E1; [|done].
  destruct (c_sendQueue ch) eqn:E2; [|done]. done.
Qed.

Lemma packet_rated e m :
  Forall rated (m_channels m) -> Forall rated (m_channels (fst (sendMsgPacket e m))).
Proof.
  intros Hr. assert (Hp : Forall rated (map pend (m_channels m))).
  { apply list.Forall_fmap. eapply list.Forall_impl; [exact Hr|]. apply rated_pend. }
  destruct (sendMsgPacket_spec e m) as [_|i ch ch1 ch2 p m' b Hc Hb Hn Hv Hpr Hrs Hm Hi Hs Hw _]; [done|].
  rewrite Hm. apply Forall_insert; [done|]. rewrite list.Forall_lookup in Hr. pose proof (Hr i ch Hc) as [H1 H2].
  split; [by rewrite Hpr|]. destruct Hrs as [?| ->]; [lia|done].
Qed.

Section drains.
Context (descs : list ChannelDescriptor) (Hids : NoDup (map d_ID descs)).

Lemma batch_drains sent e n : forall fs m,
  sending descs fs sent m -> Forall (sendable descs) sent -> Forall rated (m_channels m) ->
  w_err (m_writer m) = false -> (forall k, e_fault (e k) = None) -> pending_packets m <= Z.of_nat n ->
  let m' := fst (send_batch n e m) in
  Forall (fun ch => chan_packets ch = 0) (m_channels m') /\ w_err (m_writer m') = false.
Proof.
  induction n as [|n IH]; intros fs m S Hs Hr Hw Hf Hn; cbn [send_batch fst].
  { split; [by apply pending_zero|done]. }
  destruct (sendMsgPacket_sending descs Hids fs sent (e (Datatypes.S n)) m S Hs) as [fs' S'].
  pose proof (packet_rated (e (Datatypes.S n)) m Hr) as Hr'.
  pose proof (sendMsgPacket_spec (e (Datatypes.S n)) m) as Hsp.
  destruct (sendMsgPacket (e (Datatypes.S n)) m) as [m1 b1]. cbn [fst snd] in *.
  destruct Hsp as [Hp|i ch ch1 ch2 p m' b Hc Hb Hnx Hv Hpr Hrs Hm Hi Hsd Hw' Hok].
  - cbn [fst m_channels m_writer set_channels]. split; [|done]. apply list.Forall_fmap.
    eapply list.Forall_impl; [by eapply pick_none|]. intros ch Hc. cbn.
    rewrite pend_packets. by apply not_pending_packets.
  - destruct (Hok Hw (Hf _)) as [-> Hw1]. apply (IH fs'); [done..|].
    assert (Hpp : sumZ (map chan_packets (map pend (m_channels m))) = pending_packets m).
    { unfold pending_packets. rewrite map_map. f_equal. apply map_ext, pend_packets. }
    unfold pending_packets at 1. rewrite Hm, (sumZ_insert _ _ i (pend ch)), Hpp
      by (apply list_lookup_fmap_Some; eauto).
    pose proof (next_packets _ _ _ Hnx (pend_pending descs Hids fs sent m i ch S Hs Hc Hb)) as Hnp.
    assert (Hve : chan_packets ch2 = chan_packets ch1).
    { unfold chan_packets. injection Hv as -> -> _. done. }
    lia.
Qed.

(** A channel without packets is idle, as no message is empty. *)
Lemma drained_idle fs sent m i ch :
  sending descs fs sent m -> Forall (sendable descs) sent -> m_channels m !! i = Some ch ->
  chan_packets ch = 0 -> idle ch.
Proof.
  intros S Hs Hc Hp. unfold chan_packets in Hp. pose proof (packets_nonneg (c_sending ch)).
  pose proof (sum_packets_nonneg (c_sendQueue ch)). assert (E1 : c_sending ch = []) by (apply packets_zero; lia).
  split; [done|]. destruct (c_sendQueue ch) as [|msg q] eqn:E2; [done|exfalso].
  destruct (outgoing_sendable descs Hids fs sent m i ch msg S Hs Hc) as [Hm _].
  { unfold outgoing. rewrite E1, E2. left. }
  apply Hm, packets_zero. pose proof (packets_nonneg msg). pose proof (sum_packets_nonneg q).
  unfold sumZ in *. cbn in *. lia.
Qed.

(** Idle channels have sent all they accepted. *)
Lemma idle_sent fs sent m id :
  sending descs fs sent m -> Forall (sendable descs) sent -> Forall idle (m_channels m) ->
  on_channel id sent = fst (asm id fs).
Proof.
  intros S Hs Hi. rewrite list.Forall_lookup in Hi.
  destruct (m_channelsIdx m !! id) as [i|] eqn:Ei.
  - apply (wf_idx _ _ (sd_shape _ _ _ _ S)) in Ei as (d & Hd & <-).
    destruct (channel_of_desc descs m i d (sd_shape _ _ _ _ S) Hd) as (ch & _ & Hc & <-).
    rewrite (sd_sent _ _ _ _ S i ch Hc). destruct (Hi i ch Hc) as [E1 E2].
    unfold outgoing. by rewrite E1, E2, app_nil_r.
  - assert (Hno : forall i d, descs !! i = Some d -> d_ID d <> id).
    { intros i d Hd E. assert (Hx : m_channelsIdx m !! id = Some i) by (apply (wf_idx _ _ (sd_shape _ _ _ _ S)); eauto).
      congruence. }
    rewrite (fits_foreign descs fs id); [|apply S|done].
    destruct (on_channel id sent) as [|msg l] eqn:E; [done|exfalso].
    assert (Hin : (id, msg) ∈ sent) by (apply on_channel_elem; rewrite E; left).
    rewrite list.Forall_forall in Hs. destruct (Hs _ Hin) as (_ & i & d & Hd & Hid & _). by apply (Hno i d).
Qed.

Lemma idle_bytes (chs : list Channel) : Forall idle chs -> sumZ (map chan_bytes chs) = 0.
Proof.
  induction 1 as [|ch chs [H1 H2] Hi IH]; [done|]. change (sumZ (map chan_bytes (ch :: chs))) with
    (chan_bytes ch + sumZ (map chan_bytes chs)). rewrite IH. unfold chan_bytes. by rewrite H1, H2.
Qed.
End drains.

(** The channels of every run can be compared. *)
Lemma decay_rated ch : rated ch -> rated (decayRecentlySent ch).
Proof.
  intros [H1 H2]. split; [done|]. cbn [c_recentlySent decayRecentlySent set_recentlySent].
  pose proof (i64_range (f64_trunc (f64_mul (f64_of_Z (c_recentlySent ch)) (f64_const 8 10)))). lia.
Qed.

Lemma batch_rated e n : forall m,
  Forall rated (m_channels m) -> Forall rated (m_channels (fst (send_batch n e m))).
Proof.
  induction n as [|n IH]; intros m Hr; cbn [send_batch]; [done|].
  pose proof (packet_rated (e (S n)) m Hr) as H1.
  destruct (sendMsgPacket (e (S n)) m) as [m1 []]; [done|by apply IH].
Qed.

Lemma turn_rated t m m' b :
  send_turn t m = Some (m', b) -> Forall rated (m_channels m) -> Forall rated (m_channels m').
Proof.
  intros E Hr. destruct t as [| |e|e|now e]; cbn [send_turn] in E.
  - case_match; [|done]. by injection E as <- _.
  - injection E as <- _. apply list.Forall_fmap. eapply list.Forall_impl; [exact Hr|]. apply decay_rated.
  - injection E as <- _. unfold sendPing. by destruct (send_type_side "ping" packetTypePing e m) as [-> _].
  - case_match; [|done]. injection E as <- _. unfold sendPong.
    by match goal with |- context [send_type ?a ?b ?c ?d] => destruct (send_type_side a b c d) as [-> _] end.
  - case_match; [|done]. injection E as <- _. apply batch_rated. unfold enforceSendLimit. by case_match.
Qed.

Lemma Send_rated id msg m m' b :
  Send id msg m = Some (m', b) -> Forall rated (m_channels m) -> Forall rated (m_channels m').
Proof.
  unfold Send. intros E Hr. case_match; [by injection E as <- <-|].
  destruct (channel_of id m) as [[i ch]|] eqn:Ec; [|by injection E as <- <-].
  destruct (WriteMessage msg ch) as [[ch' b']|] eqn:Ew; [|done]. injection E as <- <-.
  cbn. apply Forall_insert; [done|].
  assert (Hc : rated ch).
  { unfold channel_of in Ec. destruct (m_channelsIdx m !! id) as [j|]; [|done]. cbn in Ec.
    destruct (m_channels m !! j) eqn:Ej; [|done]. cbn in Ec. simplify_eq.
    rewrite list.Forall_lookup in Hr. eauto. }
  unfold WriteMessage in Ew. case_match; [|done]. by injection Ew as <- _.
Qed.

Lemma side_rated ch ch' : side ch = side ch' -> rated ch -> rated ch'.
Proof. unfold side, rated. intros E. injection E as _ _ _ _ -> ->. done. Qed.

Lemma run_rated g m0 sent m :
  Forall rated (m_channels m0) -> run g m0 sent m -> Forall rated (m_channels m).
Proof.
  intros H0 Hr. induction Hr as [|sent m m' id msg b Hr IH E|sent m m' id msg b Hr IH E|sent m m' t b Hr IH E
    |sent m m' r input rest b Hr IH E|sent m now Hr IH|sent m Hr IH|sent m e Hr IH]; [done|..].
  - by eapply Send_rated.
  - rewrite TrySend_Send in E. destruct (Send id msg m) as [[m1 b1]|] eqn:Es; injection E as <- <-; [|done].
    by eapply Send_rated.
  - by eapply turn_rated.
  - apply recv_round_view in E as (E1 & _). rewrite list.Forall_lookup in IH |- *. intros i ch' Hc.
    assert (Hv : map side (m_channels m') !! i = Some (side ch')) by (apply list_lookup_fmap_Some; eauto).
    rewrite E1 in Hv. apply list_lookup_fmap_Some in Hv as (ch & Es & Hch).
    by eapply side_rated; [symmetry|eapply IH].
  - destruct (quiet_side m (fst (pongMonitor_tick now m))) as (-> & _); [eauto|done].
  - destruct (quiet_side m (Stop m)) as (-> & _); [eauto|done].
  - destruct (quiet_side m (finish_stop e m)) as (-> & _); [eauto|done].
Qed.

Lemma new_budget g ds cfg t1 t2 s0 sent s :
  NewMConnection true true ds cfg t1 t2 = Ok s0 -> run g (fst (Start s0)) sent s ->
  sent_bytes sent <= pending_bytes s + 10240 * (len sent - Z.b2z (m_send s)).
Proof.
  intros Hs. pose proof (NewMConnection_spec _ _ _ _ _ _ _ Hs) as (_ & _ & _ & Hi & _ & _ & _ & Hsn & Hrn).
  unfold Start. rewrite Hrn. cbn [fst]. apply (run_budget g _ sent s); [|done]. by apply idle_bytes.
Qed.

(** * Theorems *)

(** C19. Messages arrive whole, unmixed and in order.  Whatever the routines and callers of a
    connection do, and whatever part of what was written has reached the peer, the peer's
    receive routine ends and has delivered on every channel a prefix of the messages
    accepted for it; while no write has failed and everything has arrived, the other messages
    are exactly those still queued at the sender, the first of them partly sent.  It needs
    messages that are not empty and fit into the peer's buffers. *)
Theorem messages_in_order g ds cfg1 cfg2 t1 t2 t3 t4 s0 r0 sent s rs input :
  NewMConnection true true ds cfg1 t1 t2 = Ok s0 -> NewMConnection true true ds cfg2 t3 t4 = Ok r0 ->
  run g (fst (Start s0)) sent s -> Forall (sendable ds) sent ->
  input `prefix_of` w_conn (m_writer s) ->
  exists r, recvRoutine g rs input (fst (Start r0)) = Val r /\
    (forall id, delivered id r `prefix_of` on_channel id sent) /\
    (w_err (m_writer s) = false -> input = w_conn (m_writer s) ->
     forall i cs cr, m_channels s !! i = Some cs -> m_channels r !! i = Some cr ->
     on_channel (d_ID (c_desc cs)) sent =
       delivered (d_ID (c_desc cs)) r ++ outgoing (content (m_arrays r) (c_recving cr)) cs).
Proof.
  intros Hs Hr Hrun Hok Hin. pose proof (NewMConnection_spec _ _ _ _ _ _ _ Hs) as (Hn & _).
  destruct (run_sending g ds _ sent s Hn (new_sending _ _ _ _ _ _ _ Hs) Hrun Hok) as [fs S].
  destruct (recvRoutine_prefix g ds Hn rs fs input (fst (Start r0))) as (fs1 & fs2 & r & -> & E & R & Hall);
    [by eapply new_received|apply S|etrans; [exact Hin|apply S]|].
  exists r. split; [done|]. split.
  - intros id. rewrite (rd_delivered _ _ _ R). etrans; [apply asm_prefix|by eapply sent_prefix].
  - intros He -> i cs cr Hcs Hcr. destruct (sd_wrote _ _ _ _ S) as [_ Hw]. destruct (Hw He) as [Hc _].
    rewrite (Hall Hc), app_nil_r in S.
    rewrite (sd_sent _ _ _ _ S i cs Hcs), (rd_delivered _ _ _ R), (rd_part _ _ _ R i cr Hcr).
    assert (Hd : c_desc cr = c_desc cs).
    { pose proof (wf_channel_desc ds s i cs (sd_shape _ _ _ _ S) Hcs).
      pose proof (wf_channel_desc ds r i cr (wf_shape _ _ (rd_wf _ _ _ R)) Hcr). congruence. }
    by rewrite Hd.
Qed.

(** C20. A signal to the send routine is enough when at most ten packets wait: the turn that
    takes it leaves nothing behind, and the peer receives every message accepted so far on
    every channel. *)
Theorem prompt_delivery g ds cfg1 cfg2 t1 t2 t3 t4 s0 r0 sent s s' b now e rs :
  NewMConnection true true ds cfg1 t1 t2 = Ok s0 -> NewMConnection true true ds cfg2 t3 t4 = Ok r0 ->
  Forall (fun d => d_Priority d < 2 ^ 63) ds ->
  run g (fst (Start s0)) sent s -> Forall (sendable ds) sent ->
  w_err (m_writer s) = false -> pending_packets s <= 10 ->
  send_turn (OnSend now e) s = Some (s', b) -> (forall k, e_fault (e k) = None) ->
  exists r, recvRoutine g rs (w_conn (m_writer s')) (fst (Start r0)) = Val r /\
    forall id, delivered id r = on_channel id sent.
Proof.
  intros Hs Hr Hp Hrun Hok Hw Hten Hturn Hf.
  pose proof (NewMConnection_spec _ _ _ _ _ _ _ Hs) as (Hn & Hv & [W _ _] & _ & Hc0 & _ & _ & _ & Hrn).
  destruct (run_sending g ds _ sent s Hn (new_sending _ _ _ _ _ _ _ Hs) Hrun Hok) as [fs S].
  assert (Hrated : Forall rated (m_channels s)).
  { eapply run_rated; [|exact Hrun]. unfold Start. rewrite Hrn. cbn. apply list.Forall_lookup. intros i ch Hc.
    destruct (Hc0 i ch Hc) as (_ & Hpr & Hrs). unfold rated. rewrite Hpr, Hrs.
    pose proof (wf_channel_desc ds s0 i ch W Hc) as Hd. rewrite list.Forall_lookup in Hp, Hv.
    pose proof (desc_Validate_ok _ (Hv _ _ Hd)) as (Hp1 & _). pose proof (Hp _ _ Hd) as Hp2. cbn beta in Hp2.
    split; lia. }
  destruct (send_turn_sending ds Hn fs sent (OnSend now e) s s' b S Hok Hturn) as [fs' S'].
  cbn [send_turn] in Hturn. destruct (m_send s); [|done]. injection Hturn as Hs' _.
  unfold sendSomeMsgPackets in Hs'. set (s1 := enforceSendLimit now _) in Hs'.
  assert (H1 : m_channels s1 = m_channels s /\ m_writer s1 = m_writer s /\ m_channelsIdx s1 = m_channelsIdx s).
  { subst s1. clear Hs'. unfold enforceSendLimit. by case_match. }
  destruct H1 as (E1 & E2 & E3).
  destruct (batch_drains ds Hn sent e numBatchMsgPackets fs s1) as [Hz Hw']; rewrite ?E1, ?E2; try done.
  { eapply sending_ext; [by rewrite E1|done|rewrite E2; apply S|exact S]. }
  { unfold pending_packets in *. by rewrite E1. }
  rewrite Hs' in Hz, Hw'.
  assert (Hidle : Forall idle (m_channels s')).
  { apply list.Forall_lookup. intros i ch Hc. rewrite list.Forall_lookup in Hz.
    eapply (drained_idle ds Hn fs' sent s'); eauto. }
  destruct (sd_wrote _ _ _ _ S') as [_ Hcw]. destruct (Hcw Hw') as [Hcw' _]. rewrite Hcw'.
  destruct (recvRoutine_prefix g ds Hn rs fs' (stream fs') (fst (Start r0))) as (fs1 & fs2 & r & -> & E & R & Hall);
    [by eapply new_received|apply S'|done|].
  exists r. split; [done|]. intros id. rewrite (rd_delivered _ _ _ R), (idle_sent ds (fs1 ++ fs2) sent s' id S' Hok Hidle).
  by rewrite (Hall eq_refl), app_nil_r.
Qed.

(** Each accepted message pays for one batch of ten packets: beyond 10240 bytes per message,
    what was accepted is still waiting, however long the routines run. *)
Theorem send_budget g ds cfg t1 t2 s0 sent s :
  NewMConnection true true ds cfg t1 t2 = Ok s0 -> run g (fst (Start s0)) sent s ->
  sent_bytes sent <= pending_bytes s + 10240 * len sent.
Proof.
  intros Hs Hrun. pose proof (new_budget g ds cfg t1 t2 s0 sent s Hs Hrun) as Hb.
  destruct (m_send s); cbn [Z.b2z] in Hb; lia.
Qed.

(** A single message of more than 10240 bytes is never delivered: the send routine forgets
    that it has more to send, and waits for a signal only the next message gives. *)
Theorem large_message_stalls g ds cfg1 cfg2 t1 t2 t3 t4 s0 r0 id msg s rs input :
  NewMConnection true true ds cfg1 t1 t2 = Ok s0 -> NewMConnection true true ds cfg2 t3 t4 = Ok r0 ->
  run g (fst (Start s0)) [(id, msg)] s -> sendable ds (id, msg) -> 10240 < len msg ->
  input `prefix_of` w_conn (m_writer s) ->
  exists r, recvRoutine g rs input (fst (Start r0)) = Val r /\ delivered id r = [].
Proof.
  intros Hs Hr Hrun Hok Hbig Hin. pose proof (NewMConnection_spec _ _ _ _ _ _ _ Hs) as (Hn & _).
  assert (Hok' : Forall (sendable ds) [(id, msg)]) by (by constructor).
  destruct (run_sending g ds _ _ s Hn (new_sending _ _ _ _ _ _ _ Hs) Hrun Hok') as [fs S].
  destruct (recvRoutine_prefix g ds Hn rs fs input (fst (Start r0))) as (fs1 & fs2 & r & -> & E & R & _);
    [by eapply new_received|apply S|etrans; [exact Hin|apply S]|].
  exists r. split; [done|]. rewrite (rd_delivered _ _ _ R).
  pose proof (asm_prefix id fs1 fs2) as Hp1. pose proof (sent_prefix ds (fs1 ++ fs2) _ s id Hn S) as Hp2.
  rewrite on_channel_one, bool_decide_true in Hp2 by done. cbn [snd] in Hp2.
  destruct (fst (asm id (fs1 ++ fs2))) as [|x l] eqn:Ea; [by apply prefix_nil_inv in Hp1|exfalso].
  assert (Hidle : Forall idle (m_channels s)).
  { apply list.Forall_lookup. intros i ch Hc. pose proof (sd_sent _ _ _ _ S i ch Hc) as Hsent.
    assert (Ho : outgoing (snd (asm (d_ID (c_desc ch)) (fs1 ++ fs2))) ch = []).
    { rewrite on_channel_one in Hsent. cbn [fst snd] in Hsent. case_bool_decide as Eid.
      - rewrite <- Eid, Ea in Hsent. injection Hsent as _ Hsent. symmetry in Hsent.
        by apply app_eq_nil in Hsent as [_ ?]; subst.
      - symmetry in Hsent. by apply app_eq_nil in Hsent as [_ ?]. }
    unfold outgoing in Ho. apply app_eq_nil in Ho as [Ho1 Ho2]. split; [|done]. by destruct (c_sending ch). }
  pose proof (new_budget g ds cfg1 t1 t2 s0 [(id, msg)] s Hs Hrun) as Hb. unfold pending_bytes in Hb.
  rewrite (idle_bytes _ Hidle) in Hb. unfold sent_bytes, sumZ, len in *. cbn [map foldr snd length] in Hb.
  destruct (m_send s); cbn [Z.b2z] in Hb; lia.
Qed.

(** The rate limit pauses a connection that is ahead of its rate by less than a second, and
    not one that is further ahead. *)
Theorem limit_lifted :
  limit_pause 512000 500000000 (mkFlow 600000 0 0 (f64_of_Z 0)) = Some 671875000 /\
  limit_pause 512000 500000000 (mkFlow 800000 0 0 (f64_of_Z 0)) = None.
Proof. split; vm_compute; reflexivity. Qed.

(** * Witnesses *)
Definition sample_descs : list ChannelDescriptor := [mkDesc 1 5 2 8 64; mkDesc 2 3 2 8 64].
Definition sample_conn : MConnection :=
  match NewMConnection true true sample_descs DefaultMConnConfig 0 0 with
  | Ok m => m
  | Err _ => mkMConn (mkWriter [] [] false) [] ∅ (NewFlowRate 0) (NewFlowRate 0) false false
               DefaultMConnConfig false false false 0 0 [] []
  end.
Definition sample_grow (old needed : nat) : nat := Nat.max needed (2 * old).
Definition sample_times : Times := mkTimes 1 2.
Definition sample_env (k : nat) : Env := mkEnv None sample_times.
Definition sample_rounds (k : nat) : Round := mkRound 1 sample_times sample_times 3.
Definition sample_queued : MConnection :=
  match Send 2 [7; 8; 9] (fst (Start sample_conn)) with
  | Some (m, _) => fst (TrySend 1 [5] m)
  | None => sample_conn
  end.
Definition sample_messages : list (Z * list Z) := [(2, [7; 8; 9]); (1, [5])].
Definition sample_sent : MConnection :=
  match send_turn (OnSend 1 sample_env) sample_queued with
  | Some (m, _) => m
  | None => sample_queued
  end.

Lemma sample_new : NewMConnection true true sample_descs DefaultMConnConfig 0 0 = Ok sample_conn.
Proof. vm_compute. reflexivity. Qed.

Lemma sample_sendable : Forall (sendable sample_descs) sample_messages.
Proof.
  repeat constructor; try done; [exists 1%nat|exists 0%nat]; eexists; (split; [reflexivity|]); done.
Qed.

Lemma sample_conn_run : run sample_grow (fst (Start sample_conn)) sample_messages sample_queued.
Proof.
  change sample_messages with (([] ++ [(2, [7; 8; 9])]) ++ [(1, [5])]).
  apply (run_trysend _ _ _ (match Send 2 [7; 8; 9] (fst (Start sample_conn)) with
                            | Some (m, _) => m | None => sample_conn end) _ 1 [5] true).
  - apply (run_send _ _ _ (fst (Start sample_conn)) _ 2 [7; 8; 9] true); [constructor|].
    vm_compute. reflexivity.
  - vm_compute. reflexivity.
Qed.

Lemma sample_turn : send_turn (OnSend 1 sample_env) sample_queued = Some (sample_sent, true).
Proof. vm_compute. reflexivity. Qed.

Lemma messages_in_order_witness :
  exists r, recvRoutine sample_grow sample_rounds (w_conn (m_writer sample_sent)) (fst (Start sample_conn)) = Val r /\
    forall id, delivered id r `prefix_of` on_channel id sample_messages.
Proof.
  destruct (messages_in_order sample_grow sample_descs DefaultMConnConfig DefaultMConnConfig 0 0 0 0
    sample_conn sample_conn sample_messages sample_sent sample_rounds (w_conn (m_writer sample_sent)))
    as (r & E & Hd & _).
  - exact sample_new.
  - exact sample_new.
  - exact (run_turn _ _ _ _ _ _ _ sample_conn_run sample_turn).
  - exact sample_sendable.
  - reflexivity.
  - exists r. split; [exact E|exact Hd].
Defined.

Lemma prompt_delivery_witness :
  exists r, recvRoutine sample_grow sample_rounds (w_conn (m_writer sample_sent)) (fst (Start sample_conn)) = Val r /\
    forall id, delivered id r = on_channel id sample_messages.
Proof.
  apply (prompt_delivery sample_grow sample_descs DefaultMConnConfig DefaultMConnConfig 0 0 0 0
    sample_conn sample_conn sample_messages sample_queued sample_sent true 1 sample_env sample_rounds).
  - exact sample_new.
  - exact sample_new.
  - repeat constructor.
  - exact sample_conn_run.
  - exact sample_sendable.
  - reflexivity.
  - vm_compute. discriminate.
  - exact sample_turn.
  - reflexivity.
Defined.

(** The packets of a long message stay behind after one turn. *)
Example long_message_left :
  match Send 2 (replicate 10300 1) (fst (Start
          (match NewMConnection true true [mkDesc 2 3 2 8 20000] DefaultMConnConfig 0 0 with
           | Ok m => m | Err _ => sample_conn end))) with
  | Some (m, _) => option_map (fun x => (pending_bytes (fst x), m_send (fst x))) (send_turn (OnSend 1 sample_env) m)
  | None => None
  end = Some (60, false).
Proof. vm_compute. reflexivity. Qed.
