(* ===== verification/CompactBlock.v ===== *)
(** * Compact blocks

    [network/reactor/compact_block.go], [compact_block_config.go], [compact_block_metrics.go]
    and the handlers of [reactor_handlers.go]: a block is announced by its header, its
    coinbase and short identifiers of its transactions; the receiver looks these up in its
    mempool and asks for what is missing.  Messages are values, without their JSON. *)

From S2P Require Import Prelude Bytes Sha256 Float Transaction Mempool Chain.
From stdpp Require Import base list strings numbers gmap fin_maps.
From Stdlib Require Import ZArith Lia.

Open Scope Z_scope.
Open Scope go_scope.

Definition ShortTxIDBytes : Z := 4.
Definition SipHashFiller : Z := 16045690984503098046.
Definition ShortIDMask : Z := 281474976710655.
Definition CompactBlockV2SaltThreshold : Z := 5000.

(** ** SipHash-2-4 *)
Definition rotl64 (x : Z) (k : Z) : Z := Z.lor (u64 (Z.shiftl x k)) (Z.shiftr x (64 - k)).

Record Sip := mkSip { v0 : Z; v1 : Z; v2 : Z; v3 : Z }.

Definition sipRound (s : Sip) : Sip :=
  let a0 := u64 (v0 s + v1 s) in
  let a2 := u64 (v2 s + v3 s) in
  let a1 := rotl64 (v1 s) 13 in
  let a3 := rotl64 (v3 s) 16 in
  let b1 := Z.lxor a1 a0 in
  let b3 := Z.lxor a3 a2 in
  let b0 := rotl64 a0 32 in
  let b2 := u64 (a2 + b1) in
  let c0 := u64 (b0 + b3) in
  let c1 := rotl64 b1 17 in
  let c3 := rotl64 b3 21 in
  let d1 := Z.lxor c1 b2 in
  let d3 := Z.lxor c3 c0 in
  let d2 := rotl64 b2 32 in
  mkSip c0 d1 d2 d3.

(** One message word: two rounds between the two exclusive ors. *)
Definition sip_word (m : Z) (s : Sip) : Sip :=
  let s1 := mkSip (v0 s) (v1 s) (v2 s) (Z.lxor (v3 s) m) in
  let s2 := sipRound (sipRound s1) in
  mkSip (Z.lxor (v0 s2) m) (v1 s2) (v2 s2) (v3 s2).

Fixpoint sip_blocks (n : nat) (msg : list Z) (s : Sip) : Sip :=
  match n with
  | O => s
  | S n' => sip_blocks n' (drop 8 msg) (sip_word (le_val (take 8 msg)) s)
  end.

Definition siphash244 (k0 k1 : Z) (msg : list Z) : Z :=
  let s0 := mkSip (Z.lxor 8317987319222330741 k0) (Z.lxor 7237128888997146477 k1)
              (Z.lxor 7816392313619706465 k0) (Z.lxor 8387220255154660723 k1) in
  let n := length msg in
  let s1 := sip_blocks (n / 8) msg s0 in
  let last := Z.lor (u64 (Z.shiftl (Z.of_nat n) 56)) (le_val (drop (n / 8 * 8) msg)) in
  let s2 := sip_word last s1 in
  let s3 := mkSip (v0 s2) (v1 s2) (Z.lxor (v2 s2) 255) (v3 s2) in
  let s4 := sipRound (sipRound (sipRound (sipRound s3))) in
  Z.lxor (Z.lxor (Z.lxor (v0 s4) (v1 s4)) (v2 s4)) (v3 s4).

Definition computeV2ShortID (k0 k1 : Z) (rawTxHash : list Z) : Z :=
  if len rawTxHash =? 0 then 0 else Z.land (siphash244 k0 k1 rawTxHash) ShortIDMask.

(** ** Messages *)
Record CompactBlockMsg := mkCompact {
  cb_Header : BlockHeader;
  cb_Height : Z;
  cb_CoinbaseTx : option Transaction;
  cb_PrevHash : string;
  cb_Nonce : Z;
  cb_FullHash : string;
  cb_Version : Z;
  cb_ShortTxIDs_v2 : list Z;
  cb_SaltTxIDs_v2 : list Z;
  cb_ShortTxIDs : list string }.

Record MissingTxRequest := mkMissing { mr_BlockHeight : Z; mr_BlockHash : string; mr_TxIDs : list string }.
Record SyncTxResponse := mkTxResponse { sr_BlockHash : string; sr_Tx : Transaction }.

(** What reconstruction asks of the transaction pool; the order of the identifiers is that
    of ranging over a map. *)
Class MempoolInterface (P : Type) := {
  GetTx : string -> P -> option Transaction;
  GetTxIDs : P -> list string;
  pool_Size : P -> Z }.

Class MempoolLaws (P : Type) `{MempoolInterface P} : Prop := {
  listed_get : forall (p : P) (id : string), id ∈ GetTxIDs p -> is_Some (GetTx id p);
  listed_once : forall p : P, NoDup (GetTxIDs p) }.

(** The short identifier of a transaction identifier; [None] for what is no hash. *)
Definition sid_of (k0 k1 : Z) (txID : string) : option Z :=
  match hex_decode txID with
  | Ok rawHash => if negb (len rawHash =? 32) then None else Some (computeV2ShortID k0 k1 rawHash)
  | Err _ => None
  end.

Definition short_ids (k0 k1 : Z) (txs : list Transaction) : list Z :=
  omap (fun tx => match TxIDHex tx with Ok txID => sid_of k0 k1 txID | Err _ => None end) txs.

Definition BuildCompactBlockV2 (block : option Block) (sessionNonce : Z) : option CompactBlockMsg :=
  match block with
  | None => None
  | Some b =>
      if len (b_Transactions b) =? 0 then None
      else
        let k0 := sessionNonce in
        let k1 := Z.lxor k0 SipHashFiller in
        Some (mkCompact (b_Header b) (b_Height b) (b_CoinbaseTx b)
                (hex_encode (h_PrevHash (b_Header b))) sessionNonce (hex_encode (b_Hash b)) 2
                (short_ids k0 k1 (b_Transactions b)) [] [])
  end.

(** [generateSessionNonce] is the argument. *)
Definition BuildCompactBlock (nonce : Z) (block : option Block) : option CompactBlockMsg :=
  BuildCompactBlockV2 block nonce.

Definition short_prefix (idBytes : Z) (fullID : string) : string :=
  if idBytes * 2 <? strlen fullID then String.substring 0 (Z.to_nat (idBytes * 2)) fullID else fullID.

Definition BuildCompactBlockLegacy (block : option Block) : option CompactBlockMsg :=
  match block with
  | None => None
  | Some b =>
      if len (b_Transactions b) =? 0 then None
      else
        Some (mkCompact (b_Header b) (b_Height b) (b_CoinbaseTx b)
                (hex_encode (h_PrevHash (b_Header b))) (h_Nonce (b_Header b)) (hex_encode (b_Hash b)) 0
                [] [] (map (fun tx => short_prefix ShortTxIDBytes (GetID tx)) (b_Transactions b)))
  end.

Definition set_salt (salt : list Z) (cb : CompactBlockMsg) : CompactBlockMsg :=
  mkCompact (cb_Header cb) (cb_Height cb) (cb_CoinbaseTx cb) (cb_PrevHash cb) (cb_Nonce cb)
    (cb_FullHash cb) (cb_Version cb) (cb_ShortTxIDs_v2 cb) salt (cb_ShortTxIDs cb).

(** ** Reconstruction *)
Section reconstruct.
Context {P : Type} `{MempoolInterface P}.

Definition BuildCompactBlockV2WithMempool (block : option Block) (sessionNonce : Z) (mp : option P)
  : option CompactBlockMsg :=
  match BuildCompactBlockV2 block sessionNonce, mp with
  | Some msg, Some p =>
      if CompactBlockV2SaltThreshold <? pool_Size p
      then Some (set_salt (omap (sid_of sessionNonce (Z.lxor sessionNonce SipHashFiller)) (GetTxIDs p)) msg)
      else Some msg
  | r, _ => r
  end.

(** [m[k] = append(m[k], x)] *)
Definition push {K : Type} `{Countable K} (k : K) (x : string) (m : gmap K (list string)) : gmap K (list string) :=
  <[k := default [] (m !! k) ++ [x]]> m.

Definition buildShortCollisionMap (allTxIDs : list string) (idBytes : Z) : gmap string (list string) :=
  foldl (fun m fullID => push (short_prefix idBytes fullID) fullID m) ∅ allTxIDs.

Definition sid_map (k0 k1 : Z) (allTxIDs : list string) : gmap Z (list string) :=
  foldl (fun m fullID => match sid_of k0 k1 fullID with
                         | Some sid => push sid fullID m
                         | None => m
                         end) ∅ allTxIDs.

(** The first candidate the pool still has. *)
Fixpoint first_tx (candidates : list string) (mp : P) : option Transaction :=
  match candidates with
  | [] => None
  | fullID :: rest => match GetTx fullID mp with Some tx => Some tx | None => first_tx rest mp end
  end.

(** One short identifier: a transaction, or what to ask for. *)
Definition match_id {K : Type} `{Countable K} (name : K -> string) (m : gmap K (list string)) (mp : P) (k : K)
  : Transaction + string :=
  match m !! k with
  | None => inr (name k)
  | Some candidates =>
      match first_tx candidates mp with
      | Some tx => inl tx
      | None => inr (default ""%string (head candidates))
      end
  end.

Definition founds (l : list (Transaction + string)) : list Transaction :=
  omap (fun x => match x with inl tx => Some tx | inr _ => None end) l.
Definition missings (l : list (Transaction + string)) : list string :=
  omap (fun x => match x with inl _ => None | inr id => Some id end) l.

Definition rebuilt (cb : CompactBlockMsg) (txs : list Transaction) (missing : list string)
  : result (Block * list string) :=
  let? blockHash := wrap "decode block hash" (hex_decode (cb_FullHash cb)) in
  Ok (mkBlock blockHash (cb_Height cb) (cb_Header cb) txs (cb_CoinbaseTx cb)
        (h_MinerAddress (cb_Header cb)) "", missing).

(** [fmt.Sprintf("sid:%016x", sid)] *)
Definition sid_name (sid : Z) : string := "sid:" +:+ hex_encode (rev (le_bytes 8 sid)).

Definition reconstructBlockLegacy (cb : CompactBlockMsg) (coinbase : Transaction) (mp : P)
  : result (Block * list string) :=
  let shortCollisions := buildShortCollisionMap (GetTxIDs mp) ShortTxIDBytes in
  let r := map (match_id id shortCollisions mp) (cb_ShortTxIDs cb) in
  rebuilt cb (coinbase :: founds r) (missings r).

Definition reconstructBlockV2Naive (cb : CompactBlockMsg) (coinbase : Transaction) (k0 k1 : Z) (mp : P)
  : result (Block * list string) :=
  let r := map (match_id sid_name (sid_map k0 k1 (GetTxIDs mp)) mp) (cb_ShortTxIDs_v2 cb) in
  rebuilt cb (coinbase :: founds r) (missings r).

(** The zero value of a transaction. *)
Definition zero_tx : Transaction := mkTransaction "" 0 None "" 0 0 0 "" None.

Fixpoint sid_positions (pos : nat) (sids : list Z) (m : gmap Z nat) : gmap Z nat :=
  match sids with
  | [] => m
  | sid :: rest => sid_positions (S pos) rest (<[sid := pos]> m)
  end.

(** The body of the pass over the pool: where a matching transaction goes. *)
Definition record_found (k0 k1 : Z) (saltSet : gset Z) (blockSIDPos : gmap Z nat) (mp : P)
    (m : gmap nat Transaction) (fullID : string) : gmap nat Transaction :=
  match sid_of k0 k1 fullID with
  | Some sid =>
      if bool_decide (sid ∈ saltSet) then
        match blockSIDPos !! sid, GetTx fullID mp with
        | Some pos, Some tx => <[pos := tx]> m
        | _, _ => m
        end
      else m
  | None => m
  end.

Definition found_map (k0 k1 : Z) (saltSet : gset Z) (blockSIDPos : gmap Z nat) (mp : P) : gmap nat Transaction :=
  foldl (record_found k0 k1 saltSet blockSIDPos mp) ∅ (GetTxIDs mp).

Definition reconstructBlockV2WithSalt (cb : CompactBlockMsg) (coinbase : Transaction) (k0 k1 : Z) (mp : P)
  : result (Block * list string) :=
  let saltSet := list_to_set (cb_SaltTxIDs_v2 cb) in
  let blockSIDPos := sid_positions 0 (cb_ShortTxIDs_v2 cb) ∅ in
  let foundMap := found_map k0 k1 saltSet blockSIDPos mp in
  let txs := imap (fun pos _ => default zero_tx (foundMap !! pos)) (cb_ShortTxIDs_v2 cb) in
  let missing := omap id (imap (fun pos sid => match foundMap !! pos with
                                               | Some _ => None
                                               | None => Some (sid_name sid)
                                               end) (cb_ShortTxIDs_v2 cb)) in
  rebuilt cb (coinbase :: txs) missing.

Definition reconstructBlockV2 (cb : CompactBlockMsg) (coinbase : Transaction) (mp : option P)
  : result (Block * list string) :=
  match mp with
  | None => Err "mempool not available for reconstruction"
  | Some p =>
      let k0 := cb_Nonce cb in
      let k1 := Z.lxor k0 SipHashFiller in
      if CompactBlockV2SaltThreshold <? pool_Size p
      then reconstructBlockV2WithSalt cb coinbase k0 k1 p
      else reconstructBlockV2Naive cb coinbase k0 k1 p
  end.

Definition ReconstructBlock (cb : option CompactBlockMsg) (mp : option P) : result (Block * list string) :=
  match cb with
  | None => Err "compact block is nil"
  | Some cb =>
      match cb_CoinbaseTx cb with
      | None => Err "compact block missing coinbase transaction"
      | Some coinbase =>
          match mp with
          | None => Err "mempool not available for reconstruction"
          | Some p =>
              if (2 <=? cb_Version cb) && (0 <? len (cb_ShortTxIDs_v2 cb))
              then reconstructBlockV2 cb coinbase (Some p)
              else reconstructBlockLegacy cb coinbase p
          end
      end
  end.
End reconstruct.

(** ** Packed identifiers *)
Definition EncodeShortIDsBinary (ids : list Z) : list Z :=
  concat (map (fun id => [u8 id; u8 (Z.shiftr id 8); u8 (Z.shiftr id 16); u8 (Z.shiftr id 24);
                          u8 (Z.shiftr id 32); u8 (Z.shiftr id 40)]) ids).

Fixpoint decode_ids (n : nat) (data : list Z) : list Z :=
  match n with
  | O => []
  | S n' =>
      let at_ i := default 0 (data !! i) in
      Z.lor (Z.lor (Z.lor (Z.lor (Z.lor (at_ 0%nat) (Z.shiftl (at_ 1%nat) 8)) (Z.shiftl (at_ 2%nat) 16))
        (Z.shiftl (at_ 3%nat) 24)) (Z.shiftl (at_ 4%nat) 32)) (Z.shiftl (at_ 5%nat) 40)
      :: decode_ids n' (drop 6 data)
  end.

Definition DecodeShortIDsBinary (data : list Z) : result (list Z) :=
  fail_if (negb (Z.of_nat (length data mod 6) =? 0)) "short ID data length not multiple of 6" ;;?
  Ok (decode_ids (length data / 6) data).

(** ** Pending reconstructions *)
Record PendingReconstruction := mkPending {
  pr_Block : Block;
  pr_MissingIDs : list string;
  pr_MissingMap : gmap string nat;
  pr_ReceivedTxs : Z;
  pr_TotalMissing : Z;
  pr_CreatedAt : Z;
  pr_PeerID : string;
  pr_Deadline : Z }.

Abbreviation Pendings := (gmap string PendingReconstruction).

Record PendingPool := mkPool { pp_pending : Pendings; pp_maxSize : Z; pp_ttl : Z }.

Definition NewCompactBlockPendingPool (maxSize ttl : Z) : PendingPool := mkPool ∅ maxSize ttl.

Definition set_pending (m : Pendings) (pp : PendingPool) : PendingPool := mkPool m (pp_maxSize pp) (pp_ttl pp).

(** [range] is the order in which the loop visits the map. *)
Definition Register (range : Pendings -> list (string * PendingReconstruction)) (now : Z) (blockHash : string)
    (pr : PendingReconstruction) (pp : PendingPool) : PendingPool * result unit :=
  let put (m : Pendings) := (set_pending (<[blockHash := pr]> m) pp, Ok tt) in
  if pp_maxSize pp <=? Z.of_nat (size (pp_pending pp)) then
    match find (fun kv => pr_Deadline (snd kv) <? now) (range (pp_pending pp)) with
    | Some (oldestExpired, _) =>
        if str_eqb oldestExpired "" then (pp, Err "pending pool full")
        else put (delete oldestExpired (pp_pending pp))
    | None => (pp, Err "pending pool full")
    end
  else put (pp_pending pp).

Definition set_tx (idx : nat) (tx : Transaction) (b : Block) : Block :=
  mkBlock (b_Hash b) (b_Height b) (b_Header b) (<[idx := tx]> (b_Transactions b)) (b_CoinbaseTx b)
    (b_MinerAddress b) (b_TotalWork b).

(** The block when it is complete. *)
Definition AddTx (blockHash : string) (tx : Transaction) (pp : PendingPool) : PendingPool * result (option Block) :=
  match pp_pending pp !! blockHash with
  | None => (pp, Err "no pending reconstruction for block")
  | Some pr =>
      match TxIDHex tx with
      | Err e => (pp, Err ("compute txid: " +:+ e))
      | Ok txID =>
          match pr_MissingMap pr !! txID with
          | None => (pp, Ok None)
          | Some idx =>
              if (length (b_Transactions (pr_Block pr)) <=? idx)%nat
              then (pp, Err "tx index out of range")
              else
                let pr' := mkPending (set_tx idx tx (pr_Block pr)) (pr_MissingIDs pr) (pr_MissingMap pr)
                             (pr_ReceivedTxs pr + 1) (pr_TotalMissing pr) (pr_CreatedAt pr)
                             (pr_PeerID pr) (pr_Deadline pr) in
                if pr_TotalMissing pr' <=? pr_ReceivedTxs pr'
                then (set_pending (delete blockHash (pp_pending pp)) pp, Ok (Some (pr_Block pr')))
                else (set_pending (<[blockHash := pr']> (pp_pending pp)) pp, Ok None)
          end
      end
  end.

Definition Expire (range : Pendings -> list (string * PendingReconstruction)) (now : Z) (pp : PendingPool)
  : PendingPool * list PendingReconstruction :=
  let is_late (pr : PendingReconstruction) := pr_Deadline pr <? now in
  (set_pending (filter (fun kv => is_late (snd kv) = false) (pp_pending pp)) pp,
   map snd (filter (fun kv => is_late (snd kv) = true) (range (pp_pending pp)))).

Definition pending_Size (pp : PendingPool) : Z := Z.of_nat (size (pp_pending pp)).

(** ** Preferences of the peers *)
Definition MaxHighBandwidthPeers : Z := 3.

Record PeerCompactPreference := mkPref { pf_Version : Z; pf_HighBW : bool; pf_UpdatedAt : Z }.
Abbreviation Prefs := (gmap string PeerCompactPreference).

Definition prefs_Set (peerID : string) (pref : PeerCompactPreference) (p : Prefs) : Prefs := <[peerID := pref]> p.
Definition prefs_Get (peerID : string) (p : Prefs) : option PeerCompactPreference := p !! peerID.
Definition prefs_Remove (peerID : string) (p : Prefs) : Prefs := delete peerID p.

Definition HighBandwidthCount (p : Prefs) : Z :=
  Z.of_nat (size (filter (fun kv : string * PeerCompactPreference => pf_HighBW (snd kv) = true) p)).

Definition IsHighBandwidthPeer (peerID : string) (p : Prefs) : bool :=
  match p !! peerID with Some pref => pf_HighBW pref | None => false end.

Definition HasStaleHighBandwidthPeer (staleThreshold now : Z) (p : Prefs) : bool :=
  existsb (fun kv => pf_HighBW (snd kv) && (staleThreshold <? since now (pf_UpdatedAt (snd kv)))) (map_to_list p).

Definition HighBandwidthPeers (range : Prefs -> list (string * PeerCompactPreference)) (p : Prefs) : list string :=
  map fst (List.filter (fun kv => pf_HighBW (snd kv)) (range p)).

Definition LowBandwidthPeers (range : Prefs -> list (string * PeerCompactPreference)) (p : Prefs) : list string :=
  map fst (List.filter (fun kv => negb (pf_HighBW (snd kv)) && (2 <=? pf_Version (snd kv))) (range p)).

(** ** Metrics *)
Record CompactBlockMetrics := mkMetrics {
  CompactBlocksReceived : Z; CompactBlocksSent : Z; FullReconstructions : Z; PartialReconstructions : Z;
  FailedReconstructions : Z; MissingTxRequestsSent : Z; MissingTxResponsesRecv : Z;
  totalReconTimeNanos : Z; totalReconCount : Z; totalTxMatched : Z; totalTxMissing : Z }.

Definition no_metrics : CompactBlockMetrics := mkMetrics 0 0 0 0 0 0 0 0 0 0 0.

Definition count_received (full : bool) (m : CompactBlockMetrics) : CompactBlockMetrics :=
  mkMetrics (u64 (CompactBlocksReceived m + 1)) (CompactBlocksSent m)
    (if full then u64 (FullReconstructions m + 1) else FullReconstructions m)
    (if full then PartialReconstructions m else u64 (PartialReconstructions m + 1))
    (FailedReconstructions m)
    (if full then MissingTxRequestsSent m else u64 (MissingTxRequestsSent m + 1))
    (MissingTxResponsesRecv m) (totalReconTimeNanos m) (totalReconCount m) (totalTxMatched m) (totalTxMissing m).

Definition count_response (m : CompactBlockMetrics) : CompactBlockMetrics :=
  mkMetrics (CompactBlocksReceived m) (CompactBlocksSent m) (FullReconstructions m) (PartialReconstructions m)
    (FailedReconstructions m) (MissingTxRequestsSent m) (u64 (MissingTxResponsesRecv m + 1))
    (totalReconTimeNanos m) (totalReconCount m) (totalTxMatched m) (totalTxMissing m).

Definition count_failed (m : CompactBlockMetrics) : CompactBlockMetrics :=
  mkMetrics (CompactBlocksReceived m) (CompactBlocksSent m) (FullReconstructions m) (PartialReconstructions m)
    (u64 (FailedReconstructions m + 1)) (MissingTxRequestsSent m) (MissingTxResponsesRecv m)
    (totalReconTimeNanos m) (totalReconCount m) (totalTxMatched m) (totalTxMissing m).

Definition RecordReconstruction (matched missing duration : Z) (m : CompactBlockMetrics) : CompactBlockMetrics :=
  mkMetrics (CompactBlocksReceived m) (CompactBlocksSent m)
    (if missing =? 0 then u64 (FullReconstructions m + 1) else FullReconstructions m)
    (if missing =? 0 then PartialReconstructions m else u64 (PartialReconstructions m + 1))
    (FailedReconstructions m) (MissingTxRequestsSent m) (MissingTxResponsesRecv m)
    (u64 (totalReconTimeNanos m + u64 duration)) (u64 (totalReconCount m + 1))
    (u64 (totalTxMatched m + u64 matched)) (u64 (totalTxMissing m + u64 missing)).

Definition AverageReconTime (m : CompactBlockMetrics) : Z :=
  if totalReconCount m =? 0 then 0 else i64 (totalReconTimeNanos m / totalReconCount m).

Definition MemPoolHitRate (m : CompactBlockMetrics) : float64 :=
  let total := u64 (totalTxMatched m + totalTxMissing m) in
  if total =? 0 then f64_of_Z 0 else f64_div (f64_of_Z (totalTxMatched m)) (f64_of_Z total).

Definition estimateMempoolCoverage (m : CompactBlockMetrics) : float64 :=
  let rate := MemPoolHitRate m in
  if SpecFloat.SFeqb rate (f64_of_Z 0) then f64_const 95 100 else rate.

(** The reason is without the percentage. *)
Definition compactBlockDecision (block : Block) (peerID : string) (prefs : Prefs) (m : CompactBlockMetrics)
  : bool * string :=
  if IsHighBandwidthPeer peerID prefs then (true, "high_bandwidth_peer"%string)
  else if len (b_Transactions block) <? 10 then (false, "small_block"%string)
  else if f64_ltb (estimateMempoolCoverage m) (f64_const 85 100) && (50 <? len (b_Transactions block))
  then (false, "low_coverage"%string)
  else (true, "compact_beneficial"%string).

(** ** Handlers *)
Inductive outgoing_msg : Type :=
| MissingReq (req : MissingTxRequest)
| TxResp (resp : SyncTxResponse)
| SendCmpct (version : Z) (announce : bool).

(** What the handlers share, with the chain they feed and the messages they sent. *)
Record Relay (C : Type) := mkRelay {
  rl_pool : PendingPool; rl_prefs : Prefs; rl_metrics : CompactBlockMetrics; rl_chain : C;
  rl_outbox : list (string * outgoing_msg) }.
Arguments mkRelay {C}.
Arguments rl_pool {C}.
Arguments rl_prefs {C}.
Arguments rl_metrics {C}.
Arguments rl_chain {C}.
Arguments rl_outbox {C}.

Section handlers.
Context {P C : Type} `{MempoolInterface P}.
(** [Chain.AddBlock], and whether the switch takes a message for a peer. *)
Variable add_block : Block -> M C (result bool).
Variable switch_Send : string -> outgoing_msg -> bool.
Variable range : Pendings -> list (string * PendingReconstruction).

Definition set_pool (x : PendingPool) (h : Relay C) : Relay C :=
  mkRelay x (rl_prefs h) (rl_metrics h) (rl_chain h) (rl_outbox h).
Definition set_prefs (x : Prefs) (h : Relay C) : Relay C :=
  mkRelay (rl_pool h) x (rl_metrics h) (rl_chain h) (rl_outbox h).
Definition upd_metrics (f : CompactBlockMetrics -> CompactBlockMetrics) (h : Relay C) : Relay C :=
  mkRelay (rl_pool h) (rl_prefs h) (f (rl_metrics h)) (rl_chain h) (rl_outbox h).

(** [sw.Send] *)
Definition relay_Send (peerID : string) (m : outgoing_msg) : M (Relay C) bool := fun h =>
  let ok := switch_Send peerID m in
  Val (if ok then mkRelay (rl_pool h) (rl_prefs h) (rl_metrics h) (rl_chain h) (rl_outbox h ++ [(peerID, m)])
       else h, ok).

Definition relay_AddBlock (b : Block) : M (Relay C) (result bool) := fun h =>
  res_bind (add_block b (rl_chain h)) (fun '(c, r) =>
    Val (mkRelay (rl_pool h) (rl_prefs h) (rl_metrics h) c (rl_outbox h), r)).

(** Positions of the transactions that are known, by identifier. *)
Definition tx_positions (txs : list Transaction) : gmap string nat :=
  foldl (fun m '(pos, tx) => match TxIDHex tx with Ok txID => <[txID := pos]> m | Err _ => m end) ∅
    (imap pair txs).

Definition missing_map (txIDPos : gmap string nat) (missingIDs : list string) : gmap string nat :=
  foldl (fun m txID => match txIDPos !! txID with Some pos => <[txID := pos]> m | None => m end) ∅ missingIDs.

Definition OnCompactBlock (mempool : option P) (now : Z) (peerID : string) (cb : CompactBlockMsg)
  : M (Relay C) (result unit) :=
  match mempool with
  | None => ret (Err "sync handler: mempool not available for compact block")
  | Some mp =>
      match ReconstructBlock (Some cb) (Some mp) with
      | Err e => ret (Err ("reconstruct compact block: " +:+ e))
      | Ok (reconstructed, missingIDs) =>
          if len missingIDs =? 0 then
            let* r := relay_AddBlock reconstructed in
            match r with
            | Err e => ret (Err ("add reconstructed block: " +:+ e))
            | Ok _ => modify (upd_metrics (count_received true)) ;;* ret (Ok tt)
            end
          else
            let pr := mkPending reconstructed missingIDs
                        (missing_map (tx_positions (b_Transactions reconstructed)) missingIDs)
                        0 (len missingIDs) now peerID (now + 10 * 1000000000) in
            let* h := get in
            let '(pool, r) := Register range now (cb_FullHash cb) pr (rl_pool h) in
            modify (set_pool pool) ;;*
            match r with
            | Err e => ret (Err ("register pending: " +:+ e))
            | Ok _ =>
                let* ok := relay_Send peerID (MissingReq (mkMissing (cb_Height cb) (cb_FullHash cb) missingIDs)) in
                if negb ok then ret (Err "send missing tx request failed")
                else modify (upd_metrics (count_received false)) ;;* ret (Ok tt)
            end
      end
  end.

Fixpoint answer_missing (mp : P) (peerID blockHash : string) (txIDs : list string) : M (Relay C) unit :=
  match txIDs with
  | [] => ret tt
  | txID :: rest =>
      match GetTx txID mp with
      | None => answer_missing mp peerID blockHash rest
      | Some tx =>
          let* _ := relay_Send peerID (TxResp (mkTxResponse blockHash tx)) in
          answer_missing mp peerID blockHash rest
      end
  end.

Definition OnMissingTxRequest (mempool : option P) (peerID : string) (req : MissingTxRequest)
  : M (Relay C) (result unit) :=
  match mempool with
  | None => ret (Err "sync handler: mempool not available")
  | Some mp => answer_missing mp peerID (mr_BlockHash req) (mr_TxIDs req) ;;* ret (Ok tt)
  end.

(** [duration] is the time the handler took. *)
Definition OnSyncTxResponse (duration : Z) (blockHash : string) (tx : Transaction) : M (Relay C) (result unit) :=
  let* h := get in
  let '(pool, r) := AddTx blockHash tx (rl_pool h) in
  modify (set_pool pool) ;;*
  match r with
  | Err e => ret (Err ("add tx to pending reconstruction: " +:+ e))
  | Ok completeBlock =>
      modify (upd_metrics count_response) ;;*
      match completeBlock with
      | None => ret (Ok tt)
      | Some b =>
          let* added := relay_AddBlock b in
          match added with
          | Err e => modify (upd_metrics count_failed) ;;* ret (Err ("add fully reconstructed block: " +:+ e))
          | Ok _ => modify (upd_metrics (RecordReconstruction (len (b_Transactions b)) 0 duration)) ;;* ret (Ok tt)
          end
      end
  end.

Definition canAcceptHighBandwidth (now : Z) (p : Prefs) : bool :=
  if HighBandwidthCount p <? MaxHighBandwidthPeers then true
  else HasStaleHighBandwidthPeer (300 * 1000000000) now p.

Definition OnSendCmpct (now : Z) (peerID : string) (version : Z) (announce : bool) : M (Relay C) (result unit) :=
  modify (fun h => set_prefs (prefs_Set peerID (mkPref version announce now) (rl_prefs h)) h) ;;*
  let* h := get in
  let* ok := relay_Send peerID (SendCmpct 2 (canAcceptHighBandwidth now (rl_prefs h))) in
  if negb ok then ret (Err "send sendcmpct response failed") else ret (Ok tt).

End handlers.


(** * Lemmas *)

(** ** Packed identifiers *)
Lemma bytes_join (a b c d e f : Z) :
  0 <= a < 256 -> 0 <= b < 256 -> 0 <= c < 256 -> 0 <= d < 256 -> 0 <= e < 256 ->
  Z.lor (Z.lor (Z.lor (Z.lor (Z.lor a (Z.shiftl b 8)) (Z.shiftl c 16)) (Z.shiftl d 24)) (Z.shiftl e 32)) (Z.shiftl f 40)
  = a + 2 ^ 8 * b + 2 ^ 16 * c + 2 ^ 24 * d + 2 ^ 32 * e + 2 ^ 40 * f.
Proof.
  intros. rewrite (lor_shifted a) by lia. rewrite (lor_shifted (a + _)) by lia.
  rewrite (lor_shifted (a + _ + _)) by lia. rewrite (lor_shifted (a + _ + _ + _)) by lia.
  rewrite lor_shifted; lia.
Qed.

Lemma bytes_split (id : Z) : 0 <= id < 2 ^ 48 ->
  u8 id + 2 ^ 8 * u8 (Z.shiftr id 8) + 2 ^ 16 * u8 (Z.shiftr id 16) + 2 ^ 24 * u8 (Z.shiftr id 24)
  + 2 ^ 32 * u8 (Z.shiftr id 32) + 2 ^ 40 * u8 (Z.shiftr id 40) = id.
Proof.
  intros H. unfold u8. rewrite !Z.shiftr_div_pow2 by lia.
  change (2 ^ 16) with (2 ^ 8 * 2 ^ 8). change (2 ^ 24) with (2 ^ 8 * 2 ^ 8 * 2 ^ 8).
  change (2 ^ 32) with (2 ^ 8 * 2 ^ 8 * 2 ^ 8 * 2 ^ 8). change (2 ^ 40) with (2 ^ 8 * 2 ^ 8 * 2 ^ 8 * 2 ^ 8 * 2 ^ 8).
  rewrite <- !Z.div_div by lia. Z.to_euclidean_division_equations. lia.
Qed.

Lemma decode_encode_ids (ids : list Z) : Forall (fun id => 0 <= id < 2 ^ 48) ids ->
  decode_ids (length ids) (EncodeShortIDsBinary ids) = ids.
Proof.
  induction 1 as [|id ids Hid _ IH]; [done|].
  cbn [length decode_ids EncodeShortIDsBinary map concat app drop lookup list_lookup default].
  f_equal; [|exact IH]. cbn. rewrite bytes_join by (unfold u8; apply Z.mod_pos_bound; lia).
  by apply bytes_split.
Qed.

Lemma encode_ids_length (ids : list Z) : length (EncodeShortIDsBinary ids) = (length ids * 6)%nat.
Proof. induction ids as [|id ids IH]; [done|]. cbn [length EncodeShortIDsBinary map concat app] in *. unfold EncodeShortIDsBinary in IH. lia. Qed.

(** ** Matching against the pool *)
Section matching.
Context {P : Type} `{MempoolLaws P}.
Implicit Types mp : P.

(** What a short identifier stands for: the first identifier of the pool with it. *)
Definition pool_match (k0 k1 : Z) (mp : P) (sid : Z) : option Transaction :=
  head (filter (fun id => sid_of k0 k1 id = Some sid) (GetTxIDs mp)) ≫= fun id => GetTx id mp.

Definition spec_id (k0 k1 : Z) (mp : P) (sid : Z) : Transaction + string :=
  match pool_match k0 k1 mp sid with Some tx => inl tx | None => inr (sid_name sid) end.

Lemma push_eq (k : Z) x (m : gmap Z (list string)) : push k x m !! k = Some (default [] (m !! k) ++ [x]).
Proof. apply lookup_insert_eq. Qed.

Lemma push_ne (k k' : Z) x (m : gmap Z (list string)) : k <> k' -> push k x m !! k' = m !! k'.
Proof. apply lookup_insert_ne. Qed.

Lemma sid_map_lookup k0 k1 (ids : list string) sid :
  sid_map k0 k1 ids !! sid =
  match filter (fun id => sid_of k0 k1 id = Some sid) ids with [] => None | l => Some l end.
Proof.
  unfold sid_map. induction ids as [|x ids IH] using rev_ind; [done|].
  rewrite foldl_app, filter_app. cbn [foldl].
  destruct (sid_of k0 k1 x) as [s|] eqn:E.
  - destruct (decide (s = sid)) as [->|Hne].
    + rewrite push_eq, IH, filter_cons_True by done. destruct (filter _ ids); [done|by rewrite <- app_comm_cons].
    + rewrite push_ne, IH, (filter_cons_False _ x) by congruence. by rewrite app_nil_r.
  - rewrite IH, (filter_cons_False _ x) by congruence. by rewrite app_nil_r.
Qed.

Lemma naive_id k0 k1 mp sid :
  match_id sid_name (sid_map k0 k1 (GetTxIDs mp)) mp sid = spec_id k0 k1 mp sid.
Proof.
  unfold match_id, spec_id, pool_match. rewrite sid_map_lookup.
  destruct (filter _ _) as [|x l] eqn:E; [done|].
  assert (Hx : x ∈ GetTxIDs mp).
  { assert (Hx : x ∈ x :: l) by constructor. rewrite <- E in Hx. by apply list_elem_of_filter in Hx as []. }
  destruct (listed_get mp x Hx) as [tx Hg]. cbn. by rewrite Hg.
Qed.

Lemma sid_positions_other n sids m sid : sid ∉ sids -> sid_positions n sids m !! sid = m !! sid.
Proof.
  revert n m. induction sids as [|s sids IH]; intros n m Hs; [done|]. cbn.
  rewrite not_elem_of_cons in Hs. destruct Hs. by rewrite IH, lookup_insert_ne.
Qed.

Lemma sid_positions_at n sids m i sid : NoDup sids -> sids !! i = Some sid ->
  sid_positions n sids m !! sid = Some (n + i)%nat.
Proof.
  revert n m i. induction sids as [|s sids IH]; intros n m i Hd Hi; [done|].
  apply list.NoDup_cons in Hd as [Hs Hd]. cbn. destruct i as [|i]; cbn in Hi.
  - simplify_eq. rewrite sid_positions_other, lookup_insert_eq by done. f_equal. lia.
  - rewrite (IH _ _ i) by done. f_equal. lia.
Qed.

(** The pass over the pool keeps, for a position, the last identifier that matches. *)
Lemma found_map_last k0 k1 salt sids ids mp i sid :
  NoDup sids -> sids !! i = Some sid -> sid ∈ salt -> (forall id, id ∈ ids -> is_Some (GetTx id mp)) ->
  foldl (record_found k0 k1 salt (sid_positions 0 sids ∅) mp) ∅ ids !! i
  = last (filter (fun id => sid_of k0 k1 id = Some sid) ids) ≫= fun id => GetTx id mp.
Proof.
  intros Hd Hi Hsalt Hg. induction ids as [|x ids IH] using rev_ind; [done|].
  rewrite foldl_app, filter_app. cbn [foldl].
  assert (IH' := IH (fun id Hid => Hg id (proj2 (elem_of_app _ _ _) (or_introl Hid)))).
  destruct (Hg x) as [tx Hx]; [set_solver|]. unfold record_found at 1. rewrite Hx.
  destruct (decide (sid_of k0 k1 x = Some sid)) as [E|E].
  - rewrite E, filter_cons_True, filter_nil, last_snoc, bool_decide_true by done.
    rewrite (sid_positions_at _ _ _ i) by done. cbn. by rewrite lookup_insert_eq.
  - rewrite (filter_cons_False _ x), filter_nil, app_nil_r by done.
    destruct (sid_of k0 k1 x) as [s|]; [|done]. case_bool_decide; [|done].
    destruct (decide (s ∈ sids)) as [Hs|Hs]; [|by rewrite sid_positions_other, lookup_empty].
    apply list_elem_of_lookup in Hs as [j Hj]. rewrite (sid_positions_at _ _ _ j) by done.
    rewrite lookup_insert_ne; [done|]. cbn. intros ->. congruence.
Qed.

(** Identifiers of the pool with the same short identifier are the same. *)
Definition distinct_sids (k0 k1 : Z) (mp : P) : Prop :=
  forall x y s, x ∈ GetTxIDs mp -> y ∈ GetTxIDs mp ->
    sid_of k0 k1 x = Some s -> sid_of k0 k1 y = Some s -> x = y.

Lemma last_head_filter k0 k1 mp sid : distinct_sids k0 k1 mp ->
  last (filter (fun id => sid_of k0 k1 id = Some sid) (GetTxIDs mp))
  = head (filter (fun id => sid_of k0 k1 id = Some sid) (GetTxIDs mp)).
Proof.
  intros Hd. pose proof (listed_once mp) as Hn.
  apply (NoDup_filter (fun id => sid_of k0 k1 id = Some sid)) in Hn.
  destruct (filter _ _) as [|x [|y l]] eqn:E; [done..|].
  assert (Hx : x ∈ x :: y :: l) by constructor. assert (Hy : y ∈ x :: y :: l) by do 2 constructor.
  rewrite <- E in Hx, Hy. apply list_elem_of_filter in Hx as [Sx Ix], Hy as [Sy Iy].
  apply list.NoDup_cons in Hn as [Hn _]. destruct Hn. rewrite (Hd x y sid) by done. constructor.
Qed.

Lemma found_map_spec k0 k1 (cb : CompactBlockMsg) mp i sid :
  distinct_sids k0 k1 mp -> NoDup (cb_ShortTxIDs_v2 cb) -> cb_ShortTxIDs_v2 cb !! i = Some sid ->
  sid ∈ cb_SaltTxIDs_v2 cb ->
  found_map k0 k1 (list_to_set (cb_SaltTxIDs_v2 cb)) (sid_positions 0 (cb_ShortTxIDs_v2 cb) ∅) mp !! i
  = pool_match k0 k1 mp sid.
Proof.
  intros Hd Hn Hi Hs. unfold found_map.
  rewrite (found_map_last _ _ _ (cb_ShortTxIDs_v2 cb) _ _ _ sid) by (done || set_solver || apply listed_get).
  by rewrite last_head_filter.
Qed.

Lemma naive_rebuilt k0 k1 cb coinbase mp :
  reconstructBlockV2Naive cb coinbase k0 k1 mp =
  rebuilt cb (coinbase :: founds (map (spec_id k0 k1 mp) (cb_ShortTxIDs_v2 cb)))
    (missings (map (spec_id k0 k1 mp) (cb_ShortTxIDs_v2 cb))).
Proof.
  unfold reconstructBlockV2Naive.
  by rewrite (map_ext _ (spec_id k0 k1 mp)) by (intros; apply naive_id).
Qed.

Lemma spec_missing k0 k1 mp sids :
  missings (map (spec_id k0 k1 mp) sids) =
  omap id (map (fun sid => match pool_match k0 k1 mp sid with Some _ => None | None => Some (sid_name sid) end) sids).
Proof.
  induction sids as [|s sids IH]; [done|]. unfold missings in *. cbn. unfold spec_id at 1.
  destruct (pool_match k0 k1 mp s); cbn; by rewrite IH.
Qed.

Lemma salt_rebuilt k0 k1 cb coinbase mp :
  distinct_sids k0 k1 mp -> NoDup (cb_ShortTxIDs_v2 cb) ->
  (forall sid, sid ∈ cb_ShortTxIDs_v2 cb -> sid ∈ cb_SaltTxIDs_v2 cb) ->
  reconstructBlockV2WithSalt cb coinbase k0 k1 mp =
  rebuilt cb (coinbase :: map (fun sid => default zero_tx (pool_match k0 k1 mp sid)) (cb_ShortTxIDs_v2 cb))
    (missings (map (spec_id k0 k1 mp) (cb_ShortTxIDs_v2 cb))).
Proof.
  intros Hd Hn Hs. unfold reconstructBlockV2WithSalt. rewrite spec_missing. f_equal; [f_equal|f_equal].
  - erewrite imap_ext, imap_const; [done|]. intros i sid Hi.
    rewrite (found_map_spec _ _ _ _ _ sid); [done..|]. by eapply Hs, list_elem_of_lookup_2.
  - erewrite imap_ext, imap_const; [done|]. intros i sid Hi.
    rewrite (found_map_spec _ _ _ _ _ sid); [done..|]. by eapply Hs, list_elem_of_lookup_2.
Qed.

(** Nothing missing: every identifier stands for a transaction. *)
Lemma complete_founds k0 k1 mp sids : missings (map (spec_id k0 k1 mp) sids) = [] ->
  founds (map (spec_id k0 k1 mp) sids) = map (fun sid => default zero_tx (pool_match k0 k1 mp sid)) sids /\
  Forall2 (fun sid tx => pool_match k0 k1 mp sid = Some tx) sids (founds (map (spec_id k0 k1 mp) sids)).
Proof.
  induction sids as [|s sids IH]; [done|]. unfold missings, founds in *. cbn [map omap list_omap].
  destruct (pool_match k0 k1 mp s) as [tx|] eqn:E.
  - assert (Es : spec_id k0 k1 mp s = inl tx) by (unfold spec_id; by rewrite E). rewrite Es.
    intros Hm. destruct (IH Hm) as [HE F]. split; [by rewrite HE|by constructor].
  - assert (Es : spec_id k0 k1 mp s = inr (sid_name s)) by (unfold spec_id; by rewrite E). by rewrite Es.
Qed.
End matching.

(** ** Identifiers *)
Lemma txid_hash tx txID : TxIDHex tx = Ok txID -> exists h, txID = hex_encode h /\ length h = 32%nat /\ Forall is_byte h.
Proof.
  unfold TxIDHex, SigningHash, signingHashLegacyJSON. intros E.
  destruct (if is_type tx TxTransfer then _ else _) as [from|]; [|done]. cbn [result_bind] in E.
  injection E as <-. eexists; split; [done|]. split; [apply sha256_length|apply sha256_range].
Qed.

Lemma txid_sid k0 k1 tx txID : TxIDHex tx = Ok txID -> is_Some (sid_of k0 k1 txID).
Proof.
  intros (h & -> & Hl & Hb)%txid_hash. unfold sid_of. rewrite hex_decode_encode by done.
  unfold len. rewrite Hl. by eexists.
Qed.

Lemma short_ids_length k0 k1 txs : Forall (fun tx => exists txID, TxIDHex tx = Ok txID) txs ->
  length (short_ids k0 k1 txs) = length txs.
Proof.
  induction 1 as [|tx txs [txID E] _ IH]; [done|]. cbn. rewrite E.
  destruct (txid_sid k0 k1 tx txID E) as [s ->]. cbn. by f_equal.
Qed.

(** The name of a short identifier is no transaction identifier. *)
Lemma sid_name_no_txid sid tx : TxIDHex tx <> Ok (sid_name sid).
Proof.
  intros (h & E & Hl & Hb)%txid_hash. pose proof (hex_decode_encode h Hb) as D.
  rewrite <- E in D. unfold sid_name in D. by cbn in D.
Qed.

Lemma tx_positions_named txs id pos : tx_positions txs !! id = Some pos -> exists tx, TxIDHex tx = Ok id.
Proof.
  unfold tx_positions. generalize (imap pair txs). intros l.
  induction l as [|[n tx] l IH] using rev_ind; [done|]. rewrite foldl_app. cbn.
  destruct (TxIDHex tx) as [id'|] eqn:E; [|done].
  destruct (decide (id' = id)) as [->|]; [by eauto|]. by rewrite lookup_insert_ne.
Qed.

Lemma missing_map_empty positions ids : (forall id, id ∈ ids -> positions !! id = None) -> missing_map positions ids = ∅.
Proof.
  unfold missing_map. induction ids as [|id ids IH] using rev_ind; intros Hn; [done|].
  rewrite foldl_app. cbn. rewrite Hn, IH by set_solver. done.
Qed.

(** ** What a reconstruction returns *)
Lemma rebuilt_ok cb txs missing b ms : rebuilt cb txs missing = Ok (b, ms) -> b_Transactions b = txs /\ ms = missing.
Proof. unfold rebuilt. destruct (hex_decode _); cbn; [|done]. intros E. by injection E as <- <-. Qed.

Lemma split_length (r : list (Transaction + string)) : (length (founds r) + length (missings r))%nat = length r.
Proof. unfold founds, missings. induction r as [|[t|i] r IH]; cbn; lia. Qed.

Section results.
Context {P : Type} `{MempoolInterface P}.

(** A message of the second version. *)
Definition is_v2 (cb : CompactBlockMsg) : Prop := 2 <= cb_Version cb /\ cb_ShortTxIDs_v2 cb <> [].

Lemma reconstruct_v2 cb (mp : P) b ms : is_v2 cb -> ReconstructBlock (Some cb) (Some mp) = Ok (b, ms) ->
  exists coinbase, cb_CoinbaseTx cb = Some coinbase /\
    (reconstructBlockV2WithSalt cb coinbase (cb_Nonce cb) (Z.lxor (cb_Nonce cb) SipHashFiller) mp = Ok (b, ms) \/
     reconstructBlockV2Naive cb coinbase (cb_Nonce cb) (Z.lxor (cb_Nonce cb) SipHashFiller) mp = Ok (b, ms)).
Proof.
  intros [Hv Hn] E. unfold ReconstructBlock in E. destruct (cb_CoinbaseTx cb) as [coinbase|]; [|done].
  exists coinbase. split; [done|]. destruct (Z.leb_spec 2 (cb_Version cb)) as [_|]; [|lia].
  assert (Hl : (0 <? len (cb_ShortTxIDs_v2 cb)) = true).
  { apply Z.ltb_lt. unfold len. destruct (cb_ShortTxIDs_v2 cb); [done|cbn; lia]. }
  rewrite Hl in E. cbn [andb] in E. unfold reconstructBlockV2 in E. case_match; tauto.
Qed.

(** A complete reconstruction has one transaction for each short identifier, after the coinbase. *)
Lemma complete_length cb (mp : P) b : is_v2 cb -> ReconstructBlock (Some cb) (Some mp) = Ok (b, []) ->
  length (b_Transactions b) = S (length (cb_ShortTxIDs_v2 cb)).
Proof.
  intros Hv (coinbase & _ & [E|E])%reconstruct_v2; [..|done].
  - apply rebuilt_ok in E as [-> _]. cbn. by rewrite length_imap.
  - apply rebuilt_ok in E as [-> E]. cbn. f_equal.
    pose proof (split_length (map (match_id sid_name (sid_map (cb_Nonce cb)
      (Z.lxor (cb_Nonce cb) SipHashFiller) (GetTxIDs mp)) mp) (cb_ShortTxIDs_v2 cb))) as L.
    rewrite <- E, length_map in L. cbn in L. lia.
Qed.

Lemma missing_named `{!MempoolLaws P} cb (mp : P) b ms id : is_v2 cb ->
  ReconstructBlock (Some cb) (Some mp) = Ok (b, ms) -> id ∈ ms -> exists sid, id = sid_name sid.
Proof.
  intros Hv (coinbase & _ & [E|E])%reconstruct_v2 Hi; [..|done].
  - apply rebuilt_ok in E as [_ ->]. apply list_elem_of_omap in Hi as (o & Ho & Eo).
    cbn in Eo. subst o.
    apply elem_of_lookup_imap in Ho as (i & sid & Ho & _). case_match; [done|]. injection Ho as ->. by eexists.
  - rewrite naive_rebuilt in E. apply rebuilt_ok in E as [_ ->].
    apply list_elem_of_omap in Hi as (x & Hx & Ex). apply list_elem_of_fmap in Hx as (sid & -> & _).
    unfold spec_id in Ex. destruct (pool_match _ _ mp sid); [done|]. injection Ex as <-. by eexists.
Qed.
End results.

(** ** Runs of the handlers *)
Section runs.
Context {P C : Type} `{MempoolLaws P}.
Variable add_block : Block -> M C (result bool).
Variable switch_Send : string -> outgoing_msg -> bool.
Variable range : Pendings -> list (string * PendingReconstruction).

(** What peers send; the pool and the clock are those of the moment. *)
Inductive relay_event : Type :=
| EvCompact (mempool : option P) (now : Z) (peerID : string) (cb : CompactBlockMsg)
| EvMissing (mempool : option P) (peerID : string) (req : MissingTxRequest)
| EvTx (duration : Z) (blockHash : string) (tx : Transaction)
| EvSendCmpct (now : Z) (peerID : string) (version : Z) (announce : bool).

Definition handle_event (ev : relay_event) : M (Relay C) (result unit) :=
  match ev with
  | EvCompact mempool now peerID cb => OnCompactBlock add_block switch_Send range mempool now peerID cb
  | EvMissing mempool peerID req => OnMissingTxRequest switch_Send mempool peerID req
  | EvTx duration blockHash tx => OnSyncTxResponse add_block duration blockHash tx
  | EvSendCmpct now peerID version announce => OnSendCmpct switch_Send now peerID version announce
  end.

Fixpoint run_events (evs : list relay_event) : M (Relay C) unit :=
  match evs with
  | [] => ret tt
  | ev :: rest => let* _ := handle_event ev in run_events rest
  end.

Definition event_v2 (ev : relay_event) : Prop :=
  match ev with EvCompact _ _ _ cb => is_v2 cb | _ => True end.

(** Nothing in the pool waits for a transaction by its identifier. *)
Definition waits_for_none (pp : PendingPool) : Prop :=
  map_Forall (fun _ pr => pr_MissingMap pr = ∅) (pp_pending pp).

Definition pool_bounded (pp : PendingPool) : Prop := pending_Size pp <= pp_maxSize pp.

(** A part of the state that only the pool decides. *)
Definition of_pool (I : PendingPool -> Prop) (h : Relay C) : Prop := I (rl_pool h).

Lemma relay_Send_pool I peerID m : keeps (of_pool I) (relay_Send switch_Send peerID m).
Proof. intros h h' ok Hh E. unfold relay_Send in E. injection E as <- _. unfold of_pool in *. by case_match. Qed.

Lemma relay_AddBlock_pool I b : keeps (of_pool I) (relay_AddBlock add_block b).
Proof.
  intros h h' r Hh E. unfold relay_AddBlock in E. destruct (add_block b (rl_chain h)) as [[c r']|]; [|done].
  by injection E as <- _.
Qed.

Lemma metrics_pool I f : keeps (of_pool I) (modify (upd_metrics f)).
Proof. by apply keeps_modify. Qed.
#[local] Hint Resolve relay_Send_pool relay_AddBlock_pool metrics_pool keeps_ret : core.

Lemma answer_missing_pool I mp peerID blockHash ids : keeps (of_pool I) (answer_missing switch_Send mp peerID blockHash ids).
Proof.
  induction ids as [|id ids IH]; cbn; [by auto|]. case_match; [|done]. apply keeps_bind; auto.
Qed.

Lemma missing_pool I mempool peerID req : keeps (of_pool I) (OnMissingTxRequest switch_Send mempool peerID req).
Proof.
  unfold OnMissingTxRequest. case_match; [|by auto].
  apply keeps_bind; [apply answer_missing_pool|by auto].
Qed.

Lemma sendcmpct_pool I now peerID version announce :
  keeps (of_pool I) (OnSendCmpct switch_Send now peerID version announce).
Proof.
  apply keeps_bind; [by apply keeps_modify|]. intros _. apply keeps_get. intros h.
  apply keeps_bind; [by auto|]. intros []; cbn; auto.
Qed.

(** The two handlers that change the pool, reduced to [Register] and [AddTx]. *)
Lemma compact_pool I mempool now peerID cb :
  (forall pp mp b ms, mempool = Some mp -> I pp -> ReconstructBlock (Some cb) (Some mp) = Ok (b, ms) ->
     I (fst (Register range now (cb_FullHash cb)
        (mkPending b ms (missing_map (tx_positions (b_Transactions b)) ms) 0 (len ms) now peerID
           (now + 10 * 1000000000)) pp))) ->
  keeps (of_pool I) (OnCompactBlock add_block switch_Send range mempool now peerID cb).
Proof.
  intros HR. unfold OnCompactBlock. destruct mempool as [mp|]; [|by auto].
  destruct (ReconstructBlock _ _) as [[b ms]|e] eqn:E; [|by auto]. case_match.
  - apply keeps_bind; [by auto|]. intros []; [|by auto]. apply keeps_bind; by auto.
  - intros h h' r Hh Er. rewrite bind_get in Er.
    specialize (HR (rl_pool h) mp b ms eq_refl Hh E). destruct (Register _ _ _ _ _) as [pool x].
    assert (K : keeps (of_pool I) (match x with
      | Err e => ret (Err ("register pending: " +:+ e))
      | Ok _ =>
          let* ok := relay_Send switch_Send peerID (MissingReq (mkMissing (cb_Height cb) (cb_FullHash cb) ms)) in
          if negb ok then ret (Err "send missing tx request failed")
          else modify (upd_metrics (count_received false)) ;;* ret (Ok tt)
      end)).
    { destruct x; [|by auto]. apply keeps_bind; [by auto|]. intros []; cbn; [|by auto]. apply keeps_bind; by auto. }
    apply bind_val in Er as (h1 & [] & E1 & E2). injection E1 as <-. by eapply K, E2.
Qed.

Lemma tx_pool I duration blockHash tx :
  (forall pp, I pp -> I (fst (AddTx blockHash tx pp))) ->
  keeps (of_pool I) (OnSyncTxResponse add_block duration blockHash tx).
Proof.
  intros HA h h' r Hh E. unfold OnSyncTxResponse in E. rewrite bind_get in E.
  specialize (HA (rl_pool h) Hh). destruct (AddTx _ _ _) as [pool x].
  apply bind_val in E as (h1 & [] & E1 & E2). injection E1 as <-.
  assert (Hp : of_pool I (set_pool pool h)) by done. revert Hp E2. generalize (set_pool pool h). clear.
  intros h1 Hp E2. destruct x as [o|e]; [|by eapply keeps_ret, E2].
  refine (keeps_bind _ _ _ (metrics_pool I _) _ _ _ _ Hp E2). intros _. destruct o as [b|]; [|by auto].
  apply keeps_bind; [by auto|]. intros []; apply keeps_bind; by auto.
Qed.

(** *** Nothing is waited for *)
Lemma Register_waits now blockHash pr pp : pr_MissingMap pr = ∅ -> waits_for_none pp ->
  waits_for_none (fst (Register range now blockHash pr pp)).
Proof.
  intros Hpr Hp. unfold Register. case_match.
  - case_match; [|done]. case_match. case_match; [done|]. by apply map_Forall_insert_2, map_Forall_delete.
  - by apply map_Forall_insert_2.
Qed.

(** A response finds no place: the pool stays, and no block is complete. *)
Lemma AddTx_waits blockHash tx pp : waits_for_none pp ->
  exists r, AddTx blockHash tx pp = (pp, r) /\ forall b, r <> Ok (Some b).
Proof.
  intros Hp. unfold AddTx. destruct (pp_pending pp !! blockHash) as [pr|] eqn:E; [|by eexists].
  destruct (TxIDHex tx) as [id|]; [|by eexists]. rewrite (Hp _ _ E), lookup_empty. by eexists.
Qed.

Lemma handle_waits ev : event_v2 ev -> keeps (of_pool waits_for_none) (handle_event ev).
Proof.
  destruct ev as [mempool now peerID cb|mempool peerID req|duration blockHash tx|now peerID version announce];
    cbn; intros Hv; [|apply missing_pool| |apply sendcmpct_pool].
  - apply compact_pool. intros pp mp b ms -> Hp E. apply Register_waits; [|done]. cbn.
    apply missing_map_empty. intros id Hid. destruct (missing_named cb mp b ms id Hv E Hid) as [sid ->].
    destruct (tx_positions _ !! _) as [pos|] eqn:Et; [|done].
    apply tx_positions_named in Et as [tx Et]. by apply sid_name_no_txid in Et.
  - apply tx_pool. intros pp Hp. destruct (AddTx_waits blockHash tx pp Hp) as (r & -> & _). done.
Qed.

Lemma run_keeps I evs : Forall (fun ev => keeps (of_pool I) (handle_event ev)) evs -> keeps (of_pool I) (run_events evs).
Proof. induction 1 as [|ev evs Hev _ IH]; [apply keeps_ret|]. by apply keeps_bind. Qed.

(** *** The bound of the pool *)
Hypothesis range_all : forall m, range m ≡ₚ map_to_list m.

Lemma Register_bounded now blockHash pr pp : pool_bounded pp -> pool_bounded (fst (Register range now blockHash pr pp)).
Proof.
  unfold pool_bounded, pending_Size. intros Hp. unfold Register.
  assert (Hins : forall m : Pendings, (size (<[blockHash := pr]> m) <= S (size m))%nat).
  { intros m. rewrite map_size_insert. destruct (m !! blockHash); cbn; lia. }
  destruct (Z.leb_spec (pp_maxSize pp) (Z.of_nat (size (pp_pending pp)))).
  - destruct (find _ _) as [[k pr']|] eqn:F; [|done]. case_match; [done|]. cbn.
    apply find_some in F as [F _]. apply list_elem_of_In in F. rewrite range_all in F.
    apply elem_of_map_to_list in F. specialize (Hins (delete k (pp_pending pp))).
    rewrite map_size_delete_Some in Hins by done.
    assert (size (pp_pending pp) <> 0%nat) by (intros Hz; apply map_size_empty_inv in Hz; by rewrite Hz, lookup_empty in F). lia.
  - specialize (Hins (pp_pending pp)). cbn. lia.
Qed.

Lemma AddTx_bounded blockHash tx pp : pool_bounded pp -> pool_bounded (fst (AddTx blockHash tx pp)).
Proof.
  unfold pool_bounded, pending_Size, AddTx. intros Hp.
  destruct (pp_pending pp !! blockHash) as [pr|] eqn:E; [|done].
  destruct (TxIDHex tx) as [id|]; [|done]. destruct (pr_MissingMap pr !! id); [|done].
  case_match; [done|]. case_match; cbn [fst set_pending pp_pending pp_maxSize].
  - rewrite map_size_delete_Some by done. lia.
  - by rewrite map_size_insert_Some by done.
Qed.

Lemma handle_bounded ev : keeps (of_pool pool_bounded) (handle_event ev).
Proof.
  destruct ev; cbn; [|apply missing_pool| |apply sendcmpct_pool].
  - apply compact_pool. intros. by apply Register_bounded.
  - apply tx_pool. intros. by apply AddTx_bounded.
Qed.
End runs.

(** ** The transaction pool behind the interface *)
Definition mempool_adapter (re : Entries -> list (string * mempoolEntry)) : MempoolInterface Mempool := {|
  GetTx := Get;
  GetTxIDs m := map fst (re (entries m));
  pool_Size := Mempool.Size |}.

Lemma mempool_adapter_laws re : visits_all_entries re -> @MempoolLaws Mempool (mempool_adapter re).
Proof.
  intros Hre. split; cbn.
  - intros m id Hid. apply list_elem_of_fmap in Hid as ([k e] & -> & Hid). rewrite (Hre (entries m)) in Hid.
    apply elem_of_map_to_list in Hid. unfold Get. cbn. rewrite Hid. by eexists.
  - intros m. change (map fst (re (entries m))) with ((re (entries m)).*1). rewrite (Hre (entries m)).
    apply NoDup_fst_map_to_list.
Qed.

(** * Properties *)

(** SipHash-2-4 on the vector its authors published. *)
Example siphash_vector :
  siphash244 506097522914230528 1084818905618843912 (map Z.of_nat (seq 0 15)) = 11613035633349379557.
Proof. vm_compute. reflexivity. Qed.

(** C27. The optimised reconstruction is the plain one.  When no two transactions of the pool
    share a short identifier, the block's identifiers are distinct and the salt covers them,
    both ask for the same transactions, and when nothing is missing both return the same
    block: the coinbase, then for each identifier the transaction of the pool with it, in
    order. *)
Theorem salt_agrees_naive {P : Type} `{MempoolLaws P} (k0 k1 : Z) (cb : CompactBlockMsg)
  (coinbase : Transaction) (mp : P)
  (Hpool : distinct_sids k0 k1 mp) (Hblock : NoDup (cb_ShortTxIDs_v2 cb))
  (Hsalt : forall sid, sid ∈ cb_ShortTxIDs_v2 cb -> sid ∈ cb_SaltTxIDs_v2 cb) :
  match reconstructBlockV2Naive cb coinbase k0 k1 mp, reconstructBlockV2WithSalt cb coinbase k0 k1 mp with
  | Ok (b1, missing1), Ok (b2, missing2) =>
      missing1 = missing2 /\
      (missing1 = [] -> b1 = b2 /\ exists txs, b_Transactions b1 = coinbase :: txs /\
         Forall2 (fun sid tx => pool_match k0 k1 mp sid = Some tx) (cb_ShortTxIDs_v2 cb) txs)
  | Err e1, Err e2 => e1 = e2
  | _, _ => False
  end.
Proof.
  rewrite naive_rebuilt, salt_rebuilt by done. unfold rebuilt.
  destruct (hex_decode (cb_FullHash cb)); cbn [wrap result_bind]; [|done].
  split; [done|]. intros Hm. destruct (complete_founds k0 k1 mp _ Hm) as [E F].
  split; [by rewrite <- E|]. eexists. split; [done|]. exact F.
Qed.

(** Packing short identifiers of 48 bits and unpacking them gives them back. *)
Theorem shortids_roundtrip (ids : list Z) (H : Forall (fun id => 0 <= id < 2 ^ 48) ids) :
  DecodeShortIDsBinary (EncodeShortIDsBinary ids) = Ok ids.
Proof.
  unfold DecodeShortIDsBinary. rewrite encode_ids_length, Nat.Div0.mod_mul, Nat.div_mul by lia.
  cbn. by rewrite decode_encode_ids.
Qed.

(** The short identifiers of a block include its coinbase, which reconstruction puts in
    front again: a complete reconstruction is one transaction longer than the block that was
    announced. *)
Theorem reconstruction_longer {P : Type} `{MempoolInterface P} (b b' : Block) (nonce : Z)
  (cb : CompactBlockMsg) (mp : P)
  (Hids : Forall (fun tx => exists txID, TxIDHex tx = Ok txID) (b_Transactions b))
  (Hcb : BuildCompactBlockV2 (Some b) nonce = Some cb)
  (Hr : ReconstructBlock (Some cb) (Some mp) = Ok (b', [])) :
  length (b_Transactions b') = S (length (b_Transactions b)).
Proof.
  unfold BuildCompactBlockV2 in Hcb. destruct (Z.eqb_spec (len (b_Transactions b)) 0) as [|Hne]; [done|].
  injection Hcb as <-. apply complete_length in Hr; cbn [cb_ShortTxIDs_v2] in *.
  - by rewrite Hr, short_ids_length.
  - split; cbn; [lia|]. intros E. apply (f_equal length) in E. rewrite short_ids_length in E by done.
    unfold len in Hne. cbn in E. lia.
Qed.

(** What is missing is asked for under names no transaction has: after any messages of the
    second version, a transaction that arrives completes nothing and the chain stays. *)
Theorem responses_add_nothing {P C : Type} `{MempoolLaws P} (add_block : Block -> M C (result bool))
  (switch_Send : string -> outgoing_msg -> bool) (range : Pendings -> list (string * PendingReconstruction))
  (evs : list relay_event) (h h1 : Relay C) (duration : Z) (blockHash : string) (tx : Transaction)
  (Hnew : pp_pending (rl_pool h) = ∅) (Hev : Forall event_v2 evs)
  (Hrun : run_events add_block switch_Send range evs h = Val (h1, tt)) :
  exists h2 r, OnSyncTxResponse add_block duration blockHash tx h1 = Val (h2, r) /\
    rl_chain h2 = rl_chain h1 /\ rl_pool h2 = rl_pool h1.
Proof.
  assert (Hw : waits_for_none (rl_pool h1)).
  { eapply (run_keeps add_block switch_Send range waits_for_none); [| |exact Hrun].
    - eapply list.Forall_impl; [exact Hev|]. intros ev. apply handle_waits.
    - unfold of_pool, waits_for_none. rewrite Hnew. apply map_Forall_empty. }
  unfold OnSyncTxResponse. rewrite bind_get.
  destruct (AddTx_waits blockHash tx _ Hw) as (r & -> & Hr).
  destruct r as [[b|]|e]; [by destruct (Hr b)|by do 2 eexists..].
Qed.

(** The reconstructions that wait never exceed the size of their pool. *)
Theorem pending_pool_bounded {P C : Type} `{MempoolInterface P} (add_block : Block -> M C (result bool))
  (switch_Send : string -> outgoing_msg -> bool) (range : Pendings -> list (string * PendingReconstruction))
  (evs : list relay_event) (h h1 : Relay C)
  (Hrange : forall m, range m ≡ₚ map_to_list m) (Hnew : pool_bounded (rl_pool h))
  (Hrun : run_events add_block switch_Send range evs h = Val (h1, tt)) :
  pool_bounded (rl_pool h1).
Proof.
  eapply (run_keeps add_block switch_Send range pool_bounded); [|exact Hnew|exact Hrun].
  apply list.Forall_forall. intros ev _. by apply handle_bounded.
Qed.

(** * Witnesses *)
Definition sample_sids : list Z :=
  Eval vm_compute in omap (sid_of 7 (Z.lxor 7 SipHashFiller)) (map fst (re0 (entries pool1))).

(** A block with two of the pool's three transactions. *)
Definition sample_compact : CompactBlockMsg :=
  mkCompact (mkBlockHeader 1 (replicate 32 1) 1700000030 100 100 0 [] [] 6 recipient) 6
    (Some (pool_tx 0 9 1)) (hex_encode (replicate 32 1)) 7 (hex_encode (replicate 32 2)) 2
    (take 2 sample_sids) sample_sids [].

Lemma sample_distinct : @distinct_sids Mempool (mempool_adapter re0) 7 (Z.lxor 7 SipHashFiller) pool1.
Proof.
  intros x y s Hx Hy Sx Sy.
  assert (D : NoDup (map (sid_of 7 (Z.lxor 7 SipHashFiller)) (map fst (re0 (entries pool1))))).
  { apply (bool_decide_unpack _). vm_compute. exact I. }
  apply list_elem_of_lookup in Hx as [i Hi], Hy as [j Hj].
  assert (i = j); [|congruence].
  eapply NoDup_lookup; [exact D| |]; apply list_lookup_fmap_Some; eexists; (split; [|eassumption]); symmetry; eassumption.
Qed.

Definition naive_sample : result (Block * list string) :=
  @reconstructBlockV2Naive Mempool (mempool_adapter re0) sample_compact (pool_tx 0 9 1) 7 (Z.lxor 7 SipHashFiller) pool1.
Definition salt_sample : result (Block * list string) :=
  @reconstructBlockV2WithSalt Mempool (mempool_adapter re0) sample_compact (pool_tx 0 9 1) 7 (Z.lxor 7 SipHashFiller) pool1.
Definition sample_rebuilt : Block :=
  Eval vm_compute in match naive_sample with Ok (b, _) => b | Err _ => mkBlock [] 0 (cb_Header sample_compact) [] None "" "" end.

Lemma agree_complete {Q : Block -> Prop} (r1 r2 : result (Block * list string)) (b : Block) :
  r1 = Ok (b, []) ->
  match r1, r2 with
  | Ok (b1, missing1), Ok (b2, missing2) => missing1 = missing2 /\ (missing1 = [] -> b1 = b2 /\ Q b1)
  | Err e1, Err e2 => e1 = e2
  | _, _ => False
  end -> r2 = Ok (b, []).
Proof. intros ->. destruct r2 as [[b2 m]|e]; [|done]. intros [<- W]. by destruct (W eq_refl) as [<- _]. Qed.

Lemma salt_agrees_naive_witness : salt_sample = Ok (sample_rebuilt, []).
Proof.
  eapply (agree_complete naive_sample); [vm_cast_no_check (eq_refl (Ok (sample_rebuilt, @nil string)))|].
  apply (@salt_agrees_naive Mempool (mempool_adapter re0) (mempool_adapter_laws re0 re0_ok) 7
    (Z.lxor 7 SipHashFiller) sample_compact (pool_tx 0 9 1) pool1 sample_distinct).
  - apply (bool_decide_unpack _). vm_compute. exact I.
  - intros sid Hs. apply (elem_of_take _ 2) in Hs as (i & Hi & _). eapply list_elem_of_lookup_2. exact Hi.
Defined.
