(* ===== verification/Dht.v ===== *)
(** * Peer discovery: distances, the routing table, packets

    [internal/networking/dht]: [crypto.go], [node.go], [table.go] and [udp.go].  Identifiers
    and hashes are lists of 32 bytes.  The table holds pointers to nodes; what it reads of
    them, identifier and hash, is set when a node is made and never written again, so
    entries are values.  Random numbers are arguments, and the JSON of a packet is the
    bytes that were written. *)

From S2P Require Import Prelude Bytes Sha256 Json.
From stdpp Require Import base sets list strings numbers sorting.
From Stdlib Require Import ZArith Lia.

Open Scope Z_scope.
Open Scope go_scope.

(** ** Distances ([crypto.go]) *)
Definition NodeIDBits : Z := 256.
Definition NodeIDBytes : nat := 32.

Definition Hash : Type := list Z.
Definition NodeID : Type := list Z.

Definition leadingZeroBits : list Z :=
  [8; 7; 6; 6; 5; 5; 5; 5] ++ replicate 8 4 ++ replicate 16 3 ++ replicate 32 2
  ++ replicate 64 1 ++ replicate 128 0.

(** The loop of [LogDist]: leading zeros of the exclusive or. *)
Fixpoint leading_zeros (a b : list Z) (lz : Z) : Z :=
  match a, b with
  | x :: a', y :: b' =>
      let d := Z.lxor x y in
      if d =? 0 then leading_zeros a' b' (lz + 8) else lz + nth (Z.to_nat d) leadingZeroBits 0
  | _, _ => lz
  end.

Definition LogDistHash (a b : Hash) : Z := NodeIDBits - leading_zeros a b 0.
Definition LogDist (a b : NodeID) : Z := NodeIDBits - leading_zeros a b 0.

Fixpoint DistCmpHash (target a b : Hash) : Z :=
  match target, a, b with
  | t :: target', x :: a', y :: b' =>
      let da := Z.lxor x t in
      let db := Z.lxor y t in
      if da >? db then 1 else if da <? db then -1 else DistCmpHash target' a' b'
  | _, _, _ => 0
  end.

Definition DistCmp (target a b : NodeID) : Z := DistCmpHash target a b.

Definition XOR (a b : NodeID) : Hash := zip_with Z.lxor a b.
Definition NodeIDDistance (a b : NodeID) : Z := le_val (rev (XOR a b)).
Definition NodeIDSha256 (id : NodeID) : Hash := sha256 id.

Definition BytesToHash (b : list Z) : Hash :=
  let b := if (32 <? length b)%nat then drop (length b - 32) b else b in
  replicate (32 - length b) 0 ++ b.

Definition BytesToNodeID (b : list Z) : result NodeID :=
  if negb (len b =? 32) then Err "invalid node ID length" else Ok b.

Definition hexCharToByte (c : Ascii.ascii) : Z :=
  let z := Z_of_ascii c in
  if (48 <=? z) && (z <=? 57) then z - 48
  else if (97 <=? z) && (z <=? 102) then z - 97 + 10
  else if (65 <=? z) && (z <=? 70) then z - 65 + 10
  else 255.

Fixpoint hex_pairs (s : string) : result (list Z) :=
  match s with
  | String a (String b s') =>
      let hi := hexCharToByte a in
      let lo := hexCharToByte b in
      if (hi =? 255) || (lo =? 255) then Err "invalid node ID length"
      else let? r := hex_pairs s' in Ok (Z.lor (u8 (Z.shiftl hi 4)) lo :: r)
  | _ => Ok []
  end.

(** An optional [0x] in front of 64 digits. *)
Definition strip_0x (s : string) : string :=
  match s with
  | String a (String b s') =>
      if (Z_of_ascii a =? 48) && ((Z_of_ascii b =? 120) || (Z_of_ascii b =? 88)) then s' else s
  | _ => s
  end.

Definition HexToNodeID (s : string) : result NodeID :=
  if strlen s =? 0 then Err "invalid node ID length"
  else
    let s := strip_0x s in
    if negb (strlen s =? 64) then Err "wrong length for node ID" else hex_pairs s.

Definition NodeID_String (id : NodeID) : string := hex_encode id.

(** [randRead] returned [suffix], of the length asked for. *)
Definition HashAtDistance (a : NodeID) (n : Z) (suffix : nat -> result (list Z)) : result NodeID :=
  if n =? 0 then Ok a
  else if (n <? 0) || (NodeIDBits <? n) then Err "invalid distance"
  else
    let lz := NodeIDBits - n in
    let bytePos := Z.to_nat (lz / 8) in
    let bitPos := lz mod 8 in
    let mask := Z.shiftr 128 bitPos in
    let? r := wrap "failed to generate random suffix" (suffix (32 - S bytePos)%nat) in
    Ok (take bytePos a ++ Z.lxor (nth bytePos a 0) mask :: r).

(** [RandUint] and [RandUint64n] of a random word. *)
Definition RandUint (max : Z) (word : result Z) : result Z :=
  if max <? 2 then Ok 0 else let? val := wrap "failed to generate random uint32" word in Ok (val mod max).
Definition RandUint64n (max : Z) (word : result Z) : result Z :=
  if max <? 2 then Ok 0 else let? val := wrap "failed to generate random uint64" word in Ok (val mod max).

(** ** Nodes ([node.go]) *)

(** [net.IP.To4] *)
Definition To4 (ip : list Z) : option (list Z) :=
  if len ip =? 4 then Some ip
  else if (len ip =? 16) && bool_decide (take 12 ip = replicate 10 0 ++ [255; 255]) then Some (drop 12 ip)
  else None.

Record Node := mkNode {
  n_IP : option (list Z);
  n_UDP : Z;
  n_TCP : Z;
  n_ID : NodeID;
  n_sha : Hash;
  n_IsNAT : bool;
  n_RelayAddr : string }.

Definition NewNode (id : NodeID) (ip : option (list Z)) (udpPort tcpPort : Z) : Node :=
  let ip := match ip with
            | Some l => match To4 l with Some ipv4 => Some ipv4 | None => Some l end
            | None => None
            end in
  mkNode ip udpPort tcpPort id (NodeIDSha256 id) false "".

Definition Incomplete (n : Node) : bool := match n_IP n with None => true | Some _ => false end.

(** [net.IP]: multicast, unspecified, loopback and private addresses, of either family. *)
Definition IsMulticast (ip : list Z) : bool :=
  match To4 ip with
  | Some ip4 => Z.land (nth 0 ip4 0) 240 =? 224
  | None => (len ip =? 16) && (nth 0 ip 0 =? 255)
  end.
Definition ip_Equal (ip x : list Z) : bool :=
  bool_decide (ip = x) ||
  match To4 ip, To4 x with Some a, Some b => bool_decide (a = b) | _, _ => false end.
Definition IsUnspecified (ip : list Z) : bool :=
  ip_Equal ip [0; 0; 0; 0] || ip_Equal ip (replicate 16 0).
Definition IsLoopback (ip : list Z) : bool :=
  match To4 ip with
  | Some ip4 => nth 0 ip4 0 =? 127
  | None => ip_Equal ip (replicate 15 0 ++ [1])
  end.
Definition IsPrivate (ip : list Z) : bool :=
  match To4 ip with
  | Some ip4 =>
      (nth 0 ip4 0 =? 10)
      || ((nth 0 ip4 0 =? 172) && (Z.land (nth 1 ip4 0) 240 =? 16))
      || ((nth 0 ip4 0 =? 192) && (nth 1 ip4 0 =? 168))
  | None => (len ip =? 16) && (Z.land (nth 0 ip 0) 254 =? 252)
  end.

Definition IsReachable (n : Node) : bool :=
  if negb (String.eqb (n_RelayAddr n) "") then true
  else negb (n_IsNAT n) && match n_IP n with Some ip => negb (IsUnspecified ip) | None => false end.

Definition ValidateComplete (n : Node) : result unit :=
  match n_IP n with
  | None => Err "incomplete node"
  | Some ip =>
      fail_if (n_UDP n =? 0) "missing UDP port" ;;?
      fail_if (n_TCP n =? 0) "missing TCP port" ;;?
      fail_if (IsMulticast ip || IsUnspecified ip) "invalid IP (multicast/unspecified)"
  end.

Definition PubkeyID (pub : list Z) : NodeID := if negb (len pub =? 32) then replicate 32 0 else pub.
Definition MustHexID (s : string) : NodeID := match HexToNodeID s with Ok id => id | Err _ => replicate 32 0 end.

Record RPCNode := mkRPCNode { rn_IP : option (list Z); rn_UDP : Z; rn_TCP : Z; rn_ID : NodeID }.
Definition NodeToRPC (n : Node) : RPCNode := mkRPCNode (n_IP n) (n_UDP n) (n_TCP n) (n_ID n).

Definition CheckRelayIP (sender : list Z) (relayed : option (list Z)) : result unit :=
  match relayed with
  | None => Err "invalid IP address"
  | Some ip =>
      fail_if (IsLoopback ip || IsMulticast ip) "loopback/multicast address" ;;?
      fail_if (IsPrivate sender && negb (IsPrivate ip)) "private sender cannot relay public IP"
  end.

Definition NodeFromRPC (sender : list Z) (rn : RPCNode) : result Node :=
  wrap "invalid relay IP" (CheckRelayIP sender (rn_IP rn)) ;;?
  let n := NewNode (rn_ID rn) (rn_IP rn) (rn_UDP rn) (rn_TCP rn) in
  wrap "invalid node" (ValidateComplete n) ;;?
  Ok n.

(** ** The routing table ([table.go]) *)
Definition DefaultBucketSize : Z := 16.
Definition NBuckets : Z := 257.

Record bucket := mkBucket { entries : list Node; replacements : list Node }.
Definition empty_bucket : bucket := mkBucket [] [].

Record Table := mkTable { t_count : Z; t_buckets : list bucket; t_self : Node; t_bucketSize : Z }.

Definition NewTable (selfID : NodeID) (selfIP : list Z) (selfPort : Z) (bucketSize : Z) : Table :=
  let bucketSize := if bucketSize <=? 0 then DefaultBucketSize else bucketSize in
  mkTable 0 (replicate (Z.to_nat NBuckets) empty_bucket) (NewNode selfID (Some selfIP) (u16 selfPort) (u16 selfPort)) bucketSize.

Definition same_id (a b : Node) : bool := bool_decide (n_ID a = n_ID b).

Definition addFront (n : Node) (b : bucket) : bucket := mkBucket (n :: entries b) (replacements b).

(** Position of the first entry with the node's identifier. *)
Fixpoint id_index (n : Node) (l : list Node) : option nat :=
  match l with
  | [] => None
  | e :: l' => if same_id e n then Some 0%nat else S <$> id_index n l'
  end.

(** [copy(b.entries[1:], b.entries[:i]); b.entries[0] = n] *)
Definition bump (n : Node) (b : bucket) : option bucket :=
  match id_index n (entries b) with
  | Some i => Some (mkBucket (n :: take i (entries b) ++ drop (S i) (entries b)) (replacements b))
  | None => None
  end.

Definition without (n : Node) (l : list Node) : list Node := List.filter (fun e => negb (same_id e n)) l.

Definition deleteFromReplacement (n : Node) (b : bucket) : bucket := mkBucket (entries b) (without n (replacements b)).

(** The last [size] elements of a longer list. *)
Definition trim (size : Z) (l : list Node) : list Node :=
  if size <? len l then drop (Z.to_nat (len l - size)) l else l.

Definition with_bucket (i : Z) (b : bucket) (count : Z) (tab : Table) : Table :=
  mkTable count (<[Z.to_nat i := b]> (t_buckets tab)) (t_self tab) (t_bucketSize tab).

Definition bucket_index (n : Node) (tab : Table) : Z := LogDistHash (n_sha (t_self tab)) (n_sha n).

(** The bucket of a node, when its index is in range. *)
Definition bucket_of (n : Node) (tab : Table) : option bucket :=
  let bucketIdx := bucket_index n tab in
  if (bucketIdx <? 0) || (NBuckets <=? bucketIdx) then None else t_buckets tab !! Z.to_nat bucketIdx.

Definition Add (n : Node) (tab : Table) : Table * option Node :=
  if same_id n (t_self tab) then (tab, None)
  else
    match bucket_of n tab with
    | None => (tab, None)
    | Some b =>
        let i := bucket_index n tab in
        match bump n b with
        | Some b' => (with_bucket i b' (t_count tab) tab, None)
        | None =>
            if len (entries b) <? t_bucketSize tab then (with_bucket i (addFront n b) (t_count tab + 1) tab, None)
            else
              let b1 := deleteFromReplacement n b in
              let b2 := mkBucket (entries b1) (trim (t_bucketSize tab) (replacements b1 ++ [n])) in
              (with_bucket i b2 (t_count tab) tab, last (entries b2))
        end
    end.

Definition stuff_one (tab : Table) (n : Node) : Table :=
  if same_id n (t_self tab) then tab
  else
    match bucket_of n tab with
    | None => tab
    | Some b =>
        if negb (existsb (fun e => same_id e n) (entries b)) && (len (entries b) <? t_bucketSize tab)
        then with_bucket (bucket_index n tab) (addFront n b) (t_count tab + 1) tab
        else tab
    end.

Definition Stuff (nodes : list Node) (tab : Table) : Table := foldl stuff_one tab nodes.

Definition Delete (node : Node) (tab : Table) : Table :=
  match bucket_of node tab with
  | None => tab
  | Some b =>
      let i := bucket_index node tab in
      match id_index node (entries b) with
      | Some k => with_bucket i (mkBucket (take k (entries b) ++ drop (S k) (entries b)) (replacements b)) (t_count tab - 1) tab
      | None => with_bucket i (deleteFromReplacement node b) (t_count tab) tab
      end
  end.

Definition DeleteReplace (node : Node) (tab : Table) : Table :=
  match bucket_of node tab with
  | None => tab
  | Some b =>
      let kept := without node (entries b) in
      let count := t_count tab - (len (entries b) - len kept) in
      let b1 := deleteFromReplacement node (mkBucket kept (replacements b)) in
      let i := bucket_index node tab in
      match last (replacements b1) with
      | Some r =>
          if len (entries b1) <? t_bucketSize tab
          then with_bucket i (mkBucket (r :: entries b1) (removelast (replacements b1))) (count + 1) tab
          else with_bucket i b1 count tab
      | None => with_bucket i b1 count tab
      end
  end.

Definition all_entries (tab : Table) : list Node := concat (map entries (t_buckets tab)).

(** [sort.Search] *)
Fixpoint search_loop (fuel : nat) (f : nat -> bool) (i j : nat) : nat :=
  match fuel with
  | O => i
  | S fuel' =>
      if (i <? j)%nat then
        let h := ((i + j) / 2)%nat in
        if negb (f h) then search_loop fuel' f (S h) j else search_loop fuel' f i h
      else i
  end.
Definition Search (n : nat) (f : nat -> bool) : nat := search_loop (S n) f 0 n.

(** [entries] with the target; [copy(h.entries[ix+1:], h.entries[ix:])] loses the last one. *)
Definition Push (target : Hash) (maxElems : Z) (l : list Node) (n : Node) : list Node :=
  let ix := Search (length l) (fun i => match l !! i with
                                        | Some e => DistCmpHash target (n_sha e) (n_sha n) >? 0
                                        | None => false
                                        end) in
  if len l <? maxElems then take ix l ++ n :: drop ix l
  else if (length l <=? ix)%nat then l
  else take ix l ++ n :: drop ix (removelast l).

Definition Closest (target : Hash) (nResults : Z) (tab : Table) : list Node :=
  foldl (Push target nResults) [] (all_entries tab).

(** *** Random nodes *)

(** One exchange of the shuffle; an index the source of randomness does not give is skipped. *)
Definition swap_at {A : Type} (i j : nat) (l : list A) : list A :=
  match l !! i, l !! j with Some x, Some y => <[j := x]> (<[i := y]> l) | _, _ => l end.

Fixpoint shuffle {A : Type} (i : nat) (words : nat -> result Z) (l : list A) : list A :=
  match i with
  | O => l
  | S i' =>
      let l' := match RandUint (Z.of_nat i + 1) (words i) with
                | Ok j => swap_at i (Z.to_nat j) l
                | Err _ => l
                end in
      shuffle i' words l'
  end.

Definition remove_at {A : Type} (j : nat) (l : list A) : list A := take j l ++ drop (S j) l.

(** The loop that moves heads of buckets into the result, [room] of them at most; a bucket
    that becomes empty is taken out, so none is found empty. *)
Fixpoint draw (room : nat) (buckets : list (list Node)) (j : nat) : list Node :=
  match room with
  | O => []
  | S room' =>
      match buckets !! j with
      | Some (x :: rest) =>
          let buckets' := <[j := rest]> buckets in
          match rest with
          | [] =>
              let left := remove_at j buckets' in
              match left with
              | [] => [x]
              | _ => x :: draw room' left (1 mod length left)
              end
          | _ => x :: draw room' buckets' (S j mod length buckets')
          end
      | _ => []
      end
  end.

Definition ReadRandomNodes (room : nat) (words : nat -> result Z) (tab : Table) : list Node :=
  let buckets := List.filter (fun l => negb (len l =? 0)) (map entries (t_buckets tab)) in
  draw room (shuffle (pred (length buckets)) words buckets) 0.

(** *** Targets of a refresh *)

(** The entry with the given number, bucket after bucket. *)
Fixpoint walk_entries (bs : list bucket) (count entryIdx : Z) : option Node :=
  match bs with
  | [] => None
  | b :: rest =>
      let remaining := len (entries b) in
      if (entryIdx <? count + remaining) && (count <=? entryIdx)
      then entries b !! Z.to_nat (entryIdx - count)
      else walk_entries rest (count + remaining) entryIdx
  end.

(** [fallback], [idxWord], [distWord] and [suffix] are what the source of randomness gave. *)
Definition ChooseBucketRefreshTarget (fallback : result NodeID) (idxWord distWord : result Z)
    (suffix : result (list Z)) (tab : Table) : result NodeID :=
  let n := len (all_entries tab) in
  if n =? 0 then fallback
  else
    let? entryIdx := wrap "failed to select random entry" (RandUint (u32 (u32 n + 1)) idxWord) in
    let targetPrefix :=
      match walk_entries (t_buckets tab) 0 entryIdx with
      | None => 0
      | Some e =>
          let dist := le_val (rev (zip_with Z.lxor (take 8 (n_sha e)) (take 8 (n_sha (t_self tab))))) in
          let prefix := le_val (rev (take 8 (n_sha (t_self tab)))) in
          if 0 <? dist then
            match RandUint64n dist distWord with Ok randVal => Z.lxor prefix randVal | Err _ => prefix end
          else prefix
      end in
    let? rest := wrap "failed to generate random target" suffix in
    Ok (rev (le_bytes 8 targetPrefix) ++ rest).

(** ** Packets ([udp.go]) *)
Definition MaxPacketSize : Z := 1280.
Definition VersionPrefixLen : nat := 16.
Definition NodeIDLen : nat := 32.
Definition SignatureLen : nat := 64.
Definition HeaderSize : nat := (VersionPrefixLen + NodeIDLen + SignatureLen)%nat.
Definition PingPacket : Z := 1.
Definition PongPacket : Z := 2.
Definition FindNodePacket : Z := 3.
Definition NeighborsPacket : Z := 4.

Definition versionPrefix : list Z := bytes_of_string "Nogo discovery v4".

Record IngressPacket (D : Type) := mkIngress {
  ip_RemoteID : NodeID; ip_PacketType : Z; ip_Hash : Hash; ip_Data : D; ip_RawData : list Z }.
Arguments mkIngress {D}.
Arguments ip_RemoteID {D}.
Arguments ip_PacketType {D}.
Arguments ip_Hash {D}.
Arguments ip_Data {D}.
Arguments ip_RawData {D}.

Section packets.
(** [ed25519]: the signature of a message, the public key, the verification; [encoding/json]
    into the struct of a packet type. *)
Context {D : Type}.
Variable ed25519_sign : list Z -> list Z -> list Z.
Variable ed25519_public : list Z -> list Z.
Variable ed25519_verify : list Z -> list Z -> list Z -> bool.
Variable json_decode : Z -> list Z -> result D.

(** The prefix is an argument; the code has one. *)
Definition encode_with (prefix priv : list Z) (ptype : Z) (payload : list Z) : list Z * Hash :=
  let body := ptype :: payload in
  let sig := ed25519_sign priv body in
  let packet := copy_into VersionPrefixLen prefix ++ copy_into NodeIDLen (ed25519_public priv)
                ++ copy_into SignatureLen sig ++ body in
  (packet, sha256 (drop VersionPrefixLen packet)).

Definition EncodePacket (priv : option (list Z)) (ptype : Z) (payload : list Z) : result (list Z * Hash) :=
  match priv with
  | None => Err "nil private key"
  | Some key => Ok (encode_with versionPrefix key ptype payload)
  end.

Definition decode_with (prefix buf : list Z) : result (IngressPacket D) :=
  fail_if (length buf <? S HeaderSize)%nat "packet too small" ;;?
  fail_if (negb (bool_decide (take VersionPrefixLen buf = prefix))) "bad version prefix" ;;?
  let id := take NodeIDLen (drop VersionPrefixLen buf) in
  let sig := take SignatureLen (drop (VersionPrefixLen + NodeIDLen) buf) in
  let payload := drop HeaderSize buf in
  fail_if (negb (ed25519_verify id payload sig)) "invalid signature" ;;?
  let packetType := nth 0 payload 0 in
  fail_if (negb ((1 <=? packetType) && (packetType <=? 4))) "unknown packet type" ;;?
  let? data := wrap "failed to decode packet payload" (json_decode packetType (drop 1 payload)) in
  Ok (mkIngress id packetType (sha256 (drop VersionPrefixLen buf)) data buf).

Definition DecodePacket (buf : list Z) : result (IngressPacket D) := decode_with versionPrefix buf.
End packets.

(** *** Neighbours *)

(** [net.IP.String]: four decimal numbers, or hexadecimal groups with the longest run of
    zeros left out. *)
Fixpoint groups (l : list Z) : list Z :=
  match l with a :: b :: l' => (a * 256 + b) :: groups l' | _ => [] end.
Fixpoint hex_group (fuel : nat) (n : Z) (acc : string) : string :=
  match fuel with
  | O => acc
  | S fuel' => let acc := String (hex_digit (n mod 16)) acc in if n / 16 =? 0 then acc else hex_group fuel' (n / 16) acc
  end.
Fixpoint zero_run (l : list Z) : nat := match l with 0 :: l' => S (zero_run l') | _ => 0%nat end.
Definition longest_run (l : list Z) : nat * nat :=
  foldl (fun '(s, n) i => let k := zero_run (drop i l) in if (2 <=? k)%nat && (n <? k)%nat then (i, k) else (s, n))
    (0%nat, 0%nat) (seq 0 (length l)).
Definition ip_text (ip : option (list Z)) : string :=
  match ip with
  | None => ""
  | Some l =>
      match To4 l with
      | Some v4 => Json.join "." (map dec_string v4)
      | None =>
          let g := groups l in
          let text x := Json.join ":" (map (fun n => hex_group 4 n "") x) in
          let '(s, n) := longest_run g in
          if (n =? 0)%nat then text g else text (take s g) +:+ "::" +:+ text (drop (s + n) g)
      end
  end.

Definition rpc_json (n : RPCNode) : json :=
  JObj [("IP", JStr (ip_text (rn_IP n))); ("UDP", JNum (rn_UDP n)); ("TCP", JNum (rn_TCP n));
        ("ID", JArr (map JNum (rn_ID n)))]%string.
Definition neighbors_json (nodes : list RPCNode) (expiration : Z) : json :=
  JObj [("nodes", JArr (map rpc_json nodes)); ("expiration", JNum expiration)]%string.

Definition maxSizeNode : RPCNode := mkRPCNode (Some (replicate 16 0)) 65535 65535 (replicate 32 0).

Fixpoint neighbors_loop (fuel n : nat) : nat :=
  match fuel with
  | O => n
  | S fuel' =>
      let encoded := json_bytes (neighbors_json (replicate (S n) maxSizeNode) max_u64) in
      if MaxPacketSize <=? Z.of_nat HeaderSize + 1 + len encoded then n else neighbors_loop fuel' (S n)
  end.
(** A node takes at least one byte, so the size of a packet bounds the loop. *)
Definition maxNeighbors : nat := neighbors_loop (Z.to_nat MaxPacketSize) 0.

Fixpoint chunks (fuel n : nat) (l : list Node) : list (list Node) :=
  match fuel, l with
  | S fuel', _ :: _ => take n l :: chunks fuel' n (drop n l)
  | _, _ => []
  end.

(** The payloads [SendNeighbors] sends, one packet each; the encoder ends them with a newline. *)
Definition neighbors_payloads (results : list Node) (expiration : Z) : list (list Z) :=
  let maxPerPkt := if (maxNeighbors <=? 0)%nat then 1%nat else maxNeighbors in
  map (fun chunk => json_bytes (neighbors_json (map NodeToRPC chunk) expiration) ++ [10])
    (chunks (length results) maxPerPkt results).

(** * Lemmas *)

(** ** Distances as numbers *)
Definition hash_ok (h : list Z) : Prop := length h = 32%nat /\ Forall is_byte h.

Lemma le_val_snoc l x : le_val (l ++ [x]) = le_val l + 256 ^ len l * x.
Proof.
  unfold len. induction l as [|b l IH]; cbn [app le_val length]; [lia|].
  rewrite IH, Nat2Z.inj_succ, Z.pow_succ_r by lia. lia.
Qed.

Lemma be_cons x l : le_val (rev (x :: l)) = le_val (rev l) + 256 ^ len l * x.
Proof. cbn [rev]. rewrite le_val_snoc. unfold len. by rewrite length_rev. Qed.

Lemma be_bound l : Forall is_byte l -> 0 <= le_val (rev l) < 256 ^ len l.
Proof.
  induction 1 as [|x l Hx _ IH]; [done|]. rewrite be_cons. unfold len, is_byte in *. cbn [length].
  rewrite Nat2Z.inj_succ, Z.pow_succ_r by lia. nia.
Qed.

Lemma lxor_byte x y : is_byte x -> is_byte y -> is_byte (Z.lxor x y).
Proof.
  unfold is_byte. intros Hx Hy. split; [apply Z.lxor_nonneg; lia|].
  destruct (Z.eq_dec (Z.lxor x y) 0) as [->|Hne]; [lia|].
  assert (0 < Z.lxor x y) by (assert (0 <= Z.lxor x y) by (apply Z.lxor_nonneg; lia); lia).
  change 256 with (2 ^ 8). apply Z.log2_lt_pow2; [done|].
  pose proof (Z.log2_lxor x y ltac:(lia) ltac:(lia)) as Hl.
  assert (Z.log2 x <= 7) by (change 7 with (Z.log2 255); apply Z.log2_le_mono; lia).
  assert (Z.log2 y <= 7) by (change 7 with (Z.log2 255); apply Z.log2_le_mono; lia). lia.
Qed.

Lemma XOR_bytes a b : Forall is_byte a -> Forall is_byte b -> Forall is_byte (XOR a b).
Proof.
  intros Ha. revert b. induction Ha as [|x a Hx _ IH]; intros b Hb; [constructor|].
  destruct Hb as [|y b Hy Hb]; cbn; constructor; [by apply lxor_byte|by apply IH].
Qed.

(** The number of bits of a number. *)
Definition bit_length (z : Z) : Z := if z =? 0 then 0 else Z.log2 z + 1.

Lemma leading_zero_bits d : 0 < d < 256 -> nth (Z.to_nat d) leadingZeroBits 0 = 8 - bit_length d.
Proof.
  intros Hd.
  assert (F : forallb (fun n => nth n leadingZeroBits 0 =? 8 - bit_length (Z.of_nat n)) (seq 1 255) = true)
    by (vm_compute; reflexivity).
  rewrite forallb_forall in F. specialize (F (Z.to_nat d)). rewrite Z2Nat.id in F by lia.
  apply Z.eqb_eq, F, in_seq. lia.
Qed.

Lemma leading_zeros_from a b lz : leading_zeros a b lz = lz + leading_zeros a b 0.
Proof.
  revert b lz. induction a as [|x a IH]; intros [|y b] lz; cbn [leading_zeros]; try lia.
  destruct (Z.lxor x y =? 0); [|lia]. rewrite IH, (IH b (0 + 8)). lia.
Qed.

Lemma bit_length_high d r k : 0 < d -> 0 <= r < 256 ^ k -> 0 <= k -> bit_length (r + 256 ^ k * d) = 8 * k + bit_length d.
Proof.
  intros Hd Hr Hk. unfold bit_length.
  assert (0 < 256 ^ k) by (apply Z.pow_pos_nonneg; lia).
  destruct (Z.eqb_spec (r + 256 ^ k * d) 0); [nia|]. destruct (Z.eqb_spec d 0); [lia|].
  assert (E : Z.log2 (r + 256 ^ k * d) = 8 * k + Z.log2 d); [|lia].
  pose proof (Z.log2_spec d Hd) as [L U]. pose proof (Z.log2_nonneg d).
  change 256 with (2 ^ 8) in *. rewrite <- Z.pow_mul_r in * by lia.
  apply Z.log2_unique; [lia|]. rewrite <- Z.add_succ_r, !Z.pow_add_r by lia. nia.
Qed.

Lemma leading_zeros_bits a b : length a = length b -> Forall is_byte a -> Forall is_byte b ->
  8 * len a - leading_zeros a b 0 = bit_length (NodeIDDistance a b).
Proof.
  intros Hl Ha. revert b Hl. induction Ha as [|x a Hx Ha IH]; intros [|y b] Hl Hb; try done.
  apply list.Forall_cons in Hb as [Hy Hb]. unfold NodeIDDistance in *. cbn [XOR zip_with leading_zeros].
  fold (XOR a b). rewrite be_cons.
  assert (HL : len (XOR a b) = len a) by (unfold len, XOR; rewrite length_zip_with; cbn in Hl; lia).
  assert (Hlen : len (x :: a) = len a + 1) by (unfold len; cbn; lia).
  destruct (Z.eqb_spec (Z.lxor x y) 0) as [->|Hne].
  - rewrite leading_zeros_from, Z.mul_0_r, Z.add_0_r, <- IH by (done || (cbn in Hl; lia)). lia.
  - pose proof (lxor_byte x y Hx Hy) as Hd. unfold is_byte in Hd.
    pose proof (be_bound _ (XOR_bytes a b Ha Hb)) as Hr.
    rewrite bit_length_high, leading_zero_bits, HL by (lia || (unfold len; lia)). lia.
Qed.

Lemma DistCmpHash_sgn t a b : length t = length a -> length t = length b ->
  Forall is_byte t -> Forall is_byte a -> Forall is_byte b ->
  DistCmpHash t a b = Z.sgn (NodeIDDistance a t - NodeIDDistance b t).
Proof.
  intros Ha Hb Ft. revert a b Ha Hb. induction Ft as [|z t Hz Ft IH]; intros [|x a] [|y b] Ha Hb Fa Fb; try done.
  apply list.Forall_cons in Fa as [Hx Fa], Fb as [Hy Fb]. cbn in Ha, Hb.
  unfold NodeIDDistance in *. cbn [DistCmpHash XOR zip_with]. fold (XOR a t) (XOR b t). rewrite !be_cons.
  assert (La : len (XOR a t) = len t) by (unfold len, XOR; rewrite length_zip_with; lia).
  assert (Lb : len (XOR b t) = len t) by (unfold len, XOR; rewrite length_zip_with; lia).
  pose proof (be_bound _ (XOR_bytes a t Fa Ft)) as Ba. pose proof (be_bound _ (XOR_bytes b t Fb Ft)) as Bb.
  rewrite La, Lb in *. specialize (IH a b ltac:(lia) ltac:(lia) Fa Fb).
  destruct (Z.gtb_spec (Z.lxor x z) (Z.lxor y z)).
  - symmetry. apply Z.sgn_pos. nia.
  - destruct (Z.ltb_spec (Z.lxor x z) (Z.lxor y z)); [symmetry; apply Z.sgn_neg; nia|].
    rewrite IH. f_equal. assert (Z.lxor x z = Z.lxor y z) by lia. nia.
Qed.

(** ** Binary search *)
Lemma search_loop_spec f n k : (k <= n)%nat -> (forall i, (i < k)%nat -> f i = false) ->
  (forall i, (k <= i < n)%nat -> f i = true) ->
  forall fuel i j, (i <= k <= j)%nat -> (j <= n)%nat -> (j - i < fuel)%nat -> search_loop fuel f i j = k.
Proof.
  intros Hk Hlo Hhi. induction fuel as [|fuel IH]; intros i j Hij Hj Hf; [lia|]. cbn [search_loop].
  destruct (Nat.ltb_spec i j); [|lia].
  assert (H1 : ((i + j) / 2 < j)%nat) by (apply Nat.Div0.div_lt_upper_bound; lia).
  assert (H2 : (i <= (i + j) / 2)%nat) by (apply Nat.div_le_lower_bound; lia).
  destruct (Nat.lt_ge_cases ((i + j) / 2) k) as [Hlt|Hge].
  - rewrite Hlo by done. apply IH; lia.
  - rewrite Hhi by lia. apply IH; lia.
Qed.

Lemma Search_spec f n k : (k <= n)%nat -> (forall i, (i < k)%nat -> f i = false) ->
  (forall i, (k <= i < n)%nat -> f i = true) -> Search n f = k.
Proof. intros. apply (search_loop_spec f n); try done; lia. Qed.

(** ** The nearest nodes *)
Section nearest.
Variable target : Hash.
Hypothesis target_ok : hash_ok target.

Definition distance (n : Node) : Z := NodeIDDistance (n_sha n) target.
Definition nearer (a b : Node) : Prop := distance a <= distance b.

Lemma sorted_split (d : Z) l : StronglySorted nearer l ->
  exists l1 l2, l = l1 ++ l2 /\ Forall (fun e => distance e <= d) l1 /\ Forall (fun e => d < distance e) l2.
Proof.
  induction 1 as [|e l Hs (l1 & l2 & -> & F1 & F2) Hf]; [by exists [], []|].
  destruct (Z.le_gt_cases (distance e) d).
  - exists (e :: l1), l2. repeat split; by try constructor.
  - exists [], (e :: l1 ++ l2). repeat split; [constructor|]. constructor; [done|].
    eapply list.Forall_impl; [exact Hf|]. unfold nearer. cbn. lia.
Qed.

Lemma Push_split maxElems l n : StronglySorted nearer l -> Forall (fun e => hash_ok (n_sha e)) (n :: l) ->
  exists l1 l2, l = l1 ++ l2 /\ Forall (fun e => distance e <= distance n) l1 /\
    Forall (fun e => distance n < distance e) l2 /\
    Push target maxElems l n =
    (if len l <? maxElems then l1 ++ n :: l2 else match l2 with [] => l | _ => l1 ++ n :: removelast l2 end).
Proof.
  intros Hs Hok. destruct (sorted_split (distance n) l Hs) as (l1 & l2 & -> & F1 & F2).
  exists l1, l2. split_and!; [done..|].
  apply list.Forall_cons in Hok as [[Hln Hbn] Hok]. destruct target_ok as [Hlt Hbt].
  assert (Hcmp : forall i e, (l1 ++ l2) !! i = Some e ->
    DistCmpHash target (n_sha e) (n_sha n) = Z.sgn (distance e - distance n)).
  { intros i e Hi. destruct (proj1 (list.Forall_lookup _ _) Hok i e Hi) as [He Hbe].
    apply DistCmpHash_sgn; try done; lia. }
  assert (HS : Search (length (l1 ++ l2)) (fun i => match (l1 ++ l2) !! i with
      | Some e => DistCmpHash target (n_sha e) (n_sha n) >? 0 | None => false end) = length l1).
  { apply Search_spec; [rewrite length_app; lia| |].
    - intros i Hi. destruct ((l1 ++ l2) !! i) as [e|] eqn:E; [|done]. rewrite (Hcmp i e E).
      rewrite lookup_app_l in E by done. pose proof (proj1 (list.Forall_lookup _ _) F1 i e E). cbn in *.
      destruct (Z.gtb_spec (Z.sgn (distance e - distance n)) 0) as [Hg|]; [|done].
      apply Z.sgn_pos_iff in Hg. lia.
    - intros i [Hi1 Hi2]. destruct ((l1 ++ l2) !! i) as [e|] eqn:E.
      + rewrite (Hcmp i e E). rewrite lookup_app_r in E by lia.
        pose proof (proj1 (list.Forall_lookup _ _) F2 _ e E). cbn in *.
        rewrite Z.sgn_pos by lia. done.
      + apply lookup_ge_None in E. lia. }
  unfold Push. rewrite HS. case_match; [by rewrite take_app_length, drop_app_length|].
  destruct l2 as [|z l2].
  - rewrite app_nil_r. by rewrite Nat.leb_refl.
  - rewrite length_app. cbn [length]. destruct (Nat.leb_spec (length l1 + S (length l2)) (length l1)); [lia|].
    rewrite removelast_app by done. by rewrite take_app_length, drop_app_length.
Qed.

(** The nodes kept so far are the nearest of those seen, in order. *)
Definition kept_nearest (maxElems : Z) (seen l : list Node) : Prop :=
  StronglySorted nearer l /\ length l = Nat.min (Z.to_nat maxElems) (length seen) /\
  exists rest, l ++ rest ≡ₚ seen /\ forall x y, x ∈ l -> y ∈ rest -> nearer x y.

Lemma ssorted_app (l1 l2 : list Node) : StronglySorted nearer (l1 ++ l2) <->
  StronglySorted nearer l1 /\ StronglySorted nearer l2 /\ forall x y, x ∈ l1 -> y ∈ l2 -> nearer x y.
Proof.
  induction l1 as [|a l1 IH]; cbn.
  - split; [intros H; split_and!; [constructor|done|set_solver]|tauto].
  - split.
    + inversion 1 as [|? ? Hs Hf]; subst. apply IH in Hs as (S1 & S2 & HC). apply list.Forall_app in Hf as [Hf1 Hf2].
      split_and!; [by constructor|done|]. intros x y [->|Hx]%elem_of_cons Hy; [|by apply HC].
      by eapply list.Forall_forall in Hf2.
    + intros (S1 & S2 & HC). inversion S1; subst. constructor; [apply IH; split_and!; [done..|set_solver]|].
      apply list.Forall_app. split; [done|]. apply list.Forall_forall. intros y Hy. apply HC; [set_solver|done].
Qed.

Lemma ssorted_removelast l : StronglySorted nearer l -> StronglySorted nearer (removelast l).
Proof.
  destruct l as [|x l] using rev_ind; [done|]. rewrite removelast_last. rewrite ssorted_app. tauto.
Qed.

Lemma Push_kept maxElems seen l n : Forall (fun e => hash_ok (n_sha e)) (n :: l) ->
  kept_nearest maxElems seen l -> kept_nearest maxElems (seen ++ [n]) (Push target maxElems l n).
Proof.
  intros Hok (Hs & Hl & rest & Hp & Hr).
  destruct (Push_split maxElems l n Hs Hok) as (l1 & l2 & El & F1 & F2 & ->). subst l.
  rewrite list.Forall_forall in F1, F2. apply ssorted_app in Hs as (S1 & S2 & HC).
  assert (Hlen : length seen = (length (l1 ++ l2) + length rest)%nat) by (rewrite <- Hp, length_app; done).
  assert (Hn : forall l2', StronglySorted nearer l2' -> (forall y, y ∈ l2' -> y ∈ l2) ->
    StronglySorted nearer (l1 ++ n :: l2')).
  { intros l2' Hs' Hsub. apply ssorted_app. split_and!; [done| |].
    - constructor; [done|]. apply list.Forall_forall. intros y Hy. specialize (F2 y (Hsub y Hy)). unfold nearer. lia.
    - intros x y Hx [->|Hy]%elem_of_cons; [by apply F1|]. apply HC; auto. }
  unfold len in *. destruct (Z.ltb_spec (Z.of_nat (length (l1 ++ l2))) maxElems).
  - assert (rest = []) as -> by (apply nil_length_inv; rewrite length_app in *; lia).
    split; [by apply Hn|]. split; [rewrite !length_app in *; cbn in *; lia|]. exists []. split; [|set_solver].
    rewrite app_nil_r in *. rewrite <- Hp. solve_Permutation.
  - destruct l2 as [|z l2] using rev_ind.
    + rewrite app_nil_r in *. split; [done|]. split; [rewrite length_app in *; cbn; lia|].
      exists (n :: rest). split; [rewrite <- Hp; solve_Permutation|].
      intros x y Hx [->|Hy]%elem_of_cons; [by apply F1|by apply Hr].
    + assert (Hz : distance n < distance z) by (apply F2; set_solver).
      apply ssorted_app in S2 as (S2 & _ & HCz).
      destruct (l2 ++ [z]) eqn:E; [by destruct l2|]. rewrite <- E in *. rewrite removelast_last.
      split; [apply Hn; [done|set_solver]|].
      split; [rewrite !length_app in *; cbn in *; lia|].
      exists (z :: rest). split; [rewrite <- Hp; solve_Permutation|].
      intros x y Hx Hy. unfold nearer in *.
      apply elem_of_app in Hx as [Hx|[->|Hx]%elem_of_cons]; apply elem_of_cons in Hy as [->|Hy].
      * apply HC; set_solver.
      * apply Hr; set_solver.
      * lia.
      * assert (distance z <= distance y) by (apply Hr; set_solver). lia.
      * apply HCz; set_solver.
      * apply Hr; set_solver.
Qed.

Lemma Push_sub maxElems l n x : x ∈ Push target maxElems l n -> x = n \/ x ∈ l.
Proof.
  unfold Push. generalize (Search (length l) (fun i => match l !! i with
    | Some e => DistCmpHash target (n_sha e) (n_sha n) >? 0 | None => false end)). intros ix.
  assert (Hd : forall y, y ∈ drop ix (removelast l) -> y ∈ l).
  { intros y Hy.
    assert (Hi : y ∈ removelast l) by (rewrite <- (take_drop ix (removelast l)); apply elem_of_app; by right).
    destruct l as [|z l] using rev_ind; [done|]. rewrite removelast_last in Hi. set_solver. }
  pose proof (take_drop ix l) as E. intros Hx. repeat case_match; [|by right|].
  - rewrite <- E. set_solver.
  - apply elem_of_app in Hx as [Hx|[->|Hx]%elem_of_cons]; [right|by left|by right; apply Hd].
    rewrite <- E. set_solver.
Qed.

Lemma foldl_kept maxElems ns : Forall (fun e => hash_ok (n_sha e)) ns ->
  kept_nearest maxElems ns (foldl (Push target maxElems) [] ns) /\
  (forall x, x ∈ foldl (Push target maxElems) [] ns -> x ∈ ns).
Proof.
  induction ns as [|n ns IH] using rev_ind; intros Hok.
  - split; [|done]. split; [constructor|]. split; [cbn; lia|]. exists []. split; [done|set_solver].
  - apply list.Forall_app in Hok as [Hok Hn]. destruct (IH Hok) as [Hk Hsub]. rewrite foldl_app. cbn [foldl]. split.
    + apply Push_kept; [|done]. apply list.Forall_cons. split; [by apply list.Forall_cons in Hn as []|].
      apply list.Forall_forall. intros x Hx. exact (proj1 (list.Forall_forall _ _) Hok x (Hsub x Hx)).
    + intros x Hx. apply elem_of_app. apply Push_sub in Hx as [->|Hx]; [right; by constructor|left; by apply Hsub].
Qed.
End nearest.

(** ** The table *)
Definition made_node (n : Node) : Prop := n_sha n = NodeIDSha256 (n_ID n).

Lemma made_hash n : made_node n -> hash_ok (n_sha n).
Proof. intros ->. split; [apply sha256_length|apply sha256_range]. Qed.

Lemma NewNode_made id ip udp tcp : made_node (NewNode id ip udp tcp).
Proof. done. Qed.

Lemma same_id_spec a b : same_id a b = true <-> n_ID a = n_ID b.
Proof. unfold same_id. apply bool_decide_eq_true. Qed.

Lemma same_id_false a b : same_id a b = false <-> n_ID a <> n_ID b.
Proof. unfold same_id. apply bool_decide_eq_false. Qed.

(** Where a node belongs in the table of [self]. *)
Definition belongs (self : Node) (i : nat) (n : Node) : Prop :=
  made_node n /\ n_ID n <> n_ID self /\ LogDistHash (n_sha self) (n_sha n) = Z.of_nat i.

Record bucket_ok (self : Node) (size : Z) (i : nat) (b : bucket) : Prop := {
  b_place : Forall (belongs self i) (entries b ++ replacements b);
  b_once : NoDup (map n_ID (entries b ++ replacements b));
  b_size : len (entries b) <= size;
  b_spare : len (replacements b) <= size;
  b_full : replacements b <> [] -> len (entries b) = size }.

Record table_ok (tab : Table) : Prop := {
  t_self_made : made_node (t_self tab);
  t_size : 0 < t_bucketSize tab;
  t_each : forall i b, t_buckets tab !! i = Some b -> bucket_ok (t_self tab) (t_bucketSize tab) i b;
  t_total : t_count tab = len (all_entries tab) }.

Lemma NewTable_ok id ip port size : table_ok (NewTable id ip port size).
Proof.
  split; cbn.
  - done.
  - case_match; [done|]. lia.
  - intros i b Hb. change (257%nat) with (Z.to_nat NBuckets) in Hb. apply lookup_replicate in Hb as [-> _].
    case_match; split; cbn; (done || constructor || unfold len; cbn; lia).
  - unfold all_entries. cbn [t_buckets]. generalize (Z.to_nat NBuckets). intros n.
    induction n as [|n IH]; [done|]. cbn. exact IH.
Qed.

Lemma bucket_of_spec n tab b : bucket_of n tab = Some b ->
  t_buckets tab !! Z.to_nat (bucket_index n tab) = Some b /\ 0 <= bucket_index n tab.
Proof. unfold bucket_of. destruct (Z.ltb_spec (bucket_index n tab) 0); cbn; [done|]. case_match; [done|]. auto. Qed.

Lemma all_entries_insert tab i b b' count : t_buckets tab !! i = Some b ->
  len (all_entries (mkTable count (<[i := b']> (t_buckets tab)) (t_self tab) (t_bucketSize tab)))
  = len (all_entries tab) - len (entries b) + len (entries b').
Proof.
  unfold all_entries, len. cbn [t_buckets]. generalize (t_buckets tab). intros bs. revert i.
  induction bs as [|b0 bs IH]; intros [|i] Hi; cbn in Hi; [done..| |].
  - injection Hi as ->. cbn. rewrite !length_app. lia.
  - specialize (IH i Hi). change (<[S i:=b']> (b0 :: bs)) with (b0 :: <[i:=b']> bs).
    cbn [map concat]. rewrite !length_app. lia.
Qed.

(** One bucket changes: the rest of the table stays. *)
Lemma with_bucket_ok tab i b b' count : table_ok tab -> t_buckets tab !! Z.to_nat i = Some b ->
  bucket_ok (t_self tab) (t_bucketSize tab) (Z.to_nat i) b' ->
  count = t_count tab - len (entries b) + len (entries b') -> table_ok (with_bucket i b' count tab).
Proof.
  intros [Hm Hs He Ht] Hi Hb Hc. split; cbn [with_bucket t_self t_bucketSize t_count t_buckets]; [done..| |].
  - intros j x Hj. apply list_lookup_insert_Some in Hj as [(<- & <- & _)|[_ Hj]]; [done|by apply He].
  - unfold with_bucket. rewrite (all_entries_insert tab _ b) by done. lia.
Qed.

Lemma belongs_new tab n : made_node n -> n_ID n <> n_ID (t_self tab) -> 0 <= bucket_index n tab ->
  belongs (t_self tab) (Z.to_nat (bucket_index n tab)) n.
Proof. intros Hm Hn Hi. split_and!; [done..|]. rewrite Z2Nat.id by done. done. Qed.

Lemma id_index_none n l : id_index n l = None -> n_ID n ∉ map n_ID l.
Proof.
  induction l as [|e l IH]; cbn; [intros _; apply not_elem_of_nil|].
  destruct (same_id e n) eqn:E; [done|]. apply same_id_false in E.
  destruct (id_index n l) eqn:EI; [done|]. intros _. apply not_elem_of_cons. split; [congruence|by apply IH].
Qed.

Lemma id_index_some n l i : id_index n l = Some i -> exists e, l !! i = Some e /\ n_ID e = n_ID n.
Proof.
  revert i. induction l as [|e l IH]; intros i; cbn; [done|]. destruct (same_id e n) eqn:E.
  - intros [= <-]. apply same_id_spec in E. by exists e.
  - destruct (id_index n l) as [j|] eqn:EI; [|done]. cbn. intros [= <-]. by apply (IH j).
Qed.

Lemma without_spec n l e : e ∈ without n l <-> e ∈ l /\ n_ID e <> n_ID n.
Proof.
  unfold without. rewrite !list_elem_of_In, filter_In. split; intros [Hi He]; (split; [done|]).
  - apply same_id_false. by destruct (same_id e n).
  - apply same_id_false in He. by rewrite He.
Qed.

Lemma without_sub n l : without n l `sublist_of` l.
Proof. induction l as [|e l IH]; cbn; [done|]. destruct (same_id e n); cbn; by constructor. Qed.

Lemma without_id n l : n_ID n ∉ map n_ID (without n l).
Proof. intros (e & E & He)%list_elem_of_fmap. apply without_spec in He as [_ He]. congruence. Qed.

Lemma trim_sub size l : exists l0, l = l0 ++ trim size l.
Proof.
  unfold trim. case_match; [|by exists []]. eexists. symmetry. apply take_drop.
Qed.

Lemma trim_len size l : 0 <= size -> len (trim size l) <= size.
Proof. intros Hs. unfold trim. destruct (Z.ltb_spec size (len l)); [|lia]. unfold len in *. rewrite length_drop. lia. Qed.

(** Fewer nodes, in another order. *)
Lemma fewer_nodes self i (l l' : list Node) : l' ⊆+ l -> Forall (belongs self i) l -> NoDup (map n_ID l) ->
  Forall (belongs self i) l' /\ NoDup (map n_ID l').
Proof.
  intros Hs Hf Hn. split.
  - apply list.Forall_forall. intros x Hx. exact (proj1 (list.Forall_forall _ _) Hf x (elem_of_submseteq _ _ _ Hx Hs)).
  - apply submseteq_Permutation in Hs as [k Hk]. rewrite (fmap_Permutation n_ID _ _ Hk) in Hn.
    change (map n_ID l') with (n_ID <$> l'). rewrite fmap_app in Hn. by apply list.NoDup_app in Hn as [Hn _].
Qed.

Lemma bump_ok self size i n b b' : belongs self i n -> bump n b = Some b' -> bucket_ok self size i b ->
  bucket_ok self size i b' /\ len (entries b') = len (entries b).
Proof.
  intros Hn E [Hp Ho Hs Hr Hf]. unfold bump in E. destruct (id_index n (entries b)) as [k|] eqn:EI; [|done].
  injection E as <-. cbn [entries replacements]. destruct (id_index_some _ _ _ EI) as (e & He & Hid).
  assert (P : entries b ≡ₚ e :: take k (entries b) ++ drop (S k) (entries b)) by (rewrite <- delete_take_drop; by apply delete_Permutation).
  assert (L : len (n :: take k (entries b) ++ drop (S k) (entries b)) = len (entries b)).
  { unfold len. f_equal. apply Permutation_length in P. cbn in *. lia. }
  assert (Hids : map n_ID ((n :: take k (entries b) ++ drop (S k) (entries b)) ++ replacements b)
                 ≡ₚ map n_ID (entries b ++ replacements b)).
  { transitivity (map n_ID ((e :: take k (entries b) ++ drop (S k) (entries b)) ++ replacements b)).
    - cbn. by rewrite Hid.
    - apply (fmap_Permutation n_ID). by rewrite <- P. }
  split; [|done]. split; cbn [entries replacements]; [| |lia|done|rewrite L; auto].
  - cbn. constructor; [done|]. rewrite P in Hp. cbn in Hp. by apply list.Forall_cons in Hp as [_ Hp].
  - by rewrite Hids.
Qed.

Lemma addFront_ok self size i n b : belongs self i n -> n_ID n ∉ map n_ID (entries b) ->
  len (entries b) < size -> bucket_ok self size i b -> bucket_ok self size i (addFront n b).
Proof.
  intros Hn Hid Hlt [Hp Ho Hs Hr Hf].
  assert (Er : replacements b = []) by (destruct (replacements b); [done|]; specialize (Hf ltac:(done)); lia).
  rewrite Er, app_nil_r in *. split; cbn; rewrite ?Er, ?app_nil_r; [by constructor|by constructor| |done|done].
  unfold len in *. cbn. lia.
Qed.

Lemma spare_ok self size i n b : belongs self i n -> n_ID n ∉ map n_ID (entries b) ->
  0 < size -> ~ len (entries b) < size -> bucket_ok self size i b ->
  bucket_ok self size i (mkBucket (entries b) (trim size (without n (replacements b) ++ [n]))).
Proof.
  intros Hn Hid Hpos Hge [Hp Ho Hs Hr Hf]. destruct (trim_sub size (without n (replacements b) ++ [n])) as [l0 E].
  assert (S1 : entries b ++ trim size (without n (replacements b) ++ [n])
               ⊆+ n :: entries b ++ without n (replacements b)).
  { transitivity (entries b ++ without n (replacements b) ++ [n]).
    - apply submseteq_app; [done|]. rewrite E at 2. apply submseteq_inserts_l. done.
    - apply Permutation_submseteq. solve_Permutation. }
  assert (S2 : entries b ++ without n (replacements b) ⊆+ entries b ++ replacements b).
  { apply submseteq_app; [done|]. apply sublist_submseteq, without_sub. }
  destruct (fewer_nodes _ _ _ _ S2 Hp Ho) as [Hp2 Ho2].
  assert (Hno : n_ID n ∉ map n_ID (entries b ++ without n (replacements b))).
  { rewrite map_app, elem_of_app. intros [H|H]; [done|by apply without_id in H]. }
  destruct (fewer_nodes self i _ _ S1 ltac:(by constructor) ltac:(by constructor)) as [Hp1 Ho1].
  split; cbn [entries replacements]; [done|done|done|apply trim_len; lia|lia].
Qed.

Lemma without_all n l : n_ID n ∉ map n_ID l -> without n l = l.
Proof.
  induction l as [|e l IH]; cbn; [done|]. rewrite not_elem_of_cons. intros [He Hl].
  assert (same_id e n = false) as -> by (apply same_id_false; congruence). cbn. f_equal. auto.
Qed.

Lemma without_len n l : NoDup (map n_ID l) -> len l - 1 <= len (without n l) <= len l.
Proof.
  unfold len. induction l as [|e l IH]; cbn [map without List.filter length]; [lia|]. intros [Hn Hd]%list.NoDup_cons.
  specialize (IH Hd). destruct (same_id e n) eqn:E; cbn [negb].
  - apply same_id_spec in E. fold (without n l). rewrite without_all by (by rewrite <- E). lia.
  - fold (without n l). cbn [length]. lia.
Qed.

Lemma refill_ok self size i n b (b1 := mkBucket (without n (entries b)) (without n (replacements b))) :
  0 < size -> bucket_ok self size i b ->
  bucket_ok self size i
    (match last (replacements b1) with
     | Some r => if len (entries b1) <? size then mkBucket (r :: entries b1) (removelast (replacements b1)) else b1
     | None => b1
     end).
Proof.
  intros Hpos [Hp Ho Hs Hr Hf].
  assert (Hsub : entries b1 ++ replacements b1 ⊆+ entries b ++ replacements b).
  { apply submseteq_app; apply sublist_submseteq, without_sub. }
  destruct (fewer_nodes _ _ _ _ Hsub Hp Ho) as [Hp1 Ho1].
  rewrite map_app in Ho. apply list.NoDup_app in Ho as (Hoe & _ & Hor).
  pose proof (without_len n (entries b) Hoe) as Le. pose proof (without_len n (replacements b) Hor) as Lr.
  assert (Hf1 : replacements b1 <> [] -> len (entries b) = size).
  { intros Hne. apply Hf. intros E. apply Hne. cbn. by rewrite E. }
  destruct (last (replacements b1)) as [r|] eqn:EL.
  - apply last_Some in EL as [l' EL]. destruct (Z.ltb_spec (len (entries b1)) size) as [Hlt|Hge].
    + rewrite EL, removelast_last.
      assert (Hs2 : (r :: entries b1) ++ l' ⊆+ entries b1 ++ replacements b1).
      { rewrite EL. apply Permutation_submseteq. solve_Permutation. }
      destruct (fewer_nodes _ _ _ _ Hs2 Hp1 Ho1) as [Hp2 Ho2].
      assert (Hne : replacements b1 <> []) by (rewrite EL; by destruct l'). specialize (Hf1 Hne).
      assert (Lr' : len l' < len (replacements b1)) by (rewrite EL; unfold len; rewrite length_app; cbn; lia).
      split; cbn [entries replacements]; [done|done| | |intros _]; unfold len in *; cbn [entries replacements length b1] in *; lia.
    + split; [done|done|unfold b1; cbn; lia|unfold b1; cbn; lia|intros _]. unfold b1 in *. cbn [entries] in *. lia.
  - apply last_None in EL. split; [done|done|unfold b1; cbn; lia|unfold b1; cbn; lia|done].
Qed.

(** *** The operations *)
Lemma Add_ok n tab : made_node n -> table_ok tab -> table_ok (fst (Add n tab)).
Proof.
  intros Hm Ht. unfold Add. destruct (same_id n (t_self tab)) eqn:ES; [done|]. apply same_id_false in ES.
  destruct (bucket_of n tab) as [b|] eqn:EB; [|done]. apply bucket_of_spec in EB as [EB Hi].
  pose proof (t_each tab Ht _ _ EB) as Hb. pose proof (belongs_new tab n Hm ES Hi) as Hn.
  destruct (bump n b) as [b'|] eqn:EU.
  - destruct (bump_ok _ _ _ _ _ _ Hn EU Hb). apply (with_bucket_ok _ _ b); [done..|lia].
  - assert (Hid : n_ID n ∉ map n_ID (entries b)).
    { unfold bump in EU. destruct (id_index n (entries b)) eqn:E; [done|]. by apply id_index_none. }
    destruct (Z.ltb_spec (len (entries b)) (t_bucketSize tab)).
    + apply (with_bucket_ok _ _ b); [done|done|by apply addFront_ok|]. unfold len. cbn. lia.
    + apply (with_bucket_ok _ _ b); [done|done| |cbn; lia].
      apply (spare_ok _ _ _ n b); [done|done|apply Ht|lia|done].
Qed.

Lemma stuff_ok n tab : made_node n -> table_ok tab -> table_ok (stuff_one tab n).
Proof.
  intros Hm Ht. unfold stuff_one. destruct (same_id n (t_self tab)) eqn:ES; [done|]. apply same_id_false in ES.
  destruct (bucket_of n tab) as [b|] eqn:EB; [|done]. apply bucket_of_spec in EB as [EB Hi].
  pose proof (t_each tab Ht _ _ EB) as Hb. pose proof (belongs_new tab n Hm ES Hi) as Hn.
  destruct (existsb _ _) eqn:EX; cbn; [done|]. case_match eqn:EL; [|done]. apply Z.ltb_lt in EL.
  apply (with_bucket_ok _ _ b); [done|done| |unfold len; cbn; lia]. apply addFront_ok; try done.
  intros (e & E & He)%list_elem_of_fmap.
  assert (existsb (fun e => same_id e n) (entries b) = true); [|congruence].
  apply existsb_exists. exists e. split; [by apply list_elem_of_In|by apply same_id_spec].
Qed.

Lemma Stuff_ok ns tab : Forall made_node ns -> table_ok tab -> table_ok (Stuff ns tab).
Proof.
  intros Hns. unfold Stuff. revert tab. induction Hns as [|n ns Hn _ IH]; intros tab Ht; cbn; [done|].
  by apply IH, stuff_ok.
Qed.

Lemma DeleteReplace_ok n tab : table_ok tab -> table_ok (DeleteReplace n tab).
Proof.
  intros Ht. unfold DeleteReplace. destruct (bucket_of n tab) as [b|] eqn:EB; [|done].
  apply bucket_of_spec in EB as [EB Hi]. pose proof (t_each tab Ht _ _ EB) as Hb.
  pose proof (refill_ok _ _ _ n b (t_size tab Ht) Hb) as Hr. unfold deleteFromReplacement. cbn [entries replacements] in *.
  destruct (last (without n (replacements b))) as [r|]; [case_match|];
    (apply (with_bucket_ok _ _ b); [done|done|exact Hr|]); unfold len; cbn [entries length]; lia.
Qed.

(** ** Reading the table *)
Definition made_table (tab : Table) : Prop :=
  made_node (t_self tab) /\ forall b, b ∈ t_buckets tab -> Forall made_node (entries b ++ replacements b).

Lemma in_entries tab e : e ∈ all_entries tab <-> exists i b, t_buckets tab !! i = Some b /\ e ∈ entries b.
Proof.
  unfold all_entries. rewrite list_elem_of_In, in_concat. setoid_rewrite <- list_elem_of_In.
  setoid_rewrite list_elem_of_fmap. setoid_rewrite list_elem_of_lookup. naive_solver.
Qed.

Lemma made_entries tab : made_table tab -> Forall (fun e => hash_ok (n_sha e)) (all_entries tab).
Proof.
  intros [_ H]. apply list.Forall_forall. intros e (i & b & Hi & He)%in_entries.
  apply list_elem_of_lookup_2 in Hi. specialize (H b Hi). apply list.Forall_app in H as [H _].
  apply made_hash. by eapply (proj1 (list.Forall_forall _ _) H).
Qed.

(** ** Random reading *)
Lemma insert_perm {A : Type} (l : list A) i x : (i < length l)%nat -> <[i := x]> l ≡ₚ x :: delete i l.
Proof.
  intros Hi. rewrite (delete_Permutation (<[i := x]> l) i x) by (by apply list_lookup_insert_eq).
  by rewrite !delete_take_drop, take_insert_ge, drop_insert_lt by lia.
Qed.

Lemma swap_perm {A : Type} i j (l : list A) : swap_at i j l ≡ₚ l.
Proof.
  unfold swap_at. destruct (l !! i) as [x|] eqn:Ei; [|done]. destruct (l !! j) as [y|] eqn:Ej; [|done].
  pose proof (lookup_lt_Some _ _ _ Ei) as Li. pose proof (lookup_lt_Some _ _ _ Ej) as Lj.
  assert (My : <[i := y]> l !! j = Some y).
  { destruct (decide (i = j)) as [->|]; [by apply list_lookup_insert_eq|by rewrite list_lookup_insert_ne]. }
  assert (P1 : <[i := y]> l ≡ₚ y :: delete i l) by (by apply insert_perm).
  rewrite (delete_Permutation _ j y My) in P1. apply Permutation_cons_inv in P1.
  rewrite insert_perm, P1 by (by rewrite length_insert). by rewrite <- delete_Permutation.
Qed.

Lemma shuffle_perm {A : Type} words i (l : list A) : shuffle i words l ≡ₚ l.
Proof.
  revert l. induction i as [|i IH]; intros l; cbn [shuffle]; [done|]. rewrite IH.
  case_match; [apply swap_perm|done].
Qed.

Lemma concat_take_out (bs : list (list Node)) j x rest : bs !! j = Some (x :: rest) ->
  concat bs ≡ₚ x :: concat (<[j := rest]> bs).
Proof.
  revert j. induction bs as [|b bs IH]; intros [|j] Hj; cbn in Hj; [done..| |].
  - injection Hj as ->. done.
  - change (<[S j := rest]> (b :: bs)) with (b :: <[j := rest]> bs). cbn [concat]. rewrite (IH j Hj). solve_Permutation.
Qed.

Lemma concat_remove (bs : list (list Node)) j : bs !! j = Some [] -> concat (remove_at j bs) = concat bs.
Proof.
  unfold remove_at. revert j. induction bs as [|b bs IH]; intros [|j] Hj; cbn in Hj; [done..| |].
  - injection Hj as ->. cbn. by rewrite drop_0.
  - cbn. f_equal. by apply IH.
Qed.

Lemma draw_spec room bs j : Forall (fun b => b <> []) bs -> (bs <> [] -> j < length bs)%nat ->
  length (draw room bs j) = Nat.min room (length (concat bs)) /\
  exists rest, draw room bs j ++ rest ≡ₚ concat bs.
Proof.
  revert bs j. induction room as [|room IH]; intros bs j Hf Hj; cbn [draw]; [split; [done|by exists (concat bs)]|].
  destruct (bs !! j) as [b|] eqn:E.
  2:{ apply lookup_ge_None in E. destruct bs; [split; [done|by exists []]|]. specialize (Hj ltac:(done)). lia. }
  pose proof (proj1 (list.Forall_lookup _ _) Hf j b E) as Hb. pose proof (lookup_lt_Some _ _ _ E) as Lj.
  destruct b as [|x rest]; [done|]. pose proof (concat_take_out bs j x rest E) as P.
  destruct rest as [|y rest].
  - assert (EC : concat (remove_at j (<[j := []]> bs)) = concat (<[j := []]> bs)).
    { apply concat_remove. by apply list_lookup_insert_eq. }
    assert (HF : Forall (fun b => b <> []) (remove_at j (<[j := []]> bs))).
    { unfold remove_at. rewrite take_insert_ge, drop_insert_lt by lia.
      rewrite <- (take_drop j bs) in Hf. apply list.Forall_app in Hf as [F1 F2]. apply list.Forall_app. split; [done|].
      rewrite (drop_S _ _ _ E) in F2. by apply list.Forall_cons in F2 as []. }
    destruct (remove_at j (<[j := []]> bs)) as [|b' bs'] eqn:ER.
    + cbn in EC. rewrite <- EC in P. split; [rewrite P; cbn; lia|]. exists []. by rewrite P.
    + rewrite <- ER in *. clear ER b' bs'. destruct (IH (remove_at j (<[j := []]> bs)) (1 mod length (remove_at j (<[j := []]> bs)))%nat HF)
        as [L (rest & R)].
      { intros Hne. apply Nat.mod_upper_bound. by destruct (remove_at j (<[j := []]> bs)). }
      cbn [length]. rewrite L, P, EC. split; [cbn; lia|]. exists rest. cbn. by rewrite R, EC.
  - destruct (IH (<[j := y :: rest]> bs) (S j mod length (<[j := y :: rest]> bs))%nat) as [L (rest' & R)].
    + by apply list.Forall_insert.
    + intros Hne. apply Nat.mod_upper_bound. by destruct (<[j := y :: rest]> bs).
    + cbn [length]. rewrite L, P. split; [cbn; lia|]. exists rest'. cbn. by rewrite R.
Qed.

(** ** Text *)
Lemma hex_digit_byte d : 0 <= d < 16 -> hexCharToByte (hex_digit d) = d.
Proof.
  intros Hd. assert (F : forallb (fun n => hexCharToByte (hex_digit (Z.of_nat n)) =? Z.of_nat n) (seq 0 16) = true)
    by (vm_compute; reflexivity).
  rewrite forallb_forall in F. specialize (F (Z.to_nat d)). rewrite Z2Nat.id in F by lia. apply Z.eqb_eq, F, in_seq. lia.
Qed.

Lemma hex_pairs_encode l : Forall is_byte l -> hex_pairs (hex_encode l) = Ok l.
Proof.
  induction 1 as [|b l Hb _ IH]; [done|]. unfold is_byte in Hb. cbn [hex_encode hex_pairs].
  assert (0 <= b / 16 < 16) by (split; [apply Z.div_pos|apply Z.div_lt_upper_bound]; lia).
  pose proof (Z.mod_pos_bound b 16 ltac:(lia)).
  rewrite !hex_digit_byte by lia.
  destruct (Z.eqb_spec (b / 16) 255); [lia|]. destruct (Z.eqb_spec (b mod 16) 255); [lia|]. cbn [orb].
  rewrite IH. cbn. f_equal. f_equal. unfold u8. rewrite Z.shiftl_mul_pow2 by lia.
  rewrite Z.mod_small by lia. rewrite Z.lor_comm. rewrite <- Z.shiftl_mul_pow2 by lia. rewrite lor_shifted by lia.
  pose proof (Z.div_mod b 16 ltac:(lia)). lia.
Qed.

Lemma hex_digit_no_x d : 0 <= d < 16 -> Z_of_ascii (hex_digit d) <> 120 /\ Z_of_ascii (hex_digit d) <> 88.
Proof.
  intros Hd. assert (F : forallb (fun n => negb (Z_of_ascii (hex_digit (Z.of_nat n)) =? 120) && negb (Z_of_ascii (hex_digit (Z.of_nat n)) =? 88)) (seq 0 16) = true)
    by (vm_compute; reflexivity).
  rewrite forallb_forall in F. specialize (F (Z.to_nat d)). rewrite Z2Nat.id in F by lia.
  assert (Hin : In (Z.to_nat d) (seq 0 16)) by (apply in_seq; lia). apply F, andb_true_iff in Hin as [H1 H2].
  rewrite negb_true_iff, Z.eqb_neq in H1, H2. done.
Qed.

(** ** Sequences of operations *)
Inductive table_op : Type :=
| OpAdd (id : NodeID) (ip : option (list Z)) (udp tcp : Z)
| OpStuff (nodes : list (NodeID * option (list Z) * Z * Z))
| OpDeleteReplace (id : NodeID)
| OpDelete (id : NodeID).

Definition run_op (tab : Table) (op : table_op) : Table :=
  match op with
  | OpAdd id ip udp tcp => fst (Add (NewNode id ip udp tcp) tab)
  | OpStuff nodes => Stuff (map (fun '(id, ip, udp, tcp) => NewNode id ip udp tcp) nodes) tab
  | OpDeleteReplace id => DeleteReplace (NewNode id None 0 0) tab
  | OpDelete id => Delete (NewNode id None 0 0) tab
  end.

Definition no_delete (op : table_op) : Prop := match op with OpDelete _ => False | _ => True end.

Lemma run_ops_ok ops tab : Forall no_delete ops -> table_ok tab -> table_ok (foldl run_op tab ops).
Proof.
  intros Ho. revert tab. induction Ho as [|op ops Hop _ IH]; intros tab Ht; cbn; [done|]. apply IH.
  destruct op; cbn; [by apply Add_ok| |by apply DeleteReplace_ok|done].
  apply Stuff_ok; [|done]. apply list.Forall_fmap, list.Forall_forall. intros [[[id ip] udp] tcp] _. done.
Qed.

Lemma ok_made tab : table_ok tab -> made_table tab.
Proof.
  intros Ht. split; [apply Ht|]. intros b (i & Hi)%list_elem_of_lookup. destruct (t_each tab Ht i b Hi) as [Hp _ _ _ _].
  eapply list.Forall_impl; [exact Hp|]. by intros n (? & _).
Qed.

(** Nodes of different buckets have different distances, hence different identifiers. *)
Lemma once_overall (f : NodeID -> Z) k bs :
  (forall i b, bs !! i = Some b -> NoDup (map n_ID (entries b)) /\ Forall (fun e => f (n_ID e) = Z.of_nat (k + i)) (entries b)) ->
  NoDup (map n_ID (concat (map entries bs))) /\ Forall (fun e => Z.of_nat k <= f (n_ID e)) (concat (map entries bs)).
Proof.
  revert k. induction bs as [|b bs IH]; intros k Hb; cbn; [by split; constructor|].
  destruct (Hb 0%nat b eq_refl) as [Hn Hf]. destruct (IH (S k)) as [IHn IHf].
  { intros i b' Hi. rewrite Nat.add_succ_comm. by apply (Hb (S i)). }
  split.
  - rewrite map_app. apply list.NoDup_app. split_and!; [done| |done].
    intros id (e & -> & He)%list_elem_of_fmap (e' & E & He')%list_elem_of_fmap.
    pose proof (proj1 (list.Forall_forall _ _) Hf e He) as F1. pose proof (proj1 (list.Forall_forall _ _) IHf e' He') as F2.
    cbn in F1, F2. rewrite <- E in F2. lia.
  - apply list.Forall_app. split; eapply list.Forall_impl; [exact Hf| |exact IHf|]; cbn; intros; lia.
Qed.

(** * Properties *)

(** The bucket of a node is the number of bits of its distance, zero for the node itself. *)
Theorem log_distance_exact (a b : Hash) (Ha : hash_ok a) (Hb : hash_ok b) :
  LogDistHash a b = bit_length (NodeIDDistance a b).
Proof.
  destruct Ha as [La Ha], Hb as [Lb Hb]. rewrite <- leading_zeros_bits by (done || lia).
  unfold LogDistHash, NodeIDBits, len. rewrite La. lia.
Qed.

(** C29. A query of the routing table returns the nearest nodes: as many as were asked for
    and are there, sorted by distance to the target, each at least as near as every node of
    the table that is left out. *)
Theorem closest_exact (target : Hash) (nResults : Z) (tab : Table)
  (Htarget : hash_ok target) (Htab : made_table tab) :
  let found := Closest target nResults tab in
  length found = Nat.min (Z.to_nat nResults) (length (all_entries tab)) /\
  StronglySorted (fun a b => NodeIDDistance (n_sha a) target <= NodeIDDistance (n_sha b) target) found /\
  exists rest, found ++ rest ≡ₚ all_entries tab /\
    forall x y, x ∈ found -> y ∈ rest -> NodeIDDistance (n_sha x) target <= NodeIDDistance (n_sha y) target.
Proof.
  destruct (foldl_kept target Htarget nResults (all_entries tab) (made_entries tab Htab)) as [(Hs & Hl & Hr) _].
  split; [exact Hl|]. split; [exact Hs|]. exact Hr.
Qed.

(** C28. Through any sequence of additions, bulk loads and replacing deletions the count is
    the number of nodes, no identifier occurs twice and none is the table's own, every node is
    in the bucket of its distance, and no bucket or its replacements exceed the bucket size. *)
Theorem table_invariant (selfID : NodeID) (ip : list Z) (port size : Z) (ops : list table_op)
  (Hops : Forall no_delete ops) :
  let tab := foldl run_op (NewTable selfID ip port size) ops in
  t_count tab = len (all_entries tab) /\
  NoDup (map n_ID (all_entries tab)) /\
  (forall i b, t_buckets tab !! i = Some b ->
     Forall (fun n => n_ID n <> n_ID (t_self tab) /\
                      LogDistHash (NodeIDSha256 (n_ID (t_self tab))) (NodeIDSha256 (n_ID n)) = Z.of_nat i)
       (entries b ++ replacements b) /\
     len (entries b) <= t_bucketSize tab /\ len (replacements b) <= t_bucketSize tab).
Proof.
  cbn zeta. pose proof (run_ops_ok ops _ Hops (NewTable_ok selfID ip port size)) as Ht.
  revert Ht. generalize (foldl run_op (NewTable selfID ip port size) ops). intros tab Ht.
  assert (Hb : forall i b, t_buckets tab !! i = Some b ->
     Forall (fun n => n_ID n <> n_ID (t_self tab) /\
                      LogDistHash (NodeIDSha256 (n_ID (t_self tab))) (NodeIDSha256 (n_ID n)) = Z.of_nat i)
       (entries b ++ replacements b)).
  { intros i b Hi. eapply list.Forall_impl; [apply (t_each tab Ht i b Hi)|]. intros n (Hm & Hn & Hd).
    split; [done|]. by rewrite <- Hm, <- (t_self_made tab Ht). }
  split; [apply Ht|]. split.
  - eapply (once_overall (fun id => LogDistHash (NodeIDSha256 (n_ID (t_self tab))) (NodeIDSha256 id)) 0).
    intros i b Hi. split.
    + pose proof (b_once _ _ _ _ (t_each tab Ht i b Hi)) as Hn. rewrite map_app in Hn. by apply list.NoDup_app in Hn as [Hn _].
    + specialize (Hb i b Hi). apply list.Forall_app in Hb as [Hb _]. eapply list.Forall_impl; [exact Hb|]. by intros n [_ ?].
  - intros i b Hi. split; [by apply Hb|]. split; apply (t_each tab Ht i b Hi).
Qed.

(** The heads that are read are nodes of the table, each at most once, as many as fit. *)
Theorem random_nodes_distinct (room : nat) (words : nat -> result Z) (tab : Table) :
  length (ReadRandomNodes room words tab) = Nat.min room (length (all_entries tab)) /\
  exists rest, ReadRandomNodes room words tab ++ rest ≡ₚ all_entries tab.
Proof.
  unfold ReadRandomNodes. set (bs := List.filter _ _).
  assert (EC : concat bs = all_entries tab).
  { unfold bs, all_entries. generalize (map entries (t_buckets tab)). intros l.
    induction l as [|b l IH]; [done|]. destruct b as [|x b]; [exact IH|]. cbn [List.filter].
    rewrite (proj2 (Z.eqb_neq _ _)) by (unfold len; cbn; lia). cbn [negb concat]. by rewrite IH. }
  pose proof (shuffle_perm words (pred (length bs)) bs) as P. revert P. generalize (shuffle (pred (length bs)) words bs).
  intros bs' P. assert (PC : concat bs' ≡ₚ all_entries tab) by (rewrite <- EC; by rewrite P).
  assert (PL : length (all_entries tab) = length (concat bs')) by (by rewrite PC).
  rewrite PL. setoid_rewrite <- PC. apply draw_spec.
  - rewrite P. apply list.Forall_forall. intros b Hb. unfold bs in Hb. rewrite list_elem_of_In, filter_In in Hb.
    destruct Hb as [_ Hb]. by destruct b.
  - intros Hne. destruct bs'; [done|cbn; lia].
Qed.

(** [Delete] keeps a node among the replacements of its bucket: added again and refilled, it is
    in the bucket twice. *)
Theorem delete_duplicates : exists ops : list table_op,
  let tab := foldl run_op (NewTable (replicate 32 0) [127; 0; 0; 1] 30303 2) ops in
  ~ NoDup (map n_ID (all_entries tab)).
Proof.
  pose (node (k : Z) := replicate 32 k).
  exists [OpAdd (node 4) None 1 1; OpAdd (node 5) None 1 1; OpAdd (node 6) None 1 1;
          OpDelete (node 4); OpAdd (node 6) None 1 1; OpDeleteReplace (node 5)].
  cbn zeta. intros Hn. apply (bool_decide_pack _) in Hn. vm_compute in Hn. exact Hn.
Qed.

(** Printing an identifier and reading it back gives it again. *)
Theorem node_id_roundtrip (id : NodeID) (Hid : hash_ok id) : HexToNodeID (NodeID_String id) = Ok id.
Proof.
  destruct Hid as [Hl Hb]. unfold HexToNodeID, NodeID_String.
  assert (HL : strlen (hex_encode id) = 64) by (unfold strlen; rewrite hex_encode_length, Hl; done).
  assert (Hs : strip_0x (hex_encode id) = hex_encode id).
  { destruct id as [|b id]; [done|]. cbn [hex_encode strip_0x]. apply list.Forall_cons in Hb as [Hb _]. unfold is_byte in Hb.
    destruct (hex_digit_no_x (b mod 16)) as [H1 H2]; [apply Z.mod_pos_bound; lia|].
    apply Z.eqb_neq in H1, H2. by rewrite H1, H2, andb_false_r. }
  rewrite HL, Hs, HL. cbn. by apply hex_pairs_encode.
Qed.

Lemma lxor_cancel x y : Z.lxor x (Z.lxor x y) = y.
Proof. by rewrite <- Z.lxor_assoc, Z.lxor_nilpotent, Z.lxor_0_l. Qed.

Lemma leading_zeros_app p a b lz : leading_zeros (p ++ a) (p ++ b) lz = leading_zeros a b (lz + 8 * len p).
Proof.
  revert lz. induction p as [|x p IH]; intros lz; cbn [app leading_zeros].
  - f_equal. unfold len. cbn. lia.
  - rewrite Z.lxor_nilpotent. cbn [Z.eqb]. rewrite IH. f_equal. unfold len. cbn [length]. lia.
Qed.

(** A random identifier made for a distance has it. *)
Theorem hash_at_distance_exact (a : NodeID) (n : Z) (suffix : nat -> result (list Z)) (b : NodeID)
  (Ha : hash_ok a) (Hb : HashAtDistance a n suffix = Ok b) : LogDist a b = n.
Proof.
  destruct Ha as [La Fa]. unfold HashAtDistance in Hb. destruct (Z.eqb_spec n 0) as [->|Hn].
  - injection Hb as <-. unfold LogDist. pose proof (leading_zeros_app a [] [] 0) as E. rewrite app_nil_r in E.
    rewrite E. cbn [leading_zeros]. unfold len, NodeIDBits. rewrite La. done.
  - destruct (Z.ltb_spec n 0); [done|]. destruct (Z.ltb_spec NodeIDBits n); [done|]. cbn [orb] in Hb.
    unfold NodeIDBits in *.
    destruct (suffix _) as [r|]; [|done]. cbn [wrap result_bind] in Hb. injection Hb as <-.
    set (lz := 256 - n) in *. assert (Hlz : 0 <= lz < 256) by lia.
    assert (Hk : (Z.to_nat (lz / 8) < length a)%nat).
    { rewrite La. apply Nat2Z.inj_lt. rewrite Z2Nat.id by (apply Z.div_pos; lia). apply Z.div_lt_upper_bound; lia. }
    destruct (lookup_lt_is_Some_2 a _ Hk) as [x Hx]. rewrite (nth_lookup_Some a _ 0 x Hx).
    unfold LogDist. rewrite <- (take_drop_middle a _ x Hx) at 1. rewrite leading_zeros_app. cbn [leading_zeros].
    rewrite lxor_cancel. pose proof (Z.mod_pos_bound lz 8 ltac:(lia)) as Hm.
    assert (F : forallb (fun k => negb (Z.shiftr 128 (Z.of_nat k) =? 0) &&
        (nth (Z.to_nat (Z.shiftr 128 (Z.of_nat k))) leadingZeroBits 0 =? Z.of_nat k)) (seq 0 8) = true)
      by (vm_compute; reflexivity).
    rewrite forallb_forall in F. specialize (F (Z.to_nat (lz mod 8))). rewrite Z2Nat.id in F by lia.
    assert (Hin : In (Z.to_nat (lz mod 8)) (seq 0 8)) by (apply in_seq; lia). apply F in Hin. clear F.
    apply andb_true_iff in Hin as [F1 F2]. apply negb_true_iff in F1. rewrite F1. apply Z.eqb_eq in F2. rewrite F2.
    unfold len. rewrite length_take, Nat.min_l by lia. rewrite Z2Nat.id by (apply Z.div_pos; lia).
    pose proof (Z.div_mod lz 8 ltac:(lia)). unfold lz, NodeIDBits in *. lia.
Qed.

(** The version prefix is one byte longer than its place in the header, and a packet is
    compared with all of it: whatever arrives is refused, the node's own packets included. *)
Theorem no_packet_accepted {D : Type} (ed25519_verify : list Z -> list Z -> list Z -> bool)
  (json_decode : Z -> list Z -> result D) (buf : list Z) :
  exists e, DecodePacket ed25519_verify json_decode buf = Err e.
Proof.
  unfold DecodePacket, decode_with. destruct (length buf <? S HeaderSize)%nat; [by eexists|]. cbn [fail_if result_bind].
  assert (E : bool_decide (take VersionPrefixLen buf = versionPrefix) = false).
  { apply bool_decide_eq_false. intros E. apply (f_equal length) in E. rewrite length_take in E.
    change (length versionPrefix) with 17%nat in E. unfold VersionPrefixLen in E. lia. }
  rewrite E. by eexists.
Qed.

(** With a prefix of sixteen bytes a packet would be read as it was sent. *)
Theorem packet_roundtrip {D : Type} (ed25519_sign : list Z -> list Z -> list Z) (ed25519_public : list Z -> list Z)
  (ed25519_verify : list Z -> list Z -> list Z -> bool) (json_decode : Z -> list Z -> result D)
  (prefix priv payload : list Z) (ptype : Z) (data : D)
  (Hprefix : length prefix = 16%nat) (Hpub : length (ed25519_public priv) = 32%nat)
  (Hsig : forall m, length (ed25519_sign priv m) = 64%nat /\
                    ed25519_verify (ed25519_public priv) m (ed25519_sign priv m) = true)
  (Htype : 1 <= ptype <= 4) (Hdata : json_decode ptype payload = Ok data) :
  let '(packet, hash) := encode_with ed25519_sign ed25519_public prefix priv ptype payload in
  decode_with ed25519_verify json_decode prefix packet
  = Ok (mkIngress (ed25519_public priv) ptype hash data packet).
Proof.
  unfold encode_with. cbv zeta. destruct (Hsig (ptype :: payload)) as [Ls Vs].
  revert Ls Vs. generalize (ed25519_sign priv (ptype :: payload)). revert Hpub. generalize (ed25519_public priv).
  intros pub Lp sig Ls Vs.
  rewrite !copy_into_full by done. set (packet := prefix ++ pub ++ sig ++ ptype :: payload).
  assert (T1 : take VersionPrefixLen packet = prefix) by (by apply take_app_length').
  assert (T2 : drop VersionPrefixLen packet = pub ++ sig ++ ptype :: payload) by (by apply drop_app_length').
  assert (T3 : drop (VersionPrefixLen + NodeIDLen) packet = sig ++ ptype :: payload).
  { rewrite <- drop_drop, T2. by apply drop_app_length'. }
  assert (T4 : drop HeaderSize packet = ptype :: payload).
  { unfold HeaderSize. rewrite <- drop_drop, T3. by apply drop_app_length'. }
  assert (HL : (length packet <? S HeaderSize)%nat = false).
  { apply Nat.ltb_ge. unfold packet, HeaderSize, VersionPrefixLen, NodeIDLen, SignatureLen. rewrite !length_app. cbn. lia. }
  unfold decode_with. rewrite HL, T1, T2, T3, T4. cbn [fail_if result_bind].
  rewrite bool_decide_true by done. cbn [negb fail_if result_bind].
  rewrite (take_app_length' pub) by done. rewrite (take_app_length' sig) by done.
  rewrite Vs. cbn [negb fail_if result_bind nth].
  destruct (Z.leb_spec 1 ptype); [|lia]. destruct (Z.leb_spec ptype 4); [|lia].
  cbn [negb andb fail_if result_bind drop]. rewrite drop_0, Hdata. done.
Qed.

Definition public_node (k : nat) : Node :=
  NewNode (map (fun i => (100 + 37 * Z.of_nat i + Z.of_nat k) mod 256) (seq 0 32)) (Some [203; 0; 113; 101]) 30303 30303.

(** The number of nodes of a packet is computed from an identifier of zeros, whose JSON is
    shorter than that of others: ten ordinary nodes make a packet over the limit. *)
Theorem neighbors_oversized :
  maxNeighbors = 10%nat /\
  exists payload, neighbors_payloads (map public_node (seq 0 10)) 1700000020 = [payload] /\
    MaxPacketSize < Z.of_nat HeaderSize + 1 + len payload.
Proof. split; [vm_compute; reflexivity|]. eexists. split; [vm_compute; reflexivity|vm_compute; reflexivity]. Qed.

(** * Witnesses *)
Definition sample_ops : list table_op :=
  [OpAdd (replicate 32 4) None 1 1; OpAdd (replicate 32 5) None 1 1; OpAdd (replicate 32 6) None 1 1;
   OpDeleteReplace (replicate 32 4); OpStuff [(replicate 32 1, None, 1, 1); (replicate 32 2, None, 1, 1)]].
Definition sample_table : Table := foldl run_op (NewTable (replicate 32 0) [127; 0; 0; 1] 30303 2) sample_ops.

Lemma sample_no_delete : Forall no_delete sample_ops.
Proof. repeat constructor. Qed.

Lemma closest_exact_witness : exists found, length found = 3%nat /\
  StronglySorted (fun a b => NodeIDDistance (n_sha a) (replicate 32 7) <= NodeIDDistance (n_sha b) (replicate 32 7)) found.
Proof.
  assert (Ht : hash_ok (replicate 32 7)) by (split; [done|repeat constructor; done]).
  assert (Hm : made_table sample_table) by (apply ok_made, run_ops_ok; [apply sample_no_delete|apply NewTable_ok]).
  destruct (closest_exact (replicate 32 7) 3 sample_table Ht Hm) as (Hl & Hs & _).
  eexists. split; [rewrite Hl; vm_compute; reflexivity|exact Hs].
Defined.

Lemma table_invariant_witness : t_count sample_table = 4 /\ NoDup (map n_ID (all_entries sample_table)).
Proof.
  destruct (table_invariant (replicate 32 0) [127; 0; 0; 1] 30303 2 sample_ops sample_no_delete) as (Hc & Hn & _).
  split; [|exact Hn]. vm_compute. reflexivity.
Defined.
