(* ===== verification/BlockKeeper.v ===== *)
(** * The block keeper

    [network/block_keeper.go]: the worker that brings the chain up to the heaviest peer.  What
    it asks of the chain, of the peers and of the network is one interface, [Surroundings],
    whose operations may change the world they run in: a network request is such an operation,
    with the time it takes.  Logging is left out. *)

From S2P Require Import Prelude Bytes Sha256 Config Json Transaction Chain ForkChoice Reorg AddBlock ChainSample.
From stdpp Require Import base list strings numbers gmap fin_maps.
From Stdlib Require Import ZArith Lia.

Open Scope Z_scope.
Open Scope go_scope.
Open Scope chain_scope.

Definition maxBlockPerMsg : Z := 512.
Definition maxBlockHeadersPerMsg : Z := 2048.
Definition second : Z := 1000000000.
Definition stuckEscapeThreshold : Z := 60 * second.
Definition consecutiveSyncNoneThreshold : Z := 3.
Definition maxSyncCooldown : Z := 300 * second.
Definition largeGapBatchMult : Z := 4.
Definition MaxSyncRange : Z := 1000.
Definition fixedBatchSize : Z := 100.

Record HeaderLocator := mkHeader { hl_Header : BlockHeader; hl_Height : Z }.

(** A peer: its connection, or only the name and height of [simplePeer]. *)
Record Peer := mkPeer { p_ID : string; p_Height : Z; p_simple : bool }.

Record ChainInfo := mkInfo { ci_height : Z; ci_work : option Z; ci_tipHash : string; ci_genesisHash : string }.

(** ** The interfaces of the chain and of the peers *)
Class Surroundings (W : Type) := {
  clock : W -> Z;
  LatestBlock : W -> Block;
  CanonicalWork : W -> option Z;
  BlockByHeight : Z -> W -> option Block;
  BlockByHash : string -> W -> option Block;
  GetHeaderByHeight : Z -> W -> result HeaderLocator;
  BestBlockHeader : W -> result HeaderLocator;
  GetBlocksFrom : Z -> Z -> W -> list Block;
  LatestCheckpoint : W -> result (Z * string);
  GetCheckpointByHeight : Z -> W -> option string;
  chain_AddBlock : Block -> M W (result bool);
  GetAllPeerIDs : W -> list string;
  PeerByID : string -> W -> option Peer;
  bestPeer : W -> option Peer;
  GetPeerChainInfo : string -> M W (result ChainInfo);
  ProcessIllegal : string -> M W unit;
  DecSyncLoad : string -> M W unit;
  SendInvToPeer : string -> list string -> M W bool;
  broadcastMinedBlock : Block -> M W unit;
  broadcastNewStatus : Block -> Block -> M W unit;
  fetchBlock : string -> Z -> M W (result Block);
  fetchBlocksBatch : string -> Z -> Z -> M W (result (list (option Block))) }.

Record peerSyncInfo := mkSyncInfo { si_peerID : string; si_info : ChainInfo; si_updatedAt : Z }.

Record Keeper (W : Type) := mkKeeper {
  bk_world : W;
  syncPeer : option Peer;
  syncSessionSeq : Z;
  headerList : list HeaderLocator;
  lastSuccessfulSyncHeight : Z;
  lastSuccessfulSyncTime : option Z;
  failedSyncPeers : gmap string Z;
  failedSyncCooldownDur : Z;
  syncActive : bool;
  lastSyncAttempt : option Z;
  syncCooldown : Z;
  consecutiveSyncNoneCount : Z;
  lastSyncedLogHeight : Z;
  syncInfo : option peerSyncInfo }.
Arguments mkKeeper {W}.
Arguments bk_world {W}.
Arguments syncPeer {W}.
Arguments syncSessionSeq {W}.
Arguments headerList {W}.
Arguments lastSuccessfulSyncHeight {W}.
Arguments lastSuccessfulSyncTime {W}.
Arguments failedSyncPeers {W}.
Arguments failedSyncCooldownDur {W}.
Arguments syncActive {W}.
Arguments lastSyncAttempt {W}.
Arguments syncCooldown {W}.
Arguments consecutiveSyncNoneCount {W}.
Arguments lastSyncedLogHeight {W}.
Arguments syncInfo {W}.

(** ** Header hashes *)
Definition decodeMinerAddress (addrHex : string) : result (list Z) :=
  if (4 <? strlen addrHex) && str_eqb (str_take 4 addrHex) AddressPrefix then
    let? b := wrap "decode NOGO address" (hex_decode (str_drop 4 addrHex)) in
    fail_if (len b <? 33) "NOGO address too short" ;;?
    if len b =? 37 then Ok (copy_into 32 (take 32 (drop 1 b)))
    else Err "invalid NOGO address length"
  else
    let? b := wrap "decode hex" (hex_decode addrHex) in
    fail_if (negb (len b =? 32)) "expected 32 bytes" ;;?
    Ok (copy_into 32 b).

Definition headerEncodingVersionV1 : Z := 1.

Definition computeHeaderHash (h : BlockHeader) (height : Z) (minerAddress : string) : result (list Z) :=
  let root := if len (h_MerkleRoot h) =? 32 then copy_into 32 (h_MerkleRoot h) else replicate 32 0 in
  let prev := if len (h_PrevHash h) =? 32 then copy_into 32 (h_PrevHash h) else replicate 32 0 in
  let? miner := wrap "decode miner address" (decodeMinerAddress minerAddress) in
  Ok (sha256 ([headerEncodingVersionV1] ++ le_bytes 4 (h_Version h) ++ le_bytes 8 height ++
              le_bytes 8 (u64 (h_TimestampUnix h)) ++ prev ++ root ++ le_bytes 4 (h_DifficultyBits h) ++
              miner ++ le_bytes 8 (h_Nonce h))).

Section keeper.
Context {W : Type} `{Surroundings W}.

Definition set_world (w : W) (k : Keeper W) : Keeper W :=
  mkKeeper w (syncPeer k) (syncSessionSeq k) (headerList k) (lastSuccessfulSyncHeight k)
    (lastSuccessfulSyncTime k) (failedSyncPeers k) (failedSyncCooldownDur k) (syncActive k)
    (lastSyncAttempt k) (syncCooldown k) (consecutiveSyncNoneCount k) (lastSyncedLogHeight k) (syncInfo k).

(** An operation of the surroundings, and what is read of them. *)
Definition out {A : Type} (m : M W A) : M (Keeper W) A := fun k =>
  res_bind (m (bk_world k)) (fun '(w, a) => Val (set_world w k, a)).
Definition see {A : Type} (f : W -> A) : M (Keeper W) A := fun k => Val (k, f (bk_world k)).

Definition latest_height (w : W) : Z := GetHeight (LatestBlock w).

Definition set_syncPeer (p : option Peer) (k : Keeper W) : Keeper W :=
  mkKeeper (bk_world k) p (syncSessionSeq k) (headerList k) (lastSuccessfulSyncHeight k)
    (lastSuccessfulSyncTime k) (failedSyncPeers k) (failedSyncCooldownDur k) (syncActive k)
    (lastSyncAttempt k) (syncCooldown k) (consecutiveSyncNoneCount k) (lastSyncedLogHeight k) (syncInfo k).
Definition set_session (n : Z) (k : Keeper W) : Keeper W :=
  mkKeeper (bk_world k) (syncPeer k) n (headerList k) (lastSuccessfulSyncHeight k)
    (lastSuccessfulSyncTime k) (failedSyncPeers k) (failedSyncCooldownDur k) (syncActive k)
    (lastSyncAttempt k) (syncCooldown k) (consecutiveSyncNoneCount k) (lastSyncedLogHeight k) (syncInfo k).
Definition set_headers (l : list HeaderLocator) (k : Keeper W) : Keeper W :=
  mkKeeper (bk_world k) (syncPeer k) (syncSessionSeq k) l (lastSuccessfulSyncHeight k)
    (lastSuccessfulSyncTime k) (failedSyncPeers k) (failedSyncCooldownDur k) (syncActive k)
    (lastSyncAttempt k) (syncCooldown k) (consecutiveSyncNoneCount k) (lastSyncedLogHeight k) (syncInfo k).
Definition set_progress (height : Z) (t : option Z) (k : Keeper W) : Keeper W :=
  mkKeeper (bk_world k) (syncPeer k) (syncSessionSeq k) (headerList k) height
    t (failedSyncPeers k) (failedSyncCooldownDur k) (syncActive k)
    (lastSyncAttempt k) (syncCooldown k) (consecutiveSyncNoneCount k) (lastSyncedLogHeight k) (syncInfo k).
Definition set_failed (m : gmap string Z) (k : Keeper W) : Keeper W :=
  mkKeeper (bk_world k) (syncPeer k) (syncSessionSeq k) (headerList k) (lastSuccessfulSyncHeight k)
    (lastSuccessfulSyncTime k) m (failedSyncCooldownDur k) (syncActive k)
    (lastSyncAttempt k) (syncCooldown k) (consecutiveSyncNoneCount k) (lastSyncedLogHeight k) (syncInfo k).
Definition set_active (b : bool) (k : Keeper W) : Keeper W :=
  mkKeeper (bk_world k) (syncPeer k) (syncSessionSeq k) (headerList k) (lastSuccessfulSyncHeight k)
    (lastSuccessfulSyncTime k) (failedSyncPeers k) (failedSyncCooldownDur k) b
    (lastSyncAttempt k) (syncCooldown k) (consecutiveSyncNoneCount k) (lastSyncedLogHeight k) (syncInfo k).
Definition set_attempt (t : option Z) (k : Keeper W) : Keeper W :=
  mkKeeper (bk_world k) (syncPeer k) (syncSessionSeq k) (headerList k) (lastSuccessfulSyncHeight k)
    (lastSuccessfulSyncTime k) (failedSyncPeers k) (failedSyncCooldownDur k) (syncActive k)
    t (syncCooldown k) (consecutiveSyncNoneCount k) (lastSyncedLogHeight k) (syncInfo k).
Definition set_cooldown (d : Z) (k : Keeper W) : Keeper W :=
  mkKeeper (bk_world k) (syncPeer k) (syncSessionSeq k) (headerList k) (lastSuccessfulSyncHeight k)
    (lastSuccessfulSyncTime k) (failedSyncPeers k) (failedSyncCooldownDur k) (syncActive k)
    (lastSyncAttempt k) d (consecutiveSyncNoneCount k) (lastSyncedLogHeight k) (syncInfo k).
Definition set_none_count (n : Z) (k : Keeper W) : Keeper W :=
  mkKeeper (bk_world k) (syncPeer k) (syncSessionSeq k) (headerList k) (lastSuccessfulSyncHeight k)
    (lastSuccessfulSyncTime k) (failedSyncPeers k) (failedSyncCooldownDur k) (syncActive k)
    (lastSyncAttempt k) (syncCooldown k) n (lastSyncedLogHeight k) (syncInfo k).
Definition set_log_height (n : Z) (k : Keeper W) : Keeper W :=
  mkKeeper (bk_world k) (syncPeer k) (syncSessionSeq k) (headerList k) (lastSuccessfulSyncHeight k)
    (lastSuccessfulSyncTime k) (failedSyncPeers k) (failedSyncCooldownDur k) (syncActive k)
    (lastSyncAttempt k) (syncCooldown k) (consecutiveSyncNoneCount k) n (syncInfo k).
Definition set_sync_info (i : option peerSyncInfo) (k : Keeper W) : Keeper W :=
  mkKeeper (bk_world k) (syncPeer k) (syncSessionSeq k) (headerList k) (lastSuccessfulSyncHeight k)
    (lastSuccessfulSyncTime k) (failedSyncPeers k) (failedSyncCooldownDur k) (syncActive k)
    (lastSyncAttempt k) (syncCooldown k) (consecutiveSyncNoneCount k) (lastSyncedLogHeight k) i.

(** ** Shared state *)
Definition setPeerSyncInfo (peerID : string) (height work : Z) (tipHash genesisHash : string) : M (Keeper W) unit :=
  let* now := see clock in
  modify (set_sync_info (Some (mkSyncInfo peerID (mkInfo height (Some work) tipHash genesisHash) now))).

Definition getPeerSyncInfo (maxAge : Z) : M (Keeper W) (option (string * ChainInfo)) :=
  let* k := get in
  match syncInfo k with
  | None => ret None
  | Some i => ret (if maxAge <? since (clock (bk_world k)) (si_updatedAt i) then None else Some (si_peerID i, si_info i))
  end.

Definition OnPeerDisconnected (peerID : string) (k : Keeper W) : Keeper W :=
  match syncPeer k with
  | Some p => if String.eqb (p_ID p) peerID then set_syncPeer None k else k
  | None => k
  end.

Definition recordSyncProgress (height : Z) : M (Keeper W) unit :=
  let* k := get in
  if lastSuccessfulSyncHeight k <? height
  then modify (set_progress height (Some (clock (bk_world k))))
  else ret tt.

Definition getPeerWork (p : Peer) : M (Keeper W) (option Z) :=
  let* r := out (GetPeerChainInfo (p_ID p)) in
  ret (match r with Ok i => ci_work i | Err _ => None end).

(** [peerWork != nil && localWork != nil && peerWork.Cmp(localWork) > 0] *)
Definition more_work (peerWork localWork : option Z) : bool :=
  match peerWork, localWork with Some p, Some l => l <? p | _, _ => false end.

(** ** Requests *)
Definition getSyncPeers : M (Keeper W) (list Peer) :=
  let* k := get in
  let w := bk_world k in
  let peers := omap (fun id => PeerByID id w) (GetAllPeerIDs w) in
  ret (match syncPeer k with
       | Some p => if existsb (fun q => String.eqb (p_ID q) (p_ID p)) peers then peers else peers ++ [p]
       | None => peers
       end).

(** An error of the keeper: a time-out or a lost peer, or another one. *)
Record sync_error := mkSyncError { se_transient : bool; se_msg : string }.

Fixpoint ask_peers (peers : list Peer) (height : Z) (lastErr : string) : M (Keeper W) (Block + sync_error) :=
  match peers with
  | [] => ret (inr (mkSyncError true ("request timeout: requireBlock: all peers failed, last error: " +:+ lastErr)))
  | p :: rest =>
      let* r := out (fetchBlock (p_ID p) height) in
      match r with
      | Ok b => ret (inl b)
      | Err e => ask_peers rest height e
      end
  end.

Definition requireBlock (height : Z) : M (Keeper W) (Block + sync_error) :=
  let* peers := getSyncPeers in
  match peers with
  | [] => ret (inr (mkSyncError true "Peer dropped: no available sync peers"))
  | _ => ask_peers peers height ""
  end.

(** [result[b.GetHeight()] = b] *)
Definition by_height (blocks : list (option Block)) : gmap Z Block :=
  foldl (fun m b => match b with Some b => <[GetHeight b := b]> m | None => m end) ∅ blocks.

Definition requireBlocksBatch (startHeight count : Z) : M (Keeper W) (result (gmap Z Block)) :=
  let* k := get in
  match syncPeer k with
  | None => ret (Err "Peer dropped: syncPeer is nil")
  | Some p =>
      let* r := out (fetchBlocksBatch (p_ID p) startHeight count) in
      match r with
      | Err e => ret (Err ("request timeout: requireBlocksBatch: " +:+ e))
      | Ok blocks => ret (Ok (by_height blocks))
      end
  end.

(** ** The download of a range *)

(** [n] blocks from [h] on, each added to the chain. *)
Fixpoint add_range (n : nat) (h : Z) (blocks : gmap Z Block) : M (Keeper W) (unit + sync_error) :=
  match n with
  | O => ret (inl tt)
  | S n' =>
      let* b := match blocks !! h with
                | Some b => ret (inl b)
                | None => requireBlock h
                end in
      match b with
      | inr e => ret (inr (mkSyncError (se_transient e) ("regularBlockSync requireBlock: " +:+ se_msg e)))
      | inl block =>
          let* r := out (chain_AddBlock block) in
          match r with
          | Err e => ret (inr (mkSyncError false ("regularBlockSync add block: " +:+ e)))
          | Ok _ => add_range n' (h + 1) blocks
          end
      end
  end.

Definition max_height (blocks : gmap Z Block) : Z := map_fold (fun h _ m => if m <? h then h else m) 0 blocks.

Fixpoint range_loop (fuel : nat) (startHeight targetHeight i : Z) : M (Keeper W) (unit + sync_error) :=
  match fuel with
  | O => halt_with Diverge
  | S fuel' =>
      let single :=
        let* b := requireBlock i in
        match b with
        | inr e => ret (inr (mkSyncError (se_transient e) ("regularBlockSync requireBlock: " +:+ se_msg e)))
        | inl block =>
            let* r := out (chain_AddBlock block) in
            match r with
            | Err e => ret (inr (mkSyncError false ("regularBlockSync add block: " +:+ e)))
            | Ok _ =>
                let* tip := see latest_height in
                range_loop fuel' startHeight targetHeight (u64 (tip + 1))
            end
        end in
      if targetHeight <? i then ret (inl tt)
      else
        let batchSize := Z.min (u64 (targetHeight - i + 1)) fixedBatchSize in
        let* batch := requireBlocksBatch i batchSize in
        match batch with
        | Err _ => single
        | Ok blocks =>
            if (size blocks =? 0)%nat then single
            else
              let batchSize := if Z.of_nat (size blocks) <? batchSize then u64 (max_height blocks - i + 1) else batchSize in
              let stop := Z.min (u64 (i + batchSize)) (targetHeight + 1) in
              let* r := add_range (Z.to_nat (stop - i)) i blocks in
              match r with
              | inr e => ret (inr e)
              | inl _ =>
                  let* newTip := see latest_height in
                  recordSyncProgress newTip ;;*
                  let i' := u64 (newTip + 1) in
                  if i' =? startHeight then ret (inl tt) else range_loop fuel' startHeight targetHeight i'
              end
        end
  end.

(** The loop is the code's own; [fuel] bounds its rounds. *)
Definition regularBlockSync (fuel : nat) (targetHeight : Z) : M (Keeper W) (unit + sync_error) :=
  let* tip := see latest_height in
  let i := u64 (tip + 1) in
  range_loop fuel i targetHeight i.

(** ** One synchronisation *)

(** The peer to ask, when [simplePeer] only names one. *)
Definition resolve_simple (p : Peer) : M (Keeper W) (option Peer) :=
  let* best := see bestPeer in
  match best with
  | Some b =>
      if String.eqb (p_ID b) (p_ID p) then ret (Some b)
      else
        let* named := see (PeerByID (p_ID p)) in
        let fallback :=
          let* w := getPeerWork b in
          let* local := see CanonicalWork in
          ret (if more_work w local then Some b else None) in
        match named with
        | Some q =>
            let* w := getPeerWork q in
            let* local := see CanonicalWork in
            if more_work w local then ret (Some q) else fallback
        | None => fallback
        end
  | None =>
      let* named := see (PeerByID (p_ID p)) in
      match named with
      | Some q =>
          let* w := getPeerWork q in
          let* local := see CanonicalWork in
          ret (if more_work w local then Some q else None)
      | None => ret None
      end
  end.

Definition contains (sub s : string) : bool := match String.index 0 sub s with Some _ => true | None => false end.

(** What follows an error of a range. *)
Definition handle_sync_error (p : Peer) (e : sync_error) : M (Keeper W) bool :=
  if contains "chain mismatch detected" (se_msg e) then out (DecSyncLoad (p_ID p)) ;;* ret true
  else
    let* peerWork := getPeerWork p in
    let* local := see CanonicalWork in
    if more_work peerWork local then out (DecSyncLoad (p_ID p)) ;;* ret true
    else if se_transient e then out (DecSyncLoad (p_ID p)) ;;* ret false
    else
      out (ProcessIllegal (p_ID p)) ;;*
      out (DecSyncLoad (p_ID p)) ;;*
      ret false.

Fixpoint ranges (rounds fuel : nat) (p : Peer) (batchLimit peerHeight localHeight : Z) : M (Keeper W) bool :=
  match rounds with
  | O => halt_with Diverge
  | S rounds' =>
      if negb (localHeight <? peerHeight) then
        let* newHeight := see latest_height in
        recordSyncProgress newHeight ;;*
        out (DecSyncLoad (p_ID p)) ;;*
        ret true
      else
        let targetHeight := Z.min (u64 (localHeight + batchLimit)) peerHeight in
        let* r := regularBlockSync fuel targetHeight in
        match r with
        | inr e => handle_sync_error p e
        | inl _ =>
            let* tip := see latest_height in
            if tip =? localHeight then out (DecSyncLoad (p_ID p)) ;;* ret true
            else ranges rounds' fuel p batchLimit peerHeight tip
        end
  end.

Definition batch_limit (gapSize : Z) : Z :=
  let batchLimit := if maxBlockPerMsg * 10 <? gapSize then maxBlockPerMsg * largeGapBatchMult else maxBlockPerMsg in
  Z.min batchLimit MaxSyncRange.

Definition dispatchRegularSync (rounds fuel : nat) (peer : Peer) (localHeight : Z) : M (Keeper W) bool :=
  let* resolved := if p_simple peer then resolve_simple peer else ret (Some peer) in
  match resolved with
  | None => ret false
  | Some p =>
      modify (fun k => set_session (u64 (syncSessionSeq k + 1)) (set_syncPeer (Some p) k)) ;;*
      let* fresh := out (GetPeerChainInfo (p_ID p)) in
      let peerHeight := match fresh with
                        | Ok i => if 0 <? ci_height i then ci_height i else p_Height p
                        | Err _ => p_Height p
                        end in
      if peerHeight =? 0 then ret false
      else if peerHeight <=? localHeight then
        let* _ := getPeerWork p in ret false
      else ranges rounds fuel p (batch_limit (peerHeight - localHeight)) peerHeight localHeight
  end.

(** ** Which peer, if any *)
Inductive sync_type : Type := syncTypeNone | syncTypeRegular.

(** The peers asked directly, in the order in which they answered; a peer that failed lately is
    left out. *)
Fixpoint query_peers (ids : list string) (best : option (string * ChainInfo * Z)) : M (Keeper W) (option (string * ChainInfo * Z)) :=
  match ids with
  | [] => ret best
  | id :: rest =>
      let* r := out (GetPeerChainInfo id) in
      match r with
      | Err _ => query_peers rest best
      | Ok i =>
          match ci_work i with
          | None => query_peers rest best
          | Some w =>
              match best with
              | Some (_, _, bestWork) => query_peers rest (if bestWork <? w then Some (id, i, w) else best)
              | None => query_peers rest (Some (id, i, w))
              end
          end
      end
  end.

Definition drop_failed (ids : list string) : M (Keeper W) (list string) :=
  let* k := get in
  let now := clock (bk_world k) in
  let recent (id : string) := match failedSyncPeers k !! id with
                              | Some t => since now t <? failedSyncCooldownDur k
                              | None => false
                              end in
  modify (fun k => set_failed (foldl (fun m id => if recent id then m else delete id m) (failedSyncPeers k) ids) k) ;;*
  ret (List.filter (fun id => negb (recent id)) ids).

(** The best peer that reaches the checkpoint. *)
Fixpoint checkpoint_peer (ids : list string) (height : Z) (best : option (string * Z * Z)) : M (Keeper W) (option (string * Z * Z)) :=
  match ids with
  | [] => ret best
  | id :: rest =>
      let* r := out (GetPeerChainInfo id) in
      match r with
      | Err _ => checkpoint_peer rest height best
      | Ok i =>
          match ci_work i with
          | None => checkpoint_peer rest height best
          | Some w =>
              if ci_height i <? height then checkpoint_peer rest height best
              else
                match best with
                | Some (_, _, cpWork) => checkpoint_peer rest height (if cpWork <? w then Some (id, ci_height i, w) else best)
                | None => checkpoint_peer rest height (Some (id, ci_height i, w))
                end
          end
      end
  end.

(** The real peer with the name, when it has a height. *)
Definition live_peer (id : string) : M (Keeper W) (option Peer) :=
  let* p := see (PeerByID id) in
  ret (match p with Some q => if 0 <? p_Height q then Some q else None | None => None end).

(** The comparison with the best peer found. *)
Definition judge (blockHeight localWork : Z) (id : string) (peerHeight peerWork : Z) (tipHash genesisHash : string)
  : M (Keeper W) (sync_type * option Peer) :=
  let* k := get in
  let w := bk_world k in
  let simple := mkPeer id peerHeight true in
  let genesis_mismatch :=
    negb (String.eqb genesisHash "") &&
    match BlockByHeight 0 w with Some g => negb (String.eqb genesisHash (hex_encode (b_Hash g))) | None => false end in
  if genesis_mismatch then ret (syncTypeNone, None)
  else if (peerHeight =? blockHeight) && negb (String.eqb tipHash "")
          && String.eqb (hex_encode (b_Hash (LatestBlock w))) tipHash
  then ret (syncTypeNone, None)
  else if localWork <? peerWork then
    if blockHeight <? peerHeight then
      let* live := live_peer id in
      match live with
      | Some q => ret (syncTypeRegular, Some q)
      | None =>
          match bestPeer w with
          | Some fallback => if 0 <? p_Height fallback then ret (syncTypeRegular, Some fallback)
                             else ret (syncTypeRegular, Some simple)
          | None => ret (syncTypeRegular, Some simple)
          end
      end
    else if peerHeight =? blockHeight then
      let* live := live_peer id in
      match live with
      | Some q => ret (syncTypeRegular, Some q)
      | None => ret (syncTypeRegular, Some simple)
      end
    else ret (syncTypeNone, None)
  else ret (syncTypeNone, Some simple).

(** [arrival] orders the answers; [checkpoint] is the height of a received checkpoint. *)
Definition checkSyncType (arrival : list string -> list string) (checkpoint : option Z) : M (Keeper W) (sync_type * option Peer) :=
  let* blockHeight := see latest_height in
  let* work := see CanonicalWork in
  let localWork := default 0 work in
  let* cached := getPeerSyncInfo (10 * second) in
  match cached with
  | Some (id, i) => judge blockHeight localWork id (ci_height i) (default 0 (ci_work i)) (ci_tipHash i) (ci_genesisHash i)
  | None =>
      let* peerIDs := see GetAllPeerIDs in
      match peerIDs with
      | [] => ret (syncTypeNone, None)
      | _ =>
          let* eligible := drop_failed peerIDs in
          let* best := query_peers (arrival eligible) None in
          match best with
          | None => ret (syncTypeNone, None)
          | Some (id, i, work) =>
              let* switched :=
                match checkpoint with
                | Some h =>
                    if (blockHeight <? 128) && (0 <? h) && (ci_height i <? h)
                    then checkpoint_peer peerIDs h None
                    else ret None
                | None => ret None
                end in
              match switched with
              | Some (id', height', work') => judge blockHeight localWork id' height' work' (ci_tipHash i) (ci_genesisHash i)
              | None => judge blockHeight localWork id (ci_height i) work (ci_tipHash i) (ci_genesisHash i)
              end
          end
      end
  end.

Definition resolveRealPeer (wrapper : Peer) : M (Keeper W) Peer :=
  if negb (p_simple wrapper) then ret wrapper
  else
    let* best := see bestPeer in
    ret (match best with
         | Some b => if String.eqb (p_ID b) (p_ID wrapper) then b else wrapper
         | None => wrapper
         end).

Definition checkStuckEscape : M (Keeper W) bool :=
  let* k := get in
  match lastSuccessfulSyncTime k with
  | None => ret false
  | Some t =>
      let currentHeight := latest_height (bk_world k) in
      if since (clock (bk_world k)) t <=? stuckEscapeThreshold then ret false
      else if lastSuccessfulSyncHeight k <? currentHeight then ret false
      else
        match syncPeer k with
        | Some p => out (DecSyncLoad (p_ID p)) ;;* modify (set_syncPeer None)
        | None => ret tt
        end ;;*
        let* latest := see LatestBlock in
        out (broadcastMinedBlock latest) ;;*
        let* now := see clock in
        modify (set_progress currentHeight (Some now)) ;;*
        ret true
  end.

Definition startSync (rounds fuel : nat) (arrival : list string -> list string) (checkpoint : option Z) : M (Keeper W) bool :=
  let* escaped := checkStuckEscape in
  if escaped then ret true
  else
    let* t := checkSyncType arrival checkpoint in
    match t with
    | (_, None) => ret false
    | (kind, Some peer) =>
        let* p := resolveRealPeer peer in
        let* blockHeight := see latest_height in
        match kind with
        | syncTypeRegular => dispatchRegularSync rounds fuel p blockHeight
        | syncTypeNone =>
            if p_Height p =? 0 then ret false
            else if p_Height p <=? blockHeight then
              let* peerWork := getPeerWork p in
              let* local := see CanonicalWork in
              (if more_work peerWork local then ret tt else modify (set_log_height blockHeight)) ;;*
              ret false
            else ret false
        end
    end.

(** ** The worker *)
Definition lagThreshold : Z := 3.
Definition invBatchSize : Z := 50.

(** The announcements of [n] batches of blocks to one peer. *)
Fixpoint announce (n : nat) (peerID : string) (fromHeight totalMissing offset : Z) : M (Keeper W) unit :=
  match n with
  | O => ret tt
  | S n' =>
      if totalMissing <=? offset then ret tt
      else
        let count := Z.min invBatchSize (totalMissing - offset) in
        let* blocks := see (GetBlocksFrom (fromHeight + offset) count) in
        match blocks with
        | [] => ret tt
        | _ =>
            let* _ := out (SendInvToPeer peerID (map (fun b => hex_encode (b_Hash b)) blocks)) in
            announce n' peerID fromHeight totalMissing (offset + invBatchSize)
        end
  end.

Fixpoint lagging_loop (ids : list string) (localHeight : Z) : M (Keeper W) unit :=
  match ids with
  | [] => ret tt
  | id :: rest =>
      let* r := out (GetPeerChainInfo id) in
      match r with
      | Err _ => ret tt
      | Ok i =>
          if (localHeight <=? ci_height i) || (localHeight - ci_height i <? lagThreshold) then ret tt
          else
            let totalMissing := localHeight - ci_height i in
            announce (Z.to_nat totalMissing) id (ci_height i + 1) totalMissing 0
      end ;;*
      lagging_loop rest localHeight
  end.

Definition syncLaggingPeers (localHeight : Z) : M (Keeper W) unit :=
  let* ids := see GetAllPeerIDs in
  if (len ids =? 0) || (localHeight =? 0) then ret tt else lagging_loop ids localHeight.

Definition broadcastAfterSync (genesisBlock : Block) : M (Keeper W) unit :=
  let* bestBlock := see LatestBlock in
  out (broadcastMinedBlock bestBlock) ;;*
  out (broadcastNewStatus bestBlock genesisBlock) ;;*
  syncLaggingPeers (GetHeight bestBlock).

(** [safeStartSync], without its recovery from a panic. *)
Definition sync_round (rounds fuel : nat) (arrival : list string -> list string) (checkpoint : option Z) (genesisBlock : Block)
  : M (Keeper W) unit :=
  let* synced := startSync rounds fuel arrival checkpoint in
  if synced then broadcastAfterSync genesisBlock ;;* modify (set_none_count 0)
  else
    let* localHeight := see latest_height in
    modify (fun k => set_none_count (consecutiveSyncNoneCount k + 1) k) ;;*
    let* k := get in
    if consecutiveSyncNoneCount k <? consecutiveSyncNoneThreshold then syncLaggingPeers localHeight else ret tt.

Definition applyExponentialBackoff (k : Keeper W) : Keeper W :=
  let periods := consecutiveSyncNoneCount k / consecutiveSyncNoneThreshold in
  set_cooldown (if periods <=? 1 then 30 * second
                else if periods =? 2 then 60 * second
                else if periods =? 3 then 120 * second
                else maxSyncCooldown) k.

Definition TriggerSyncCheck (k : Keeper W) : Keeper W :=
  set_attempt None (set_cooldown 0 (set_none_count 0 (set_active true k))).

Inductive worker_event : Type :=
| Tick (rounds fuel : nat) (arrival : list string -> list string) (checkpoint : option Z)
| ForkResolved (rounds fuel : nat) (arrival : list string -> list string) (checkpoint : option Z)
| Trigger
| Disconnected (peerID : string)
| SetInfo (peerID : string) (height work : Z) (tipHash genesisHash : string)
| CleanUp.

(** One round of [cleanupExpiredEntries]. *)
Definition cleanup_failed (k : Keeper W) : Keeper W :=
  set_failed (base.filter (fun kv => clock (bk_world k) <= kv.2 + failedSyncCooldownDur k * 2) (failedSyncPeers k)) k.

Definition cooling (k : Keeper W) : bool :=
  (0 <? syncCooldown k) && (since (clock (bk_world k)) (default zero_time (lastSyncAttempt k)) <? syncCooldown k).

Definition finish_round (backoff : bool) : M (Keeper W) unit :=
  let* now := see clock in
  modify (fun k => set_attempt (Some now) (set_active false k)) ;;*
  if backoff then modify applyExponentialBackoff else ret tt.

Definition worker_step (genesisBlock : Block) (ev : worker_event) : M (Keeper W) unit :=
  match ev with
  | Tick rounds fuel arrival checkpoint =>
      let* k := get in
      if cooling k then ret tt
      else
        modify (set_active true) ;;*
        sync_round rounds fuel arrival checkpoint genesisBlock ;;*
        let* k := get in
        finish_round (consecutiveSyncNoneThreshold <=? consecutiveSyncNoneCount k)
  | ForkResolved rounds fuel arrival checkpoint =>
      modify (fun k => set_cooldown 0 (set_none_count 0 (set_active true k))) ;;*
      let* synced := startSync rounds fuel arrival checkpoint in
      (if synced then ret tt else modify (set_none_count consecutiveSyncNoneThreshold)) ;;*
      finish_round (negb synced)
  | Trigger => modify TriggerSyncCheck
  | Disconnected peerID => modify (OnPeerDisconnected peerID)
  | SetInfo peerID height work tipHash genesisHash => setPeerSyncInfo peerID height work tipHash genesisHash
  | CleanUp => modify cleanup_failed
  end.

(** ** Headers and locators *)
Definition header_hash (hl : HeaderLocator) : M (Keeper W) (result (list Z)) :=
  if hl_Height hl =? 0 then
    let* g := see (BlockByHeight 0) in
    ret (match g with
         | None => Err "fail to append list due to order dismatch: genesis block not found"
         | Some g => if negb (len (b_Hash g) =? 32)
                     then Err "fail to append list due to order dismatch: invalid genesis block hash length"
                     else Ok (b_Hash g)
         end)
  else ret (wrap "fail to append list due to order dismatch: compute header hash"
              (computeHeaderHash (hl_Header hl) (hl_Height hl) (h_MinerAddress (hl_Header hl)))).

Definition push_header (h : HeaderLocator) : M (Keeper W) unit :=
  modify (fun k => set_headers (headerList k ++ [h]) k).

Fixpoint append_headers (hs : list HeaderLocator) (prevHeight : Z) (prevHash : list Z) : M (Keeper W) (result unit) :=
  match hs with
  | [] => ret (Ok tt)
  | h :: rest =>
      if negb (hl_Height h =? u64 (prevHeight + 1)) then ret (Err "fail to append list due to order dismatch: non-contiguous height")
      else if negb (len (h_PrevHash (hl_Header h)) =? 32) then ret (Err "fail to append list due to order dismatch: invalid prevHash length")
      else if negb (bool_decide (h_PrevHash (hl_Header h) = prevHash)) then ret (Err "fail to append list due to order dismatch: prevHash mismatch")
      else
        try* curHash := header_hash h in
        push_header h ;;*
        append_headers rest (hl_Height h) curHash
  end.

Definition appendHeaderList (headers : list HeaderLocator) : M (Keeper W) (result unit) :=
  match headers with
  | [] => ret (Ok tt)
  | _ =>
      let* k := get in
      try* _ := match headerList k with
                | [] =>
                    match BestBlockHeader (bk_world k) with
                    | Err e => ret (Err ("fail to append list due to order dismatch: get best header: " +:+ e))
                    | Ok best => push_header best ;;* ret (Ok tt)
                    end
                | _ => ret (Ok tt)
                end in
      let* k := get in
      match last (headerList k) with
      | None => ret (Err "fail to append list due to order dismatch: invalid header list tail")
      | Some prevLoc =>
          try* prevHash := header_hash prevLoc in
          append_headers headers (hl_Height prevLoc) prevHash
      end
  end.

(** The locator of the chain: the hashes of the last blocks, then of blocks at doubling
    distances.  Every step goes down, so the height of the tip bounds the steps. *)
Fixpoint locator_loop (fuel : nat) (w : W) (cur : HeaderLocator) (step : Z) (locator : list (list Z)) : list (list Z) :=
  match fuel with
  | O => locator
  | S fuel' =>
      match BlockByHeight (hl_Height cur) w with
      | None => locator
      | Some block =>
          let grown := locator ++ [b_Hash block] in
          if len (b_Hash block) =? 0 then locator
          else if hl_Height cur =? 0 then grown
          else
            let next := if hl_Height cur <? step then 0 else hl_Height cur - step in
            match GetHeaderByHeight next w with
            | Err _ => grown
            | Ok header => locator_loop fuel' w header (if 9 <=? len grown then u64 (step * 2) else step) grown
            end
      end
  end.

Definition blockLocator (w : W) : list (list Z) :=
  match BestBlockHeader w with
  | Err _ => []
  | Ok best => locator_loop (S (Z.to_nat (hl_Height best))) w best 1 []
  end.

(** The first hash of the locator that the chain knows. *)
Fixpoint locate_start (locator : list (list Z)) (w : W) (start : HeaderLocator) : HeaderLocator :=
  match locator with
  | [] => start
  | hash :: rest =>
      match BlockByHash (hex_encode hash) w with
      | Some block =>
          match GetHeaderByHeight (GetHeight block) w with
          | Ok header => header
          | Err _ => locate_start rest w start
          end
      | None => locate_start rest w start
      end
  end.

Fixpoint headers_from (n : nat) (height : Z) (w : W) : result (list HeaderLocator) :=
  match n with
  | O => Ok []
  | S n' =>
      let? h := wrap "locateHeaders: header not found" (GetHeaderByHeight (u64 height) w) in
      let? rest := headers_from n' (height + 1) w in
      Ok (h :: rest)
  end.

Definition locateHeaders (locator : list (list Z)) (stopHash : list Z) (w : W)
  : res (result (list HeaderLocator)) :=
  match BlockByHash (hex_encode stopHash) w with
  | None =>
      if len stopHash <? 8 then Halt (Panic "slice bounds out of range")
      else Val (Err "locateHeaders: stop block not found")
  | Some stopBlock =>
      Val (let? genesis := wrap "locateHeaders: genesis header not found" (GetHeaderByHeight 0 w) in
           let start := locate_start locator w genesis in
           let totalHeaders := Z.min (u64 (GetHeight stopBlock - hl_Height start)) maxBlockHeadersPerMsg in
           headers_from (Z.to_nat totalHeaders) (hl_Height start + 1) w)
  end.

Fixpoint blocks_of (hs : list HeaderLocator) (w : W) : result (list Block) :=
  match hs with
  | [] => Ok []
  | h :: rest =>
      match BlockByHeight (hl_Height h) w with
      | None => Err "locateBlocks: block not found"
      | Some b => let? bs := blocks_of rest w in Ok (b :: bs)
      end
  end.

Definition locateBlocks (locator : list (list Z)) (stopHash : list Z) (w : W) : res (result (list Block)) :=
  res_bind (locateHeaders locator stopHash w) (fun r =>
    Val (let? headers := wrap "locateBlocks locateHeaders" r in
         blocks_of (take (Z.to_nat maxBlockPerMsg) headers) w)).

(** From the highest checkpoint down, the last one above the chain. *)
Fixpoint checkpoint_walk (height next : Z) (lower : list Z) : Z :=
  match lower with
  | [] => next
  | c :: lower' => if c <=? height then next else checkpoint_walk height c lower'
  end.

Definition nextCheckpoint (checkpoints : list Z) (w : W) : option Z :=
  match BestBlockHeader w with
  | Err _ => None
  | Ok best =>
      match rev checkpoints with
      | [] => None
      | top :: lower => if top <=? hl_Height best then None else Some (checkpoint_walk (hl_Height best) top lower)
      end
  end.

Definition header_state (checkpoints : list Z) (w : W) : list HeaderLocator :=
  match BestBlockHeader w with
  | Err _ => []
  | Ok best => match nextCheckpoint checkpoints w with Some _ => [best] | None => [] end
  end.

Definition resetHeaderState (checkpoints : list Z) (k : Keeper W) : Keeper W :=
  set_headers (header_state checkpoints (bk_world k)) k.

Definition newBlockKeeper (checkpoints : list Z) (w : W) : Keeper W :=
  resetHeaderState checkpoints (mkKeeper w None 0 [] 0 None ∅ (15 * second) false None 0 0 0 None).

Fixpoint checkpoint_below (n : nat) (testH : Z) (w : W) : Z * string :=
  match n with
  | O => (0, ""%string)
  | S n' =>
      if testH <? 1000 then (0, ""%string)
      else match GetCheckpointByHeight testH w with
           | Some hash => (testH, hash)
           | None => checkpoint_below n' (testH - 1000) w
           end
  end.

Definition nextCheckpointHeight (maxHeight : Z) (w : W) : Z * string :=
  match LatestCheckpoint w with
  | Err _ => (0, ""%string)
  | Ok (h, hash) =>
      if h =? 0 then (0, ""%string)
      else if (0 <? maxHeight) && (maxHeight <? h)
      then checkpoint_below (Z.to_nat (maxHeight / 1000)) (maxHeight / 1000 * 1000) w
      else (h, hash)
  end.
End keeper.

(** * Lemmas *)

(** ** Header hashes *)
Lemma miner_address_decoded a out : decodeHex32 a = Ok out -> decodeMinerAddress a = Ok out.
Proof.
  unfold decodeHex32, decodeMinerAddress. intros E.
  destruct (_ && _); destruct (hex_decode _) as [b|]; cbn [wrap result_bind] in *; try done.
  by destruct (negb (len b =? 32)).
Qed.

(** ** Runs *)
Section runs.
Context {W : Type} `{Surroundings W}.

Lemma out_run {A : Type} (m : M W A) (k : Keeper W) w a : m (bk_world k) = Val (w, a) -> out m k = Val (set_world w k, a).
Proof. unfold out. by intros ->. Qed.

Lemma see_bind {A B : Type} (f : W -> A) (g : A -> M (Keeper W) B) k : bind (see f) g k = g (f (bk_world k)) k.
Proof. done. Qed.

(** *** What no step changes *)
Definition failures_and_cooldown (P : gmap string Z -> Z -> Prop) (k : Keeper W) : Prop :=
  P (failedSyncPeers k) (syncCooldown k).

Section kept.
Variable P : gmap string Z -> Z -> Prop.
Let I := failures_and_cooldown P.

Lemma out_kept {A : Type} (m : M W A) : keeps I (out m).
Proof. intros k k' a Hk E. unfold out in E. destruct (m (bk_world k)) as [[w x]|]; [|done]. by injection E as <- <-. Qed.
Lemma see_kept {A : Type} (f : W -> A) : keeps I (see f).
Proof. intros k k' a Hk E. by injection E as <- <-. Qed.
Lemma mod_kept (f : Keeper W -> Keeper W) :
  (forall k, failedSyncPeers (f k) = failedSyncPeers k /\ syncCooldown (f k) = syncCooldown k) -> keeps I (modify f).
Proof. intros Hf. apply keeps_modify. unfold I, failures_and_cooldown. intros k Hk. by destruct (Hf k) as [-> ->]. Qed.

Ltac kept_tac := repeat first
  [ apply out_kept | apply see_kept | apply mod_kept; by intros | solve [eauto] | keeps_step ].

Lemma getPeerWork_kept p : keeps I (getPeerWork p).
Proof. unfold getPeerWork. kept_tac. Qed.
Lemma record_kept h : keeps I (recordSyncProgress h).
Proof. unfold recordSyncProgress. kept_tac. Qed.
Lemma ask_kept ps h e : keeps I (ask_peers ps h e).
Proof. revert e. induction ps; intros e; cbn; kept_tac. Qed.
Lemma requireBlock_kept h : keeps I (requireBlock h).
Proof. unfold requireBlock, getSyncPeers. kept_tac; apply ask_kept. Qed.
Lemma batch_kept a b : keeps I (requireBlocksBatch a b).
Proof. unfold requireBlocksBatch. kept_tac. Qed.
#[local] Hint Resolve getPeerWork_kept record_kept requireBlock_kept batch_kept : core.
Lemma add_range_kept n h bs : keeps I (add_range n h bs).
Proof. revert h. induction n; intros h; cbn; kept_tac. Qed.
#[local] Hint Resolve add_range_kept : core.
Lemma range_loop_kept fuel a t i : keeps I (range_loop fuel a t i).
Proof. revert i. induction fuel; intros i; cbn; kept_tac. Qed.
Lemma regular_kept fuel t : keeps I (regularBlockSync fuel t).
Proof. unfold regularBlockSync. kept_tac. apply range_loop_kept. Qed.
#[local] Hint Resolve regular_kept : core.
Lemma error_kept p e : keeps I (handle_sync_error p e).
Proof. unfold handle_sync_error. kept_tac. Qed.
#[local] Hint Resolve error_kept : core.
Lemma ranges_kept rounds fuel p b ph lh : keeps I (ranges rounds fuel p b ph lh).
Proof. revert lh. induction rounds; intros lh; cbn; kept_tac. Qed.
#[local] Hint Resolve ranges_kept : core.
Lemma resolve_kept p : keeps I (resolve_simple p).
Proof. unfold resolve_simple. kept_tac. Qed.
#[local] Hint Resolve resolve_kept : core.
Lemma dispatch_kept rounds fuel p lh : keeps I (dispatchRegularSync rounds fuel p lh).
Proof. unfold dispatchRegularSync. kept_tac. Qed.
Lemma live_kept id : keeps I (live_peer id).
Proof. unfold live_peer. kept_tac. Qed.
#[local] Hint Resolve dispatch_kept live_kept : core.
Lemma judge_kept bh lw id ph pw t g : keeps I (judge bh lw id ph pw t g).
Proof. unfold judge. kept_tac. Qed.
Lemma query_kept ids best : keeps I (query_peers ids best).
Proof. revert best. induction ids; intros best; cbn; kept_tac. Qed.
Lemma cp_kept ids h best : keeps I (checkpoint_peer ids h best).
Proof. revert best. induction ids; intros best; cbn; kept_tac. Qed.
Lemma cached_kept a : keeps I (getPeerSyncInfo a).
Proof. unfold getPeerSyncInfo. kept_tac. Qed.
Lemma escape_kept : keeps I checkStuckEscape.
Proof. unfold checkStuckEscape. kept_tac. Qed.
Lemma real_kept p : keeps I (resolveRealPeer p).
Proof. unfold resolveRealPeer. kept_tac. Qed.
Lemma announce_kept n id f t o : keeps I (announce n id f t o).
Proof. revert o. induction n; intros o; cbn; kept_tac. Qed.
#[local] Hint Resolve announce_kept : core.
Lemma lagging_kept ids h : keeps I (lagging_loop ids h).
Proof. induction ids; cbn; kept_tac. Qed.
#[local] Hint Resolve lagging_kept : core.
Lemma lagging_peers_kept h : keeps I (syncLaggingPeers h).
Proof. unfold syncLaggingPeers. kept_tac. Qed.
#[local] Hint Resolve lagging_peers_kept : core.
Lemma broadcast_kept g : keeps I (broadcastAfterSync g).
Proof. unfold broadcastAfterSync. kept_tac. Qed.
End kept.

(** *** The worker *)
Definition cooldown_step (d : Z) : Prop := d ∈ [0; 30 * second; 60 * second; 120 * second; maxSyncCooldown].
Definition quiet (k : Keeper W) : Prop := failures_and_cooldown (fun fp d => fp = ∅ /\ cooldown_step d) k.

#[local] Hint Resolve getPeerWork_kept judge_kept query_kept cp_kept cached_kept escape_kept real_kept
  dispatch_kept lagging_peers_kept broadcast_kept out_kept see_kept : core.

Lemma forget_none (recent : string -> bool) (m : gmap string Z) ids :
  m = ∅ -> foldl (fun m id => if recent id then m else delete id m) m ids = ∅.
Proof.
  revert m. induction ids as [|id ids IH]; intros m Hm; cbn; [done|]. apply IH. rewrite Hm.
  by destruct (recent id); [|apply delete_empty].
Qed.

Lemma drop_failed_quiet ids : keeps quiet (drop_failed ids).
Proof.
  unfold drop_failed. apply keeps_get. intros k0. apply keeps_bind; [|intros []; apply keeps_ret].
  apply keeps_modify. intros k [Hf Hc]. split; [|done]. by apply forget_none.
Qed.

Lemma mod_quiet (f : Keeper W -> Keeper W) :
  (forall k, failedSyncPeers (f k) = failedSyncPeers k) -> (forall k, cooldown_step (syncCooldown k) -> cooldown_step (syncCooldown (f k))) ->
  keeps quiet (modify f).
Proof. intros Hf Hc. apply keeps_modify. intros k [H1 H2]. split; [by rewrite Hf|auto]. Qed.

Ltac quiet_tac := unfold quiet in *; repeat first
  [ apply out_kept | apply see_kept | solve [eauto] | keeps_step ].

Lemma check_quiet arrival cp : keeps quiet (checkSyncType arrival cp).
Proof. unfold checkSyncType. quiet_tac; apply drop_failed_quiet. Qed.

Lemma startSync_quiet rounds fuel arrival cp : keeps quiet (startSync rounds fuel arrival cp).
Proof.
  unfold startSync. pose proof check_quiet. quiet_tac. by apply mod_kept.
Qed.

Lemma cooldown_in d : d ∈ [0; 30 * second; 60 * second; 120 * second; maxSyncCooldown] -> cooldown_step d.
Proof. done. Qed.

Lemma backoff_step (k : Keeper W) : cooldown_step (syncCooldown (applyExponentialBackoff k)).
Proof.
  unfold applyExponentialBackoff, cooldown_step. cbn [syncCooldown set_cooldown].
  repeat case_match; repeat (apply elem_of_cons; first [by left | right]); try done.
Qed.

Lemma zero_step : cooldown_step 0.
Proof. apply elem_of_cons. by left. Qed.

Lemma finish_quiet b : keeps quiet (finish_round b).
Proof.
  unfold finish_round. apply keeps_bind; [apply see_kept|]. intros now.
  apply keeps_bind; [by apply mod_quiet|]. intros []. destruct b; [|apply keeps_ret].
  apply mod_quiet; [done|]. intros k _. apply backoff_step.
Qed.

Lemma round_quiet rounds fuel arrival cp g : keeps quiet (sync_round rounds fuel arrival cp g).
Proof.
  unfold sync_round. apply keeps_bind; [apply startSync_quiet|]. intros [].
  - apply keeps_bind; [apply broadcast_kept|]. intros _. by apply mod_quiet.
  - apply keeps_bind; [apply see_kept|]. intros h. apply keeps_bind; [by apply mod_quiet|]. intros _.
    apply keeps_get. intros k. case_match; [apply lagging_peers_kept|apply keeps_ret].
Qed.

Lemma worker_quiet g ev : keeps quiet (worker_step g ev).
Proof.
  destruct ev; cbn [worker_step].
  - apply keeps_get. intros k. case_match; [apply keeps_ret|]. apply keeps_bind; [by apply mod_quiet|]. intros _.
    apply keeps_bind; [apply round_quiet|]. intros _. apply keeps_get. intros k'. apply finish_quiet.
  - apply keeps_bind; [apply mod_quiet; [done|intros; apply zero_step]|]. intros _.
    apply keeps_bind; [apply startSync_quiet|]. intros b.
    apply keeps_bind; [destruct b; [apply keeps_ret|by apply mod_quiet]|]. intros _. apply finish_quiet.
  - apply mod_quiet; [done|]. intros; apply zero_step.
  - apply mod_quiet; intros k; unfold OnPeerDisconnected; repeat case_match; done.
  - unfold setPeerSyncInfo. apply keeps_bind; [apply see_kept|]. intros now. by apply mod_quiet.
  - apply keeps_modify. intros k [Hf Hc]. split; [|done]. cbn. rewrite Hf. apply map_filter_empty.
Qed.

Fixpoint worker_run (g : Block) (evs : list worker_event) : M (Keeper W) unit :=
  match evs with
  | [] => ret tt
  | ev :: rest => worker_step g ev ;;* worker_run g rest
  end.

Lemma worker_run_quiet g evs : keeps quiet (worker_run g evs).
Proof. induction evs; [apply keeps_ret|]. apply keeps_bind; [apply worker_quiet|done]. Qed.
End runs.

(** ** A peer that serves a chain

    What a peer and the chain promise together: the peer answers with the blocks of one
    chain, and the chain takes the next of them. *)
Class ServesChain (W : Type) `{Surroundings W} (Inv : W -> Prop) (blk : Z -> Block) (top : Z) (peer : string) : Prop := {
  served_height : forall h, 0 <= h <= top -> GetHeight (blk h) = h;
  served_batch : forall w count, Inv w -> 0 < count -> latest_height w + count <= top ->
    exists w', fetchBlocksBatch peer (latest_height w + 1) count w
               = Val (w', Ok (map (fun h => Some (blk h)) (seqZ (latest_height w + 1) count))) /\
      Inv w' /\ latest_height w' = latest_height w;
  served_added : forall w, Inv w -> latest_height w + 1 <= top ->
    exists w' fresh, chain_AddBlock (blk (latest_height w + 1)) w = Val (w', Ok fresh) /\
      Inv w' /\ latest_height w' = latest_height w + 1;
  served_info : forall w, Inv w ->
    exists w' i, GetPeerChainInfo peer w = Val (w', Ok i) /\ ci_height i = top /\
      Inv w' /\ latest_height w' = latest_height w;
  served_load : forall w, Inv w ->
    exists w', DecSyncLoad peer w = Val (w', tt) /\ Inv w' /\ latest_height w' = latest_height w }.

Section served.
Context {W : Type} `{Surroundings W} {Inv : W -> Prop} {blk : Z -> Block} {top : Z} {peer : string}
  `{!ServesChain W Inv blk top peer}.

Lemma batch_map (start : Z) (n : nat) : 0 <= start -> start + Z.of_nat n <= top + 1 ->
  let m := by_height (map (fun h => Some (blk h)) (seqZ start (Z.of_nat n))) in
  size m = n /\ forall h, m !! h = if decide (start <= h < start + Z.of_nat n) then Some (blk h) else None.
Proof.
  intros Hs. induction n as [|n IH]; intros Ht; cbn zeta.
  - split; [done|]. intros h. rewrite decide_False by lia. done.
  - destruct (IH ltac:(lia)) as [IHs IHl]. replace (Z.of_nat (S n)) with (Z.of_nat n + 1) by lia.
    rewrite seqZ_app, map_app by lia. unfold by_height in *. rewrite foldl_app. cbn [seqZ map foldl].
    replace (seqZ (start + Z.of_nat n) 1) with [start + Z.of_nat n]
      by (unfold seqZ; cbn; f_equal; lia). cbn [map foldl].
    rewrite (served_height (start + Z.of_nat n)) by lia.
    set (m := foldl _ ∅ _) in *. split.
    + rewrite map_size_insert, IHl, decide_False by lia. cbn. lia.
    + intros h. destruct (decide (start + Z.of_nat n = h)) as [<-|Hne].
      * rewrite lookup_insert_eq, decide_True by lia. done.
      * rewrite lookup_insert_ne, IHl by done. repeat case_decide; (done || lia).
Qed.

Lemma add_range_served n k blocks : Inv (bk_world k) -> latest_height (bk_world k) + Z.of_nat n <= top ->
  (forall h, latest_height (bk_world k) < h <= latest_height (bk_world k) + Z.of_nat n -> blocks !! h = Some (blk h)) ->
  exists w', add_range n (latest_height (bk_world k) + 1) blocks k = Val (set_world w' k, inl tt) /\ Inv w' /\
    latest_height w' = latest_height (bk_world k) + Z.of_nat n.
Proof.
  revert k. induction n as [|n IH]; intros k Hi Ht Hb.
  - exists (bk_world k). split; [by destruct k|]. split; [done|lia].
  - destruct (served_added (bk_world k) Hi) as (w1 & fresh & EA & Hi1 & Hh1); [lia|].
    cbn [add_range]. rewrite Hb by lia. rewrite bind_ret. rewrite (bind_run _ _ _ _ _ (out_run _ _ _ _ EA)).
    destruct (IH (set_world w1 k)) as (w2 & E2 & Hi2 & Hh2); cbn [set_world bk_world]; [done|lia| |].
    { intros h Hh. apply Hb. lia. }
    cbn [set_world bk_world] in E2. rewrite Hh1 in E2. exists w2. split; [by rewrite E2|]. split; [done|].
    cbn [set_world bk_world] in Hh2. lia.
Qed.

Lemma record_run h (k : Keeper W) : exists k', recordSyncProgress h k = Val (k', tt) /\
  bk_world k' = bk_world k /\ syncPeer k' = syncPeer k.
Proof. unfold recordSyncProgress. rewrite bind_get. case_match; eexists; (split; [reflexivity|done]). Qed.

Hypothesis top_range : top < 2 ^ 64 - 1.

Lemma range_served fuel startHeight target p k : p_ID p = peer -> syncPeer k = Some p -> Inv (bk_world k) ->
  0 <= startHeight <= latest_height (bk_world k) + 1 -> latest_height (bk_world k) <= target <= top ->
  target - latest_height (bk_world k) < Z.of_nat fuel ->
  exists k', range_loop fuel startHeight target (latest_height (bk_world k) + 1) k = Val (k', inl tt) /\
    Inv (bk_world k') /\ latest_height (bk_world k') = target /\ syncPeer k' = Some p.
Proof.
  intros Hp. revert k. induction fuel as [|fuel IH]; intros k Hk Hi Hs Ht Hf; [lia|]. cbn [range_loop].
  set (tip := latest_height (bk_world k)) in *.
  destruct (Z.ltb_spec target (tip + 1)); [exists k; split_and!; try done; lia|].
  set (n := Z.min (u64 (target - (tip + 1) + 1)) fixedBatchSize).
  assert (Hn : 0 < n <= target - tip) by (unfold n, u64, fixedBatchSize; rewrite Z.mod_small by lia; lia).
  destruct (served_batch (bk_world k) n Hi) as (w1 & EB & Hi1 & Hh1); [lia..|]. fold tip in EB, Hh1.
  set (blocks := by_height (map (fun h => Some (blk h)) (seqZ (tip + 1) n))).
  assert (ER : requireBlocksBatch (tip + 1) n k = Val (set_world w1 k, Ok blocks)).
  { unfold requireBlocksBatch. rewrite bind_get, Hk, Hp. rewrite (bind_run _ _ _ _ _ (out_run _ _ _ _ EB)). done. }
  rewrite (bind_run _ _ _ _ _ ER).
  destruct (batch_map (tip + 1) (Z.to_nat n)) as [Hsz Hlk]; [lia..|]. rewrite Z2Nat.id in Hsz, Hlk by lia.
  fold blocks in Hsz, Hlk. rewrite Hsz.
  destruct (Nat.eqb_spec (Z.to_nat n) 0); [lia|].
  rewrite (proj2 (Z.ltb_ge _ _)) by lia.
  replace (Z.min (u64 (tip + 1 + n)) (target + 1)) with (tip + 1 + n)
    by (unfold u64; rewrite Z.mod_small by lia; lia).
  replace (tip + 1 + n - (tip + 1)) with n by lia.
  destruct (add_range_served (Z.to_nat n) (set_world w1 k) blocks) as (w2 & EA & Hi2 & Hh2); cbn [set_world bk_world]; [done|lia| |].
  { intros h Hh. rewrite Hlk, decide_True by lia. done. }
  cbn [set_world bk_world] in EA, Hh2. rewrite Hh1 in EA, Hh2.
  rewrite (bind_run _ _ _ _ _ EA), see_bind. cbn [set_world bk_world].
  destruct (record_run (latest_height w2) (set_world w2 k)) as (k3 & E3 & Hw3 & Hp3). rewrite (bind_run _ _ _ _ _ E3).
  rewrite Hh2. rewrite Z2Nat.id by lia.
  replace (u64 (tip + n + 1)) with (tip + n + 1) by (unfold u64; rewrite Z.mod_small; lia).
  destruct (Z.eqb_spec (tip + n + 1) startHeight); [lia|].
  cbn [set_world bk_world syncPeer] in Hw3, Hp3.
  assert (HT : latest_height (bk_world k3) = tip + n) by (rewrite Hw3; lia).
  destruct (IH k3) as (k' & E' & R); [congruence|by rewrite Hw3|lia|lia|lia|].
  rewrite HT in E'. exists k'. split; [|exact R]. exact E'.
Qed.

Lemma regular_served fuel target p k : p_ID p = peer -> syncPeer k = Some p -> Inv (bk_world k) ->
  0 <= latest_height (bk_world k) <= target -> target <= top -> target - latest_height (bk_world k) < Z.of_nat fuel ->
  exists k', regularBlockSync fuel target k = Val (k', inl tt) /\
    Inv (bk_world k') /\ latest_height (bk_world k') = target /\ syncPeer k' = Some p.
Proof.
  intros Hp Hk Hi Hl Ht Hf. unfold regularBlockSync. rewrite see_bind.
  replace (u64 (latest_height (bk_world k) + 1)) with (latest_height (bk_world k) + 1) by (unfold u64; rewrite Z.mod_small; lia).
  by apply range_served; try done; lia.
Qed.

Lemma load_run k : Inv (bk_world k) -> exists k', out (DecSyncLoad peer) k = Val (k', tt) /\ Inv (bk_world k') /\
  latest_height (bk_world k') = latest_height (bk_world k).
Proof.
  intros Hi. destruct (served_load (bk_world k) Hi) as (w & E & Hi' & Hh).
  eexists. split; [by apply out_run|]. done.
Qed.

Lemma ranges_served rounds fuel batchLimit p k : p_ID p = peer -> syncPeer k = Some p -> Inv (bk_world k) ->
  0 <= latest_height (bk_world k) <= top -> 0 < batchLimit <= MaxSyncRange -> MaxSyncRange < Z.of_nat fuel ->
  top - latest_height (bk_world k) < Z.of_nat rounds -> top + MaxSyncRange < 2 ^ 64 ->
  exists k', ranges rounds fuel p batchLimit top (latest_height (bk_world k)) k = Val (k', true) /\
    Inv (bk_world k') /\ latest_height (bk_world k') = top.
Proof.
  intros Hp. revert k. induction rounds as [|rounds IH]; intros k Hk Hi Hl Hb Hf Hr Hw; [lia|]. cbn [ranges].
  set (tip := latest_height (bk_world k)) in *.
  destruct (Z.ltb_spec tip top); cbn [negb].
  - assert (HT : u64 (tip + batchLimit) = tip + batchLimit) by (unfold u64; rewrite Z.mod_small; lia). rewrite HT.
    destruct (regular_served fuel (Z.min (tip + batchLimit) top) p k) as (k1 & E1 & Hi1 & Hh1 & Hp1); try done; try lia.
    rewrite (bind_run _ _ _ _ _ E1), see_bind, Hh1.
    destruct (Z.eqb_spec (Z.min (tip + batchLimit) top) tip); [lia|].
    rewrite <- Hh1. apply IH; try done; lia.
  - rewrite see_bind. destruct (record_run (latest_height (bk_world k)) k) as (k1 & E1 & Hw1 & Hp1).
    rewrite (bind_run _ _ _ _ _ E1), Hp. destruct (load_run k1) as (k2 & E2 & Hi2 & Hh2); [by rewrite Hw1|].
    rewrite (bind_run _ _ _ _ _ E2). exists k2. split; [done|]. split; [done|]. rewrite Hh2, Hw1. fold tip. lia.
Qed.
End served.

(** A synchronisation with such a peer. *)
Lemma dispatch_served {W : Type} `{Surroundings W} (Inv : W -> Prop) (blk : Z -> Block) (top : Z) (p : Peer)
  (rounds fuel : nat) (k : Keeper W) (Hserves : ServesChain W Inv blk top (p_ID p))
  (Hreal : p_simple p = false) (Hinv : Inv (bk_world k))
  (Hgap : 0 <= latest_height (bk_world k) < top) (Htop : top + MaxSyncRange < 2 ^ 64)
  (Hrounds : top - latest_height (bk_world k) < Z.of_nat rounds) (Hfuel : MaxSyncRange < Z.of_nat fuel) :
  exists k', dispatchRegularSync rounds fuel p (latest_height (bk_world k)) k = Val (k', true) /\
    Inv (bk_world k') /\ latest_height (bk_world k') = top.
Proof.
  unfold dispatchRegularSync. rewrite Hreal, bind_ret, bind_modify.
  set (k1 := set_session _ (set_syncPeer (Some p) k)).
  destruct (served_info (bk_world k1) Hinv) as (w2 & i & E2 & Hi & Hi2 & Hh2).
  rewrite (bind_run _ _ _ _ _ (out_run _ _ _ _ E2)), Hi.
  destruct (Z.ltb_spec 0 top); [|lia]. destruct (Z.eqb_spec top 0); [lia|].
  destruct (Z.leb_spec top (latest_height (bk_world k))); [lia|].
  change (latest_height (bk_world k)) with (latest_height (bk_world k1)) at 2.
  rewrite <- Hh2. change (latest_height w2) with (latest_height (bk_world (set_world w2 k1))).
  change (bk_world k1) with (bk_world k) in Hh2.
  apply (ranges_served (Inv := Inv) (blk := blk) (peer := p_ID p)); try done.
  - unfold MaxSyncRange in Htop. lia.
  - cbn [set_world bk_world]. lia.
  - unfold batch_limit, maxBlockPerMsg, largeGapBatchMult, MaxSyncRange. case_match; lia.
  - cbn [set_world bk_world]. lia.
Qed.

(** A peer that is not higher when it is asked again serves nothing. *)
Lemma dispatch_not_higher {W : Type} `{Surroundings W} (p : Peer) (i : ChainInfo) (rounds fuel : nat) (k : Keeper W) :
  p_simple p = false ->
  (forall w, exists w', GetPeerChainInfo (p_ID p) w = Val (w', Ok i) /\ LatestBlock w' = LatestBlock w) ->
  0 < ci_height i <= latest_height (bk_world k) ->
  exists k', dispatchRegularSync rounds fuel p (latest_height (bk_world k)) k = Val (k', false) /\
    LatestBlock (bk_world k') = LatestBlock (bk_world k).
Proof.
  intros Hreal Hi Hh. unfold dispatchRegularSync. rewrite Hreal, bind_ret, bind_modify.
  set (k1 := set_session _ (set_syncPeer (Some p) k)).
  destruct (Hi (bk_world k1)) as (w2 & E2 & L2). rewrite (bind_run _ _ _ _ _ (out_run _ _ _ _ E2)).
  destruct (Z.ltb_spec 0 (ci_height i)); [|lia]. destruct (Z.eqb_spec (ci_height i) 0); [lia|].
  destruct (Z.leb_spec (ci_height i) (latest_height (bk_world k))); [|lia].
  destruct (Hi (bk_world (set_world w2 k1))) as (w3 & E3 & L3).
  assert (Ew : getPeerWork p (set_world w2 k1) = Val (set_world w3 (set_world w2 k1), ci_work i))
    by (unfold getPeerWork; by rewrite (bind_run _ _ _ _ _ (out_run _ _ _ _ E3))).
  rewrite (bind_run _ _ _ _ _ Ew). eexists. split; [reflexivity|]. cbn [set_world bk_world] in *. by rewrite L3, L2.
Qed.

(** What a round of the worker does with a judgement. *)
Lemma startSync_regular {W : Type} `{Surroundings W} rounds fuel arrival checkpoint (q : Peer) (k : Keeper W) :
  checkStuckEscape k = Val (k, false) -> p_simple q = false ->
  checkSyncType arrival checkpoint k = Val (k, (syncTypeRegular, Some q)) ->
  startSync rounds fuel arrival checkpoint k = dispatchRegularSync rounds fuel q (latest_height (bk_world k)) k.
Proof.
  intros Es Hq Ec. unfold startSync. rewrite (bind_run _ _ _ _ _ Es), (bind_run _ _ _ _ _ Ec).
  unfold resolveRealPeer. rewrite Hq. cbn [negb]. by rewrite bind_ret, see_bind.
Qed.

Lemma startSync_none {W : Type} `{Surroundings W} rounds fuel arrival checkpoint (k : Keeper W) :
  checkStuckEscape k = Val (k, false) ->
  checkSyncType arrival checkpoint k = Val (k, (syncTypeNone, None)) ->
  startSync rounds fuel arrival checkpoint k = Val (k, false).
Proof. intros Es Ec. unfold startSync. by rewrite (bind_run _ _ _ _ _ Es), (bind_run _ _ _ _ _ Ec). Qed.

(** The judgement of a heavier peer that is not lower and has a live connection: either the
    peer itself, or nothing; a higher one of the same genesis block is taken. *)
Lemma judge_live {W : Type} `{Surroundings W} (k : Keeper W) id bh lw h w tip gen (q : Peer) :
  PeerByID id (bk_world k) = Some q -> 0 < p_Height q -> lw < w -> bh <= h ->
  let j := judge bh lw id h w tip gen k in
  (j = Val (k, (syncTypeNone, None)) \/ j = Val (k, (syncTypeRegular, Some q))) /\
  (bh < h -> (gen = ""%string \/ forall g, BlockByHeight 0 (bk_world k) = Some g -> gen = hex_encode (b_Hash g)) ->
   j = Val (k, (syncTypeRegular, Some q))).
Proof.
  intros Eq Hq Hw Hh. cbv zeta. unfold judge. rewrite bind_get.
  set (mismatch := negb (String.eqb gen "") && _).
  assert (Hm : (gen = ""%string \/ forall g, BlockByHeight 0 (bk_world k) = Some g -> gen = hex_encode (b_Hash g)) -> mismatch = false).
  { unfold mismatch. intros [->|Hg]; [done|]. destruct (BlockByHeight 0 (bk_world k)) as [g|]; [|by rewrite andb_false_r].
    by rewrite (Hg g eq_refl), String.eqb_refl, andb_false_r. }
  assert (El : live_peer id k = Val (k, Some q)).
  { unfold live_peer, bind, see, ret. cbn. rewrite Eq. by rewrite (proj2 (Z.ltb_lt _ _) Hq). }
  rewrite (proj2 (Z.ltb_lt lw w) Hw). destruct (Z.ltb_spec bh h) as [Hlt|Hge].
  - rewrite (proj2 (Z.eqb_neq h bh)) by lia. cbn [andb]. split.
    + destruct mismatch; [by left|right]. by rewrite (bind_run _ _ _ _ _ El).
    + intros _ Hg. rewrite (Hm Hg). by rewrite (bind_run _ _ _ _ _ El).
  - split; [|lia]. rewrite (proj2 (Z.eqb_eq h bh)) by lia.
    destruct mismatch; [by left|]. destruct (_ && _); [by left|right]. by rewrite (bind_run _ _ _ _ _ El).
Qed.

(** ** Chains of headers *)
Section headers.
Context {W : Type} `{Surroundings W}.

Definition hash_of (w : W) (hl : HeaderLocator) : result (list Z) :=
  if hl_Height hl =? 0 then
    match BlockByHeight 0 w with
    | None => Err "fail to append list due to order dismatch: genesis block not found"
    | Some g => if negb (len (b_Hash g) =? 32)
                then Err "fail to append list due to order dismatch: invalid genesis block hash length"
                else Ok (b_Hash g)
    end
  else wrap "fail to append list due to order dismatch: compute header hash"
         (computeHeaderHash (hl_Header hl) (hl_Height hl) (h_MinerAddress (hl_Header hl))).

Lemma header_hash_run hl k : header_hash hl k = Val (k, hash_of (bk_world k) hl).
Proof. unfold header_hash, hash_of. case_match; done. Qed.

(** Every header is one higher than the one before and names its hash. *)
Definition linked (w : W) (l : list HeaderLocator) : Prop :=
  forall i a b, l !! i = Some a -> l !! Datatypes.S i = Some b ->
    hl_Height b = u64 (hl_Height a + 1) /\ hash_of w a = Ok (h_PrevHash (hl_Header b)).

Lemma linked_one w a : linked w [a].
Proof. by intros [|i] x y ? ?. Qed.

Lemma linked_snoc w l a b : linked w (l ++ [a]) -> hl_Height b = u64 (hl_Height a + 1) ->
  hash_of w a = Ok (h_PrevHash (hl_Header b)) -> linked w ((l ++ [a]) ++ [b]).
Proof.
  intros Hl Hh Ho i x y Hx Hy. destruct (decide (Datatypes.S i = length (l ++ [a]))) as [E|Hne].
  - rewrite lookup_app_r in Hy by lia. rewrite E, Nat.sub_diag in Hy. injection Hy as <-.
    rewrite lookup_app_l in Hx by lia. rewrite length_app in E. cbn in E.
    rewrite lookup_app_r in Hx by lia. replace (i - length l)%nat with 0%nat in Hx by lia. injection Hx as <-. done.
  - pose proof (lookup_lt_Some _ _ _ Hy) as Hlt. rewrite (length_app (l ++ [a])) in Hlt. cbn in Hlt.
    rewrite lookup_app_l in Hx, Hy by lia. by eapply Hl.
Qed.

Lemma append_headers_run hs k l prev : headerList k = l ++ [prev] -> linked (bk_world k) (headerList k) ->
  forall prevHash, hash_of (bk_world k) prev = Ok prevHash ->
  exists k' r pre rest, append_headers hs (hl_Height prev) prevHash k = Val (k', r) /\
    bk_world k' = bk_world k /\ hs = pre ++ rest /\ headerList k' = headerList k ++ pre /\
    linked (bk_world k') (headerList k') /\ (r = Ok tt -> rest = []).
Proof.
  revert k l prev. induction hs as [|h hs IH]; intros k l prev Hl Hk prevHash Ho; cbn [append_headers].
  { exists k, (Ok tt), [], []. rewrite (app_nil_r (headerList k)). by split_and!. }
  assert (Stop : forall e, exists k' r pre rest, (ret (Err e) : M (Keeper W) (result unit)) k = Val (k', r) /\
    bk_world k' = bk_world k /\ h :: hs = pre ++ rest /\ headerList k' = headerList k ++ pre /\
    linked (bk_world k') (headerList k') /\ (r = Ok tt -> rest = [])).
  { intros e. exists k, (Err e), [], (h :: hs). rewrite (app_nil_r (headerList k)). by split_and!. }
  destruct (Z.eqb_spec (hl_Height h) (u64 (hl_Height prev + 1))) as [Hh|]; [cbn [negb]|apply Stop].
  destruct (negb (len (h_PrevHash (hl_Header h)) =? 32)); [apply Stop|].
  case_bool_decide as Hp; [cbn [negb]|apply Stop].
  unfold try. rewrite (bind_run _ _ _ _ _ (header_hash_run h k)).
  destruct (hash_of (bk_world k) h) as [cur|e] eqn:Ec; [|apply Stop].
  unfold push_header. rewrite bind_modify. subst prevHash.
  assert (Hk' : linked (bk_world k) ((l ++ [prev]) ++ [h])) by (apply linked_snoc; [by rewrite <- Hl|done|done]).
  destruct (IH (set_headers (headerList k ++ [h]) k) (l ++ [prev]) h) with (prevHash := cur)
    as (k' & r & pre & rest & E & Hw & Hs & Hlst & Hlk & Hr); [by cbn; rewrite Hl|by cbn; rewrite Hl|done|].
  exists k', r, (h :: pre), rest. split; [exact E|]. split; [exact Hw|]. split; [by rewrite Hs|].
  split; [|done]. rewrite Hlst. cbn. by rewrite <- app_assoc.
Qed.
Lemma append_last hs k : headerList k <> [] -> linked (bk_world k) (headerList k) ->
  exists k' r pre rest,
    (let* k := get in
     match last (headerList k) with
     | None => ret (Err "fail to append list due to order dismatch: invalid header list tail")
     | Some prevLoc => try* prevHash := header_hash prevLoc in append_headers hs (hl_Height prevLoc) prevHash
     end) k = Val (k', r) /\
    bk_world k' = bk_world k /\ hs = pre ++ rest /\ headerList k' = headerList k ++ pre /\
    linked (bk_world k') (headerList k') /\ (r = Ok tt -> rest = []).
Proof.
  intros Hne Hl. rewrite bind_get. destruct (last (headerList k)) as [prev|] eqn:EL; [|by apply last_None in EL].
  apply last_Some in EL as [l0 EL]. unfold try. rewrite (bind_run _ _ _ _ _ (header_hash_run prev k)).
  destruct (hash_of (bk_world k) prev) as [ph|e] eqn:Eh.
  - by apply (append_headers_run hs k l0 prev).
  - exists k, (Err e), [], hs. rewrite (app_nil_r (headerList k)). by split_and!.
Qed.
End headers.

(** * Properties *)

(** The hash by which the keeper chains headers is the block hash of the chain, for every
    block whose Merkle root is in its header. *)
Theorem header_hash_agrees (b : Block) (p : ConsensusParams) (h : list Z)
  (Hroot : len (h_MerkleRoot (b_Header b)) = 32) (Hhash : BlockHash (Some b) p = Ok h) :
  computeHeaderHash (b_Header b) (GetHeight b) (b_MinerAddress b) = Ok h.
Proof.
  assert (E : exists pre, blockHeaderPreimageBinaryV1 (Some b) (h_Nonce (b_Header b)) p = Ok pre /\ h = sha256 pre).
  { unfold BlockHash, HeaderBytesForConsensus in Hhash.
    destruct (BinaryEncodingActive p (GetHeight b)); (destruct (blockHeaderPreimageBinaryV1 _ _ _) as [pre|]; [|done]);
      injection Hhash as <-; by exists pre. }
  destruct E as (pre & E & ->). unfold blockHeaderPreimageBinaryV1 in E.
  destruct (h_TimestampUnix (b_Header b) <=? 0); [done|]. cbn [fail_if result_bind] in E.
  destruct (negb (len (h_PrevHash (b_Header b)) =? 0) && _); [done|]. cbn [fail_if result_bind] in E.
  destruct (negb (len (b_Hash b) =? 0) && _); [done|]. cbn [fail_if result_bind] in E.
  destruct (decodeHex32 (b_MinerAddress b)) as [miner|] eqn:Em; [|done]. cbn [wrap result_bind] in E.
  unfold computeHeaderHash. rewrite (miner_address_decoded _ _ Em). cbn [wrap result_bind].
  rewrite Hroot in *. rewrite Z.eqb_refl in *. cbn [result_bind] in E. injection E as <-. done.
Qed.

(** The header list stays a chain: each header is one higher than the one before and names
    its hash.  Accepted headers are all appended, of refused ones a prefix, after the best
    header of the chain when the list was empty; the chain itself is untouched. *)
Theorem headers_linked {W : Type} `{Surroundings W} (headers : list HeaderLocator) (k : Keeper W)
  (Hlinked : linked (bk_world k) (headerList k)) :
  exists k' r base pre rest, appendHeaderList headers k = Val (k', r) /\ bk_world k' = bk_world k /\
    headers = pre ++ rest /\ headerList k' = base ++ pre /\
    (base = headerList k \/ headerList k = [] /\ exists best, BestBlockHeader (bk_world k) = Ok best /\ base = [best]) /\
    linked (bk_world k') (headerList k') /\ (r = Ok tt -> rest = []).
Proof.
  unfold appendHeaderList. destruct headers as [|h hs].
  { exists k, (Ok tt), (headerList k), [], []. rewrite (app_nil_r (headerList k)). split_and!; auto. }
  rewrite bind_get. destruct (headerList k) as [|x xs] eqn:EK.
  - destruct (BestBlockHeader (bk_world k)) as [best|e] eqn:EB.
    + rewrite (try_run _ _ k (set_headers (headerList k ++ [best]) k) tt) by reflexivity.
      destruct (append_last (h :: hs) (set_headers (headerList k ++ [best]) k)) as (k' & r & pre & rest & E & R).
      { cbn. by rewrite EK. } { cbn. rewrite EK. apply linked_one. }
      exists k', r, [best], pre, rest. rewrite E. cbn [headerList set_headers bk_world] in R. rewrite EK in R.
      destruct R as (? & ? & ? & ? & ?). split_and!; try done. right. split; [done|]. by exists best.
    + exists k, (Err ("fail to append list due to order dismatch: get best header: " +:+ e)), [], [], (h :: hs).
      rewrite EK. split_and!; auto; done.
  - rewrite (try_run _ _ k k tt) by reflexivity.
    destruct (append_last (h :: hs) k) as (k' & r & pre & rest & E & R); [by rewrite EK|by rewrite EK|].
    exists k', r, (x :: xs), pre, rest. rewrite E. rewrite EK in R. destruct R as (? & ? & ? & ? & ?). split_and!; auto.
Qed.

(** C21. A synchronisation with a peer that serves a chain brings the chain to the height of the
    peer: enough rounds and fuel exist, and the worker reports success. *)
Theorem sync_reaches_peer {W : Type} `{Surroundings W} (Inv : W -> Prop) (blk : Z -> Block) (top : Z) (p : Peer)
  (rounds fuel : nat) (k : Keeper W) (Hserves : ServesChain W Inv blk top (p_ID p))
  (Hreal : p_simple p = false) (Hinv : Inv (bk_world k))
  (Hgap : 0 <= latest_height (bk_world k) < top) (Htop : top + MaxSyncRange < 2 ^ 64)
  (Hrounds : top - latest_height (bk_world k) < Z.of_nat rounds) (Hfuel : MaxSyncRange < Z.of_nat fuel) :
  exists k', dispatchRegularSync rounds fuel p (latest_height (bk_world k)) k = Val (k', true) /\
    Inv (bk_world k') /\ latest_height (bk_world k') = top.
Proof. by apply (dispatch_served Inv blk). Qed.

(** The pauses between attempts are the documented ones, and no peer is ever recorded as failed:
    the cool-down of failed peers never keeps one back. *)
Theorem failed_peers_never_recorded {W : Type} `{Surroundings W} (g : Block) (evs : list worker_event) (k k' : Keeper W)
  (Hfailed : failedSyncPeers k = ∅) (Hcool : syncCooldown k = 0) (Hrun : worker_run g evs k = Val (k', tt)) :
  failedSyncPeers k' = ∅ /\ syncCooldown k' ∈ [0; 30 * second; 60 * second; 120 * second; 300 * second].
Proof.
  apply (worker_run_quiet g evs k k' tt); [|exact Hrun]. split; [done|]. rewrite Hcool. apply zero_step.
Qed.

(** A peer is asked only when it claims more work, no lower height and no other genesis block;
    but the peer that is asked may be the one with the best height instead. *)
Theorem judge_heavier {W : Type} `{Surroundings W} (blockHeight localWork : Z) (id : string) (peerHeight peerWork : Z)
  (tipHash genesisHash : string) (k k' : Keeper W) (r : option Peer)
  (Hj : judge blockHeight localWork id peerHeight peerWork tipHash genesisHash k = Val (k', (syncTypeRegular, r))) :
  localWork < peerWork /\ blockHeight <= peerHeight /\
  (genesisHash = ""%string \/ forall g, BlockByHeight 0 (bk_world k) = Some g -> genesisHash = hex_encode (b_Hash g)) /\
  (r = PeerByID id (bk_world k) \/ r = bestPeer (bk_world k) \/ r = Some (mkPeer id peerHeight true)).
Proof.
  unfold judge in Hj. rewrite bind_get in Hj.
  destruct (negb (String.eqb genesisHash "") && _) eqn:EG; [done|].
  destruct ((peerHeight =? blockHeight) && _ && _); [done|].
  destruct (Z.ltb_spec localWork peerWork); [|done].
  assert (HG : genesisHash = ""%string \/ forall g, BlockByHeight 0 (bk_world k) = Some g -> genesisHash = hex_encode (b_Hash g)).
  { apply andb_false_iff in EG as [EG|EG].
    - left. apply negb_false_iff in EG. by apply String.eqb_eq.
    - right. intros g Eg. rewrite Eg in EG. apply negb_false_iff in EG. by apply String.eqb_eq. }
  unfold live_peer in Hj.
  destruct (Z.ltb_spec blockHeight peerHeight).
  - split; [done|]. split; [lia|]. split; [done|].
    apply bind_val in Hj as (k1 & live & E1 & E2). unfold bind, see, ret in E1. cbn in E1. injection E1 as <- <-.
    destruct (PeerByID id (bk_world k)) as [q|] eqn:EP; [destruct (0 <? p_Height q)|]; cbn in E2.
    + injection E2 as <- <-. by left.
    + destruct (bestPeer (bk_world k)) as [b|] eqn:Eb; [destruct (0 <? p_Height b)|]; injection E2 as <- <-; auto.
    + destruct (bestPeer (bk_world k)) as [b|] eqn:Eb; [destruct (0 <? p_Height b)|]; injection E2 as <- <-; auto.
  - destruct (Z.eqb_spec peerHeight blockHeight); [|done]. split; [done|]. split; [lia|]. split; [done|].
    apply bind_val in Hj as (k1 & live & E1 & E2). unfold bind, see, ret in E1. cbn in E1. injection E1 as <- <-.
    destruct (PeerByID id (bk_world k)) as [q|] eqn:EP; [destruct (0 <? p_Height q)|]; cbn in E2; injection E2 as <- <-; auto.
Qed.

(** * Samples *)

(** The sample chain as the surroundings: its peer serves the genesis block, [a1] and [n2]. *)
Definition served_block (h : Z) : Block :=
  ref_blk (if h =? 0 then g0 else if h =? 1 then a1 else if h =? 2 then n2 else mkRef 4 (ref_blk n2)).
Definition tip_block (c : Chain unit) : Block :=
  match last (blocks c) with Some r => ref_blk r | None => ref_blk g0 end.
Definition header_of (b : Block) : HeaderLocator := mkHeader (b_Header b) (GetHeight b).

#[local] Instance sample_surroundings : Surroundings (Chain unit) := {
  clock _ := 0;
  LatestBlock := tip_block;
  CanonicalWork c := Some (canonicalWork c);
  BlockByHeight h c := ref_blk <$> nth_error (blocks c) (Z.to_nat h);
  BlockByHash _ _ := None;
  GetHeaderByHeight h c := match nth_error (blocks c) (Z.to_nat h) with
                           | Some r => Ok (header_of (ref_blk r))
                           | None => Err "block not found"
                           end;
  BestBlockHeader c := Ok (header_of (tip_block c));
  GetBlocksFrom _ _ _ := [];
  LatestCheckpoint _ := Err "no checkpoint";
  GetCheckpointByHeight _ _ := None;
  chain_AddBlock b := add_to (mkRef 4 b);
  GetAllPeerIDs _ := ["peer"%string];
  PeerByID id _ := Some (mkPeer id 2 false);
  bestPeer _ := Some (mkPeer "peer" 2 false);
  GetPeerChainInfo _ c := Val (c, Ok (mkInfo 2 (Some 300) "" ""));
  ProcessIllegal _ c := Val (c, tt);
  DecSyncLoad _ c := Val (c, tt);
  SendInvToPeer _ _ c := Val (c, true);
  broadcastMinedBlock _ c := Val (c, tt);
  broadcastNewStatus _ _ c := Val (c, tt);
  fetchBlock _ h c := Val (c, Ok (served_block h));
  fetchBlocksBatch _ start count c := Val (c, Ok (map (fun h => Some (served_block h)) (seqZ start count))) }.

Definition keeper_of {W : Type} (w : W) (headers : list HeaderLocator) : Keeper W :=
  mkKeeper w None 0 headers 0 None ∅ (15 * second) false None 0 0 0 None.

Definition sample_inv (c : Chain unit) : Prop := c = plain \/ blocks c = [g0; a1; n2].

#[local] Instance sample_serves : ServesChain (Chain unit) sample_inv served_block 2 "peer".
Proof.
  split.
  - intros h Hh. assert (h = 0 \/ h = 1 \/ h = 2) as [-> | [-> | ->]] by lia; reflexivity.
  - intros w count Hi _ _. by exists w.
  - intros w [->|Hb] Hl.
    + destruct add_block_extends_witness as (c' & E & _ & Hb & _). exists c', true.
      split; [exact E|]. split; [by right|]. unfold latest_height. cbn [LatestBlock sample_surroundings].
      unfold tip_block. rewrite Hb. reflexivity.
    + exfalso. revert Hl. unfold latest_height. cbn [LatestBlock sample_surroundings].
      unfold tip_block. rewrite Hb. cbn. unfold GetHeight. cbn. lia.
  - intros w Hi. by exists w, (mkInfo 2 (Some 300) "" "").
  - intros w Hi. by exists w.
Qed.

Lemma sync_reaches_peer_witness :
  let k := keeper_of plain [] in
  exists k', dispatchRegularSync 2 1001 (mkPeer "peer" 2 false) (latest_height (bk_world k)) k = Val (k', true) /\
    sample_inv (bk_world k') /\ latest_height (bk_world k') = 2.
Proof.
  refine (sync_reaches_peer sample_inv served_block 2 (mkPeer "peer" 2 false) 2 1001 (keeper_of plain [])
    sample_serves eq_refl (or_introl eq_refl) _ _ _ _); vm_compute; (reflexivity || (split; [discriminate|reflexivity])).
Defined.

Definition rooted_block : Block :=
  mkBlock [] 7 (mkBlockHeader 2 (replicate 32 3) 1700000090 100 100 5 [] (replicate 32 4) 7 miner_addr)
    [] None miner_addr "".
Definition rooted_hash : list Z :=
  Eval vm_compute in match BlockHash (Some rooted_block) main_params with Ok h => h | Err _ => [] end.

Lemma header_hash_agrees_witness :
  computeHeaderHash (b_Header rooted_block) 7 miner_addr = Ok rooted_hash.
Proof.
  refine (header_hash_agrees rooted_block main_params rooted_hash eq_refl _). vm_compute. reflexivity.
Defined.

Lemma headers_linked_witness :
  let k := keeper_of plain [header_of (ref_blk g0)] in
  exists k' r base pre rest, appendHeaderList [header_of (ref_blk a1)] k = Val (k', r) /\ bk_world k' = bk_world k /\
    [header_of (ref_blk a1)] = pre ++ rest /\ headerList k' = base ++ pre /\
    (base = headerList k \/ headerList k = [] /\ exists best, BestBlockHeader (bk_world k) = Ok best /\ base = [best]) /\
    linked (bk_world k') (headerList k') /\ (r = Ok tt -> rest = []).
Proof.
  exact (headers_linked [header_of (ref_blk a1)] (keeper_of plain [header_of (ref_blk g0)]) (linked_one plain _)).
Defined.

(** Blocks of heights up to 7 are served, but those above 5 are of a branch whose parent is
    missing: they are accepted without moving the tip. *)
Definition numbered (h : Z) : Block := mkBlock [] h (b_Header rooted_block) [] None miner_addr "".
Definition stalled_surroundings : Surroundings Z := {|
  clock _ := 0;
  LatestBlock := numbered;
  CanonicalWork w := Some w;
  BlockByHeight h _ := Some (numbered h);
  BlockByHash _ _ := None;
  GetHeaderByHeight h _ := Ok (header_of (numbered h));
  BestBlockHeader w := Ok (header_of (numbered w));
  GetBlocksFrom _ _ _ := [];
  LatestCheckpoint _ := Err "no checkpoint";
  GetCheckpointByHeight _ _ := None;
  chain_AddBlock b w := let ext := (GetHeight b =? w + 1) && (GetHeight b <=? 5) in Val (if ext then w + 1 else w, Ok ext);
  GetAllPeerIDs _ := [];
  PeerByID _ _ := None;
  bestPeer _ := None;
  GetPeerChainInfo _ w := Val (w, Ok (mkInfo 7 (Some 7) "" ""));
  ProcessIllegal _ w := Val (w, tt);
  DecSyncLoad _ w := Val (w, tt);
  SendInvToPeer _ _ w := Val (w, true);
  broadcastMinedBlock _ w := Val (w, tt);
  broadcastNewStatus _ _ w := Val (w, tt);
  fetchBlock _ h w := Val (w, Ok (numbered h));
  fetchBlocksBatch _ start count w := Val (w, Ok (map (fun h => Some (numbered h)) (seqZ start count))) |}.

#[local] Existing Instance stalled_surroundings.
Definition stalled_blocks : gmap Z Block := by_height (map (fun h => Some (numbered h)) (seqZ 6 2)).

Lemma stalled_round (k : Keeper Z) (fuel : nat) : bk_world k = 5 -> syncPeer k = Some (mkPeer "peer" 7 false) ->
  range_loop fuel 1 7 6 k = Halt Diverge.
Proof.
  revert k. induction fuel as [|fuel IH]; intros k Hw Hp; [done|]. cbn [range_loop].
  change (7 <? 6) with false. cbv iota. change (Z.min (u64 (7 - 6 + 1)) fixedBatchSize) with 2.
  assert (ER : requireBlocksBatch 6 2 k = Val (set_world 5 k, Ok stalled_blocks)).
  { unfold requireBlocksBatch. rewrite bind_get, Hp. destruct k; cbn in Hw; subst; reflexivity. }
  rewrite (bind_run _ _ _ _ _ ER). change (size stalled_blocks =? 0)%nat with false. cbv iota.
  change (Z.of_nat (size stalled_blocks) <? 2) with false. cbv iota.
  rewrite (bind_run _ _ _ (set_world 5 k) (inl tt)) by reflexivity.
  rewrite see_bind. destruct (record_run (latest_height 5) (set_world 5 k)) as (k3 & E3 & Hw3 & Hp3).
  cbn [set_world bk_world]. rewrite (bind_run _ _ _ _ _ E3). change (u64 (latest_height 5 + 1)) with 6.
  change (6 =? 1) with false. cbv iota. apply IH; [by rewrite Hw3|by rewrite Hp3].
Qed.

(** A download that stops advancing after its first batch never ends: the stall test compares
    the tip with the height the download began at, not with that of the last round.  Here the
    peer serves seven blocks of which the last two belong to a branch the chain keeps aside. *)
Theorem sync_can_hang (fuel : nat) :
  regularBlockSync fuel 7 (set_syncPeer (Some (mkPeer "peer" 7 false)) (keeper_of 0 [])) = Halt Diverge.
Proof.
  destruct fuel as [|fuel]; [done|].
  transitivity (range_loop fuel 1 7 6 (match recordSyncProgress 5 (set_syncPeer (Some (mkPeer "peer" 7 false)) (keeper_of 5 [])) with
                                       | Val (k, _) => k | Halt _ => keeper_of 5 [] end)).
  - reflexivity.
  - apply stalled_round; reflexivity.
Qed.
