(* ===== verification/Miner.v ===== *)
(** * The miner

    [blockchain/miner/miner.go] and the selection of transactions of
    [blockchain/cmd/wrappers.go]: which transactions of the mempool go into the next block,
    when the node mines and when it waits, and the templates it hands to external miners.
    What the miner asks of the chain, the mempool, the peers and the synchronisation is the
    interface [MinerWorld]; the goroutines it starts are tasks that run later.  Logging is
    left out. *)

From S2P Require Import Prelude Bytes Sha256 Config Merkle Json Transaction Ledger Chain ChainSample.
From stdpp Require Import base list strings numbers gmap sets.
From Stdlib Require Import ZArith Lia.

Open Scope Z_scope.
Open Scope go_scope.
Open Scope chain_scope.

(** ** The choice of transactions *)
Section select.
Context (ed25519_verify : list Z -> list Z -> list Z -> bool) (p : ConsensusParams) (chainID height : Z) (st : State).

(** A transaction without a chain identifier gets that of the chain. *)
Definition with_chain (tx : Transaction) : Transaction :=
  if tx_ChainID tx =? 0
  then mkTransaction (tx_Type tx) chainID (tx_FromPubKey tx) (tx_ToAddress tx) (tx_Amount tx) (tx_Fee tx)
         (tx_Nonce tx) (tx_Data tx) (tx_Signature tx)
  else tx.

(** An entry of the mempool: the transaction and its identifier. *)
Abbreviation entry := (Transaction * string)%type.

Definition sender_nonces (entries : list entry) : gmap string (gset Z) :=
  foldl (fun m e => match FromAddress e.1 with
                    | Ok a => <[a := {[tx_Nonce e.1]} ∪ default ∅ (m !! a)]> m
                    | Err _ => m
                    end) ∅ entries.

(** Whether the mempool has a nonce of the sender from [lo] up to [hi]; the code tries every
    number in between. *)
Definition hasIntermediate (nonces : gmap string (gset Z)) (fromAddr : string) (lo hi : Z) : bool :=
  bool_decide (set_Exists (fun n => lo <= n /\ n < hi) (default ∅ (nonces !! fromAddr))).

Record Selection := mkSelection {
  picked : list Transaction;
  pickedIDs : list string;
  evictIDs : list string;
  expectedNonces : gmap string Z
}.

Definition skip_nonce (nonces : gmap string (gset Z)) (id fromAddr : string) (txNonce chainExpected : Z) (s : Selection) : Selection :=
  if (txNonce >? chainExpected) && negb (hasIntermediate nonces fromAddr chainExpected txNonce)
  then mkSelection (picked s) (pickedIDs s) (evictIDs s ++ [id]) (expectedNonces s)
  else s.

Definition pick (tx : Transaction) (id fromAddr : string) (s : Selection) : Selection :=
  if Balance (acct st fromAddr) <? (tx_Amount tx + tx_Fee tx)%u64 then s
  else mkSelection (picked s ++ [tx]) (pickedIDs s ++ [id]) (evictIDs s)
         (<[fromAddr := (tx_Nonce tx + 1)%u64]> (expectedNonces s)).

Definition select_one (nonces : gmap string (gset Z)) (e : entry) (s : Selection) : Selection :=
  if negb (is_type e.1 TxTransfer) then s
  else
    let tx := with_chain e.1 in
    match VerifyForConsensus ed25519_verify tx p height with
    | Err _ => s
    | Ok _ =>
        match FromAddress tx with
        | Err _ => s
        | Ok fromAddr =>
            match expectedNonces s !! fromAddr with
            | Some expectedNonce => if tx_Nonce tx =? expectedNonce then pick tx e.2 fromAddr s else s
            | None =>
                let chainExpected := (Nonce (acct st fromAddr) + 1)%u64 in
                if tx_Nonce tx =? chainExpected then pick tx e.2 fromAddr s
                else skip_nonce nonces e.2 fromAddr (tx_Nonce tx) chainExpected s
            end
        end
    end.

Fixpoint select_loop (nonces : gmap string (gset Z)) (maxTxPerBlock : Z) (entries : list entry) (s : Selection) : Selection :=
  match entries with
  | [] => s
  | e :: rest =>
      if maxTxPerBlock <=? len (picked s) then s
      else select_loop nonces maxTxPerBlock rest (select_one nonces e s)
  end.

(** [SelectMempoolTxs]: what is picked and what is evicted, of the entries by falling fee. *)
Definition SelectMempoolTxs (maxTxPerBlock : Z) (entries : list entry) : Selection :=
  select_loop (sender_nonces entries) maxTxPerBlock entries (mkSelection [] [] [] ∅).
End select.

(** *** The nonces of a selection *)

(** Every transfer has the nonce after the one its sender has, starting from [f]. *)
Fixpoint in_sequence (f : string -> Z) (txs : list Transaction) : Prop :=
  match txs with
  | [] => True
  | tx :: rest =>
      exists a, FromAddress tx = Ok a /\ tx_Nonce tx = (f a + 1)%u64 /\
        in_sequence (fun b => if str_eqb a b then tx_Nonce tx else f b) rest
  end.

Fixpoint last_nonce (f : string -> Z) (txs : list Transaction) : string -> Z :=
  match txs with
  | [] => f
  | tx :: rest =>
      match FromAddress tx with
      | Ok a => last_nonce (fun b => if str_eqb a b then tx_Nonce tx else f b) rest
      | Err _ => last_nonce f rest
      end
  end.

Lemma in_sequence_snoc f txs tx a : in_sequence f txs -> FromAddress tx = Ok a ->
  tx_Nonce tx = (last_nonce f txs a + 1)%u64 -> in_sequence f (txs ++ [tx]).
Proof.
  revert f. induction txs as [|t txs IH]; intros f Hs Ha Hn; cbn in *.
  - by exists a.
  - destruct Hs as (b & Hb & Hnb & Hr). rewrite Hb in Hn. exists b. auto.
Qed.

Lemma last_nonce_snoc f txs tx a b : FromAddress tx = Ok a ->
  last_nonce f (txs ++ [tx]) b = if str_eqb a b then tx_Nonce tx else last_nonce f txs b.
Proof.
  intros Ha. revert f. induction txs as [|t txs IH]; intros f; cbn.
  - by rewrite Ha.
  - destruct (FromAddress t); apply IH.
Qed.

Lemma in_sequence_ext f g txs : (forall a, f a = g a) -> in_sequence f txs -> in_sequence g txs.
Proof.
  revert f g. induction txs as [|tx txs IH]; intros f g He; cbn; [done|].
  intros (a & Ha & Hn & Hr). exists a. split; [done|]. split; [by rewrite <- He|].
  eapply IH; [|exact Hr]. intros b. cbn. by destruct (str_eqb a b).
Qed.

Section selection.
Context (ed : list Z -> list Z -> list Z -> bool) (p : ConsensusParams) (chainID height : Z) (st : State).
Abbreviation chain_nonce := (fun a => Nonce (acct st a)).

(** A transaction that can be picked: a verified transfer its sender can pay for. *)
Definition pickable (tx : Transaction) : Prop :=
  is_type tx TxTransfer = true /\ VerifyForConsensus ed tx p height = Ok tt /\
  exists a, FromAddress tx = Ok a /\ (tx_Amount tx + tx_Fee tx)%u64 <= Balance (acct st a).

Record selected (s : Selection) (es : list (Transaction * string)) : Prop := {
  sel_picked : picked s = map (fun e => with_chain chainID e.1) es;
  sel_ids : pickedIDs s = map snd es;
  sel_pickable : Forall pickable (picked s);
  sel_sequence : in_sequence chain_nonce (picked s);
  sel_expected : forall a, match expectedNonces s !! a with
                           | Some n => n = (last_nonce chain_nonce (picked s) a + 1)%u64
                           | None => last_nonce chain_nonce (picked s) a = chain_nonce a
                           end
}.

Lemma with_chain_type tx ty : is_type (with_chain chainID tx) ty = is_type tx ty.
Proof. unfold with_chain. by case_match. Qed.

Lemma pick_selected s es e a : selected s es ->
  is_type e.1 TxTransfer = true ->
  VerifyForConsensus ed (with_chain chainID e.1) p height = Ok tt -> FromAddress (with_chain chainID e.1) = Ok a ->
  tx_Nonce (with_chain chainID e.1) = (last_nonce chain_nonce (picked s) a + 1)%u64 ->
  exists es', selected (pick st (with_chain chainID e.1) e.2 a s) es' /\ (es' = es \/ es' = es ++ [e]).
Proof.
  intros Hs Ht Hv Ha Hn. unfold pick. set (tx := with_chain chainID e.1) in *.
  destruct (Z.ltb_spec (Balance (acct st a)) (tx_Amount tx + tx_Fee tx)%u64) as [|Hb]; [by exists es; auto|].
  exists (es ++ [e]). split; [|by right]. destruct Hs as [Hp Hi Hf Hq He]. split; cbn [picked pickedIDs expectedNonces].
  - by rewrite map_app, Hp.
  - by rewrite map_app, Hi.
  - apply list.Forall_app. split; [done|]. apply list.Forall_singleton. split; [|split; [done|by exists a]].
    unfold tx. by rewrite with_chain_type.
  - by eapply in_sequence_snoc.
  - intros b. rewrite (last_nonce_snoc _ _ _ _ _ Ha). destruct (decide (a = b)) as [<-|Hne].
    + by rewrite lookup_insert_eq, str_eqb_refl.
    + rewrite lookup_insert_ne by done. destruct (str_eqb a b) eqn:E; [by apply str_eqb_spec in E|]. apply He.
Qed.

Lemma select_one_selected nonces e s es : selected s es ->
  exists es', selected (select_one ed p chainID height st nonces e s) es' /\ (es' = es \/ es' = es ++ [e]).
Proof.
  intros Hs. assert (Keep : exists es', selected s es' /\ (es' = es \/ es' = es ++ [e])) by (exists es; auto).
  unfold select_one. destruct (is_type e.1 TxTransfer) eqn:Ht; [|exact Keep]. cbn [negb].
  destruct (VerifyForConsensus _ _ _ _) as [[]|] eqn:Hv; [|exact Keep].
  destruct (FromAddress _) as [a|] eqn:Ha; [|exact Keep].
  pose proof (sel_expected _ _ Hs a) as He. destruct (expectedNonces s !! a) as [n|] eqn:En.
  - destruct (Z.eqb_spec (tx_Nonce (with_chain chainID e.1)) n) as [Hn|]; [|exact Keep].
    apply pick_selected; try done. by rewrite Hn, He.
  - destruct (Z.eqb_spec (tx_Nonce (with_chain chainID e.1)) (Nonce (acct st a) + 1)%u64) as [Hn|].
    + apply pick_selected; try done. by rewrite Hn, He.
    + exists es. split; [|by left]. unfold skip_nonce. case_match; [|done]. by destruct Hs.
Qed.

Lemma select_loop_selected nonces maxTx entries s es : selected s es -> len (picked s) <= Z.max 0 maxTx ->
  exists es', selected (select_loop ed p chainID height st nonces maxTx entries s) (es ++ es') /\
    sublist es' entries /\ len (picked (select_loop ed p chainID height st nonces maxTx entries s)) <= Z.max 0 maxTx.
Proof.
  revert s es. induction entries as [|e rest IH]; intros s es Hs Hl; cbn [select_loop].
  - exists []. rewrite app_nil_r. split_and!; [done|constructor|done].
  - destruct (Z.leb_spec maxTx (len (picked s))) as [|Hlt].
    { exists []. rewrite app_nil_r. split_and!; [done|apply sublist_nil_l|done]. }
    destruct (select_one_selected nonces e s es Hs) as (es1 & Hs1 & [-> | ->]).
    + destruct (IH _ _ Hs1) as (es' & H1 & H2 & H3).
      { rewrite (sel_picked _ _ Hs1), <- (sel_picked _ _ Hs). done. }
      exists es'. split_and!; [done|by constructor|done].
    + destruct (IH _ _ Hs1) as (es' & H1 & H2 & H3).
      { rewrite (sel_picked _ _ Hs1), map_app, <- (sel_picked _ _ Hs). unfold len in *. rewrite length_app. cbn [length map]. lia. }
      exists (e :: es'). rewrite <- app_assoc in H1. split_and!; [exact H1|by constructor|done].
Qed.

Lemma SelectMempoolTxs_selected maxTx entries :
  exists es, selected (SelectMempoolTxs ed p chainID height st maxTx entries) es /\ sublist es entries /\
    len (picked (SelectMempoolTxs ed p chainID height st maxTx entries)) <= Z.max 0 maxTx.
Proof.
  unfold SelectMempoolTxs. destruct (select_loop_selected (sender_nonces entries) maxTx entries (mkSelection [] [] [] ∅) [])
    as (es & H1 & H2 & H3); [|unfold len; cbn [picked length]; lia|by exists es].
  by split.
Qed.

(** *** A selection on the ledger *)
Lemma transfer_runs (tx : Transaction) (s : State) (a : string) :
  tx_typed tx -> st_typed s -> supply s <= max_u64 ->
  is_type tx TxTransfer = true -> VerifyForConsensus ed tx p height = Ok tt -> FromAddress tx = Ok a ->
  tx_Nonce tx = (Nonce (acct s a) + 1)%u64 -> tx_Amount tx + tx_Fee tx <= Balance (acct s a) ->
  exists s', apply_transfer_tx ed p height tx s = (s', Ok tt).
Proof.
  intros (_ & Ha & Hf & _) Hs Hsup Ht Hv Hfrom Hn Hb. destruct (acct_is_typed s a Hs) as [Hba _].
  unfold apply_transfer_tx, st_bind, st_lift, st_get. rewrite Hv, Hfrom, Hn, Z.eqb_refl. cbn [negb fail_if st_modify].
  rewrite sub64_small by (unfold_u64; lia). rewrite (add64_small (tx_Amount tx)) by (unfold_u64; lia).
  rewrite Z.gtb_ltb, (proj2 (Z.ltb_ge _ _)) by (unfold_u64; lia). cbn [fail_if]. rewrite (proj2 (Z.ltb_ge _ _)) by lia. cbn [fail_if].
  unfold st_modify. rewrite sub64_small by (unfold_u64; lia). unfold credit.
  set (s1 := <[a := _]> s). assert (Hs1 : st_typed s1).
  { apply st_typed_insert; [done|]. split; cbn [Balance Nonce]; [unfold_u64; lia|]. rewrite <- Hn. rewrite Hn. apply u64_range. }
  assert (Hsup1 : Balance (acct s1 (tx_ToAddress tx)) + tx_Amount tx <= max_u64).
  { pose proof (supply_insert s1 (tx_ToAddress tx) (mkAccount 0 0)) as E. cbn [Balance] in E.
    assert (0 <= supply (<[tx_ToAddress tx := mkAccount 0 0]> s1)).
    { apply supply_nonneg, st_typed_insert; [done|]. split; cbn; unfold_u64; lia. }
    pose proof (supply_insert s a (mkAccount (Balance (acct s a) - (tx_Amount tx + tx_Fee tx)) (Nonce (acct s a) + 1)%u64)) as E2.
    fold s1 in E2. cbn [Balance] in E2. unfold_u64. lia. }
  destruct (acct_is_typed s1 (tx_ToAddress tx) Hs1) as [Hbt _].
  rewrite sub64_small by (unfold_u64; lia). rewrite Z.gtb_ltb, (proj2 (Z.ltb_ge _ _)) by lia. eexists. reflexivity.
Qed.

Lemma transfer_not_coinbase (tx : Transaction) : is_type tx TxTransfer = true -> is_type tx TxCoinbase = false.
Proof. unfold is_type. intros H. apply str_eqb_spec in H. by rewrite H. Qed.

Lemma debit_nonneg (tx : Transaction) (a : string) : tx_typed tx -> 0 <= debit_of tx a.
Proof. intros (_ & Ha & Hf & _). unfold debit_of. case_match; unfold_u64; lia. Qed.

Lemma selection_runs (i : nat) (txs : list Transaction) (s : State) (f : string -> Z) :
  Forall tx_typed txs -> Forall pickable txs -> in_sequence f txs ->
  st_typed s -> supply s <= max_u64 -> (forall a, Nonce (acct s a) = f a) ->
  (forall a, sumZ (map (fun tx => debit_of tx a) txs) <= Balance (acct s a)) ->
  exists s', apply_txs ed p height i txs s = (s', Ok tt).
Proof.
  intros Hty. revert i s f. induction Hty as [|tx txs Htx Htxs IH]; intros i s f Hp Hq Hs Hsup Hn Hb; cbn [apply_txs].
  { by exists s. }
  apply list.Forall_cons in Hp as [(Ht & Hv & _) Hp]. destruct Hq as (a & Ha & Hna & Hq).
  assert (Hnn : forall b, 0 <= sumZ (map (fun tx => debit_of tx b) txs)).
  { intros b. apply sumZ_nonneg, List.Forall_map. eapply list.Forall_impl; [exact Htxs|]. intros t Hx. by apply debit_nonneg. }
  assert (Hsends : sends tx a = true) by (unfold sends; by rewrite Ha, str_eqb_refl).
  destruct (transfer_runs tx s a) as [s' E]; try done.
  { by rewrite Hn. }
  { specialize (Hb a). cbn [map] in Hb. unfold sumZ in Hb. cbn [foldr] in Hb. fold (sumZ (map (fun tx => debit_of tx a) txs)) in Hb.
    unfold debit_of at 1 in Hb. rewrite Hsends in Hb. specialize (Hnn a). lia. }
  destruct (transfer_posts ed p height tx s s' tt Htx Hs Ht E) as (Hs' & Hsup' & Hpost).
  destruct (IH (S i) s' (fun b => if str_eqb a b then tx_Nonce tx else f b)) as [s2 E2]; try done.
  - rewrite Hsup'. unfold minted. rewrite transfer_not_coinbase by done. destruct Htx as (_ & _ & Hf & _). unfold_u64. lia.
  - intros b. destruct (Hpost b) as [_ Hnb]. rewrite Hnb. unfold sent_count, sends. rewrite Ha, Hn.
    destruct (str_eqb a b) eqn:Eab; [|lia]. apply str_eqb_spec in Eab as <-. rewrite Hna.
    pose proof (acct_is_typed s' a Hs') as [_ Hty']. destruct (Hpost a) as [_ Hna']. rewrite Hn in Hna'.
    unfold sent_count in Hna'. rewrite Hsends in Hna'. rewrite Hna' in Hty'. symmetry. apply Z.mod_small.
    pose proof (acct_is_typed s a Hs) as [_ H0]. rewrite Hn in H0. unfold_u64. lia.
  - intros b. destruct (Hpost b) as [Hbb _]. specialize (Hb b). cbn [map] in Hb. unfold sumZ in Hb. cbn [foldr] in Hb.
    fold (sumZ (map (fun tx => debit_of tx b) txs)) in Hb. rewrite Hbb.
    assert (0 <= credit_of tx b) by (unfold credit_of; destruct Htx as (_ & Hx & _); case_match; unfold_u64; lia). lia.
  - exists s2. unfold st_bind, apply_tx. rewrite transfer_not_coinbase, Ht by done. by rewrite E.
Qed.
End selection.

(** ** The miner and its surroundings *)
Definition second : Z := 1000000000.
Definition miningCooldownDuration : Z := 30 * second.
Definition syncEventMaxGap : Z := 300 * second.
Definition forkEventStaleSeconds : Z := 15 * second.
Definition syncEventStartupGrace : Z := 30 * second.
Definition syncDataStaleDuration : Z := 30 * second.
Definition peerWorkCacheTTL : Z := 10 * second.
Definition forkResumeInitialDelay : Z := 10 * second.
Definition forkResumeMaxTimeout : Z := 30 * second.
Definition forkResumePollInterval : Z := second.
Definition DefaultTargetBlockTime : Z := 30.
Definition MinBlockIntervalFraction : Z := 5.
Definition DefaultMaxTransactionsPerBlock : Z := 1000.
Definition minInterval : Z := DefaultTargetBlockTime * MinBlockIntervalFraction / 100 * second.

Record SyncStatusEvent := mkEvent {
  ev_ForkDetected : bool;
  ev_HeavierPeerWork : option Z;
  ev_HeavierPeerHeight : Z;
  ev_HeavierPeerID : string;
  ev_Timestamp : Z;
  ev_SyncCompleted : bool;
  ev_NoPeersResponded : bool
}.

Record ChainInfo := mkChainInfo { ci_Height : Z; ci_Work : option Z }.
Record peerWorkCacheEntry := mkCacheEntry { ce_work : Z; ce_height : Z; ce_timestamp : Z }.

(** What the miner uses of the chain, the mempool, the peers and the synchronisation.
    [sync_events] takes what waits in the channel of events, oldest first. *)
Class MinerWorld (W : Type) := {
  clock : W -> Z;
  ctxDone : W -> bool;
  LatestBlock : W -> option Block;
  CanonicalWork : W -> Z;
  IsSyncing : W -> bool;
  IsSynced : W -> bool;
  sync_events : M W (list SyncStatusEvent);
  TriggerSyncCheck : M W unit;
  Peers : W -> list string;
  FetchChainInfo : string -> M W (result (option ChainInfo));
  SelectTxs : Z -> M W (result (list Transaction * list string));
  MineTransfers : list Transaction -> M W (option Block * option error);
  AddBlock : Block -> M W (result bool);
  RemoveMany : list string -> M W unit;
  Publish : list string -> M W unit;
  BroadcastBlock : Block -> M W (option error) }.

(** The contexts of the verification: none, one with its cancel function, and the background
    context that [Stop] leaves, which is never done. *)
Inductive verification_ctx : Type := NoVerification | Verifying | Background.

(** The goroutines that were started and have not ended; the times are those they sleep until. *)
Inductive task : Type :=
| TBroadcast (b : Block)
| TBroadcastRetry (attempt : Z) (b : Block) (due : Z)
| TResumeAfterFork (due : Z) (deadline : option Z)
| TSafetyResume (due : Z).

(** [m_stopped]: [Run] has returned and closed the channel [stopped].  [miningCtx]: whether
    the mining context was cancelled, if there is one. *)
Record Miner (W : Type) := mkMiner {
  m_world : W;
  hasPeers : bool;
  hasSync : bool;
  hasSink : bool;
  maxTxPerBlock : Z;
  wakeCh : bool;
  m_stopped : bool;
  verification : verification_ctx;
  miningCtx : option bool;
  isMining : bool;
  lastPeerResponseTime : option Z;
  miningPermittedUntil : option Z;
  lastSyncEventTime : option Z;
  lastSyncEvent : option SyncStatusEvent;
  peerWorkCache : gmap string peerWorkCacheEntry;
  tasks : list task
}.
Arguments mkMiner {W}.
Arguments m_world {W}.
Arguments hasPeers {W}.
Arguments hasSync {W}.
Arguments hasSink {W}.
Arguments maxTxPerBlock {W}.
Arguments wakeCh {W}.
Arguments m_stopped {W}.
Arguments verification {W}.
Arguments miningCtx {W}.
Arguments isMining {W}.
Arguments lastPeerResponseTime {W}.
Arguments miningPermittedUntil {W}.
Arguments lastSyncEventTime {W}.
Arguments lastSyncEvent {W}.
Arguments peerWorkCache {W}.
Arguments tasks {W}.

Section miner.
Context {W : Type} `{MinerWorld W}.

Definition set_world (w : W) (m : Miner W) : Miner W :=
  mkMiner w (hasPeers m) (hasSync m) (hasSink m) (maxTxPerBlock m) (wakeCh m) (m_stopped m) (verification m) (miningCtx m)
    (isMining m) (lastPeerResponseTime m) (miningPermittedUntil m) (lastSyncEventTime m) (lastSyncEvent m) (peerWorkCache m) (tasks m).
Definition set_wake (b : bool) (m : Miner W) : Miner W :=
  mkMiner (m_world m) (hasPeers m) (hasSync m) (hasSink m) (maxTxPerBlock m) b (m_stopped m) (verification m) (miningCtx m)
    (isMining m) (lastPeerResponseTime m) (miningPermittedUntil m) (lastSyncEventTime m) (lastSyncEvent m) (peerWorkCache m) (tasks m).
Definition set_stopped (m : Miner W) : Miner W :=
  mkMiner (m_world m) (hasPeers m) (hasSync m) (hasSink m) (maxTxPerBlock m) (wakeCh m) true (verification m) (miningCtx m)
    (isMining m) (lastPeerResponseTime m) (miningPermittedUntil m) (lastSyncEventTime m) (lastSyncEvent m) (peerWorkCache m) (tasks m).
Definition set_verification (v : verification_ctx) (m : Miner W) : Miner W :=
  mkMiner (m_world m) (hasPeers m) (hasSync m) (hasSink m) (maxTxPerBlock m) (wakeCh m) (m_stopped m) v (miningCtx m)
    (isMining m) (lastPeerResponseTime m) (miningPermittedUntil m) (lastSyncEventTime m) (lastSyncEvent m) (peerWorkCache m) (tasks m).
Definition set_mining (ctx : option bool) (b : bool) (m : Miner W) : Miner W :=
  mkMiner (m_world m) (hasPeers m) (hasSync m) (hasSink m) (maxTxPerBlock m) (wakeCh m) (m_stopped m) (verification m) ctx
    b (lastPeerResponseTime m) (miningPermittedUntil m) (lastSyncEventTime m) (lastSyncEvent m) (peerWorkCache m) (tasks m).
Definition set_response (t : option Z) (m : Miner W) : Miner W :=
  mkMiner (m_world m) (hasPeers m) (hasSync m) (hasSink m) (maxTxPerBlock m) (wakeCh m) (m_stopped m) (verification m) (miningCtx m)
    (isMining m) t (miningPermittedUntil m) (lastSyncEventTime m) (lastSyncEvent m) (peerWorkCache m) (tasks m).
Definition set_permitted (t : option Z) (m : Miner W) : Miner W :=
  mkMiner (m_world m) (hasPeers m) (hasSync m) (hasSink m) (maxTxPerBlock m) (wakeCh m) (m_stopped m) (verification m) (miningCtx m)
    (isMining m) (lastPeerResponseTime m) t (lastSyncEventTime m) (lastSyncEvent m) (peerWorkCache m) (tasks m).
Definition set_event (e : SyncStatusEvent) (m : Miner W) : Miner W :=
  mkMiner (m_world m) (hasPeers m) (hasSync m) (hasSink m) (maxTxPerBlock m) (wakeCh m) (m_stopped m) (verification m) (miningCtx m)
    (isMining m) (lastPeerResponseTime m) (miningPermittedUntil m) (Some (ev_Timestamp e)) (Some e) (peerWorkCache m) (tasks m).
Definition set_cache (c : gmap string peerWorkCacheEntry) (m : Miner W) : Miner W :=
  mkMiner (m_world m) (hasPeers m) (hasSync m) (hasSink m) (maxTxPerBlock m) (wakeCh m) (m_stopped m) (verification m) (miningCtx m)
    (isMining m) (lastPeerResponseTime m) (miningPermittedUntil m) (lastSyncEventTime m) (lastSyncEvent m) c (tasks m).
Definition set_tasks (l : list task) (m : Miner W) : Miner W :=
  mkMiner (m_world m) (hasPeers m) (hasSync m) (hasSink m) (maxTxPerBlock m) (wakeCh m) (m_stopped m) (verification m) (miningCtx m)
    (isMining m) (lastPeerResponseTime m) (miningPermittedUntil m) (lastSyncEventTime m) (lastSyncEvent m) (peerWorkCache m) l.

Definition out {A : Type} (f : M W A) : M (Miner W) A := fun m =>
  res_bind (f (m_world m)) (fun '(w, a) => Val (set_world w m, a)).
Definition see {A : Type} (f : W -> A) : M (Miner W) A := fun m => Val (m, f (m_world m)).
Definition spawn (t : task) (m : Miner W) : Miner W := set_tasks (tasks m ++ [t]) m.

(** [NewMiner], with the loop of the synchronisation set or not. *)
Definition NewMiner (w : W) (peers sync sink : bool) (maxTx : Z) : Miner W :=
  mkMiner w peers sync sink (if maxTx <=? 0 then DefaultMaxTransactionsPerBlock else maxTx)
    false false NoVerification None false None None None None ∅ [].

(** *** Verification, interruption, waking *)
Definition Wake (m : Miner W) : Miner W := set_wake true m.

Definition StartVerification (m : Miner W) : Miner W := set_verification Verifying m.

Definition EndVerification (m : Miner W) : Miner W := set_verification NoVerification m.

Definition IsVerifying (m : Miner W) : bool := match verification m with Verifying => true | _ => false end.

Definition isVerificationActive (m : Miner W) : bool :=
  match verification m with NoVerification => false | _ => true end.

Definition InterruptMining (m : Miner W) : Miner W :=
  match miningCtx m with
  | Some _ => if isMining m then set_mining (Some true) false m else m
  | None => m
  end.

Definition ResumeMining (m : Miner W) : Miner W := set_mining (Some false) true m.

Definition isMiningActive : M (Miner W) bool :=
  let* m := get in
  match miningCtx m with
  | None => ret false
  | Some cancelled =>
      if negb (isMining m) then ret false
      else if cancelled then modify (set_mining (Some true) false) ;;* ret false
      else ret true
  end.

Definition OnChainReorganized (tip : option Block) (m : Miner W) : Miner W :=
  match tip with
  | None => m
  | Some _ => Wake (EndVerification (InterruptMining m))
  end.

Definition OnBlockAdded (m : Miner W) : Miner W := Wake (EndVerification m).

(** [Stop]; sending on the channel that [Run] closed panics. *)
Definition Stop : M (Miner W) unit :=
  modify (set_verification Background) ;;*
  modify (fun m => match miningCtx m with Some _ => set_mining (Some true) false m | None => m end) ;;*
  let* m := get in
  if m_stopped m then halt_with (Panic "send on closed channel") else ret tt.

(** *** The two layers of the decision *)
Definition fillCacheFromSyncEvent (evt : SyncStatusEvent) : M (Miner W) unit :=
  match ev_HeavierPeerWork evt with
  | None => ret tt
  | Some work =>
      if String.eqb (ev_HeavierPeerID evt) "" then ret tt
      else
        let* now := see clock in
        modify (fun m => set_cache (<[ev_HeavierPeerID evt := mkCacheEntry work (ev_HeavierPeerHeight evt) now]> (peerWorkCache m)) m)
  end.

(** [IsSyncing], [IsSynced] and [TriggerSyncCheck] of a loop that may be missing. *)
Definition syncing (m : Miner W) : bool := hasSync m && IsSyncing (m_world m).
Definition unsynced (m : Miner W) : bool := hasSync m && negb (IsSynced (m_world m)).
Definition trigger : M (Miner W) unit :=
  let* m := get in if hasSync m then out TriggerSyncCheck else ret tt.

Definition drainSyncEvents : M (Miner W) unit :=
  let* m := get in
  if negb (hasSync m) then ret tt
  else
    let* events := out sync_events in
    match last events with
    | None => ret tt
    | Some latest =>
        let* now := see clock in
        if forkEventStaleSeconds <? since now (ev_Timestamp latest) then
          if ev_ForkDetected latest then modify (fun m => set_event latest (set_permitted None m)) else ret tt
        else
          modify (set_event latest) ;;*
          (if ev_ForkDetected latest then modify (set_permitted None)
           else if ev_SyncCompleted latest then modify (set_permitted (Some (now + miningCooldownDuration)))
           else ret tt) ;;*
          if ev_ForkDetected latest then
            match ev_HeavierPeerWork latest with
            | Some work =>
                let* localWork := see CanonicalWork in
                let* localTip := see LatestBlock in
                let localHeight := match localTip with Some b => GetHeight b | None => 0 end in
                if (localHeight <? ev_HeavierPeerHeight latest) || (localWork <? work) then out TriggerSyncCheck else ret tt
            | None => ret tt
            end ;;*
            fillCacheFromSyncEvent latest
          else ret tt
    end.

Definition isMiningPermitted : M (Miner W) bool :=
  let* m := get in
  let now := clock (m_world m) in
  let lastEventTime := default zero_time (lastSyncEventTime m) in
  match miningPermittedUntil m, lastSyncEventTime m with
  | None, None => modify (set_permitted (Some (now + syncEventStartupGrace))) ;;* ret true
  | permitted, _ =>
      if now <? default zero_time permitted then ret true
      else if syncEventMaxGap <? since now lastEventTime then ret true
      else if (now - syncDataStaleDuration <? lastEventTime)
              && match lastSyncEvent m with Some e => ev_SyncCompleted e | None => false end
      then modify (set_permitted (Some (now + miningCooldownDuration))) ;;* ret true
      else ret false
  end.

(** What has been heard from the peers: the greatest work and height, and whether any answered. *)
Record peer_view := mkView { pv_work : Z; pv_height : Z; pv_responded : bool }.

Definition fresh_entry (now : Z) (cache : gmap string peerWorkCacheEntry) (peer : string) : option peerWorkCacheEntry :=
  match cache !! peer with
  | Some e => if now - ce_timestamp e <=? peerWorkCacheTTL then Some e else None
  | None => None
  end.

Definition see_entry (v : peer_view) (e : peerWorkCacheEntry) : peer_view :=
  mkView (Z.max (pv_work v) (ce_work e)) (Z.max (pv_height v) (ce_height e)) true.

(** The peers that are asked, in the order in which they answer; one that does not answer in
    time counts as one that fails. *)
Fixpoint ask_peers (peers : list string) (v : peer_view) : M (Miner W) peer_view :=
  match peers with
  | [] => ret v
  | peer :: rest =>
      let* r := out (FetchChainInfo peer) in
      match r with
      | Err _ => ask_peers rest v
      | Ok info =>
          let height := match info with Some i => ci_Height i | None => 0 end in
          match (match info with Some i => ci_Work i | None => None end) with
          | Some work =>
              let* now := see clock in
              modify (fun m => set_cache (<[peer := mkCacheEntry work height now]> (peerWorkCache m)) m) ;;*
              ask_peers rest (mkView (Z.max (pv_work v) work) (Z.max (pv_height v) height) true)
          | None => ask_peers rest (mkView (pv_work v) (Z.max (pv_height v) height) true)
          end
      end
  end.

Definition getPeerWorkParallel (arrival : list string -> list string) : M (Miner W) peer_view :=
  let* m := get in
  let now := clock (m_world m) in
  let peers := Peers (m_world m) in
  let fresh := fresh_entry now (peerWorkCache m) in
  let cached := foldl see_entry (mkView 0 0 false) (omap fresh peers) in
  ask_peers (arrival (List.filter (fun peer => match fresh peer with None => true | Some _ => false end) peers)) cached.

Definition prunePeerWorkCache : M (Miner W) unit :=
  let* now := see clock in
  modify (fun m => set_cache (base.filter (fun kv => now - peerWorkCacheTTL * 3 <= ce_timestamp kv.2) (peerWorkCache m)) m).

(** Layer 2: the peers are asked. *)
Definition layer2 (arrival : list string -> list string) : M (Miner W) bool :=
  let* localWork := see CanonicalWork in
  let* localTip := see LatestBlock in
  match localTip with
  | None => ret false
  | Some tip =>
      let* v := getPeerWorkParallel arrival in
      let* now := see clock in
      modify (fun m => match lastPeerResponseTime m with
                       | None => set_response (Some now) m
                       | Some _ => if pv_responded v then set_response (Some now) m else m
                       end) ;;*
      if pv_responded v then
        if (GetHeight tip <? pv_height v) && (localWork <? pv_work v) then
          trigger ;;* prunePeerWorkCache ;;* ret false
        else modify (set_permitted (Some (now + miningCooldownDuration))) ;;* prunePeerWorkCache ;;* ret true
      else
        let* m := get in
        prunePeerWorkCache ;;*
        ret (syncEventMaxGap <? since now (default zero_time (lastPeerResponseTime m)))
  end.

Definition too_soon (w : W) : bool :=
  match LatestBlock w with
  | Some b => since (clock w) (h_TimestampUnix (b_Header b) * second) <? minInterval
  | None => false
  end.

(** The part of [handleMiningTick] that decides whether to mine. *)
Definition mining_decision (arrival : list string -> list string) : M (Miner W) bool :=
  let* m := get in
  if syncing m then ret false
  else if unsynced m then ret false
  else if isVerificationActive m then ret false
  else
    let* active := isMiningActive in
    if negb active then modify ResumeMining ;;* ret false
    else
      let* soon := see too_soon in
      if soon then ret false
      else
        drainSyncEvents ;;*
        let* permitted := isMiningPermitted in
        let* m := get in
        if permitted then prunePeerWorkCache ;;* ret true
        else if hasPeers m then layer2 arrival
        else prunePeerWorkCache ;;* ret true.

(** *** Mining *)
Definition MineOnce : M (Miner W) (option Block * option error) :=
  let* active := isMiningActive in
  if negb active then ret (None, Some "miner: mining is not active"%string)
  else
    modify (fun m => set_mining (miningCtx m) true m) ;;*
    let* m := get in
    let* sel := out (SelectTxs (maxTxPerBlock m)) in
    match sel with
    | Err e => ret (None, Some ("select mempool txs: " +:+ e))
    | Ok (selected, selectedIDs) =>
        let* r := out (MineTransfers selected) in
        match r with
        | (Some b, Some e) => modify (spawn (TBroadcast b)) ;;* ret (Some b, Some e)
        | (None, Some e) => ret (None, Some e)
        | (None, None) => ret (None, None)
        | (Some b, None) =>
            let* added := out (AddBlock b) in
            (match added with
             | Ok true => if len (b_Hash b) <? 8 then halt_with (Panic "slice bounds out of range") else ret tt
             | _ => ret tt
             end) ;;*
            modify (spawn (TBroadcast b)) ;;*
            (if len selectedIDs =? 0 then ret tt
             else out (RemoveMany selectedIDs) ;;*
                  let* m := get in
                  if hasSink m then out (Publish selectedIDs) else ret tt) ;;*
            ret (Some b, None)
        end
    end.

Fixpoint getPeerHeight (peers : list string) (maxPeerHeight : Z) : M (Miner W) Z :=
  match peers with
  | [] => ret maxPeerHeight
  | peer :: rest =>
      let* r := out (FetchChainInfo peer) in
      getPeerHeight rest (match r with Ok (Some i) => Z.max maxPeerHeight (ci_Height i) | _ => maxPeerHeight end)
  end.

(** The answer of a peer is used without a test for [nil]. *)
Fixpoint getNetworkMaxWork (peers : list string) (networkMaxWork : option Z) : M (Miner W) (option Z) :=
  match peers with
  | [] => ret networkMaxWork
  | peer :: rest =>
      let* r := out (FetchChainInfo peer) in
      match r with
      | Err _ => getNetworkMaxWork rest networkMaxWork
      | Ok None => halt_with (Panic "invalid memory address or nil pointer dereference")
      | Ok (Some i) =>
          getNetworkMaxWork rest
            (match ci_Work i, networkMaxWork with
             | Some w, Some n => if n <? w then Some w else Some n
             | Some w, None => Some w
             | None, n => n
             end)
      end
  end.

Definition checkNetworkWork : M (Miner W) unit :=
  let* peers := see Peers in
  let* networkMaxWork := getNetworkMaxWork peers None in
  let* localWork := see CanonicalWork in
  match networkMaxWork with
  | Some n =>
      if localWork <? n then
        modify InterruptMining ;;*
        trigger ;;*
        let* now := see clock in
        modify (spawn (TSafetyResume (now + forkResumeMaxTimeout)))
      else modify ResumeMining
  | None => modify ResumeMining
  end.

Definition handleMinedBlock (block : Block) : M (Miner W) unit :=
  let* m := get in
  (if hasPeers m then
     let* tip := see LatestBlock in
     match tip with
     | None => halt_with (Panic "invalid memory address or nil pointer dereference")
     | Some b =>
         let* peers := see Peers in
         let* peerHeight := getPeerHeight peers 0 in
         if GetHeight b <? peerHeight then trigger else ret tt
     end
   else ret tt) ;;*
  if hasSync m && hasPeers m then
    let* now := see clock in
    modify (spawn (TBroadcastRetry 1 block now)) ;;*
    checkNetworkWork
  else ret tt.

Definition handleMiningTick (arrival : list string -> list string) : M (Miner W) unit :=
  let* mine := mining_decision arrival in
  if negb mine then ret tt
  else
    let* r := MineOnce in
    match r with
    | (_, Some _) => modify Wake
    | (Some block, None) => handleMinedBlock block
    | (None, None) => ret tt
    end.

(** *** What the network and the goroutines bring *)
Definition OnPeerBlockBroadcast (block : Block) : M (Miner W) unit :=
  let* m := get in
  if negb (hasSync m) then ret tt
  else
    match LatestBlock (m_world m) with
    | None => ret tt
    | Some localTip =>
        if (GetHeight localTip <? GetHeight block)
           || (GetHeight block =? GetHeight localTip) && negb (bool_decide (b_Hash block = b_Hash localTip))
        then
          modify InterruptMining ;;*
          out TriggerSyncCheck ;;*
          let* now := see clock in
          modify (spawn (TResumeAfterFork (now + forkResumeInitialDelay) None))
        else ret tt
    end.

(** A task whose time has come goes on: it ends, or waits again. *)
Definition run_task (t : task) : M (Miner W) unit :=
  let* m := get in
  let now := clock (m_world m) in
  match t with
  | TBroadcast b => if hasPeers m then let* _ := out (BroadcastBlock b) in ret tt else ret tt
  | TBroadcastRetry attempt b due =>
      if now <? due then modify (spawn t)
      else if ctxDone (m_world m) then ret tt
      else
        let* r := out (BroadcastBlock b) in
        match r with
        | None => ret tt
        | Some _ =>
            if attempt <? 3 then
              let* now := see clock in modify (spawn (TBroadcastRetry (attempt + 1) b (now + second)))
            else ret tt
        end
  | TResumeAfterFork due deadline =>
      if now <? due then modify (spawn t)
      else
        let deadline := default (now + forkResumeMaxTimeout) deadline in
        if negb (now <? deadline) || negb (syncing m) then modify ResumeMining
        else modify (spawn (TResumeAfterFork (now + forkResumePollInterval) (Some deadline)))
  | TSafetyResume due =>
      if now <? due then modify (spawn t)
      else let* active := isMiningActive in if active then ret tt else modify ResumeMining
  end.

Inductive miner_event : Type :=
| Tick (arrival : list string -> list string)
| WakeUp (arrival : list string -> list string)
| PeerBlock (b : Block)
| ChainReorganized (tip : option Block)
| BlockAdded
| VerificationStarts
| VerificationEnds
| RunTask (i : nat)
| RunReturns
| Stopping.

(** [Run] answers ticks and wake-ups until its context is done. *)
Definition miner_step (ev : miner_event) : M (Miner W) unit :=
  let* m := get in
  match ev with
  | Tick arrival => if m_stopped m then ret tt else handleMiningTick arrival
  | WakeUp arrival =>
      if m_stopped m || negb (wakeCh m) then ret tt else modify (set_wake false) ;;* handleMiningTick arrival
  | PeerBlock b => OnPeerBlockBroadcast b
  | ChainReorganized tip => modify (OnChainReorganized tip)
  | BlockAdded => modify OnBlockAdded
  | VerificationStarts => modify StartVerification
  | VerificationEnds => modify EndVerification
  | RunTask i =>
      match nth_error (tasks m) i with
      | Some t => modify (set_tasks (take i (tasks m) ++ drop (Datatypes.S i) (tasks m))) ;;* run_task t
      | None => ret tt
      end
  | RunReturns => modify set_stopped
  | Stopping => Stop
  end.
End miner.

(** ** Templates for external miners *)
Definition getBlockVersion (p : ConsensusParams) (height : Z) : Z :=
  if MerkleRootActive p height then 2 else if BinaryEncodingActive p height then 2 else 1.

Definition CreateCoinbaseTx (ed25519_verify : list Z -> list Z -> list Z -> bool)
  (minerAddress : string) (height totalFees chainID : Z) (p : ConsensusParams) : result Transaction :=
  fail_if (String.eqb minerAddress "") "miner address is required" ;;?
  wrap "invalid miner address" (ValidateAddress minerAddress) ;;?
  let policy := cp_MonetaryPolicy p in
  let minerReward := (BlockReward policy height * MinerRewardShare policy / 100)%u64 in
  let minerFee := MinerFeeAmount policy totalFees in
  fail_if (minerReward >? (max_u64 - minerFee)%u64) "coinbase amount overflow" ;;?
  let coinbase := mkTransaction TxCoinbase chainID None minerAddress (minerReward + minerFee)%u64 0 0
                    ("height=" +:+ dec_string height) None in
  wrap "invalid coinbase transaction" (Verify ed25519_verify coinbase) ;;?
  Ok coinbase.

Fixpoint exported_hashes (txs : list Transaction) (p : ConsensusParams) (height : Z) : result (list (list Z)) :=
  match txs with
  | [] => Ok []
  | tx :: rest =>
      let? th := wrap "compute tx hash" (TxSigningHashForConsensus tx p height) in
      let? others := exported_hashes rest p height in
      Ok (th :: others)
  end.

Definition computeMerkleRootForConsensus (txs : list Transaction) (p : ConsensusParams) (height : Z) : result (list Z) :=
  if len txs =? 0 then Ok (replicate 32 0)
  else let? leaves := exported_hashes txs p height in ComputeMerkleRoot leaves.

Fixpoint total_fees (txs : list Transaction) (totalFees : Z) : result Z :=
  match txs with
  | [] => Ok totalFees
  | tx :: rest =>
      fail_if (totalFees >? (max_u64 - tx_Fee tx)%u64) "total fees overflow" ;;?
      total_fees rest (totalFees + tx_Fee tx)%u64
  end.

(** [now] is the time in seconds. *)
Definition CreateBlockTemplate (ed25519_verify : list Z -> list Z -> list Z -> bool) (now : Z)
  (parent : option Block) (txs : list Transaction) (minerAddress : string) (chainID : Z) (p : ConsensusParams)
  : result Block :=
  match parent with
  | None => Err "parent block is required"
  | Some parent =>
      fail_if (String.eqb minerAddress "") "miner address is required" ;;?
      let? totalFees := total_fees txs 0 in
      let height := (GetHeight parent + 1)%u64 in
      let? coinbase := wrap "create coinbase" (CreateCoinbaseTx ed25519_verify minerAddress height totalFees chainID p) in
      let allTxs := coinbase :: txs in
      let? merkleRoot := wrap "compute merkle root" (computeMerkleRootForConsensus allTxs p height) in
      let parentTime := h_TimestampUnix (b_Header parent) in
      let time := if now <=? parentTime then i64 (parentTime + 1) else now in
      Ok (mkBlock [] height
            (mkBlockHeader (getBlockVersion p height) (b_Hash parent) time (h_DifficultyBits (b_Header parent)) 0 0 []
               merkleRoot 0 "")
            allTxs (Some coinbase) minerAddress "")
  end.

(** ** Runs *)
Section runs.
Context {W : Type} `{MinerWorld W}.

Lemma world_run {A : Type} (f : M W A) (m : Miner W) w a : f (m_world m) = Val (w, a) -> out f m = Val (set_world w m, a).
Proof. unfold out. by intros ->. Qed.
Lemma seen_bind {A B : Type} (f : W -> A) (k : A -> M (Miner W) B) (m : Miner W) : bind (see f) k m = k (f (m_world m)) m.
Proof. reflexivity. Qed.

(** The operation ends, and what the decision looks at stays. *)
Definition same_view (w w' : W) : Prop :=
  clock w' = clock w /\ LatestBlock w' = LatestBlock w /\ CanonicalWork w' = CanonicalWork w /\ Peers w' = Peers w.
Definition answers {A : Type} (f : M W A) : Prop := forall w, exists w' a, f w = Val (w', a).

Lemma prune_run (m : Miner W) : exists c, prunePeerWorkCache m = Val (set_cache c m, tt).
Proof. eexists. reflexivity. Qed.

Lemma ask_peers_run peers v (m : Miner W) : (forall id, answers (FetchChainInfo id)) ->
  exists m' v', ask_peers peers v m = Val (m', v') /\ hasSync m' = hasSync m /\
    pv_work v <= pv_work v' /\ pv_height v <= pv_height v' /\ (pv_responded v = true -> pv_responded v' = true).
Proof.
  intros Hf. revert v m. induction peers as [|peer peers IH]; intros v m; cbn [ask_peers].
  { exists m, v. split_and!; try done; lia. }
  destruct (Hf peer (m_world m)) as (w & r & E). rewrite (bind_run _ _ _ _ _ (world_run _ _ _ _ E)).
  destruct r as [info|e].
  2:{ destruct (IH v (set_world w m)) as (m' & v' & R). exists m', v'. exact R. }
  destruct (match info with Some i => ci_Work i | None => None end) as [work|].
  - rewrite seen_bind, bind_modify.
    match goal with |- context [ask_peers peers ?v1 ?m1] => destruct (IH v1 m1) as (m' & v' & E' & Hs & Hw & Hh & Hr) end.
    exists m', v'. cbn [pv_work pv_height pv_responded hasSync set_cache set_world] in *. split_and!; try done; auto; lia.
  - match goal with |- context [ask_peers peers ?v1 ?m1] => destruct (IH v1 m1) as (m' & v' & E' & Hs & Hw & Hh & Hr) end.
    exists m', v'. cbn [pv_work pv_height pv_responded hasSync set_cache set_world] in *. split_and!; try done; auto; lia.
Qed.

Lemma cached_view es v e : e ∈ es ->
  let v' := foldl see_entry v es in ce_work e <= pv_work v' /\ ce_height e <= pv_height v' /\ pv_responded v' = true.
Proof.
  assert (Mono : forall es v, let v' := foldl see_entry v es in
            pv_work v <= pv_work v' /\ pv_height v <= pv_height v' /\ (pv_responded v = true -> pv_responded v' = true)).
  { clear. induction es as [|x es IH]; intros v; cbn zeta; cbn [foldl]; [split_and!; [lia|lia|done]|].
    destruct (IH (see_entry v x)) as (H1 & H2 & H3). unfold see_entry in *. cbn [pv_work pv_height pv_responded] in *.
    split_and!; [lia|lia|auto]. }
  revert v. induction es as [|x es IH]; intros v Hin; cbn zeta; [by apply elem_of_nil in Hin|].
  apply elem_of_cons in Hin as [<-|Hin]; cbn [foldl]; [|by apply IH].
  destruct (Mono es (see_entry v e)) as (H1 & H2 & H3). unfold see_entry in *. cbn [pv_work pv_height pv_responded] in *.
  split_and!; [lia|lia|auto].
Qed.

(** A recent report of a fork. *)
Lemma drain_fork (m : Miner W) w1 earlier e work tip :
  hasSync m = true -> sync_events (m_world m) = Val (w1, earlier ++ [e]) ->
  ev_ForkDetected e = true -> ev_HeavierPeerWork e = Some work -> ev_HeavierPeerID e <> ""%string ->
  since (clock w1) (ev_Timestamp e) <= forkEventStaleSeconds -> LatestBlock w1 = Some tip ->
  (forall w, exists w', TriggerSyncCheck w = Val (w', tt) /\ same_view w w') ->
  exists m', drainSyncEvents m = Val (m', tt) /\ same_view w1 (m_world m') /\ hasPeers m' = hasPeers m /\
    miningPermittedUntil m' = None /\ lastSyncEventTime m' = Some (ev_Timestamp e) /\ lastSyncEvent m' = Some e /\
    peerWorkCache m' !! ev_HeavierPeerID e = Some (mkCacheEntry work (ev_HeavierPeerHeight e) (clock w1)).
Proof.
  intros Hs He Hf Hw Hid Hr Htip Ht. unfold drainSyncEvents. rewrite bind_get, Hs. cbn [negb].
  rewrite (bind_run _ _ _ _ _ (world_run _ _ _ _ He)), last_snoc, seen_bind. cbn [set_world m_world].
  rewrite (proj2 (Z.ltb_ge _ _)) by done. rewrite bind_modify, Hf, bind_modify.
  rewrite Hw. set (m1 := set_permitted None _).
  assert (E : exists w2, (let* localWork := see CanonicalWork in
              let* localTip := see LatestBlock in
              (if (match localTip with Some b => GetHeight b | None => 0 end <? ev_HeavierPeerHeight e) || (localWork <? work)
               then out TriggerSyncCheck else ret tt)) m1 = Val (set_world w2 m1, tt) /\ same_view w1 w2).
  { rewrite !seen_bind. case_match.
    - destruct (Ht (m_world m1)) as (w2 & E2 & V2). exists w2. split; [by apply world_run|exact V2].
    - exists w1. by split. }
  destruct E as (w2 & E & V). rewrite (bind_run _ _ _ _ _ E). unfold fillCacheFromSyncEvent. rewrite Hw.
  rewrite (proj2 (String.eqb_neq _ _)) by done. rewrite seen_bind. eexists. split; [reflexivity|].
  cbn. destruct V as (Vc & V). split; [by split|]. do 4 (split; [done|]). by rewrite lookup_insert_eq, Vc.
Qed.

(** A heavier and higher peer that is known keeps layer 2 from permitting. *)
Lemma layer2_defers arrival (m : Miner W) id e tip : (forall id, answers (FetchChainInfo id)) -> answers TriggerSyncCheck ->
  LatestBlock (m_world m) = Some tip -> id ∈ Peers (m_world m) ->
  fresh_entry (clock (m_world m)) (peerWorkCache m) id = Some e ->
  GetHeight tip < ce_height e -> CanonicalWork (m_world m) < ce_work e ->
  exists m', layer2 arrival m = Val (m', false).
Proof.
  intros Hf Ht Htip Hin He Hh Hw. unfold layer2. rewrite !seen_bind, Htip.
  destruct (cached_view (omap (fresh_entry (clock (m_world m)) (peerWorkCache m)) (Peers (m_world m))) (mkView 0 0 false) e)
    as (H1 & H2 & H3); [apply list_elem_of_omap; by exists id|].
  set (fresh := fresh_entry (clock (m_world m)) (peerWorkCache m)) in *.
  destruct (ask_peers_run (arrival (List.filter (fun peer => match fresh peer with None => true | Some _ => false end)
    (Peers (m_world m)))) (foldl see_entry (mkView 0 0 false) (omap fresh (Peers (m_world m)))) m Hf)
    as (m1 & v' & E & Hs & Hw' & Hh' & Hr).
  rewrite (bind_run (getPeerWorkParallel arrival) _ m m1 v' E).
  rewrite seen_bind, bind_modify. rewrite (Hr H3). rewrite (proj2 (Z.ltb_lt _ _)) by lia. rewrite (proj2 (Z.ltb_lt _ _)) by lia.
  cbn [andb]. set (m2 := match _ with Some _ => _ | None => _ end).
  assert (E2 : exists m3, trigger m2 = Val (m3, tt)).
  { unfold trigger. rewrite bind_get. destruct (hasSync m2); [|by eexists].
    destruct (Ht (m_world m2)) as (w & [] & Ew). eexists. by apply world_run. }
  destruct E2 as [m3 E2]. rewrite (bind_run _ _ _ _ _ E2). destruct (prune_run m3) as [c Ec].
  rewrite (bind_run _ _ _ _ _ Ec). by eexists.
Qed.
End runs.


(** ** Templates *)
Section templates.
Context (ed : list Z -> list Z -> list Z -> bool).

Lemma exported_agrees txs p height leaves : BinaryEncodingActive p height = false ->
  exported_hashes txs p height = Ok leaves -> tx_hashes txs p height = Ok leaves.
Proof.
  intros Hb. revert leaves. induction txs as [|tx txs IH]; intros leaves E; cbn [exported_hashes tx_hashes] in *; [done|].
  unfold txSigningHashForConsensus, TxSigningHashForConsensus in *. rewrite Hb in *.
  destruct (signingHashLegacyJSON tx) as [h|]; [|done]. cbn [wrap result_bind] in *.
  destruct (exported_hashes txs p height) as [ls|]; [|done]. cbn [result_bind] in E. injection E as <-.
  by rewrite (IH ls).
Qed.

Lemma template_fees txs f g : Forall tx_typed txs -> Forall (fun tx => is_type tx TxTransfer = true) txs ->
  total_fees txs f = Ok g -> g = fold_left (fun fees tx => if is_type tx TxTransfer then (fees + tx_Fee tx)%u64 else fees) txs f.
Proof.
  intros Hty Ht. revert f. induction Ht as [|tx txs Htx _ IH]; intros f E; cbn [total_fees fold_left] in *; [by injection E|].
  inv_result. rewrite Htx. apply list.Forall_cons in Hty as [_ Hty]. by apply IH.
Qed.

Lemma coinbase_preimage_long tx pre : is_type tx TxCoinbase = true -> txSigningPreimageBinaryV1 tx = Ok pre ->
  (50 <= length pre)%nat.
Proof.
  intros Ht E. unfold txSigningPreimageBinaryV1 in E. rewrite Ht in E. inv_result.
  match goal with E : decodeHex32 _ = Ok _ |- _ => apply decodeHex32_length in E end.
  cbn [length]. rewrite length_app. cbn [length]. lia.
Qed.

Lemma coinbase_made addr h fees chainID p cb : CreateCoinbaseTx ed addr h fees chainID p = Ok cb ->
  is_type cb TxCoinbase = true /\ tx_ToAddress cb = addr /\ VerifyForConsensus ed cb p h = Ok tt /\
  tx_Amount cb = coinbase_expected (cp_MonetaryPolicy p) h fees.
Proof.
  unfold CreateCoinbaseTx. intros E. inv_result. split_and!; try done.
  unfold VerifyForConsensus. change (is_type _ TxCoinbase) with true.
  match goal with E : Verify _ _ = Ok ?u |- _ => by destruct u end.
Qed.

(** The exported hash is a preimage, too long for a leaf, under the binary encoding. *)
Lemma root_made cb txs p h root : is_type cb TxCoinbase = true -> computeMerkleRootForConsensus (cb :: txs) p h = Ok root ->
  BinaryEncodingActive p h = false /\ exists leaves, tx_hashes (cb :: txs) p h = Ok leaves /\ MerkleRoot leaves = Ok root.
Proof.
  intros Hc E. unfold computeMerkleRootForConsensus in E. rewrite len_pos in E by done.
  destruct (exported_hashes (cb :: txs) p h) as [leaves|] eqn:EL; [|done]. cbn [result_bind] in E.
  destruct (BinaryEncodingActive p h) eqn:Hb.
  - exfalso. cbn [exported_hashes] in EL. unfold TxSigningHashForConsensus at 1 in EL. rewrite Hb in EL.
    destruct (txSigningPreimageBinaryV1 cb) as [pre|] eqn:Ep; [|done]. cbn [wrap result_bind] in EL.
    destruct (exported_hashes txs p h) as [ls|]; [|done]. injection EL as <-.
    pose proof (coinbase_preimage_long cb pre Hc Ep) as Hl. unfold ComputeMerkleRoot in E.
    rewrite len_pos in E by done. cbn [fail_if result_bind] in E. rewrite hash_leaves_err in E; [done|].
    intros Hs. inversion_clear Hs. unfold hashLength in *. lia.
  - split; [done|]. exists leaves. split; [by apply exported_agrees|exact E].
Qed.
End templates.

(** * Properties *)

(** C22. Whatever the mempool holds, at most [maxTxPerBlock] transactions are selected, each a
    verified transfer its sender can pay for, with consecutive nonces per sender from the one
    of the chain on; and if every sender can pay for all of its selected transfers together,
    the ledger applies them all, in any state that has the nonces of the chain's. *)
Theorem selection_applies (ed : list Z -> list Z -> list Z -> bool) (p : ConsensusParams) (chainID height maxTx : Z)
  (st s : State) (entries : list (Transaction * string)) (i : nat)
  (Htyped : Forall (fun e => tx_typed (with_chain chainID e.1)) entries)
  (Hstate : st_typed s) (Hsupply : supply s <= max_u64)
  (Hnonces : forall a, Nonce (acct s a) = Nonce (acct st a)) :
  let txs := picked (SelectMempoolTxs ed p chainID height st maxTx entries) in
  len txs <= Z.max 0 maxTx /\ Forall (pickable ed p height st) txs /\
  in_sequence (fun a => Nonce (acct st a)) txs /\
  ((forall a, sumZ (map (fun tx => debit_of tx a) txs) <= Balance (acct s a)) ->
   exists s', apply_txs ed p height i txs s = (s', Ok tt)).
Proof.
  destruct (SelectMempoolTxs_selected ed p chainID height st maxTx entries) as (es & [Hp Hi Hf Hq He] & Hsub & Hl).
  cbn zeta. set (txs := picked _) in *. split_and!; [exact Hl|exact Hf|exact Hq|]. intros Hb.
  apply (selection_runs ed p height st i txs s (fun a => Nonce (acct st a))); try done.
  rewrite Hp. apply List.Forall_map. apply list.Forall_forall. intros e He'.
  rewrite list.Forall_forall in Htyped. apply Htyped. by eapply elem_of_sublist.
Qed.

(** C23. A known peer with more work and a higher block keeps the miner from mining: when the
    newest event of the synchronisation reports one, and it is recent, the decision is not to
    mine, whatever the other peers answer. *)
Theorem fork_defers_mining {W : Type} `{MinerWorld W} (arrival : list string -> list string) (m : Miner W)
  (w1 : W) (earlier : list SyncStatusEvent) (e : SyncStatusEvent) (work : Z) (tip : Block)
  (Hpeers : hasPeers m = true) (Hsync : hasSync m = true)
  (Hevents : sync_events (m_world m) = Val (w1, earlier ++ [e]))
  (Hfork : ev_ForkDetected e = true) (Hincomplete : ev_SyncCompleted e = false)
  (Hwork : ev_HeavierPeerWork e = Some work) (Hid : ev_HeavierPeerID e <> ""%string)
  (Hknown : ev_HeavierPeerID e ∈ Peers w1) (Hrecent : since (clock w1) (ev_Timestamp e) <= forkEventStaleSeconds)
  (Hclock : 0 <= clock w1) (Htip : LatestBlock w1 = Some tip)
  (Hheight : GetHeight tip < ev_HeavierPeerHeight e) (Hheavier : CanonicalWork w1 < work)
  (Htrigger : forall w, exists w', TriggerSyncCheck w = Val (w', tt) /\ same_view w w')
  (Hanswers : forall id, answers (FetchChainInfo id)) :
  exists m', mining_decision arrival m = Val (m', false).
Proof.
  unfold mining_decision. rewrite bind_get.
  destruct (syncing m); [by exists m|]. destruct (unsynced m); [by exists m|].
  destruct (isVerificationActive m); [by exists m|].
  assert (Ea : exists m1 b, isMiningActive m = Val (m1, b) /\ m_world m1 = m_world m /\ hasPeers m1 = hasPeers m /\ hasSync m1 = hasSync m).
  { unfold isMiningActive. rewrite bind_get. repeat case_match; by eexists _, _. }
  destruct Ea as (m1 & active & Ea & Hw1 & Hp1 & Hs1). rewrite (bind_run _ _ _ _ _ Ea).
  destruct active; cbn [negb]; [|by eexists]. rewrite seen_bind. destruct (too_soon (m_world m1)); [by exists m1|].
  destruct (drain_fork m1 w1 earlier e work tip) as (m2 & E2 & (Vc & Vt & Vw & Vp) & Hp2 & Hu & Het & Hev & Hc); try done; [congruence..|].
  rewrite (bind_run _ _ _ _ _ E2).
  assert (EP : isMiningPermitted m2 = Val (m2, false)).
  { unfold isMiningPermitted. rewrite bind_get, Hu, Het, Hev, Hincomplete, andb_false_r, Vc. cbn [default].
    rewrite (proj2 (Z.ltb_ge _ _)) by (unfold zero_time; cbn [default from_option id]; lia).
    rewrite (proj2 (Z.ltb_ge _ _)); [done|]. cbn [default from_option id].
    unfold forkEventStaleSeconds, syncEventMaxGap, second in *. lia. }
  rewrite (bind_run _ _ _ _ _ EP), bind_get, Hp2, Hp1, Hpeers.
  apply (layer2_defers arrival m2 (ev_HeavierPeerID e) (mkCacheEntry work (ev_HeavierPeerHeight e) (clock w1)) tip); try done.
  - intros w. destruct (Htrigger w) as (w' & E & _). by exists w', tt.
  - by rewrite Vt.
  - by rewrite Vp.
  - unfold fresh_entry. rewrite Hc, Vc. cbn [ce_timestamp]. rewrite Z.sub_diag. done.
  - by rewrite Vw.
Qed.

(** C24. A template for an external miner is a block the chain can take: it extends its parent
    in height, hash and time, its coinbase passes verification and pays the amount the ledger
    expects for its height and fees, and its Merkle root is that of the validation.  There is
    one only while the binary encoding is not active: from then on every call fails. *)
Theorem template_agrees (ed : list Z -> list Z -> list Z -> bool) (now : Z) (parent b : Block) (txs : list Transaction)
  (minerAddress : string) (chainID : Z) (p : ConsensusParams)
  (Htyped : Forall tx_typed txs) (Htransfers : Forall (fun tx => is_type tx TxTransfer = true) txs)
  (Htime : - max_i64 <= h_TimestampUnix (b_Header parent) < max_i64)
  (Htemplate : CreateBlockTemplate ed now (Some parent) txs minerAddress chainID p = Ok b) :
  GetHeight b = (GetHeight parent + 1)%u64 /\ h_PrevHash (b_Header b) = b_Hash parent /\
  h_TimestampUnix (b_Header parent) < h_TimestampUnix (b_Header b) /\
  (exists cb, b_Transactions b = cb :: txs /\ is_type cb TxCoinbase = true /\ tx_ToAddress cb = b_MinerAddress b /\
     VerifyForConsensus ed cb p (GetHeight b) = Ok tt /\
     tx_Amount cb = coinbase_expected (cp_MonetaryPolicy p) (GetHeight b) (sum_fees txs)) /\
  MerkleRootV2ForConsensus b p = Ok (h_MerkleRoot (b_Header b)) /\
  BinaryEncodingActive p (GetHeight b) = false.
Proof.
  unfold CreateBlockTemplate in Htemplate. inv_result.
  match goal with E : CreateCoinbaseTx _ _ _ _ _ _ = Ok _ |- _ => apply coinbase_made in E as (Hc & Hto & Hv & Ha) end.
  match goal with E : computeMerkleRootForConsensus _ _ _ = Ok _ |- _ => apply root_made in E as (Hb & leaves & El & Er); [|done] end.
  match goal with E : total_fees _ _ = Ok _ |- _ => apply template_fees in E; [|done..] end.
  unfold GetHeight at 1 3 4 7 8. cbn [b_Height b_Header h_PrevHash h_TimestampUnix b_Transactions b_MinerAddress h_MerkleRoot].
  split_and!; try done.
  - destruct (Z.leb_spec now (h_TimestampUnix (b_Header parent))); [|done].
    rewrite i64_small; unfold max_i64 in *; lia.
  - eexists. split_and!; [done|done|done|exact Hv|]. by rewrite Ha; subst.
  - unfold MerkleRootV2ForConsensus. cbn [b_Transactions]. unfold GetHeight at 1. cbn [b_Height].
    rewrite El. exact Er.
Qed.

(** What one sender can pay for is checked for each transaction alone: the account the code
    lowers is a copy.  Two transfers that exceed a balance together are both selected, and the
    ledger refuses the block they are in. *)
Definition second_tx : Transaction :=
  mkTransaction TxTransfer 1 (Some zero_key) (GenerateAddress [9]) 500 10 2 "memo" (Some (replicate 64 1)).
Definition funded (balance : Z) : State := <[GenerateAddress zero_key := mkAccount balance 0]> ∅.
Definition two_entries : list (Transaction * string) := [(sample_tx, "a"%string); (second_tx, "b"%string)].

Theorem selection_overspends :
  let txs := picked (SelectMempoolTxs accept_all main_params 1 5 (funded 1000) 10 two_entries) in
  txs = [sample_tx; second_tx] /\ snd (apply_txs accept_all main_params 5 1 txs (funded 1000)) = Err "insufficient funds".
Proof. cbn zeta. split; vm_compute; reflexivity. Qed.

(** The first transaction of a sender whose nonce is ahead of the chain's is thrown out of the
    mempool at once, though the transaction before it may still come. *)
Theorem gap_evicted_at_once :
  let s := SelectMempoolTxs accept_all main_params 1 5 (funded 1000) 10 [(second_tx, "b"%string)] in
  picked s = [] /\ evictIDs s = ["b"%string].
Proof. cbn zeta. split; vm_compute; reflexivity. Qed.

(** A node that stops its miner after the mining loop has ended panics. *)
Theorem stop_after_run_panics {W : Type} `{MinerWorld W} (m : Miner W) :
  (miner_step RunReturns ;;* miner_step Stopping) m = Halt (Panic "send on closed channel").
Proof.
  unfold miner_step, Stop. rewrite (bind_run _ _ m (set_stopped m) tt) by reflexivity. rewrite bind_get, !bind_modify, bind_get.
  by destruct (miningCtx _).
Qed.

(** Mining that was interrupted for a fork is taken up by the next tick but one, unless the
    synchronisation is at work by then; the waiting that was started for it decides nothing. *)
Theorem interruption_short {W : Type} `{MinerWorld W} (arrival : list string -> list string) (m : Miner W)
  (Hidle : syncing m = false) (Hsynced : unsynced m = false) (Hv : verification m = NoVerification)
  (Hctx : miningCtx m = Some false) (Hmining : isMining m = true) :
  isMiningActive (InterruptMining m) = Val (InterruptMining m, false) /\
  exists m', mining_decision arrival (InterruptMining m) = Val (m', false) /\ isMiningActive m' = Val (m', true).
Proof.
  assert (E : InterruptMining m = set_mining (Some true) false m) by (unfold InterruptMining; by rewrite Hctx, Hmining).
  rewrite E. split; [done|]. unfold mining_decision. rewrite bind_get.
  change (syncing (set_mining (Some true) false m)) with (syncing m).
  change (unsynced (set_mining (Some true) false m)) with (unsynced m).
  rewrite Hidle, Hsynced. unfold isVerificationActive. cbn [verification set_mining]. rewrite Hv.
  eexists. split; reflexivity.
Qed.

(** * Samples *)
Lemma second_tx_typed : tx_typed second_tx.
Proof.
  unfold tx_typed, second_tx, is_u64, max_u64. cbn [tx_ChainID tx_Amount tx_Fee tx_Nonce tx_FromPubKey tx_Signature slice default].
  split_and!; try lia; cbn; repeat constructor; unfold is_byte; lia.
Qed.

Lemma selection_applies_witness :
  let txs := picked (SelectMempoolTxs accept_all main_params 1 5 (funded 2000) 10 two_entries) in
  exists s', apply_txs accept_all main_params 5 1 txs (funded 2000) = (s', Ok tt).
Proof.
  cbn zeta.
  refine (proj2 (proj2 (proj2 (selection_applies accept_all main_params 1 5 10 (funded 2000) (funded 2000) two_entries 1
    _ _ _ (fun a => eq_refl)))) _).
  - constructor; [exact sample_tx_typed|constructor; [exact second_tx_typed|constructor]].
  - apply st_typed_insert; [apply st_typed_empty|]. split; unfold_u64; cbn [Balance Nonce]; lia.
  - unfold funded. rewrite supply_insert, supply_empty. unfold_u64. cbn [Balance acct]. vm_compute. discriminate.
  - intros a. assert (E : picked (SelectMempoolTxs accept_all main_params 1 5 (funded 2000) 10 two_entries) = [sample_tx; second_tx])
      by (vm_compute; reflexivity).
    rewrite E. cbn [map sumZ foldr]. unfold debit_of, sends.
    assert (F1 : FromAddress sample_tx = Ok (GenerateAddress zero_key)) by reflexivity.
    assert (F2 : FromAddress second_tx = Ok (GenerateAddress zero_key)) by reflexivity.
    rewrite F1, F2. unfold funded. rewrite acct_insert. destruct (str_eqb _ a) eqn:Ea.
    + apply str_eqb_spec in Ea. rewrite decide_True by done. cbn. lia.
    + destruct (decide (GenerateAddress zero_key = a)) as [D|D].
      * apply str_eqb_spec in D. congruence.
      * unfold acct. rewrite lookup_empty. cbn [default from_option Balance zero_account]. lia.
Defined.

(** A world of events only: one peer, whose block 9 is heavier than ours, block 5. *)
Definition tip5 : Block := mkBlock (replicate 32 5) 5 (sample_header 5) [] None miner "".
#[local] Instance event_world : MinerWorld (list SyncStatusEvent) := {
  clock _ := 2000000000 * second;
  ctxDone _ := false;
  LatestBlock _ := Some tip5;
  CanonicalWork _ := 400;
  IsSyncing _ := false;
  IsSynced _ := true;
  sync_events w := Val ([], w);
  TriggerSyncCheck w := Val (w, tt);
  Peers _ := ["other"%string; "peer"%string];
  FetchChainInfo _ w := Val (w, Err "timeout");
  SelectTxs _ w := Val (w, Ok ([], []));
  MineTransfers _ w := Val (w, (Some tip5, None));
  AddBlock _ w := Val (w, Ok true);
  RemoveMany _ w := Val (w, tt);
  Publish _ w := Val (w, tt);
  BroadcastBlock _ w := Val (w, None) }.
Definition fork_event : SyncStatusEvent := mkEvent true (Some 500) 9 "peer" (1999999990 * second) false false.
Definition waiting_miner : Miner (list SyncStatusEvent) :=
  ResumeMining (NewMiner [fork_event] true true false 10).

Lemma fork_defers_mining_witness : exists m', mining_decision (fun l => l) waiting_miner = Val (m', false).
Proof.
  refine (fork_defers_mining (fun l => l) waiting_miner [] [] fork_event 500 tip5 eq_refl eq_refl eq_refl eq_refl eq_refl
    eq_refl _ _ _ _ eq_refl _ _ _ _).
  - discriminate.
  - apply elem_of_cons. right. apply elem_of_cons. by left.
  - vm_compute. discriminate.
  - vm_compute. discriminate.
  - vm_compute. reflexivity.
  - vm_compute. reflexivity.
  - intros w. exists w. by split_and!.
  - intros id w. by eexists _, _.
Defined.

Lemma interruption_short_witness :
  exists m', mining_decision (fun l => l) (InterruptMining waiting_miner) = Val (m', false) /\ isMiningActive m' = Val (m', true).
Proof.
  exact (proj2 (interruption_short (fun l => l) waiting_miner eq_refl eq_refl eq_refl eq_refl eq_refl)).
Defined.

Definition json_params : ConsensusParams :=
  mkConsensusParams 1 true 30 1 7200 1 4294967295 1 255 100 11 true 0 false 0 1 1000000 1000 main_policy.
Definition sample_template : Block :=
  Eval vm_compute in match CreateBlockTemplate accept_all 1700000100 (Some block0) [sample_tx] miner 1 json_params with
                     | Ok b => b | Err _ => tip5 end.

Lemma template_agrees_witness :
  MerkleRootV2ForConsensus sample_template json_params = Ok (h_MerkleRoot (b_Header sample_template)) /\
  exists cb, b_Transactions sample_template = [cb; sample_tx] /\
    tx_Amount cb = coinbase_expected (cp_MonetaryPolicy json_params) 1 (sum_fees [sample_tx]).
Proof.
  destruct (template_agrees accept_all 1700000100 block0 sample_template [sample_tx] miner 1 json_params) as (Hh & _ & _ & Hcb & Hr & _).
  - constructor; [exact sample_tx_typed|constructor].
  - constructor; [reflexivity|constructor].
  - cbn. unfold max_i64. lia.
  - vm_compute. reflexivity.
  - split; [exact Hr|]. destruct Hcb as (cb & E & _ & _ & _ & Ha). exists cb. split; [exact E|exact Ha].
Defined.
