(* ===== verification/Sync.v ===== *)
(** * The synchronisation loop

    [network/sync.go]: the monitor that compares the chain with the peers every five seconds,
    the events it sends to the miner, what it tells the block keeper, and the questions that
    the miner and the network handlers ask; the status message of
    [network/reactor/reactor_handlers.go]; and the search for a common ancestor.  The loop is
    an instance of the world of [Miner], so the three parts are put together here.  The
    progress is in thousandths: the monitor only ever stores 0, 0.99 and 1. *)

From S2P Require Import Prelude Bytes Config Json Transaction Chain ForkChoice Reorg AddBlock ChainSample Miner BlockKeeper.
From stdpp Require Import base list strings numbers gmap.
From Stdlib Require Import ZArith Lia.

Open Scope Z_scope.
Open Scope go_scope.
Open Scope chain_scope.

Definition syncStatusChBufferSize : Z := 16.
Definition maxSyncProgressWithPartialPeers : Z := 990.
Definition maxStaleDuration : Z := 30 * second.
Definition nearSyncedThreshold : Z := 999.
Definition noNewBlockDuration : Z := 30 * second.
Definition maxWorkPerBlock : Z := 2 ^ 24.

(** What the loop asks of the peers and of the miner; the chain is that of [Surroundings].
    A peer may answer with nothing. *)
Class SyncPeers (W : Type) := {
  GetActivePeers : W -> list string;
  FetchChainInfo : string -> M W (result (option ChainInfo));
  miner_OnChainReorganized : Block -> M W unit }.

(** [resyncPending] is the channel [forkResolvedCh] of the keeper; [sl_stopped]: the keeper's
    channel [quit] is closed; [snapshotRequests] counts the goroutines that ask for a mempool. *)
Record SyncLoop (W : Type) := mkLoop {
  blockKeeper : Keeper W;
  hasKeeper : bool;
  sl_started : bool;
  sl_stopped : bool;
  syncProgress : Z;
  lastUpdateTime : option Z;
  syncRoundInProgress : bool;
  resyncPending : bool;
  syncStatusCh : list Miner.SyncStatusEvent;
  snapshotRequests : Z }.
Arguments mkLoop {W}.
Arguments blockKeeper {W}.
Arguments hasKeeper {W}.
Arguments sl_started {W}.
Arguments sl_stopped {W}.
Arguments syncProgress {W}.
Arguments lastUpdateTime {W}.
Arguments syncRoundInProgress {W}.
Arguments resyncPending {W}.
Arguments syncStatusCh {W}.
Arguments snapshotRequests {W}.

(** ** What the peers said *)
Record peer_scan := mkScan {
  responsivePeers : Z;
  bestByWork : option (string * ChainInfo * Z);
  maxPeerHeight : Z }.

Definition scan_info (peer : string) (i : ChainInfo) (a : peer_scan) : peer_scan :=
  let seen := mkScan (responsivePeers a + 1) (bestByWork a) (if maxPeerHeight a <? ci_height i then ci_height i else maxPeerHeight a) in
  match ci_work i with
  | None => seen
  | Some work =>
      if negb (0 <? ci_height i) then seen
      else if maxWorkPerBlock * i64 (ci_height i) <? work then seen
      else if work <? i64 (ci_height i) then seen
      else
        let best := mkScan (responsivePeers seen) (Some (peer, i, work)) (maxPeerHeight seen) in
        match bestByWork a with
        | None => best
        | Some (_, _, w) => if w <? work then best else seen
        end
  end.

Section loop.
Context {W : Type} `{Surroundings W} `{SyncPeers W}.

Definition sl_world (s : SyncLoop W) : W := bk_world (blockKeeper s).

Definition set_keeper (k : Keeper W) (s : SyncLoop W) : SyncLoop W :=
  mkLoop k (hasKeeper s) (sl_started s) (sl_stopped s) (syncProgress s) (lastUpdateTime s) (syncRoundInProgress s)
    (resyncPending s) (syncStatusCh s) (snapshotRequests s).
Definition set_status (p : Z) (t : option Z) (s : SyncLoop W) : SyncLoop W :=
  mkLoop (blockKeeper s) (hasKeeper s) (sl_started s) (sl_stopped s) p t (syncRoundInProgress s)
    (resyncPending s) (syncStatusCh s) (snapshotRequests s).
Definition set_started (a b : bool) (s : SyncLoop W) : SyncLoop W :=
  mkLoop (blockKeeper s) (hasKeeper s) a b (syncProgress s) (lastUpdateTime s) (syncRoundInProgress s)
    (resyncPending s) (syncStatusCh s) (snapshotRequests s).
Definition set_pending (b : bool) (s : SyncLoop W) : SyncLoop W :=
  mkLoop (blockKeeper s) (hasKeeper s) (sl_started s) (sl_stopped s) (syncProgress s) (lastUpdateTime s) (syncRoundInProgress s)
    b (syncStatusCh s) (snapshotRequests s).
Definition set_events (l : list Miner.SyncStatusEvent) (s : SyncLoop W) : SyncLoop W :=
  mkLoop (blockKeeper s) (hasKeeper s) (sl_started s) (sl_stopped s) (syncProgress s) (lastUpdateTime s) (syncRoundInProgress s)
    (resyncPending s) l (snapshotRequests s).
Definition request_snapshot (s : SyncLoop W) : SyncLoop W :=
  mkLoop (blockKeeper s) (hasKeeper s) (sl_started s) (sl_stopped s) (syncProgress s) (lastUpdateTime s) (syncRoundInProgress s)
    (resyncPending s) (syncStatusCh s) (snapshotRequests s + 1).

Definition in_keeper {A : Type} (m : M (Keeper W) A) : M (SyncLoop W) A := fun s =>
  res_bind (m (blockKeeper s)) (fun '(k, a) => Val (set_keeper k s, a)).
Definition ask {A : Type} (m : M W A) : M (SyncLoop W) A := in_keeper (out m).
Definition look {A : Type} (f : W -> A) : M (SyncLoop W) A := fun s => Val (s, f (sl_world s)).

(** A send that does not block: a full channel drops the event. *)
Definition send (e : Miner.SyncStatusEvent) (s : SyncLoop W) : SyncLoop W :=
  if len (syncStatusCh s) <? syncStatusChBufferSize then set_events (syncStatusCh s ++ [e]) s else s.

(** ** The monitor *)
Fixpoint scan_peers (peers : list string) (a : peer_scan) : M (SyncLoop W) peer_scan :=
  match peers with
  | [] => ret a
  | peer :: rest =>
      let* r := ask (FetchChainInfo peer) in
      match r with
      | Ok (Some i) => scan_peers rest (scan_info peer i a)
      | _ => scan_peers rest a
      end
  end.

(** The work of a chain without a tip is that of no block.  A chain behind a heavier one gets
    0.99, whatever the ratio of the works and the distance of the heights. *)
Definition updateSyncProgressFromPeers : M (SyncLoop W) unit :=
  let* peers := look GetActivePeers in
  match peers with
  | [] => let* now := look clock in modify (set_status 1000 (Some now))
  | _ =>
      let* work := look CanonicalWork in
      let* a := scan_peers peers (mkScan 0 None 0) in
      if responsivePeers a =? 0 then
        let* now := look clock in
        modify (send (Miner.mkEvent false None 0 "" now false true))
      else
        match bestByWork a, work with
        | None, _ => ret tt
        | Some _, None => halt_with (Panic "invalid memory address or nil pointer dereference")
        | Some (peer, i, best), Some localWork =>
            let behind := localWork <? best in
            let* now := look clock in
            modify (set_status (if behind then maxSyncProgressWithPartialPeers else 1000) (Some now)) ;;*
            let* s := get in
            (if hasKeeper s && negb (String.eqb peer "")
             then in_keeper (setPeerSyncInfo peer (ci_height i) best (ci_tipHash i) (ci_genesisHash i))
             else ret tt) ;;*
            let* now := look clock in
            if behind then modify (send (Miner.mkEvent true (Some best) (maxPeerHeight a) peer now false false))
            else modify request_snapshot ;;* modify (send (Miner.mkEvent false None 0 "" now true false))
        end
  end.

(** ** Starting and stopping *)
Definition NewSyncLoop (k : Keeper W) (withKeeper : bool) : SyncLoop W :=
  mkLoop k withKeeper false false 0 None false false [] 0.

Definition Start : M (SyncLoop W) unit :=
  let* now := look clock in
  modify (fun s => set_status 0 (Some now) (set_started true (sl_stopped s) s)).

(** [Stop] closes the channel [quit] of the keeper. *)
Definition Stop : M (SyncLoop W) unit :=
  let* s := get in
  if hasKeeper s && sl_stopped s then halt_with (Panic "close of closed channel")
  else modify (fun s => set_status 0 (lastUpdateTime s) (set_started (sl_started s) true s)).

(** ** Questions *)
Definition IsSyncing (s : SyncLoop W) : bool := syncRoundInProgress s || (hasKeeper s && syncActive (blockKeeper s)).

Definition IsSynced (s : SyncLoop W) : bool :=
  let now := clock (sl_world s) in
  if hasKeeper s && syncActive (blockKeeper s) then false
  else if maxStaleDuration <? since now (default zero_time (lastUpdateTime s)) then false
  else if 1000 <=? syncProgress s then true
  else if nearSyncedThreshold <=? syncProgress s then
    noNewBlockDuration <? since now (h_TimestampUnix (b_Header (LatestBlock (sl_world s))) * second)
  else false.

Fixpoint max_height_of (peers : list string) (gotAny : bool) (highest : Z) : M (SyncLoop W) (bool * Z) :=
  match peers with
  | [] => ret (gotAny, highest)
  | peer :: rest =>
      let* r := ask (FetchChainInfo peer) in
      match r with
      | Ok (Some i) => max_height_of rest true (if highest <? ci_height i then ci_height i else highest)
      | _ => max_height_of rest gotAny highest
      end
  end.

Definition GetMaxPeerHeight : M (SyncLoop W) (Z * Z) :=
  let* peers := look GetActivePeers in
  match peers with
  | [] => ret (0, 0)
  | _ =>
      let* r := max_height_of peers false 0 in
      ret (if r.1 then (r.2, len peers) else (0, len peers))
  end.

(** ** Triggers *)
Definition TriggerImmediateReSync (s : SyncLoop W) : SyncLoop W := set_pending true s.

Definition TriggerSyncCheck (s : SyncLoop W) : SyncLoop W :=
  if sl_started s && hasKeeper s then TriggerImmediateReSync s else s.

Definition OnChainReorganized (newTip : option Block) : M (SyncLoop W) unit :=
  match newTip with
  | None => ret tt
  | Some tip => ask (miner_OnChainReorganized tip) ;;* modify TriggerSyncCheck
  end.

(** [OnStatus] of the handlers; [logged]: the rate limiter lets the message be logged. *)
Definition OnStatus (logged : bool) (height : Z) (latestHash : string) : M (SyncLoop W) unit :=
  (if logged && (strlen latestHash <? 16) then halt_with (Panic "slice bounds out of range") else ret tt) ;;*
  let* s := get in
  if negb (IsSyncing s) && negb (IsSynced s) then
    let* localHeight := look latest_height in
    if localHeight <? height then modify TriggerSyncCheck else ret tt
  else ret tt.

(** ** The common ancestor *)
Fixpoint ancestor_search (fuel : nat) (peer : string) (low high : Z) : M (SyncLoop W) Z :=
  match fuel with
  | O => halt_with Diverge
  | Datatypes.S fuel' =>
      if negb (low <? high) then ret low
      else
        let mid := (low + (high - low) / 2 + 1)%u64 in
        let* mine := look (BlockByHeight mid) in
        match mine with
        | None => ancestor_search fuel' peer low (mid - 1)
        | Some localBlock =>
            let* r := ask (fetchBlock peer mid) in
            match r with
            | Err _ => ancestor_search fuel' peer low (mid - 1)
            | Ok peerBlock =>
                if bool_decide (b_Hash localBlock = b_Hash peerBlock) then ancestor_search fuel' peer mid high
                else ancestor_search fuel' peer low (mid - 1)
            end
        end
  end.

(** The range is halved in every round. *)
Definition findCommonAncestorBinary (peer : string) (localHeight targetHeight : Z) : M (SyncLoop W) Z :=
  if (localHeight =? 0) || (targetHeight =? 0) then ret 0
  else ancestor_search 65 peer 0 (if targetHeight <? localHeight then targetHeight else localHeight).

Definition findCommonAncestorHeight (peer : string) (targetHeight : Z) : M (SyncLoop W) Z :=
  let* localHeight := look latest_height in
  findCommonAncestorBinary peer localHeight targetHeight.
End loop.

(** ** The loop as the miner sees it *)

(** What the miner uses besides: the mempool, its candidates and the broadcast. *)
Class MiningSide (W : Type) := {
  side_ctxDone : W -> bool;
  side_SelectTxs : Z -> M W (result (list Transaction * list string));
  side_MineTransfers : list Transaction -> M W (option Block * option error);
  side_RemoveMany : list string -> M W unit;
  side_Publish : list string -> M W unit;
  side_BroadcastBlock : Block -> M W (option error) }.

(** The answer of a peer with the fields the miner reads. *)
Definition miner_info (i : ChainInfo) : Miner.ChainInfo := Miner.mkChainInfo (ci_height i) (ci_work i).

#[export] Instance loop_world {W : Type} `{Surroundings W} `{SyncPeers W} `{MiningSide W} : Miner.MinerWorld (SyncLoop W) := {
  Miner.clock s := clock (sl_world s);
  Miner.ctxDone s := side_ctxDone (sl_world s);
  Miner.LatestBlock s := Some (LatestBlock (sl_world s));
  Miner.CanonicalWork s := default 0 (CanonicalWork (sl_world s));
  Miner.IsSyncing := IsSyncing;
  Miner.IsSynced := IsSynced;
  Miner.sync_events s := Val (set_events [] s, syncStatusCh s);
  Miner.TriggerSyncCheck := modify TriggerSyncCheck;
  Miner.Peers s := GetActivePeers (sl_world s);
  Miner.FetchChainInfo peer :=
    let* r := ask (FetchChainInfo peer) in
    ret (match r with Ok (Some i) => Ok (Some (miner_info i)) | Ok None => Ok None | Err e => Err e end);
  Miner.SelectTxs n := ask (side_SelectTxs n);
  Miner.MineTransfers txs := ask (side_MineTransfers txs);
  Miner.AddBlock b := ask (chain_AddBlock b);
  Miner.RemoveMany ids := ask (side_RemoveMany ids);
  Miner.Publish ids := ask (side_Publish ids);
  Miner.BroadcastBlock b := ask (side_BroadcastBlock b) }.

(** * Lemmas *)

(** ** What the peers answer *)

(** A peer's answer is credible when its work fits its height. *)
Definition credible (i : ChainInfo) (work : Z) : Prop :=
  ci_work i = Some work /\ 0 < ci_height i /\ i64 (ci_height i) <= work <= maxWorkPerBlock * i64 (ci_height i).

(** The peers answer by a table, and asking them changes nothing of the chain. *)
Class Answering (W : Type) `{Surroundings W} `{SyncPeers W} (answer : string -> option ChainInfo) : Prop := {
  fetch_answers : forall peer w, exists w' r, FetchChainInfo peer w = Val (w', r) /\
    match answer peer with
    | Some i => r = Ok (Some i)
    | None => r = Ok None \/ exists e, r = Err e
    end /\
    LatestBlock w' = LatestBlock w /\ CanonicalWork w' = CanonicalWork w /\ GetActivePeers w' = GetActivePeers w /\
    (forall h, BlockByHeight h w' = BlockByHeight h w) /\ clock w <= clock w' }.

Section answers.
Context {W : Type} `{Surroundings W} `{SyncPeers W} (answer : string -> option ChainInfo) `{!Answering W answer}.

(** The same loop in a world with the same chain. *)
Definition same_chain (s s' : SyncLoop W) : Prop :=
  exists w', s' = set_keeper (set_world w' (blockKeeper s)) s /\
    LatestBlock w' = LatestBlock (sl_world s) /\ CanonicalWork w' = CanonicalWork (sl_world s) /\
    GetActivePeers w' = GetActivePeers (sl_world s) /\
    (forall h, BlockByHeight h w' = BlockByHeight h (sl_world s)) /\ clock (sl_world s) <= clock w'.

Lemma same_chain_refl s : same_chain s s.
Proof. exists (sl_world s). destruct s as [[] ?]; split_and!; done || lia. Qed.

Lemma same_chain_trans s1 s2 s3 : same_chain s1 s2 -> same_chain s2 s3 -> same_chain s1 s3.
Proof.
  intros (w2 & -> & ? & ? & ? & B2 & ?) (w3 & -> & ? & ? & ? & B3 & ?). exists w3. unfold sl_world in *. cbn in *.
  split; [done|]. do 3 (split; [congruence|]). split; [|lia]. intros h. by rewrite B3, B2.
Qed.

Lemma ask_run peer (s : SyncLoop W) : exists s' r, ask (FetchChainInfo peer) s = Val (s', r) /\ same_chain s s' /\
  match answer peer with
  | Some i => r = Ok (Some i)
  | None => r = Ok None \/ exists e, r = Err e
  end.
Proof.
  destruct (fetch_answers peer (sl_world s)) as (w' & r & E & Hr & V).
  exists (set_keeper (set_world w' (blockKeeper s)) s), r. split; [|split; [|done]].
  - unfold ask, in_keeper. unfold sl_world in E. by rewrite (out_run _ _ _ _ E).
  - by exists w'.
Qed.

Definition scan_answer (a : peer_scan) (peer : string) : peer_scan :=
  match answer peer with Some i => scan_info peer i a | None => a end.

Lemma scan_run peers a (s : SyncLoop W) : exists s', scan_peers peers a s = Val (s', foldl scan_answer a peers) /\ same_chain s s'.
Proof.
  revert a s. induction peers as [|p peers IH]; intros a s; cbn [scan_peers foldl].
  - exists s. split; [done|]. apply same_chain_refl.
  - destruct (ask_run p s) as (s1 & r & E & V1 & Hr). rewrite (bind_run _ _ _ _ _ E).
    unfold scan_answer at 2. destruct (answer p) as [i|].
    + subst r. destruct (IH (scan_info p i a) s1) as (s2 & E2 & V2). exists s2. split; [exact E2|by eapply same_chain_trans].
    + destruct (IH a s1) as (s2 & E2 & V2). exists s2.
      split; [|by eapply same_chain_trans]. by destruct Hr as [->|[e ->]].
Qed.

(** What a scan has found out: the heaviest of the credible answers. *)
Record found (peers : list string) (a : peer_scan) : Prop := {
  found_count : 0 <= responsivePeers a /\ (responsivePeers a = 0 <-> forall p, p ∈ peers -> answer p = None);
  found_best : match bestByWork a with
               | Some (p, i, w) => p ∈ peers /\ answer p = Some i /\ credible i w
               | None => True
               end;
  found_heaviest : forall p i w, p ∈ peers -> answer p = Some i -> credible i w ->
    exists q j best, bestByWork a = Some (q, j, best) /\ w <= best;
  found_height : forall p i, p ∈ peers -> answer p = Some i -> ci_height i <= maxPeerHeight a }.

Lemma found_nil : found [] (mkScan 0 None 0).
Proof. split; cbn; try done; [|by intros ? ? ? ?%not_elem_of_nil|by intros ? ? ?%not_elem_of_nil].
  split; [lia|]. split; [intros _ p Hp; by apply not_elem_of_nil in Hp|done]. Qed.

(** The three cases of an answer. *)
Lemma scan_info_cases peer i a :
  let seen := mkScan (responsivePeers a + 1) (bestByWork a) (Z.max (maxPeerHeight a) (ci_height i)) in
  (scan_info peer i a = seen /\
   forall w, credible i w -> exists q j best, bestByWork a = Some (q, j, best) /\ w <= best) \/
  exists w, credible i w /\ scan_info peer i a = mkScan (responsivePeers seen) (Some (peer, i, w)) (maxPeerHeight seen) /\
    (forall q j best, bestByWork a = Some (q, j, best) -> best < w).
Proof.
  cbn zeta. unfold scan_info, credible.
  assert (Eh : (if maxPeerHeight a <? ci_height i then ci_height i else maxPeerHeight a) = Z.max (maxPeerHeight a) (ci_height i))
    by (destruct (Z.ltb_spec (maxPeerHeight a) (ci_height i)); lia).
  rewrite Eh. cbn [responsivePeers maxPeerHeight bestByWork].
  destruct (ci_work i) as [w|] eqn:Ew; [|left; split; [done|]; by intros w [? _]].
  destruct (Z.ltb_spec 0 (ci_height i)); cbn [negb]; [|left; split; [done|]; intros w0 (_ & ? & _); lia].
  destruct (Z.ltb_spec (maxWorkPerBlock * i64 (ci_height i)) w); [left; split; [done|]; intros w0 ([= <-] & _ & ?); lia|].
  destruct (Z.ltb_spec w (i64 (ci_height i))); [left; split; [done|]; intros w0 ([= <-] & _ & ?); lia|].
  destruct (bestByWork a) as [[[q j] best]|] eqn:Eb.
  - destruct (Z.ltb_spec best w).
    + right. exists w. split_and!; try done. by intros ? ? ? [= <- <- <-].
    + left. split; [done|]. intros w0 ([= <-] & _). exists q, j, best. split; [done|lia].
  - right. exists w. split_and!; done.
Qed.

Lemma found_snoc peers a p : found peers a -> found (peers ++ [p]) (scan_answer a p).
Proof.
  intros [[C0 C] B Hv Hh]. unfold scan_answer.
  destruct (answer p) as [i|] eqn:Ep.
  2:{ assert (In : forall q, q ∈ peers ++ [p] -> q ∈ peers \/ q = p) by (intros q; rewrite elem_of_app, list_elem_of_singleton; tauto).
      split; [split; [done|]| | |].
      - rewrite C. split; intros Hq q Hin; [destruct (In q Hin) as [?| ->]; [by apply Hq|done]|apply Hq, elem_of_app; by left].
      - destruct (bestByWork a) as [[[q j] w]|]; [|done]. destruct B as (? & ? & ?). split_and!; try done. apply elem_of_app; by left.
      - intros q j w Hin Hq Hc. destruct (In q Hin) as [?| ->]; [by eapply Hv|congruence].
      - intros q j Hin Hq. destruct (In q Hin) as [?| ->]; [by eapply Hh|congruence]. }
  assert (In : forall q j, q ∈ peers ++ [p] -> answer q = Some j -> (q ∈ peers /\ answer q = Some j) \/ j = i).
  { intros q j Hq Hj. apply elem_of_app in Hq as [?|Hq%list_elem_of_singleton]; [by left|]. right. congruence. }
  assert (Hnone : responsivePeers a + 1 = 0 <-> forall q, q ∈ peers ++ [p] -> answer q = None).
  { split; [lia|]. intros Hq. rewrite Hq in Ep; [done|]. apply elem_of_app. right. by apply list_elem_of_singleton. }
  destruct (scan_info_cases p i a) as [[-> Hw]|(w & Hc & -> & Hlt)]; cbn [responsivePeers maxPeerHeight bestByWork].
  - split; cbn [responsivePeers maxPeerHeight bestByWork]; [split; [lia|done]| | |].
    + destruct (bestByWork a) as [[[q j] w]|]; [|done]. destruct B as (? & ? & ?). split_and!; try done. apply elem_of_app; by left.
    + intros q j w Hin Hq Hc. destruct (In q j Hin Hq) as [[? ?]| ->]; [by eapply Hv|by apply Hw].
    + intros q j Hin Hq. destruct (In q j Hin Hq) as [[? ?]| ->]; [|lia]. transitivity (maxPeerHeight a); [by eapply Hh|lia].
  - split; cbn [responsivePeers maxPeerHeight bestByWork]; [split; [lia|done]| | |].
    + split_and!; try done. apply elem_of_app. right. by apply list_elem_of_singleton.
    + intros q j w' Hin Hq Hc'. exists p, i, w. split; [done|]. destruct (In q j Hin Hq) as [[Hin' Hq']| ->].
      * destruct (Hv q j w' Hin' Hq' Hc') as (q' & j' & best & E & ?). specialize (Hlt _ _ _ E). lia.
      * destruct Hc as [E1 _], Hc' as [E2 _]. rewrite E1 in E2. injection E2 as <-. lia.
    + intros q j Hin Hq. destruct (In q j Hin Hq) as [[? ?]| ->]; [|lia]. transitivity (maxPeerHeight a); [by eapply Hh|lia].
Qed.

Lemma found_all peers : found peers (foldl scan_answer (mkScan 0 None 0) peers).
Proof.
  assert (G : forall l done a, found done a -> found (done ++ l) (foldl scan_answer a l)).
  { induction l as [|p l IH]; intros dn a Ha; cbn [foldl]; [by rewrite app_nil_r|].
    replace (dn ++ p :: l) with ((dn ++ [p]) ++ l) by (by rewrite <- app_assoc). by apply IH, found_snoc. }
  exact (G peers [] _ found_nil).
Qed.
End answers.

(** ** A round of the monitor *)
Section rounds.
Context {W : Type} `{Surroundings W} `{SyncPeers W} (answer : string -> option ChainInfo) `{!Answering W answer}.

Definition active (s : SyncLoop W) : list string := GetActivePeers (sl_world s).
Definition scanned (s : SyncLoop W) : peer_scan := foldl (scan_answer answer) (mkScan 0 None 0) (active s).

(** The event that a round sends when it has found a best peer. *)
Definition status_event (s : SyncLoop W) (peer : string) (best localWork now : Z) : Miner.SyncStatusEvent :=
  if localWork <? best then Miner.mkEvent true (Some best) (maxPeerHeight (scanned s)) peer now false false
  else Miner.mkEvent false None 0 "" now true false.

(** What a round does when it has found a best peer. *)
Record judged (s s' : SyncLoop W) (peer : string) (i : ChainInfo) (best localWork : Z) : Prop := {
  j_progress : syncProgress s' = if localWork <? best then maxSyncProgressWithPartialPeers else 1000;
  j_time : lastUpdateTime s' = Some (clock (sl_world s'));
  j_keeper : hasKeeper s' = hasKeeper s /\ syncActive (blockKeeper s') = syncActive (blockKeeper s);
  j_round : syncRoundInProgress s' = syncRoundInProgress s;
  j_active : active s' = active s;
  j_tip : LatestBlock (sl_world s') = LatestBlock (sl_world s);
  j_work : CanonicalWork (sl_world s') = CanonicalWork (sl_world s);
  j_blocks : forall h, BlockByHeight h (sl_world s') = BlockByHeight h (sl_world s);
  j_info : hasKeeper s = true -> peer <> ""%string ->
    syncInfo (blockKeeper s') = Some (mkSyncInfo peer (mkInfo (ci_height i) (Some best) (ci_tipHash i) (ci_genesisHash i)) (clock (sl_world s')));
  j_events : syncStatusCh s' = if len (syncStatusCh s) <? syncStatusChBufferSize
                               then syncStatusCh s ++ [status_event s peer best localWork (clock (sl_world s'))] else syncStatusCh s;
  j_snapshots : snapshotRequests s' = if localWork <? best then snapshotRequests s else snapshotRequests s + 1 }.

Lemma look_bind {A B : Type} (f : W -> A) (k : A -> M (SyncLoop W) B) s : bind (look f) k s = k (f (sl_world s)) s.
Proof. reflexivity. Qed.

Lemma best_responds peers p i w : bestByWork (foldl (scan_answer answer) (mkScan 0 None 0) peers) = Some (p, i, w) ->
  (responsivePeers (foldl (scan_answer answer) (mkScan 0 None 0) peers) =? 0) = false.
Proof.
  intros E. pose proof (found_all answer peers) as [[C0 C] B _ _]. rewrite E in B. destruct B as (Hin & Ha & _).
  apply Z.eqb_neq. intros Z0. apply C with (p := p) in Z0; [congruence|done].
Qed.

(** The step after the scan, for any loop it starts in. *)
Lemma round_found s p i best lw : bestByWork (scanned s) = Some (p, i, best) -> CanonicalWork (sl_world s) = Some lw ->
  exists s', updateSyncProgressFromPeers s = Val (s', tt) /\ judged s s' p i best lw.
Proof.
  intros Eb El. unfold updateSyncProgressFromPeers. rewrite look_bind.
  assert (Hne : GetActivePeers (sl_world s) <> []) by (intros E; unfold scanned, active in Eb; rewrite E in Eb; done).
  destruct (GetActivePeers (sl_world s)) as [|q qs] eqn:Ep; [done|]. rewrite look_bind, El, <- Ep.
  destruct (scan_run answer (GetActivePeers (sl_world s)) (mkScan 0 None 0) s) as (s1 & E1 & w1 & -> & Vt & Vw & Va & Vb & Vc).
  rewrite (bind_run _ _ _ _ _ E1). pose proof (best_responds _ _ _ _ Eb) as Hr. change (GetActivePeers (sl_world s)) with (active s).
  fold (scanned s). unfold scanned in Hr. fold (scanned s) in Hr. rewrite Hr, Eb. rewrite look_bind, bind_modify, bind_get.
  destruct s as [k hk st sp pr lt sr rp ch sn]. cbn [hasKeeper set_status set_keeper] in *.
  set (info := hk && negb (String.eqb p "")).
  assert (Hi : exists k2, (if info then in_keeper (setPeerSyncInfo p (ci_height i) best (ci_tipHash i) (ci_genesisHash i)) else ret tt)
      (mkLoop (set_world w1 k) hk st sp (if lw <? best then maxSyncProgressWithPartialPeers else 1000) (Some (clock w1)) sr rp ch sn)
      = Val (mkLoop k2 hk st sp (if lw <? best then maxSyncProgressWithPartialPeers else 1000) (Some (clock w1)) sr rp ch sn, tt) /\
      bk_world k2 = w1 /\ syncActive k2 = syncActive k /\
      (info = true -> syncInfo k2 = Some (mkSyncInfo p (mkInfo (ci_height i) (Some best) (ci_tipHash i) (ci_genesisHash i)) (clock w1)))).
  { destruct info.
    - eexists. split; [reflexivity|]. by split_and!.
    - eexists. split; [reflexivity|]. by split_and!. }
  destruct Hi as (k2 & Ei & W2 & A2 & I2). unfold sl_world in *. cbn [blockKeeper bk_world set_world] in *.
  rewrite (bind_run _ _ _ _ _ Ei), look_bind. unfold sl_world. cbn [blockKeeper]. rewrite W2.
  assert (Hinfo : hk = true -> p <> ""%string -> info = true).
  { intros -> Hp. unfold info. by rewrite (proj2 (String.eqb_neq _ _) Hp). }
  unfold status_event. destruct (lw <? best) eqn:Elt;
    (eexists; split; [reflexivity|]; unfold send; cbn [syncStatusCh request_snapshot]; destruct (len ch <? syncStatusChBufferSize) eqn:Er;
     split; unfold active, status_event, sl_world; rewrite ?Elt; cbn; rewrite ?W2, ?Er; try done; try (by intros; apply I2, Hinfo); try (by split); try congruence).
Qed.
End rounds.

(** What asking a peer keeps of the world, a round keeps. *)
Section kept_worlds.
Context {W : Type} `{Surroundings W} `{SyncPeers W} (P : W -> Prop) (HP : forall peer, keeps P (FetchChainInfo peer)).
Let I (s : SyncLoop W) : Prop := P (sl_world s).

Lemma ask_keeps peer : keeps I (ask (FetchChainInfo peer)).
Proof.
  intros s s' a Hs E. unfold ask, in_keeper, out in E. destruct (FetchChainInfo peer _) as [[w x]|] eqn:Ef; [|done].
  injection E as <- <-. exact (HP peer _ _ _ Hs Ef).
Qed.

Lemma look_keeps {A : Type} (f : W -> A) : keeps I (look f).
Proof. intros s s' a Hs E. by injection E as <- <-. Qed.

Lemma scan_keeps peers a : keeps I (scan_peers peers a).
Proof.
  revert a. induction peers as [|p peers IH]; intros a; cbn [scan_peers]; [apply keeps_ret|].
  apply keeps_bind; [apply ask_keeps|]. intros [[i|]|e]; apply IH.
Qed.

Lemma modify_keeps (f : SyncLoop W -> SyncLoop W) : (forall s, sl_world (f s) = sl_world s) -> keeps I (modify f).
Proof. intros Hf. apply keeps_modify. intros s Hs. unfold I. by rewrite Hf. Qed.

Lemma send_world e (s : SyncLoop W) : sl_world (send e s) = sl_world s.
Proof. unfold send. by case_match. Qed.

Lemma round_keeps : keeps I updateSyncProgressFromPeers.
Proof.
  unfold updateSyncProgressFromPeers.
  repeat first [ apply look_keeps | apply scan_keeps | apply modify_keeps; intros; first [done | apply send_world]
               | keeps_step ].
Qed.
End kept_worlds.

(** The rounds of the monitor. *)
Fixpoint monitor {W : Type} `{Surroundings W} `{SyncPeers W} (n : nat) : M (SyncLoop W) unit :=
  match n with
  | O => ret tt
  | Datatypes.S n' => updateSyncProgressFromPeers ;;* monitor n'
  end.

Section consequences.
Context {W : Type} `{Surroundings W} `{SyncPeers W} (answer : string -> option ChainInfo) `{!Answering W answer}.

(** No credible answer is heavier than the chain. *)
Definition lightest (s : SyncLoop W) (localWork : Z) : Prop :=
  forall p i w, p ∈ active s -> answer p = Some i -> credible i w -> w <= localWork.

Lemma best_exists s p i w : p ∈ active s -> answer p = Some i -> credible i w ->
  exists q j best, bestByWork (scanned answer s) = Some (q, j, best) /\ w <= best /\ q ∈ active s /\ answer q = Some j /\ credible j best.
Proof.
  intros Hin Ha Hc. pose proof (found_all answer (active s)) as [_ B Hv _]. fold (scanned answer s) in B, Hv.
  destruct (Hv p i w Hin Ha Hc) as (q & j & best & E & Hle). rewrite E in B. by exists q, j, best.
Qed.

Lemma best_lightest s p i best localWork : bestByWork (scanned answer s) = Some (p, i, best) ->
  (best <= localWork <-> lightest s localWork).
Proof.
  intros E. pose proof (found_all answer (active s)) as [_ B Hv _]. fold (scanned answer s) in B, Hv. rewrite E in B. split.
  - intros Hle q j w Hin Ha Hc. destruct (Hv q j w Hin Ha Hc) as (? & ? & ? & E2 & ?). rewrite E in E2. injection E2 as <- <- <-. lia.
  - intros Hl. destruct B as (Hin & Ha & Hc). by eapply Hl.
Qed.

(** Right after a round, the loop is synced when the keeper is idle and no peer was heavier. *)
Lemma judged_synced s s' p i best lw : judged answer s s' p i best lw ->
  IsSynced s' = negb (hasKeeper s && syncActive (blockKeeper s)) && (best <=? lw).
Proof.
  intros J. unfold IsSynced. rewrite (j_time _ _ _ _ _ _ _ J), (j_progress _ _ _ _ _ _ _ J).
  destruct (j_keeper _ _ _ _ _ _ _ J) as [-> ->]. destruct (hasKeeper s && syncActive (blockKeeper s)); [done|].
  cbn [default negb andb from_option]. unfold since, id. rewrite Z.sub_diag, (Z.leb_antisym lw best). destruct (lw <? best); reflexivity.
Qed.

(** A miner in a loop that is not synced does not mine. *)
Lemma unsynced_miner `{MiningSide W} (arrival : list string -> list string) (s : SyncLoop W) (m : Miner.Miner (SyncLoop W)) :
  IsSynced s = false -> Miner.m_world m = s -> Miner.hasSync m = true -> Miner.mining_decision arrival m = Val (m, false).
Proof.
  intros Hs Hw Hm. unfold Miner.mining_decision. rewrite bind_get. destruct (Miner.syncing m); [done|].
  unfold Miner.unsynced. rewrite Hm, Hw. cbn. by rewrite Hs.
Qed.

(** The keeper judges the peer that the last round has found. *)
Lemma keeper_judges s s' p i best lw arrival checkpoint : judged answer s s' p i best lw -> hasKeeper s = true -> p <> ""%string ->
  CanonicalWork (sl_world s) = Some lw ->
  checkSyncType arrival checkpoint (blockKeeper s') =
  judge (latest_height (sl_world s)) lw p (ci_height i) best (ci_tipHash i) (ci_genesisHash i) (blockKeeper s').
Proof.
  intros J Hk Hp Hw. unfold checkSyncType. rewrite !see_bind. unfold latest_height, bind at 1, getPeerSyncInfo. rewrite bind_get.
  rewrite (j_info _ _ _ _ _ _ _ J Hk Hp). cbn [si_updatedAt si_peerID si_info ret]. unfold since. rewrite Z.sub_diag.
  cbn [ci_height ci_work ci_tipHash ci_genesisHash default from_option]. unfold sl_world in *.
  pose proof (j_tip _ _ _ _ _ _ _ J) as Et. pose proof (j_work _ _ _ _ _ _ _ J) as Ew. unfold sl_world in Et, Ew. rewrite Et, Ew, Hw. done.
Qed.

Lemma judge_lower (k : Keeper W) id bh lw h w tip gen : lw < w -> h < bh ->
  judge bh lw id h w tip gen k = Val (k, (syncTypeNone, None)).
Proof.
  intros Hw Hh. unfold judge. rewrite bind_get. case_match; [done|].
  destruct (Z.eqb_spec h bh); [lia|]. cbn [andb]. destruct (Z.ltb_spec lw w); [|lia]. by destruct (Z.ltb_spec bh h); [lia|].
Qed.

(** A round without a credible answer changes nothing but the time. *)
Lemma round_silent s : bestByWork (scanned answer s) = None -> (exists p i, p ∈ active s /\ answer p = Some i) ->
  exists s', updateSyncProgressFromPeers s = Val (s', tt) /\ same_chain s s'.
Proof.
  intros Eb (p & i & Hin & Ha). unfold updateSyncProgressFromPeers. rewrite look_bind.
  destruct (GetActivePeers (sl_world s)) as [|q qs] eqn:Ep; [unfold active in Hin; rewrite Ep in Hin; by apply not_elem_of_nil in Hin|].
  rewrite look_bind, <- Ep.
  destruct (scan_run answer (GetActivePeers (sl_world s)) (mkScan 0 None 0) s) as (s1 & E1 & V).
  rewrite (bind_run _ _ _ _ _ E1). change (GetActivePeers (sl_world s)) with (active s). fold (scanned answer s).
  pose proof (found_all answer (active s)) as [[_ C] _ _ _]. fold (scanned answer s) in C.
  assert (Hr : (responsivePeers (scanned answer s) =? 0) = false) by (apply Z.eqb_neq; intros Z0; rewrite (proj1 C Z0 p Hin) in Ha; done).
  rewrite Hr, Eb. by exists s1.
Qed.

Lemma same_scan s s' : active s' = active s -> scanned answer s' = scanned answer s.
Proof. intros E. unfold scanned. by rewrite E. Qed.
End consequences.

(** ** Halving *)
Section ancestor.
Context {W : Type} `{Surroundings W} `{SyncPeers W} (peer : string) (mine theirs : Z -> Block) (top : Z) (I : W -> Prop).
Hypothesis Hmine : forall w h, I w -> 0 <= h <= top -> BlockByHeight h w = Some (mine h).
Hypothesis Htheirs : forall w h, I w -> 0 <= h <= top -> exists w', fetchBlock peer h w = Val (w', Ok (theirs h)) /\ I w'.
Hypothesis Htop : top <= max_u64.

Definition agree (h : Z) : Prop := b_Hash (mine h) = b_Hash (theirs h).
Hypothesis Hlinked : forall h, 0 < h <= top -> agree h -> agree (h - 1).

Lemma agree_below (n : nat) h : 0 <= h - Z.of_nat n -> h <= top -> agree h -> agree (h - Z.of_nat n).
Proof.
  induction n as [|n IH]; intros Hl Hh Ha; [by rewrite Z.sub_0_r|].
  replace (h - Z.of_nat (Datatypes.S n)) with (h - Z.of_nat n - 1) by lia. apply Hlinked; [lia|]. apply IH; [lia..|done].
Qed.

Lemma search_run (fuel : nat) low high s : I (sl_world s) -> 0 <= low <= high -> high <= top -> agree low ->
  (forall h, high < h <= top -> ~ agree h) -> high - low < 2 ^ (Z.of_nat fuel - 1) -> (0 < fuel)%nat ->
  exists s' a, ancestor_search fuel peer low high s = Val (s', a) /\ I (sl_world s') /\ low <= a <= high /\ agree a /\
    (forall h, a < h <= top -> ~ agree h).
Proof.
  revert low high s. induction fuel as [|fuel IH]; intros low high s HI Hl Hh Ha Hn Hf Hpos; [lia|]. cbn [ancestor_search].
  destruct (Z.ltb_spec low high); cbn [negb].
  2:{ exists s, low. replace high with low in * by lia. split_and!; done || lia. }
  pose proof (Z.div_mod (high - low) 2 ltac:(lia)) as D. pose proof (Z.mod_pos_bound (high - low) 2 ltac:(lia)) as D2.
  assert (Emid : (low + (high - low) / 2 + 1)%u64 = low + (high - low) / 2 + 1).
  { rewrite sub64_small by (unfold_u64; lia). unfold div64. rewrite (add64_small low), add64_small by (unfold_u64; lia). done. }
  rewrite Emid. set (mid := low + (high - low) / 2 + 1).
  assert (Hmid : low < mid <= high) by (unfold mid; lia).
  assert (Hfuel : (0 < fuel)%nat).
  { destruct fuel; [|lia]. cbn in Hf. lia. }
  assert (Hpow : 2 ^ (Z.of_nat (Datatypes.S fuel) - 1) = 2 * 2 ^ (Z.of_nat fuel - 1)).
  { rewrite <- Z.pow_succ_r by lia. f_equal. lia. }
  rewrite look_bind, (Hmine _ mid HI) by lia.
  destruct (Htheirs (sl_world s) mid HI ltac:(lia)) as (w' & E & HI').
  assert (Eask : ask (fetchBlock peer mid) s = Val (set_keeper (set_world w' (blockKeeper s)) s, Ok (theirs mid))).
  { unfold ask, in_keeper. unfold sl_world in E. by rewrite (out_run _ _ _ _ E). }
  rewrite (bind_run _ _ _ _ _ Eask). set (s1 := set_keeper (set_world w' (blockKeeper s)) s). case_bool_decide as Hag.
  - edestruct (IH mid high s1) as (s' & a & Er & ? & ? & ? & ?); [exact HI'|lia|done|exact Hag|exact Hn|rewrite Hpow in Hf; unfold mid; lia|done|].
    exists s', a. split_and!; done || lia.
  - assert (Hn' : forall h, mid - 1 < h <= top -> ~ agree h).
    { intros h Hh' Hag'. apply Hag. pose proof (agree_below (Z.to_nat (h - mid)) h) as B. rewrite Z2Nat.id in B by lia.
      replace (h - (h - mid)) with mid in B by lia. apply B; [lia|lia|done]. }
    edestruct (IH low (mid - 1) s1) as (s' & a & Er & ? & ? & ? & ?); [exact HI'|lia|lia|exact Ha|exact Hn'|rewrite Hpow in Hf; unfold mid; lia|done|].
    exists s', a. split_and!; done || lia.
Qed.
End ancestor.

(** * Theorems *)

(** C26. A round of the monitor with at least one credible answer says exactly whether some peer
    is heavier: right after it the node counts as synced if and only if no credible answer has
    more work and the keeper is idle; the event completes the synchronisation in that case and
    otherwise reports a fork with the heaviest credible peer. *)
Theorem sync_status_judges {W : Type} `{Surroundings W} `{SyncPeers W} (answer : string -> option ChainInfo)
  `{!Answering W answer} (s : SyncLoop W) (localWork : Z)
  (Hlocal : CanonicalWork (sl_world s) = Some localWork)
  (Hcredible : exists p i w, p ∈ active s /\ answer p = Some i /\ credible i w) :
  exists s' e, updateSyncProgressFromPeers s = Val (s', tt) /\
    (IsSynced s' = true <-> lightest answer s localWork /\ hasKeeper s && syncActive (blockKeeper s) = false) /\
    (Miner.ev_SyncCompleted e = true <-> lightest answer s localWork) /\
    Miner.ev_ForkDetected e = negb (Miner.ev_SyncCompleted e) /\
    (Miner.ev_ForkDetected e = true -> exists p i w, Miner.ev_HeavierPeerID e = p /\ Miner.ev_HeavierPeerWork e = Some w /\
      p ∈ active s /\ answer p = Some i /\ credible i w /\ localWork < w /\ lightest answer s w) /\
    (len (syncStatusCh s) < syncStatusChBufferSize -> syncStatusCh s' = syncStatusCh s ++ [e]).
Proof.
  destruct Hcredible as (p0 & i0 & w0 & Hin0 & Ha0 & Hc0).
  destruct (best_exists answer s p0 i0 w0 Hin0 Ha0 Hc0) as (p & i & best & Eb & _ & Hin & Ha & Hc).
  destruct (round_found answer s p i best localWork Eb Hlocal) as (s' & E & J).
  pose proof (best_lightest answer s p i best localWork Eb) as Hl.
  exists s', (status_event answer s p best localWork (clock (sl_world s'))). split; [exact E|].
  split; [|split; [|split; [|split]]].
  - rewrite (judged_synced answer s s' p i best localWork J), andb_true_iff, negb_true_iff, Z.leb_le, Hl. tauto.
  - rewrite <- Hl. unfold status_event. destruct (Z.ltb_spec localWork best); cbn; split; done || lia.
  - unfold status_event. by destruct (localWork <? best).
  - unfold status_event. destruct (Z.ltb_spec localWork best); cbn; [|done]. intros _.
    exists p, i, best. repeat (split; [done|]). by apply (best_lightest answer s p i best best Eb).
  - intros Hroom. rewrite (j_events _ _ _ _ _ _ _ J). by rewrite (proj2 (Z.ltb_lt _ _) Hroom).
Qed.

(** C25. A heavier peer decides for the miner and for the keeper together.  After the round that
    finds it, the heaviest of the credible peers, the miner declines to mine.  When the peer is higher than the chain and of
    the same genesis block, the keeper chooses that very peer, and if it serves a chain, the
    synchronisation brings the chain to its height.  When it is not higher, whatever its tip, the keeper
    downloads nothing: the synchronisation ends without success and with the tip it began with.
    Conditions: asking a peer changes neither the chain nor the connections, a heavier peer is
    connected, with a height, and answers the keeper what it answered the loop; and the keeper is
    not just giving up a synchronisation that is stuck. *)
Theorem heavier_peer_decides {W : Type} `{Surroundings W} `{SyncPeers W} `{MiningSide W} (answer : string -> option ChainInfo)
  `{!Answering W answer} (s : SyncLoop W) (localWork : Z) (arrival : list string -> list string) (checkpoint : option Z)
  (Hlocal : CanonicalWork (sl_world s) = Some localWork) (Hkeeper : hasKeeper s = true)
  (Hnames : forall p, p ∈ active s -> p <> ""%string)
  (Hheavier : exists p i w, p ∈ active s /\ answer p = Some i /\ credible i w /\ localWork < w)
  (Hkept : forall peer id q, keeps (fun w => PeerByID id w = q) (FetchChainInfo peer))
  (Hlive : forall p i w, p ∈ active s -> answer p = Some i -> credible i w -> localWork < w ->
    exists q, PeerByID p (sl_world s) = Some q /\ p_ID q = p /\ 0 < p_Height q /\ p_simple q = false)
  (Hsame : forall p i, answer p = Some i ->
    forall w, exists w', GetPeerChainInfo p w = Val (w', Ok i) /\ LatestBlock w' = LatestBlock w) :
  exists s' p i w q, updateSyncProgressFromPeers s = Val (s', tt) /\
    p ∈ active s /\ answer p = Some i /\ credible i w /\ localWork < w /\
    (forall p' i' w', p' ∈ active s -> answer p' = Some i' -> credible i' w' -> w' <= w) /\
    PeerByID p (sl_world s) = Some q /\ p_ID q = p /\
    (forall m, Miner.m_world m = s' -> Miner.hasSync m = true -> Miner.mining_decision arrival m = Val (m, false)) /\
    (latest_height (sl_world s) < ci_height i ->
     (ci_genesisHash i = ""%string \/
      forall g, BlockByHeight 0 (sl_world s) = Some g -> ci_genesisHash i = hex_encode (b_Hash g)) ->
     checkSyncType arrival checkpoint (blockKeeper s') = Val (blockKeeper s', (syncTypeRegular, Some q)) /\
     (forall Inv blk rounds fuel, ServesChain W Inv blk (ci_height i) p -> Inv (sl_world s') ->
      checkStuckEscape (blockKeeper s') = Val (blockKeeper s', false) ->
      0 <= latest_height (sl_world s) -> ci_height i + MaxSyncRange < 2 ^ 64 ->
      ci_height i - latest_height (sl_world s) < Z.of_nat rounds -> MaxSyncRange < Z.of_nat fuel ->
      exists k', startSync rounds fuel arrival checkpoint (blockKeeper s') = Val (k', true) /\
        Inv (bk_world k') /\ latest_height (bk_world k') = ci_height i)) /\
    (ci_height i <= latest_height (sl_world s) -> checkStuckEscape (blockKeeper s') = Val (blockKeeper s', false) ->
     forall rounds fuel, exists k', startSync rounds fuel arrival checkpoint (blockKeeper s') = Val (k', false) /\
       LatestBlock (bk_world k') = LatestBlock (sl_world s)).
Proof.
  destruct Hheavier as (p0 & i0 & w0 & Hin0 & Ha0 & Hc0 & Hw0).
  destruct (best_exists answer s p0 i0 w0 Hin0 Ha0 Hc0) as (p & i & best & Eb & Hle & Hin & Ha & Hc).
  assert (Hw : localWork < best) by lia. clear p0 i0 w0 Hin0 Ha0 Hc0 Hw0 Hle.
  destruct (round_found answer s p i best localWork Eb Hlocal) as (s' & E & J).
  destruct (Hlive p i best Hin Ha Hc Hw) as (q & Eq & Hid & Hpos & Hreal).
  assert (Eq' : PeerByID p (sl_world s') = Some q)
    by exact (round_keeps (fun w => PeerByID p w = Some q) (fun peer => Hkept peer p (Some q)) s s' tt Eq E).
  pose proof (keeper_judges answer s s' p i best localWork arrival checkpoint J Hkeeper (Hnames p Hin) Hlocal) as Ej.
  pose proof (j_tip _ _ _ _ _ _ _ J) as Et.
  assert (El : latest_height (bk_world (blockKeeper s')) = latest_height (sl_world s))
    by (unfold latest_height; by rewrite <- Et).
  exists s', p, i, best, q. do 5 (split; [done|]). split.
  { intros p' i' w' H1' H2' H3'. by apply (proj1 (best_lightest answer s p i best best Eb) (Z.le_refl _) p' i' w'). }
  do 2 (split; [done|]). split.
  { intros m. apply unsynced_miner. rewrite (judged_synced answer s s' p i best localWork J).
    by rewrite (proj2 (Z.leb_gt _ _)), andb_false_r by lia. }
  split.
  - intros Hlt Hg.
    assert (Ec : checkSyncType arrival checkpoint (blockKeeper s') = Val (blockKeeper s', (syncTypeRegular, Some q))).
    { rewrite Ej. apply judge_live; try done; [lia|]. destruct Hg as [?|Hg]; [by left|right].
      intros g Eg. apply Hg. rewrite <- Eg. symmetry. exact (j_blocks _ _ _ _ _ _ _ J 0). }
    split; [exact Ec|]. intros Inv blk rounds fuel HS Hi Hesc Hnn Hmax Hr Hf.
    rewrite (startSync_regular _ _ _ _ q) by done. subst p. apply (dispatch_served Inv blk); try done; rewrite El; lia.
  - intros Hge Hesc rounds fuel. assert (Hh : 0 < ci_height i) by apply Hc.
    destruct (Z.eq_dec (ci_height i) (latest_height (sl_world s))) as [He|Hne].
    + destruct (judge_live (blockKeeper s') p (latest_height (sl_world s)) localWork (ci_height i) best (ci_tipHash i)
        (ci_genesisHash i) q Eq' Hpos Hw (Z.eq_le_incl _ _ (eq_sym He))) as [[Ec|Ec] _]; rewrite <- Ej in Ec.
      * exists (blockKeeper s'). split; [by apply startSync_none|exact Et].
      * rewrite (startSync_regular _ _ _ _ q) by done.
        destruct (dispatch_not_higher q i rounds fuel (blockKeeper s')) as (k' & Ek & Lk); [done| |rewrite El; lia|].
        { intros w. rewrite Hid. by apply Hsame. }
        exists k'. split; [exact Ek|]. by rewrite Lk.
    + exists (blockKeeper s'). split; [|exact Et]. apply startSync_none; [done|]. rewrite Ej. apply judge_lower; lia.
Qed.

(** The peers that are too low are never followed and stop the miner as long as they answer. *)
Theorem lower_heavier_peer_stalls {W : Type} `{Surroundings W} `{SyncPeers W} `{MiningSide W} (answer : string -> option ChainInfo)
  `{!Answering W answer} (n : nat) (s : SyncLoop W) (localWork : Z) (arrival : list string -> list string) (checkpoint : option Z)
  (Hlocal : CanonicalWork (sl_world s) = Some localWork) (Hkeeper : hasKeeper s = true)
  (Hnames : forall p, p ∈ active s -> p <> ""%string)
  (Hheavier : exists p i w, p ∈ active s /\ answer p = Some i /\ credible i w /\ localWork < w)
  (Hlower : forall p i w, p ∈ active s -> answer p = Some i -> credible i w -> localWork < w ->
    ci_height i < latest_height (sl_world s)) :
  exists s', monitor (Datatypes.S n) s = Val (s', tt) /\
    (forall m, Miner.m_world m = s' -> Miner.hasSync m = true -> Miner.mining_decision arrival m = Val (m, false)) /\
    checkSyncType arrival checkpoint (blockKeeper s') = Val (blockKeeper s', (syncTypeNone, None)).
Proof.
  destruct Hheavier as (p0 & i0 & w0 & Hin0 & Ha0 & Hc0 & Hw0).
  destruct (best_exists answer s p0 i0 w0 Hin0 Ha0 Hc0) as (p & i & best & Eb & Hle & Hin & Ha & Hc).
  assert (Hlt : localWork < best) by lia. specialize (Hlower p i best Hin Ha Hc Hlt). specialize (Hnames p Hin).
  clear p0 i0 w0 Hin0 Ha0 Hc0 Hw0 Hle Hin Ha Hc. revert s Hlocal Hkeeper Hlower Eb. induction n as [|n IH]; intros s Hlocal Hkeeper Hlower Eb.
  - destruct (round_found answer s p i best localWork Eb Hlocal) as (s' & E & J). exists s'. split; [|split].
    + cbn [monitor]. by rewrite (bind_run _ _ _ _ _ E).
    + intros m. apply unsynced_miner. rewrite (judged_synced answer s s' p i best localWork J).
      by rewrite (proj2 (Z.leb_gt _ _)), andb_false_r by lia.
    + rewrite (keeper_judges answer s s' p i best localWork) by auto. by apply judge_lower.
  - destruct (round_found answer s p i best localWork Eb Hlocal) as (s1 & E & J). pose proof (j_tip _ _ _ _ _ _ _ J) as Et.
    destruct (IH s1) as (s' & Er & Hm & Hk).
    + by rewrite (j_work _ _ _ _ _ _ _ J).
    + by rewrite (proj1 (j_keeper _ _ _ _ _ _ _ J)).
    + unfold latest_height in *. by rewrite Et.
    + by rewrite (same_scan answer s s1 (j_active _ _ _ _ _ _ _ J)).
    + exists s'. split; [|done]. change (monitor (Datatypes.S (Datatypes.S n)))
        with (updateSyncProgressFromPeers ;;* monitor (W := W) (Datatypes.S n)). by rewrite (bind_run _ _ _ _ _ E).
Qed.

(** A chain whose blocks have more than 2^24 difficulty on average, an honest one as well, is
    never credible: when all peers have it the monitor learns nothing, however long it runs,
    and thirty seconds after its last news the miner stops. *)
Theorem heavy_chain_stalls {W : Type} `{Surroundings W} `{SyncPeers W} `{MiningSide W} (answer : string -> option ChainInfo)
  `{!Answering W answer} (n : nat) (s : SyncLoop W) (arrival : list string -> list string)
  (Hpeer : exists p i, p ∈ active s /\ answer p = Some i)
  (Hheavy : forall p i w, p ∈ active s -> answer p = Some i -> ci_work i = Some w -> maxWorkPerBlock * i64 (ci_height i) < w) :
  exists s', monitor n s = Val (s', tt) /\ syncProgress s' = syncProgress s /\ lastUpdateTime s' = lastUpdateTime s /\
    syncStatusCh s' = syncStatusCh s /\
    (maxStaleDuration < since (clock (sl_world s')) (default zero_time (lastUpdateTime s)) ->
     forall m, Miner.m_world m = s' -> Miner.hasSync m = true -> Miner.mining_decision arrival m = Val (m, false)).
Proof.
  assert (Eb : bestByWork (scanned answer s) = None).
  { pose proof (found_all answer (active s)) as [_ B _ _]. fold (scanned answer s) in B.
    destruct (bestByWork (scanned answer s)) as [[[p i] w]|]; [|done]. destruct B as (Hin & Ha & Hw & _ & Hb).
    specialize (Hheavy p i w Hin Ha Hw). lia. }
  assert (G : exists s', monitor n s = Val (s', tt) /\ same_chain s s').
  { clear Hheavy. revert s Hpeer Eb. induction n as [|n IH]; intros s Hpeer Eb; [exists s; split; [done|apply same_chain_refl]|].
    destruct (round_silent answer s Eb Hpeer) as (s1 & E & V1).
    assert (Ea : active s1 = active s) by (destruct V1 as (w1 & -> & _ & _ & Va & _); exact Va).
    destruct (IH s1) as (s2 & E2 & V2); [by rewrite Ea|by rewrite (same_scan answer s s1 Ea)|].
    exists s2. split; [|by eapply same_chain_trans]. cbn [monitor]. by rewrite (bind_run _ _ _ _ _ E). }
  destruct G as (s' & E & V). exists s'. split; [exact E|]. destruct V as (w' & -> & _). repeat (split; [done|]).
  intros Hstale m. apply unsynced_miner. unfold IsSynced. cbn [lastUpdateTime set_keeper]. rewrite (proj2 (Z.ltb_lt _ _) Hstale).
  by destruct (hasKeeper _ && _).
Qed.

(** The search for a common ancestor ends within its 65 rounds at the highest block, not above
    either end, that both chains have, when the peer serves its blocks and each chain's blocks
    name their parents. *)
Theorem common_ancestor_found {W : Type} `{Surroundings W} `{SyncPeers W} (peer : string) (mine theirs : Z -> Block)
  (I : W -> Prop) (localHeight targetHeight : Z) (s : SyncLoop W)
  (Hmine : forall w h, I w -> 0 <= h <= localHeight -> BlockByHeight h w = Some (mine h))
  (Htheirs : forall w h, I w -> 0 <= h <= targetHeight -> exists w', fetchBlock peer h w = Val (w', Ok (theirs h)) /\ I w')
  (Hlinked : forall h, 0 < h <= Z.min localHeight targetHeight -> agree mine theirs h -> agree mine theirs (h - 1))
  (Hgenesis : agree mine theirs 0)
  (Hlocal : 0 <= localHeight <= max_u64) (Htarget : 0 <= targetHeight <= max_u64) (Hstart : I (sl_world s)) :
  exists s' a, findCommonAncestorBinary peer localHeight targetHeight s = Val (s', a) /\
    0 <= a <= Z.min localHeight targetHeight /\ agree mine theirs a /\
    forall h, a < h <= Z.min localHeight targetHeight -> ~ agree mine theirs h.
Proof.
  unfold findCommonAncestorBinary.
  destruct (Z.eqb_spec localHeight 0) as [->|]; [exists s, 0; split; [done|]; split_and!; [lia..|done|lia]|].
  destruct (Z.eqb_spec targetHeight 0) as [->|]; [exists s, 0; split; [done|]; split_and!; [lia..|done|lia]|]. cbn [orb].
  replace (if targetHeight <? localHeight then targetHeight else localHeight) with (Z.min localHeight targetHeight)
    by (destruct (Z.ltb_spec targetHeight localHeight); lia).
  set (top := Z.min localHeight targetHeight) in *.
  destruct (search_run peer mine theirs top I) with (fuel := 65%nat) (low := 0) (high := top) (s := s)
    as (s' & a & E & _ & ? & ? & ?); try done.
  - intros w h Hw Hh. apply Hmine; [done|lia].
  - intros w h Hw Hh. apply Htheirs; [done|lia].
  - lia.
  - lia.
  - intros h Hh. lia.
  - unfold max_u64 in *. change (2 ^ (Z.of_nat 65 - 1)) with 18446744073709551616. lia.
  - lia.
  - by exists s', a.
Qed.

(** A peer that fails to serve a block counts as one that has another: the search then ends
    lower, at the genesis block when nothing is served. *)
Theorem silence_is_disagreement {W : Type} `{Surroundings W} `{SyncPeers W} (peer : string) (localHeight targetHeight : Z)
  (s : SyncLoop W) (Hlocal : 0 <= localHeight <= max_u64) (Htarget : 0 <= targetHeight <= max_u64)
  (Hsilent : forall h w, exists w' e, fetchBlock peer h w = Val (w', Err e)) :
  exists s', findCommonAncestorBinary peer localHeight targetHeight s = Val (s', 0).
Proof.
  unfold findCommonAncestorBinary. destruct ((localHeight =? 0) || (targetHeight =? 0)); [by exists s|].
  set (high := if targetHeight <? localHeight then targetHeight else localHeight).
  assert (Hh : 0 <= high < 2 ^ (Z.of_nat 65 - 1)).
  { unfold max_u64 in *. change (2 ^ (Z.of_nat 65 - 1)) with 18446744073709551616. unfold high. destruct (targetHeight <? localHeight); lia. }
  assert (Hu : high <= max_u64) by (unfold high; destruct (targetHeight <? localHeight); lia).
  assert (Hpos : (0 < 65)%nat) by lia. revert Hh Hu Hpos. generalize 65%nat high. clear high. intros fuel. revert s.
  induction fuel as [|fuel IH]; intros s high Hh Hu Hpos; [lia|]. cbn [ancestor_search].
  destruct (Z.ltb_spec 0 high); cbn [negb]; [|by exists s].
  pose proof (Z.div_mod (high - 0) 2 ltac:(lia)) as D. pose proof (Z.mod_pos_bound (high - 0) 2 ltac:(lia)) as D2.
  assert (Emid : (0 + (high - 0) / 2 + 1)%u64 = 0 + (high - 0) / 2 + 1).
  { rewrite sub64_small by (unfold_u64; lia). unfold div64. rewrite (add64_small 0), add64_small by (unfold_u64; lia). done. }
  rewrite Emid. set (mid := 0 + (high - 0) / 2 + 1).
  assert (Hfuel : (0 < fuel)%nat) by (destruct fuel; [cbn in Hh; lia|lia]).
  assert (Hpow : 2 ^ (Z.of_nat (Datatypes.S fuel) - 1) = 2 * 2 ^ (Z.of_nat fuel - 1)) by (rewrite <- Z.pow_succ_r by lia; f_equal; lia).
  rewrite look_bind.
  assert (G : forall s1, exists s', ancestor_search fuel peer 0 (mid - 1) s1 = Val (s', 0)).
  { intros s1. apply IH; [rewrite Hpow in Hh; unfold mid; lia|unfold mid; lia|done]. }
  destruct (BlockByHeight mid (sl_world s)); [|apply G]. destruct (Hsilent mid (sl_world s)) as (w' & e & E).
  assert (Eask : ask (fetchBlock peer mid) s = Val (set_keeper (set_world w' (blockKeeper s)) s, Err e)).
  { unfold ask, in_keeper. unfold sl_world in E. by rewrite (out_run _ _ _ _ E). }
  rewrite (bind_run _ _ _ _ _ Eask). apply G.
Qed.

(** Stopping twice closes a closed channel. *)
Theorem second_stop_panics {W : Type} `{Surroundings W} `{SyncPeers W} (s : SyncLoop W) (Hkeeper : hasKeeper s = true) :
  (Stop ;;* Stop) s = Halt (Panic "close of closed channel").
Proof.
  destruct s as [k hk st sp pr lt sr rp ch sn]. cbn in Hkeeper. subst hk. by destruct sp.
Qed.

(** * Samples *)

(** A chain of five blocks on the genesis block and peers with given answers; every question
    takes twenty seconds.  The peers serve the same blocks up to height 3. *)
Definition tagged (tag h : Z) : Block := mkBlock [tag; h] h (b_Header rooted_block) [] None miner_addr "".
Definition own_block (h : Z) : Block := tagged 1 h.
Definition peer_block (h : Z) : Block := tagged (if h <=? 3 then 1 else 2) h.

#[local] Instance timed_chain : Surroundings Z := {
  clock w := w;
  LatestBlock _ := own_block 5;
  CanonicalWork _ := Some 500;
  BlockByHeight h _ := Some (own_block h);
  BlockByHash _ _ := None;
  GetHeaderByHeight h _ := Ok (header_of (own_block h));
  BestBlockHeader _ := Ok (header_of (own_block 5));
  GetBlocksFrom _ _ _ := [];
  LatestCheckpoint _ := Err "no checkpoint";
  GetCheckpointByHeight _ _ := None;
  chain_AddBlock _ w := Val (w, Ok true);
  GetAllPeerIDs _ := [];
  PeerByID _ _ := None;
  bestPeer _ := None;
  GetPeerChainInfo _ w := Val (w, Err "no answer");
  ProcessIllegal _ w := Val (w, tt);
  DecSyncLoad _ w := Val (w, tt);
  SendInvToPeer _ _ w := Val (w, true);
  broadcastMinedBlock _ w := Val (w, tt);
  broadcastNewStatus _ _ w := Val (w, tt);
  fetchBlock _ h w := Val (w + 20 * second, Ok (peer_block h));
  fetchBlocksBatch _ _ _ w := Val (w, Err "no answer") }.

Definition table_peers (answer : string -> option ChainInfo) : SyncPeers Z := {|
  GetActivePeers _ := ["alice"; "bob"]%string;
  FetchChainInfo peer w := Val (w + 20 * second, Ok (answer peer));
  miner_OnChainReorganized _ w := Val (w, tt) |}.

Lemma table_answers (answer : string -> option ChainInfo) : @Answering Z timed_chain (table_peers answer) answer.
Proof.
  split. intros peer w. exists (w + 20 * second), (Ok (answer peer)). cbn. split; [done|].
  split; [by destruct (answer peer); [|left]|]. split_and!; try done. unfold second. lia.
Qed.

#[local] Instance no_mempool : MiningSide Z := {
  side_ctxDone _ := false;
  side_SelectTxs _ w := Val (w, Ok ([], []));
  side_MineTransfers _ w := Val (w, (None, None));
  side_RemoveMany _ w := Val (w, tt);
  side_Publish _ w := Val (w, tt);
  side_BroadcastBlock _ w := Val (w, None) }.

Definition alice_only (i : ChainInfo) (peer : string) : option ChainInfo := if String.eqb peer "alice" then Some i else None.

Definition idle_loop : SyncLoop Z := NewSyncLoop (keeper_of (1000 * second) []) true.

Lemma alice_in (answer : string -> option ChainInfo) : "alice"%string ∈ @active Z (table_peers answer) idle_loop.
Proof. apply elem_of_cons. by left. Qed.

Definition higher_info : ChainInfo := mkInfo 8 (Some 900) "aa" "".

Lemma higher_credible : credible higher_info 900.
Proof. split; [done|]. vm_compute. split; [done|]. split; discriminate. Qed.

Lemma alice_answers (i j : ChainInfo) (p : string) : alice_only i p = Some j -> j = i.
Proof. unfold alice_only. destruct (String.eqb p "alice"); [by intros [= <-]|done]. Qed.

Lemma names_given (answer : string -> option ChainInfo) p : p ∈ @active Z (table_peers answer) idle_loop -> p <> ""%string.
Proof. cbn. rewrite !elem_of_cons. intros [->|[->|Hp]]; [done..|by apply not_elem_of_nil in Hp]. Qed.

Lemma sync_status_judges_witness :
  let t := alice_only higher_info in let P := table_peers t in
  exists s' e, updateSyncProgressFromPeers idle_loop = Val (s', tt) /\
    (IsSynced s' = true <-> lightest t idle_loop 500 /\ hasKeeper idle_loop && syncActive (blockKeeper idle_loop) = false) /\
    syncStatusCh s' = [e].
Proof.
  intros t P.
  destruct (@sync_status_judges Z timed_chain P t (table_answers t) idle_loop 500 eq_refl) as (s' & e & E & Hs & _ & _ & _ & Hc).
  - exists "alice"%string, higher_info, 900. split; [apply alice_in|]. split; [done|apply higher_credible].
  - exists s', e. split; [exact E|]. split; [exact Hs|]. apply Hc. vm_compute. reflexivity.
Defined.

(** The sample chain, whose peer is one block ahead with more work and serves its blocks. *)
Definition ahead : ChainInfo := mkInfo 2 (Some 300) "" "".
Definition ahead_peers : SyncPeers (Chain unit) := {|
  GetActivePeers _ := ["peer"]%string;
  FetchChainInfo _ c := Val (c, Ok (Some ahead));
  miner_OnChainReorganized _ c := Val (c, tt) |}.
Definition plain_mining : MiningSide (Chain unit) := {|
  side_ctxDone _ := false;
  side_SelectTxs _ c := Val (c, Ok ([], []));
  side_MineTransfers _ c := Val (c, (None, None));
  side_RemoveMany _ c := Val (c, tt);
  side_Publish _ c := Val (c, tt);
  side_BroadcastBlock _ c := Val (c, None) |}.
Definition plain_loop : SyncLoop (Chain unit) := NewSyncLoop (keeper_of plain []) true.

Lemma ahead_answers : @Answering (Chain unit) sample_surroundings ahead_peers (fun _ => Some ahead).
Proof. split. intros peer w. exists w, (Ok (Some ahead)). by split_and!. Qed.

Lemma heavier_peer_decides_witness :
  let S := sample_surroundings in let P := ahead_peers in
  exists s', updateSyncProgressFromPeers plain_loop = Val (s', tt) /\
    (forall m, Miner.m_world m = s' -> Miner.hasSync m = true ->
      @Miner.mining_decision _ (@loop_world _ S P plain_mining) (fun l => l) m = Val (m, false)) /\
    exists k', startSync 2 1001 (fun l => l) None (blockKeeper s') = Val (k', true) /\ latest_height (bk_world k') = 2.
Proof.
  intros S P.
  destruct (@heavier_peer_decides (Chain unit) S P plain_mining (fun _ => Some ahead) ahead_answers plain_loop 200 (fun l => l) None)
    as (s' & p & i & w & q & E & Hin & Ha & _ & _ & _ & Eq & Hid & Hm & Hhigh & _).
  - vm_compute. reflexivity.
  - reflexivity.
  - intros p Hp. apply list_elem_of_singleton in Hp. by subst.
  - exists "peer"%string, ahead, 300. split; [apply list_elem_of_here|]. split; [done|]. split; [|lia].
    split; [done|]. vm_compute. split; [done|]. split; discriminate.
  - intros peer id q w w' a Hw Ew. by injection Ew as <- <-.
  - intros p i w Hp _ _ _. by exists (mkPeer p 2 false).
  - intros p i Ha w. injection Ha as <-. by exists w.
  - injection Ha as <-. apply list_elem_of_singleton in Hin. subst p.
    exists s'. split; [exact E|]. split; [exact Hm|].
    assert (Ew : s' = match updateSyncProgressFromPeers plain_loop with Val (s', _) => s' | Halt _ => plain_loop end) by (by rewrite E).
    destruct Hhigh as [_ Hrun]; [vm_compute; reflexivity|by left|].
    destruct (Hrun sample_inv served_block 2%nat 1001%nat sample_serves) as (k' & Ek & _ & Hk); [..|by exists k'].
    all: try (rewrite Ew; vm_compute; by left). all: try (rewrite Ew; vm_compute; reflexivity).
    all: try (vm_compute; reflexivity). vm_compute. discriminate.
Defined.

(** Higher by one block's work and lower by one block. *)
Definition lower_info : ChainInfo := mkInfo 4 (Some 501) "aa" "".

Lemma lower_heavier_peer_stalls_witness :
  let t := alice_only lower_info in let P := table_peers t in
  exists s', monitor 100 idle_loop = Val (s', tt) /\
    (forall m, Miner.m_world m = s' -> Miner.hasSync m = true -> Miner.mining_decision (fun l => l) m = Val (m, false)) /\
    checkSyncType (fun l => l) None (blockKeeper s') = Val (blockKeeper s', (syncTypeNone, None)).
Proof.
  intros t P.
  refine (@lower_heavier_peer_stalls Z timed_chain P no_mempool t (table_answers t) 99 idle_loop 500 (fun l => l) None eq_refl eq_refl
    (names_given t) _ _).
  - exists "alice"%string, lower_info, 501. split; [apply alice_in|]. split; [done|]. split; [|lia].
    split; [done|]. vm_compute. split; [done|]. split; discriminate.
  - intros p i w _ Ha _ _. apply alice_answers in Ha. subst. vm_compute. reflexivity.
Defined.

(** Ten blocks of difficulty 2^25. *)
Definition hard_info : ChainInfo := mkInfo 10 (Some (10 * 2 ^ 25)) "aa" "".

Lemma heavy_chain_stalls_witness :
  let t := alice_only hard_info in let P := table_peers t in
  exists s', monitor 1 (set_status 1000 (Some (1000 * second)) idle_loop) = Val (s', tt) /\ syncProgress s' = 1000 /\
    (forall m, Miner.m_world m = s' -> Miner.hasSync m = true -> Miner.mining_decision (fun l => l) m = Val (m, false)).
Proof.
  intros t P. set (s := set_status 1000 (Some (1000 * second)) idle_loop).
  destruct (@heavy_chain_stalls Z timed_chain P no_mempool t (table_answers t) 1 s (fun l => l)) as (s' & E & Hp & _ & _ & Hm).
  - exists "alice"%string, hard_info. split; [exact (alice_in t)|done].
  - intros p i w _ Ha Hw. apply alice_answers in Ha. subst i. injection Hw as <-. vm_compute. reflexivity.
  - exists s'. split; [exact E|]. split; [exact Hp|]. apply Hm.
    assert (Es : clock (sl_world s') = 1040 * second) by (vm_compute in E; injection E as <-; reflexivity). rewrite Es. reflexivity.
Defined.

Lemma common_ancestor_found_witness :
  let P := table_peers (fun _ => None) in
  exists s' a, findCommonAncestorBinary "alice" 5 9 idle_loop = Val (s', a) /\ 0 <= a <= 5 /\
    agree own_block peer_block a /\ forall h, a < h <= 5 -> ~ agree own_block peer_block h.
Proof.
  intros P. refine (@common_ancestor_found Z timed_chain P "alice" own_block peer_block (fun _ => True) 5 9 idle_loop _ _ _ _ _ _ I).
  - done.
  - intros w h _ _. by exists (w + 20 * second).
  - intros h Hh. unfold agree, own_block, peer_block, tagged. cbn [b_Hash].
    destruct (Z.leb_spec h 3); [|done]. destruct (Z.leb_spec (h - 1) 3); [done|lia].
  - done.
  - unfold max_u64. lia.
  - unfold max_u64. lia.
Defined.
