(* ===== verification/Vm.v ===== *)
(** * The virtual machine and the light client's proofs

    [blockchain/vm/vm.go]: the stack machine, the token and the multi-signature contract; and
    the Merkle trees of [blockchain/vm/light_client.go].  The stack of the Go code holds
    values of any type; integers and booleans are the ones an instruction makes, and a type
    assertion that fails panics. *)

From S2P Require Import Prelude Bytes Sha256 Json Chain.
From stdpp Require Import base list strings numbers gmap.
From Stdlib Require Import ZArith Lia.

Open Scope Z_scope.
Open Scope go_scope.
Open Scope chain_scope.

(** ** The stack machine *)
Inductive value : Type := VInt (n : Z) | VBool (b : bool).

#[export] Instance value_eq_dec : EqDecision value.
Proof. solve_decision. Defined.

(** The top of the stack is the head of the list.  The call stack and the storage, which no
    instruction touches, are left out; so are the names and decimals of the contracts below. *)
Record VM := mkVM { vm_stack : list value; vm_pc : Z; vm_code : list Z; vm_gasLimit : Z; vm_gasUsed : Z }.

Record VMResult := mkResult { r_Success : bool; r_Data : string; r_GasUsed : Z; r_Error : string }.

Definition NewVM (code : list Z) (gasLimit : Z) : VM := mkVM [] 0 code gasLimit 0.

Definition OP_NOP : Z := 0x00.
Definition OP_PUSH1 : Z := 0x01.
Definition OP_PUSH2 : Z := 0x02.
Definition OP_DUP : Z := 0x30.
Definition OP_SWAP : Z := 0x31.
Definition OP_DROP : Z := 0x32.
Definition OP_ADD : Z := 0x40.
Definition OP_SUB : Z := 0x41.
Definition OP_MUL : Z := 0x42.
Definition OP_DIV : Z := 0x43.
Definition OP_EQUAL : Z := 0x60.
Definition OP_VERIFY : Z := 0x61.
Definition OP_RETURN : Z := 0xF0.
Definition OP_JUMP : Z := 0xE1.

(** One round of the loop goes on with a machine or ends with a result. *)
Definition outcome : Type := res (VM + VMResult).
Definition next (vm : VM) (stack : list value) (pc cost : Z) : outcome :=
  Val (inl (mkVM stack pc (vm_code vm) (vm_gasLimit vm) (i64 (vm_gasUsed vm + cost)))).
Definition stop_with (e : string) : outcome := Val (inr (mkResult false "" 0 e)).
Definition conversion_panic : outcome := Halt (Panic "interface conversion").

Definition int64_op (vm : VM) (f : Z -> Z -> Z) (cost : Z) (pc : Z) : outcome :=
  match vm_stack vm with
  | b :: a :: rest =>
      match a, b with
      | VInt x, VInt y => next vm (VInt (i64 (f x y)) :: rest) pc cost
      | _, _ => conversion_panic
      end
  | _ => stop_with "stack underflow"
  end.

(** What [Sprintf] and the two literals make of the value returned. *)
Definition return_data (stack : list value) : string :=
  match stack with
  | [] => ""
  | VInt n :: _ => if n <? 0 then "-" +:+ dec_string (- n) else dec_string n
  | VBool true :: _ => "true"
  | VBool false :: _ => "false"
  end.

(** [%x] of a byte. *)
Definition hex_byte (b : Z) : string :=
  match hex_encode [b] with
  | String a rest => if b <? 16 then rest else String a rest
  | EmptyString => EmptyString
  end.

Definition nth_byte (code : list Z) (i : Z) : Z := nth (Z.to_nat i) code 0.

Definition exec (vm : VM) (op pc : Z) : outcome :=
  let code := vm_code vm in
  let stack := vm_stack vm in
  if op =? OP_NOP then next vm stack pc 1
  else if op =? OP_PUSH1 then
    if len code <=? pc then stop_with "unexpected end of code"
    else next vm (VInt (nth_byte code pc) :: stack) (pc + 1) 3
  else if op =? OP_PUSH2 then
    if len code <=? pc + 1 then stop_with "unexpected end of code"
    else next vm (VInt (Z.lor (Z.shiftl (nth_byte code pc) 8) (nth_byte code (pc + 1))) :: stack) (pc + 2) 5
  else if op =? OP_DUP then
    match stack with [] => stop_with "stack underflow" | v :: _ => next vm (v :: stack) pc 2 end
  else if op =? OP_DROP then
    match stack with [] => stop_with "stack underflow" | _ :: rest => next vm rest pc 2 end
  else if op =? OP_SWAP then
    match stack with b :: a :: rest => next vm (a :: b :: rest) pc 3 | _ => stop_with "stack underflow" end
  else if op =? OP_ADD then int64_op vm Z.add 3 pc
  else if op =? OP_SUB then int64_op vm Z.sub 3 pc
  else if op =? OP_MUL then int64_op vm Z.mul 5 pc
  else if op =? OP_DIV then
    match stack with
    | b :: a :: _ =>
        match a, b with
        | VInt _, VInt y => if y =? 0 then stop_with "division by zero" else int64_op vm Z.quot 5 pc
        | _, _ => conversion_panic
        end
    | _ => stop_with "stack underflow"
    end
  else if op =? OP_EQUAL then
    match stack with
    | b :: a :: rest => next vm (VBool (bool_decide (a = b)) :: rest) pc 3
    | _ => stop_with "stack underflow"
    end
  else if op =? OP_VERIFY then
    match stack with
    | [] => stop_with "stack underflow"
    | VBool true :: rest => next vm rest pc 5
    | VBool false :: _ => stop_with "verify failed"
    | VInt _ :: _ => conversion_panic
    end
  else if op =? OP_RETURN then Val (inr (mkResult true (return_data stack) (vm_gasUsed vm) ""))
  else if op =? OP_JUMP then
    match stack with
    | [] => stop_with "stack underflow"
    | VInt target :: rest =>
        if (target <? 0) || (len code <=? target) then stop_with "invalid jump target"
        else next vm rest target 5
    | VBool _ :: _ => conversion_panic
    end
  else stop_with ("unknown opcode: " +:+ hex_byte op).

Definition step (vm : VM) : outcome :=
  if negb (vm_pc vm <? len (vm_code vm)) then Val (inr (mkResult true "" (vm_gasUsed vm) ""))
  else if vm_gasLimit vm <? vm_gasUsed vm then Val (inr (mkResult false "" (vm_gasUsed vm) "gas limit exceeded"))
  else exec vm (nth_byte (vm_code vm) (vm_pc vm)) (vm_pc vm + 1).

Fixpoint run (fuel : nat) (vm : VM) : res VMResult :=
  match fuel with
  | O => Halt Diverge
  | S fuel' =>
      match step vm with
      | Val (inl vm') => run fuel' vm'
      | Val (inr r) => Val r
      | Halt h => Halt h
      end
  end.

(** [Run]: every round uses gas, so the limit bounds the rounds. *)
Definition Run (vm : VM) : res VMResult := run (Z.to_nat (Z.max 0 (vm_gasLimit vm) + 2)) vm.

(** [Deploy] and [Call] are the same: the method and its parameters are not looked at. *)
Definition Deploy (code : list Z) (gasLimit : Z) : res VMResult := Run (NewVM code gasLimit).
Definition Call (code : list Z) (method : string) (params : list string) (gasLimit : Z) : res VMResult :=
  Run (NewVM code gasLimit).

(** ** The token *)
Record TokenContract := mkToken { tc_TotalSupply : Z; tc_Balances : gmap string Z; tc_Storage : gmap string string }.

Definition NewTokenContract (totalSupply : Z) : TokenContract := mkToken totalSupply ∅ ∅.

Definition BalanceOf (tc : TokenContract) (a : string) : Z := default 0 (tc_Balances tc !! a).

Definition set_balance (tc : TokenContract) (a : string) (n : Z) : TokenContract :=
  mkToken (tc_TotalSupply tc) (<[a := n]> (tc_Balances tc)) (tc_Storage tc).

Definition Transfer (tc : TokenContract) (from to : string) (amount : Z) : result TokenContract :=
  fail_if (BalanceOf tc from <? amount) "insufficient balance" ;;?
  let tc1 := set_balance tc from (BalanceOf tc from - amount)%u64 in
  Ok (set_balance tc1 to (BalanceOf tc1 to + amount)%u64).

(** The allowance is not looked at. *)
Definition TransferFrom := Transfer.

Definition allowance_key (owner spender : string) : string := owner +:+ "_allowance_" +:+ spender.

Definition Approve (tc : TokenContract) (owner spender : string) (amount : Z) : TokenContract :=
  mkToken (tc_TotalSupply tc) (tc_Balances tc) (<[allowance_key owner spender := dec_string amount]> (tc_Storage tc)).

(** ** The multi-signature contract *)
Record MultiSigContract := mkMultiSig { ms_Required : Z; ms_PubKeys : list string }.

Definition NewMultiSigContract (required : Z) (pubKeys : list string) : MultiSigContract :=
  mkMultiSig (if (required <? 1) || (len pubKeys <? required) then len pubKeys else required) pubKeys.

Definition ValidateSignatures (ms : MultiSigContract) (signatures : list (list Z)) : bool :=
  ms_Required ms <=? len (List.filter (fun sig => 0 <? len sig) signatures).

(** ** The light client's Merkle trees *)
Definition hashPair (a b : string) : string := hex_encode (sha256 (bytes_of_string (a +:+ b))).

(** One level up, with the last node of an odd level paired with itself. *)
Fixpoint spv_level (nodes : list string) : list string :=
  match nodes with
  | [] => []
  | [a] => [hashPair a a]
  | a :: b :: rest => hashPair a b :: spv_level rest
  end.

Fixpoint spv_levels (fuel : nat) (nodes : list string) : list string :=
  match fuel with
  | O => nodes
  | S fuel' => if len nodes <=? 1 then nodes else spv_levels fuel' (spv_level nodes)
  end.

(** The tree keeps its last level only, the root. *)
Definition NewSPVMerkleTree (txHashes : list string) : list string := spv_levels (length txHashes) txHashes.

Definition GetRoot (nodes : list string) : string := match nodes with [] => "" | root :: _ => root end.

Fixpoint index_of (h : string) (nodes : list string) : option nat :=
  match nodes with
  | [] => None
  | x :: rest => if String.eqb x h then Some O else S <$> index_of h rest
  end.

Fixpoint spv_proof (fuel : nat) (level : list string) (target : Z) (proof : list string) : list string :=
  match fuel with
  | O => proof
  | S fuel' =>
      if len level <=? 1 then proof
      else
        let level := if negb (len level mod 2 =? 0) then level ++ [List.last level ""%string] else level in
        let sibling := Z.lxor target 1 in
        let proof := if sibling <? len level then proof ++ [nth (Z.to_nat sibling) level ""%string] else proof in
        spv_proof fuel' (spv_level level) (target / 2) proof
  end.

Definition GetProof (nodes : list string) (txHash : string) : result (list string) :=
  match index_of txHash nodes with
  | None => Err "transaction not found in merkle tree"
  | Some idx => Ok (spv_proof (length nodes) nodes (Z.of_nat idx) [])
  end.

Definition VerifyMerkleProof (proof : list string) (txHash merkleRoot : string) : bool :=
  if len proof =? 0 then false
  else String.eqb (foldl hashPair txHash proof) merkleRoot.

(** [CreateMerkleProof], for the identifiers of the transactions of the block. *)
Definition CreateMerkleProof (txHashes : list string) (txHash : string) : result (list string) :=
  GetProof (NewSPVMerkleTree txHashes) txHash.

(** * Lemmas *)

(** ** Gas *)
Definition max_cost : Z := 5.

Lemma next_uses vm stack pc cost vm' : 1 <= cost <= max_cost -> 0 <= vm_gasUsed vm <= Z.max 0 (vm_gasLimit vm) ->
  vm_gasLimit vm <= max_i64 - max_cost -> next vm stack pc cost = Val (inl vm') ->
  vm_gasUsed vm < vm_gasUsed vm' <= vm_gasUsed vm + max_cost /\ vm_gasLimit vm' = vm_gasLimit vm.
Proof.
  intros Hc Hg Hl E. injection E as <-. cbn [vm_gasUsed vm_gasLimit]. unfold max_cost, max_i64 in *.
  rewrite i64_small by lia. split; [lia|done].
Qed.

(** What a round can be: one more machine that has used gas, or the end with little gas used. *)
Definition bounded (vm : VM) (o : outcome) : Prop :=
  match o with
  | Val (inl vm') => vm_gasUsed vm < vm_gasUsed vm' <= vm_gasUsed vm + max_cost /\ vm_gasLimit vm' = vm_gasLimit vm
  | Val (inr r) => 0 <= r_GasUsed r <= vm_gasUsed vm
  | Halt h => h = Panic "interface conversion"
  end.

Lemma next_bounded vm stack pc cost : 1 <= cost <= max_cost -> 0 <= vm_gasUsed vm <= Z.max 0 (vm_gasLimit vm) ->
  vm_gasLimit vm <= max_i64 - max_cost -> bounded vm (next vm stack pc cost).
Proof. intros Hc Hg Hl. exact (next_uses vm stack pc cost _ Hc Hg Hl eq_refl). Qed.

Lemma stop_bounded vm e : 0 <= vm_gasUsed vm -> bounded vm (stop_with e).
Proof. unfold bounded, stop_with. cbn [r_GasUsed]. lia. Qed.

Lemma op_bounded vm f cost pc : 1 <= cost <= max_cost -> 0 <= vm_gasUsed vm <= Z.max 0 (vm_gasLimit vm) ->
  vm_gasLimit vm <= max_i64 - max_cost -> bounded vm (int64_op vm f cost pc).
Proof.
  intros Hc Hg Hl. unfold int64_op. destruct (vm_stack vm) as [|b [|a rest]]; [apply stop_bounded; lia..|].
  destruct a, b; [by apply next_bounded|done..].
Qed.

Lemma exec_bounded vm op pc : 0 <= vm_gasUsed vm <= Z.max 0 (vm_gasLimit vm) -> vm_gasLimit vm <= max_i64 - max_cost ->
  bounded vm (exec vm op pc).
Proof.
  intros Hg Hl. assert (Hc : 1 <= 1 <= max_cost /\ 1 <= 2 <= max_cost /\ 1 <= 3 <= max_cost /\ 1 <= 5 <= max_cost)
    by (unfold max_cost; lia). destruct Hc as (? & ? & ? & ?).
  unfold exec. repeat case_match; try (apply next_bounded; done); try (apply stop_bounded; lia); try (apply op_bounded; done); try done.
  cbn [bounded r_GasUsed]. lia.
Qed.

Lemma run_bounded fuel vm : 0 <= vm_gasUsed vm <= Z.max 0 (vm_gasLimit vm) + max_cost -> vm_gasLimit vm <= max_i64 - max_cost ->
  Z.max 0 (vm_gasLimit vm) - vm_gasUsed vm + 2 <= Z.of_nat fuel -> (0 < fuel)%nat ->
  match run fuel vm with
  | Val r => 0 <= r_GasUsed r <= Z.max 0 (vm_gasLimit vm) + max_cost
  | Halt h => h = Panic "interface conversion"
  end.
Proof.
  revert vm. induction fuel as [|fuel IH]; intros vm Hg Hl Hf Hpos; [lia|]. cbn [run]. unfold step.
  destruct (Z.ltb_spec (vm_pc vm) (len (vm_code vm))); cbn [negb]; [|cbn [r_GasUsed]; lia].
  destruct (Z.ltb_spec (vm_gasLimit vm) (vm_gasUsed vm)); [cbn [r_GasUsed]; lia|].
  assert (Hg' : 0 <= vm_gasUsed vm <= Z.max 0 (vm_gasLimit vm)) by lia.
  pose proof (exec_bounded vm (nth_byte (vm_code vm) (vm_pc vm)) (vm_pc vm + 1) Hg' Hl) as B. unfold bounded in B.
  destruct (exec _ _ _) as [[vm'|r]|h]; [|lia|done]. destruct B as [B1 B2].
  specialize (IH vm'). rewrite B2 in IH. apply IH; lia.
Qed.

(** ** The levels of a tree *)
Lemma spv_level_len nodes : (length (spv_level nodes) = (length nodes + 1) / 2)%nat.
Proof.
  assert (H : forall n nodes, (length nodes <= n)%nat -> (length (spv_level nodes) = (length nodes + 1) / 2)%nat).
  { clear. induction n as [|n IH]; intros nodes Hn; destruct nodes as [|a [|b rest]]; cbn [length spv_level] in *; try done; try lia.
    rewrite IH by lia. replace (S (S (length rest)) + 1)%nat with ((length rest + 1) + 1 * 2)%nat by lia.
    rewrite Nat.div_add by lia. lia. }
  by apply (H (length nodes)).
Qed.

Lemma spv_levels_single fuel nodes : (length nodes <= fuel)%nat -> (length (spv_levels fuel nodes) <= 1)%nat.
Proof.
  revert nodes. induction fuel as [|fuel IH]; intros nodes Hl; cbn [spv_levels]; [lia|].
  unfold len. destruct (Z.leb_spec (Z.of_nat (length nodes)) 1); [lia|]. apply IH. rewrite spv_level_len.
  pose proof (Nat.div_mod_eq (length nodes + 1) 2). pose proof (Nat.mod_upper_bound (length nodes + 1) 2). lia.
Qed.

(** * Theorems *)

(** Every contract ends: with a limit that leaves room for one instruction below 2^63, it returns
    a result that has used at most the limit and one instruction more, or it panics on a value
    of the wrong type. *)
Theorem vm_terminates (code : list Z) (gasLimit : Z) (Hlimit : gasLimit <= max_i64 - max_cost) :
  match Deploy code gasLimit with
  | Val r => 0 <= r_GasUsed r <= Z.max 0 gasLimit + max_cost
  | Halt h => h = Panic "interface conversion"
  end.
Proof.
  unfold Deploy, Run. apply (run_bounded _ (NewVM code gasLimit)); cbn [NewVM vm_gasUsed vm_gasLimit]; unfold max_cost in *; lia.
Qed.

(** An addition to the result of a comparison is such a panic. *)
Theorem ill_typed_contract_panics :
  Deploy [OP_PUSH1; 1; OP_DUP; OP_EQUAL; OP_PUSH1; 1; OP_ADD] 100 = Halt (Panic "interface conversion").
Proof. reflexivity. Qed.

(** A loop ends by its gas. *)
Theorem endless_loop_stops :
  exists r, Deploy [OP_PUSH1; 0; OP_JUMP] 1000 = Val r /\ r_Success r = false /\ r_Error r = "gas limit exceeded"%string.
Proof. eexists. split; [vm_compute; reflexivity|done]. Qed.

(** No proof that the light client makes passes its own check: the tree forgets its leaves, only
    the root has a proof, the empty one, and the empty proof is refused. *)
Theorem no_proof_verifies (txHashes : list string) (txHash root : string) (proof : list string)
  (Hproof : CreateMerkleProof txHashes txHash = Ok proof) : VerifyMerkleProof proof txHash root = false.
Proof.
  unfold CreateMerkleProof, GetProof in Hproof.
  pose proof (spv_levels_single (length txHashes) txHashes ltac:(lia)) as Hl. fold (NewSPVMerkleTree txHashes) in Hl.
  destruct (NewSPVMerkleTree txHashes) as [|x [|y rest]]; cbn [length] in Hl; [done| |lia].
  cbn [index_of] in Hproof. destruct (String.eqb x txHash); cbn in Hproof; [|done]. injection Hproof as <-. done.
Qed.

Definition token_sum (tc : TokenContract) : Z := map_fold (fun _ n acc => n + acc) 0 (tc_Balances tc).

Lemma map_sum_insert (m : gmap string Z) a n :
  map_fold (fun _ n acc => n + acc) 0 (<[a := n]> m) = map_fold (fun _ n acc => n + acc) 0 m - default 0 (m !! a) + n.
Proof.
  destruct (m !! a) as [y|] eqn:E; cbn.
  - rewrite <- (insert_delete_id m a y E) at 2. rewrite <- (insert_delete_eq m a n).
    rewrite !map_fold_insert_L by (intros; lia || apply lookup_delete_eq). lia.
  - rewrite map_fold_insert_L by (intros; lia || done). lia.
Qed.

(** A transfer of the token moves the amount, and the sum of the balances stays, as long as the
    receiver's balance has room. *)
Theorem token_conserved (tc tc' : TokenContract) (from to : string) (amount : Z)
  (Hamount : 0 <= amount) (Htyped : forall a, is_u64 (BalanceOf tc a)) (Hroom : BalanceOf tc to + amount <= max_u64)
  (Htransfer : Transfer tc from to amount = Ok tc') :
  amount <= BalanceOf tc from /\ token_sum tc' = token_sum tc /\
  (from <> to -> BalanceOf tc' from = BalanceOf tc from - amount /\ BalanceOf tc' to = BalanceOf tc to + amount).
Proof.
  unfold Transfer in Htransfer. destruct (Z.ltb_spec (BalanceOf tc from) amount) as [|Hle]; [done|]. injection Htransfer as <-.
  pose proof (Htyped from) as Hf. pose proof (Htyped to) as Ht. rewrite sub64_small by (unfold_u64; lia).
  assert (E : BalanceOf (set_balance tc from (BalanceOf tc from - amount)) to
              = if decide (from = to) then BalanceOf tc from - amount else BalanceOf tc to).
  { unfold BalanceOf at 1, set_balance. cbn [tc_Balances]. case_decide as D.
    - by rewrite D, lookup_insert_eq.
    - by rewrite lookup_insert_ne. }
  rewrite E. split; [lia|]. case_decide as D.
  - subst to. rewrite add64_small by (unfold_u64; lia). split; [|done]. unfold token_sum, set_balance. cbn [tc_Balances].
    rewrite !map_sum_insert, lookup_insert_eq. unfold BalanceOf. cbn [default from_option id]. lia.
  - rewrite add64_small by (unfold_u64; lia). split.
    + unfold token_sum, set_balance. cbn [tc_Balances]. rewrite !map_sum_insert, lookup_insert_ne by done. unfold BalanceOf. cbn. lia.
    + intros _. split; unfold BalanceOf at 1, set_balance; cbn [tc_Balances].
      * by rewrite lookup_insert_ne, lookup_insert_eq.
      * by rewrite lookup_insert_eq.
Qed.

(** Nobody ever receives the supply of a new token: whatever is transferred and approved, no
    positive amount can be sent. *)
Inductive token_reachable (totalSupply : Z) : TokenContract -> Prop :=
| token_new : token_reachable totalSupply (NewTokenContract totalSupply)
| token_transfer tc from to amount tc' : token_reachable totalSupply tc -> 0 <= amount ->
    Transfer tc from to amount = Ok tc' -> token_reachable totalSupply tc'
| token_approve tc owner spender amount : token_reachable totalSupply tc ->
    token_reachable totalSupply (Approve tc owner spender amount).

Theorem token_supply_stranded (totalSupply : Z) (tc : TokenContract) (from to : string) (amount : Z)
  (Hreach : token_reachable totalSupply tc) (Hamount : 0 < amount) :
  Transfer tc from to amount = Err "insufficient balance".
Proof.
  assert (Zero : forall a, BalanceOf tc a = 0).
  { clear Hamount. induction Hreach as [|tc f t n tc' _ IH Hn E|tc o sp n _ IH]; intros a; [done| |exact (IH a)].
    unfold Transfer in E. rewrite IH in E. destruct (Z.ltb_spec 0 n); [done|]. replace n with 0 in E by lia. injection E as <-.
    assert (Z1 : forall tc b, (forall x, BalanceOf tc x = 0) -> forall x, BalanceOf (set_balance tc b 0) x = 0).
    { intros tc0 b H0 x. unfold BalanceOf, set_balance. cbn [tc_Balances]. destruct (decide (b = x)) as [<-|Hne].
      - by rewrite lookup_insert_eq.
      - rewrite lookup_insert_ne by done. apply H0. }
    change ((0 - 0)%u64) with 0. rewrite (Z1 tc f IH t). change ((0 + 0)%u64) with 0. by apply Z1, Z1. }
  unfold Transfer. rewrite Zero. by rewrite (proj2 (Z.ltb_lt _ _)).
Qed.

(** Signatures are counted and not verified: as many bytes as keys are required will do. *)
Theorem any_bytes_sign (required : Z) (pubKeys : list string) :
  let ms := NewMultiSigContract required pubKeys in
  ValidateSignatures ms (replicate (Z.to_nat (ms_Required ms)) [0]) = true.
Proof.
  cbn zeta. set (ms := NewMultiSigContract required pubKeys). unfold ValidateSignatures.
  assert (E : forall n, List.filter (fun sig : list Z => 0 <? len sig) (replicate n [0]) = replicate n [0])
    by (induction n as [|n IH]; cbn; [done|by f_equal]).
  rewrite E. unfold len. rewrite length_replicate. apply Z.leb_le. lia.
Qed.
