(* ===== verification/Governance.v ===== *)
(** * Community fund governance

    [blockchain/contracts/community_fund_governance.go]: the contract that holds the
    community fund, its proposals and their votes.  Every exported method takes the
    contract's mutex, so a method call is one step.  The clock is read where the code
    reads it, as an argument; so are the bytes of [crypto/rand], [None] when the source
    fails.  The methods that save and load the contract are input and output and are left
    out.

    The theorems: every reachable contract keeps exact tallies and has paid only approved
    proposals; the balance of the fund is accounted for over every run; [FinalizeVoting]
    decides by the quorum and the threshold as long as the 64-bit products are exact; and
    a vote that comes late takes a proposal out of the reach of [FinalizeVoting]. *)

From S2P Require Import Prelude Bytes Sha256 Json.
From stdpp Require Import base list gmap strings numbers.
From Stdlib Require Import ZArith Lia.

Open Scope Z_scope.
Open Scope go_scope.

(** ** Data *)

(** [ProposalType] and [ProposalStatus] are [uint8]: [CreateProposal] takes any type. *)
Definition ProposalType : Type := Z.
Definition ProposalTreasury : ProposalType := 0.
Definition ProposalEcosystem : ProposalType := 1.
Definition ProposalGrant : ProposalType := 2.
Definition ProposalEvent : ProposalType := 3.

Definition ProposalType_String (p : ProposalType) : string :=
  if p =? ProposalTreasury then "treasury"
  else if p =? ProposalEcosystem then "ecosystem"
  else if p =? ProposalGrant then "grant"
  else if p =? ProposalEvent then "event"
  else "unknown".

Definition ProposalStatus : Type := Z.
Definition StatusActive : ProposalStatus := 0.
Definition StatusPassed : ProposalStatus := 1.
Definition StatusRejected : ProposalStatus := 2.
Definition StatusExecuted : ProposalStatus := 3.
Definition StatusExpired : ProposalStatus := 4.

Definition ProposalStatus_String (s : ProposalStatus) : string :=
  if s =? StatusActive then "active"
  else if s =? StatusPassed then "passed"
  else if s =? StatusRejected then "rejected"
  else if s =? StatusExecuted then "executed"
  else if s =? StatusExpired then "expired"
  else "unknown".

Record Vote : Type := mkVote {
  Voter : string;
  Support : bool;
  VotingPower : Z;
  VoteTimestamp : Z;
}.

Record Proposal : Type := mkProposal {
  ID : string;
  Proposer : string;
  Title : string;
  Description : string;
  PType : ProposalType;
  Amount : Z;
  Recipient : string;
  Deposit : Z;
  CreatedAt : Z;
  VotingEndTime : Z;
  VotesFor : Z;
  VotesAgainst : Z;
  Voters : gmap string Vote;
  Status : ProposalStatus;
  ExecutedAt : Z;
}.

Record CommunityFundGovernanceContract : Type := mkContract {
  ContractAddress : string;
  DeployedAt : Z;
  FundBalance : Z;
  Proposals : gmap string Proposal;
  ProposalCount : Z;
  VotingPeriod : Z;
  MinimumDeposit : Z;
  QuorumPercent : Z;
  ApprovalThreshold : Z;
  TotalVotingPower : Z;
  ExecutedProposals : Z;
}.
Abbreviation Contract := CommunityFundGovernanceContract.

(** Assignments to one field. *)
Definition set_status (s : ProposalStatus) (p : Proposal) : Proposal :=
  mkProposal (ID p) (Proposer p) (Title p) (Description p) (PType p) (Amount p) (Recipient p)
    (Deposit p) (CreatedAt p) (VotingEndTime p) (VotesFor p) (VotesAgainst p) (Voters p) s
    (ExecutedAt p).
Definition set_executed_at (t : Z) (p : Proposal) : Proposal :=
  mkProposal (ID p) (Proposer p) (Title p) (Description p) (PType p) (Amount p) (Recipient p)
    (Deposit p) (CreatedAt p) (VotingEndTime p) (VotesFor p) (VotesAgainst p) (Voters p)
    (Status p) t.
Definition set_votes (for_ against : Z) (voters : gmap string Vote) (p : Proposal) : Proposal :=
  mkProposal (ID p) (Proposer p) (Title p) (Description p) (PType p) (Amount p) (Recipient p)
    (Deposit p) (CreatedAt p) (VotingEndTime p) for_ against voters (Status p) (ExecutedAt p).

Definition set_fund (f : Z) (c : Contract) : Contract :=
  mkContract (ContractAddress c) (DeployedAt c) f (Proposals c) (ProposalCount c)
    (VotingPeriod c) (MinimumDeposit c) (QuorumPercent c) (ApprovalThreshold c)
    (TotalVotingPower c) (ExecutedProposals c).
Definition set_proposals (m : gmap string Proposal) (c : Contract) : Contract :=
  mkContract (ContractAddress c) (DeployedAt c) (FundBalance c) m (ProposalCount c)
    (VotingPeriod c) (MinimumDeposit c) (QuorumPercent c) (ApprovalThreshold c)
    (TotalVotingPower c) (ExecutedProposals c).
Definition set_total_power (t : Z) (c : Contract) : Contract :=
  mkContract (ContractAddress c) (DeployedAt c) (FundBalance c) (Proposals c) (ProposalCount c)
    (VotingPeriod c) (MinimumDeposit c) (QuorumPercent c) (ApprovalThreshold c) t
    (ExecutedProposals c).
Definition set_executed (n : Z) (c : Contract) : Contract :=
  mkContract (ContractAddress c) (DeployedAt c) (FundBalance c) (Proposals c) (ProposalCount c)
    (VotingPeriod c) (MinimumDeposit c) (QuorumPercent c) (ApprovalThreshold c)
    (TotalVotingPower c) n.
(** A write through the [*Proposal] stored under [id]. *)
Definition put_proposal (id : string) (p : Proposal) (c : Contract) : Contract :=
  set_proposals (<[id := p]> (Proposals c)) c.

(** ** Operations *)

(** The address both contracts of the package give themselves: version byte, hash of the
    time and a name, four bytes of checksum. *)
Definition contract_address (nano : Z) (name : string) : string :=
  let data := bytes_of_string (dec_string nano +:+ "-" +:+ name) in
  let addressData := 0 :: take 32 (sha256 data) in
  "NOGO" +:+ hex_encode (addressData ++ take 4 (sha256 addressData)).

Definition NewCommunityFundGovernanceContract (nano now : Z) : Contract :=
  mkContract (contract_address nano "COMMUNITY_FUND_GOVERNANCE") now 0 ∅ 0
    (7 * 24 * 60 * 60) 1000000000 10 60 0 0.

Definition GetContractAddress (c : Contract) : string := ContractAddress c.
Definition GetFundBalance (c : Contract) : Z := FundBalance c.

(** [AddFunds] saturates. *)
Definition AddFunds (amount : Z) (c : Contract) : Contract :=
  if (max_u64 - amount)%u64 <? FundBalance c then set_fund max_u64 c
  else set_fund (FundBalance c + amount)%u64 c.

(** [byte(now >> (i * 8))] for the eight [i], when [rand.Read] fails. *)
Definition time_bytes (now : Z) : list Z :=
  map (fun i => u8 (Z.shiftr now (8 * Z.of_nat i))) (seq 0 8).

Definition proposal_id (proposer title description : string) (random : option (list Z))
    (now : Z) : string :=
  let randomData := default (time_bytes now) random in
  hex_encode (sha256 (bytes_of_string (proposer +:+ title +:+ description) ++ randomData
    ++ bytes_of_string (dec_string now))).

Definition CreateProposal (proposer title description : string) (propType : ProposalType)
    (amount : Z) (recipient : string) (deposit : Z) (random : option (list Z)) (nano now : Z)
    : St Contract string := fun c =>
  if deposit <? MinimumDeposit c then (c, Err "deposit below minimum requirement")
  else if amount =? 0 then (c, Err "amount must be greater than 0")
  else if String.eqb recipient "" then (c, Err "recipient address required")
  else
    let id := proposal_id proposer title description random nano in
    let p := mkProposal id proposer title description propType amount recipient deposit now
      (i64 (now + VotingPeriod c)) 0 0 ∅ StatusActive 0 in
    (put_proposal id p c, Ok id).

(** [now] is the clock of the check of the deadline, [now'] that of the recorded vote. *)
Definition Vote_ (proposalID voter : string) (support : bool) (votingPower : Z) (now now' : Z)
    : St Contract unit := fun c =>
  match Proposals c !! proposalID with
  | None => (c, Err "proposal not found")
  | Some p =>
      if negb (Status p =? StatusActive) then (c, Err "voting is not active for this proposal")
      else if VotingEndTime p <? now then
        (put_proposal proposalID (set_status StatusExpired p) c, Err "voting period has ended")
      else if bool_decide (is_Some (Voters p !! voter)) then (c, Err "voter has already voted")
      else if votingPower =? 0 then (c, Err "voting power must be greater than 0")
      else
        let voters := <[voter := mkVote voter support votingPower now']> (Voters p) in
        let p' :=
          if support then set_votes (VotesFor p + votingPower)%u64 (VotesAgainst p) voters p
          else set_votes (VotesFor p) (VotesAgainst p + votingPower)%u64 voters p in
        (put_proposal proposalID p' c, Ok tt)
  end.

(** What a call does: it returns, or it panics and leaves the contract as it is at that
    point ([defer] releases the mutex). *)
Inductive reply (A : Type) : Type := Returned (r : result A) | Panicked.
Arguments Returned {A} r.
Arguments Panicked {A}.

Definition quorumVotes (c : Contract) : Z := (TotalVotingPower c * QuorumPercent c / 100)%u64.

(** Division of [uint64] by zero panics: the total of the votes can wrap around to 0. *)
Definition FinalizeVoting (proposalID : string) (now : Z) (c : Contract)
    : Contract * reply unit :=
  match Proposals c !! proposalID with
  | None => (c, Returned (Err "proposal not found"))
  | Some p =>
      if now <=? VotingEndTime p then (c, Returned (Err "voting period has not ended yet"))
      else if negb (Status p =? StatusActive) then
        (c, Returned (Err "proposal already finalized"))
      else
        let totalVotes := (VotesFor p + VotesAgainst p)%u64 in
        let finish s := (put_proposal proposalID (set_status s p) c, Returned (Ok tt)) in
        if totalVotes <? quorumVotes c then finish StatusRejected
        else if VotesFor p =? 0 then finish StatusRejected
        else if totalVotes =? 0 then (c, Panicked)
        else
          let approvalPercent := (VotesFor p * 100 / totalVotes)%u64 in
          if ApprovalThreshold c <=? approvalPercent then finish StatusPassed
          else finish StatusRejected
  end.

Definition ExecuteProposal (proposalID : string) (now : Z) : St Contract unit := fun c =>
  match Proposals c !! proposalID with
  | None => (c, Err "proposal not found")
  | Some p =>
      if negb (Status p =? StatusPassed) then (c, Err "proposal has not passed")
      else if FundBalance c <? Amount p then (c, Err "insufficient fund balance")
      else
        (set_executed (ExecutedProposals c + 1)%u64
          (put_proposal proposalID (set_executed_at now (set_status StatusExecuted p))
            (set_fund (FundBalance c - Amount p)%u64 c)), Ok tt)
  end.

Definition SetTotalVotingPower (total : Z) (c : Contract) : Contract := set_total_power total c.

(** The views that range over the map return its proposals in the order [order] of the
    range; the copies of [GetAllProposals] are values, as everything is here. *)
Definition GetAllProposals (order : list string) (c : Contract) : list Proposal :=
  omap (fun id => Proposals c !! id) order.
Definition GetProposalByID (proposalID : string) (c : Contract) : option Proposal :=
  Proposals c !! proposalID.
Definition GetProposal (proposalID : string) (c : Contract) : result Proposal :=
  match Proposals c !! proposalID with
  | None => Err "proposal not found"
  | Some p => Ok p
  end.
Definition with_status (s : ProposalStatus) (l : list Proposal) : list Proposal :=
  List.filter (fun p => Status p =? s) l.
Definition GetActiveProposals (order : list string) (c : Contract) : list Proposal :=
  with_status StatusActive (omap (fun id => Proposals c !! id) order).
Definition GetPassedProposals (order : list string) (c : Contract) : list Proposal :=
  with_status StatusPassed (omap (fun id => Proposals c !! id) order).
Definition GetExecutedProposals (order : list string) (c : Contract) : list Proposal :=
  with_status StatusExecuted (omap (fun id => Proposals c !! id) order).

Record VotingStats : Type := mkVotingStats {
  sTotalVotes : Z;
  sVotesFor : Z;
  sVotesAgainst : Z;
  ParticipationPercent : Z;
  ApprovalPercent : Z;
  QuorumReached : bool;
  ThresholdReached : bool;
}.

Definition GetVotingStats (proposalID : string) (c : Contract) : result VotingStats :=
  match Proposals c !! proposalID with
  | None => Err "proposal not found"
  | Some p =>
      let totalVotes := (VotesFor p + VotesAgainst p)%u64 in
      let participationPercent :=
        if 0 <? TotalVotingPower c then u8 (totalVotes * 100 / TotalVotingPower c)%u64 else 0 in
      let approvalPercent :=
        if 0 <? totalVotes then u8 (VotesFor p * 100 / totalVotes)%u64 else 0 in
      Ok (mkVotingStats totalVotes (VotesFor p) (VotesAgainst p) participationPercent
        approvalPercent (quorumVotes c <=? totalVotes) (ApprovalThreshold c <=? approvalPercent))
  end.

Definition GetProposalCount (c : Contract) : Z := ProposalCount c.
Definition GetExecutedCount (c : Contract) : Z := ExecutedProposals c.
Definition HasVoted (proposalID voter : string) (c : Contract) : bool :=
  match Proposals c !! proposalID with
  | None => false
  | Some p => bool_decide (is_Some (Voters p !! voter))
  end.
Definition CanExecute (proposalID : string) (c : Contract) : bool :=
  match Proposals c !! proposalID with
  | None => false
  | Some p => (Status p =? StatusPassed) && (Amount p <=? FundBalance c)
  end.

(** ** Runs *)
Inductive call : Type :=
| CallAddFunds (amount : Z)
| CallCreateProposal (proposer title description : string) (propType : ProposalType)
    (amount : Z) (recipient : string) (deposit : Z) (random : option (list Z)) (nano now : Z)
| CallVote (proposalID voter : string) (support : bool) (votingPower now now' : Z)
| CallFinalizeVoting (proposalID : string) (now : Z)
| CallExecuteProposal (proposalID : string) (now : Z)
| CallSetTotalVotingPower (total : Z).

(** The arguments are of their Go types. *)
Definition call_typed (k : call) : Prop :=
  match k with
  | CallAddFunds n | CallSetTotalVotingPower n => is_u64 n
  | CallCreateProposal _ _ _ _ amount _ deposit _ _ _ => is_u64 amount /\ is_u64 deposit
  | CallVote _ _ _ power _ _ => is_u64 power
  | CallFinalizeVoting _ _ | CallExecuteProposal _ _ => True
  end.

Definition replies {A : Type} (x : Contract * result A) : Contract * reply unit :=
  (x.1, Returned (match x.2 with Ok _ => Ok tt | Err e => Err e end)).

Definition exec (k : call) (c : Contract) : Contract * reply unit :=
  match k with
  | CallAddFunds n => (AddFunds n c, Returned (Ok tt))
  | CallCreateProposal pr ti de ty am re dp rnd nano now =>
      replies (CreateProposal pr ti de ty am re dp rnd nano now c)
  | CallVote id v s w now now' => replies (Vote_ id v s w now now' c)
  | CallFinalizeVoting id now => FinalizeVoting id now c
  | CallExecuteProposal id now => replies (ExecuteProposal id now c)
  | CallSetTotalVotingPower n => (SetTotalVotingPower n c, Returned (Ok tt))
  end.

Definition run (ks : list call) (c : Contract) : Contract :=
  fold_left (fun c k => (exec k c).1) ks c.

Inductive reachable : Contract -> Prop :=
| reachable_new (nano now : Z) : reachable (NewCommunityFundGovernanceContract nano now)
| reachable_call (c : Contract) (k : call) :
    reachable c -> call_typed k -> reachable (exec k c).1.

(** What a call pays out of the fund, and what it puts in. *)
Definition payout (k : call) (c : Contract) : Z :=
  match k with
  | CallExecuteProposal id now =>
      match (ExecuteProposal id now c).2, Proposals c !! id with
      | Ok _, Some p => Amount p
      | _, _ => 0
      end
  | _ => 0
  end.
Fixpoint payouts (ks : list call) (c : Contract) : Z :=
  match ks with
  | [] => 0
  | k :: ks' => payout k c + payouts ks' (exec k c).1
  end.
Definition added (k : call) : Z := match k with CallAddFunds n => n | _ => 0 end.

(** The id a call creates a proposal under. *)
Definition creates (k : call) : option string :=
  match k with
  | CallCreateProposal pr ti de _ _ _ _ rnd nano _ => Some (proposal_id pr ti de rnd nano)
  | _ => None
  end.

(** ** The invariant *)

(** The power of the recorded votes for ([b = true]) or against. *)
Definition tally (b : bool) (m : gmap string Vote) : Z :=
  sumZ (map (fun kv => if Bool.eqb (Support kv.2) b then VotingPower kv.2 else 0)
    (map_to_list m)).

(** The test [FinalizeVoting] makes before it lets a proposal pass. *)
Definition approved (threshold : Z) (p : Proposal) : Prop :=
  VotesFor p <> 0 /\ (VotesFor p + VotesAgainst p)%u64 <> 0 /\
  threshold <= (VotesFor p * 100 / (VotesFor p + VotesAgainst p))%u64.

Record proposal_inv (p : Proposal) : Prop := {
  inv_for : VotesFor p = u64 (tally true (Voters p));
  inv_against : VotesAgainst p = u64 (tally false (Voters p));
  inv_voters : map_Forall (fun k v => Voter v = k /\ 1 <= VotingPower v <= max_u64) (Voters p);
  inv_amount : 1 <= Amount p <= max_u64;
  inv_status : Status p ∈ [StatusActive; StatusPassed; StatusRejected; StatusExecuted;
                           StatusExpired];
  inv_passed : Status p = StatusPassed \/ Status p = StatusExecuted -> approved 60 p;
}.

Record contract_inv (c : Contract) : Prop := {
  inv_fund : is_u64 (FundBalance c);
  inv_power : is_u64 (TotalVotingPower c);
  inv_rules : ApprovalThreshold c = 60 /\ QuorumPercent c = 10 /\ MinimumDeposit c = 1000000000;
  inv_proposals : map_Forall (fun id p => ID p = id /\ proposal_inv p) (Proposals c);
}.

(** A vote adds its power to its side of the tally. *)
Lemma tally_insert (b : bool) (m : gmap string Vote) (k : string) (v : Vote) :
  m !! k = None ->
  tally b (<[k := v]> m) = tally b m + (if Bool.eqb (Support v) b then VotingPower v else 0).
Proof.
  intros Hk. unfold tally.
  etrans; [apply sumZ_perm, fmap_Permutation, map_to_list_insert, Hk|]. apply Z.add_comm.
Qed.

Lemma tally_range (b : bool) (m : gmap string Vote) :
  map_Forall (fun k v => Voter v = k /\ 1 <= VotingPower v <= max_u64) m -> 0 <= tally b m.
Proof.
  intros Hm. apply sumZ_nonneg, Forall_forall. intros z Hz.
  apply in_map_iff in Hz as ([k v] & <- & Hin). cbn.
  apply list_elem_of_In, elem_of_map_to_list in Hin. destruct (Hm k v Hin). destruct (Bool.eqb _ _); lia.
Qed.

Lemma u64_add_l (a b : Z) : (u64 a + b)%u64 = u64 (a + b).
Proof. unfold_u64. by rewrite Zplus_mod_idemp_l. Qed.

(** A write to one proposal keeps the invariant if what is written satisfies it. *)
Lemma put_proposal_inv (c : Contract) (id : string) (p : Proposal) :
  contract_inv c -> ID p = id -> proposal_inv p -> contract_inv (put_proposal id p c).
Proof.
  intros [Hf Hw Hr Hp] Hid Hinv. split; [done..|]. cbn. by apply map_Forall_insert_2.
Qed.

Lemma set_fund_inv (c : Contract) (f : Z) : contract_inv c -> is_u64 f -> contract_inv (set_fund f c).
Proof. intros [??]. by split. Qed.

Lemma set_executed_inv (c : Contract) (n : Z) : contract_inv c -> contract_inv (set_executed n c).
Proof. intros [??]. by split. Qed.

(** A proposal that is not passed or executed satisfies the last clause for nothing. *)
Lemma set_status_inv (p : Proposal) (s : ProposalStatus) :
  proposal_inv p ->
  s ∈ [StatusActive; StatusPassed; StatusRejected; StatusExecuted; StatusExpired] ->
  (s = StatusPassed \/ s = StatusExecuted -> approved 60 p) ->
  proposal_inv (set_status s p).
Proof. intros [??] Hs Ha. by split. Qed.

Create HintDb gov.
#[export] Hint Resolve put_proposal_inv set_fund_inv set_executed_inv set_status_inv : gov.

(** *** Every call keeps it *)
Lemma NewContract_inv (nano now : Z) : contract_inv (NewCommunityFundGovernanceContract nano now).
Proof. by split. Qed.

Lemma AddFunds_inv (c : Contract) (n : Z) : contract_inv c -> contract_inv (AddFunds n c).
Proof.
  intros Hc. unfold AddFunds. case_match; (apply set_fund_inv; [done|]); [done|apply u64_range].
Qed.

Lemma CreateProposal_inv (c : Contract) pr ti de ty am re dp rnd nano now :
  is_u64 am -> contract_inv c ->
  contract_inv (CreateProposal pr ti de ty am re dp rnd nano now c).1.
Proof.
  intros Ham Hc. unfold CreateProposal. repeat case_match; cbn; [done..|].
  apply put_proposal_inv; [done..|]. bool_to_prop. split; cbn; [done..| |set_solver|by intros [[=]|[=]]].
  unfold_u64. lia.
Qed.

Lemma proposal_of (c : Contract) (id : string) (p : Proposal) :
  contract_inv c -> Proposals c !! id = Some p -> ID p = id /\ proposal_inv p.
Proof. intros Hc Hp. by apply (inv_proposals _ Hc). Qed.

Lemma vote_inv (p : Proposal) (voter : string) (support : bool) (w now : Z) (voters := <[voter := mkVote voter support w now]> (Voters p)) :
  proposal_inv p -> Voters p !! voter = None -> 1 <= w <= max_u64 -> Status p = StatusActive ->
  proposal_inv (if support then set_votes (VotesFor p + w)%u64 (VotesAgainst p) voters p
                else set_votes (VotesFor p) (VotesAgainst p + w)%u64 voters p).
Proof.
  intros [Hf Ha Hv Hm Hs _] Hnew Hw Hst.
  assert (map_Forall (fun k v => Voter v = k /\ 1 <= VotingPower v <= max_u64) voters)
    by by apply map_Forall_insert_2.
  destruct support; split; cbn; try done;
    try (intros [E|E]; rewrite Hst in E; discriminate E).
  all: rewrite ?Hf, ?Ha, ?u64_add_l; unfold voters; rewrite tally_insert by done; cbn.
  all: f_equal; lia.
Qed.

Lemma Vote_inv (c : Contract) id voter support w now now' :
  is_u64 w -> contract_inv c -> contract_inv (Vote_ id voter support w now now' c).1.
Proof.
  intros Hw Hc. unfold Vote_. destruct (Proposals c !! id) as [p|] eqn:Hp; [|done].
  destruct (proposal_of _ _ _ Hc Hp) as [Hid Hinv].
  repeat case_match; bool_to_prop; cbn; try done; (apply put_proposal_inv; [done..|]).
  1: apply set_status_inv; [done|set_solver|by intros [[=]|[=]]].
  1: apply (vote_inv p voter true). 5: apply (vote_inv p voter false).
  all: try done; unfold is_u64 in Hw; lia || by apply eq_None_not_Some.
Qed.

Lemma FinalizeVoting_inv (c : Contract) id now :
  contract_inv c -> contract_inv (FinalizeVoting id now c).1.
Proof.
  intros Hc. unfold FinalizeVoting. destruct (Proposals c !! id) as [p|] eqn:Hp; [|done].
  destruct (proposal_of _ _ _ Hc Hp) as [Hid Hinv]. destruct (inv_rules _ Hc) as [Hthr _].
  repeat case_match; bool_to_prop; cbn; try done;
    (apply put_proposal_inv; [done..|]; apply set_status_inv; [done|set_solver|]).
  all: try (by intros [[=]|[=]]). intros _. by rewrite Hthr in *.
Qed.

Lemma ExecuteProposal_inv (c : Contract) id now :
  contract_inv c -> contract_inv (ExecuteProposal id now c).1.
Proof.
  intros Hc. unfold ExecuteProposal. destruct (Proposals c !! id) as [p|] eqn:Hp; [|done].
  destruct (proposal_of _ _ _ Hc Hp) as [Hid Hinv].
  repeat case_match; bool_to_prop; cbn; try done.
  apply set_executed_inv, put_proposal_inv; [apply set_fund_inv; [done|apply u64_range]|done|].
  assert (proposal_inv (set_status StatusExecuted p)) as [??].
  { apply set_status_inv; [done|set_solver|]. intros _. apply (inv_passed _ Hinv). auto. }
  by split.
Qed.

Lemma exec_inv (k : call) (c : Contract) :
  call_typed k -> contract_inv c -> contract_inv (exec k c).1.
Proof.
  destruct k; cbn; intros Hk Hc.
  - by apply AddFunds_inv.
  - apply CreateProposal_inv; tauto.
  - by apply Vote_inv.
  - by apply FinalizeVoting_inv.
  - by apply ExecuteProposal_inv.
  - destruct Hc. by split.
Qed.

Lemma reachable_inv (c : Contract) : reachable c -> contract_inv c.
Proof. induction 1; auto using NewContract_inv, exec_inv. Qed.

(** ** The life of a proposal

    The abstract machine the contract implements: votes while active, one decision, and
    one execution of what has passed. *)
Inductive advance (threshold : Z) : Proposal -> Proposal -> Prop :=
| advance_vote (p : Proposal) (f a : Z) (v : Vote) :
    Status p = StatusActive -> Voters p !! Voter v = None ->
    f = (if Support v then (VotesFor p + VotingPower v)%u64 else VotesFor p) ->
    a = (if Support v then VotesAgainst p else (VotesAgainst p + VotingPower v)%u64) ->
    advance threshold p (set_votes f a (<[Voter v := v]> (Voters p)) p)
| advance_close (p : Proposal) (s : ProposalStatus) :
    Status p = StatusActive -> s = StatusRejected \/ s = StatusExpired ->
    advance threshold p (set_status s p)
| advance_pass (p : Proposal) :
    Status p = StatusActive -> approved threshold p ->
    advance threshold p (set_status StatusPassed p)
| advance_execute (p : Proposal) (now : Z) :
    Status p = StatusPassed ->
    advance threshold p (set_executed_at now (set_status StatusExecuted p)).

(** A call leaves a proposal alone or advances it. *)
Definition advanced (c c' : Contract) (id : string) (p : Proposal) : Prop :=
  exists p', Proposals c' !! id = Some p' /\ rtc (advance (ApprovalThreshold c)) p p' /\
    ApprovalThreshold c' = ApprovalThreshold c.

Lemma advanced_same (c c' : Contract) (id : string) (p : Proposal) :
  Proposals c !! id = Some p -> Proposals c' = Proposals c ->
  ApprovalThreshold c' = ApprovalThreshold c -> advanced c c' id p.
Proof. intros Hp E Ht. exists p. by rewrite E. Qed.

(** A write under [id'] of what the proposal there advances to. *)
Lemma advanced_put (c c' : Contract) (id id' : string) (p q q' : Proposal) :
  Proposals c !! id = Some p -> Proposals c !! id' = Some q ->
  Proposals c' = <[id' := q']> (Proposals c) -> ApprovalThreshold c' = ApprovalThreshold c ->
  advance (ApprovalThreshold c) q q' -> advanced c c' id p.
Proof.
  intros Hp Hq E Ht Ha. unfold advanced. rewrite E. destruct (decide (id' = id)) as [->|Hne].
  - rewrite Hp in Hq. injection Hq as ->. exists q'. rewrite lookup_insert_eq.
    split_and!; [done|by apply rtc_once|done].
  - exists p. by rewrite lookup_insert_ne.
Qed.

Lemma Vote_advances (c : Contract) id p id' voter support w now now' :
  Proposals c !! id = Some p -> advanced c (Vote_ id' voter support w now now' c).1 id p.
Proof.
  intros Hp. unfold Vote_. destruct (Proposals c !! id') as [q|] eqn:Hq;
    [|by apply advanced_same].
  repeat case_match; bool_to_prop; cbn; try (by apply advanced_same);
    (eapply advanced_put; [done|done|done|done|]).
  - apply advance_close; auto.
  - apply (advance_vote _ _ _ _ (mkVote voter true w now')); try done.
    by apply eq_None_not_Some.
  - apply (advance_vote _ _ _ _ (mkVote voter false w now')); try done.
    by apply eq_None_not_Some.
Qed.

Lemma FinalizeVoting_advances (c : Contract) id p id' now :
  Proposals c !! id = Some p -> advanced c (FinalizeVoting id' now c).1 id p.
Proof.
  intros Hp. unfold FinalizeVoting. destruct (Proposals c !! id') as [q|] eqn:Hq;
    [|by apply advanced_same].
  repeat case_match; bool_to_prop; cbn; try (by apply advanced_same);
    (eapply advanced_put; [done|done|done|done|]);
    first [by apply advance_pass | apply advance_close; auto].
Qed.

Lemma ExecuteProposal_advances (c : Contract) id p id' now :
  Proposals c !! id = Some p -> advanced c (ExecuteProposal id' now c).1 id p.
Proof.
  intros Hp. unfold ExecuteProposal. destruct (Proposals c !! id') as [q|] eqn:Hq;
    [|by apply advanced_same].
  repeat case_match; bool_to_prop; cbn; try (by apply advanced_same).
  eapply advanced_put; [done|done|done|done|]. by apply advance_execute.
Qed.

Lemma exec_advances (k : call) (c : Contract) (id : string) (p : Proposal) :
  creates k <> Some id -> Proposals c !! id = Some p -> advanced c (exec k c).1 id p.
Proof.
  intros Hk Hp. destruct k; cbn.
  - unfold AddFunds. case_match; by apply advanced_same.
  - unfold CreateProposal. repeat case_match; try (by apply advanced_same). cbn in *.
    exists p. cbn. rewrite lookup_insert_ne by congruence. done.
  - by apply Vote_advances.
  - by apply FinalizeVoting_advances.
  - by apply ExecuteProposal_advances.
  - by apply advanced_same.
Qed.

Lemma run_advances (ks : list call) (c : Contract) (id : string) (p : Proposal) :
  Forall (fun k => creates k <> Some id) ks -> Proposals c !! id = Some p ->
  advanced c (run ks c) id p.
Proof.
  intros Hks. revert c p. induction Hks as [|k ks Hk _ IH]; intros c p Hp; cbn.
  { by apply advanced_same. }
  destruct (exec_advances k c id p Hk Hp) as (p1 & Hp1 & Hr1 & Ht1).
  destruct (IH _ _ Hp1) as (p2 & Hp2 & Hr2 & Ht2). rewrite Ht1 in *.
  exists p2. split_and!; [done|by etrans|done].
Qed.

(** Nothing follows a rejection, an execution or an expiry. *)
Definition settled (p : Proposal) : Prop := Status p <> StatusActive /\ Status p <> StatusPassed.

Lemma settled_stays (threshold : Z) (p p' : Proposal) :
  settled p -> rtc (advance threshold) p p' -> p' = p.
Proof.
  intros [Ha Hp] Hr. destruct Hr as [|p q p' H _]; [done|]. destruct H; congruence.
Qed.

Lemma run_settled (ks : list call) (c : Contract) (id : string) (p : Proposal) :
  Forall (fun k => creates k <> Some id) ks -> Proposals c !! id = Some p -> settled p ->
  Proposals (run ks c) !! id = Some p.
Proof.
  intros Hks Hp Hs. destruct (run_advances ks c id p Hks Hp) as (p' & Hp' & Hr & _).
  by rewrite Hp', (settled_stays _ _ _ Hs Hr).
Qed.

(** ** The fund *)
Lemma AddFunds_exact (n : Z) (c : Contract) :
  is_u64 n -> 0 <= FundBalance c -> FundBalance c + n <= max_u64 ->
  AddFunds n c = set_fund (FundBalance c + n) c.
Proof.
  intros Hn Hf Hs. unfold AddFunds, is_u64 in *. rewrite sub64_small, add64_small by lia.
  destruct (Z.ltb_spec (max_u64 - n) (FundBalance c)); [lia|done].
Qed.

Lemma exec_fund (k : call) (c : Contract) :
  contract_inv c -> call_typed k -> FundBalance c + added k <= max_u64 ->
  FundBalance (exec k c).1 + payout k c = FundBalance c + added k.
Proof.
  intros Hc Hk Hs. pose proof (inv_fund _ Hc) as Hf. unfold is_u64 in Hf.
  destruct k; cbn [exec payout added replies fst] in *.
  - rewrite AddFunds_exact by (cbn in *; lia || done). cbn. lia.
  - unfold CreateProposal. repeat case_match; cbn; lia.
  - unfold Vote_. repeat case_match; cbn; lia.
  - unfold FinalizeVoting. repeat case_match; cbn; lia.
  - unfold ExecuteProposal. destruct (Proposals c !! proposalID) as [p|] eqn:Hp; [|cbn; lia].
    destruct (proposal_of _ _ _ Hc Hp) as [_ Hinv]. pose proof (inv_amount _ Hinv).
    repeat case_match; bool_to_prop; cbn in *; try lia; simplify_eq.
    rewrite sub64_small; lia.
  - cbn. lia.
Qed.

Lemma payout_nonneg (k : call) (c : Contract) : contract_inv c -> 0 <= payout k c.
Proof.
  intros Hc. destruct k; cbn; try lia. case_match; [|lia]. case_match eqn:Hp; [|lia].
  destruct (proposal_of _ _ _ Hc Hp) as [_ Hinv]. pose proof (inv_amount _ Hinv). lia.
Qed.

Lemma exact_votes (p : Proposal) (T := tally true (Voters p)) (F := tally false (Voters p)) :
  proposal_inv p -> 100 * (T + F) <= max_u64 ->
  0 <= T /\ 0 <= F /\ VotesFor p = T /\ VotesAgainst p = F /\
  (VotesFor p + VotesAgainst p)%u64 = T + F /\ (VotesFor p * 100)%u64 = 100 * T.
Proof.
  intros Hp Hs. pose proof (tally_range true _ (inv_voters _ Hp)).
  pose proof (tally_range false _ (inv_voters _ Hp)). subst T F.
  assert (VotesFor p = tally true (Voters p)) as E1
    by (rewrite (inv_for _ Hp); apply u64_small; unfold max_u64 in *; lia).
  assert (VotesAgainst p = tally false (Voters p)) as E2
    by (rewrite (inv_against _ Hp); apply u64_small; unfold max_u64 in *; lia).
  rewrite E1, E2, add64_small, mul64_small by (unfold max_u64 in *; lia). lia.
Qed.

(** ** Theorems *)

(** C18. Of every contract that calls can reach: a proposal that has passed or been executed
    has votes for it, and of the power of all recorded votes at least 60% is for it, as
    long as a hundred times that power fits in 64 bits. *)
Theorem paid_proposals_approved (c : Contract) (id : string) (p : Proposal) :
  reachable c -> Proposals c !! id = Some p ->
  Status p = StatusPassed \/ Status p = StatusExecuted ->
  100 * (tally true (Voters p) + tally false (Voters p)) <= max_u64 ->
  0 < tally true (Voters p) /\
  60 * (tally true (Voters p) + tally false (Voters p)) <= 100 * tally true (Voters p).
Proof.
  intros Hc Hp Hs Hb. destruct (proposal_of c id p (reachable_inv c Hc) Hp) as [_ Hinv].
  destruct (exact_votes p Hinv Hb) as (H1 & H2 & Ef & _ & Et & Em).
  destruct (inv_passed _ Hinv Hs) as (Hnz & Htz & Ha). rewrite Et, Em in *.
  unfold div64 in Ha. rewrite Ef in Hnz. split; [lia|].
  pose proof (Z.mul_div_le (100 * tally true (Voters p))
    (tally true (Voters p) + tally false (Voters p))). nia.
Qed.

(** The fund is accounted for: over every run of calls in which the deposits fit in 64
    bits, the balance at the end and the amounts of the proposals executed on the way add up
    to the balance at the start and the funds added. *)
Theorem fund_accounted (ks : list call) (c : Contract) :
  reachable c -> Forall call_typed ks -> FundBalance c + sumZ (map added ks) <= max_u64 ->
  FundBalance (run ks c) + payouts ks c = FundBalance c + sumZ (map added ks).
Proof.
  intros Hc Hks. revert c Hc. induction Hks as [|k ks Hk Hks IH]; intros c Hc Hs; cbn in *; [lia|].
  pose proof (reachable_inv c Hc) as Hinv.
  assert (0 <= sumZ (map added ks)).
  { apply sumZ_nonneg, Forall_map. revert Hks. apply List.Forall_impl.
    intros [] Ht; cbn in *; unfold is_u64 in *; lia. }
  pose proof (exec_fund k c Hinv Hk). pose proof (payout_nonneg k c Hinv).
  unfold sumZ in *. specialize (IH _ (reachable_call c k Hc Hk)). unfold run in IH. lia.
Qed.

(** No proposal is paid twice: after a successful execution of a proposal its record does
    not change any more and no later [ExecuteProposal] of it succeeds, whatever calls come in
    between, unless one of them creates a proposal under the same hash. *)
Theorem executed_once (c c' : Contract) (id : string) (now now' : Z) (ks : list call) :
  ExecuteProposal id now c = (c', Ok tt) -> Forall (fun k => creates k <> Some id) ks ->
  Proposals (run ks c') !! id = Proposals c' !! id /\
  (exists p, Proposals c' !! id = Some p /\ Status p = StatusExecuted /\ ExecutedAt p = now) /\
  (ExecuteProposal id now' (run ks c')).2 = Err "proposal has not passed".
Proof.
  intros He Hks. unfold ExecuteProposal in He. repeat case_match; simplify_eq.
  set (c1 := set_executed _ _). set (q := set_executed_at now (set_status StatusExecuted p)).
  assert (Hq : Proposals c1 !! id = Some q) by apply lookup_insert_eq.
  rewrite (run_settled ks c1 id q Hks Hq) by done. split_and!; [done|by exists q|].
  unfold ExecuteProposal. by rewrite (run_settled ks c1 id q Hks Hq).
Qed.

(** What [FinalizeVoting] decides, when the 64-bit products are exact: after the deadline
    an active proposal passes if the recorded votes reach a tenth of the total voting power,
    some are for it and at least 60% are; otherwise it is rejected.  Nothing else changes. *)
Theorem finalize_decides (c : Contract) (id : string) (p : Proposal) (now : Z)
    (T := tally true (Voters p)) (F := tally false (Voters p)) :
  reachable c -> Proposals c !! id = Some p -> Status p = StatusActive -> VotingEndTime p < now ->
  100 * (T + F) <= max_u64 -> 10 * TotalVotingPower c <= max_u64 ->
  FinalizeVoting id now c =
    (put_proposal id (set_status
      (if (TotalVotingPower c / 10 <=? T + F) && (0 <? T) && (60 * (T + F) <=? 100 * T)
       then StatusPassed else StatusRejected) p) c, Returned (Ok tt)).
Proof.
  intros Hc Hp Hs Hnow Hb Hw. pose proof (reachable_inv c Hc) as Hinv.
  destruct (proposal_of c id p Hinv Hp) as [_ Hpi].
  destruct (exact_votes p Hpi Hb) as (H1 & H2 & Ef & _ & Et & Em).
  destruct (inv_rules _ Hinv) as (Hthr & Hq & _). pose proof (inv_power _ Hinv) as Hpow.
  unfold FinalizeVoting, quorumVotes. rewrite Hp, Hs, Hq, Hthr, Et, Em, Ef. fold T F in H1, H2 |- *.
  rewrite mul64_small by (unfold is_u64 in Hpow; lia). unfold div64.
  replace (TotalVotingPower c * 10 / 100) with (TotalVotingPower c / 10)
    by (rewrite (Z.div_mul_cancel_r _ 10 10); lia).
  destruct (Z.leb_spec now (VotingEndTime p)); [lia|]. cbn [negb StatusActive Z.eqb].
  assert (H60 : 0 < T + F -> (60 <=? 100 * T / (T + F)) = (60 * (T + F) <=? 100 * T)).
  { intros Hpos. destruct (Z.leb_spec (60 * (T + F)) (100 * T)).
    - apply Z.leb_le. apply Z.div_le_lower_bound; lia.
    - apply Z.leb_gt. apply Z.div_lt_upper_bound; lia. }
  destruct (Z.ltb_spec (T + F) (TotalVotingPower c / 10)), (Z.leb_spec (TotalVotingPower c / 10) (T + F)),
    (Z.eqb_spec T 0), (Z.ltb_spec 0 T), (Z.eqb_spec (T + F) 0); try lia; cbn [andb]; try done.
  rewrite H60 by lia. by case_match.
Qed.

(** A vote that comes after the deadline settles the proposal: it is marked expired, and
    no run of calls that does not create it anew changes it again, so it can neither be
    finalized nor executed, whatever votes it had. *)
Theorem late_vote_is_final (c : Contract) (id voter : string) (support : bool) (p : Proposal)
    (w now now' : Z) (ks : list call) :
  Proposals c !! id = Some p -> Status p = StatusActive -> VotingEndTime p < now ->
  Forall (fun k => creates k <> Some id) ks ->
  let c' := run ks (Vote_ id voter support w now now' c).1 in
  Proposals c' !! id = Some (set_status StatusExpired p) /\
  (forall t, VotingEndTime p < t ->
    FinalizeVoting id t c' = (c', Returned (Err "proposal already finalized"))) /\
  (forall t, ExecuteProposal id t c' = (c', Err "proposal has not passed")).
Proof.
  intros Hp Hs Hnow Hks c'.
  assert (Hl : Proposals c' !! id = Some (set_status StatusExpired p)).
  { apply run_settled; [done| |done]. unfold Vote_. rewrite Hp, Hs.
    destruct (Z.ltb_spec (VotingEndTime p) now); [|lia]. apply lookup_insert_eq. }
  unfold FinalizeVoting, ExecuteProposal. rewrite Hl. split_and!; [done| |done].
  intros t Ht. cbn. destruct (Z.leb_spec t (VotingEndTime p)); [lia|done].
Qed.

(** ** A sample contract

    One proposal with two votes, 700 for and 300 against, of a total of 5000. *)
#[local] Opaque proposal_id contract_address.

Definition sample_id : string := proposal_id "alice" "t" "d" (Some [1; 2; 3; 4; 5; 6; 7; 8]) 5.
Definition sample_calls : list call :=
  [ CallAddFunds 2000; CallSetTotalVotingPower 5000;
    CallCreateProposal "alice" "t" "d" ProposalGrant 500 "bob" 1000000000
      (Some [1; 2; 3; 4; 5; 6; 7; 8]) 5 1000;
    CallVote sample_id "v1" true 700 2000 2000; CallVote sample_id "v2" false 300 3000 3000 ].
Definition sample_proposal (s : ProposalStatus) : Proposal :=
  mkProposal sample_id "alice" "t" "d" ProposalGrant 500 "bob" 1000000000 1000 605800 700 300
    {[ "v2" := mkVote "v2" false 300 3000; "v1" := mkVote "v1" true 700 2000 ]} s 0.
Definition sample : Contract :=
  put_proposal sample_id (sample_proposal StatusActive)
    (set_total_power 5000 (set_fund 2000 (NewCommunityFundGovernanceContract 0 0))).

Lemma put_put (id : string) (p q : Proposal) (c : Contract) :
  put_proposal id p (put_proposal id q c) = put_proposal id p c.
Proof. unfold put_proposal, set_proposals. cbn. by rewrite insert_insert_eq. Qed.

Lemma put_lookup (id : string) (p : Proposal) (c : Contract) :
  Proposals (put_proposal id p c) !! id = Some p.
Proof. apply lookup_insert_eq. Qed.

(** A vote that counts. *)
Definition counted (v : Vote) (p : Proposal) : Proposal :=
  let voters := <[Voter v := v]> (Voters p) in
  if Support v then set_votes (VotesFor p + VotingPower v)%u64 (VotesAgainst p) voters p
  else set_votes (VotesFor p) (VotesAgainst p + VotingPower v)%u64 voters p.

Lemma Vote_put (c : Contract) (id voter : string) (support : bool) (w now now' : Z) (p : Proposal) :
  Status p = StatusActive -> now <= VotingEndTime p -> Voters p !! voter = None -> w <> 0 ->
  Vote_ id voter support w now now' (put_proposal id p c) =
    (put_proposal id (counted (mkVote voter support w now') p) c, Ok tt).
Proof.
  intros Hs Hn Hv Hw. unfold Vote_. rewrite put_lookup, Hs, Hv, !put_put.
  destruct (Z.ltb_spec (VotingEndTime p) now), (Z.eqb_spec w 0); try lia; by destruct support.
Qed.

Lemma sample_run : run sample_calls (NewCommunityFundGovernanceContract 0 0) = sample.
Proof.
  unfold run, sample_calls. cbn [fold_left exec replies fst].
  rewrite AddFunds_exact by done. unfold CreateProposal. cbn -[put_proposal Vote_].
  fold sample_id. rewrite !Vote_put by done. done.
Qed.

Lemma sample_reachable : reachable sample.
Proof.
  rewrite <- sample_run. unfold run, sample_calls. cbn [fold_left].
  repeat (apply reachable_call; [|done]). apply reachable_new.
Qed.

Lemma sample_lookup (s : ProposalStatus) (c : Contract) :
  Proposals (put_proposal sample_id (sample_proposal s) c) !! sample_id = Some (sample_proposal s).
Proof. apply put_lookup. Qed.

Lemma sample_finalized :
  FinalizeVoting sample_id 605801 sample =
    (put_proposal sample_id (sample_proposal StatusPassed) sample, Returned (Ok tt)).
Proof.
  unfold FinalizeVoting. by rewrite (sample_lookup StatusActive _ : Proposals sample !! _ = _).
Qed.

Lemma paid_proposals_approved_witness :
  0 < 700 /\ 60 * (700 + 300) <= 100 * 700.
Proof.
  apply (paid_proposals_approved (exec (CallFinalizeVoting sample_id 605801) sample).1 sample_id
    (sample_proposal StatusPassed)).
  - apply reachable_call; [apply sample_reachable|done].
  - cbn [exec]. rewrite sample_finalized. apply sample_lookup.
  - by left.
  - done.
Defined.

Lemma fund_accounted_witness :
  FundBalance (run [CallFinalizeVoting sample_id 605801; CallExecuteProposal sample_id 605802]
    sample) = 1500.
Proof.
  pose proof (fund_accounted [CallFinalizeVoting sample_id 605801;
    CallExecuteProposal sample_id 605802] sample sample_reachable) as H.
  cbn [payouts payout exec] in H. rewrite sample_finalized in H. cbn [fst] in H.
  unfold ExecuteProposal in H at 1. rewrite sample_lookup in H.
  specialize (H ltac:(repeat constructor) ltac:(done)). revert H.
  generalize (FundBalance (run [CallFinalizeVoting sample_id 605801;
    CallExecuteProposal sample_id 605802] sample)). cbn. lia.
Defined.

Lemma executed_once_witness :
  (ExecuteProposal sample_id 605803 (run [CallExecuteProposal sample_id 605802]
    (ExecuteProposal sample_id 605802
      (put_proposal sample_id (sample_proposal StatusPassed) sample)).1)).2
    = Err "proposal has not passed".
Proof.
  eapply (executed_once (put_proposal sample_id (sample_proposal StatusPassed) sample) _
    sample_id 605802 605803 [CallExecuteProposal sample_id 605802]); [|by repeat constructor].
  unfold ExecuteProposal. by rewrite sample_lookup.
Defined.

Lemma finalize_decides_witness :
  FinalizeVoting sample_id 605801 sample =
    (put_proposal sample_id (sample_proposal StatusPassed) sample, Returned (Ok tt)).
Proof.
  apply (finalize_decides sample sample_id (sample_proposal StatusActive) 605801
    sample_reachable (sample_lookup _ _)); done.
Defined.

Lemma late_vote_is_final_witness :
  Proposals (run [CallFinalizeVoting sample_id 605802]
    (Vote_ sample_id "v3" true 1 605801 605801 sample).1) !! sample_id
    = Some (sample_proposal StatusExpired).
Proof.
  apply (late_vote_is_final sample sample_id "v3" true (sample_proposal StatusActive) 1 605801
    605801 [CallFinalizeVoting sample_id 605802] (sample_lookup _ _)); by repeat constructor.
Defined.

(** ** What 64 bits lose

    Voting power is what the caller says it is.  Two votes against of [2^63] each wrap the
    tally to 0, and one vote for passes the proposal. *)
Lemma wrapped_votes_pass (c : Contract) (id : string) (now : Z) (p : Proposal)
    (v1 := mkVote "a" false 9223372036854775808 0) (v2 := mkVote "b" false 9223372036854775808 0)
    (v3 := mkVote "c" true 1 0) (q := counted v3 (counted v2 (counted v1 p))) :
  Status p = StatusActive -> Voters p = ∅ -> VotesFor p = 0 -> VotesAgainst p = 0 ->
  VotingEndTime p < now -> quorumVotes c <= 1 -> ApprovalThreshold c = 60 ->
  tally true (Voters q) = 1 /\ tally false (Voters q) = 18446744073709551616 /\
  FinalizeVoting id now (put_proposal id q c) =
    (put_proposal id (set_status StatusPassed q) c, Returned (Ok tt)).
Proof.
  intros Hs Hv Hf Ha Hn Hq Ht. unfold FinalizeVoting. rewrite put_lookup, !put_put.
  unfold quorumVotes in *. unfold q, counted; cbn. rewrite Hv, Hf, Ha, Hs, Ht.
  destruct (Z.leb_spec now (VotingEndTime p)); [lia|]. split_and!; [done..|]. cbn.
  change (TotalVotingPower (put_proposal id _ c)) with (TotalVotingPower c).
  change (0 + 1 + (0 + 9223372036854775808 + 9223372036854775808))%u64 with 1.
  destruct (Z.ltb_spec 1 (TotalVotingPower c * QuorumPercent c / 100)%u64); [lia|done].
Qed.

(** A vote for of 1 and one against of [2^64 - 1] wrap the total to 0, and the division
    panics: the proposal stays active for ever. *)
Lemma wrapped_total_panics (c : Contract) (id : string) (now : Z) (p : Proposal) :
  Proposals c !! id = Some p -> Status p = StatusActive -> VotingEndTime p < now ->
  quorumVotes c = 0 -> VotesFor p = 1 -> VotesAgainst p = max_u64 ->
  FinalizeVoting id now c = (c, Panicked).
Proof.
  intros Hp Hs Hn Hq Hf Ha. unfold FinalizeVoting. rewrite Hp, Hs, Hq, Hf, Ha.
  destruct (Z.leb_spec now (VotingEndTime p)); [lia|done].
Qed.
